(* ===== verification/_CoqProject ===== *)
-Q . S2P
Prelude.v
Heap.v
BlockQueue.v
Request.v
RequestQueue.v
StopCheck.v
EncoderCache.v
BlockHash.v
HashMap.v
BlockPool.v
PoolOps.v
PoolCache.v
PoolSafety.v
NgramProposer.v
OrderedDict.v
OffloadPolicy.v
LruPolicy.v
ArcPolicy.v
OffloadManager.v
OffloadTracker.v
OffloadSafety.v
OffloadStore.v
OffloadReach.v
CacheHit.v
SingleTypeManager.v
TableSafety.v
TableReach.v
Coordinator.v
PrivateTail.v
HybridHit.v
FoundBlocks.v
Retention.v
CacheSafety.v
KVCacheManager.v
KVManagerSafety.v
KVManagerReach.v
KVManagerInit.v
KVManagerCalls.v
KVManagerTrace.v
Scheduler.v
SchedulerSafety.v
SchedulerPreempt.v
SchedulerWaiting.v
SchedulerStep.v
SchedulerUpdate.v
SchedulerFinish.v
SchedulerResult.v
SchedulerKV.v
SchedulerEngine.v
SchedulerTrace.v
ToolParser.v
RwkvState.v
