(* ===== verification/Prelude.v ===== *)
(** Verification of the control plane of vLLM (the RWKV fork): the data
    structures and decisions that hand out KV-cache memory, identify cached
    prefixes, schedule, preempt, order and stop requests, draft speculative tokens
    and move KV data to host memory, up to the engine's step around them; and two
    parts of the fork's own: the recurrent state of the RWKV workers and the RWKV
    tool-call parser.  The program is Python; every definition below is a
    translation of the code named next to it, under [src/vllm/].

    * How Python is modelled

    [Prelude] defines [M S A], computations on a state [S] that return a value
    or raise an exception ([outcome]); mutations made before an exception stay
    visible.  [zoom] runs a method of a component on the object that owns it,
    [for_] and [fold_] are Python's [for] loops, [wp] is the weakest
    precondition for runs that return normally and [wp_simpl] executes the
    straight-line part of a method in a proof.  Python integers are [Z];
    machine-width fields wrap where the code declares them ([ctypes] fields of
    a chunk).  Objects that several owners mutate (KV-cache blocks, offloaded
    chunks) live in an explicit store and are referred to by their number.
    Dicts and sets are [gmap] and [gset]; where insertion order matters
    ([OrderedDict], the dicts of the encoder cache and of the hash index) they
    are association lists.  A set's iteration order, a digest, float rounding
    and other code outside the repository are parameters with their documented
    behaviour as named hypotheses.  Loops that are not structural carry fuel;
    each such loop has a theorem that the fuel the code is given suffices:
    [OutOfFuel] is never the outcome of a modelled call within its contract.

    * Files

    - [Heap]: Python's [heapq] ([heappush], [heappop], [heapify]) over any
      strict weak order, used by the priority queue and the LRU policy.
    - [BlockQueue]: [KVCacheBlock] and the doubly linked [FreeKVCacheBlockQueue]
      ([v1/core/kv_cache_utils.py]); it refines a deque of block ids.
    - [Request]: the request object ([v1/request.py]) with its statuses.
    - [RequestQueue]: the waiting queues ([v1/core/sched/request_queue.py]) as a
      class with laws and its FCFS and priority instances.
    - [StopCheck]: stop conditions and repetition detection
      ([v1/core/sched/utils.py]).
    - [EncoderCache]: the encoder cache managers
      ([v1/core/encoder_cache_manager.py]).
    - [BlockHash]: block hashes, extra keys, the incremental hasher
      ([v1/core/kv_cache_utils.py]); the digest is a parameter.
    - [HashMap]: the prefix-cache index [BlockHashToBlockMap]
      ([v1/core/block_pool.py]).
    - [BlockPool], [PoolOps], [PoolCache], [PoolSafety]: the block pool
      ([v1/core/block_pool.py]): operations and invariant; construction,
      eviction, reset; caching of full and partial blocks; reachable states and
      the promises to clients.
    - [NgramProposer]: prompt-lookup drafting ([v1/spec_decode/ngram_proposer.py]).
    - [OrderedDict]: Python's [OrderedDict].
    - [OffloadPolicy]: offload keys, chunks and the eviction policy interface
      with its laws ([v1/kv_offload/base.py], [v1/kv_offload/cpu/policies/base.py]);
      [LruPolicy] and [ArcPolicy] are its two implementations
      ([policies/lru.py], [policies/arc.py]).
    - [OffloadManager]: the CPU offloading manager ([v1/kv_offload/cpu/manager.py])
      over any policy; [OffloadTracker] its admission tracker; [OffloadSafety],
      [OffloadStore] and [OffloadReach] its invariant, stores and reachable
      states.
    - [CacheHit]: the prefix-cache lookups of the full-attention, sliding-window
      and chunked-local managers ([v1/core/single_type_kv_cache_manager.py]).
    - [SingleTypeManager]: the block tables of one KV cache group (same source);
      [TableSafety] what each operation does to tables and references;
      [TableReach] reachable states and the admission cap.
    - [Coordinator]: several groups on one pool
      ([v1/core/kv_cache_coordinator.py]) and the admission check; [HybridHit]
      the lookup of models with several attention types (same source).
    - [Retention]: caching of a request's blocks by its groups: retention masks
      of sparse groups, replay boundaries, partial tail blocks
      ([v1/core/single_type_kv_cache_manager.py],
      [v1/core/kv_cache_coordinator.py]).
    - [PrivateTail]: the blocks a request is still filling belong to it alone and
      carry no hash of a full block; [FoundBlocks]: lookups return registered
      blocks only; [CacheSafety]: caching keeps the invariant of the tables.
    - [KVCacheManager]: the manager the scheduler calls and its construction
      ([v1/core/kv_cache_manager.py], [v1/core/kv_cache_coordinator.py]);
      [KVManagerSafety] the contract and the stages of [allocate_slots],
      [KVManagerReach] lookups that feed it, [KVManagerInit] construction,
      [KVManagerCalls] the calls that read or drain, [KVManagerTrace] reachable
      states.
    - [Scheduler]: the state of the scheduler, its scheduling step and the arrival
      of requests ([v1/core/sched/scheduler.py]), over classes for the queues and
      for the KV cache manager ([KVOps]); [SchedulerSafety] the invariant, the
      promises expected of a KV cache manager ([KVLaws]) and the running requests,
      [SchedulerPreempt] the choice of a victim, [SchedulerWaiting] the waiting
      requests, [SchedulerStep] the whole step.
    - [SchedulerUpdate]: results of a model step, the end of requests and the
      engine's step ([v1/core/sched/scheduler.py], [v1/engine/core.py]);
      [SchedulerFinish] requests that leave, [SchedulerResult] the update,
      [SchedulerKV] the KV cache manager as an instance of [KVLaws],
      [SchedulerEngine] the calls of the engine and the registry they refine,
      [SchedulerTrace] every sequence of calls from the construction on.
    - [ToolParser]: the extraction of tool calls from RWKV model output, whole
      and streamed ([tool_parsers/rwkv_tool_parser.py]).
    - [RwkvState]: the recurrent-state pool of the RWKV workers and the
      preparation of a batch ([v1/worker/gpu/model_states/rwkv.py]).

    * How the components interact

    The block pool owns the blocks, the free queue and the index; a request's
    [block_hashes], kept by the incremental hasher, are what the pool registers
    and looks up.  The offloading manager owns chunk objects shared with its
    policy: the manager changes reference counts, the policy reads them, and
    the manager's theorems are proved against the policy class and instantiated
    with either policy.  The single-type managers keep one block table per
    request and call the pool; their theorems count the references of the other
    holders of the pool abstractly ([others]), so that the coordinator can
    instantiate them for each of its groups.  The KV cache manager composes the
    lookup, the admission check, the allocation and the caching of the
    coordinator in [allocate_slots].  The scheduler plans a batch from its queues,
    asks the KV cache manager for slots and preempts when there are none; the
    engine runs the batch and hands the tokens back, which may stop requests
    ([check_stop]) and give their blocks back.  Its theorems are proved against the
    classes of the queue and of the KV cache manager and instantiated with the
    manager's.  The encoder cache acts on requests.  The RWKV model state holds one slot of the state pool
    per request; the pool's tensors are reached through a handle of the kernel
    library, a class with the laws of its documented operations.  The tool parser
    decodes JSON through a parameter that may raise.

    * What the theorems show

    - Memory safety of the block pool: in every reachable state the free list
      is a duplicate-free chain of exactly the unreferenced blocks and the index
      agrees with the blocks' hashes; a new block is never in use and carries no
      stale hash; touched blocks cannot be handed out; freed blocks are reused
      in the documented order; reset succeeds exactly when nothing is in use.
    - Correct prefix caching: the hashes of a request are the chained hashes of
      its full blocks whatever the batching of appends; with a collision-free
      digest equal hashes mean equal prefixes and extra keys; cached blocks are
      found under their hash.
    - Data-structure refinements: linked list to deque, hash index to table,
      heap to sorted list, KMP search to the specification of the longest
      n-gram match.
    - CPU offloading: no chunk buffer is lost or shared, counters are exact, no
      assertion fails in contract, stores and loads round-trip, chunks being
      loaded stay in place whatever calls follow, LRU evicts the least recently used eligible chunks, ARC
      keeps its lists disjoint and bounded and evicts by its target size.
    - KV cache groups: each lookup returns the longest hit its attention type
      allows, with the cached block of every position; the lookup over several
      attention types terminates with the longest prefix they agree on; reference counters equal
      the occurrences in the block tables and pending copies; a request that
      passes the admission check is allocated in all groups without an
      exception and without losing a hit; windowed groups stay below their
      admission cap; the retention mask of a sparse group marks exactly the
      blocks a later lookup at a replay boundary needs, and what it retained is
      found again.
    - The scheduler and the engine: from their construction on, arrivals, aborts,
      pauses and iterations never raise within their contract and act on the known
      requests as a registry that forgets a request exactly when it is aborted or
      reported as finished; a step stays within its token budget and batch limit
      and every scheduled request has its slots; each request is in exactly one
      place, and one that left holds no block.
    - The KV cache manager: from its construction on, the calls of a scheduler
      never raise within their contract, reference counts equal the table
      entries, a block being filled is in one place; a new request gets slots
      for all its tokens in every group or is refused exactly for lack of
      blocks, and other requests' tables are untouched.
    - The RWKV fork: streaming a model's output through the tool parser, in any
      chunking, yields what the whole-text extraction yields, or raises where that
      raises, and only exceptions of the JSON library; the recurrent
      state a batch reads for a request is the state after exactly its computed
      tokens, whatever slots were reused.
    - Requests: queues neither lose nor duplicate requests; stop checks decide as
      specified; encoder slots are accounted for.

    * Bounds and fuel

    The free list is walked with one unit of fuel per block, the heap's sift
    loops with the heap's length, the KMP search with twice the number of
    tokens (its measure [2 * (n - i) + prev_lps] decreases), the LRU selection
    loop with the length of the heap, the hybrid lookup with one round more than
    the maximal hit length (every further round shortens the hit), the search
    for tool-call markers with one round more than the text's length, the loops of
    the scheduling step with one round more than the requests they can visit or
    preempt.  Token
    counts of the RWKV state fit 32 bits.  Reference counts of chunks stay below
    [2 ^ 31], chunk ids below [2 ^ 63], group ids fit four bytes; outside these
    bounds the model wraps or raises as the code does.  The theorems on the KV
    cache manager and on the engine take all groups to have one effective block
    size, the scheduler's and the hash granularity; those on lookups, tables and
    masks alone do not.  The engine is the synchronous one, for a scheduler with
    nonnegative budgets whose long-prefill threshold is off or exceeds the number
    of speculative tokens (below it an assertion fails,
    [SchedulerTrace.threshold_breaks_padding]).

    * Not modelled

    Device code (workers, attention backends, kernels, models, samplers),
    network transfer, servers, configuration parsing, tokenizers, the tool
    parsers of other models and compilation: tensors, processes and third-party
    libraries rather than decisions on the data above.  The Mamba and other
    special managers (and with them sub-block hits of hybrid models and the
    boundary-state offloads of the KV cache manager); of the scheduler the
    asynchronous mode, connectors, LoRA limits, encoder inputs, streaming sessions
    and frees deferred behind batches in flight. *)
From Stdlib Require Import ZArith Lia Strings.Byte.
From stdpp Require Import base list numbers gmap strings.

(** * Python computations: state passing with exceptions *)

Declare Scope py_scope.
Delimit Scope py_scope with py.

(** The exception classes the modelled code raises or catches.  [OutOfFuel] is
    raised only by the model, when a fuel-bounded loop is given too little fuel. *)
Inductive exn :=
| ValueError | RuntimeError | AssertionError | IndexError | KeyError
| OverflowError | StopIteration | JSONDecodeError | RecursionError | OutOfFuel.

#[export] Instance exn_eq_dec : EqDecision exn.
Proof. solve_decision. Defined.

Inductive outcome (A : Type) :=
| Ok (a : A)
| Raise (e : exn).
Arguments Ok {A} a.
Arguments Raise {A} e.

(** A method on an object with state [S]: mutations made before an exception
    stay visible, as they do in Python. *)
Definition M (S A : Type) : Type := S -> outcome A * S.

Section monad.
Context {S : Type}.

Definition ret {A} (a : A) : M S A := fun s => (Ok a, s).
Definition raise {A} (e : exn) : M S A := fun s => (Raise e, s).
Definition bind {A B} (m : M S A) (k : A -> M S B) : M S B :=
  fun s => match m s with
           | (Ok a, s') => k a s'
           | (Raise e, s') => (Raise e, s')
           end.
Definition gets {A} (f : S -> A) : M S A := fun s => (Ok (f s), s).
Definition modify (f : S -> S) : M S unit := fun s => (Ok tt, f s).
Definition assert_ (b : bool) : M S unit :=
  if b then ret tt else raise AssertionError.
Definition lift {A} (o : outcome A) : M S A := fun s => (o, s).

(** [for x in xs: f x] *)
Fixpoint for_ {A} (xs : list A) (f : A -> M S unit) : M S unit :=
  match xs with
  | [] => ret tt
  | x :: xs => bind (f x) (fun _ => for_ xs f)
  end.

(** [for x in xs] with local variables [acc] threaded through the body. *)
Fixpoint fold_ {A B} (xs : list A) (acc : B) (f : B -> A -> M S B) : M S B :=
  match xs with
  | [] => ret acc
  | x :: xs => bind (f acc x) (fun acc => fold_ xs acc f)
  end.
End monad.

(** Run a method of a component on the object that owns it. *)
Definition zoom {S T A} (get : S -> T) (set : T -> S -> S) (m : M T A) : M S A :=
  fun s => match m (get s) with (o, t) => (o, set t s) end.

Notation "'let!' x := m 'in' k" := (bind m (fun x => k))
  (at level 10, x pattern, m at level 100, k at level 200,
   format "'[v' 'let!'  x  :=  m  'in' '/' k ']'") : py_scope.
Notation "m ;; k" := (bind m (fun _ => k))
  (at level 100, k at level 200, right associativity,
   format "'[v' m  ;; '/' k ']'") : py_scope.
Open Scope py_scope.

(** Outcomes in sequence. *)
Definition obind {A B} (o : outcome A) (k : A -> outcome B) : outcome B :=
  match o with Ok a => k a | Raise e => Raise e end.
Notation "'let?' x := o 'in' k" := (obind o (fun x => k))
  (at level 10, x pattern, o at level 100, k at level 200) : py_scope.

(** Weakest precondition for runs that return normally. *)
Definition wp {S A} (m : M S A) (Q : A -> S -> Prop) (s : S) : Prop :=
  match m s with
  | (Ok a, s') => Q a s'
  | (Raise _, _) => False
  end.

Section wp_rules.
Context {S : Type}.
Implicit Types s : S.

Lemma wp_run {A} (m : M S A) Q s :
  wp m Q s <-> exists a s', m s = (Ok a, s') /\ Q a s'.
Proof. unfold wp. destruct (m s) as [[]]; naive_solver. Qed.

Lemma wp_of_run {A} (m : M S A) Q s a s' : m s = (Ok a, s') -> Q a s' -> wp m Q s.
Proof. intros E ?. unfold wp. by rewrite E. Qed.

Lemma wp_ret {A} (a : A) Q s : wp (ret a) Q s <-> Q a s.
Proof. done. Qed.
Lemma wp_gets {A} (f : S -> A) Q s : wp (gets f) Q s <-> Q (f s) s.
Proof. done. Qed.
Lemma wp_modify f Q s : wp (modify f) Q s <-> Q tt (f s).
Proof. done. Qed.
Lemma wp_bind {A B} (m : M S A) (k : A -> M S B) Q s :
  wp (bind m k) Q s <-> wp m (fun a => wp (k a) Q) s.
Proof. unfold wp, bind. by destruct (m s) as [[]]. Qed.
Lemma wp_assert b Q s : wp (assert_ b) Q s <-> b = true /\ Q tt s.
Proof. destruct b; unfold wp; simpl; naive_solver. Qed.
Lemma wp_lift {A} (o : outcome A) Q s :
  wp (lift o) Q s <-> exists a, o = Ok a /\ Q a s.
Proof. unfold wp. destruct o; naive_solver. Qed.

Lemma wp_mono {A} (m : M S A) (Q Q' : A -> S -> Prop) s :
  wp m Q s -> (forall a s', Q a s' -> Q' a s') -> wp m Q' s.
Proof. unfold wp. destruct (m s) as [[]]; auto. Qed.

(** Loop rule: [I done todo] holds at the head of every iteration. *)
Lemma wp_for {A} (xs : list A) f (I : list A -> list A -> S -> Prop) Q s :
  I [] xs s ->
  (forall done x todo s', xs = done ++ x :: todo -> I done (x :: todo) s' ->
     wp (f x) (fun _ => I (done ++ [x]) todo) s') ->
  (forall s', I xs [] s' -> Q tt s') ->
  wp (for_ xs f) Q s.
Proof.
  intros H0 Hstep Hend.
  cut (forall todo done s', xs = done ++ todo -> I done todo s' ->
         wp (for_ todo f) Q s'); [intros Hc; by apply (Hc xs [])|].
  induction todo as [|x todo IH]; intros done s' -> HI; simpl.
  - apply wp_ret, Hend. by rewrite app_nil_r.
  - apply wp_bind. eapply wp_mono; [by eapply Hstep|].
    intros [] s'' HI'. apply (IH (done ++ [x])); [by rewrite <- app_assoc|done].
Qed.

Lemma wp_fold {A B} (xs : list A) (acc : B) f
    (I : list A -> list A -> B -> S -> Prop) Q s :
  I [] xs acc s ->
  (forall done x todo b s', xs = done ++ x :: todo -> I done (x :: todo) b s' ->
     wp (f b x) (fun b' => I (done ++ [x]) todo b') s') ->
  (forall b s', I xs [] b s' -> Q b s') ->
  wp (fold_ xs acc f) Q s.
Proof.
  intros H0 Hstep Hend.
  cut (forall todo done b s', xs = done ++ todo -> I done todo b s' ->
         wp (fold_ todo b f) Q s'); [intros Hc; by apply (Hc xs [])|].
  clear H0. induction todo as [|x todo IH]; intros done b s' -> HI; simpl.
  - apply wp_ret, Hend. by rewrite app_nil_r.
  - apply wp_bind. eapply wp_mono; [by eapply Hstep|].
    intros b' s'' HI'. apply (IH (done ++ [x])); [by rewrite <- app_assoc|done].
Qed.
End wp_rules.

Lemma wp_zoom {S T A} (get : S -> T) set (m : M T A) Q s :
  wp (zoom get set m) Q s <-> wp m (fun a t => Q a (set t s)) (get s).
Proof. unfold wp, zoom. by destruct (m (get s)) as [[]]. Qed.

(** Symbolic execution of the straight-line part of a method. *)
Create HintDb py.
#[export] Hint Rewrite @wp_ret @wp_gets @wp_modify @wp_bind @wp_assert @wp_lift
  @wp_zoom : py.
Ltac wp_simpl := repeat (progress (autorewrite with py; cbv beta)).

(** Case analysis on the innermost match or if of the goal. *)
Ltac case_on :=
  match goal with
  | |- context [match ?x with _ => _ end] =>
      lazymatch x with
      | context [match _ with _ => _ end] => fail
      | _ => destruct x eqn:?
      end
  end.

(** Decide the boolean tests of the code. *)
Ltac bools :=
  repeat match goal with
  | H : (_ && _)%bool = true |- _ => apply andb_true_iff in H as [? ?]
  | H : (_ || _)%bool = false |- _ => apply orb_false_iff in H as [? ?]
  | H : negb _ = true |- _ => apply negb_true_iff in H
  | H : negb _ = false |- _ => apply negb_false_iff in H
  | H : (_ >=? _)%Z = _ |- _ => rewrite Z.geb_leb in H
  | H : (_ >? _)%Z = _ |- _ => rewrite Z.gtb_ltb in H
  | H : bool_decide _ = true |- _ => apply bool_decide_eq_true_1 in H
  | H : bool_decide _ = false |- _ => apply bool_decide_eq_false_1 in H
  | H : (_ <=? _)%Z = true |- _ => apply Z.leb_le in H
  | H : (_ <=? _)%Z = false |- _ => apply Z.leb_gt in H
  | H : (_ <? _)%Z = true |- _ => apply Z.ltb_lt in H
  | H : (_ <? _)%Z = false |- _ => apply Z.ltb_ge in H
  | H : (_ =? _)%Z = true |- _ => apply Z.eqb_eq in H
  | H : (_ =? _)%Z = false |- _ => apply Z.eqb_neq in H
  end.

(** * Python bytes *)

Abbreviation bytes := (list Byte.byte).

#[export] Instance byte_eq_dec : EqDecision Byte.byte := Byte.byte_eq_dec.
#[export] Instance byte_countable : Countable Byte.byte.
Proof. exact (inj_countable Byte.to_N Byte.of_N Byte.of_to_N). Defined.

(** * Machine integers *)

(** Two's-complement wrap-around at [w] bits: what a [ctypes] integer field
    or an element of a NumPy array stores. *)
Definition wrap_signed (w z : Z) : Z := ((z + 2 ^ (w - 1)) mod 2 ^ w - 2 ^ (w - 1))%Z.

Lemma wrap_signed_id w z : (0 < w)%Z -> (- 2 ^ (w - 1) <= z < 2 ^ (w - 1))%Z -> wrap_signed w z = z.
Proof.
  intros Hw Hz. unfold wrap_signed. assert (2 ^ w = 2 * 2 ^ (w - 1))%Z as E.
  { rewrite <- Z.pow_succ_r by lia. f_equal. lia. }
  rewrite Z.mod_small by lia. lia.
Qed.

(** * Python lists *)

Abbreviation zlen l := (Z.of_nat (length l)).

(** [l[i]], negative indices counted from the end; [None] is IndexError. *)
Definition py_get {A} (l : list A) (i : Z) : option A :=
  let j := (if i <? 0 then i + zlen l else i)%Z in
  if (j <? 0)%Z then None else l !! Z.to_nat j.

(** [l[i] = v]; [None] is IndexError. *)
Definition py_set {A} (l : list A) (i : Z) (v : A) : option (list A) :=
  let j := (if i <? 0 then i + zlen l else i)%Z in
  if ((j <? 0) || (zlen l <=? j))%Z then None else Some (<[Z.to_nat j := v]> l).

(** The clamping of a slice bound. *)
Definition slice_bound {A} (l : list A) (i : Z) : nat :=
  Z.to_nat (Z.min (zlen l) (if i <? 0 then Z.max 0 (i + zlen l) else i))%Z.

(** [l[a:b]], [l[a:]] and [l[:b]] *)
Definition py_slice {A} (a b : Z) (l : list A) : list A :=
  take (slice_bound l b - slice_bound l a) (drop (slice_bound l a) l).
Definition py_from {A} (a : Z) (l : list A) : list A := drop (slice_bound l a) l.
Definition py_upto {A} (b : Z) (l : list A) : list A := take (slice_bound l b) l.

(** [range(a, b)] *)
Definition py_range (a b : Z) : list Z := seqZ a (b - a).

Definition or_raise {A} (o : option A) (e : exn) : outcome A :=
  match o with Some a => Ok a | None => Raise e end.

Lemma py_get_nonneg {A} (l : list A) i :
  (0 <= i)%Z -> py_get l i = l !! Z.to_nat i.
Proof. intros. unfold py_get. by rewrite !(proj2 (Z.ltb_ge i 0)) by lia. Qed.

Lemma py_get_nat {A} (l : list A) (i : nat) : py_get l (Z.of_nat i) = l !! i.
Proof. rewrite py_get_nonneg by lia. by rewrite Nat2Z.id. Qed.

Lemma py_set_in {A} (l : list A) i v :
  (0 <= i < zlen l)%Z -> py_set l i v = Some (<[Z.to_nat i := v]> l).
Proof.
  intros. unfold py_set. rewrite !(proj2 (Z.ltb_ge i 0)) by lia.
  by rewrite (proj2 (Z.leb_gt _ _)) by lia.
Qed.

Lemma py_set_nat {A} (l : list A) (i : nat) v l' :
  py_set l (Z.of_nat i) v = Some l' -> (i < length l)%nat /\ l' = <[i := v]> l.
Proof.
  unfold py_set. rewrite (proj2 (Z.ltb_ge (Z.of_nat i) 0)) by lia. rewrite Nat2Z.id.
  destruct ((_ <? 0) || _)%Z eqn:E; [done|]. intros [= <-]. apply orb_false_iff in E as [_ E%Z.leb_gt]. split; [lia|done].
Qed.

Lemma py_get_last {A} (l : list A) : py_get l (-1) = last l.
Proof.
  destruct l as [|x l _] using rev_ind; [done|].
  unfold py_get. change (-1 <? 0)%Z with true. cbv iota. rewrite length_app, last_snoc. simpl length.
  rewrite (proj2 (Z.ltb_ge _ _)) by lia.
  replace (Z.to_nat _) with (length l) by lia. by apply list_lookup_middle.
Qed.

Lemma slice_bound_in {A} (l : list A) i :
  (0 <= i <= zlen l)%Z -> slice_bound l i = Z.to_nat i.
Proof.
  intros. unfold slice_bound.
  rewrite (proj2 (Z.ltb_ge i 0)) by lia. f_equal. lia.
Qed.

Lemma py_slice_in {A} (a b : Z) (l : list A) :
  (0 <= a <= b)%Z -> (b <= zlen l)%Z ->
  py_slice a b l = take (Z.to_nat (b - a)) (drop (Z.to_nat a) l).
Proof.
  intros. unfold py_slice. rewrite !slice_bound_in by lia. f_equal. lia.
Qed.

Lemma py_slice_app_l {A} (a b : Z) (l l' : list A) :
  (0 <= a <= b)%Z -> (b <= zlen l)%Z -> py_slice a b (l ++ l') = py_slice a b l.
Proof.
  intros. rewrite !py_slice_in by (rewrite ?length_app; lia).
  rewrite drop_app_le by lia. rewrite take_app_le; [done|]. rewrite length_drop. lia.
Qed.

Lemma py_from_in {A} (a : Z) (l : list A) :
  (0 <= a <= zlen l)%Z -> py_from a l = drop (Z.to_nat a) l.
Proof. intros. unfold py_from. by rewrite slice_bound_in by lia. Qed.

Lemma py_range_nil (a b : Z) : (b <= a)%Z -> py_range a b = [].
Proof. intros. unfold py_range. apply seqZ_nil. lia. Qed.

Lemma py_range_cons (a b : Z) :
  (a < b)%Z -> py_range a b = a :: py_range (a + 1) b.
Proof.
  intros. unfold py_range. rewrite seqZ_cons by lia.
  by replace (Z.pred (b - a)) with (b - (a + 1))%Z by lia.
Qed.

Lemma elem_of_py_range (a b x : Z) : x ∈ py_range a b <-> (a <= x < b)%Z.
Proof. unfold py_range. rewrite elem_of_seqZ. lia. Qed.

(** [list(enumerate(l))] *)
Definition enumerate {A} (l : list A) : list (Z * A) := zip (py_range 0 (zlen l)) l.

Lemma elem_of_enumerate {A} (l : list A) i x :
  (i, x) ∈ enumerate l <-> (0 <= i)%Z /\ l !! Z.to_nat i = Some x.
Proof.
  unfold enumerate. rewrite list_elem_of_lookup. split.
  - intros [k (a & b & E & Hi & Hx)%lookup_zip_with_Some]. simplify_eq.
    apply lookup_seqZ in Hi as [-> Hk]. split; [lia|]. by rewrite Z.add_0_l, Nat2Z.id.
  - intros [Hi Hx]. exists (Z.to_nat i). apply lookup_zip_with_Some. exists i, x. split; [done|].
    split; [|done]. apply lookup_seqZ. apply lookup_lt_Some in Hx. lia.
Qed.

Lemma enumerate_nodup {A} (l : list A) : NoDup (enumerate l).*1.
Proof.
  unfold enumerate. rewrite fst_zip; [apply NoDup_seqZ|].
  unfold py_range. rewrite length_seqZ. lia.
Qed.

Lemma enumerate_app {A} (a b : list A) : enumerate (a ++ b) = enumerate a ++ zip (py_range (zlen a) (zlen a + zlen b)) b.
Proof.
  unfold enumerate, py_range. rewrite length_app, Nat2Z.inj_add, !Z.sub_0_r.
  replace ((zlen a + zlen b - zlen a)%Z) with (zlen b) by lia.
  rewrite seqZ_app by lia. apply zip_with_app. rewrite length_seqZ. lia.
Qed.

Lemma take_slice {A} (a b : Z) (l : list A) :
  (0 <= a <= b)%Z -> (b <= zlen l)%Z -> take (Z.to_nat b) l = take (Z.to_nat a) l ++ py_slice a b l.
Proof.
  intros Ha Hb. rewrite py_slice_in by lia. rewrite <- (take_drop (Z.to_nat a) (take (Z.to_nat b) l)), take_take.
  rewrite Nat.min_l by lia. f_equal. rewrite skipn_firstn_comm. f_equal. lia.
Qed.

Lemma fold_app {S A B} (xs ys : list A) (acc : B) (f : B -> A -> M S B) s :
  fold_ (xs ++ ys) acc f s = bind (fold_ xs acc f) (fun acc => fold_ ys acc f) s.
Proof.
  revert acc s. induction xs as [|x xs IH]; intros acc s; simpl; [done|]. unfold bind.
  destruct (f acc x s) as [[b|e] s']; [apply IH|done].
Qed.
Lemma wp_fold_app {S A B} (xs ys : list A) (acc : B) (f : B -> A -> M S B) Q s :
  wp (fold_ (xs ++ ys) acc f) Q s <-> wp (fold_ xs acc f) (fun acc => wp (fold_ ys acc f) Q) s.
Proof.
  revert acc s. induction xs as [|x xs IH]; intros acc s; simpl; [by rewrite wp_ret|].
  rewrite !wp_bind. split; intros H; (eapply wp_mono; [exact H|]); intros; by apply IH.
Qed.

Lemma py_range_later (a b : Z) (l : list Z) (i : Z) (k : list Z) (j : Z) :
  py_range a b = l ++ i :: k -> j ∈ k -> (i + 1 <= j)%Z.
Proof.
  unfold py_range. intros E [n Hn]%list_elem_of_lookup.
  assert (seqZ a (b - a) !! length l = Some i) as Hi.
  { rewrite E, lookup_app_r by lia. by rewrite Nat.sub_diag. }
  assert (seqZ a (b - a) !! (length l + S n)%nat = Some j) as Hj.
  { rewrite E, lookup_app_r by lia. by replace (length l + S n - length l)%nat with (S n) by lia. }
  apply lookup_seqZ in Hi, Hj. lia.
Qed.

(** * Lists *)

Lemma list_filter_id {A} (P : A -> Prop) `{!forall x, Decision (P x)} (l : list A) :
  (forall x, x ∈ l -> P x) -> filter P l = l.
Proof.
  induction l as [|x l IH]; intros Hl; [done|].
  rewrite filter_cons_True by (apply Hl; set_solver). f_equal. apply IH. set_solver.
Qed.

Lemma decide_elem_cons {A B} `{EqDecision A} (y x : A) (l : list A) (a b : B) :
  (if decide (y ∈ x :: l) then a else b) =
    if decide (y ∈ l) then a else if decide (x = y) then a else b.
Proof.
  destruct (decide (y ∈ l)); [by rewrite decide_True by (by right)|].
  destruct (decide (x = y)) as [->|]; [by rewrite decide_True by left|].
  rewrite decide_False; [done|]. rewrite elem_of_cons. naive_solver.
Qed.
