(* ===== verification/Heap.v ===== *)
(** Python's [heapq] as the scheduler's priority queue uses it: [heappush],
    [heappop], [heapify] with their sift loops, over any strict weak order, and
    their correctness: the heap order is kept, the contents are permuted, and
    the popped element is a minimum. *)
From Stdlib Require Import ZArith Lia Sorting.Sorted.
From stdpp Require Import base numbers list.
From S2P Require Import Prelude.

(** * Permutations by index updates *)

Lemma perm_insert {A} (l : list A) k x y :
  l !! k = Some y -> y :: <[k := x]> l ≡ₚ x :: l.
Proof.
  revert k. induction l as [|z l IH]; intros [|k] H; simplify_eq/=; [apply perm_swap|].
  rewrite perm_swap, IH by done. apply perm_swap.
Qed.

(** Moving the element at [j] to [i] and putting [x] at [j] is, up to order,
    putting [x] at [i]. *)
Lemma perm_move {A} (l : list A) i j x y :
  i <> j -> i < length l -> l !! j = Some y ->
  <[j := x]> (<[i := y]> l) ≡ₚ <[i := x]> l.
Proof.
  intros Hij Hi Hj. destruct (lookup_lt_is_Some_2 l i Hi) as [z Hz].
  apply (Permutation_cons_inv (a := y)), (Permutation_cons_inv (a := z)).
  rewrite (perm_insert (<[i := y]> l) j x y) by by rewrite list_lookup_insert_ne.
  rewrite (perm_swap y z), (perm_insert l i x z), (perm_swap x z), (perm_insert l i y z) by done.
  apply perm_swap.
Qed.

(** * Orders given by a comparison *)

Section comparisons.
Context {A : Type}.
(** A total preorder given by its comparison function. *)
Record is_cmp (c : A -> A -> comparison) : Prop := {
  cmp_opp : forall x y, c y x = CompOpp (c x y);
  cmp_trans : forall x y z, c x y <> Gt -> c y z <> Gt -> c x z <> Gt
}.
Definition lex (c1 c2 : A -> A -> comparison) (x y : A) : comparison :=
  match c1 x y with Eq => c2 x y | r => r end.

Lemma cmp_eq_trans c x y z :
  is_cmp c -> c x y <> Gt -> c y z <> Gt -> c x z = Eq -> c x y = Eq /\ c y z = Eq.
Proof.
  intros [Ho Ht] H1 H2 H3.
  assert (c z x <> Gt) as H4 by (rewrite (Ho x z), H3; done).
  pose proof (Ht y z x H2 H4) as H5. pose proof (Ht z x y H4 H1) as H6.
  rewrite (Ho x y) in H5. rewrite (Ho y z) in H6.
  by destruct (c x y), (c y z).
Qed.

Lemma lex_cmp c1 c2 : is_cmp c1 -> is_cmp c2 -> is_cmp (lex c1 c2).
Proof.
  intros H1 H2. split.
  - intros x y. unfold lex. rewrite (cmp_opp _ H1 x y). destruct (c1 x y); simpl; auto using cmp_opp.
  - intros x y z Hxy Hyz. unfold lex in *.
    assert (c1 x y <> Gt) as Ha by by destruct (c1 x y).
    assert (c1 y z <> Gt) as Hb by by destruct (c1 y z).
    pose proof (cmp_trans _ H1 x y z Ha Hb) as Hc.
    destruct (c1 x z) eqn:E; [|done|done].
    destruct (cmp_eq_trans c1 x y z H1 Ha Hb E) as [E1 E2]. rewrite E1 in Hxy. rewrite E2 in Hyz.
    by apply (cmp_trans _ H2 x y z).
Qed.

(** The strict order of a comparison. *)
Definition cmp_lt (c : A -> A -> comparison) (x y : A) : bool :=
  match c x y with Lt => true | _ => false end.

Lemma cmp_lt_asym c : is_cmp c -> forall x y, cmp_lt c x y = true -> cmp_lt c y x = false.
Proof. intros Hc x y. unfold cmp_lt. rewrite (cmp_opp _ Hc x y). by destruct (c x y). Qed.

Lemma cmp_lt_ntrans c : is_cmp c ->
  forall x y z, cmp_lt c y x = false -> cmp_lt c z y = false -> cmp_lt c z x = false.
Proof.
  unfold cmp_lt. intros Hc x y z H1 H2. assert (c x z <> Gt) as H.
  { apply (cmp_trans _ Hc x y z); [rewrite (cmp_opp _ Hc y x)|rewrite (cmp_opp _ Hc z y)].
    - by destruct (c y x).
    - by destruct (c z y). }
  rewrite (cmp_opp _ Hc x z). by destruct (c x z).
Qed.
End comparisons.

Lemma Zcompare_cmp {A} (f : A -> Z) : is_cmp (fun x y => Z.compare (f x) (f y)).
Proof.
  split.
  - intros x y. by rewrite Z.compare_antisym.
  - intros x y z. rewrite !Z.compare_gt_iff. lia.
Qed.

Module Heap.
Section heapq.
Context {A : Type} (lt : A -> A -> bool).

Definition par (i : nat) : nat := (i - 1) / 2.

(** [_siftdown(heap, startpos, pos)] with [newitem]; the loop halves [pos], so
    [fuel = pos] is enough. *)
Fixpoint siftdown_loop (fuel : nat) (heap : list A) (startpos pos : nat) (newitem : A) :
    outcome (list A) :=
  if decide (startpos < pos) then
    match fuel with
    | O => Raise OutOfFuel
    | S fuel =>
        match heap !! par pos with
        | None => Raise IndexError
        | Some parent =>
            if lt newitem parent
            then siftdown_loop fuel (<[pos := parent]> heap) startpos (par pos) newitem
            else Ok (<[pos := newitem]> heap)
        end
    end
  else Ok (<[pos := newitem]> heap).
Definition siftdown (heap : list A) (startpos pos : nat) : outcome (list A) :=
  match heap !! pos with
  | None => Raise IndexError
  | Some newitem => siftdown_loop pos heap startpos pos newitem
  end.

(** The descent of [_siftup]: bubble up the smaller child until a leaf. *)
Fixpoint siftup_loop (fuel : nat) (heap : list A) (pos : nat) : outcome (list A * nat) :=
  let childpos := 2 * pos + 1 in
  if decide (childpos < length heap) then
    match fuel with
    | O => Raise OutOfFuel
    | S fuel =>
        let rightpos := childpos + 1 in
        match heap !! childpos with
        | None => Raise IndexError
        | Some child =>
            let take_right :=
              match heap !! rightpos with
              | Some r => negb (lt child r)
              | None => false
              end in
            let childpos := if take_right then rightpos else childpos in
            match heap !! childpos with
            | None => Raise IndexError
            | Some c => siftup_loop fuel (<[pos := c]> heap) childpos
            end
        end
    end
  else Ok (heap, pos).
Definition siftup (heap : list A) (pos : nat) : outcome (list A) :=
  match heap !! pos with
  | None => Raise IndexError
  | Some newitem =>
      match siftup_loop (length heap) heap pos with
      | Raise e => Raise e
      | Ok (heap', leaf) => siftdown (<[leaf := newitem]> heap') pos leaf
      end
  end.

Definition heappush (heap : list A) (item : A) : outcome (list A) :=
  siftdown (heap ++ [item]) 0 (length heap).

Definition heappop (heap : list A) : outcome (A * list A) :=
  match last heap with
  | None => Raise IndexError
  | Some lastelt =>
      match take (length heap - 1) heap with
      | [] => Ok (lastelt, [])
      | (returnitem :: _) as rest =>
          match siftup (<[0 := lastelt]> rest) 0 with
          | Raise e => Raise e
          | Ok heap' => Ok (returnitem, heap')
          end
      end
  end.

(** [for i in reversed(range(len(x) // 2)): _siftup(x, i)] *)
Fixpoint heapify_loop (n : nat) (heap : list A) : outcome (list A) :=
  match n with
  | O => Ok heap
  | S i => match siftup heap i with
           | Raise e => Raise e
           | Ok heap' => heapify_loop i heap'
           end
  end.
Definition heapify (heap : list A) : outcome (list A) := heapify_loop (length heap / 2) heap.

(** * Correctness *)

(** [lt] is a strict weak order. *)
Context (lt_asym : forall x y, lt x y = true -> lt y x = false).
Context (lt_ntrans : forall x y z, lt y x = false -> lt z y = false -> lt z x = false).

(** [x] may precede [y]. *)
Definition le (x y : A) : Prop := lt y x = false.
Lemma le_refl x : le x x.
Proof. unfold le. destruct (lt x x) eqn:E; [|done]. by rewrite <- (lt_asym x x), E. Qed.
Lemma le_trans x y z : le x y -> le y z -> le x z.
Proof. unfold le. intros H1 H2. by apply (lt_ntrans x y z). Qed.
Lemma lt_le x y : lt x y = true -> le x y.
Proof. apply lt_asym. Qed.
Hint Resolve le_refl lt_le : core.

Lemma par_spec i : 0 < i -> 2 * par i + 1 = i \/ 2 * par i + 2 = i.
Proof. unfold par. intros. pose proof (Nat.div_mod_eq (i - 1) 2). pose proof (Nat.mod_upper_bound (i - 1) 2). lia. Qed.
Lemma par_lt i : 0 < i -> par i < i.
Proof. intros H. destruct (par_spec i H); lia. Qed.
Lemma par_child i c : 0 < c -> par c = i <-> c = 2 * i + 1 \/ c = 2 * i + 2.
Proof. intros H. destruct (par_spec c H); lia. Qed.

(** Edges of the subtrees rooted at [s] and later, except those in [E]. *)
Definition edges (s : nat) (skip : nat -> Prop) (h : list A) : Prop :=
  forall i a b, 0 < i -> s <= par i -> ~ skip i -> h !! par i = Some a -> h !! i = Some b -> le a b.

(** The heap order of all subtrees rooted at [s] and later. *)
Definition heap_from (s : nat) (h : list A) : Prop := edges s (fun _ => False) h.
Definition is_heap (h : list A) : Prop := heap_from 0 h.

Lemma heap_edge s h i a b :
  heap_from s h -> 0 < i -> s <= par i -> h !! par i = Some a -> h !! i = Some b -> le a b.
Proof. intros Hh Hi Hs. apply Hh; [done|done|tauto]. Qed.

(** Positions in the subtree of [s]. *)
Inductive below (s : nat) : nat -> Prop :=
| below_refl : below s s
| below_child c : 0 < c -> below s (par c) -> below s c.

Lemma below_ge s p : below s p -> s <= p.
Proof. induction 1 as [|c Hc _ IH]; [lia|]. pose proof (par_lt c Hc). lia. Qed.
Lemma below_par s p : below s p -> s < p -> below s (par p) /\ s <= par p.
Proof. intros H Hlt. inversion H; subst; [lia|]. split; [done|]. by apply below_ge. Qed.
Lemma below_zero p : below 0 p.
Proof.
  induction p as [p IH] using lt_wf_ind. destruct (decide (p = 0)) as [->|Hp]; [constructor|].
  apply below_child; [lia|]. apply IH, par_lt. lia.
Qed.

(** Children of [pos] are not smaller than the parent of [pos]. *)
Definition grand (s pos : nat) (h : list A) : Prop :=
  s < pos -> forall c a b, 0 < c -> par c = pos -> h !! par pos = Some a -> h !! c = Some b -> le a b.

(** ** [_siftdown] *)

(** Swapping the new item with its larger parent keeps the loop invariant. *)
Lemma siftdown_step s pos h x p :
  below s pos -> s < pos -> pos < length h ->
  h !! pos = Some x -> h !! par pos = Some p -> lt x p = true ->
  edges s (fun i => i = pos) h -> grand s pos h ->
  let h' := <[par pos := x]> (<[pos := p]> h) in
  edges s (fun i => i = par pos) h' /\ grand s (par pos) h'.
Proof.
  intros Hb Hs Hpos Hx Hp Hlt He Hg h'. destruct (below_par _ _ Hb Hs) as [Hb' Hs'].
  assert (par pos < pos) as Hlp by (apply par_lt; lia).
  assert (h' !! par pos = Some x) as E1.
  { apply list_lookup_insert_eq. rewrite length_insert. lia. }
  assert (h' !! pos = Some p) as E2.
  { unfold h'. rewrite list_lookup_insert_ne by lia. by apply list_lookup_insert_eq. }
  assert (forall i, i <> pos -> i <> par pos -> h' !! i = h !! i) as E3.
  { intros i H1 H2. unfold h'. by rewrite !list_lookup_insert_ne by lia. }
  assert (forall c b, 0 < c -> par c = par pos -> c <> pos -> h !! c = Some b -> le p b) as Hsib.
  { intros c b Hc Hpc Hne Hcb. apply (He c p b); try done; [lia|congruence]. }
  split.
  - intros i a b Hi Hsi Hskip Ha Hbb. pose proof (par_lt i Hi).
    destruct (decide (i = pos)) as [->|Hip]; [rewrite E1 in Ha; rewrite E2 in Hbb; simplify_eq; by apply lt_le|].
    rewrite (E3 i) in Hbb by done.
    destruct (decide (par i = pos)) as [Hpi|Hpi].
    { rewrite Hpi, E2 in Ha. simplify_eq. by apply (Hg Hs i). }
    destruct (decide (par i = par pos)) as [Hpp|Hpp].
    { rewrite Hpp, E1 in Ha. simplify_eq. apply (le_trans _ p); [by apply lt_le|by apply (Hsib i)]. }
    rewrite E3 in Ha by done. by apply (He i).
  - intros Hs2 c a b Hc Hpc Ha Hbb. destruct (below_par _ _ Hb' Hs2) as [_ Hs3].
    assert (par (par pos) < par pos) by (apply par_lt; lia).
    rewrite E3 in Ha by lia.
    assert (le a p) as Hap by (apply (He (par pos) a p); (done || lia)).
    destruct (decide (c = pos)) as [->|Hcp]; [rewrite E2 in Hbb; by simplify_eq|].
    assert (c <> par pos) by (intros ->; lia). rewrite E3 in Hbb by done.
    apply (le_trans _ p); [done|by apply (Hsib c)].
Qed.

Lemma siftdown_loop_ok fuel h s pos x :
  below s pos -> pos < length h -> pos <= fuel ->
  edges s (fun i => i = pos) (<[pos := x]> h) -> grand s pos (<[pos := x]> h) ->
  exists h', siftdown_loop fuel h s pos x = Ok h' /\ heap_from s h' /\ h' ≡ₚ <[pos := x]> h.
Proof.
  revert h pos. induction fuel as [|fuel IH]; intros h pos Hb Hpos Hf He Hg; simpl.
  { destruct (decide (s < pos)); [lia|]. eexists. split; [done|]. split; [|done].
    intros i a b Hi Hsi _. apply He; [done|done|]. intros ->. pose proof (par_lt pos Hi).
    pose proof (below_ge _ _ Hb). lia. }
  assert (forall h', edges s (fun i => i = pos) h' ->
    (forall a b, s < pos -> h' !! par pos = Some a -> h' !! pos = Some b -> le a b) -> heap_from s h') as Hend.
  { intros h' He' Hpp i a b Hi Hsi _ Ha Hbb. destruct (decide (i = pos)) as [->|Hne]; [|by apply (He' i)].
    apply Hpp; [|done..]. pose proof (par_lt pos Hi). lia. }
  destruct (decide (s < pos)) as [Hs|Hs].
  2: { eexists. split; [done|]. split; [|done]. apply Hend; [done|]. lia. }
  assert (par pos < pos) as Hlp by (apply par_lt; lia).
  destruct (lookup_lt_is_Some_2 h (par pos)) as [p Hp]; [lia|]. rewrite Hp.
  destruct (lt x p) eqn:Hlt.
  - destruct (siftdown_step s pos (<[pos := x]> h) x p) as [He' Hg']; try done.
    { by rewrite length_insert. }
    { by apply list_lookup_insert_eq. }
    { by rewrite list_lookup_insert_ne by lia. }
    rewrite list_insert_insert_eq in He', Hg'.
    destruct (IH (<[pos := p]> h) (par pos)) as (h' & E & Hh & Hperm); try done.
    { by apply below_par. }
    { rewrite length_insert. lia. }
    { lia. }
    exists h'. split_and!; [done|done|]. rewrite Hperm. apply perm_move; [lia|done|done].
  - eexists. split; [done|]. split; [|done]. apply Hend; [done|].
    intros a b _. rewrite list_lookup_insert_ne, list_lookup_insert_eq by lia. intros Ha Hbb. by simplify_eq.
Qed.

Lemma siftdown_ok h s pos :
  below s pos -> pos < length h -> edges s (fun i => i = pos) h -> grand s pos h ->
  exists h', siftdown h s pos = Ok h' /\ heap_from s h' /\ h' ≡ₚ h.
Proof.
  intros Hb Hpos He Hg. unfold siftdown. destruct (lookup_lt_is_Some_2 h pos Hpos) as [x Hx].
  rewrite Hx. assert (<[pos := x]> h = h) as E by by apply list_insert_id.
  destruct (siftdown_loop_ok pos h s pos x) as (h' & E' & Hh & Hp); rewrite ?E; try done.
  exists h'. by rewrite E in Hp.
Qed.

(** ** [_siftup] *)

(** Edges that do not touch the hole at [pos]. *)
Definition off (pos i : nat) : Prop := i = pos \/ par i = pos.

(** Pulling the smaller child [c] into the hole keeps the loop invariant. *)
Lemma siftup_step s pos h c x :
  below s pos -> 0 < c -> par c = pos -> h !! c = Some x ->
  (forall d b, 0 < d -> par d = pos -> h !! d = Some b -> le x b) ->
  edges s (off pos) h -> grand s pos h ->
  let h' := <[pos := x]> h in edges s (off c) h' /\ grand s c h'.
Proof.
  intros Hb Hc Hpc Hx Hmin He Hg h'. pose proof (below_ge _ _ Hb) as Hsp.
  assert (pos < c) as Hlc by (rewrite <- Hpc; by apply par_lt).
  apply lookup_lt_Some in Hx as Hlen.
  assert (h' !! pos = Some x) as E1 by (apply list_lookup_insert_eq; lia).
  assert (forall i, i <> pos -> h' !! i = h !! i) as E2 by (intros; by apply list_lookup_insert_ne).
  split.
  - intros i a b Hi Hsi Hoff Ha Hbb. pose proof (par_lt i Hi). unfold off in Hoff.
    destruct (decide (par i = pos)) as [Hpi|Hpi].
    { rewrite Hpi, E1 in Ha. rewrite E2 in Hbb by lia. simplify_eq. by apply (Hmin i). }
    rewrite E2 in Ha by done. destruct (decide (i = pos)) as [->|Hip].
    + rewrite E1 in Hbb. simplify_eq. apply (Hg ltac:(lia) c); done.
    + rewrite E2 in Hbb by done. apply (He i); try done. unfold off. tauto.
  - intros Hs d a b Hd Hpd Ha Hbb. rewrite Hpc, E1 in Ha. simplify_eq.
    pose proof (par_lt d Hd). rewrite E2 in Hbb by lia.
    apply (He d); try done; [lia|]. unfold off. lia.
Qed.

Lemma siftup_loop_ok fuel h s pos y :
  below s pos -> pos < length h -> length h - pos <= fuel ->
  edges s (off pos) h -> grand s pos h ->
  exists h' leaf, siftup_loop fuel h pos = Ok (h', leaf) /\ length h' = length h /\
    leaf < length h /\ below s leaf /\ length h <= 2 * leaf + 1 /\
    edges s (off leaf) h' /\ <[leaf := y]> h' ≡ₚ <[pos := y]> h.
Proof.
  revert h pos. induction fuel as [|fuel IH]; intros h pos Hb Hpos Hf He Hg; [lia|].
  cbn [siftup_loop]. destruct (decide (2 * pos + 1 < length h)) as [Hlt|Hge].
  2: { exists h, pos. split_and!; try done. lia. }
  destruct (lookup_lt_is_Some_2 h (2 * pos + 1) Hlt) as [l Hl]. rewrite Hl.
  set (tr := match h !! (2 * pos + 1 + 1) with Some r => negb (lt l r) | None => false end).
  set (c := if tr then 2 * pos + 1 + 1 else 2 * pos + 1).
  assert (exists x, h !! c = Some x /\ forall d b, 0 < d -> par d = pos -> h !! d = Some b -> le x b)
    as (x & Hx & Hmin).
  { subst c tr. destruct (h !! (2 * pos + 1 + 1)) as [r|] eqn:Hr; [destruct (lt l r) eqn:E|]; simpl.
    all: eexists; (split; [done|]); intros d b Hd [-> | ->]%par_child Hb'; try done; simplify_eq; auto.
    all: replace (2 * pos + 2) with (2 * pos + 1 + 1) in Hb' by lia; simplify_eq; auto. }
  rewrite Hx. apply lookup_lt_Some in Hx as Hcl.
  assert (0 < c /\ par c = pos) as [Hc Hpc].
  { subst c. destruct tr; (split; [lia|]); apply par_child; lia. }
  destruct (siftup_step s pos h c x) as [He' Hg']; try done.
  destruct (IH (<[pos := x]> h) c) as (h' & leaf & E & Hlen & Hleaf & Hbl & Hend & Hedge & Hperm); try done.
  - apply below_child; [done|]. by rewrite Hpc.
  - by rewrite length_insert.
  - rewrite length_insert. subst c. destruct tr; lia.
  - rewrite length_insert in *. exists h', leaf. split_and!; try done. rewrite Hperm.
    apply perm_move; [|done|done]. pose proof (par_lt c Hc). lia.
Qed.

Lemma siftup_ok h s :
  s < length h -> heap_from (S s) h ->
  exists h', siftup h s = Ok h' /\ heap_from s h' /\ h' ≡ₚ h.
Proof.
  intros Hs Hh. unfold siftup. destruct (lookup_lt_is_Some_2 h s Hs) as [x Hx]. rewrite Hx.
  destruct (siftup_loop_ok (length h) h s s x) as (h' & leaf & E & Hlen & Hleaf & Hb & Hend & He & Hperm).
  - constructor.
  - done.
  - lia.
  - intros i a b Hi Hsi Hoff. apply Hh; [done| |by intros []]. unfold off in Hoff. lia.
  - intros ?. lia.
  - rewrite E. assert (forall i b, (<[leaf := x]> h') !! i = Some b -> par i <> leaf \/ i = 0) as Hno.
    { intros i b Hi%lookup_lt_Some. rewrite length_insert in Hi. destruct (decide (i = 0)); [auto|].
      left. intros Hp. apply par_child in Hp; lia. }
    destruct (siftdown_ok (<[leaf := x]> h') s leaf) as (h2 & E2 & Hh2 & Hp2).
    + done.
    + rewrite length_insert. lia.
    + intros i a b Hi Hsi Hne Ha Hb'. destruct (Hno i b Hb') as [Hpi|]; [|lia].
      rewrite !list_lookup_insert_ne in * by done. apply (He i); try done. unfold off. tauto.
    + intros _ c a b Hc Hpc _ Hcb. destruct (Hno c b Hcb); [done|lia].
    + exists h2. split_and!; [done|done|]. rewrite Hp2, Hperm. by rewrite list_insert_id.
Qed.

(** ** [heappush], [heappop], [heapify] *)

Lemma heap_root h x :
  is_heap h -> h !! 0 = Some x -> forall i y, h !! i = Some y -> le x y.
Proof.
  intros Hh Hx i. induction i as [i IH] using lt_wf_ind. intros y Hy.
  destruct (decide (i = 0)) as [->|Hi]; [simplify_eq; auto|].
  assert (par i < i) as Hp by (apply par_lt; lia). apply lookup_lt_Some in Hy as Hl.
  destruct (lookup_lt_is_Some_2 h (par i)) as [z Hz]; [lia|].
  apply (le_trans _ z); [by apply (IH (par i))|]. apply (heap_edge 0 h i); (done || lia).
Qed.

Lemma heappush_ok h x : is_heap h -> exists h', heappush h x = Ok h' /\ is_heap h' /\ h' ≡ₚ x :: h.
Proof.
  intros Hh. unfold heappush.
  destruct (siftdown_ok (h ++ [x]) 0 (length h)) as (h' & E & Hh' & Hp).
  - apply below_zero.
  - rewrite length_app. simpl. lia.
  - intros i a b Hi _ Hne Ha Hb. pose proof (par_lt i Hi).
    apply lookup_lt_Some in Hb as Hl. rewrite length_app in Hl. simpl in Hl.
    rewrite lookup_app_l in Ha by lia. rewrite lookup_app_l in Hb by lia. apply (heap_edge 0 h i); (done || lia).
  - intros _ c a b Hc Hpc _ Hb. apply lookup_lt_Some in Hb. rewrite length_app in Hb. simpl in Hb.
    pose proof (par_lt c Hc). lia.
  - exists h'. split_and!; [done|done|]. rewrite Hp. by rewrite Permutation_app_comm.
Qed.

Lemma heapify_loop_ok n h :
  heap_from n h -> n <= length h -> exists h', heapify_loop n h = Ok h' /\ is_heap h' /\ h' ≡ₚ h.
Proof.
  revert h. induction n as [|n IH]; intros h Hh Hn; simpl; [by exists h|].
  destruct (siftup_ok h n) as (h1 & -> & Hh1 & Hp1); [lia|done|].
  destruct (IH h1) as (h2 & E & Hh2 & Hp2); [done|rewrite Hp1; lia|].
  exists h2. split_and!; [done|done|]. by rewrite Hp2.
Qed.

Lemma heapify_ok h : exists h', heapify h = Ok h' /\ is_heap h' /\ h' ≡ₚ h.
Proof.
  unfold heapify. pose proof (Nat.div_mod_eq (length h) 2). pose proof (Nat.mod_upper_bound (length h) 2).
  apply heapify_loop_ok; [|lia].
  intros i a b Hi Hs _ _ Hb%lookup_lt_Some. destruct (par_spec i Hi); lia.
Qed.

Lemma heappop_ok h :
  is_heap h -> h <> [] ->
  exists x h', heappop h = Ok (x, h') /\ is_heap h' /\ h ≡ₚ x :: h' /\ h !! 0 = Some x /\
    forall y, y ∈ h -> le x y.
Proof.
  intros Hh Hne. destruct h as [|y h0 _] using rev_ind; [done|]. clear Hne.
  unfold heappop. rewrite last_snoc, length_app. cbn [length].
  replace (length h0 + 1 - 1) with (length h0) by lia. rewrite take_app_length.
  assert (forall z, (h0 ++ [y]) !! 0 = Some z -> forall w, w ∈ h0 ++ [y] -> le z w) as Hmin.
  { intros z Hz w [i Hi]%list_elem_of_lookup. by eapply heap_root. }
  destruct h0 as [|x h0].
  { exists y, []. split_and!; try done. by apply Hmin. }
  destruct (siftup_ok (<[0 := y]> (x :: h0)) 0) as (h' & E & Hh' & Hp).
  - simpl. lia.
  - intros i a b Hi Hs _ Ha Hb. pose proof (par_lt i Hi).
    rewrite !list_lookup_insert_ne in * by lia. apply lookup_lt_Some in Hb as Hl.
    apply (heap_edge 0 ((x :: h0) ++ [y]) i); [done|done|lia|by apply lookup_app_l_Some..].
  - cbv iota. rewrite E. exists x, h'. split_and!; try done; [|by apply Hmin].
    rewrite Hp. change (x :: (h0 ++ [y]) ≡ₚ x :: y :: h0). by rewrite (Permutation_app_comm h0 [y]).
Qed.

(** Popping until empty yields a sorted list ([__iter__] of the queue). *)
Fixpoint drain (fuel : nat) (heap : list A) : outcome (list A) :=
  match heap, fuel with
  | [], _ => Ok []
  | _, O => Raise OutOfFuel
  | _, S fuel =>
      match heappop heap with
      | Raise e => Raise e
      | Ok (x, heap') =>
          match drain fuel heap' with
          | Ok xs => Ok (x :: xs)
          | Raise e => Raise e
          end
      end
  end.

Lemma drain_ok fuel h :
  is_heap h -> length h <= fuel ->
  exists xs, drain fuel h = Ok xs /\ xs ≡ₚ h /\ StronglySorted le xs.
Proof.
  revert h. induction fuel as [|fuel IH]; intros h Hh Hl.
  { destruct h; [|simpl in Hl; lia]. exists []. split_and!; try done. constructor. }
  destruct h as [|z h0]; [exists []; split_and!; [done..|constructor]|].
  destruct (heappop_ok (z :: h0) Hh) as (x & h' & E & Hh' & Hp & _ & Hmin); [done|].
  cbn [drain]. rewrite E. apply Permutation_length in Hp as Hlen. simpl in Hlen, Hl.
  destruct (IH h' Hh') as (xs & -> & Hxs & Hs); [lia|].
  exists (x :: xs). split_and!; [done|by rewrite Hxs|]. constructor; [done|].
  apply Forall_forall. intros y Hy. apply Hmin. rewrite Hp. right. by rewrite <- Hxs.
Qed.
End heapq.
End Heap.
