(* ===== verification/BlockQueue.v ===== *)
(** The free-block queue of the KV cache ([vllm/v1/core/kv_cache_utils.py]):
    [KVCacheBlock] objects and the intrusive doubly linked list
    [FreeKVCacheBlockQueue] threaded through them, with the proof that the
    pointer manipulations implement a double-ended queue of block ids. *)
From Stdlib Require Import ZArith Lia.
From stdpp Require Import base list numbers gmap.
From S2P Require Import Prelude.

(** * KVCacheBlock *)

(** Object references: the blocks of a pool are identified by [block_id]; the
    two sentinels of a queue both carry [block_id = -1] and are never handed
    out. *)
Inductive loc := FakeHead | FakeTail | Block (id : nat).

#[export] Instance loc_eq_dec : EqDecision loc.
Proof. solve_decision. Defined.
#[export] Instance loc_countable : Countable loc.
Proof.
  refine (inj_countable'
    (fun l => match l with FakeHead => inl true | FakeTail => inl false
                         | Block n => inr n end)
    (fun x => match x with inl true => FakeHead | inl false => FakeTail
                         | inr n => Block n end) _).
  by intros [].
Defined.
#[export] Instance Block_inj : Inj (=) (=) Block.
Proof. by intros ?? [= ->]. Qed.

Definition block_id (l : loc) : Z :=
  match l with Block n => Z.of_nat n | _ => -1 end.

(** The mutable attributes of a block ([pool] is fixed at construction and is
    part of the reference, see [BlockPool]). *)
Record KVCacheBlock := mkBlock {
  ref_cnt : Z;
  block_hash : option bytes;
  block_hash_num_tokens : option Z;
  prev_free_block : option loc;
  next_free_block : option loc;
  is_null : bool
}.

Definition new_block : KVCacheBlock := mkBlock 0 None None None None false.
#[export] Instance KVCacheBlock_inhabited : Inhabited KVCacheBlock :=
  populate new_block.

Definition with_ref_cnt (v : Z) (b : KVCacheBlock) : KVCacheBlock :=
  mkBlock v (block_hash b) (block_hash_num_tokens b) (prev_free_block b)
    (next_free_block b) (is_null b).
Definition with_hash (h : option bytes) (n : option Z) (b : KVCacheBlock) : KVCacheBlock :=
  mkBlock (ref_cnt b) h n (prev_free_block b) (next_free_block b) (is_null b).
Definition with_prev (p : option loc) (b : KVCacheBlock) : KVCacheBlock :=
  mkBlock (ref_cnt b) (block_hash b) (block_hash_num_tokens b) p
    (next_free_block b) (is_null b).
Definition with_next (n : option loc) (b : KVCacheBlock) : KVCacheBlock :=
  mkBlock (ref_cnt b) (block_hash b) (block_hash_num_tokens b)
    (prev_free_block b) n (is_null b).
Definition with_null (v : bool) (b : KVCacheBlock) : KVCacheBlock :=
  mkBlock (ref_cnt b) (block_hash b) (block_hash_num_tokens b)
    (prev_free_block b) (next_free_block b) v.

(** * FreeKVCacheBlockQueue *)

(** The queue together with the store of the block objects it links. *)
Record FreeKVCacheBlockQueue := mkQueue {
  store : gmap loc KVCacheBlock;
  num_free_blocks : Z
}.

Definition get_block (q : FreeKVCacheBlockQueue) (l : loc) : KVCacheBlock :=
  store q !!! l.
Definition upd_block (f : KVCacheBlock -> KVCacheBlock) (l : loc)
    (q : FreeKVCacheBlockQueue) : FreeKVCacheBlockQueue :=
  mkQueue (<[l := f (get_block q l)]> (store q)) (num_free_blocks q).
Definition add_free (d : Z) (q : FreeKVCacheBlockQueue) : FreeKVCacheBlockQueue :=
  mkQueue (store q) (num_free_blocks q + d).

(** [block.set_block_hash(h, num_tokens)] and [block.reset_hash()] *)
Definition set_block_hash (l : loc) (h : bytes) (num_tokens : option Z) :
    M FreeKVCacheBlockQueue unit :=
  let! b := gets (fun q => get_block q l) in
  assert_ (bool_decide (block_hash b = None) &&
           bool_decide (block_hash_num_tokens b = None)) ;;
  modify (upd_block (with_hash (Some h) num_tokens) l).
Definition reset_hash (l : loc) : FreeKVCacheBlockQueue -> FreeKVCacheBlockQueue :=
  upd_block (with_hash None None) l.

Module FreeQueue.

Definition nxt (q : FreeKVCacheBlockQueue) (l : loc) : option loc :=
  next_free_block (get_block q l).
Definition prv (q : FreeKVCacheBlockQueue) (l : loc) : option loc :=
  prev_free_block (get_block q l).
Definition set_next (l : loc) (v : option loc) : M FreeKVCacheBlockQueue unit :=
  modify (upd_block (with_next v) l).
Definition set_prev (l : loc) (v : option loc) : M FreeKVCacheBlockQueue unit :=
  modify (upd_block (with_prev v) l).

(** [__init__]: links consecutive blocks and then the two sentinels. *)
Definition link_prev (blocks : list nat) (i : Z) (b : nat) : M FreeKVCacheBlockQueue unit :=
  if (i >? 0)%Z then
    let! p := lift (or_raise (py_get blocks (i - 1)) IndexError) in
    set_prev (Block b) (Some (Block p))
  else ret tt.

Definition link_next (blocks : list nat) (n i : Z) (b : nat) : M FreeKVCacheBlockQueue unit :=
  if (i <? n - 1)%Z then
    let! x := lift (or_raise (py_get blocks (i + 1)) IndexError) in
    set_next (Block b) (Some (Block x))
  else ret tt.

Definition init_links (blocks : list nat) (n : Z) (i : Z) :
    M FreeKVCacheBlockQueue unit :=
  let! b := lift (or_raise (py_get blocks i) IndexError) in
  link_prev blocks i b ;;
  link_next blocks n i b.

Definition init (blocks : list nat) : M FreeKVCacheBlockQueue unit :=
  modify (fun q => mkQueue (store q) (zlen blocks)) ;;
  for_ (py_range 0 (zlen blocks)) (init_links blocks (zlen blocks)) ;;
  modify (upd_block (fun _ => new_block) FakeHead) ;;
  modify (upd_block (fun _ => new_block) FakeTail) ;;
  if (zlen blocks >? 0)%Z then
    let! first := lift (or_raise (py_get blocks 0) IndexError) in
    let! last := lift (or_raise (py_get blocks (-1)) IndexError) in
    set_next FakeHead (Some (Block first)) ;;
    set_prev (Block first) (Some FakeHead) ;;
    set_prev FakeTail (Some (Block last)) ;;
    set_next (Block last) (Some FakeTail)
  else
    set_next FakeHead (Some FakeTail) ;;
    set_prev FakeTail (Some FakeHead).

Definition popleft : M FreeKVCacheBlockQueue loc :=
  let! first_block := gets (fun q => nxt q FakeHead) in
  match first_block with
  | None | Some FakeTail =>
      let! n := gets num_free_blocks in
      assert_ (n =? 0)%Z ;;
      raise ValueError
  | Some first =>
      let! next_block := gets (fun q => nxt q first) in
      match next_block with
      | None => raise RuntimeError
      | Some next =>
          set_next FakeHead (Some next) ;;
          set_prev next (Some FakeHead) ;;
          set_prev first None ;;
          set_next first None ;;
          modify (add_free (-1)) ;;
          ret first
      end
  end.

(** The loop body of [popleft_n]: unlink [curr_block] and advance. *)
Definition popleft_step (acc : list loc * option loc) (_ : Z) :
    M FreeKVCacheBlockQueue (list loc * option loc) :=
  let '(acc_ret, curr_block) := acc in
  match curr_block with
  | None => raise AssertionError
  | Some curr =>
      let! next := gets (fun q => nxt q curr) in
      set_prev curr None ;;
      set_next curr None ;;
      ret (acc_ret ++ [curr], next)
  end.

Definition popleft_n (n : Z) : M FreeKVCacheBlockQueue (list loc) :=
  if (n =? 0)%Z then ret [] else
  let! free := gets num_free_blocks in
  assert_ (free >=? n)%Z ;;
  modify (add_free (- n)) ;;
  let! curr_block := gets (fun q => nxt q FakeHead) in
  if (n =? 1)%Z then
    match curr_block with
    | None => raise AssertionError
    | Some curr =>
        let! next_block := gets (fun q => nxt q curr) in
        set_prev curr None ;;
        set_next curr None ;;
        match next_block with
        | None => ret tt
        | Some next =>
            set_next FakeHead (Some next) ;;
            set_prev next (Some FakeHead)
        end ;;
        ret [curr]
    end
  else
    let! acc := fold_ (py_range 0 n) ([], curr_block) popleft_step in
    match acc.2 with
    | None => ret tt
    | Some curr =>
        set_next FakeHead (Some curr) ;;
        set_prev curr (Some FakeHead)
    end ;;
    ret acc.1.

Definition remove (block : loc) : M FreeKVCacheBlockQueue unit :=
  let! prev_block := gets (fun q => prv q block) in
  let! next_block := gets (fun q => nxt q block) in
  match prev_block, next_block with
  | Some p, Some n =>
      set_next p (Some n) ;;
      set_prev n (Some p) ;;
      set_prev block None ;;
      set_next block None ;;
      modify (add_free (-1))
  | _, _ => raise RuntimeError
  end.

Definition append (block : loc) : M FreeKVCacheBlockQueue unit :=
  let! last_block := gets (fun q => prv q FakeTail) in
  match last_block with
  | None => raise RuntimeError
  | Some last =>
      set_next last (Some block) ;;
      set_prev block (Some last) ;;
      set_next block (Some FakeTail) ;;
      set_prev FakeTail (Some block) ;;
      modify (add_free 1)
  end.

(** The shared loop of [prepend_n] and [append_n]: hook each block after the
    previous one. *)
Definition link_after (prev_block block : loc) : M FreeKVCacheBlockQueue loc :=
  set_prev block (Some prev_block) ;;
  set_next prev_block (Some block) ;;
  ret block.

Definition prepend_n (blocks : list loc) : M FreeKVCacheBlockQueue unit :=
  match blocks with
  | [] => ret tt
  | _ =>
      let! first_block := gets (fun q => nxt q FakeHead) in
      match first_block with
      | None => raise AssertionError
      | Some first =>
          let! prev_block := fold_ blocks FakeHead link_after in
          set_next prev_block (Some first) ;;
          set_prev first (Some prev_block) ;;
          modify (add_free (zlen blocks))
      end
  end.

Definition append_n (blocks : list loc) : M FreeKVCacheBlockQueue unit :=
  match blocks with
  | [] => ret tt
  | _ =>
      let! last_block := gets (fun q => prv q FakeTail) in
      match last_block with
      | None => raise AssertionError
      | Some last =>
          let! last_block := fold_ blocks last link_after in
          set_next last_block (Some FakeTail) ;;
          set_prev FakeTail (Some last_block) ;;
          modify (add_free (zlen blocks))
      end
  end.

(** [while curr_block.next_free_block is not None], at most [fuel] times. *)
Fixpoint collect (fuel : nat) (q : FreeKVCacheBlockQueue) (curr : loc) (acc : list loc) :
    outcome (list loc) :=
  match nxt q curr, fuel with
  | None, _ => Ok acc
  | Some _, O => Raise OutOfFuel
  | Some n, S fuel => collect fuel q n (acc ++ [curr])
  end.

Definition get_all_free_blocks (fuel : nat) (q : FreeKVCacheBlockQueue) :
    outcome (list loc) :=
  match nxt q FakeHead with
  | None => Raise RuntimeError
  | Some first => collect fuel q first []
  end.

(** [iter_blocks_after(cursor)], drained with at most [fuel] steps. *)
Fixpoint iter_from (fuel : nat) (q : FreeKVCacheBlockQueue) (curr : option loc) :
    outcome (list loc) :=
  match curr, fuel with
  | None, _ | Some FakeTail, _ => Ok []
  | Some _, O => Raise OutOfFuel
  | Some l, S fuel =>
      match iter_from fuel q (nxt q l) with
      | Ok rest => Ok (l :: rest)
      | Raise e => Raise e
      end
  end.

Definition iter_blocks_after (fuel : nat) (q : FreeKVCacheBlockQueue)
    (cursor : option loc) : outcome (list loc) :=
  iter_from fuel q (match cursor with
                    | None => nxt q FakeHead
                    | Some c => nxt q c
                    end).

(** * The queue as a list of block ids *)

(** [a] and [b] are neighbours in the list. *)
Definition link (q : FreeKVCacheBlockQueue) (a b : loc) : Prop :=
  nxt q a = Some b /\ prv q b = Some a.

Fixpoint chain (q : FreeKVCacheBlockQueue) (ls : list loc) : Prop :=
  match ls with
  | a :: (b :: _) as rest => link q a b /\ chain q rest
  | _ => True
  end.

(** All nodes of a queue that holds [l], sentinels included. *)
Definition spine (l : list nat) : list loc := FakeHead :: (Block <$> l) ++ [FakeTail].

(** [q] represents the free list [l]. *)
Record repr (q : FreeKVCacheBlockQueue) (l : list nat) : Prop := {
  repr_chain : chain q (spine l);
  repr_nodup : NoDup l;
  repr_tail : nxt q FakeTail = None;
  repr_out : forall x, x ∉ l -> nxt q (Block x) = None /\ prv q (Block x) = None;
  repr_num : num_free_blocks q = zlen l
}.

(** What the queue operations never touch. *)
Definition meta (b : KVCacheBlock) := (ref_cnt b, block_hash b, block_hash_num_tokens b, is_null b).
Definition same_meta (q q' : FreeKVCacheBlockQueue) : Prop :=
  forall l, meta (get_block q' l) = meta (get_block q l).

#[export] Instance same_meta_preorder : PreOrder same_meta.
Proof.
  split; [by intros q l|]. intros q1 q2 q3 H12 H23 l. by rewrite H23, H12.
Qed.

(** ** Reading an updated store *)

Lemma get_upd f l q l' :
  get_block (upd_block f l q) l' = if decide (l = l') then f (get_block q l) else get_block q l'.
Proof.
  unfold get_block, upd_block; simpl.
  rewrite lookup_total_alt, lookup_insert. by case_decide.
Qed.
Lemma get_add_free d q l : get_block (add_free d q) l = get_block q l.
Proof. done. Qed.
Lemma nxt_add_free d q l : nxt (add_free d q) l = nxt q l.
Proof. done. Qed.
Lemma prv_add_free d q l : prv (add_free d q) l = prv q l.
Proof. done. Qed.
Lemma nxt_upd_next v l q l' :
  nxt (upd_block (with_next v) l q) l' = if decide (l = l') then v else nxt q l'.
Proof. unfold nxt. rewrite get_upd. by case_decide. Qed.
Lemma nxt_upd_prev v l q l' : nxt (upd_block (with_prev v) l q) l' = nxt q l'.
Proof. unfold nxt. rewrite get_upd. case_decide; by subst. Qed.
Lemma prv_upd_prev v l q l' :
  prv (upd_block (with_prev v) l q) l' = if decide (l = l') then v else prv q l'.
Proof. unfold prv. rewrite get_upd. by case_decide. Qed.
Lemma prv_upd_next v l q l' : prv (upd_block (with_next v) l q) l' = prv q l'.
Proof. unfold prv. rewrite get_upd. case_decide; by subst. Qed.
Lemma num_upd f l q : num_free_blocks (upd_block f l q) = num_free_blocks q.
Proof. done. Qed.
Lemma num_add_free d q : num_free_blocks (add_free d q) = (num_free_blocks q + d)%Z.
Proof. done. Qed.

Create HintDb links.
#[export] Hint Rewrite nxt_add_free prv_add_free nxt_upd_next nxt_upd_prev
  prv_upd_prev prv_upd_next num_upd num_add_free : links.

Lemma same_meta_next v l q : same_meta q (upd_block (with_next v) l q).
Proof. intros l'. rewrite get_upd. case_decide; by subst. Qed.
Lemma same_meta_prev v l q : same_meta q (upd_block (with_prev v) l q).
Proof. intros l'. rewrite get_upd. case_decide; by subst. Qed.
Lemma same_meta_add d q : same_meta q (add_free d q).
Proof. done. Qed.
Lemma same_meta_trans q q' q'' : same_meta q q' -> same_meta q' q'' -> same_meta q q''.
Proof. intros H1 H2. by transitivity q'. Qed.

(** A sequence of link updates leaves the metadata alone. *)
Ltac meta_solve :=
  repeat first [ assumption
    | apply same_meta_next | apply same_meta_prev | apply same_meta_add
    | eapply same_meta_trans; [|first [apply same_meta_next | apply same_meta_prev
                                      | apply same_meta_add]] ].

(** ** Chains *)

Lemma chain_app q A x B : chain q (A ++ x :: B) <-> chain q (A ++ [x]) /\ chain q (x :: B).
Proof.
  induction A as [|a A IH]; simpl; [tauto|].
  destruct A as [|b A]; simpl in *; tauto.
Qed.

Lemma chain_frame q q' ls :
  chain q ls ->
  (forall a b A B, ls = A ++ a :: b :: B -> nxt q' a = nxt q a /\ prv q' b = prv q b) ->
  chain q' ls.
Proof.
  induction ls as [|a ls IH]; [done|]. destruct ls as [|b ls]; [done|].
  intros [[Hn Hp] Hc] Hf. split.
  - destruct (Hf a b [] ls eq_refl) as [? ?]. split; congruence.
  - apply IH; [done|]. intros c d A B E. apply (Hf c d (a :: A) B). by rewrite E.
Qed.

(** Replacing the segment between two neighbours of the rest of the list. *)
Lemma chain_splice q q' A p mid mid' n B :
  chain q (A ++ p :: mid ++ n :: B) ->
  chain q' (p :: mid' ++ [n]) ->
  (forall a, a ∈ A -> nxt q' a = nxt q a) ->
  (forall a, a ∈ A ++ [p] -> prv q' a = prv q a) ->
  (forall a, a ∈ n :: B -> nxt q' a = nxt q a) ->
  (forall a, a ∈ B -> prv q' a = prv q a) ->
  chain q' (A ++ p :: mid' ++ n :: B).
Proof.
  intros Hc Hm H1 H2 H3 H4.
  rewrite chain_app in Hc. destruct Hc as [HA Hc].
  rewrite app_comm_cons, chain_app in Hc. destruct Hc as [_ HB].
  rewrite chain_app. split; [|apply (chain_app _ (p :: mid')); split; [done|]].
  - eapply chain_frame; [done|]. intros a b X Y E. split.
    + apply H1. destruct (exists_last (l := b :: Y)) as (Y' & z & EY); [done|].
      rewrite EY, app_comm_cons, app_assoc in E. apply app_inj_tail in E as [-> _].
      set_solver.
    + apply H2. rewrite E. set_solver.
  - eapply chain_frame; [done|]. intros a b X Y E. split.
    + apply H3. rewrite E. set_solver.
    + apply H4. destruct X as [|x X]; simplify_eq/=; set_solver.
Qed.

Lemma spine_NoDup l : NoDup l -> NoDup (spine l).
Proof.
  intros Hl. unfold spine. apply NoDup_cons. split; [set_solver|].
  apply NoDup_app. split_and!.
  - by apply NoDup_fmap_2, Hl; apply _.
  - set_solver.
  - apply NoDup_singleton.
Qed.

Lemma spine_app l1 l2 : spine (l1 ++ l2) = FakeHead :: (Block <$> l1) ++ (Block <$> l2) ++ [FakeTail].
Proof. unfold spine. by rewrite fmap_app, <- app_assoc. Qed.

(** The two ends of a list, as the sentinels see them. *)
Lemma spine_first l : exists n B, (Block <$> l) ++ [FakeTail] = n :: B.
Proof. destruct l; simpl; eauto. Qed.
Lemma spine_last l : exists A p, FakeHead :: (Block <$> l) = A ++ [p].
Proof. destruct (exists_last (l := FakeHead :: (Block <$> l))) as (A & p & E); eauto. Qed.

Lemma spine_split l1 m l2 A p n B :
  FakeHead :: (Block <$> l1) = A ++ [p] ->
  (Block <$> l2) ++ [FakeTail] = n :: B ->
  spine (l1 ++ m ++ l2) = A ++ p :: (Block <$> m) ++ n :: B.
Proof.
  intros HA HB. rewrite !spine_app, fmap_app, <- !app_assoc, app_comm_cons, HA, HB.
  by rewrite <- app_assoc.
Qed.

Lemma spine_split_head m l2 n B :
  (Block <$> l2) ++ [FakeTail] = n :: B ->
  spine (m ++ l2) = FakeHead :: (Block <$> m) ++ n :: B.
Proof. exact (spine_split [] m l2 [] FakeHead n B eq_refl). Qed.

Lemma NoDup_segments {T} (X : list T) p mid n Y :
  NoDup (X ++ p :: mid ++ n :: Y) ->
  (forall a, a ∈ X -> a <> p /\ a ∉ mid /\ a <> n) /\
  (p ∉ mid /\ p <> n) /\
  (forall a, a ∈ n :: Y -> a <> p /\ a ∉ mid) /\
  (forall a, a ∈ Y -> a <> n).
Proof.
  rewrite NoDup_app, NoDup_cons, NoDup_app, NoDup_cons.
  intros (_ & HX & Hp & _ & Hmid & Hn & _).
  assert (forall a, a ∈ X -> a <> p /\ a ∉ mid /\ a <> n).
  { intros a Ha. specialize (HX a Ha).
    rewrite elem_of_cons, elem_of_app, elem_of_cons in HX. tauto. }
  rewrite elem_of_app, elem_of_cons in Hp.
  split_and!; [done|tauto|tauto| |by intros a Ha ->].
  intros a Ha. split; [|intros Hm; by apply (Hmid a)].
  intros ->. apply elem_of_cons in Ha. tauto.
Qed.

(** The one surgery all operations perform: the segment [m] becomes [m']. *)
Lemma repr_splice q q' l1 m m' l2 A p n B :
  repr q (l1 ++ m ++ l2) ->
  FakeHead :: (Block <$> l1) = A ++ [p] ->
  (Block <$> l2) ++ [FakeTail] = n :: B ->
  NoDup (l1 ++ m' ++ l2) ->
  chain q' (p :: (Block <$> m') ++ [n]) ->
  (forall a, a <> p -> a ∉ Block <$> m -> a ∉ Block <$> m' -> nxt q' a = nxt q a) ->
  (forall a, a <> n -> a ∉ Block <$> m -> a ∉ Block <$> m' -> prv q' a = prv q a) ->
  (forall x, x ∈ m -> x ∉ m' -> nxt q' (Block x) = None /\ prv q' (Block x) = None) ->
  num_free_blocks q' = zlen (l1 ++ m' ++ l2) ->
  repr q' (l1 ++ m' ++ l2).
Proof.
  intros [Hc Hnd Ht Ho Hnum] HA HB Hnd' Hm Hn Hp Hd Hlen.
  pose proof (spine_NoDup _ Hnd) as N1. pose proof (spine_NoDup _ Hnd') as N2.
  rewrite (spine_split l1 m l2 A p n B) in Hc, N1 by done.
  rewrite (spine_split l1 m' l2 A p n B) in N2 by done.
  apply NoDup_segments in N1 as (N1a & N1b & N1c & N1d).
  apply NoDup_segments in N2 as (N2a & N2b & N2c & N2d).
  assert (forall a, a = p -> a ∈ FakeHead :: (Block <$> l1)) as Hpin
    by (intros a ->; rewrite HA, elem_of_app, elem_of_cons; tauto).
  assert (forall a, a = n -> a ∈ (Block <$> l2) ++ [FakeTail]) as Hnin
    by (intros a ->; rewrite HB, elem_of_cons; tauto).
  assert (forall x, Block x ∈ Block <$> l1 -> x ∈ l1) as Hl1
    by (intros x; rewrite list_elem_of_fmap; naive_solver).
  assert (forall x, Block x ∈ Block <$> l2 -> x ∈ l2) as Hl2
    by (intros x; rewrite list_elem_of_fmap; naive_solver).
  split; [| done | | |done].
  - rewrite (spine_split _ _ _ A p n B) by done.
    apply (chain_splice q _ _ _ (Block <$> m)); [done|done|..]; intros a Ha.
    + apply Hn; naive_solver.
    + apply elem_of_app in Ha as [Ha|Ha]; [apply Hp; naive_solver|].
      apply list_elem_of_singleton in Ha as ->. apply Hp; naive_solver.
    + apply Hn; naive_solver.
    + assert (a ∈ n :: B) by (apply elem_of_cons; auto). apply Hp; naive_solver.
  - assert (forall m0, FakeTail ∉ Block <$> m0) as Htail
      by (intros m0; rewrite list_elem_of_fmap; naive_solver).
    rewrite Hn; [done| |done..].
    intros [?|?]%Hpin%elem_of_cons; [done|by eapply Htail].
  - intros x Hx. rewrite !elem_of_app in Hx.
    destruct (decide (x ∈ m)) as [Hxm|Hxm]; [apply Hd; tauto|].
    assert (Block x ∉ Block <$> m /\ Block x ∉ Block <$> m')
      as [? ?] by (rewrite !list_elem_of_fmap; naive_solver).
    rewrite Hn, Hp; try done.
    + apply Ho. rewrite !elem_of_app. tauto.
    + intros [?|?%list_elem_of_singleton]%Hnin%elem_of_app; [|done]. apply Hx. eauto.
    + intros [?|?]%Hpin%elem_of_cons; [done|]. apply Hx. eauto.
Qed.

(** The neighbours of a represented list, read off the sentinels. *)
Lemma repr_head q l n B :
  repr q l -> (Block <$> l) ++ [FakeTail] = n :: B -> nxt q FakeHead = Some n.
Proof. intros [Hc _ _ _ _] HB. unfold spine in Hc. rewrite HB in Hc. apply Hc. Qed.

Lemma repr_last q l A p :
  repr q l -> FakeHead :: (Block <$> l) = A ++ [p] -> prv q FakeTail = Some p.
Proof.
  intros [Hc _ _ _ _] HA. unfold spine in Hc. rewrite app_comm_cons, HA in Hc.
  rewrite <- app_assoc in Hc. simpl in Hc. rewrite chain_app in Hc. apply Hc.
Qed.

Lemma repr_neighbours q l1 x l2 A p n B :
  repr q (l1 ++ x :: l2) ->
  FakeHead :: (Block <$> l1) = A ++ [p] ->
  (Block <$> l2) ++ [FakeTail] = n :: B ->
  link q p (Block x) /\ link q (Block x) n.
Proof.
  intros [Hc _ _ _ _] HA HB.
  change (l1 ++ x :: l2) with (l1 ++ [x] ++ l2) in Hc.
  rewrite (spine_split _ _ _ A p n B), chain_app in Hc by done. simpl in Hc. tauto.
Qed.

(** Nodes outside a segment differ from its members. *)
Lemma not_in_Block a (m : list nat) : a ∉ Block <$> m -> forall x, x ∈ m -> a <> Block x.
Proof. intros Ha x Hx ->. apply Ha, list_elem_of_fmap. eauto. Qed.

(** ** [remove] *)

(** Unlinking [x] from between [p] and [n], shared by [remove], [popleft] and
    [popleft_n(1)]. *)
Definition unlinked (p x n : loc) (q : FreeKVCacheBlockQueue) : FreeKVCacheBlockQueue :=
  upd_block (with_next None) x (upd_block (with_prev None) x
    (upd_block (with_prev (Some p)) n (upd_block (with_next (Some n)) p q))).

Lemma repr_unlink q q' l1 x l2 A p n B :
  repr q (l1 ++ x :: l2) ->
  FakeHead :: (Block <$> l1) = A ++ [p] ->
  (Block <$> l2) ++ [FakeTail] = n :: B ->
  (forall a, nxt q' a = nxt (unlinked p (Block x) n q) a) ->
  (forall a, prv q' a = prv (unlinked p (Block x) n q) a) ->
  num_free_blocks q' = (num_free_blocks q - 1)%Z ->
  repr q' (l1 ++ l2).
Proof.
  intros Hr HA HB Hn Hp Hnum.
  pose proof (spine_NoDup _ (repr_nodup _ _ Hr)) as N.
  change (l1 ++ x :: l2) with (l1 ++ [x] ++ l2) in Hr, N.
  rewrite (spine_split _ _ _ A p n B) in N by done.
  apply NoDup_segments in N as (N1 & (N2 & N3) & N4 & N5).
  assert (p <> Block x /\ n <> Block x) as [Hpx Hnx].
  { split; [intros ->; apply N2; simpl; set_solver|].
    intros ->. destruct (N4 (Block x)) as [_ N]; [set_solver|apply N; simpl; set_solver]. }
  apply (repr_splice q q' l1 [x] [] l2 A p n B); try done.
  - pose proof (repr_nodup _ _ Hr) as Hnd. rewrite !NoDup_app in Hnd. simpl in *.
    rewrite NoDup_app. set_solver.
  - simpl. unfold link. rewrite Hn, Hp. unfold unlinked. autorewrite with links.
    repeat case_decide; naive_solver.
  - intros a Ha Hax _. rewrite Hn. unfold unlinked. autorewrite with links.
    repeat case_decide; subst; simpl in *; set_solver.
  - intros a Ha Hax _. rewrite Hp. unfold unlinked. autorewrite with links.
    repeat case_decide; subst; simpl in *; set_solver.
  - intros y ->%list_elem_of_singleton _. rewrite Hn, Hp. unfold unlinked.
    autorewrite with links. repeat case_decide; done.
  - rewrite Hnum, (repr_num _ _ Hr), !length_app. simpl. lia.
Qed.

Lemma remove_ok q l1 x l2 :
  repr q (l1 ++ x :: l2) ->
  wp (remove (Block x)) (fun _ q' => repr q' (l1 ++ l2) /\ same_meta q q') q.
Proof.
  intros Hr.
  destruct (spine_last l1) as (A & p & HA), (spine_first l2) as (n & B & HB).
  destruct (repr_neighbours _ _ _ _ _ _ _ _ Hr HA HB) as [[_ Hp] [Hn _]].
  unfold remove. wp_simpl. rewrite Hp, Hn. wp_simpl. unfold set_next, set_prev. wp_simpl.
  split; [|meta_solve]. by eapply (repr_unlink q).
Qed.

(** A block that is not in the queue has no neighbours: the call fails and
    nothing changes. *)
Lemma remove_error q l x :
  repr q l -> x ∉ l -> remove (Block x) q = (Raise RuntimeError, q).
Proof.
  intros Hr Hx. destruct (repr_out _ _ Hr x Hx) as [Hn Hp].
  unfold remove, bind, gets. by rewrite Hp.
Qed.

(** ** [popleft] *)

Lemma popleft_ok q x l :
  repr q (x :: l) ->
  wp popleft (fun r q' => r = Block x /\ repr q' l /\ same_meta q q') q.
Proof.
  intros Hr. destruct (spine_first l) as (n & B & HB).
  destruct (repr_neighbours q [] x l [] FakeHead n B) as [[Hh _] [Hn _]]; [done..|].
  unfold popleft. wp_simpl. rewrite Hh. wp_simpl. rewrite Hn.
  unfold set_next, set_prev. wp_simpl.
  split_and!; [done| |meta_solve]. by apply (repr_unlink q _ [] x l [] FakeHead n B).
Qed.

Lemma popleft_empty q : repr q [] -> popleft q = (Raise ValueError, q).
Proof.
  intros Hr. unfold popleft, bind, gets.
  rewrite (repr_head q [] FakeTail []) by done. by rewrite (repr_num _ _ Hr).
Qed.

(** ** [popleft_n] *)

(** The store after the popped blocks have been unlinked. *)
Definition detach (q : FreeKVCacheBlockQueue) (ls : list loc) : FreeKVCacheBlockQueue :=
  foldl (fun q l => upd_block (with_next None) l (upd_block (with_prev None) l q)) q ls.

Lemma detach_links ls q a :
  nxt (detach q ls) a = (if decide (a ∈ ls) then None else nxt q a) /\
  prv (detach q ls) a = (if decide (a ∈ ls) then None else prv q a).
Proof.
  revert q. induction ls as [|l ls IH]; intros q.
  { by rewrite !decide_False by set_solver. }
  change (detach q (l :: ls)) with
    (detach (upd_block (with_next None) l (upd_block (with_prev None) l q)) ls).
  destruct (IH (upd_block (with_next None) l (upd_block (with_prev None) l q))) as [-> ->].
  autorewrite with links. repeat case_decide; set_solver.
Qed.

Lemma detach_meta ls q : same_meta q (detach q ls) /\ num_free_blocks (detach q ls) = num_free_blocks q.
Proof.
  revert q. induction ls as [|l ls IH]; intros q; simpl; [done|].
  destruct (IH (upd_block (with_next None) l (upd_block (with_prev None) l q))) as [Hm ->].
  split; [|done]. eapply same_meta_trans; [|exact Hm]. meta_solve.
Qed.

Lemma popleft_loop (zs : list Z) ls n q acc :
  length zs = length ls ->
  NoDup (ls ++ [n]) -> chain q (ls ++ [n]) ->
  fold_ zs (acc, head (ls ++ [n])) popleft_step q = (Ok (acc ++ ls, Some n), detach q ls).
Proof.
  revert zs q acc. induction ls as [|x ls IH]; intros [|z zs] q acc Hlen Hnd Hc;
    simplify_eq/=; [unfold ret; by rewrite app_nil_r|].
  apply NoDup_cons in Hnd as [Hx Hnd].
  assert (nxt q x = head (ls ++ [n]) /\ chain q (ls ++ [n])) as [Hn Hc'].
  { destruct (ls ++ [n]) eqn:E; [by destruct ls|]. split; apply Hc. }
  unfold bind at 1, popleft_step. unfold bind, gets, set_prev, set_next, modify, ret.
  rewrite Hn, IH; [by rewrite <- app_assoc|done|done|].
  eapply chain_frame; [exact Hc'|].
  intros a b X Y EX. rewrite EX in Hx. autorewrite with links.
  repeat case_decide; set_solver.
Qed.

(** The result of detaching a prefix and reconnecting the head. *)
Lemma repr_popped q q' l1 l2 n B :
  repr q (l1 ++ l2) ->
  (Block <$> l2) ++ [FakeTail] = n :: B ->
  (forall a, nxt q' a = if decide (a = FakeHead) then Some n else nxt (detach q (Block <$> l1)) a) ->
  (forall a, prv q' a = if decide (a = n) then Some FakeHead else prv (detach q (Block <$> l1)) a) ->
  num_free_blocks q' = (num_free_blocks q - zlen l1)%Z ->
  repr q' l2.
Proof.
  intros Hr HB Hn Hp Hnum.
  pose proof (spine_NoDup _ (repr_nodup _ _ Hr)) as N.
  rewrite (spine_split_head l1 l2 n B) in N by done.
  apply (NoDup_segments []) in N as (N1 & (N2 & N3) & N4 & N5).
  apply (repr_splice q q' [] l1 [] l2 [] FakeHead n B); try done.
  - pose proof (repr_nodup _ _ Hr) as Hnd. apply NoDup_app in Hnd. apply Hnd.
  - simpl. unfold link. rewrite Hn, Hp, !decide_True by done. done.
  - intros a Ha Hal _. rewrite Hn, (proj1 (detach_links _ _ _)).
    by rewrite !decide_False by done.
  - intros a Ha Hal _. rewrite Hp, (proj2 (detach_links _ _ _)).
    by rewrite !decide_False by done.
  - intros x Hx _. rewrite Hn, Hp, (proj1 (detach_links _ _ _)), (proj2 (detach_links _ _ _)).
    assert (Block x ∈ Block <$> l1) by (apply list_elem_of_fmap; eauto).
    rewrite !(decide_True (P := _ ∈ _)) by done.
    rewrite !decide_False; [done| |done].
    intros <-. destruct (N4 (Block x)); [|done]. set_solver.
  - rewrite Hnum, (repr_num _ _ Hr), !length_app. simpl. lia.
Qed.

Lemma popleft_n_ok q l1 l2 :
  repr q (l1 ++ l2) ->
  wp (popleft_n (zlen l1)) (fun r q' => r = Block <$> l1 /\ repr q' l2 /\ same_meta q q') q.
Proof.
  intros Hr. unfold popleft_n.
  destruct l1 as [|x l1]; [by wp_simpl|].
  rewrite (proj2 (Z.eqb_neq (zlen (x :: l1)) 0)) by (cbn [length]; lia). wp_simpl. split.
  { apply Z.geb_le. rewrite (repr_num _ _ Hr), length_app. lia. }
  destruct (spine_first l2) as (n & B & HB).
  pose proof (spine_NoDup _ (repr_nodup _ _ Hr)) as N.
  pose proof (repr_chain _ _ Hr) as Hc.
  rewrite (spine_split_head (x :: l1) l2 n B) in N, Hc by done.
  assert (NoDup ((Block <$> x :: l1) ++ [n]) /\ chain q ((Block <$> x :: l1) ++ [n])) as [Hnd Hch].
  { split.
    - apply NoDup_cons in N as [_ N]. rewrite cons_middle, app_assoc, NoDup_app in N. apply N.
    - rewrite app_comm_cons in Hc. rewrite chain_app in Hc. destruct Hc as [Hc _].
      simpl in Hc |- *. apply Hc. }
  rewrite nxt_add_free, (repr_head q (x :: l1 ++ l2) (Block x) ((Block <$> l1 ++ l2) ++ [FakeTail]))
    by done.
  destruct (zlen (x :: l1) =? 1)%Z eqn:E1; bools.
  - assert (l1 = []) as -> by (destruct l1; [done|simpl in *; lia]).
    destruct Hch as [[Hx _] _]. wp_simpl. rewrite nxt_add_free, Hx.
    unfold set_next, set_prev. wp_simpl.
    split_and!; [done| |meta_solve].
    eapply (repr_popped q _ [x]); [done..| | |].
    + intros a. autorewrite with links. rewrite (proj1 (detach_links _ _ _)). simpl.
      repeat case_decide; set_solver.
    + intros a. autorewrite with links. rewrite (proj2 (detach_links _ _ _)). simpl.
      repeat case_decide; set_solver.
    + autorewrite with links. simpl. lia.
  - set (q1 := add_free (- zlen (x :: l1)) q).
    assert (fold_ (py_range 0 (zlen (x :: l1))) ([], Some (Block x)) popleft_step q1
      = (Ok (Block <$> x :: l1, Some n), detach q1 (Block <$> x :: l1))) as Hloop.
    { refine (popleft_loop (py_range 0 (zlen (x :: l1))) (Block <$> x :: l1) n q1 [] _ _ _);
        [|done|by eapply chain_frame].
      unfold py_range. rewrite length_seqZ, length_fmap. lia. }
    apply wp_bind. eapply wp_of_run; [exact Hloop|]. simpl snd. simpl fst.
    unfold set_next, set_prev. wp_simpl.
    destruct (detach_meta (Block <$> x :: l1) q1) as [Hmeta Hnum].
    split_and!; [done| |].
    + eapply (repr_popped q _ (x :: l1)); [done..| | |]; intros; autorewrite with links.
      * repeat case_decide; try done. by rewrite !(proj1 (detach_links _ _ _)).
      * repeat case_decide; try done. by rewrite !(proj2 (detach_links _ _ _)).
      * rewrite Hnum. unfold q1. autorewrite with links. lia.
    + meta_solve.
Qed.

(** ** [append], [prepend_n], [append_n] *)

(** Hooking [m] behind [p], the loop of both batch insertions. *)
Lemma link_after_loop p ls q :
  NoDup (p :: ls) ->
  wp (fold_ ls p link_after) (fun r q' =>
    (exists A, p :: ls = A ++ [r]) /\ chain q' (p :: ls) /\
    (forall a, a ∉ p :: ls -> nxt q' a = nxt q a) /\
    (forall a, a ∉ ls -> prv q' a = prv q a) /\
    num_free_blocks q' = num_free_blocks q /\ same_meta q q') q.
Proof.
  revert p q. induction ls as [|x ls IH]; intros p q Hnd; simpl.
  { wp_simpl. split_and!; try done. by exists []. }
  apply NoDup_cons in Hnd as [Hp Hnd].
  apply wp_bind. unfold link_after at 1, set_prev, set_next. wp_simpl.
  eapply wp_mono; [by apply IH|].
  intros r q' ((A & HA) & Hc & Hn & Hpr & Hnum & Hm). split_and!.
  - exists (p :: A). by rewrite HA.
  - split.
    + rewrite Hn by done. autorewrite with links. by rewrite decide_True.
    + rewrite Hpr by (apply NoDup_cons in Hnd; tauto).
      autorewrite with links. by rewrite decide_True.
  - done.
  - intros a Ha. rewrite Hn by set_solver. autorewrite with links. case_decide; set_solver.
  - intros a Ha. rewrite Hpr by set_solver. autorewrite with links. case_decide; set_solver.
  - rewrite Hnum. by autorewrite with links.
  - eapply same_meta_trans; [|exact Hm]. meta_solve.
Qed.

(** Inserting the new segment [m] between [p] and [n]. *)
Lemma repr_insert q l1 m l2 A p n B d :
  repr q (l1 ++ l2) -> NoDup (l1 ++ m ++ l2) ->
  FakeHead :: (Block <$> l1) = A ++ [p] ->
  (Block <$> l2) ++ [FakeTail] = n :: B ->
  d = zlen m ->
  wp (let! r := fold_ (Block <$> m) p link_after in
      set_next r (Some n) ;; set_prev n (Some r) ;; modify (add_free d))
     (fun _ q' => repr q' (l1 ++ m ++ l2) /\ same_meta q q') q.
Proof.
  intros Hr Hnd HA HB ->.
  pose proof (spine_NoDup _ Hnd) as N. rewrite (spine_split _ _ _ A p n B) in N by done.
  pose proof N as (_ & _ & N0)%NoDup_app.
  apply NoDup_segments in N as (N1 & (N2 & N3) & N4 & N5).
  assert (NoDup (p :: (Block <$> m))) as Hpm.
  { rewrite app_comm_cons, NoDup_app in N0. apply N0. }
  assert (n ∉ p :: (Block <$> m)) as Hnm.
  { rewrite elem_of_cons. destruct (N4 n); set_solver. }
  wp_simpl. eapply wp_mono; [by apply link_after_loop|].
  intros r q' ((X & HX) & Hc & Hn & Hpr & Hnum & Hm).
  unfold set_next, set_prev. wp_simpl. split; [|meta_solve].
  assert (r ∈ p :: (Block <$> m)) as Hrin by (rewrite HX; set_solver).
  assert (r ∉ X) as HrX by (rewrite HX, NoDup_app in Hpm; set_solver).
  apply (repr_splice q _ l1 [] m l2 A p n B); try done.
  - rewrite app_comm_cons, HX, <- app_assoc. simpl. rewrite chain_app. split.
    + rewrite <- HX. eapply chain_frame; [done|]. intros a b Y Z E.
      autorewrite with links. split.
      * case_decide; [subst|done]. exfalso. apply HrX. rewrite HX in E.
        destruct (exists_last (l := b :: Z)) as (Z' & z & EZ); [done|].
        rewrite EZ, app_comm_cons, app_assoc in E. apply app_inj_tail in E as [-> _].
        rewrite elem_of_app, elem_of_cons. auto.
      * case_decide; [subst|done]. exfalso. apply Hnm. rewrite E.
        rewrite elem_of_app, !elem_of_cons. auto.
    + simpl. unfold link. autorewrite with links. by rewrite !decide_True.
  - intros a Ha _ Ham. autorewrite with links. rewrite decide_False; [apply Hn|];
      rewrite ?elem_of_cons in *; naive_solver.
  - intros a Ha _ Ham. autorewrite with links. rewrite decide_False; [by apply Hpr|done].
  - intros x Hx. by apply not_elem_of_nil in Hx.
  - autorewrite with links. rewrite Hnum, (repr_num _ _ Hr), !length_app. lia.
Qed.

Lemma append_n_ok q l m :
  repr q l -> NoDup (l ++ m) ->
  wp (append_n (Block <$> m)) (fun _ q' => repr q' (l ++ m) /\ same_meta q q') q.
Proof.
  intros Hr Hnd. unfold append_n.
  destruct (Block <$> m) as [|b bs] eqn:E.
  { destruct m; [|done]. rewrite app_nil_r. by wp_simpl. }
  destruct (spine_last l) as (A & p & HA).
  apply wp_bind, wp_gets. rewrite (repr_last _ _ _ _ Hr HA).
  pose proof (repr_insert q l m [] A p FakeTail [] (zlen (b :: bs))) as Hi.
  rewrite !app_nil_r, E in Hi. apply Hi; try done. by rewrite <- E, length_fmap.
Qed.

Lemma prepend_n_ok q l m :
  repr q l -> NoDup (m ++ l) ->
  wp (prepend_n (Block <$> m)) (fun _ q' => repr q' (m ++ l) /\ same_meta q q') q.
Proof.
  intros Hr Hnd. unfold prepend_n.
  destruct (Block <$> m) as [|b bs] eqn:E.
  { destruct m; [|done]. by wp_simpl. }
  destruct (spine_first l) as (n & B & HB).
  apply wp_bind, wp_gets. rewrite (repr_head _ _ _ _ Hr HB).
  pose proof (repr_insert q [] m l [] FakeHead n B (zlen (b :: bs))) as Hi.
  rewrite E in Hi. apply Hi; try done. by rewrite <- E, length_fmap.
Qed.

Lemma append_ok q l x :
  repr q l -> x ∉ l ->
  wp (append (Block x)) (fun _ q' => repr q' (l ++ [x]) /\ same_meta q q') q.
Proof.
  intros Hr Hx.
  assert (NoDup (l ++ [x])) as Hnd.
  { apply NoDup_app. split_and!; [by eapply repr_nodup|set_solver|apply NoDup_singleton]. }
  destruct (spine_last l) as (A & p & HA).
  pose proof (spine_NoDup _ Hnd) as N.
  change (l ++ [x]) with (l ++ [x] ++ []) in N.
  rewrite (spine_split _ _ [] A p FakeTail []) in N by done.
  apply NoDup_segments in N as (N1 & (N2 & N3) & N4 & N5).
  assert (p <> Block x) by (intros ->; apply N2; simpl; set_solver).
  unfold append. wp_simpl. rewrite (repr_last _ _ _ _ Hr HA).
  unfold set_next, set_prev. wp_simpl. split; [|meta_solve].
  rewrite <- (app_nil_r l) in Hr.
  apply (repr_splice q _ l [] [x] [] A p FakeTail []); try done.
  - simpl. unfold link. autorewrite with links. repeat case_decide; naive_solver.
  - intros a Ha _ Hax. autorewrite with links. repeat case_decide; simpl in *; set_solver.
  - intros a Ha _ Hax. autorewrite with links. repeat case_decide; simpl in *; set_solver.
  - intros y Hy. by apply not_elem_of_nil in Hy.
  - autorewrite with links. rewrite (repr_num _ _ Hr), !length_app. simpl. lia.
Qed.

(** ** Reading the queue *)

Lemma collect_ok ls q fuel curr acc B :
  chain q (ls ++ [FakeTail]) -> nxt q FakeTail = None ->
  ls ++ [FakeTail] = curr :: B -> length ls <= fuel ->
  collect fuel q curr acc = Ok (acc ++ ls).
Proof.
  revert fuel curr acc B. induction ls as [|x ls IH]; intros fuel curr acc B Hc Ht E Hf;
    simplify_eq/=.
  - destruct fuel; simpl; by rewrite Ht, app_nil_r.
  - destruct fuel as [|fuel]; [lia|].
    destruct (ls ++ [FakeTail]) as [|n B] eqn:E; [by destruct ls|].
    destruct Hc as [[Hn _] Hc]. simpl. rewrite Hn.
    rewrite (IH fuel n _ B); [by rewrite <- app_assoc|done..|lia].
Qed.

Lemma get_all_free_blocks_ok q l fuel :
  repr q l -> length l <= fuel -> get_all_free_blocks fuel q = Ok (Block <$> l).
Proof.
  intros Hr Hf. unfold get_all_free_blocks.
  destruct (spine_first l) as (n & B & HB). rewrite (repr_head _ _ _ _ Hr HB).
  destruct Hr as [Hc _ Ht _ _]. unfold spine in Hc.
  rewrite (collect_ok (Block <$> l) q fuel n [] B); [done| |done|done|by rewrite length_fmap].
  rewrite HB in *. apply Hc.
Qed.

Lemma iter_from_ok ls q fuel :
  chain q (ls ++ [FakeTail]) -> FakeTail ∉ ls -> length ls <= fuel ->
  iter_from fuel q (head (ls ++ [FakeTail])) = Ok ls.
Proof.
  revert fuel. induction ls as [|x ls IH]; intros [|fuel] Hc Ht Hf; simpl in *; try done; [lia|].
  apply not_elem_of_cons in Ht as [Hx Ht].
  assert (nxt q x = head (ls ++ [FakeTail]) /\ chain q (ls ++ [FakeTail])) as [Hn Hc'].
  { destruct (ls ++ [FakeTail]) eqn:E; [by destruct ls|]. split; apply Hc. }
  rewrite Hn, IH by (done || lia). by destruct x.
Qed.

Lemma FakeTail_not_block (l : list nat) : FakeTail ∉ Block <$> l.
Proof. rewrite list_elem_of_fmap. naive_solver. Qed.

Lemma iter_blocks_after_ok q l1 x l2 fuel :
  repr q (l1 ++ x :: l2) -> length l2 <= fuel ->
  iter_blocks_after fuel q (Some (Block x)) = Ok (Block <$> l2).
Proof.
  intros Hr Hf. unfold iter_blocks_after.
  destruct (spine_last l1) as (A & p & HA), (spine_first l2) as (n & B & HB).
  destruct (repr_neighbours _ _ _ _ _ _ _ _ Hr HA HB) as [_ [Hn _]].
  rewrite Hn. replace (Some n) with (head ((Block <$> l2) ++ [FakeTail])) by (by rewrite HB).
  apply iter_from_ok; [|apply FakeTail_not_block|by rewrite length_fmap].
  pose proof (repr_chain _ _ Hr) as Hc. change (l1 ++ x :: l2) with (l1 ++ [x] ++ l2) in Hc.
  rewrite (spine_split _ _ _ A p n B) in Hc by done.
  rewrite app_comm_cons, app_assoc, chain_app in Hc. rewrite HB. apply Hc.
Qed.

Lemma iter_blocks_all_ok q l fuel :
  repr q l -> length l <= fuel -> iter_blocks_after fuel q None = Ok (Block <$> l).
Proof.
  intros Hr Hf. unfold iter_blocks_after.
  destruct (spine_first l) as (n & B & HB). rewrite (repr_head _ _ _ _ Hr HB).
  replace (Some n) with (head ((Block <$> l) ++ [FakeTail])) by (by rewrite HB).
  apply iter_from_ok; [|apply FakeTail_not_block|by rewrite length_fmap]. destruct Hr as [Hc _ _ _ _]. unfold spine in Hc.
  rewrite HB in *. apply Hc.
Qed.

(** ** [__init__] *)

Lemma chain_lookup q ls :
  (forall i a b, ls !! i = Some a -> ls !! S i = Some b -> link q a b) -> chain q ls.
Proof.
  induction ls as [|a ls IH]; intros H; [done|]. destruct ls as [|b ls]; [done|].
  split; [by apply (H 0)|]. apply IH. intros i. apply (H (S i)).
Qed.

(** The links of the blocks after [i] iterations of the first loop. *)
Definition init_inv (blocks : list nat) (q : FreeKVCacheBlockQueue) (i : nat)
    (q' : FreeKVCacheBlockQueue) : Prop :=
  (forall j x, blocks !! j = Some x ->
     nxt q' (Block x) = (if decide (j < i) then Block <$> blocks !! S j else None) /\
     prv q' (Block x) =
       (if decide (j < i /\ j <> 0) then Block <$> blocks !! pred j else None)) /\
  (forall x, x ∉ blocks -> nxt q' (Block x) = None /\ prv q' (Block x) = None) /\
  num_free_blocks q' = zlen blocks /\ same_meta q q'.

Lemma link_prev_ok blocks i x q :
  blocks !! i = Some x ->
  wp (link_prev blocks (Z.of_nat i) x) (fun _ q' => same_meta q q' /\
    num_free_blocks q' = num_free_blocks q /\ (forall a, nxt q' a = nxt q a) /\
    (forall a, prv q' a = if decide (a = Block x /\ i <> 0) then Block <$> blocks !! pred i
                          else prv q a)) q.
Proof.
  intros Hx. unfold link_prev. destruct i as [|i].
  { simpl. wp_simpl. split_and!; try done. intros a. case_decide; naive_solver. }
  rewrite Z.gtb_ltb, (proj2 (Z.ltb_lt _ _)) by lia. wp_simpl.
  replace (Z.of_nat (S i) - 1)%Z with (Z.of_nat i) by lia. rewrite py_get_nat.
  apply lookup_lt_Some in Hx as Hlt.
  destruct (lookup_lt_is_Some_2 blocks i) as [y Hy]; [lia|]. rewrite Hy.
  exists y. split; [done|]. unfold set_prev. wp_simpl. split_and!; [meta_solve|done|..].
  - intros a. by autorewrite with links.
  - intros a. autorewrite with links. simpl. rewrite Hy. repeat case_decide; naive_solver.
Qed.

Lemma link_next_ok blocks i x q :
  blocks !! i = Some x -> nxt q (Block x) = None ->
  wp (link_next blocks (zlen blocks) (Z.of_nat i) x) (fun _ q' => same_meta q q' /\
    num_free_blocks q' = num_free_blocks q /\ (forall a, prv q' a = prv q a) /\
    (forall a, nxt q' a = if decide (a = Block x) then Block <$> blocks !! S i else nxt q a)) q.
Proof.
  intros Hx Hn. apply lookup_lt_Some in Hx as Hlt. unfold link_next.
  destruct (Z.of_nat i <? zlen blocks - 1)%Z eqn:E; bools.
  - replace (Z.of_nat i + 1)%Z with (Z.of_nat (S i)) by lia.
    wp_simpl. rewrite py_get_nat.
    destruct (lookup_lt_is_Some_2 blocks (S i)) as [y Hy]; [lia|]. rewrite Hy.
    exists y. split; [done|]. unfold set_next. wp_simpl. split_and!; [meta_solve|done|..].
    + intros a. by autorewrite with links.
    + intros a. autorewrite with links. simpl. repeat case_decide; naive_solver.
  - wp_simpl. split_and!; try done. intros a. case_decide; [subst|done].
    by rewrite lookup_ge_None_2 by lia.
Qed.

Lemma init_links_ok blocks q i q' :
  NoDup blocks -> i < length blocks -> init_inv blocks q i q' ->
  wp (init_links blocks (zlen blocks) (Z.of_nat i)) (fun _ => init_inv blocks q (S i)) q'.
Proof.
  intros Hnd Hi (HI & Hout & Hnum & Hm).
  destruct (lookup_lt_is_Some_2 blocks i Hi) as [x Hx].
  assert (forall j y, blocks !! j = Some y -> Block x = Block y -> j = i) as Hinj.
  { intros j y Hy [= <-]. eapply NoDup_lookup; eauto. }
  unfold init_links. wp_simpl. rewrite py_get_nat, Hx. exists x. split; [done|]. wp_simpl.
  eapply wp_mono; [by apply link_prev_ok|]. intros [] q1 (Hm1 & Hnum1 & Hn1 & Hp1).
  eapply wp_mono; [apply link_next_ok; [done|]|].
  { rewrite Hn1. destruct (HI i x Hx) as [-> _]. by rewrite decide_False by lia. }
  intros [] q2 (Hm2 & Hnum2 & Hp2 & Hn2). split_and!.
  - intros j y Hy. rewrite Hn2, Hp2, Hn1, Hp1. destruct (HI j y Hy) as [-> ->].
    destruct (decide (j = i)) as [->|Hji].
    + assert (y = x) as -> by congruence. repeat case_decide; naive_solver lia.
    + assert (Block y <> Block x) by naive_solver.
      repeat case_decide; naive_solver lia.
  - intros y Hy. assert (y <> x) by (intros ->; apply Hy; by eapply list_elem_of_lookup_2).
    rewrite Hn2, Hp2, Hn1, Hp1. repeat case_decide; naive_solver.
  - congruence.
  - eapply same_meta_trans; [exact Hm|]. by eapply same_meta_trans.
Qed.

(** The whole first loop. *)
Lemma init_loop_ok blocks q0 :
  NoDup blocks -> num_free_blocks q0 = zlen blocks ->
  (forall x, nxt q0 (Block x) = None /\ prv q0 (Block x) = None) ->
  wp (for_ (py_range 0 (zlen blocks)) (init_links blocks (zlen blocks)))
     (fun _ => init_inv blocks q0 (length blocks)) q0.
Proof.
  intros Hnd Hnum Hfresh.
  apply (wp_for _ _ (fun done _ => init_inv blocks q0 (length done))).
  - split_and!; [|auto|done|done].
    intros j x Hx. rewrite !decide_False by (simpl; lia). auto.
  - intros dn z todo q' E HI.
    assert (length dn < length blocks /\ z = Z.of_nat (length dn)) as [Hi ->].
    { apply (f_equal (fun l => l !! length dn)) in E as Ez.
      rewrite lookup_app_r, Nat.sub_diag in Ez by lia. simpl in Ez.
      unfold py_range in Ez. apply lookup_seqZ in Ez. lia. }
    rewrite length_app, Nat.add_comm. simpl. by apply init_links_ok.
  - intros q1. unfold py_range. rewrite length_seqZ.
    by replace (Z.to_nat (zlen blocks - 0)) with (length blocks) by lia.
Qed.

(** The links of a freshly built queue. *)
Lemma repr_init_nil q1 :
  nxt q1 FakeTail = None -> num_free_blocks q1 = 0%Z ->
  (forall x, nxt q1 (Block x) = None /\ prv q1 (Block x) = None) ->
  repr (upd_block (with_prev (Some FakeHead)) FakeTail
         (upd_block (with_next (Some FakeTail)) FakeHead q1)) [].
Proof.
  intros Ht Hnum Hf. split.
  - simpl. unfold link. autorewrite with links. by rewrite !decide_True.
  - apply NoDup_nil_2.
  - autorewrite with links. by rewrite decide_False.
  - intros x _. autorewrite with links. rewrite !decide_False by done. auto.
  - by autorewrite with links.
Qed.

Lemma repr_init q1 blocks first last :
  NoDup blocks -> blocks !! 0 = Some first -> blocks !! pred (length blocks) = Some last ->
  nxt q1 FakeTail = None -> num_free_blocks q1 = zlen blocks ->
  (forall j x, blocks !! j = Some x -> nxt q1 (Block x) = Block <$> blocks !! S j /\
     prv q1 (Block x) = if decide (j <> 0) then Block <$> blocks !! pred j else None) ->
  (forall x, x ∉ blocks -> nxt q1 (Block x) = None /\ prv q1 (Block x) = None) ->
  repr (upd_block (with_next (Some FakeTail)) (Block last)
         (upd_block (with_prev (Some (Block last))) FakeTail
           (upd_block (with_prev (Some FakeHead)) (Block first)
             (upd_block (with_next (Some (Block first))) FakeHead q1)))) blocks.
Proof.
  intros Hnd Hf Hl Ht Hnum HI Hout. apply lookup_lt_Some in Hf as Hlen.
  assert (forall j x, blocks !! j = Some x -> Block last = Block x -> j = pred (length blocks)) as Ilast.
  { intros j x Hx [= <-]. eapply NoDup_lookup; eauto. }
  assert (forall j x, blocks !! j = Some x -> Block first = Block x -> j = 0) as Ifirst.
  { intros j x Hx [= <-]. eapply NoDup_lookup; eauto. }
  split.
  - apply chain_lookup. intros [|i] a b Ha Hb; simpl in *; [simplify_eq|].
    + destruct blocks as [|x0 bs]; simplify_eq/=.
      unfold link. autorewrite with links. repeat case_decide; naive_solver.
    + rewrite lookup_app, list_lookup_fmap in Ha.
      destruct (blocks !! i) as [x|] eqn:Hx; simplify_eq/=.
      * destruct (HI i x Hx) as [HIn HIp]. rewrite lookup_app, list_lookup_fmap, length_fmap in Hb.
        destruct (blocks !! S i) as [y|] eqn:Hy; simplify_eq/=.
        -- apply lookup_lt_Some in Hy as Hlt. destruct (HI (S i) y Hy) as [_ HIy].
           rewrite decide_True in HIy by lia. simpl in HIy. rewrite Hx in HIy.
           unfold link. autorewrite with links.
           split; repeat case_decide; try done; exfalso;
             first [apply Ilast in Hx; [lia|done] | apply Ifirst in Hy; [lia|done]].
        -- apply lookup_ge_None in Hy. apply lookup_lt_Some in Hx as Hlt.
           replace (pred (length blocks)) with i in Hl by lia. simplify_eq.
           replace (S i - length blocks) with 0 in Hb by lia. simplify_eq/=.
           unfold link. autorewrite with links. repeat case_decide; naive_solver.
      * rewrite length_fmap in Ha. apply lookup_ge_None in Hx.
        destruct (i - length blocks) as [|k] eqn:E; simplify_eq/=.
        rewrite lookup_ge_None_2 in Hb; [done|]. rewrite length_app, length_fmap. simpl. lia.
  - done.
  - autorewrite with links. repeat case_decide; done.
  - intros x Hx. autorewrite with links.
    assert (x <> first /\ x <> last) as [? ?]
      by (split; intros ->; apply Hx; by eapply list_elem_of_lookup_2).
    rewrite !decide_False by naive_solver. auto.
  - by autorewrite with links.
Qed.

Lemma init_ok q blocks :
  NoDup blocks ->
  (forall x, nxt q (Block x) = None /\ prv q (Block x) = None) ->
  wp (init blocks) (fun _ q' => repr q' blocks /\
    forall x, meta (get_block q' (Block x)) = meta (get_block q (Block x))) q.
Proof.
  intros Hnd Hfresh. unfold init. wp_simpl.
  eapply wp_mono; [apply init_loop_ok; [done|done|exact Hfresh]|].
  intros [] q1 (HI & Hout & Hnum & Hm). wp_simpl.
  set (q2 := upd_block (fun _ => new_block) FakeTail (upd_block (fun _ => new_block) FakeHead q1)).
  assert (forall x, get_block q2 (Block x) = get_block q1 (Block x)) as Hq2.
  { intros x. unfold q2. by rewrite !get_upd, !decide_False. }
  assert (forall x, nxt q2 (Block x) = nxt q1 (Block x) /\ prv q2 (Block x) = prv q1 (Block x))
    as Hl2 by (intros x; unfold nxt, prv; by rewrite Hq2).
  assert (nxt q2 FakeTail = None) as Ht2 by (unfold nxt, q2; by rewrite get_upd, decide_True).
  assert (num_free_blocks q2 = zlen blocks) as Hnum2 by done. clearbody q2.
  destruct blocks as [|x0 bs0] eqn:Eb; [|rewrite <- Eb in *].
  - simpl. unfold set_next, set_prev. wp_simpl. split.
    + apply (repr_init_nil q2); [done|done|]. intros x. destruct (Hl2 x) as [-> ->].
      apply Hout. set_solver.
    + intros x. rewrite !get_upd, !decide_False, Hq2 by done. by rewrite Hm.
  - destruct (exists_last (l := blocks)) as (bs & xl & El); [by rewrite Eb|].
    rewrite Z.gtb_ltb, (proj2 (Z.ltb_lt _ _)) by (rewrite Eb; simpl; lia).
    wp_simpl. exists x0. split; [by rewrite Eb|]. wp_simpl.
    assert (blocks !! pred (length blocks) = Some xl) as Hl.
    { rewrite El, length_app, Nat.add_comm. simpl. by rewrite list_lookup_middle. }
    exists xl. split.
    { unfold py_get. simpl. rewrite (proj2 (Z.ltb_ge _ _)) by (rewrite Eb; simpl; lia).
      replace (Z.to_nat _) with (pred (length blocks)) by lia. by rewrite Hl. }
    unfold set_next, set_prev. wp_simpl. split.
    + apply (repr_init q2); [done|by rewrite Eb|done|done|done|..].
      * intros j x Hx. destruct (Hl2 x) as [-> ->]. destruct (HI j x Hx) as [-> ->].
        apply lookup_lt_Some in Hx. rewrite decide_True by lia. split; [done|].
        repeat case_decide; naive_solver.
      * intros x Hx. destruct (Hl2 x) as [-> ->]. auto.
    + intros x. transitivity (meta (get_block q2 (Block x))); [|rewrite Hq2; apply Hm].
      revert x. cut (forall q3, same_meta q2 q3 -> forall x,
        meta (get_block q3 (Block x)) = meta (get_block q2 (Block x))); [|by intros ? H ?; apply H].
      intros Hc. apply Hc. meta_solve.
Qed.

(** * Refinement: the linked list implements a double-ended queue *)

(** The public operations as a client issues them. *)
Inductive qop :=
| Popleft
| PopleftN (n : nat)
| Remove (x : nat)
| Append (x : nat)
| PrependN (m : list nat)
| AppendN (m : list nat).

(** The abstract deque: what is returned and what remains; [None] where the
    operation is not allowed. *)
Definition spec_step (op : qop) (l : list nat) : option (list nat * list nat) :=
  match op with
  | Popleft => match l with [] => None | x :: l => Some ([x], l) end
  | PopleftN n => if decide (n <= length l) then Some (take n l, drop n l) else None
  | Remove x => if decide (x ∈ l) then Some ([], filter (fun y => y <> x) l) else None
  | Append x => if decide (x ∈ l) then None else Some ([], l ++ [x])
  | PrependN m => if decide (NoDup (m ++ l)) then Some ([], m ++ l) else None
  | AppendN m => if decide (NoDup (l ++ m)) then Some ([], l ++ m) else None
  end.

Fixpoint spec_run (ops : list qop) (l : list nat) : option (list (list nat) * list nat) :=
  match ops with
  | [] => Some ([], l)
  | op :: ops =>
      match spec_step op l with
      | None => None
      | Some (r, l') =>
          match spec_run ops l' with
          | None => None
          | Some (rs, l'') => Some (r :: rs, l'')
          end
      end
  end.

Definition run_op (op : qop) : M FreeKVCacheBlockQueue (list loc) :=
  match op with
  | Popleft => let! b := popleft in ret [b]
  | PopleftN n => popleft_n (Z.of_nat n)
  | Remove x => remove (Block x) ;; ret []
  | Append x => append (Block x) ;; ret []
  | PrependN m => prepend_n (Block <$> m) ;; ret []
  | AppendN m => append_n (Block <$> m) ;; ret []
  end.

Fixpoint run_ops (ops : list qop) : M FreeKVCacheBlockQueue (list (list loc)) :=
  match ops with
  | [] => ret []
  | op :: ops => let! r := run_op op in let! rs := run_ops ops in ret (r :: rs)
  end.

Lemma filter_ne_middle (l1 l2 : list nat) x :
  x ∉ l1 -> x ∉ l2 -> filter (fun y => y <> x) (l1 ++ x :: l2) = l1 ++ l2.
Proof.
  intros H1 H2. rewrite filter_app, filter_cons_False by naive_solver.
  rewrite !list_filter_id; [done| |]; by intros y Hy ->.
Qed.

Lemma run_op_refines op q l r l' :
  repr q l -> spec_step op l = Some (r, l') ->
  wp (run_op op) (fun r' q' => r' = Block <$> r /\ repr q' l' /\ same_meta q q') q.
Proof.
  intros Hr Hs. destruct op as [|n|x|x|m|m]; simpl in *.
  - destruct l as [|x l0]; simplify_eq. wp_simpl.
    eapply wp_mono; [by apply popleft_ok|]. intros b q' (-> & ? & ?). by wp_simpl.
  - case_decide; simplify_eq.
    pose proof (popleft_n_ok q (take n l) (drop n l)) as Hp.
    rewrite take_drop, length_take_le in Hp by done. by apply Hp.
  - case_decide as Hx; simplify_eq. wp_simpl.
    apply list_elem_of_split in Hx as (l1 & l2 & ->).
    pose proof (repr_nodup _ _ Hr) as Hnd. rewrite NoDup_app, NoDup_cons in Hnd.
    rewrite filter_ne_middle by set_solver.
    eapply wp_mono; [by apply remove_ok|]. intros [] q' [? ?]. by wp_simpl.
  - case_decide; simplify_eq. wp_simpl.
    eapply wp_mono; [by apply append_ok|]. intros [] q' [? ?]. by wp_simpl.
  - case_decide; simplify_eq. wp_simpl.
    eapply wp_mono; [by apply prepend_n_ok|]. intros [] q' [? ?]. by wp_simpl.
  - case_decide; simplify_eq. wp_simpl.
    eapply wp_mono; [by apply append_n_ok|]. intros [] q' [? ?]. by wp_simpl.
Qed.

Lemma run_ops_refines ops q l rs l' :
  repr q l -> spec_run ops l = Some (rs, l') ->
  wp (run_ops ops) (fun r' q' => r' = map (map Block) rs /\ repr q' l') q.
Proof.
  revert q l rs. induction ops as [|op ops IH]; intros q l rs Hr Hs; simpl in *.
  { simplify_eq. by wp_simpl. }
  destruct (spec_step op l) as [[r l1]|] eqn:E1; [|done].
  destruct (spec_run ops l1) as [[rs' l2]|] eqn:E2; simplify_eq.
  wp_simpl. eapply wp_mono; [by eapply run_op_refines|].
  intros r' q1 (-> & Hr1 & _). wp_simpl. eapply wp_mono; [by eapply IH|].
  intros rs'' q2 [-> Hr2]. by wp_simpl.
Qed.

(** A queue object before [__init__] has run: only fresh blocks. *)
Definition fresh_queue : FreeKVCacheBlockQueue := mkQueue ∅ 0.

(** C10: refinement. Building the queue from distinct blocks and then running
    any sequence of [popleft], [popleft_n], [remove], [append], [prepend_n] and
    [append_n] calls that the abstract deque allows succeeds, returns the
    blocks the deque returns, in order, and leaves a linked list whose
    traversal [get_all_free_blocks] yields exactly the deque's content. *)
Theorem queue_refines_deque (blocks : list nat) (ops : list qop) rs l' :
  NoDup blocks ->
  spec_run ops blocks = Some (rs, l') ->
  wp (init blocks ;; run_ops ops)
     (fun r q => r = map (map Block) rs /\
        get_all_free_blocks (length l') q = Ok (Block <$> l') /\
        num_free_blocks q = zlen l') fresh_queue.
Proof.
  intros Hnd Hs. wp_simpl. eapply wp_mono; [apply init_ok; [done|]|].
  { intros x. unfold nxt, prv, get_block. simpl. by rewrite lookup_total_empty. }
  intros [] q [Hr _]. eapply wp_mono; [by eapply run_ops_refines|].
  intros r q' [-> Hr']. split_and!; [done| |by apply repr_num].
  by apply get_all_free_blocks_ok.
Qed.

Lemma queue_refines_deque_witness :
  NoDup [3; 1; 4] /\
  wp (init [3; 1; 4] ;; run_ops [Popleft; AppendN [3; 7]; Remove 4; PrependN [9]; PopleftN 2])
     (fun r q => r = [[Block 3]; []; []; []; [Block 9; Block 1]] /\
        get_all_free_blocks 2 q = Ok [Block 3; Block 7] /\
        num_free_blocks q = 2%Z) fresh_queue.
Proof.
  split; [by apply (bool_decide_unpack _); vm_compute|].
  apply (queue_refines_deque [3; 1; 4]
    [Popleft; AppendN [3; 7]; Remove 4; PrependN [9]; PopleftN 2]
    [[3]; []; []; []; [9; 1]] [3; 7]).
  - by apply (bool_decide_unpack _); vm_compute.
  - by vm_compute.
Defined.

End FreeQueue.
