(* ===== verification/Request.v ===== *)
(** Requests ([vllm/v1/request.py]): the request object, its construction,
    token bookkeeping, status, and the priority order used by the scheduler. *)
From Stdlib Require Import ZArith Lia Strings.String.
From stdpp Require Import base list numbers gmap strings.
From S2P Require Import Prelude.
Open Scope Z_scope.

(** * Parameters attached to a request *)

Record RepetitionDetectionParams := mkRepetition {
  max_pattern_size : Z;
  min_pattern_size : Z;
  min_count : Z
}.

(** The constraint fields of [StructuredOutputsParams]; JSON schemas and choice
    lists are kept as their serialised text. *)
Record StructuredOutputsParams := mkStructured {
  so_json : option string;
  so_regex : option string;
  so_choice : option string;
  so_grammar : option string;
  so_json_object : option bool;
  so_structural_tag : option string
}.

Definition all_constraints_none (p : StructuredOutputsParams) : bool :=
  bool_decide (so_json p = None) && bool_decide (so_regex p = None) &&
  bool_decide (so_choice p = None) && bool_decide (so_grammar p = None) &&
  bool_decide (so_json_object p = None) && bool_decide (so_structural_tag p = None).

(** The sampling parameters the engine core reads; values of [extra_args] are
    opaque to it and kept as text. *)
Record SamplingParams := mkSampling {
  sp_max_tokens : option Z;
  min_tokens : Z;
  eos_token_id : option Z;
  stop_token_ids : option (list Z);
  repetition_detection : option RepetitionDetectionParams;
  sp_skip_reading_prefix_cache : option bool;
  structured_outputs : option StructuredOutputsParams;
  extra_args : option (gmap string string)
}.

Record PoolingParams := mkPooling {
  pp_skip_reading_prefix_cache : option bool
}.

Record LoRARequest := mkLoRA {
  lora_name : string;
  lora_int_id : Z;
  lora_path : string
}.

(** [is_embed]: the mask of the positions that receive embeddings. *)
Record PlaceholderRange := mkRange {
  offset : Z;
  length_ : Z;
  is_embed : option (list bool)
}.

Definition embeds_cumsum (p : PlaceholderRange) : option (list Z) :=
  match is_embed p with
  | None => None
  | Some m =>
      Some (foldl (fun (acc : list Z * Z) (b : bool) =>
                     let n := acc.2 + (if b then 1 else 0) in (acc.1 ++ [n], n))
                  ([], 0) m).1
  end.

Definition get_num_embeds (p : PlaceholderRange) : Z :=
  match embeds_cumsum p with
  | None => length_ p
  | Some c => default 0 (py_get c (-1))
  end.

Record MultiModalFeatureSpec := mkFeature {
  identifier : string;
  mm_position : PlaceholderRange
}.

Record StructuredOutputRequest := mkSOR {
  so_params : StructuredOutputsParams;
  reasoning_ended : option bool
}.

Definition from_sampling_params (sp : option SamplingParams) : option StructuredOutputRequest :=
  match sp with
  | None => None
  | Some sp =>
      match structured_outputs sp with
      | None => None
      | Some p => if all_constraints_none p then None else Some (mkSOR p None)
      end
  end.

Inductive EngineCoreEventType := QUEUED | SCHEDULED | PREEMPTED_EVENT.
Record EngineCoreEvent := mkEvent { ev_type : EngineCoreEventType; timestamp : Z }.

(** * RequestStatus *)

Inductive RequestStatus :=
| WAITING
| WAITING_FOR_STRUCTURED_OUTPUT_GRAMMAR
| WAITING_FOR_REMOTE_KVS
| WAITING_FOR_STREAMING_REQ
| RUNNING
| PREEMPTED
| FINISHED_STOPPED
| FINISHED_LENGTH_CAPPED
| FINISHED_ABORTED
| FINISHED_IGNORED
| FINISHED_ERROR
| FINISHED_REPETITION.

#[export] Instance RequestStatus_eq_dec : EqDecision RequestStatus.
Proof. solve_decision. Defined.

(** [enum.auto()] numbers the members from 1. *)
Definition status_value (s : RequestStatus) : Z :=
  match s with
  | WAITING => 1 | WAITING_FOR_STRUCTURED_OUTPUT_GRAMMAR => 2
  | WAITING_FOR_REMOTE_KVS => 3 | WAITING_FOR_STREAMING_REQ => 4
  | RUNNING => 5 | PREEMPTED => 6
  | FINISHED_STOPPED => 7 | FINISHED_LENGTH_CAPPED => 8
  | FINISHED_ABORTED => 9 | FINISHED_IGNORED => 10
  | FINISHED_ERROR => 11 | FINISHED_REPETITION => 12
  end.

Definition status_is_finished (s : RequestStatus) : bool :=
  status_value s >? status_value PREEMPTED.

Inductive FinishReason := STOP | LENGTH | ABORT | ERROR | REPETITION.

Definition FINISHED_REASON_MAP (s : RequestStatus) : option FinishReason :=
  match s with
  | FINISHED_STOPPED => Some STOP
  | FINISHED_LENGTH_CAPPED => Some LENGTH
  | FINISHED_ABORTED => Some ABORT
  | FINISHED_IGNORED => Some LENGTH
  | FINISHED_ERROR => Some ERROR
  | WAITING_FOR_STREAMING_REQ => Some STOP
  | FINISHED_REPETITION => Some REPETITION
  | _ => None
  end.

(** * Request *)

Record StreamingUpdate := mkStreaming {
  su_mm_features : list MultiModalFeatureSpec;
  su_prompt_token_ids : option (list Z);
  su_max_tokens : Z;
  su_arrival_time : Z;
  su_sampling_params : option SamplingParams
}.

(** Floating-point times enter only comparisons and are integers here (ticks);
    [obj_id] is the identity [id(self)]; [kv_cache_report_mode] is [None] where
    the constructor leaves the attribute unset (pooling requests); a row of [prompt_embeds] is the bytes
    of one embedding vector. *)
Record Request := mkRequest {
  request_id : string;
  client_index : Z;
  priority : Z;
  sampling_params : option SamplingParams;
  pooling_params : option PoolingParams;
  lora_request : option LoRARequest;
  structured_output_request : option StructuredOutputRequest;
  arrival_time : Z;
  obj_id : Z;
  status : RequestStatus;
  events : list EngineCoreEvent;
  stop_reason : option (Z + string);
  kv_transfer_params : option string;
  ec_transfer_params : option string;
  kv_cache_report_mode : option string;
  max_tokens : Z;
  prompt_token_ids : option (list Z);
  prompt_embeds : option (list bytes);
  prompt_is_token_ids : option (list bool);
  prompt_embeds_per_block_hashes : gmap (Z * Z) bytes;
  num_prompt_tokens : Z;
  output_token_ids : list Z;
  all_token_ids : list Z;
  num_output_placeholders : Z;
  num_stale_output_tokens : Z;
  drop_stale_output : bool;
  num_in_flight_tokens : Z;
  next_decode_eligible_step : Z;
  last_sched_seq : Z;
  spec_token_ids : list Z;
  num_computed_tokens : Z;
  cache_salt : option string;
  mm_features : list MultiModalFeatureSpec;
  session_id : option string;
  is_prefill_chunk : bool;
  shared_prefix_boundary : Z;
  replay_start : Z;
  num_nans_in_logits : Z;
  num_preemptions : Z;
  block_hashes : list bytes;
  skip_reading_prefix_cache : bool;
  resumable : bool;
  streaming_queue : option (list (option StreamingUpdate));
  abort_immediately : bool
}.

Definition set_status (v : RequestStatus) (r : Request) : Request :=
  mkRequest (request_id r) (client_index r) (priority r) (sampling_params r)
    (pooling_params r) (lora_request r) (structured_output_request r)
    (arrival_time r) (obj_id r) v (events r) (stop_reason r)
    (kv_transfer_params r) (ec_transfer_params r) (kv_cache_report_mode r)
    (max_tokens r) (prompt_token_ids r) (prompt_embeds r) (prompt_is_token_ids
    r) (prompt_embeds_per_block_hashes r) (num_prompt_tokens r)
    (output_token_ids r) (all_token_ids r) (num_output_placeholders r)
    (num_stale_output_tokens r) (drop_stale_output r) (num_in_flight_tokens r)
    (next_decode_eligible_step r) (last_sched_seq r) (spec_token_ids r)
    (num_computed_tokens r) (cache_salt r) (mm_features r) (session_id r)
    (is_prefill_chunk r) (shared_prefix_boundary r) (replay_start r)
    (num_nans_in_logits r) (num_preemptions r) (block_hashes r)
    (skip_reading_prefix_cache r) (resumable r) (streaming_queue r)
    (abort_immediately r).
Definition set_events (v : list EngineCoreEvent) (r : Request) : Request :=
  mkRequest (request_id r) (client_index r) (priority r) (sampling_params r)
    (pooling_params r) (lora_request r) (structured_output_request r)
    (arrival_time r) (obj_id r) (status r) v (stop_reason r)
    (kv_transfer_params r) (ec_transfer_params r) (kv_cache_report_mode r)
    (max_tokens r) (prompt_token_ids r) (prompt_embeds r) (prompt_is_token_ids
    r) (prompt_embeds_per_block_hashes r) (num_prompt_tokens r)
    (output_token_ids r) (all_token_ids r) (num_output_placeholders r)
    (num_stale_output_tokens r) (drop_stale_output r) (num_in_flight_tokens r)
    (next_decode_eligible_step r) (last_sched_seq r) (spec_token_ids r)
    (num_computed_tokens r) (cache_salt r) (mm_features r) (session_id r)
    (is_prefill_chunk r) (shared_prefix_boundary r) (replay_start r)
    (num_nans_in_logits r) (num_preemptions r) (block_hashes r)
    (skip_reading_prefix_cache r) (resumable r) (streaming_queue r)
    (abort_immediately r).
Definition set_stop_reason (v : option (Z + string)) (r : Request) : Request :=
  mkRequest (request_id r) (client_index r) (priority r) (sampling_params r)
    (pooling_params r) (lora_request r) (structured_output_request r)
    (arrival_time r) (obj_id r) (status r) (events r) v (kv_transfer_params r)
    (ec_transfer_params r) (kv_cache_report_mode r) (max_tokens r)
    (prompt_token_ids r) (prompt_embeds r) (prompt_is_token_ids r)
    (prompt_embeds_per_block_hashes r) (num_prompt_tokens r) (output_token_ids
    r) (all_token_ids r) (num_output_placeholders r) (num_stale_output_tokens
    r) (drop_stale_output r) (num_in_flight_tokens r)
    (next_decode_eligible_step r) (last_sched_seq r) (spec_token_ids r)
    (num_computed_tokens r) (cache_salt r) (mm_features r) (session_id r)
    (is_prefill_chunk r) (shared_prefix_boundary r) (replay_start r)
    (num_nans_in_logits r) (num_preemptions r) (block_hashes r)
    (skip_reading_prefix_cache r) (resumable r) (streaming_queue r)
    (abort_immediately r).
Definition set_prompt_embeds_per_block_hashes (v : gmap (Z * Z) bytes) (r : Request) : Request :=
  mkRequest (request_id r) (client_index r) (priority r) (sampling_params r)
    (pooling_params r) (lora_request r) (structured_output_request r)
    (arrival_time r) (obj_id r) (status r) (events r) (stop_reason r)
    (kv_transfer_params r) (ec_transfer_params r) (kv_cache_report_mode r)
    (max_tokens r) (prompt_token_ids r) (prompt_embeds r) (prompt_is_token_ids
    r) v (num_prompt_tokens r) (output_token_ids r) (all_token_ids r)
    (num_output_placeholders r) (num_stale_output_tokens r) (drop_stale_output
    r) (num_in_flight_tokens r) (next_decode_eligible_step r) (last_sched_seq
    r) (spec_token_ids r) (num_computed_tokens r) (cache_salt r) (mm_features
    r) (session_id r) (is_prefill_chunk r) (shared_prefix_boundary r)
    (replay_start r) (num_nans_in_logits r) (num_preemptions r) (block_hashes
    r) (skip_reading_prefix_cache r) (resumable r) (streaming_queue r)
    (abort_immediately r).
Definition set_output_token_ids (v : list Z) (r : Request) : Request :=
  mkRequest (request_id r) (client_index r) (priority r) (sampling_params r)
    (pooling_params r) (lora_request r) (structured_output_request r)
    (arrival_time r) (obj_id r) (status r) (events r) (stop_reason r)
    (kv_transfer_params r) (ec_transfer_params r) (kv_cache_report_mode r)
    (max_tokens r) (prompt_token_ids r) (prompt_embeds r) (prompt_is_token_ids
    r) (prompt_embeds_per_block_hashes r) (num_prompt_tokens r) v
    (all_token_ids r) (num_output_placeholders r) (num_stale_output_tokens r)
    (drop_stale_output r) (num_in_flight_tokens r) (next_decode_eligible_step
    r) (last_sched_seq r) (spec_token_ids r) (num_computed_tokens r)
    (cache_salt r) (mm_features r) (session_id r) (is_prefill_chunk r)
    (shared_prefix_boundary r) (replay_start r) (num_nans_in_logits r)
    (num_preemptions r) (block_hashes r) (skip_reading_prefix_cache r)
    (resumable r) (streaming_queue r) (abort_immediately r).
Definition set_all_token_ids (v : list Z) (r : Request) : Request :=
  mkRequest (request_id r) (client_index r) (priority r) (sampling_params r)
    (pooling_params r) (lora_request r) (structured_output_request r)
    (arrival_time r) (obj_id r) (status r) (events r) (stop_reason r)
    (kv_transfer_params r) (ec_transfer_params r) (kv_cache_report_mode r)
    (max_tokens r) (prompt_token_ids r) (prompt_embeds r) (prompt_is_token_ids
    r) (prompt_embeds_per_block_hashes r) (num_prompt_tokens r)
    (output_token_ids r) v (num_output_placeholders r)
    (num_stale_output_tokens r) (drop_stale_output r) (num_in_flight_tokens r)
    (next_decode_eligible_step r) (last_sched_seq r) (spec_token_ids r)
    (num_computed_tokens r) (cache_salt r) (mm_features r) (session_id r)
    (is_prefill_chunk r) (shared_prefix_boundary r) (replay_start r)
    (num_nans_in_logits r) (num_preemptions r) (block_hashes r)
    (skip_reading_prefix_cache r) (resumable r) (streaming_queue r)
    (abort_immediately r).
Definition set_num_output_placeholders (v : Z) (r : Request) : Request :=
  mkRequest (request_id r) (client_index r) (priority r) (sampling_params r)
    (pooling_params r) (lora_request r) (structured_output_request r)
    (arrival_time r) (obj_id r) (status r) (events r) (stop_reason r)
    (kv_transfer_params r) (ec_transfer_params r) (kv_cache_report_mode r)
    (max_tokens r) (prompt_token_ids r) (prompt_embeds r) (prompt_is_token_ids
    r) (prompt_embeds_per_block_hashes r) (num_prompt_tokens r)
    (output_token_ids r) (all_token_ids r) v (num_stale_output_tokens r)
    (drop_stale_output r) (num_in_flight_tokens r) (next_decode_eligible_step
    r) (last_sched_seq r) (spec_token_ids r) (num_computed_tokens r)
    (cache_salt r) (mm_features r) (session_id r) (is_prefill_chunk r)
    (shared_prefix_boundary r) (replay_start r) (num_nans_in_logits r)
    (num_preemptions r) (block_hashes r) (skip_reading_prefix_cache r)
    (resumable r) (streaming_queue r) (abort_immediately r).
Definition set_spec_token_ids (v : list Z) (r : Request) : Request :=
  mkRequest (request_id r) (client_index r) (priority r) (sampling_params r)
    (pooling_params r) (lora_request r) (structured_output_request r)
    (arrival_time r) (obj_id r) (status r) (events r) (stop_reason r)
    (kv_transfer_params r) (ec_transfer_params r) (kv_cache_report_mode r)
    (max_tokens r) (prompt_token_ids r) (prompt_embeds r) (prompt_is_token_ids
    r) (prompt_embeds_per_block_hashes r) (num_prompt_tokens r)
    (output_token_ids r) (all_token_ids r) (num_output_placeholders r)
    (num_stale_output_tokens r) (drop_stale_output r) (num_in_flight_tokens r)
    (next_decode_eligible_step r) (last_sched_seq r) v (num_computed_tokens r)
    (cache_salt r) (mm_features r) (session_id r) (is_prefill_chunk r)
    (shared_prefix_boundary r) (replay_start r) (num_nans_in_logits r)
    (num_preemptions r) (block_hashes r) (skip_reading_prefix_cache r)
    (resumable r) (streaming_queue r) (abort_immediately r).
Definition set_num_computed_tokens (v : Z) (r : Request) : Request :=
  mkRequest (request_id r) (client_index r) (priority r) (sampling_params r)
    (pooling_params r) (lora_request r) (structured_output_request r)
    (arrival_time r) (obj_id r) (status r) (events r) (stop_reason r)
    (kv_transfer_params r) (ec_transfer_params r) (kv_cache_report_mode r)
    (max_tokens r) (prompt_token_ids r) (prompt_embeds r) (prompt_is_token_ids
    r) (prompt_embeds_per_block_hashes r) (num_prompt_tokens r)
    (output_token_ids r) (all_token_ids r) (num_output_placeholders r)
    (num_stale_output_tokens r) (drop_stale_output r) (num_in_flight_tokens r)
    (next_decode_eligible_step r) (last_sched_seq r) (spec_token_ids r) v
    (cache_salt r) (mm_features r) (session_id r) (is_prefill_chunk r)
    (shared_prefix_boundary r) (replay_start r) (num_nans_in_logits r)
    (num_preemptions r) (block_hashes r) (skip_reading_prefix_cache r)
    (resumable r) (streaming_queue r) (abort_immediately r).
Definition set_num_preemptions (v : Z) (r : Request) : Request :=
  mkRequest (request_id r) (client_index r) (priority r) (sampling_params r)
    (pooling_params r) (lora_request r) (structured_output_request r)
    (arrival_time r) (obj_id r) (status r) (events r) (stop_reason r)
    (kv_transfer_params r) (ec_transfer_params r) (kv_cache_report_mode r)
    (max_tokens r) (prompt_token_ids r) (prompt_embeds r) (prompt_is_token_ids
    r) (prompt_embeds_per_block_hashes r) (num_prompt_tokens r)
    (output_token_ids r) (all_token_ids r) (num_output_placeholders r)
    (num_stale_output_tokens r) (drop_stale_output r) (num_in_flight_tokens r)
    (next_decode_eligible_step r) (last_sched_seq r) (spec_token_ids r)
    (num_computed_tokens r) (cache_salt r) (mm_features r) (session_id r)
    (is_prefill_chunk r) (shared_prefix_boundary r) (replay_start r)
    (num_nans_in_logits r) v (block_hashes r) (skip_reading_prefix_cache r)
    (resumable r) (streaming_queue r) (abort_immediately r).
Definition set_block_hashes (v : list bytes) (r : Request) : Request :=
  mkRequest (request_id r) (client_index r) (priority r) (sampling_params r)
    (pooling_params r) (lora_request r) (structured_output_request r)
    (arrival_time r) (obj_id r) (status r) (events r) (stop_reason r)
    (kv_transfer_params r) (ec_transfer_params r) (kv_cache_report_mode r)
    (max_tokens r) (prompt_token_ids r) (prompt_embeds r) (prompt_is_token_ids
    r) (prompt_embeds_per_block_hashes r) (num_prompt_tokens r)
    (output_token_ids r) (all_token_ids r) (num_output_placeholders r)
    (num_stale_output_tokens r) (drop_stale_output r) (num_in_flight_tokens r)
    (next_decode_eligible_step r) (last_sched_seq r) (spec_token_ids r)
    (num_computed_tokens r) (cache_salt r) (mm_features r) (session_id r)
    (is_prefill_chunk r) (shared_prefix_boundary r) (replay_start r)
    (num_nans_in_logits r) (num_preemptions r) v (skip_reading_prefix_cache r)
    (resumable r) (streaming_queue r) (abort_immediately r).

Definition streaming_update_from_request (r : Request) : option StreamingUpdate :=
  if negb (resumable r) then None
  else Some (mkStreaming (mm_features r) (prompt_token_ids r) (max_tokens r)
               (arrival_time r) (sampling_params r)).

Definition length_from_prompt_token_ids_or_embeds (ids : option (list Z))
    (embeds : option (list bytes)) : outcome Z :=
  match ids, embeds with
  | None, None => Raise ValueError
  | None, Some e => Ok (zlen e)
  | Some t, None => Ok (zlen t)
  | Some t, Some e => if zlen e =? zlen t then Ok (zlen t) else Raise ValueError
  end.

Definition init_all_token_ids (ids : option (list Z)) (is_tok : option (list bool)) (n : Z) : list Z :=
  match ids, is_tok with
  | None, _ => replicate (Z.to_nat n) 0
  | Some t, None => t
  | Some t, Some m => zip_with (fun x (b : bool) => if b then x else 0) t m
  end.

Definition get_skip_reading_prefix_cache (sp : option SamplingParams)
    (pp : option PoolingParams) : bool :=
  match sp ≫= sp_skip_reading_prefix_cache, pp ≫= pp_skip_reading_prefix_cache with
  | Some b, _ => b
  | None, Some b => b
  | None, None => false
  end.

(** The block hasher is a callable given to the constructor; it may fill the
    request's cache of prompt-embedding digests. *)
Definition block_hasher_t := option (M Request (list bytes)).

Definition update_block_hashes (hasher : block_hasher_t) : M Request unit :=
  match hasher with
  | None => ret tt
  | Some h =>
      let! new := h in
      modify (fun r => set_block_hashes (block_hashes r ++ new) r)
  end.

(** The keyword arguments of the constructor that are stored as given. *)
Record RequestArgs := mkArgs {
  a_request_id : string;
  a_prompt_token_ids : option (list Z);
  a_sampling_params : option SamplingParams;
  a_pooling_params : option PoolingParams;
  a_client_index : Z;
  a_arrival_time : Z;
  a_prompt_embeds : option (list bytes);
  a_prompt_is_token_ids : option (list bool);
  a_mm_features : option (list MultiModalFeatureSpec);
  a_lora_request : option LoRARequest;
  a_cache_salt : option string;
  a_priority : Z;
  a_resumable : bool;
  a_session_id : option string;
  a_reasoning_ended : option bool;
  a_abort_immediately : bool;
  a_obj_id : Z
}.

(** The part of [__init__] that depends on the kind of request: status,
    connector parameters and [max_tokens]. *)
Record RequestKind := mkKind {
  k_status : RequestStatus;
  k_kv : option string;
  k_ec : option string;
  k_report : option string;
  k_max_tokens : Z
}.

Definition request_kind (sp : option SamplingParams) (pp : option PoolingParams)
    (so : option StructuredOutputRequest) : outcome RequestKind :=
  match pp, sp with
  | Some _, _ => Ok (mkKind WAITING None None None 1)
  | None, Some sp =>
      match sp_max_tokens sp with
      | None => Raise AssertionError
      | Some mt =>
          let st := match so with Some _ => WAITING_FOR_STRUCTURED_OUTPUT_GRAMMAR | None => WAITING end in
          match extra_args sp with
          | Some ea => Ok (mkKind st (ea !! "kv_transfer_params") (ea !! "ec_transfer_params")
                             (Some (default "incremental" (ea !! "kv_cache_report_mode"))) mt)
          | None => Ok (mkKind st None None (Some "incremental") mt)
          end
      end
  | None, None => Raise ValueError
  end%string.

(** [Request.__init__] *)
Definition new_request (a : RequestArgs) (hasher : block_hasher_t) : outcome Request :=
  let so := match from_sampling_params (a_sampling_params a) with
            | None => None
            | Some s => Some (mkSOR (so_params s) (a_reasoning_ended a))
            end in
  match request_kind (a_sampling_params a) (a_pooling_params a) so with
  | Raise e => Raise e
  | Ok k =>
      match length_from_prompt_token_ids_or_embeds (a_prompt_token_ids a) (a_prompt_embeds a) with
      | Raise e => Raise e
      | Ok n =>
          let r := {|
            request_id := a_request_id a; client_index := a_client_index a;
            priority := a_priority a; sampling_params := a_sampling_params a;
            pooling_params := a_pooling_params a; lora_request := a_lora_request a;
            structured_output_request := so; arrival_time := a_arrival_time a;
            obj_id := a_obj_id a; status := k_status k; events := [];
            stop_reason := None; kv_transfer_params := k_kv k; ec_transfer_params := k_ec k;
            kv_cache_report_mode := k_report k; max_tokens := k_max_tokens k;
            prompt_token_ids := a_prompt_token_ids a; prompt_embeds := a_prompt_embeds a;
            prompt_is_token_ids := a_prompt_is_token_ids a;
            prompt_embeds_per_block_hashes := ∅; num_prompt_tokens := n;
            output_token_ids := [];
            all_token_ids := init_all_token_ids (a_prompt_token_ids a) (a_prompt_is_token_ids a) n;
            num_output_placeholders := 0; num_stale_output_tokens := 0;
            drop_stale_output := false; num_in_flight_tokens := 0;
            next_decode_eligible_step := 0; last_sched_seq := 0; spec_token_ids := [];
            num_computed_tokens := 0; cache_salt := a_cache_salt a;
            mm_features := default [] (a_mm_features a); session_id := a_session_id a;
            is_prefill_chunk := false; shared_prefix_boundary := 0; replay_start := 0;
            num_nans_in_logits := 0; num_preemptions := 0; block_hashes := [];
            skip_reading_prefix_cache :=
              get_skip_reading_prefix_cache (a_sampling_params a) (a_pooling_params a);
            resumable := a_resumable a; streaming_queue := None;
            abort_immediately := a_abort_immediately a |} in
          match update_block_hashes hasher r with
          | (Ok _, r) => Ok r
          | (Raise e, _) => Raise e
          end
      end
  end.

Definition append_output_token_ids (hasher : block_hasher_t) (token_ids : list Z) : M Request unit :=
  modify (fun r => set_output_token_ids (output_token_ids r ++ token_ids) r) ;;
  modify (fun r => set_all_token_ids (all_token_ids r ++ token_ids) r) ;;
  update_block_hashes hasher.

Definition use_structured_output (r : Request) : bool :=
  bool_decide (is_Some (structured_output_request r)).
Definition num_tokens (r : Request) : Z := zlen (all_token_ids r).
Definition num_tokens_with_spec (r : Request) : Z :=
  zlen (all_token_ids r) + zlen (spec_token_ids r).
Definition num_output_tokens (r : Request) : Z := zlen (output_token_ids r).
Definition num_encoder_inputs (r : Request) : Z := zlen (mm_features r).
Definition has_encoder_inputs (r : Request) : bool := num_encoder_inputs r >? 0.
Definition is_finished (r : Request) : bool := status_is_finished (status r).
Definition get_finished_reason (r : Request) : option FinishReason :=
  FINISHED_REASON_MAP (status r).

Definition get_num_encoder_embeds (r : Request) (input_id : Z) : outcome Z :=
  if input_id <? zlen (mm_features r) then
    match py_get (mm_features r) input_id with
    | Some f => Ok (get_num_embeds (mm_position f))
    | None => Raise IndexError
    end
  else Raise AssertionError.

Definition record_event (t : EngineCoreEventType) (ts : Z) : M Request unit :=
  modify (fun r => set_events (events r ++ [mkEvent t ts]) r).

Definition take_events : M Request (option (list EngineCoreEvent)) :=
  let! evs := gets events in
  match evs with
  | [] => ret None
  | _ => modify (set_events []) ;; ret (Some evs)
  end.

(** [__lt__]: priority, then arrival time, then id, then object identity. *)
Definition request_lt (a b : Request) : bool :=
  if negb (priority a =? priority b) then priority a <? priority b
  else if negb (arrival_time a =? arrival_time b) then arrival_time a <? arrival_time b
  else if negb (String.eqb (request_id a) (request_id b))
  then String.ltb (request_id a) (request_id b)
  else obj_id a <? obj_id b.
