(* ===== verification/RequestQueue.v ===== *)
(** The waiting queues of the scheduler ([vllm/v1/core/sched/request_queue.py]):
    the [RequestQueue] interface as a class with its laws, and its two
    implementations, the FCFS deque and the priority heap ordered by
    [Request.__lt__]. *)
From Stdlib Require Import ZArith Lia Strings.String Sorting.Sorted.
From stdpp Require Import base numbers strings list gmap.
From S2P Require Import Prelude Request Heap.
Open Scope Z_scope.

(** * The order on requests *)

Lemma string_compare_trans s1 s2 s3 :
  String.compare s1 s2 <> Gt -> String.compare s2 s3 <> Gt -> String.compare s1 s3 <> Gt.
Proof.
  revert s2 s3. induction s1 as [|a s1 IH]; intros [|b s2] [|c s3]; simpl; try done.
  unfold Ascii.compare.
  destruct (N.compare_spec (Ascii.N_of_ascii a) (Ascii.N_of_ascii b)) as [E1|E1|E1],
    (N.compare_spec (Ascii.N_of_ascii b) (Ascii.N_of_ascii c)) as [E2|E2|E2]; try done.
  - rewrite E1, E2, N.compare_refl. apply IH.
  - rewrite E1. by rewrite (proj2 (N.compare_lt_iff _ _) E2).
  - rewrite <- E2. by rewrite (proj2 (N.compare_lt_iff _ _) E1).
  - by rewrite (proj2 (N.compare_lt_iff _ _) (N.lt_trans _ _ _ E1 E2)).
Qed.

Lemma string_compare_refl s : String.compare s s = Eq.
Proof. pose proof (String.compare_antisym s s). by destruct (String.compare s s). Qed.

Lemma string_compare_cmp {A} (f : A -> string) : is_cmp (fun x y => String.compare (f x) (f y)).
Proof.
  split.
  - intros x y. by rewrite String.compare_antisym.
  - intros x y z. apply string_compare_trans.
Qed.

Definition request_cmp : Request -> Request -> comparison :=
  lex (fun a b => priority a ?= priority b)
    (lex (fun a b => arrival_time a ?= arrival_time b)
      (lex (fun a b => String.compare (request_id a) (request_id b))
        (fun a b => obj_id a ?= obj_id b))).

Lemma request_cmp_ok : is_cmp request_cmp.
Proof. repeat apply lex_cmp; auto using Zcompare_cmp, string_compare_cmp. Qed.

Lemma request_lt_cmp a b : request_lt a b = cmp_lt request_cmp a b.
Proof.
  unfold request_lt, cmp_lt, request_cmp, lex.
  rewrite !Z.ltb_compare. rewrite !Z.eqb_compare.
  destruct (priority a ?= priority b); simpl; [|done..].
  destruct (arrival_time a ?= arrival_time b); simpl; [|done..].
  destruct (String.eqb_spec (request_id a) (request_id b)) as [E|E]; simpl.
  - by rewrite E, string_compare_refl.
  - unfold String.ltb. destruct (String.compare _ _) eqn:Ec; [|done..].
    by apply String.compare_eq_iff in Ec.
Qed.

Lemma request_lt_asym x y : request_lt x y = true -> request_lt y x = false.
Proof. rewrite !request_lt_cmp. apply (cmp_lt_asym _ request_cmp_ok). Qed.
Lemma request_lt_ntrans x y z :
  request_lt y x = false -> request_lt z y = false -> request_lt z x = false.
Proof. rewrite !request_lt_cmp. apply (cmp_lt_ntrans _ request_cmp_ok). Qed.

(** Requests that precede each other are the same object. *)
Lemma request_le_antisym x y :
  Heap.le request_lt x y -> Heap.le request_lt y x -> obj_id x = obj_id y.
Proof.
  unfold Heap.le. rewrite !request_lt_cmp. unfold cmp_lt. rewrite (cmp_opp _ request_cmp_ok x y).
  intros H1 H2. destruct (request_cmp x y) eqn:E; try done.
  unfold request_cmp, lex in E.
  destruct (priority x ?= priority y); [|done..]. destruct (arrival_time x ?= arrival_time y); [|done..].
  destruct (String.compare _ _); [|done..]. by apply Z.compare_eq_iff.
Qed.

(** * The interface *)

Inductive SchedulingPolicy := FCFS | PRIORITY.

(** [RequestQueue(ABC)] *)
Class RequestQueue (Q : Type) := {
  empty_queue : Q;
  add_request : Request -> M Q unit;
  pop_request : M Q Request;
  peek_request : M Q Request;
  prepend_request : Request -> M Q unit;
  prepend_requests : list Request -> M Q unit;
  remove_request : Request -> M Q unit;
  remove_requests : list Request -> M Q unit;
  queue_len : Q -> nat;
  queue_iter : Q -> outcome (list Request)
}.

(** Requests are compared by identity. *)
Definition same_request (a b : Request) : bool := obj_id a =? obj_id b.
Definition other_than (r x : Request) : Prop := same_request x r = false.
#[export] Instance other_than_dec r x : Decision (other_than r x) := decide (same_request x r = false).
Definition not_among (rs : list Request) (x : Request) : Prop := existsb (same_request x) rs = false.
#[export] Instance not_among_dec rs x : Decision (not_among rs x) := decide (existsb _ rs = false).

(** Distinct objects. *)
Definition distinct (l : list Request) : Prop := NoDup (map obj_id l).
Definition fresh (r : Request) (l : list Request) : Prop := obj_id r ∉ map obj_id l.

(** What every queue promises: [queue_iter] is the service order. *)
Class RequestQueueLaws (Q : Type) `{!RequestQueue Q} := {
  queue_ok : Q -> Prop;
  law_empty : queue_ok empty_queue /\ queue_iter empty_queue = Ok [];
  law_iter q : queue_ok q -> exists l, queue_iter q = Ok l /\ distinct l /\ queue_len q = length l;
  law_pop q r l : queue_ok q -> queue_iter q = Ok (r :: l) ->
    exists q', pop_request q = (Ok r, q') /\ queue_ok q' /\ queue_iter q' = Ok l;
  law_pop_empty q : queue_ok q -> queue_iter q = Ok [] -> pop_request q = (Raise IndexError, q);
  law_peek q : queue_ok q -> forall l, queue_iter q = Ok l ->
    peek_request q = (match l with [] => Raise IndexError | r :: _ => Ok r end, q);
  law_add q l r : queue_ok q -> queue_iter q = Ok l -> fresh r l ->
    exists q' l1 l2, add_request r q = (Ok tt, q') /\ queue_ok q' /\
      l = l1 ++ l2 /\ queue_iter q' = Ok (l1 ++ r :: l2);
  law_prepend q l r : queue_ok q -> queue_iter q = Ok l -> fresh r l ->
    exists q' l1 l2, prepend_request r q = (Ok tt, q') /\ queue_ok q' /\
      l = l1 ++ l2 /\ queue_iter q' = Ok (l1 ++ r :: l2);
  law_prepend_all q l rs : queue_ok q -> queue_iter q = Ok l -> distinct (rs ++ l) ->
    exists q' l', prepend_requests rs q = (Ok tt, q') /\ queue_ok q' /\ queue_iter q' = Ok l' /\
      l' ≡ₚ rs ++ l /\ filter (not_among rs) l' = l;
  law_remove q l r : queue_ok q -> queue_iter q = Ok l -> r ∈ l ->
    exists q', remove_request r q = (Ok tt, q') /\ queue_ok q' /\
      queue_iter q' = Ok (filter (other_than r) l);
  law_remove_all q l rs : queue_ok q -> queue_iter q = Ok l ->
    exists q', remove_requests rs q = (Ok tt, q') /\ queue_ok q' /\
      queue_iter q' = Ok (filter (not_among rs) l)
}.

(** * FCFSRequestQueue *)

(** [deque.remove]: the first occurrence, ValueError if there is none. *)
Fixpoint remove_first (r : Request) (l : list Request) : option (list Request) :=
  match l with
  | [] => None
  | x :: l => if same_request x r then Some l else cons x <$> remove_first r l
  end.

Record FCFSRequestQueue := mkFCFS { fcfs : list Request }.

#[export] Instance fcfs_queue : RequestQueue FCFSRequestQueue := {
  empty_queue := mkFCFS [];
  add_request r := modify (fun q => mkFCFS (fcfs q ++ [r]));
  pop_request := fun q => match fcfs q with
                          | [] => (Raise IndexError, q)
                          | r :: l => (Ok r, mkFCFS l)
                          end;
  peek_request := fun q => (or_raise (head (fcfs q)) IndexError, q);
  prepend_request r := modify (fun q => mkFCFS (r :: fcfs q));
  (* extendleft: each request in turn goes to the front *)
  prepend_requests rs := modify (fun q => mkFCFS (rev rs ++ fcfs q));
  remove_request r := fun q => match remove_first r (fcfs q) with
                               | Some l => (Ok tt, mkFCFS l)
                               | None => (Raise ValueError, q)
                               end;
  remove_requests rs := modify (fun q => mkFCFS (filter (not_among rs) (fcfs q)));
  queue_len q := length (fcfs q);
  queue_iter q := Ok (fcfs q)
}.

(** * PriorityRequestQueue *)

Record PriorityRequestQueue := mkPriority { heap : list Request }.

(** Replace the heap by the result of a [heapq] call. *)
Definition with_heap (o : outcome (list Request)) : M PriorityRequestQueue unit :=
  fun q => match o with
           | Ok h => (Ok tt, mkPriority h)
           | Raise e => (Raise e, q)
           end.

Definition priority_add (r : Request) : M PriorityRequestQueue unit :=
  let! h := gets heap in with_heap (Heap.heappush request_lt h r).
Definition priority_pop : M PriorityRequestQueue Request :=
  let! h := gets heap in
  match h with
  | [] => raise IndexError
  | _ => let! x := lift (Heap.heappop request_lt h) in
         modify (fun _ => mkPriority x.2) ;; ret x.1
  end.
Definition priority_remove (r : Request) : M PriorityRequestQueue unit :=
  let! h := gets heap in
  match remove_first r h with
  | None => raise ValueError
  | Some h' => with_heap (Heap.heapify request_lt h')
  end.
Definition priority_remove_all (rs : list Request) : M PriorityRequestQueue unit :=
  let! h := gets heap in with_heap (Heap.heapify request_lt (filter (not_among rs) h)).

#[export] Instance priority_queue : RequestQueue PriorityRequestQueue := {
  empty_queue := mkPriority [];
  add_request := priority_add;
  pop_request := priority_pop;
  peek_request := fun q => (or_raise (head (heap q)) IndexError, q);
  prepend_request := priority_add;
  prepend_requests rs := for_ rs priority_add;
  remove_request := priority_remove;
  remove_requests := priority_remove_all;
  queue_len q := length (heap q);
  queue_iter q := Heap.drain request_lt (length (heap q)) (heap q)
}.

(** [create_request_queue] *)
Definition create_request_queue (policy : SchedulingPolicy) :
    FCFSRequestQueue + PriorityRequestQueue :=
  match policy with
  | PRIORITY => inr empty_queue
  | FCFS => inl empty_queue
  end.

(** * The implementations satisfy the laws *)

Lemma same_request_true a b : same_request a b = true <-> obj_id a = obj_id b.
Proof. apply Z.eqb_eq. Qed.

Lemma distinct_inj l x y : distinct l -> x ∈ l -> y ∈ l -> obj_id x = obj_id y -> x = y.
Proof.
  unfold distinct. intros Hd Hx Hy E. apply list_elem_of_lookup in Hx as [i Hi], Hy as [j Hj].
  assert (i = j); [|congruence].
  eapply NoDup_lookup; [exact Hd|rewrite list_lookup_fmap, Hi; simpl; reflexivity|].
  rewrite list_lookup_fmap, Hj. simpl. by rewrite E.
Qed.

Lemma fresh_other r l x : fresh r l -> x ∈ l -> other_than r x.
Proof.
  intros Hf Hx. unfold other_than, same_request. apply Z.eqb_neq. intros E. apply Hf.
  rewrite <- E. by apply list_elem_of_fmap_2.
Qed.

Lemma remove_first_filter r l :
  distinct l -> r ∈ l -> remove_first r l = Some (filter (other_than r) l).
Proof.
  induction l as [|x l IH]; intros Hd Hr; [by apply not_elem_of_nil in Hr|].
  unfold distinct in Hd. simpl in Hd. apply NoDup_cons in Hd as [Hx Hd].
  simpl. destruct (same_request x r) eqn:E.
  - apply same_request_true in E as E'. rewrite filter_cons_False by (unfold other_than; congruence).
    f_equal. symmetry. apply list_filter_id. intros y Hy. apply (fresh_other r l); [|done].
    unfold fresh. by rewrite <- E'.
  - rewrite filter_cons_True by done. apply elem_of_cons in Hr as [->|Hr].
    { unfold same_request in E. by rewrite Z.eqb_refl in E. }
    by rewrite IH.
Qed.

Lemma distinct_filter (P : Request -> Prop) `{!forall x, Decision (P x)} l :
  distinct l -> distinct (filter P l).
Proof. unfold distinct. intros Hd. eapply sublist_NoDup; [exact Hd|]. by apply fmap_sublist, sublist_filter. Qed.

Lemma distinct_perm l l' : l ≡ₚ l' -> distinct l -> distinct l'.
Proof. unfold distinct. intros Hp. by rewrite Hp. Qed.

Lemma distinct_insert l1 r l2 : distinct (l1 ++ l2) -> fresh r (l1 ++ l2) -> distinct (l1 ++ r :: l2).
Proof.
  intros Hd Hf. apply (distinct_perm (r :: l1 ++ l2)); [apply Permutation_middle|].
  unfold distinct. simpl. by apply NoDup_cons.
Qed.

Lemma not_among_in rs x : not_among rs x <-> obj_id x ∉ map obj_id rs.
Proof.
  unfold not_among. rewrite <- not_true_iff_false, existsb_exists. split.
  - intros H [r [E Hr]]%list_elem_of_fmap. apply H. exists r.
    split; [by apply list_elem_of_In|by apply same_request_true].
  - intros H [r [Hr E]]. apply H, list_elem_of_fmap. exists r.
    split; [by apply same_request_true|by apply list_elem_of_In].
Qed.

(** Filtering out [rs] from a rearrangement of [rs ++ l] leaves [l]'s requests. *)
Lemma filter_not_among rs l : distinct (rs ++ l) ->
  filter (not_among rs) rs = [] /\ filter (not_among rs) l = l.
Proof.
  unfold distinct. rewrite map_app, NoDup_app. intros (_ & Hd & _). split.
  - destruct (filter _ rs) as [|x k] eqn:E; [done|].
    assert (x ∈ filter (not_among rs) rs) as [Hx Hin]%list_elem_of_filter by (rewrite E; by left).
    destruct (proj1 (not_among_in rs x) Hx). by apply list_elem_of_fmap_2.
  - apply list_filter_id. intros x Hx. apply not_among_in. intros Hr. apply (Hd _ Hr).
    by apply list_elem_of_fmap_2.
Qed.

#[export] Instance fcfs_laws : RequestQueueLaws FCFSRequestQueue.
Proof.
  apply (Build_RequestQueueLaws _ _ (fun q => distinct (fcfs q))); simpl.
  - split; [constructor|done].
  - intros q Hq. eauto.
  - intros [l0] r l Hq [= ->]. simpl. eexists. split_and!; [done| |done].
    unfold distinct in Hq. simpl in Hq. by apply NoDup_cons in Hq as [_ Hq].
  - intros [l0] _ [= ->]. done.
  - intros [l0] _ l [= ->]. by destruct l.
  - intros [l0] l r Hq [= ->] Hf. simpl in *. eexists _, l, []. split_and!; [done| |by rewrite app_nil_r|done].
    simpl. apply distinct_insert; by rewrite app_nil_r.
  - intros [l0] l r Hq [= ->] Hf. simpl in *. eexists _, [], l. split_and!; [done| |done|done].
    by apply (distinct_insert []).
  - intros [l0] l rs Hq [= ->] Hd. simpl in *. destruct (filter_not_among rs l Hd) as [Hf1 Hf2].
    eexists _, (rev rs ++ l). split_and!; [done| |done|by rewrite <- Permutation_rev|].
    + simpl. eapply distinct_perm; [|exact Hd]. by rewrite <- Permutation_rev.
    + rewrite filter_app, Hf2. replace (filter (not_among rs) (rev rs)) with (@nil Request); [done|].
      symmetry. apply Permutation_nil_r. rewrite <- Hf1. by rewrite <- Permutation_rev.
  - intros [l0] l r Hq [= ->] Hr. simpl in *. rewrite remove_first_filter by done.
    eexists. split_and!; [done| |done]. by apply distinct_filter.
  - intros [l0] l rs Hq [= ->]. simpl in *. eexists. split_and!; [done| |done]. by apply distinct_filter.
Qed.

(** ** Sorted contents are determined by the set of requests *)

Abbreviation sorted := (StronglySorted (Heap.le request_lt)).

Lemma sorted_sublist l l' : l `sublist_of` l' -> sorted l' -> sorted l.
Proof.
  induction 1 as [|x l l' Hs IH|x l l' Hs IH]; intros Hl; [constructor| |];
    apply StronglySorted_inv in Hl as [Hl Hf]; [|auto].
  constructor; [auto|]. apply Forall_forall. intros y Hy. rewrite Forall_forall in Hf. apply Hf.
  by eapply elem_of_sublist.
Qed.

Lemma sorted_unique l l' : l ≡ₚ l' -> distinct l -> sorted l -> sorted l' -> l = l'.
Proof.
  revert l'. induction l as [|x l IH]; intros l' Hp Hd Hs Hs'.
  { by apply Permutation_nil_l in Hp. }
  destruct l' as [|x' l']; [by apply Permutation_nil_r in Hp|].
  apply StronglySorted_inv in Hs as Hs0. destruct Hs0 as [Hs1 Hx].
  apply StronglySorted_inv in Hs' as Hs0. destruct Hs0 as [Hs1' Hx'].
  rewrite Forall_forall in Hx, Hx'.
  assert (x = x') as <-.
  { assert (x ∈ x' :: l') as H1 by (rewrite <- Hp; by left).
    assert (x' ∈ x :: l) as H2 by (rewrite Hp; by left).
    apply elem_of_cons in H1 as [?|H1]; [done|]. apply elem_of_cons in H2 as [?|H2]; [done|].
    apply (distinct_inj (x :: l)); [done|by left|by right|]. apply request_le_antisym; auto. }
  apply Permutation_cons_inv in Hp. f_equal. apply IH; [done| |done|done].
  unfold distinct in *. simpl in Hd. by apply NoDup_cons in Hd as [_ Hd].
Qed.

Definition priority_ok (q : PriorityRequestQueue) : Prop :=
  Heap.is_heap request_lt (heap q) /\ distinct (heap q).

(** Iteration yields the contents in order, whatever the heap's layout. *)
Lemma priority_iter q :
  priority_ok q -> exists l, queue_iter q = Ok l /\ l ≡ₚ heap q /\ sorted l.
Proof.
  intros [Hh _]. apply (Heap.drain_ok _ request_lt_asym request_lt_ntrans); done.
Qed.

Lemma priority_iter_is q l :
  priority_ok q -> l ≡ₚ heap q -> sorted l -> queue_iter q = Ok l.
Proof.
  intros Hq Hp Hs. destruct (priority_iter q Hq) as (l' & -> & Hp' & Hs'). f_equal.
  apply sorted_unique; [by rewrite Hp|by eapply distinct_perm; [symmetry|apply Hq]|done|done].
Qed.

Lemma priority_add_ok q l r :
  priority_ok q -> queue_iter q = Ok l -> fresh r l ->
  exists q' l1 l2, priority_add r q = (Ok tt, q') /\ priority_ok q' /\
    l = l1 ++ l2 /\ queue_iter q' = Ok (l1 ++ r :: l2).
Proof.
  intros Hq Hl Hf. destruct (priority_iter q Hq) as (l0 & E & Hp & Hs). rewrite Hl in E. injection E as <-.
  destruct (Heap.heappush_ok _ request_lt_asym request_lt_ntrans (heap q) r (proj1 Hq))
    as (h' & Eh & Hh' & Hp').
  assert (priority_ok (mkPriority h')) as Hq'.
  { split; [done|]. simpl. eapply (distinct_perm (r :: l)); [by rewrite Hp', Hp|].
    apply (distinct_insert [] r l); [|done]. eapply distinct_perm; [symmetry; exact Hp|apply Hq]. }
  destruct (priority_iter _ Hq') as (l' & E' & Hpl' & Hs'). simpl in Hpl'.
  assert (r ∈ l') as (l1 & l2 & ->)%list_elem_of_split by (rewrite Hpl', Hp'; by left).
  exists (mkPriority h'), l1, l2. split_and!; [|done| |done].
  - unfold priority_add, bind, gets. by rewrite Eh.
  - apply sorted_unique; [|by eapply distinct_perm; [symmetry|apply Hq]|done|].
    + apply (Permutation_cons_inv (a := r)). by rewrite Permutation_middle, Hpl', Hp', Hp.
    + eapply sorted_sublist; [|exact Hs']. apply sublist_app; [done|]. by apply sublist_cons.
Qed.

Lemma priority_add_all_ok q l rs :
  priority_ok q -> queue_iter q = Ok l -> distinct (rs ++ l) ->
  exists q' l', for_ rs priority_add q = (Ok tt, q') /\ priority_ok q' /\
    queue_iter q' = Ok l' /\ l' ≡ₚ rs ++ l.
Proof.
  revert q l. induction rs as [|r rs IH]; intros q l Hq Hl Hd; [by exists q, l|].
  assert (fresh r (rs ++ l) /\ distinct (rs ++ l)) as [Hf Hd'] by by apply NoDup_cons.
  destruct (priority_add_ok q l r Hq Hl) as (q1 & l1 & l2 & E1 & Hq1 & -> & Hl1).
  { unfold fresh in *. rewrite map_app, elem_of_app in Hf. tauto. }
  destruct (IH q1 _ Hq1 Hl1) as (q2 & l' & E2 & Hq2 & Hl2 & Hp).
  { eapply distinct_perm; [|exact Hd]. simpl.
    rewrite <- (Permutation_middle l1), (Permutation_middle rs). done. }
  exists q2, l'. simpl. unfold bind. rewrite E1. split_and!; [done|done|done|].
  rewrite Hp. by rewrite <- (Permutation_middle l1), (Permutation_middle rs).
Qed.

Lemma priority_prepend_all_ok q l rs :
  priority_ok q -> queue_iter q = Ok l -> distinct (rs ++ l) ->
  exists q' l', for_ rs priority_add q = (Ok tt, q') /\ priority_ok q' /\
    queue_iter q' = Ok l' /\ l' ≡ₚ rs ++ l /\ filter (not_among rs) l' = l.
Proof.
  intros Hq Hl Hd. destruct (priority_add_all_ok q l rs Hq Hl Hd) as (q' & l' & E & Hq' & Hl' & Hp).
  exists q', l'. split_and!; try done. destruct (filter_not_among rs l Hd) as [Hf1 Hf2].
  destruct (priority_iter q Hq) as (l0 & E0 & _ & Hs). rewrite Hl in E0. injection E0 as <-.
  destruct (priority_iter q' Hq') as (l0 & E0 & Hp0 & Hs'). rewrite Hl' in E0. injection E0 as <-.
  apply sorted_unique; [|apply distinct_filter|eapply sorted_sublist; [apply sublist_filter|done]|done].
  - by rewrite Hp, filter_app, Hf1, Hf2.
  - eapply distinct_perm; [symmetry; exact Hp|done].
Qed.

(** Keeping the requests that satisfy [P]. *)
Lemma priority_filter_ok q l (P : Request -> Prop) `{!forall x, Decision (P x)} :
  priority_ok q -> queue_iter q = Ok l ->
  exists q', with_heap (Heap.heapify request_lt (filter P (heap q))) q = (Ok tt, q') /\ priority_ok q' /\
    queue_iter q' = Ok (filter P l).
Proof.
  intros Hq Hl. destruct (priority_iter q Hq) as (l0 & E & Hp & Hs). rewrite Hl in E. injection E as <-.
  destruct (Heap.heapify_ok _ request_lt_asym request_lt_ntrans (filter P (heap q))) as (h' & Eh & Hh' & Hp').
  unfold with_heap. rewrite Eh. exists (mkPriority h').
  assert (priority_ok (mkPriority h')) as Hq'.
  { split; [done|]. simpl. eapply distinct_perm; [symmetry; exact Hp'|]. apply distinct_filter, Hq. }
  split_and!; [done|done|]. apply priority_iter_is; [done|simpl; by rewrite Hp', Hp|].
  eapply sorted_sublist; [apply sublist_filter|done].
Qed.

Lemma priority_pop_ok q r l :
  priority_ok q -> queue_iter q = Ok (r :: l) ->
  exists q', priority_pop q = (Ok r, q') /\ priority_ok q' /\ queue_iter q' = Ok l.
Proof.
  intros Hq Hl. destruct (priority_iter q Hq) as (l0 & E & Hp & _). rewrite Hl in E. injection E as <-.
  destruct q as [h]. simpl in *. destruct h as [|z h]; [by apply Permutation_nil_r in Hp|].
  destruct (Heap.heappop_ok _ request_lt_asym request_lt_ntrans (z :: h) (proj1 Hq))
    as (x & h' & Eh & Hh' & Hp' & _); [done|].
  cbn [Heap.drain length] in Hl. rewrite Eh in Hl.
  assert (length h = length h') as Hlen by (apply Permutation_length in Hp'; simpl in Hp'; lia).
  rewrite Hlen in Hl. destruct (Heap.drain _ _ h') eqn:Ed; [|done]. simplify_eq.
  exists (mkPriority h'). split_and!.
  - unfold priority_pop, bind, gets, lift, modify, ret. cbn [heap]. by rewrite Eh.
  - split; [done|]. pose proof (distinct_perm _ _ Hp' (proj2 Hq)) as Hd. unfold distinct in *.
    simpl in Hd. by apply NoDup_cons in Hd as [_ Hd].
  - exact Ed.
Qed.

Lemma priority_empty_ok : priority_ok empty_queue.
Proof. split; [|constructor]. intros i a b _ _ _ _ Hb. done. Qed.

Lemma priority_remove_ok q l r :
  priority_ok q -> queue_iter q = Ok l -> r ∈ l ->
  exists q', priority_remove r q = (Ok tt, q') /\ priority_ok q' /\
    queue_iter q' = Ok (filter (other_than r) l).
Proof.
  intros Hq Hl Hr. destruct (priority_filter_ok q l (other_than r) Hq Hl) as (q' & E & H).
  exists q'. split; [|done]. destruct (priority_iter q Hq) as (l0 & E0 & Hp & _).
  rewrite Hl in E0. injection E0 as <-. unfold priority_remove, bind, gets.
  rewrite remove_first_filter; [done|apply Hq|by rewrite <- Hp].
Qed.

#[export] Instance priority_laws : RequestQueueLaws PriorityRequestQueue.
Proof.
  apply (Build_RequestQueueLaws _ _ priority_ok).
  - split; [apply priority_empty_ok|done].
  - intros q Hq. destruct (priority_iter q Hq) as (l & E & Hp & _). exists l. split_and!; [done| |].
    + eapply distinct_perm; [symmetry; exact Hp|apply Hq].
    + simpl. by rewrite Hp.
  - intros q r l. apply priority_pop_ok.
  - intros q Hq Hl. destruct (priority_iter q Hq) as (l & E & Hp & _). rewrite Hl in E. injection E as <-.
    apply Permutation_nil_l in Hp. destruct q as [h]. simpl in *. by subst.
  - intros q Hq l Hl. destruct l as [|r l].
    + destruct (priority_iter q Hq) as (l & E & Hp & _). rewrite Hl in E. injection E as <-.
      apply Permutation_nil_l in Hp. destruct q as [h]. simpl in *. by subst.
    + destruct (priority_iter q Hq) as (l0 & E & Hp & _). rewrite Hl in E. injection E as <-.
      destruct q as [h]. simpl in *. destruct h as [|z h]; [by apply Permutation_nil_r in Hp|].
      destruct (Heap.heappop_ok _ request_lt_asym request_lt_ntrans (z :: h) (proj1 Hq))
        as (x & h' & Eh & _ & _ & Hz & _); [done|].
      cbn [Heap.drain length] in Hl. rewrite Eh in Hl. simpl in Hz. simplify_eq.
      destruct (Heap.drain _ _ _); by simplify_eq.
  - intros q l r. apply priority_add_ok.
  - intros q l r. apply priority_add_ok.
  - intros q l rs. apply priority_prepend_all_ok.
  - intros q l r. apply priority_remove_ok.
  - intros q l rs Hq Hl. by apply priority_filter_ok.
Qed.

(** * Properties of every queue *)

Inductive queue_op :=
| QAdd (r : Request) | QPrepend (r : Request) | QPrependAll (rs : list Request)
| QPop | QRemove (r : Request) | QRemoveAll (rs : list Request).

Section clients.
Context {Q : Type} `{!RequestQueue Q} `{!RequestQueueLaws Q}.

(** A call and the requests it hands out. *)
Definition queue_call (o : queue_op) : M Q (list Request) :=
  match o with
  | QAdd r => add_request r ;; ret []
  | QPrepend r => prepend_request r ;; ret []
  | QPrependAll rs => prepend_requests rs ;; ret []
  | QPop => let! r := pop_request in ret [r]
  | QRemove r => remove_request r ;; ret []
  | QRemoveAll rs => remove_requests rs ;; ret []
  end.

Fixpoint queue_calls (os : list queue_op) : M Q (list Request) :=
  match os with
  | [] => ret []
  | o :: os => let! out := queue_call o in let! outs := queue_calls os in ret (out ++ outs)
  end.

(** The calling contract on a queue that holds [l]. *)
Definition call_ok (l : list Request) (o : queue_op) : Prop :=
  match o with
  | QAdd r | QPrepend r => fresh r l
  | QPrependAll rs => distinct (rs ++ l)
  | QPop => l <> []
  | QRemove r => r ∈ l
  | QRemoveAll _ => True
  end.

(** What a call brings in and what it drops. *)
Definition added (o : queue_op) : list Request :=
  match o with QAdd r | QPrepend r => [r] | QPrependAll rs => rs | _ => [] end.
Definition dropped (l : list Request) (o : queue_op) : list Request :=
  match o with
  | QRemove r => filter (fun x => ~ other_than r x) l
  | QRemoveAll rs => filter (fun x => ~ not_among rs x) l
  | _ => []
  end.

Lemma filter_split (P : Request -> Prop) `{!forall x, Decision (P x)} (l : list Request) :
  l ≡ₚ filter (fun x => ~ P x) l ++ filter P l.
Proof. rewrite Permutation_app_comm. symmetry. apply filter_app_complement. Qed.

(** One call within the contract: nothing is lost or duplicated. *)
Lemma queue_call_ok q l o :
  queue_ok q -> queue_iter q = Ok l -> call_ok l o ->
  exists out q' l', queue_call o q = (Ok out, q') /\ queue_ok q' /\ queue_iter q' = Ok l' /\
    added o ++ l ≡ₚ out ++ dropped l o ++ l' /\ (forall r, out = [r] -> head l = Some r).
Proof.
  intros Hq Hl Ho. destruct o as [r|r|rs| |r|rs]; simpl in *; unfold bind, ret.
  - destruct (law_add q l r Hq Hl Ho) as (q' & l1 & l2 & -> & Hq' & -> & Hl').
    eexists [], q', _. split_and!; try done. simpl. by rewrite Permutation_middle.
  - destruct (law_prepend q l r Hq Hl Ho) as (q' & l1 & l2 & -> & Hq' & -> & Hl').
    eexists [], q', _. split_and!; try done. simpl. by rewrite Permutation_middle.
  - destruct (law_prepend_all q l rs Hq Hl Ho) as (q' & l' & -> & Hq' & Hl' & Hp & _).
    eexists [], q', _. by split_and!.
  - destruct l as [|r l]; [done|]. destruct (law_pop q r l Hq Hl) as (q' & -> & Hq' & Hl').
    eexists [r], q', _. split_and!; try done. naive_solver.
  - destruct (law_remove q l r Hq Hl Ho) as (q' & -> & Hq' & Hl').
    eexists [], q', _. split_and!; try done. simpl. apply filter_split.
  - destruct (law_remove_all q l rs Hq Hl) as (q' & -> & Hq' & Hl').
    eexists [], q', _. split_and!; try done. simpl. apply filter_split.
Qed.

Lemma perm_account (a c l o d l1 os g l2 : list Request) :
  a ++ l ≡ₚ o ++ d ++ l1 -> c ++ l1 ≡ₚ os ++ g ++ l2 ->
  (a ++ c) ++ l ≡ₚ (o ++ os) ++ (d ++ g) ++ l2.
Proof.
  intros H1 H2. rewrite (Permutation_app_comm a c), <- !app_assoc, H1.
  rewrite (Permutation_app_swap_app c o), (Permutation_app_swap_app c d), H2.
  apply Permutation_app_head. apply Permutation_app_swap_app.
Qed.

(** The contract along a sequence of calls: each call respects it in the state
    that the calls before it lead to. *)
Inductive calls_ok : Q -> list queue_op -> Prop :=
| calls_nil q : calls_ok q []
| calls_cons q o os l :
    queue_iter q = Ok l -> call_ok l o ->
    (forall out q', queue_call o q = (Ok out, q') -> calls_ok q' os) -> calls_ok q (o :: os).

(** The requests that the removals among the calls take out: those queued at the
    time that a removal names. *)
Fixpoint removed (os : list queue_op) (q : Q) : list Request :=
  match os with
  | [] => []
  | o :: os => match queue_iter q, queue_call o q with
               | Ok l, (Ok _, q') => dropped l o ++ removed os q'
               | _, _ => []
               end
  end.

(** Conservation of requests, for every implementation of the interface.
    A sequence of calls that respects the contract (new requests are new,
    removed ones are present, no pop from an empty queue) never fails, and the
    requests that were in the queue or entered it are exactly those handed out by
    pops, those named by a removal while they were queued, and those still
    iterated over, each once. *)
Theorem requests_conserved (q : Q) (l : list Request) (os : list queue_op) :
  queue_ok q -> queue_iter q = Ok l -> calls_ok q os ->
  exists outs q' l', queue_calls os q = (Ok outs, q') /\ queue_ok q' /\ queue_iter q' = Ok l' /\
    concat (map added os) ++ l ≡ₚ outs ++ removed os q ++ l' /\ distinct l'.
Proof.
  intros Hq Hl Hc. revert l Hq Hl. induction Hc as [q|q o os l0 Hl0 Ho Hc IH]; intros l Hq Hl.
  { destruct (law_iter q Hq) as (l' & E & Hd & _). rewrite Hl in E. injection E as <-.
    exists [], q, l. by split_and!. }
  rewrite Hl in Hl0. injection Hl0 as <-.
  destruct (queue_call_ok q l o Hq Hl Ho) as (out & q1 & l1 & E & Hq1 & Hl1 & Hp & _).
  destruct (IH out q1 E l1 Hq1 Hl1) as (outs & q2 & l2 & E2 & Hq2 & Hl2 & Hp2 & Hd2).
  exists (out ++ outs), q2, l2. cbn [queue_calls removed map concat]. unfold bind. rewrite E, E2, Hl.
  split_and!; [done|done|done| |done].
  by eapply perm_account.
Qed.
End clients.

(** * The priority queue as a sorted list *)

Fixpoint insert_sorted (r : Request) (l : list Request) : list Request :=
  match l with
  | [] => [r]
  | x :: l' => if request_lt r x then r :: l else x :: insert_sorted r l'
  end.

(** Reference: the requests handed out and the remaining sorted list. *)
Definition sorted_call (l : list Request) (o : queue_op) : list Request * list Request :=
  match o with
  | QAdd r | QPrepend r => ([], insert_sorted r l)
  | QPrependAll rs => ([], foldl (fun l r => insert_sorted r l) l rs)
  | QPop => match l with [] => ([], []) | r :: l => ([r], l) end
  | QRemove r => ([], filter (other_than r) l)
  | QRemoveAll rs => ([], filter (not_among rs) l)
  end.
Fixpoint sorted_calls (l : list Request) (os : list queue_op) : list Request * list Request :=
  match os with
  | [] => ([], l)
  | o :: os => let '(out, l') := sorted_call l o in
               let '(outs, l'') := sorted_calls l' os in (out ++ outs, l'')
  end.
Fixpoint sorted_calls_ok (l : list Request) (os : list queue_op) : Prop :=
  match os with
  | [] => True
  | o :: os => call_ok l o /\ sorted_calls_ok (sorted_call l o).2 os
  end.

Lemma insert_sorted_perm r l : insert_sorted r l ≡ₚ r :: l.
Proof.
  induction l as [|x l IH]; simpl; [done|]. destruct (request_lt r x); [done|].
  rewrite IH. apply perm_swap.
Qed.

Lemma insert_sorted_sorted r l : sorted l -> sorted (insert_sorted r l).
Proof.
  induction l as [|x l IH]; intros Hs; simpl; [repeat constructor|].
  apply StronglySorted_inv in Hs as Hs0. destruct Hs0 as [Hl Hx].
  destruct (request_lt r x) eqn:E.
  - constructor; [done|]. constructor; [by apply request_lt_asym|].
    eapply Forall_impl; [exact Hx|]. intros y Hy. unfold Heap.le in *.
    apply (request_lt_ntrans r x y); [by apply request_lt_asym|done].
  - constructor; [auto|]. apply Forall_forall. intros y Hy. rewrite insert_sorted_perm in Hy.
    apply elem_of_cons in Hy as [->|Hy]; [done|]. rewrite Forall_forall in Hx. auto.
Qed.

Lemma foldl_insert_sorted rs l :
  sorted l -> sorted (foldl (fun l r => insert_sorted r l) l rs) /\
  foldl (fun l r => insert_sorted r l) l rs ≡ₚ rs ++ l.
Proof.
  revert l. induction rs as [|r rs IH]; intros l Hs; simpl; [done|].
  destruct (IH (insert_sorted r l)) as [H1 H2]; [by apply insert_sorted_sorted|].
  split; [done|]. rewrite H2, insert_sorted_perm. by rewrite <- Permutation_middle.
Qed.

Lemma priority_call_ok q l o :
  priority_ok q -> queue_iter q = Ok l -> call_ok l o ->
  exists q', queue_call o q = (Ok (sorted_call l o).1, q') /\ priority_ok q' /\
    queue_iter q' = Ok (sorted_call l o).2.
Proof.
  intros Hq Hl Ho. destruct (priority_iter q Hq) as (l0 & E & Hp & Hs). rewrite Hl in E. injection E as <-.
  assert (distinct l) as Hd by (eapply distinct_perm; [symmetry; exact Hp|apply Hq]).
  assert (forall q' l' l'', priority_ok q' -> queue_iter q' = Ok l' -> l' ≡ₚ l'' -> sorted l'' ->
    queue_iter q' = Ok l'') as Hsort.
  { intros q' l' l'' Hq' Hl' Hp' Hs'. destruct (priority_iter q' Hq') as (l1 & E1 & Hp1 & Hs1).
    rewrite Hl' in E1. injection E1 as <-. apply priority_iter_is; [done| |done]. by rewrite <- Hp'. }
  destruct o as [r|r|rs| |r|rs]; simpl in *; unfold bind, ret.
  1, 2: destruct (priority_add_ok q l r Hq Hl Ho) as (q' & l1 & l2 & -> & Hq' & -> & Hl');
    exists q'; (split_and!; [done|done|]); apply (Hsort q' _ _ Hq' Hl');
      [by rewrite insert_sorted_perm, Permutation_middle|by apply insert_sorted_sorted].
  - destruct (priority_prepend_all_ok q l rs Hq Hl Ho) as (q' & l' & -> & Hq' & Hl' & Hp' & _).
    destruct (foldl_insert_sorted rs l Hs) as [Hs2 Hp2].
    exists q'. split_and!; [done|done|]. apply (Hsort q' _ _ Hq' Hl'); [by rewrite Hp', Hp2|done].
  - destruct l as [|r l]; [done|]. destruct (priority_pop_ok q r l Hq Hl) as (q' & -> & H).
    by exists q'.
  - destruct (priority_remove_ok q l r Hq Hl Ho) as (q' & -> & H). by exists q'.
  - destruct (priority_filter_ok q l (not_among rs) Hq Hl) as (q' & E & H).
    unfold priority_remove_all, bind, gets. rewrite E. by exists q'.
Qed.

(** C30: the priority queue implements a sorted list. For every sequence of
    calls on an empty [PriorityRequestQueue] within the contract, the requests
    handed out and the final iteration order are those of a list kept sorted by
    [Request.__lt__] (priority, then arrival time, then id, then identity),
    although the code keeps a binary heap and re-heapifies after removals. *)
Theorem priority_queue_refines_sorted_list (os : list queue_op) :
  sorted_calls_ok [] os ->
  exists q', queue_calls os (empty_queue : PriorityRequestQueue) = (Ok (sorted_calls [] os).1, q') /\
    queue_iter q' = Ok (sorted_calls [] os).2 /\
    StronglySorted (fun a b => request_lt b a = false) (sorted_calls [] os).2.
Proof.
  intros Hos.
  assert (forall q l, priority_ok q -> queue_iter q = Ok l -> sorted_calls_ok l os ->
    exists q', queue_calls os q = (Ok (sorted_calls l os).1, q') /\ priority_ok q' /\
      queue_iter q' = Ok (sorted_calls l os).2) as H.
  { clear Hos. induction os as [|o os IH]; intros q l Hq Hl Ho; [by exists q|]. destruct Ho as [Ho Hos].
    destruct (priority_call_ok q l o Hq Hl Ho) as (q1 & E1 & Hq1 & Hl1).
    destruct (IH q1 _ Hq1 Hl1 Hos) as (q2 & E2 & Hq2 & Hl2). exists q2. simpl. unfold bind, ret.
    rewrite E1, E2. destruct (sorted_call l o) as [out l1]. simpl in *.
    by destruct (sorted_calls l1 os). }
  destruct (H empty_queue [] priority_empty_ok eq_refl Hos) as (q' & E & Hq' & Hl'). exists q'. split_and!; [done|done|].
  destruct (priority_iter q' Hq') as (l' & E' & _ & Hs). rewrite Hl' in E'. by injection E' as <-.
Qed.

(** * Witnesses *)

Definition plain_request (id : string) (prio arrival obj : Z) : outcome Request :=
  new_request (mkArgs id (Some [1]) (Some (mkSampling (Some 16) 0 (Some 0) None None None None None))
    None 0 arrival None None None None None prio false None None false obj) None.
Definition get_request (o : outcome Request) : list Request :=
  match o with Ok r => [r] | Raise _ => [] end.
Definition demo_requests : list Request :=
  get_request (plain_request "a" 5 0 1) ++ get_request (plain_request "b" 1 3 2) ++
  get_request (plain_request "c" 1 2 3).
Definition demo_calls : list queue_op := map QAdd demo_requests ++ [QPop; QPop].

Lemma demo_calls_ok : sorted_calls_ok [] demo_calls.
Proof.
  unfold demo_calls. vm_compute map. vm_compute app. cbn [sorted_calls_ok call_ok].
  repeat split; try done; apply (bool_decide_unpack _); vm_compute; exact I.
Qed.

Lemma priority_queue_refines_sorted_list_witness :
  sorted_calls_ok [] demo_calls /\
  exists outs q', queue_calls demo_calls (empty_queue : PriorityRequestQueue) = (Ok outs, q') /\
    map request_id outs = ["c"; "b"]%string.
Proof.
  split; [exact demo_calls_ok|].
  destruct (priority_queue_refines_sorted_list demo_calls demo_calls_ok) as (q' & E & _).
  eexists _, q'. split; [exact E|]. vm_compute. reflexivity.
Defined.

Definition demo_removal : list queue_op :=
  map QAdd demo_requests ++ [QPop; QRemoveAll (take 2 demo_requests); QPop].

Lemma requests_conserved_witness :
  exists outs q' l',
    queue_calls demo_removal (empty_queue : FCFSRequestQueue) = (Ok outs, q') /\ queue_iter q' = Ok l' /\
    demo_requests ≡ₚ outs ++ removed demo_removal (empty_queue : FCFSRequestQueue) ++ l' /\
    map request_id (removed demo_removal (empty_queue : FCFSRequestQueue)) = ["b"]%string.
Proof.
  destruct (law_empty (Q := FCFSRequestQueue)) as [Hq Hl].
  destruct (requests_conserved (empty_queue : FCFSRequestQueue) [] demo_removal Hq Hl)
    as (outs & q' & l' & E & _ & Hi & Hp & _).
  - unfold demo_removal. vm_compute map. vm_compute app.
    repeat (eapply calls_cons; [vm_compute; reflexivity| |
      let E := fresh in intros ?out ?q' E; vm_compute in E; injection E as <- <-]);
      try apply calls_nil; cbn [call_ok]; try done; apply (bool_decide_unpack _); vm_compute; exact I.
  - exists outs, q', l'. split; [exact E|]. split; [exact Hi|]. split; [|vm_compute; reflexivity].
    rewrite <- Hp. by vm_compute.
Defined.
