(* ===== verification/StopCheck.v ===== *)
(** Stop conditions of a request ([vllm/v1/core/sched/utils.py]): end-of-sequence
    and stop tokens, length limits, detection of repeating tails, and
    [remove_all]. *)
From Stdlib Require Import ZArith Lia Strings.String.
From stdpp Require Import base numbers strings list gmap.
From S2P Require Import Prelude Request.
Open Scope Z_scope.
Local Arguments py_get : simpl never.

(** * Repetition detection *)

(** [for m in range(1, repetition_min_count)] for one [n]. *)
Fixpoint repeats_at (token_ids : list Z) (pattern_len target_token n : Z) (ms : list Z) : outcome bool :=
  match ms with
  | [] => Ok true
  | m :: ms =>
      match py_get token_ids (- (pattern_len * m + n)) with
      | None => Raise IndexError
      | Some t => if negb (t =? target_token) then Ok false
                  else repeats_at token_ids pattern_len target_token n ms
      end
  end.

Fixpoint has_repeating_loop (token_ids : list Z) (pattern_len repetition_min_count : Z) (ns : list Z) :
    outcome bool :=
  match ns with
  | [] => Ok true
  | n :: ns =>
      match py_get token_ids (- n) with
      | None => Raise IndexError
      | Some target_token =>
          match repeats_at token_ids pattern_len target_token n (py_range 1 repetition_min_count) with
          | Ok true => has_repeating_loop token_ids pattern_len repetition_min_count ns
          | other => other
          end
      end
  end.
Definition has_repeating_pattern (token_ids : list Z) (pattern_len repetition_min_count : Z) :
    outcome bool :=
  has_repeating_loop token_ids pattern_len repetition_min_count (py_range 1 (pattern_len + 1)).

Fixpoint repetition_loop (token_ids : list Z) (min_count : Z) (lens : list Z) : outcome bool :=
  match lens with
  | [] => Ok false
  | pattern_len :: lens =>
      if pattern_len * min_count >? zlen token_ids then Ok false else
      match has_repeating_pattern token_ids pattern_len min_count with
      | Ok false => repetition_loop token_ids min_count lens
      | other => other
      end
  end.
Definition check_sequence_repetition (token_ids : list Z) (params : RepetitionDetectionParams) :
    outcome bool :=
  let min_pattern_size := if min_pattern_size params <=? 0 then 1 else min_pattern_size params in
  if (max_pattern_size params <=? 0) || (min_count params <? 2) ||
     (min_pattern_size >? max_pattern_size params) then Ok false else
  repetition_loop token_ids (min_count params) (py_range min_pattern_size (max_pattern_size params + 1)).

(** * [remove_all] *)

(** [lst.remove(item)] with the ValueError suppressed. *)
Fixpoint list_remove {A} `{!EqDecision A} (item : A) (lst : list A) : list A :=
  match lst with
  | [] => []
  | x :: lst => if bool_decide (x = item) then lst else x :: list_remove item lst
  end.

(** The state is the list object [lst]; a single item is removed in place. *)
Definition remove_all {A} `{Countable A} (items_to_remove : gset A) : M (list A) (list A) :=
  match elements items_to_remove with
  | [] => gets (fun lst => lst)
  | [item] => modify (list_remove item) ;; gets (fun lst => lst)
  | _ => gets (filter (fun x => x ∉ items_to_remove))
  end.

(** * [check_stop] *)

Definition finish (s : RequestStatus) (reason : option (Z + string)) : M Request bool :=
  modify (set_status s) ;;
  match reason with
  | Some _ => modify (set_stop_reason reason)
  | None => ret tt
  end ;;
  ret true.

Definition check_stop (max_model_len : Z) : M Request bool :=
  let! r := gets (fun r => r) in
  assert_ (bool_decide (pooling_params r = None)) ;;
  match sampling_params r with
  | None => raise AssertionError
  | Some sp =>
      let! last_token_id := lift (or_raise (py_get (output_token_ids r) (-1)) IndexError) in
      if bool_decide (Some last_token_id = eos_token_id sp) then finish FINISHED_STOPPED None
      else if bool_decide (last_token_id ∈ default [] (stop_token_ids sp))
      then finish FINISHED_STOPPED (Some (inl last_token_id))
      else if (num_tokens r >=? max_model_len) || (num_output_tokens r >=? max_tokens r)
      then finish FINISHED_LENGTH_CAPPED None
      else if num_output_tokens r <? min_tokens sp then ret false
      else
        match repetition_detection sp with
        | None => ret false
        | Some rd =>
            let! rep := lift (check_sequence_repetition (output_token_ids r) rd) in
            if rep : bool then finish FINISHED_REPETITION (Some (inr "repetition_detected"%string))
            else ret false
        end
  end.

(** * Repetition detection is exact *)

(** Reference: the sequence ends with [c] copies of some block of [P] tokens. *)
Definition ends_with_copies (ids : list Z) (P c : Z) : Prop :=
  exists pre pat, zlen pat = P /\ ids = pre ++ concat (repeat pat (Z.to_nat c)).

(** Token [k] from the end, [1 <= k <= len]. *)
Definition from_end (ids : list Z) (k : Z) : option Z := ids !! Z.to_nat (zlen ids - k).

Lemma py_get_from_end (ids : list Z) k : 1 <= k -> py_get ids (- k) = if k <=? zlen ids then from_end ids k else None.
Proof.
  intros Hk. unfold py_get, from_end. rewrite (proj2 (Z.ltb_lt (- k) 0)) by lia.
  destruct (k <=? zlen ids) eqn:E; bools.
  - rewrite (proj2 (Z.ltb_ge _ 0)) by lia. f_equal. lia.
  - by rewrite (proj2 (Z.ltb_lt _ 0)) by lia.
Qed.

(** The comparisons the two loops make. *)
Definition periodic (ids : list Z) (P c : Z) : Prop :=
  forall n m, 1 <= n <= P -> 1 <= m < c -> from_end ids (P * m + n) = from_end ids n.

Lemma repeats_at_ok ids P t n ms c :
  1 <= n <= P -> P * c <= zlen ids -> (forall m, m ∈ ms -> 1 <= m < c) -> from_end ids n = Some t ->
  exists b, repeats_at ids P t n ms = Ok b /\
    (b = true <-> forall m, m ∈ ms -> from_end ids (P * m + n) = from_end ids n).
Proof.
  intros Hn Hc Hms Ht. induction ms as [|m ms IH]; simpl.
  { exists true. split; [done|]. split; [|done]. intros _ m Hm. by apply not_elem_of_nil in Hm. }
  assert (1 <= m < c) as Hm by (apply Hms; by left).
  rewrite py_get_from_end by nia. rewrite (proj2 (Z.leb_le _ _)) by nia.
  destruct (lookup_lt_is_Some_2 ids (Z.to_nat (zlen ids - (P * m + n)))) as [u Hu]; [nia|].
  change (ids !! Z.to_nat _) with (from_end ids (P * m + n)) in Hu. rewrite Hu.
  destruct (u =? t) eqn:E; bools; simpl.
  - subst u. destruct IH as (b & -> & Hb); [intros; apply Hms; by right|]. exists b. split; [done|].
    rewrite Hb. split; intros H m' Hm'; [|apply H; by right].
    apply elem_of_cons in Hm' as [->|Hm']; [congruence|auto].
  - exists false. split; [done|]. split; [done|]. intros H. specialize (H m ltac:(by left)). congruence.
Qed.

Lemma has_repeating_loop_ok ids P c ns :
  0 < c -> P * c <= zlen ids -> (forall n, n ∈ ns -> 1 <= n <= P) ->
  exists b, has_repeating_loop ids P c ns = Ok b /\
    (b = true <-> forall n m, n ∈ ns -> 1 <= m < c -> from_end ids (P * m + n) = from_end ids n).
Proof.
  intros H0 Hc Hns. induction ns as [|n ns IH]; simpl.
  { exists true. split; [done|]. split; [|done]. intros _ n m Hn. by apply not_elem_of_nil in Hn. }
  assert (1 <= n <= P) as Hn by (apply Hns; by left).
  rewrite py_get_from_end by lia. rewrite (proj2 (Z.leb_le _ _)) by nia.
  destruct (lookup_lt_is_Some_2 ids (Z.to_nat (zlen ids - n))) as [t Ht]; [nia|].
  change (ids !! Z.to_nat _) with (from_end ids n) in Ht. rewrite Ht.
  destruct (repeats_at_ok ids P t n (py_range 1 c) c Hn Hc) as (b & -> & Hb); [|done|].
  { intros m Hm%elem_of_py_range. lia. }
  assert (b = true <-> forall m, 1 <= m < c -> from_end ids (P * m + n) = from_end ids n) as Hb'.
  { rewrite Hb. split; intros H m Hm; apply H; by apply elem_of_py_range. }
  destruct b.
  - destruct IH as (b & -> & Hb2); [intros; apply Hns; by right|]. exists b. split; [done|].
    rewrite Hb2. split; intros H n' m Hn' Hm; [|apply H; [by right|done]].
    apply elem_of_cons in Hn' as [->|Hn']; [by apply Hb'|auto].
  - exists false. split; [done|]. split; [done|]. intros H.
    apply Hb'. intros m Hm. apply H; [by left|done].
Qed.

Lemma lookup_concat_repeat (pat : list Z) c i :
  (i < length pat * c)%nat -> concat (repeat pat c) !! i = pat !! (i mod length pat)%nat.
Proof.
  revert i. induction c as [|c IH]; intros i Hi; [lia|]. simpl.
  destruct (decide (i < length pat)%nat) as [Hl|Hl].
  - rewrite lookup_app_l by done. by rewrite Nat.mod_small by done.
  - rewrite lookup_app_r by lia. rewrite IH by lia. f_equal.
    replace i with ((i - length pat) + 1 * length pat)%nat at 2 by lia.
    by rewrite Nat.Div0.mod_add.
Qed.

Lemma concat_repeat_length (pat : list Z) c : length (concat (repeat pat c)) = (length pat * c)%nat.
Proof. induction c as [|c IH]; simpl; [lia|]. rewrite length_app, IH. lia. Qed.

Lemma copies_periodic ids P c : 0 < P -> 0 < c -> ends_with_copies ids P c -> periodic ids P c.
Proof.
  intros HP Hc (pre & pat & Hl & ->) n m Hn Hm. unfold from_end.
  assert (length (concat (repeat pat (Z.to_nat c))) = Z.to_nat (P * c)) as Hlen.
  { rewrite concat_repeat_length. nia. }
  assert (P * m + n <= P * c /\ n <= P * c /\ 0 <= P * m) as (H1 & H2 & H3) by nia.
  rewrite length_app, Hlen.
  rewrite !lookup_app_r by lia. rewrite !lookup_concat_repeat by nia. f_equal.
  set (k := (Z.to_nat (P * (c - m) - n))%nat).
  replace (Z.to_nat (Z.of_nat (length pre + Z.to_nat (P * c)) - n) - length pre)%nat
    with (k + Z.to_nat m * length pat)%nat by (unfold k; nia).
  rewrite Nat.Div0.mod_add. f_equal. unfold k. nia.
Qed.

Lemma periodic_copies ids P c :
  0 < P -> 0 < c -> P * c <= zlen ids -> periodic ids P c -> ends_with_copies ids P c.
Proof.
  intros HP Hc Hl Hper.
  set (a := Z.to_nat (zlen ids - P * c)). set (pat := drop (Z.to_nat (zlen ids - P)) ids).
  assert (length pat = Z.to_nat P) as Hpat by (unfold pat; rewrite length_drop; nia).
  exists (take a ids), pat. split; [lia|].
  rewrite <- (take_drop a ids) at 1. f_equal. apply list_eq. intros j.
  destruct (decide (j < Z.to_nat (P * c))%nat) as [Hj|Hj].
  2: { rewrite !lookup_ge_None_2; [done|rewrite concat_repeat_length; nia|rewrite length_drop; nia]. }
  rewrite lookup_concat_repeat by nia. rewrite Hpat.
  pose proof (Nat.div_mod_eq j (Z.to_nat P)) as Hdm.
  pose proof (Nat.mod_upper_bound j (Z.to_nat P) ltac:(lia)) as Hs.
  set (s := (j mod Z.to_nat P)%nat) in *. set (q := (j / Z.to_nat P)%nat) in *.
  assert (Z.of_nat q < c) as Hq by nia. unfold pat. rewrite !lookup_drop.
  destruct (decide (Z.of_nat q = c - 1)) as [Hlast|Hlast].
  { f_equal. unfold a. nia. }
  specialize (Hper (P - Z.of_nat s) (c - 1 - Z.of_nat q) ltac:(lia) ltac:(lia)).
  unfold from_end in Hper.
  replace (a + j)%nat with (Z.to_nat (zlen ids - (P * (c - 1 - Z.of_nat q) + (P - Z.of_nat s))))
    by (unfold a; nia).
  rewrite Hper. f_equal. assert (P <= P * c) by nia. lia.
Qed.

Lemma has_repeating_pattern_ok ids P c :
  0 < P -> 0 < c -> P * c <= zlen ids ->
  exists b, has_repeating_pattern ids P c = Ok b /\ (b = true <-> ends_with_copies ids P c).
Proof.
  intros HP Hc Hl. unfold has_repeating_pattern.
  destruct (has_repeating_loop_ok ids P c (py_range 1 (P + 1)) Hc Hl) as (b & -> & Hb).
  { intros n Hn%elem_of_py_range. lia. }
  exists b. split; [done|]. rewrite Hb. split.
  - intros H. apply periodic_copies; [done..|]. intros n m Hn Hm. apply H; [|done].
    apply elem_of_py_range. lia.
  - intros H n m Hn%elem_of_py_range Hm. apply (copies_periodic ids P c HP Hc H); lia.
Qed.

Lemma repetition_loop_ok ids c lo hi :
  0 < lo -> 0 < c ->
  exists b, repetition_loop ids c (py_range lo hi) = Ok b /\
    (b = true <-> exists P, lo <= P < hi /\ P * c <= zlen ids /\ ends_with_copies ids P c).
Proof.
  intros Hlo Hc. remember (Z.to_nat (hi - lo)) as n eqn:En. revert lo Hlo En.
  induction n as [|n IH]; intros lo Hlo En.
  { rewrite py_range_nil by lia. exists false. split; [done|]. split; [done|]. intros (P & HP & _). lia. }
  rewrite py_range_cons by lia. simpl. destruct (_ >? _) eqn:E; bools.
  { exists false. split; [done|]. split; [done|]. intros (P & HP & Hl & _). nia. }
  destruct (has_repeating_pattern_ok ids lo c Hlo Hc E) as (b & -> & Hb). destruct b.
  - exists true. split; [done|]. split; [|done]. intros _. exists lo. split_and!; [lia|lia|done|by apply Hb].
  - destruct (IH (lo + 1)) as (b & -> & Hb'); [lia|lia|]. exists b. split; [done|]. rewrite Hb'.
    split; intros (P & HP & H).
    + exists P. split; [lia|done].
    + exists P. split; [|done]. destruct (decide (P = lo)) as [->|]; [|lia].
      destruct H as [_ H]. apply Hb in H. done.
Qed.

Lemma repetition_check_returns ids params : exists b, check_sequence_repetition ids params = Ok b.
Proof.
  unfold check_sequence_repetition. set (lo := if _ <=? 0 then 1 else _). destruct (_ || _) eqn:E; [by eexists|]. bools.
  destruct (repetition_loop_ok ids (min_count params) lo (max_pattern_size params + 1)) as (b & -> & _);
    [unfold lo; destruct (_ <=? 0) eqn:E1; bools; lia|lia|by eexists].
Qed.

(** C38: repetition detection is exact and never fails. For every output and
    every parameter setting, [check_sequence_repetition] returns True exactly
    when at least two copies are asked for and the output ends with
    [min_count] consecutive copies of some block whose length lies between
    [max(1, min_pattern_size)] and [max_pattern_size]. *)
Theorem repetition_check_exact (ids : list Z) (params : RepetitionDetectionParams) :
  exists b, check_sequence_repetition ids params = Ok b /\
    (b = true <-> 2 <= min_count params /\
       exists P, Z.max 1 (min_pattern_size params) <= P <= max_pattern_size params /\
         exists pre pat, zlen pat = P /\
           ids = pre ++ concat (repeat pat (Z.to_nat (min_count params)))).
Proof.
  unfold check_sequence_repetition. set (lo := if _ <=? 0 then 1 else _).
  assert (lo = Z.max 1 (min_pattern_size params)) as Hlo.
  { unfold lo. destruct (_ <=? 0) eqn:E; bools; lia. }
  destruct (_ || _) eqn:E.
  - exists false. split; [done|]. split; [done|]. intros (Hc & P & HP & _).
    apply orb_true_iff in E as [[E|E]%orb_true_iff|E]; bools; lia.
  - bools. destruct (repetition_loop_ok ids (min_count params) lo (max_pattern_size params + 1))
      as (b & -> & Hb); [lia|lia|].
    exists b. split; [done|]. rewrite Hb, <- Hlo. split.
    + intros (P & HP & _ & HP2). split; [lia|]. exists P. split; [lia|exact HP2].
    + intros (_ & P & HP & pre & pat & Hl & Eids). exists P. split_and!; [lia|lia| |by exists pre, pat].
      subst ids. rewrite length_app, concat_repeat_length. nia.
Qed.

(** * [remove_all] removes the items from lists without repetitions *)

Lemma list_remove_filter {A} `{!EqDecision A} (lst : list A) (x : A) :
  NoDup lst -> list_remove x lst = filter (fun y => y <> x) lst.
Proof.
  induction 1 as [|y l Hy _ IH]; [done|]. simpl. destruct (bool_decide _) eqn:E; bools.
  - subst y. rewrite filter_cons_False by naive_solver. symmetry. apply list_filter_id. by intros z Hz ->.
  - rewrite filter_cons_True by done. by rewrite IH.
Qed.

(** [remove_all] on a list without repetitions returns the list with
    exactly the given items removed, in order, in each of its three cases
    (nothing to do, the in-place fast path for one item, the general case);
    only the fast path changes the list object, to the value returned. *)
Theorem remove_all_filters {A} `{Countable A} (lst : list A) (items : gset A) :
  NoDup lst ->
  exists lst', remove_all items lst = (Ok (filter (fun x => x ∉ items) lst), lst') /\
    lst' = (if decide (size items = 1%nat) then filter (fun x => x ∉ items) lst else lst).
Proof.
  intros Hnd. unfold remove_all, gets, modify, bind.
  change (size items) with (length (elements items)). pose proof (fun x => elem_of_elements items x) as Hel.
  destruct (elements items) as [|x [|y l]] eqn:E; simpl.
  - exists lst. split; [|done]. do 2 f_equal. symmetry. apply list_filter_id. intros z _ Hz.
    rewrite <- Hel in Hz. by apply not_elem_of_nil in Hz.
  - exists (list_remove x lst).
    assert (list_remove x lst = filter (fun z => z ∉ items) lst) as ->; [|done].
    rewrite list_remove_filter by done. apply list_filter_iff. intros z.
    rewrite <- Hel, list_elem_of_singleton. done.
  - by exists lst.
Qed.

Lemma remove_all_filters_witness :
  NoDup [4; 5; 6] /\ exists lst', remove_all {[5]} [4; 5; 6] = (Ok [4; 6], lst').
Proof.
  assert (NoDup [4; 5; 6]) as H by (apply (bool_decide_unpack _); vm_compute; exact I).
  split; [exact H|]. destruct (remove_all_filters [4; 5; 6] {[5]} H) as (lst' & E & _).
  exists lst'. rewrite E. by vm_compute.
Defined.

(** With repetitions the fast path removes the first occurrence only. *)
Lemma remove_all_keeps_duplicates : remove_all {[5]} [5; 4; 5] = (Ok [4; 5], [4; 5]).
Proof. by vm_compute. Qed.

(** * [check_stop] *)

(** Reference: the first of the stop conditions that applies. *)
Inductive stop_verdict :=
| Stop (s : RequestStatus) (reason : option (Z + string))
| Continue.

Definition stop_spec (r : Request) (sp : SamplingParams) (last_token max_model_len : Z)
    (repetition : bool) : stop_verdict :=
  if bool_decide (eos_token_id sp = Some last_token) then Stop FINISHED_STOPPED (stop_reason r)
  else if bool_decide (last_token ∈ default [] (stop_token_ids sp))
  then Stop FINISHED_STOPPED (Some (inl last_token))
  else if decide (max_model_len <= num_tokens r \/ max_tokens r <= num_output_tokens r)
  then Stop FINISHED_LENGTH_CAPPED (stop_reason r)
  else if decide (min_tokens sp <= num_output_tokens r /\ repetition = true)
  then Stop FINISHED_REPETITION (Some (inr "repetition_detected"%string))
  else Continue.

(** The verdict of the repetition test on a request's output. *)
Definition repeats (r : Request) (sp : SamplingParams) : bool :=
  match repetition_detection sp with
  | Some rd => match check_sequence_repetition (output_token_ids r) rd with Ok b => b | Raise _ => false end
  | None => false
  end.

Lemma check_stop_decides (r : Request) (sp : SamplingParams) (out : list Z) (last_token max_model_len : Z) :
  pooling_params r = None -> sampling_params r = Some sp -> output_token_ids r = out ++ [last_token] ->
  check_stop max_model_len r =
    match stop_spec r sp last_token max_model_len (repeats r sp) with
    | Stop s reason => (Ok true, set_stop_reason reason (set_status s r))
    | Continue => (Ok false, r)
    end.
Proof.
  intros Hpp Hsp Hout. assert (py_get (output_token_ids r) (-1) = Some last_token) as Hlast.
  { by rewrite py_get_last, Hout, last_snoc. }
  unfold check_stop, bind, gets, assert_, lift. rewrite Hpp. cbn [ret]. unfold ret.
  rewrite bool_decide_eq_true_2 by done. rewrite Hsp, Hlast. simpl. unfold stop_spec.
  replace (bool_decide (Some last_token = eos_token_id sp)) with
    (bool_decide (eos_token_id sp = Some last_token)) by (apply bool_decide_ext; naive_solver).
  destruct (bool_decide (eos_token_id sp = _)); [by destruct r|].
  destruct (bool_decide (_ ∈ _)); [by destruct r|].
  destruct (_ || _) eqn:E.
  { rewrite decide_True; [by destruct r|].
    apply orb_true_iff in E as [E|E]; rewrite Z.geb_leb in E; bools; auto. }
  bools. rewrite (decide_False (P := _ \/ _)) by lia.
  destruct (_ <? min_tokens sp) eqn:Em; bools.
  { rewrite decide_False by lia. done. }
  unfold repeats. destruct (repetition_detection sp) as [rd|]; [|by rewrite decide_False by naive_solver].
  destruct (repetition_check_returns (output_token_ids r) rd) as (b & Eb). rewrite Eb.
  destruct b; [rewrite decide_True by done; by destruct r|by rewrite decide_False by naive_solver].
Qed.

(** C39: [check_stop] on a generation request with at least one output token
    returns, and decides by the first condition that applies: end of sequence,
    stop token, length limits, and, once [min_tokens] were generated, the exact
    repetition test. It reports True exactly when it finished the request,
    records status and stop reason of that condition, and changes nothing
    else. *)
Theorem check_stop_verdict (r : Request) (sp : SamplingParams) (out : list Z) (last_token max_model_len : Z) :
  pooling_params r = None -> sampling_params r = Some sp -> output_token_ids r = out ++ [last_token] ->
  exists rep,
    (rep = true <-> exists rd, repetition_detection sp = Some rd /\
       check_sequence_repetition (output_token_ids r) rd = Ok true) /\
    check_stop max_model_len r =
      match stop_spec r sp last_token max_model_len rep with
      | Stop s reason => (Ok true, set_stop_reason reason (set_status s r))
      | Continue => (Ok false, r)
      end.
Proof.
  intros Hpp Hsp Hout. exists (repeats r sp). split; [|by apply (check_stop_decides r sp out)].
  unfold repeats. destruct (repetition_detection sp) as [rd|]; [|naive_solver].
  destruct (repetition_check_returns (output_token_ids r) rd) as (b & E). rewrite E.
  split; [intros ->; eauto|]. intros (rd' & [= <-] & H). congruence.
Qed.

(** A request that generated the tokens [out]. *)
Definition stop_params : SamplingParams :=
  mkSampling (Some 16) 0 (Some 9) (Some [5; 6]) (Some (mkRepetition 4 1 3)) None None None.
Definition stop_request (out : list Z) : option Request :=
  match new_request (mkArgs "s" (Some [1; 2]) (Some stop_params) None
          0 0 None None None None None 0 false None None false 0) None with
  | Ok r => match append_output_token_ids None out r with
            | (Ok tt, r') => Some r'
            | _ => None
            end
  | Raise _ => None
  end.

Lemma check_stop_verdict_witness :
  exists r, stop_request [3; 7; 3; 7; 3; 7] = Some r /\
    (check_stop 100 r).1 = Ok true /\ status (check_stop 100 r).2 = FINISHED_REPETITION.
Proof.
  eexists. split; [vm_compute; reflexivity|].
  match goal with |- (check_stop 100 ?req).1 = _ /\ _ =>
    destruct (check_stop_verdict req stop_params [3; 7; 3; 7; 3] 7 100 eq_refl eq_refl eq_refl)
      as (rep & Hrep & E)
  end.
  assert (rep = true) as ->. { apply Hrep. eexists. split; [reflexivity|by vm_compute]. }
  rewrite E. by vm_compute.
Defined.
