(* ===== verification/EncoderCache.v ===== *)
(** The encoder cache managers ([vllm/v1/core/encoder_cache_manager.py]): which
    multi-modal encoder outputs are cached, who references them, and the slot
    accounting behind allocation and eviction. *)
From Stdlib Require Import ZArith Lia Strings.String.
From stdpp Require Import base numbers strings list gmap.
From S2P Require Import Prelude Request.
Open Scope Z_scope.
Local Arguments py_get : simpl never.

Record EncoderCacheManager := mkEncoderCache {
  cache_size : Z;
  num_free_slots : Z;
  num_freeable_slots : Z;
  cached : gmap string (gset string);
  num_embeds_by_hash : gmap string Z;
  request_cached_ids : gmap string (gset Z);
  freeable : list (string * Z);
  freed : list string
}.

Definition set_free_slots (v : Z) (s : EncoderCacheManager) : EncoderCacheManager :=
  mkEncoderCache (cache_size s) v (num_freeable_slots s) (cached s) (num_embeds_by_hash s)
    (request_cached_ids s) (freeable s) (freed s).
Definition set_freeable_slots (v : Z) (s : EncoderCacheManager) : EncoderCacheManager :=
  mkEncoderCache (cache_size s) (num_free_slots s) v (cached s) (num_embeds_by_hash s)
    (request_cached_ids s) (freeable s) (freed s).
Definition set_cached (v : gmap string (gset string)) (s : EncoderCacheManager) : EncoderCacheManager :=
  mkEncoderCache (cache_size s) (num_free_slots s) (num_freeable_slots s) v (num_embeds_by_hash s)
    (request_cached_ids s) (freeable s) (freed s).
Definition set_num_embeds (v : gmap string Z) (s : EncoderCacheManager) : EncoderCacheManager :=
  mkEncoderCache (cache_size s) (num_free_slots s) (num_freeable_slots s) (cached s) v
    (request_cached_ids s) (freeable s) (freed s).
Definition set_cached_ids (v : gmap string (gset Z)) (s : EncoderCacheManager) : EncoderCacheManager :=
  mkEncoderCache (cache_size s) (num_free_slots s) (num_freeable_slots s) (cached s)
    (num_embeds_by_hash s) v (freeable s) (freed s).
Definition set_freeable (v : list (string * Z)) (s : EncoderCacheManager) : EncoderCacheManager :=
  mkEncoderCache (cache_size s) (num_free_slots s) (num_freeable_slots s) (cached s)
    (num_embeds_by_hash s) (request_cached_ids s) v (freed s).
Definition set_freed (v : list string) (s : EncoderCacheManager) : EncoderCacheManager :=
  mkEncoderCache (cache_size s) (num_free_slots s) (num_freeable_slots s) (cached s)
    (num_embeds_by_hash s) (request_cached_ids s) (freeable s) v.

Module EncoderCache.

Definition init (cache_size : Z) : EncoderCacheManager :=
  mkEncoderCache cache_size cache_size cache_size ∅ ∅ ∅ [] [].

Definition reset : M EncoderCacheManager unit :=
  modify (fun s => init (cache_size s)).

(** [request.mm_features[input_id].identifier] *)
Definition mm_hash_of (r : Request) (input_id : Z) : outcome string :=
  match py_get (mm_features r) input_id with
  | Some f => Ok (identifier f)
  | None => Raise IndexError
  end.

(** [OrderedDict.pop(key)]; [None] is KeyError. *)
Fixpoint odict_pop (key : string) (d : list (string * Z)) : option (Z * list (string * Z)) :=
  match d with
  | [] => None
  | (k, v) :: d =>
      if decide (k = key) then Some (v, d)
      else match odict_pop key d with
           | Some (v', d') => Some (v', (k, v) :: d')
           | None => None
           end
  end.
(** [d[key] = value] *)
Definition odict_set (key : string) (value : Z) (d : list (string * Z)) : list (string * Z) :=
  if decide (key ∈ d.*1) then map (fun e => if decide (e.1 = key) then (key, value) else e) d
  else d ++ [(key, value)].

(** [self.request_cached_ids.setdefault(request_id, set()).add(input_id)] *)
Definition add_cached_id (rid : string) (input_id : Z) (s : EncoderCacheManager) : EncoderCacheManager :=
  set_cached_ids (<[rid := {[input_id]} ∪ default ∅ (request_cached_ids s !! rid)]>
    (request_cached_ids s)) s.

Definition check_and_update_cache (r : Request) (input_id : Z) : M EncoderCacheManager bool :=
  let! mm_hash := lift (mm_hash_of r input_id) in
  let! refs := gets (fun s => cached s !! mm_hash) in
  match refs with
  | None => ret false
  | Some refs =>
      (if decide (refs = ∅) then
         let! d := gets freeable in
         let! nd := lift (or_raise (odict_pop mm_hash d) KeyError) in
         modify (set_freeable nd.2) ;;
         modify (fun s => set_freeable_slots (num_freeable_slots s - nd.1) s)
       else ret tt) ;;
      modify (fun s => set_cached (<[mm_hash := {[request_id r]} ∪ refs]> (cached s)) s) ;;
      modify (add_cached_id (request_id r) input_id) ;;
      ret true
  end.

Definition get_cached_num_encoder_embeds (r : Request) (input_id : Z) (s : EncoderCacheManager) :
    outcome (option Z) :=
  match mm_hash_of r input_id with
  | Ok h => Ok (num_embeds_by_hash s !! h)
  | Raise e => Raise e
  end.

(** [del d[key]] *)
Definition dict_del {V} (key : string) (d : gmap string V) : outcome (gmap string V) :=
  match d !! key with Some _ => Ok (delete key d) | None => Raise KeyError end.

(** The eviction loop; each iteration takes one entry of [freeable]. *)
Fixpoint evict_loop (fuel : nat) (num_embeds : Z) : M EncoderCacheManager unit :=
  let! slots := gets num_free_slots in
  if num_embeds >? slots then
    match fuel with
    | O => raise OutOfFuel
    | S fuel =>
        let! d := gets freeable in
        match d with
        | [] => raise KeyError
        | (mm_hash, num_free_embeds) :: d' =>
            modify (set_freeable d') ;;
            let! c := gets cached in
            let! c' := lift (dict_del mm_hash c) in
            modify (set_cached c') ;;
            let! n := gets num_embeds_by_hash in
            let! n' := lift (dict_del mm_hash n) in
            modify (set_num_embeds n') ;;
            modify (fun s => set_freed (freed s ++ [mm_hash]) s) ;;
            modify (fun s => set_free_slots (num_free_slots s + num_free_embeds) s) ;;
            evict_loop fuel num_embeds
        end
    end
  else ret tt.

Definition can_allocate (r : Request) (input_id encoder_compute_budget num_embeds_to_schedule : Z) :
    M EncoderCacheManager bool :=
  let! num_embeds := lift (get_num_encoder_embeds r input_id) in
  if num_embeds >? encoder_compute_budget then ret false else
  let num_embeds := num_embeds + num_embeds_to_schedule in
  let! s := gets (fun s => s) in
  if num_embeds <=? num_free_slots s then ret true
  else if num_embeds >? num_freeable_slots s then ret false
  else evict_loop (length (freeable s)) num_embeds ;; ret true.

Definition allocate (r : Request) (input_id : Z) : M EncoderCacheManager unit :=
  let! mm_hash := lift (mm_hash_of r input_id) in
  let rid := request_id r in
  let! c := gets cached in
  (if decide (c !! mm_hash = None) then modify (set_cached (<[mm_hash := ∅]> c)) else ret tt) ;;
  let! num_encoder_embeds := lift (get_num_encoder_embeds r input_id) in
  let! by_hash := gets num_embeds_by_hash in
  let cached_num := default num_encoder_embeds (by_hash !! mm_hash) in
  modify (set_num_embeds (<[mm_hash := cached_num]> by_hash)) ;;
  assert_ (cached_num =? num_encoder_embeds) ;;
  let! s := gets (fun s => s) in
  assert_ (num_free_slots s >=? num_encoder_embeds) ;;
  assert_ (num_freeable_slots s >=? num_encoder_embeds) ;;
  modify (fun s => set_cached (<[mm_hash := {[rid]} ∪ default ∅ (cached s !! mm_hash)]> (cached s)) s) ;;
  modify (add_cached_id rid input_id) ;;
  modify (fun s => set_free_slots (num_free_slots s - num_encoder_embeds) s) ;;
  modify (fun s => set_freeable_slots (num_freeable_slots s - num_encoder_embeds) s).

Definition get_cached_input_ids (r : Request) (s : EncoderCacheManager) : gset Z :=
  default ∅ (request_cached_ids s !! request_id r).

(** [any(request.mm_features[other_id].identifier == mm_hash for ...)] *)
Fixpoint any_identifier (r : Request) (mm_hash : string) (ids : list Z) : outcome bool :=
  match ids with
  | [] => Ok false
  | i :: ids =>
      match mm_hash_of r i with
      | Raise e => Raise e
      | Ok h => if decide (h = mm_hash) then Ok true else any_identifier r mm_hash ids
      end
  end.

(** [request_cached_ids[req_id].discard(input_id)], dropping an empty set. *)
Definition discard_cached_id (rid : string) (input_id : Z) (s : EncoderCacheManager) : EncoderCacheManager :=
  match request_cached_ids s !! rid with
  | None => s
  | Some ids =>
      let ids' := ids ∖ {[input_id]} in
      set_cached_ids (if decide (ids' = ∅) then delete rid (request_cached_ids s)
                      else <[rid := ids']> (request_cached_ids s)) s
  end.

Definition free_encoder_input (r : Request) (input_id : Z) : M EncoderCacheManager unit :=
  let rid := request_id r in
  let! mm_hash := lift (mm_hash_of r input_id) in
  modify (discard_cached_id rid input_id) ;;
  let! refs := gets (fun s => default ∅ (cached s !! mm_hash)) in
  if decide (refs = ∅) then ret tt else
  let! ids := gets (get_cached_input_ids r) in
  let! still := lift (any_identifier r mm_hash (elements ids)) in
  if still : bool then ret tt else
  modify (fun s => set_cached (<[mm_hash := refs ∖ {[rid]}]> (cached s)) s) ;;
  if decide (refs ∖ {[rid]} = ∅) then
    let! by_hash := gets num_embeds_by_hash in
    let! n := lift (or_raise (by_hash !! mm_hash) KeyError) in
    modify (fun s => set_freeable (odict_set mm_hash n (freeable s)) s) ;;
    modify (fun s => set_freeable_slots (num_freeable_slots s + n) s)
  else ret tt.

Definition free (r : Request) : M EncoderCacheManager unit :=
  let! ids := gets (get_cached_input_ids r) in
  for_ (elements ids) (free_encoder_input r).

Definition get_freed_mm_hashes : M EncoderCacheManager (list string) :=
  let! s := gets (fun s => s) in
  modify (set_freed []) ;;
  ret (filter (fun h => cached s !! h = None) (freed s)).

(** * Slot accounting *)

Definition used (m : gmap string Z) : Z := map_fold (fun _ n acc => n + acc) 0 m.
Definition idle (d : list (string * Z)) : Z := foldr (fun e acc => e.2 + acc) 0 d.

Lemma used_insert m h n : m !! h = None -> used (<[h := n]> m) = n + used m.
Proof. intros H. unfold used. apply (map_fold_insert_L (fun _ n acc => n + acc) 0 h n m); [|done]. intros. lia. Qed.
Lemma used_delete m h n : m !! h = Some n -> used m = n + used (delete h m).
Proof. intros H. unfold used. apply (map_fold_delete_L (fun _ n acc => n + acc) 0 h n m); [|done]. intros. lia. Qed.
Lemma idle_app d d' : idle (d ++ d') = idle d + idle d'.
Proof. unfold idle. induction d as [|e d IH]; simpl; lia. Qed.

Definition refs_of (s : EncoderCacheManager) (h : string) : gset string := default ∅ (cached s !! h).
Definition ids_of (s : EncoderCacheManager) (rid : string) : gset Z := default ∅ (request_cached_ids s !! rid).

Section accounting.
(** The identifiers of the inputs of each request. *)
Context (ident : string -> Z -> option string).

Definition agrees (r : Request) : Prop :=
  forall i h, ident (request_id r) i = Some h -> mm_hash_of r i = Ok h.

Record inv (s : EncoderCacheManager) : Prop := {
  i_dom : forall h, is_Some (cached s !! h) <-> is_Some (num_embeds_by_hash s !! h);
  i_nonneg : forall h n, num_embeds_by_hash s !! h = Some n -> 0 <= n;
  i_used : num_free_slots s + used (num_embeds_by_hash s) = cache_size s;
  i_freeable : num_freeable_slots s = num_free_slots s + idle (freeable s);
  i_nodup : NoDup (freeable s).*1;
  i_idle : forall h n, (h, n) ∈ freeable s <->
    cached s !! h = Some ∅ /\ num_embeds_by_hash s !! h = Some n;
  i_slots : 0 <= num_free_slots s;
  i_refs : forall rid h, rid ∈ refs_of s h <-> exists i, i ∈ ids_of s rid /\ ident rid i = Some h;
  i_ids : forall rid i, i ∈ ids_of s rid -> is_Some (ident rid i)
}.

Lemma inv_init n : 0 <= n -> inv (init n).
Proof.
  intros Hn. split; simpl; try done.
  - intros h. rewrite !lookup_empty. done.
  - unfold used. rewrite map_fold_empty. lia.
  - lia.
  - constructor.
  - intros h k. rewrite !lookup_empty. split; [intros H; by apply not_elem_of_nil in H|by intros []].
  - intros rid h. unfold refs_of, ids_of. simpl. rewrite !lookup_empty. set_solver.
Qed.

(** ** Looking up an entry *)

Lemma odict_pop_ok h n d :
  NoDup d.*1 -> (h, n) ∈ d ->
  exists d', odict_pop h d = Some (n, d') /\ idle d = n + idle d' /\ NoDup d'.*1 /\
    forall k v, (k, v) ∈ d' <-> (k, v) ∈ d /\ k <> h.
Proof.
  induction d as [|[k v] d IH]; intros Hnd Hin; [by apply not_elem_of_nil in Hin|].
  rewrite fmap_cons in Hnd. apply NoDup_cons in Hnd as [Hk Hnd]. simpl in *.
  destruct (decide (k = h)) as [->|Hkh].
  - assert (v = n) as ->.
    { apply elem_of_cons in Hin as [[= ->]|Hin]; [done|]. destruct Hk.
      apply list_elem_of_fmap. by exists (h, n). }
    exists d. split_and!; [done|done|done|]. intros k v. rewrite elem_of_cons. split.
    + intros H. split; [by right|]. intros ->. apply Hk, list_elem_of_fmap. by exists (h, v).
    + intros [[[= -> ->]|H] Hne]; done.
  - apply elem_of_cons in Hin as [[= -> ->]|Hin]; [done|].
    destruct (IH Hnd Hin) as (d' & -> & Hidle & Hnd' & Hd'). exists ((k, v) :: d').
    split_and!; [done|simpl; lia| |].
    + rewrite fmap_cons. apply NoDup_cons. split; [|done]. intros ([k' v'] & Ek & Hin')%list_elem_of_fmap.
      simpl in Ek. subst k'. apply Hd' in Hin' as [Hin' _]. apply Hk, list_elem_of_fmap. by exists (k, v').
    + intros k' v'. rewrite !elem_of_cons, Hd'. naive_solver.
Qed.

Lemma refs_insert s c h h' :
  refs_of (set_cached (<[h := c]> (cached s)) s) h' = if decide (h = h') then c else refs_of s h'.
Proof. unfold refs_of. simpl. rewrite lookup_insert. by destruct (decide (h = h')). Qed.

Lemma ids_add rid i s rid' :
  ids_of (add_cached_id rid i s) rid' =
    if decide (rid = rid') then {[i]} ∪ ids_of s rid else ids_of s rid'.
Proof.
  unfold ids_of, add_cached_id. simpl. rewrite lookup_insert. by destruct (decide (rid = rid')).
Qed.

(** Adding [rid] as a reference to [h] through input [i] keeps references and
    inputs in step. *)
Lemma refs_add_ok (refs : string -> gset string) (ids : string -> gset Z) rid i h :
  (forall rid h, rid ∈ refs h <-> exists i, i ∈ ids rid /\ ident rid i = Some h) ->
  ident rid i = Some h ->
  forall rid' h', rid' ∈ (if decide (h = h') then {[rid]} ∪ refs h else refs h') <->
    exists j, j ∈ (if decide (rid = rid') then {[i]} ∪ ids rid else ids rid') /\ ident rid' j = Some h'.
Proof.
  intros H Hi rid' h'. destruct (decide (h = h')) as [<-|Hh], (decide (rid = rid')) as [<-|Hr].
  - split; [intros _; exists i; set_solver|set_solver].
  - rewrite elem_of_union, elem_of_singleton, H. naive_solver.
  - rewrite H. split; [intros (j & Hj & E); exists j; set_solver|].
    intros (j & [Hj|Hj]%elem_of_union & E); [|eauto]. apply elem_of_singleton in Hj. naive_solver.
  - apply H.
Qed.

Lemma check_and_update_ok s r i h :
  inv s -> agrees r -> ident (request_id r) i = Some h ->
  wp (check_and_update_cache r i) (fun hit s' => inv s' /\ cache_size s' = cache_size s /\
    num_free_slots s' = num_free_slots s /\ num_embeds_by_hash s' = num_embeds_by_hash s /\
    (hit = true <-> is_Some (cached s !! h)) /\
    (hit = true -> request_id r ∈ refs_of s' h /\ i ∈ ids_of s' (request_id r)) /\
    (hit = false -> s' = s)) s.
Proof.
  intros Hs Ha Hi. pose proof (Ha i h Hi) as Eh. unfold check_and_update_cache. wp_simpl.
  exists h. split; [done|]. wp_simpl. destruct (cached s !! h) as [refs|] eqn:Ec; wp_simpl.
  2: { by split_and!. }
  assert (refs_of s h = refs) as Eref by (unfold refs_of; by rewrite Ec).
  assert (forall k d, let s1 := set_freeable_slots k (set_freeable d s) in
    k = num_free_slots s + idle d -> NoDup d.*1 ->
    (forall k n, (k, n) ∈ d <-> (k, n) ∈ freeable s /\ k <> h) ->
    let s' := add_cached_id (request_id r) i
      (set_cached (<[h := {[request_id r]} ∪ refs]> (cached s1)) s1) in
    inv s' /\ cache_size s' = cache_size s /\ num_free_slots s' = num_free_slots s /\
    num_embeds_by_hash s' = num_embeds_by_hash s /\ (true = true <-> is_Some (Some refs)) /\
    (true = true -> request_id r ∈ refs_of s' h /\ i ∈ ids_of s' (request_id r)) /\
    (true = false -> s' = s)) as Hend.
  { intros k d s1 Hslots Hnd Hin s'.
    assert (forall h', refs_of s' h' = if decide (h = h') then {[request_id r]} ∪ refs_of s h else refs_of s h') as Hr'.
    { intros h'. unfold s', add_cached_id, refs_of. simpl. rewrite lookup_insert, Ec.
      by destruct (decide (h = h')). }
    pose proof (ids_add (request_id r) i
      (set_cached (<[h := {[request_id r]} ∪ refs]> (cached s1)) s1)) as Hi'. fold s' in Hi'.
    change (ids_of (set_cached _ s1)) with (ids_of s) in Hi'.
    split_and!; try done; [|intros _; rewrite Hr', Hi', !decide_True by done; set_solver].
    destruct Hs. split; try done; simpl.
    - intros h'. rewrite lookup_insert, <- i_dom0.
      destruct (decide (h = h')) as [<-|]; [|done]. rewrite Ec. by split; eexists.
    - intros k' n. rewrite Hin, lookup_insert, i_idle0. destruct (decide (h = k')) as [<-|].
      + split; [by intros []|]. intros [[= E] _]. exfalso. set_solver.
      + naive_solver.
    - intros rid h'. rewrite Hr', Hi'. by apply refs_add_ok.
    - intros rid j. rewrite Hi'. destruct (decide (request_id r = rid)) as [<-|]; [|apply i_ids0].
      intros [->%elem_of_singleton|Hj]%elem_of_union; [by eexists|by apply i_ids0]. }
  destruct (decide (refs = ∅)) as [->|Hne]; wp_simpl.
  - destruct (proj1 (i_dom _ Hs h)) as [n Hn]; [by rewrite Ec|].
    destruct (odict_pop_ok h n (freeable s)) as (d' & E & Hidle & Hnd & Hin); [apply Hs|by apply Hs|].
    exists (n, d'). rewrite E. split; [done|]. wp_simpl.
    apply (Hend (num_freeable_slots s - n) d'); try done.
    rewrite (i_freeable _ Hs), Hidle. lia.
  - specialize (Hend (num_freeable_slots s) (freeable s)). destruct s. apply Hend; [apply Hs|apply Hs|].
    intros k n. rewrite (i_idle _ Hs). split; [|by intros []]. intros [E1 E2]. split; [done|].
    intros ->. simpl in *. congruence.
Qed.

(** ** Eviction *)

(** Evicting the oldest idle entry. *)
Lemma inv_evict s h n d :
  inv s -> freeable s = (h, n) :: d ->
  inv (set_free_slots (num_free_slots s + n) (set_freed (freed s ++ [h])
    (set_num_embeds (delete h (num_embeds_by_hash s))
      (set_cached (delete h (cached s)) (set_freeable d s))))).
Proof.
  intros Hs Ed. pose proof (i_nodup _ Hs) as Hnd. rewrite Ed in Hnd. apply NoDup_cons in Hnd as [Hh Hnd].
  assert ((h, n) ∈ freeable s) as [Ec En]%(i_idle _ Hs) by (rewrite Ed; by left).
  assert (forall h', refs_of s h' = default ∅ (delete h (cached s) !! h')) as Hrefs.
  { intros h'. unfold refs_of. destruct (decide (h = h')) as [<-|Hne].
    - by rewrite lookup_delete_eq, Ec.
    - by rewrite lookup_delete_ne. }
  pose proof (i_nonneg _ Hs h n En) as Hn. destruct Hs. split; simpl; try done.
  - intros h'. destruct (decide (h = h')) as [<-|Hne]; [by rewrite !lookup_delete_eq|].
    by rewrite !lookup_delete_ne.
  - intros h' n' [_ H]%lookup_delete_Some. by eapply i_nonneg0.
  - rewrite (used_delete _ _ _ En) in i_used0. lia.
  - rewrite Ed in i_freeable0. simpl in i_freeable0. lia.
  - intros h' n'. rewrite !lookup_delete_Some.
    assert ((h', n') ∈ d <-> (h', n') ∈ freeable s /\ h <> h') as ->.
    { rewrite Ed, elem_of_cons. split.
      - intros H. split; [by right|]. intros <-. apply Hh, list_elem_of_fmap. by exists (h, n').
      - intros [[[= -> ->]|H] Hne]; done. }
    rewrite i_idle0. tauto.
  - lia.
  - intros rid h'. specialize (i_refs0 rid h'). by rewrite Hrefs in i_refs0.
Qed.

Lemma idle_nonneg s : inv s -> 0 <= idle (freeable s).
Proof.
  intros Hs. assert (forall h n, (h, n) ∈ freeable s -> 0 <= n) as H.
  { intros h n Hin. apply (i_idle _ Hs) in Hin as [_ E]. by apply (i_nonneg _ Hs h). }
  revert H. generalize (freeable s). induction l as [|[h n] l IH]; intros H; simpl; [lia|].
  assert (0 <= n) by (apply (H h); by left).
  assert (0 <= idle l); [|lia]. apply IH. intros h' n' Hin. apply (H h'). by right.
Qed.

(** The oldest idle entries [gone] were evicted, just as many as needed. *)
Record evicted (need : Z) (s : EncoderCacheManager) (gone : list (string * Z))
    (s' : EncoderCacheManager) : Prop := {
  ev_inv : inv s';
  ev_enough : need <= num_free_slots s';
  ev_size : cache_size s' = cache_size s;
  ev_freeable_slots : num_freeable_slots s' = num_freeable_slots s;
  ev_freeable : freeable s = gone ++ freeable s';
  ev_freed : freed s' = freed s ++ gone.*1;
  ev_ids : request_cached_ids s' = request_cached_ids s;
  ev_cached : forall h, cached s' !! h = if decide (h ∈ gone.*1) then None else cached s !! h;
  ev_minimal : forall e gone', gone = gone' ++ [e] -> num_free_slots s + idle gone' < need
}.

Lemma evicted_none need s : inv s -> need <= num_free_slots s -> evicted need s [] s.
Proof.
  intros Hs Hn. split; try done.
  - by rewrite app_nil_r.
  - intros e gone' H. by destruct gone'.
Qed.

Lemma evict_loop_ok fuel s need :
  inv s -> need <= num_freeable_slots s -> (length (freeable s) <= fuel)%nat ->
  wp (evict_loop fuel need) (fun _ s' => exists gone, evicted need s gone s') s.
Proof.
  revert s. induction fuel as [|fuel IH]; intros s Hs Hneed Hf; cbn [evict_loop]; wp_simpl;
    pose proof (i_freeable _ Hs) as Hfr.
  - destruct (freeable s) as [|] eqn:Ed; [|simpl in Hf; lia]. simpl in Hfr.
    destruct (_ >? _) eqn:E; bools; [lia|]. wp_simpl. exists []. by apply evicted_none.
  - destruct (_ >? _) eqn:E; bools; wp_simpl; [|exists []; by apply evicted_none].
    destruct (freeable s) as [|[h n] d] eqn:Ed; [simpl in Hfr; lia|].
    wp_simpl. assert ((h, n) ∈ freeable s) as [Ec En]%(i_idle _ Hs) by (rewrite Ed; by left).
    exists (delete h (cached s)). split; [unfold dict_del; simpl; by rewrite Ec|]. wp_simpl.
    exists (delete h (num_embeds_by_hash s)). split; [unfold dict_del; simpl; by rewrite En|]. wp_simpl.
    eapply wp_mono; [apply IH; [by apply (inv_evict s)|done|simpl in *; lia]|].
    intros [] s' (gone & []). simpl in *. exists ((h, n) :: gone). split; try done.
    + by rewrite Ed, ev_freeable0.
    + by rewrite ev_freed0, <- app_assoc.
    + intros h'. rewrite ev_cached0. rewrite fmap_cons, decide_elem_cons. cbn [fst].
      destruct (decide (h' ∈ gone.*1)); [done|]. destruct (decide (h = h')) as [<-|];
        [by rewrite lookup_delete_eq|by rewrite lookup_delete_ne].
    + intros e gone' Eg. destruct gone' as [|e0 gone']; [simpl; lia|].
      injection Eg as <- Eg. specialize (ev_minimal0 e gone' Eg). simpl. lia.
Qed.

(** ** Reserving slots *)

Lemma can_allocate_ok s r i n budget sched :
  inv s -> get_num_encoder_embeds r i = Ok n ->
  wp (can_allocate r i budget sched) (fun ok s' => inv s' /\ cache_size s' = cache_size s /\
    num_freeable_slots s' = num_freeable_slots s /\ request_cached_ids s' = request_cached_ids s /\
    (ok = true <-> n <= budget /\ n + sched <= num_freeable_slots s) /\
    (ok = false -> s' = s) /\ (ok = true -> n + sched <= num_free_slots s') /\
    (forall h refs, cached s !! h = Some refs -> refs <> ∅ -> cached s' !! h = Some refs) /\
    exists gone, freeable s = gone ++ freeable s' /\ freed s' = freed s ++ gone.*1) s.
Proof.
  intros Hs En. pose proof (idle_nonneg s Hs) as Hidle. pose proof (i_freeable _ Hs) as Hfr.
  unfold can_allocate. wp_simpl. exists n. split; [done|].
  assert (exists gone, freeable s = gone ++ freeable s /\ freed s = freed s ++ gone.*1) as Hnone.
  { exists []. by rewrite app_nil_r. }
  destruct (n >? budget) eqn:E1; bools; wp_simpl; [split_and!; try done; lia|].
  destruct (n + sched <=? _) eqn:E2; bools; wp_simpl; [split_and!; try done; lia|].
  destruct (n + sched >? _) eqn:E3; bools; wp_simpl; [split_and!; try done; lia|].
  eapply wp_mono; [by apply evict_loop_ok|].
  intros [] s' (gone & []). wp_simpl. split_and!; try done; try lia; [|by exists gone].
  intros h refs Ec Hne. rewrite ev_cached0, decide_False; [done|].
  intros ([h' m] & -> & Hin)%list_elem_of_fmap. simpl in Ec.
  assert ((h', m) ∈ freeable s) as [Ee _]%(i_idle _ Hs)
    by (rewrite ev_freeable0; apply elem_of_app; by left).
  congruence.
Qed.

Lemma allocate_ok s r i h n :
  inv s -> agrees r -> ident (request_id r) i = Some h -> get_num_encoder_embeds r i = Ok n -> 0 <= n ->
  cached s !! h = None -> n <= num_free_slots s ->
  wp (allocate r i) (fun _ s' => inv s' /\ cache_size s' = cache_size s /\
    num_free_slots s' = num_free_slots s - n /\ num_embeds_by_hash s' !! h = Some n /\
    request_id r ∈ refs_of s' h) s.
Proof.
  intros Hs Ha Hi En Hn Hc Hslots. pose proof (idle_nonneg s Hs) as Hidle.
  pose proof (i_freeable _ Hs) as Hfr.
  assert (num_embeds_by_hash s !! h = None) as Hnone.
  { destruct (num_embeds_by_hash s !! h) eqn:E; [|done].
    destruct (proj2 (i_dom _ Hs h)) as [x Hx]; [by eexists|]. congruence. }
  unfold allocate. wp_simpl. exists h. split; [by apply Ha|]. wp_simpl.
  rewrite decide_True by done. wp_simpl. exists n. split; [done|]. wp_simpl. simpl. rewrite Hnone. simpl.
  split; [by apply Z.eqb_eq|]. split; [apply Z.geb_le; lia|]. split; [apply Z.geb_le; lia|].
  rewrite lookup_insert_eq. simpl. rewrite insert_insert_eq. rewrite union_empty_r_L.
  set (s' := set_freeable_slots _ _).
  assert (refs_of s h = ∅) as Hrh by (unfold refs_of; by rewrite Hc).
  assert (forall h', refs_of s' h' = if decide (h = h') then {[request_id r]} ∪ refs_of s h else refs_of s h') as Hr'.
  { intros h'. rewrite Hrh. unfold s', refs_of. simpl. rewrite lookup_insert.
    destruct (decide (h = h')); [set_solver|done]. }
  assert (forall rid, ids_of s' rid = if decide (request_id r = rid) then {[i]} ∪ ids_of s (request_id r)
      else ids_of s rid) as Hi'.
  { intros rid. unfold s', ids_of. simpl. rewrite lookup_insert. by destruct (decide (request_id r = rid)). }
  assert (inv s') as Hinv.
  2: { split_and!; try done; [simpl; by rewrite lookup_insert_eq|].
       rewrite Hr', decide_True by done. set_solver. }
  destruct Hs. split; simpl; try done.
  - intros h'. rewrite !lookup_insert. destruct (decide (h = h')); [done|apply i_dom0].
  - intros h' n'. rewrite lookup_insert. destruct (decide (h = h')); [naive_solver|apply i_nonneg0].
  - rewrite used_insert by done. lia.
  - lia.
  - intros h' n'. rewrite !lookup_insert, i_idle0. destruct (decide (h = h')) as [<-|]; [|done].
    rewrite Hc. split; [by intros []|]. intros [E _]. injection E as E. exfalso. set_solver.
  - lia.
  - intros rid h'. rewrite Hr', Hi'. by apply refs_add_ok.
  - intros rid j. rewrite Hi'. destruct (decide (request_id r = rid)) as [<-|]; [|apply i_ids0].
    intros [->%elem_of_singleton|Hj]%elem_of_union; [by eexists|by apply i_ids0].
Qed.

(** ** Dropping references *)

Lemma discard_ids rid i s rid' :
  ids_of (discard_cached_id rid i s) rid' =
    if decide (rid = rid') then ids_of s rid ∖ {[i]} else ids_of s rid'.
Proof.
  unfold discard_cached_id, ids_of. destruct (request_cached_ids s !! rid) as [ids|] eqn:E; simpl.
  - destruct (decide (ids ∖ {[i]} = ∅)) as [H|H]; destruct (decide (rid = rid')) as [<-|Hne].
    + rewrite lookup_delete_eq. simpl. by rewrite H.
    + by rewrite lookup_delete_ne.
    + by rewrite lookup_insert_eq.
    + by rewrite lookup_insert_ne.
  - destruct (decide (rid = rid')) as [<-|]; [|done]. rewrite E. simpl. set_solver.
Qed.

Lemma discard_shape rid i s : exists m, discard_cached_id rid i s = set_cached_ids m s.
Proof.
  unfold discard_cached_id. destruct (request_cached_ids s !! rid); [by eexists|].
  exists (request_cached_ids s). by destruct s.
Qed.

Lemma any_identifier_ok r h ids :
  agrees r -> (forall i, i ∈ ids -> is_Some (ident (request_id r) i)) ->
  exists b, any_identifier r h ids = Ok b /\
    (b = true <-> exists i, i ∈ ids /\ ident (request_id r) i = Some h).
Proof.
  intros Ha. induction ids as [|i ids IH]; intros Hids; simpl.
  { exists false. split; [done|]. split; [done|]. intros (i & H & _). by apply not_elem_of_nil in H. }
  destruct (Hids i) as [h' Hi]; [by left|]. rewrite (Ha i h' Hi).
  destruct (decide (h' = h)) as [->|Hne].
  - exists true. split; [done|]. split; [|done]. intros _. exists i. split; [by left|done].
  - destruct IH as (b & -> & Hb); [intros; apply Hids; by right|]. exists b. split; [done|]. rewrite Hb.
    split; intros (j & Hj & E); exists j; (split; [|done]); [by right|].
    apply elem_of_cons in Hj as [->|Hj]; [congruence|done].
Qed.

(** Dropping input [i]: the reference to [h] goes exactly when no other input
    of the request has the same identifier. *)
Lemma refs_drop_ok (refs : string -> gset string) (ids : string -> gset Z) rid i h (still : bool) :
  (forall rid h, rid ∈ refs h <-> exists i, i ∈ ids rid /\ ident rid i = Some h) ->
  ident rid i = Some h ->
  (still = true <-> exists j, j ∈ ids rid ∖ {[i]} /\ ident rid j = Some h) ->
  forall rid' h',
    rid' ∈ (if decide (h = h') then (if still then refs h else refs h ∖ {[rid]}) else refs h') <->
    exists j, j ∈ (if decide (rid = rid') then ids rid ∖ {[i]} else ids rid') /\ ident rid' j = Some h'.
Proof.
  intros H Hi Hst rid' h'. destruct (decide (h = h')) as [<-|Hh], (decide (rid = rid')) as [<-|Hr].
  - destruct still.
    + split; [intros _; by apply Hst|]. intros (j & Hj & E). apply H. exists j. split; [set_solver|done].
    + split; [set_solver|]. intros Hx%Hst. done.
  - rewrite <- H. destruct still; [done|]. set_solver.
  - rewrite H. split; intros (j & Hj & E); exists j; (split; [|done]); [|set_solver].
    apply elem_of_difference. split; [done|]. intros ->%elem_of_singleton. congruence.
  - apply H.
Qed.

Definition dropped_input (r : Request) (i : Z) (s s' : EncoderCacheManager) : Prop :=
  inv s' /\ cache_size s' = cache_size s /\ num_free_slots s' = num_free_slots s /\
  num_embeds_by_hash s' = num_embeds_by_hash s /\
  forall rid, ids_of s' rid =
    if decide (request_id r = rid) then ids_of s (request_id r) ∖ {[i]} else ids_of s rid.

Lemma inv_drop_ids s r i h m (refs' : gset string) k d :
  inv s -> ident (request_id r) i = Some h -> is_Some (cached s !! h) ->
  let s' := set_freeable_slots k (set_freeable d (set_cached (<[h := refs']> (cached s)) (set_cached_ids m s))) in
  (forall rid, ids_of (set_cached_ids m s) rid =
    if decide (request_id r = rid) then ids_of s (request_id r) ∖ {[i]} else ids_of s rid) ->
  (exists still : bool,
    (still = true <-> exists j, j ∈ ids_of s (request_id r) ∖ {[i]} /\ ident (request_id r) j = Some h) /\
    refs' = if still then refs_of s h else refs_of s h ∖ {[request_id r]}) ->
  k = num_free_slots s + idle d -> NoDup d.*1 ->
  (forall h' n, (h', n) ∈ d <->
     (if decide (h = h') then Some refs' else cached s !! h') = Some ∅ /\ num_embeds_by_hash s !! h' = Some n) ->
  dropped_input r i s s'.
Proof.
  intros Hs Hi Hc s' Hids (still & Hst & Hrefs') Hk Hnd Hd.
  assert (forall rid, ids_of s' rid = if decide (request_id r = rid)
    then ids_of s (request_id r) ∖ {[i]} else ids_of s rid) as Hids'.
  { intros rid. rewrite <- Hids. done. }
  split; [|done]. destruct Hs. split; try done; simpl.
  - intros h'. rewrite lookup_insert, <- i_dom0. destruct (decide (h = h')) as [<-|]; [|done].
    split; [done|by eexists].
  - intros h' n. rewrite lookup_insert. apply Hd.
  - intros rid h'. rewrite Hids'. unfold refs_of. simpl. rewrite lookup_insert.
    pose proof (refs_drop_ok (refs_of s) (ids_of s) (request_id r) i h still i_refs0 Hi Hst rid h') as H.
    rewrite <- Hrefs' in H. rewrite <- H. by destruct (decide (h = h')).
  - intros rid j. rewrite Hids'. destruct (decide (request_id r = rid)) as [<-|]; [|apply i_ids0].
    intros [Hj _]%elem_of_difference. by apply i_ids0.
Qed.

Lemma free_encoder_input_ok s r i h :
  inv s -> agrees r -> ident (request_id r) i = Some h ->
  wp (free_encoder_input r i) (fun _ s' => dropped_input r i s s') s.
Proof.
  intros Hs Ha Hi. unfold free_encoder_input. wp_simpl. exists h. split; [by apply Ha|]. wp_simpl.
  pose proof (discard_ids (request_id r) i s) as Hids.
  destruct (discard_shape (request_id r) i s) as [m Em]. rewrite Em in *. simpl.
  change (default ∅ (cached s !! h)) with (refs_of s h).
  destruct (decide (refs_of s h = ∅)) as [Hempty|Hne]; wp_simpl.
  - assert (i ∉ ids_of s (request_id r)) as Hnot.
    { intros Hin. assert (request_id r ∈ refs_of s h) by (apply (i_refs _ Hs); eauto). set_solver. }
    assert (forall rid, ids_of (set_cached_ids m s) rid = ids_of s rid) as Hsame.
    { intros rid. rewrite Hids. destruct (decide (request_id r = rid)) as [<-|]; set_solver. }
    split; [|done]. destruct Hs. split; try done; intros *; rewrite ?Hsame; [apply i_refs0|apply i_ids0].
  - assert (is_Some (cached s !! h)) as Hsome.
    { unfold refs_of in Hne. destruct (cached s !! h); [by eexists|done]. }
    destruct (any_identifier_ok r h (elements (ids_of s (request_id r) ∖ {[i]}))) as (still & Est & Hst); [done| |].
    { intros j [Hj _]%elem_of_elements%elem_of_difference. by apply (i_ids _ Hs). }
    assert (still = true <-> exists j, j ∈ ids_of s (request_id r) ∖ {[i]} /\ ident (request_id r) j = Some h) as Hst'.
    { rewrite Hst. split; intros (j & Hj & E); exists j; (split; [|done]); by apply elem_of_elements. }
    assert (refs_of s h = default ∅ (cached s !! h)) as Hrd by done.
    exists still. split.
    { change (get_cached_input_ids r (set_cached_ids m s)) with (ids_of (set_cached_ids m s) (request_id r)).
      rewrite Hids, decide_True by done. exact Est. }
    destruct Hsome as [refs Erefs]. rewrite Erefs in Hrd. simpl in Hrd.
    assert (forall h' n, (h', n) ∈ freeable s <->
      (if decide (h = h') then Some refs else cached s !! h') = Some ∅ /\ num_embeds_by_hash s !! h' = Some n) as Hfree.
    { intros h' n. rewrite (i_idle _ Hs). destruct (decide (h = h')) as [<-|]; [by rewrite Erefs|done]. }
    destruct still; wp_simpl.
    + replace (set_cached_ids m s) with (set_freeable_slots (num_freeable_slots s) (set_freeable (freeable s)
        (set_cached (<[h := refs]> (cached s)) (set_cached_ids m s)))).
      2: { rewrite insert_id by done. by destruct s. }
      apply (inv_drop_ids s r i h); try done;
        first [by eexists|apply Hs|exists true; by rewrite Hrd].
    + assert (forall h' n, (h', n) ∈ freeable s -> h <> h') as Hnot.
      { intros h' n [E _]%(i_idle _ Hs) <-. rewrite Erefs in E. injection E as ->. congruence. }
      destruct (decide (refs_of s h ∖ {[request_id r]} = ∅)) as [Hlast|Hmore]; wp_simpl.
      * destruct (proj1 (i_dom _ Hs h)) as [n En]; [by eexists|]. exists n. simpl. rewrite En. split; [done|].
        wp_simpl. simpl. unfold odict_set. rewrite decide_False.
        2: { intros ([h' n'] & -> & Hin)%list_elem_of_fmap. by apply Hnot in Hin. }
        apply (inv_drop_ids s r i h m (refs_of s h ∖ {[request_id r]}) (num_freeable_slots s + n)
          (freeable s ++ [(h, n)])); try done; try first [by eexists|by exists false].
        -- rewrite idle_app, (i_freeable _ Hs). simpl. lia.
        -- rewrite fmap_app. apply NoDup_app. split_and!; [apply Hs| |apply NoDup_singleton].
           intros x ([h' n'] & -> & Hin)%list_elem_of_fmap Hx%list_elem_of_singleton.
           simpl in Hx. subst h'. by apply Hnot in Hin.
        -- intros h' n'. rewrite elem_of_app, list_elem_of_singleton, (i_idle _ Hs), Hlast.
           destruct (decide (h = h')) as [<-|Hhh]; [|naive_solver]. rewrite Erefs, En.
           split; [|naive_solver]. intros [[[= ->] _]|[= <-]]; [congruence|done].
      * replace (set_cached _ (set_cached_ids m s)) with
          (set_freeable_slots (num_freeable_slots s) (set_freeable (freeable s)
          (set_cached (<[h := refs_of s h ∖ {[request_id r]}]> (cached s)) (set_cached_ids m s)))) by done.
        apply (inv_drop_ids s r i h); try done; try first [by eexists|by exists false|apply Hs].
        intros h' n. rewrite (i_idle _ Hs). destruct (decide (h = h')) as [<-|]; [|done].
        rewrite Erefs. split; [intros [[= ->] _]; congruence|]. intros [[= E] _]. congruence.
Qed.

Lemma free_ok s r :
  inv s -> agrees r ->
  wp (free r) (fun _ s' => inv s' /\ cache_size s' = cache_size s /\
    num_free_slots s' = num_free_slots s /\ ids_of s' (request_id r) = ∅ /\
    (forall h, request_id r ∉ refs_of s' h) /\
    (forall rid, rid <> request_id r -> ids_of s' rid = ids_of s rid)) s.
Proof.
  intros Hs Ha. unfold free. wp_simpl.
  change (get_cached_input_ids r s) with (ids_of s (request_id r)).
  apply (wp_for _ _ (fun done_ todo s' => inv s' /\ cache_size s' = cache_size s /\
    num_free_slots s' = num_free_slots s /\
    (forall i, i ∈ ids_of s' (request_id r) -> i ∈ todo) /\
    (forall i, i ∈ todo -> is_Some (ident (request_id r) i)) /\
    (forall rid, rid <> request_id r -> ids_of s' rid = ids_of s rid))).
  - split_and!; try done; [intros i; by rewrite elem_of_elements|].
    intros i Hi%elem_of_elements. by apply (i_ids _ Hs).
  - intros done_ i todo s' _ (Hs' & Hc & Hn & Hin & Hsome & Hoth).
    destruct (Hsome i) as [h Hi]; [by left|].
    eapply wp_mono; [by eapply free_encoder_input_ok|].
    intros [] s2 (Hs2 & Hc2 & Hn2 & _ & Hids). split_and!; [done|congruence|congruence| | |].
    + intros j. rewrite Hids, decide_True by done. intros [Hj Hne]%elem_of_difference.
      apply Hin in Hj. apply elem_of_cons in Hj as [->|Hj]; [|done]. set_solver.
    + intros j Hj. apply Hsome. by right.
    + intros rid Hr. rewrite Hids, decide_False by done. by apply Hoth.
  - intros s' (Hs' & Hc & Hn & Hin & _ & Hoth).
    assert (ids_of s' (request_id r) = ∅) as Hempty.
    { apply set_eq. intros i. split; [|set_solver]. intros Hi%Hin. by apply not_elem_of_nil in Hi. }
    split_and!; try done. intros h (i & Hi & _)%(i_refs _ Hs'). rewrite Hempty in Hi. set_solver.
Qed.

Lemma idle_le_used d m :
  NoDup d.*1 -> (forall h n, (h, n) ∈ d -> m !! h = Some n) ->
  (forall h n, m !! h = Some n -> 0 <= n) -> idle d <= used m.
Proof.
  revert m. induction d as [|[h n] d IH]; intros m Hnd Hd Hm; simpl.
  - clear Hnd Hd. unfold used. revert Hm. induction m as [|k v m Hk IH] using map_ind; intros Hm.
    { by rewrite map_fold_empty. }
    rewrite (map_fold_insert_L (fun _ n acc => n + acc) 0 k v m) by (done || (intros; lia)).
    assert (0 <= v) by (apply (Hm k); by rewrite lookup_insert_eq).
    etrans; [apply IH|lia]. intros k' v' Hk'. apply (Hm k'). rewrite lookup_insert_ne; [done|]. congruence.
  - rewrite fmap_cons in Hnd. apply NoDup_cons in Hnd as [Hh Hnd].
    rewrite (used_delete m h n) by (apply Hd; by left).
    assert (idle d <= used (delete h m)); [|lia]. apply IH; [done| |].
    + intros k v Hin. rewrite lookup_delete_ne; [apply Hd; by right|]. intros ->.
      apply Hh, list_elem_of_fmap. by exists (k, v).
    + intros k v [_ Hk]%lookup_delete_Some. by apply (Hm k).
Qed.

(** ** Sequences of calls *)

Inductive cache_op :=
| ECheck (r : Request) (i : Z)
| ECanAllocate (r : Request) (i budget sched : Z)
| EAllocate (r : Request) (i : Z)
| EFreeInput (r : Request) (i : Z)
| EFree (r : Request)
| EGetFreed
| EReset.

Definition run_op (o : cache_op) : M EncoderCacheManager unit :=
  match o with
  | ECheck r i => check_and_update_cache r i ;; ret tt
  | ECanAllocate r i b n => can_allocate r i b n ;; ret tt
  | EAllocate r i => allocate r i
  | EFreeInput r i => free_encoder_input r i
  | EFree r => free r
  | EGetFreed => get_freed_mm_hashes ;; ret tt
  | EReset => reset
  end.

(** Inputs belong to their request; slots are reserved only for entries that
    are not cached, after [can_allocate] found room. *)
Definition op_ok (s : EncoderCacheManager) (o : cache_op) : Prop :=
  match o with
  | ECheck r i | EFreeInput r i => agrees r /\ is_Some (ident (request_id r) i)
  | ECanAllocate r i _ _ => exists n, get_num_encoder_embeds r i = Ok n
  | EAllocate r i => agrees r /\ exists h n, ident (request_id r) i = Some h /\
      get_num_encoder_embeds r i = Ok n /\ 0 <= n <= num_free_slots s /\ cached s !! h = None
  | EFree r => agrees r
  | EGetFreed | EReset => True
  end.

Inductive reachable : EncoderCacheManager -> Prop :=
| reach_init n : 0 <= n -> reachable (init n)
| reach_step s o res s' : reachable s -> op_ok s o -> run_op o s = (res, s') -> reachable s'.

Lemma run_op_ok s o :
  inv s -> op_ok s o -> wp (run_op o) (fun _ s' => inv s' /\ cache_size s' = cache_size s) s.
Proof.
  intros Hs Ho. destruct o; simpl in *.
  - destruct Ho as [Ha [h Hi]]. wp_simpl. eapply wp_mono; [by eapply check_and_update_ok|].
    intros b s' (H1 & H2 & _). by wp_simpl.
  - destruct Ho as [n En]. wp_simpl. eapply wp_mono; [by eapply can_allocate_ok|].
    intros b s' (H1 & H2 & _). by wp_simpl.
  - destruct Ho as (Ha & h & n & Hi & En & Hn & Hc).
    eapply wp_mono; [eapply allocate_ok; (done || lia)|]. intros b s' (H1 & H2 & _). done.
  - destruct Ho as [Ha [h Hi]]. eapply wp_mono; [by eapply free_encoder_input_ok|].
    intros b s' (H1 & H2 & _). done.
  - eapply wp_mono; [by apply free_ok|]. intros b s' (H1 & H2 & _). done.
  - unfold get_freed_mm_hashes. wp_simpl. split; [|done]. destruct Hs. by split.
  - unfold reset. wp_simpl. split; [|done]. apply inv_init. destruct Hs.
    pose proof (idle_le_used [] (num_embeds_by_hash s)) as H. simpl in H.
    assert (0 <= used (num_embeds_by_hash s)); [|lia].
    apply H; [constructor|intros h n Hn; by apply not_elem_of_nil in Hn|done].
Qed.

Lemma reachable_inv s : reachable s -> inv s.
Proof.
  induction 1 as [n Hn|s o res s' _ IH Ho E]; [by apply inv_init|].
  pose proof (run_op_ok s o IH Ho) as H. unfold wp in H. rewrite E in H. destruct res; [apply H|done].
Qed.

(** C36: the encoder cache never oversubscribes its slots. After any sequence
    of calls within the contract: every further call within the contract
    returns normally; the free slots are exactly the capacity minus the sizes
    of the cached entries, the freeable slots add the sizes of the entries
    nobody references, and 0 <= free <= freeable <= capacity; an entry is
    evictable exactly when no request references it; and a request references
    an entry exactly when one of its cached inputs has that identifier. *)
Theorem encoder_slots_accounted (s : EncoderCacheManager) :
  reachable s ->
  (forall o, op_ok s o -> exists s', run_op o s = (Ok tt, s') /\ cache_size s' = cache_size s) /\
  num_free_slots s = cache_size s - used (num_embeds_by_hash s) /\
  num_freeable_slots s = num_free_slots s + idle (freeable s) /\
  0 <= num_free_slots s <= num_freeable_slots s /\ num_freeable_slots s <= cache_size s /\
  (forall h, h ∈ (freeable s).*1 <-> cached s !! h = Some ∅) /\
  (forall rid h, rid ∈ refs_of s h <-> exists i, i ∈ ids_of s rid /\ ident rid i = Some h).
Proof.
  intros Hs%reachable_inv. pose proof (idle_nonneg s Hs) as Hidle.
  assert (idle (freeable s) <= used (num_embeds_by_hash s)) as Hle.
  { apply idle_le_used; [apply Hs| |apply Hs]. intros h n [_ E]%(i_idle _ Hs). done. }
  pose proof (i_used _ Hs). pose proof (i_freeable _ Hs). pose proof (i_slots _ Hs).
  split_and!; try lia; [| |apply Hs].
  - intros o Ho. destruct (proj1 (wp_run _ _ _) (run_op_ok s o Hs Ho)) as ([] & s' & E & _ & Hc). eauto.
  - intros h. rewrite list_elem_of_fmap. split.
    + intros ([h' n] & -> & [E _]%(i_idle _ Hs)). done.
    + intros E. destruct (proj1 (i_dom _ Hs h)) as [n En]; [by eexists|]. exists (h, n).
      split; [done|]. by apply (i_idle _ Hs).
Qed.

(** C37: [can_allocate] decides exactly: it returns True if and only if the
    input fits the compute budget and, together with what is already scheduled,
    the freeable slots. Then enough slots are free; the entries evicted are the
    oldest unreferenced ones, reported in [freed] in that order; entries that
    some request references stay cached. When it returns False nothing
    changes. *)
Theorem can_allocate_exact (s : EncoderCacheManager) (r : Request) (i n budget sched : Z) :
  reachable s -> get_num_encoder_embeds r i = Ok n ->
  wp (can_allocate r i budget sched) (fun ok s' =>
    (ok = true <-> n <= budget /\ n + sched <= num_freeable_slots s) /\
    (ok = true -> n + sched <= num_free_slots s') /\ (ok = false -> s' = s) /\
    (forall h refs, cached s !! h = Some refs -> refs <> ∅ -> cached s' !! h = Some refs) /\
    exists gone, freeable s = gone ++ freeable s' /\ freed s' = freed s ++ gone.*1) s.
Proof.
  intros Hs%reachable_inv En. eapply wp_mono; [by eapply can_allocate_ok|].
  intros ok s' (_ & _ & _ & _ & H1 & H2 & H3 & H4 & H5). by split_and!.
Qed.

(** [free] releases a request completely: afterwards no entry lists it and
    it has no cached inputs, the inputs of other requests are untouched, and
    the data stays cached (the free slots do not change). *)
Theorem free_releases_request (s : EncoderCacheManager) (r : Request) :
  reachable s -> agrees r ->
  wp (free r) (fun _ s' => (forall h, request_id r ∉ refs_of s' h) /\ ids_of s' (request_id r) = ∅ /\
    (forall rid, rid <> request_id r -> ids_of s' rid = ids_of s rid) /\
    num_free_slots s' = num_free_slots s) s.
Proof.
  intros Hs%reachable_inv Ha. eapply wp_mono; [by apply free_ok|].
  intros [] s' (_ & _ & H1 & H2 & H3 & H4). by split_and!.
Qed.
End accounting.

(** ** Witnesses *)

Definition demo_request : outcome Request :=
  new_request (mkArgs "q" (Some [1; 2; 3; 4; 5]) (Some (mkSampling (Some 4) 0 None None None None None None))
    None 0 0 None None (Some [mkFeature "img" (mkRange 0 3 None)]) None None 0 false None None false 0) None.
Definition demo_ident (rid : string) (i : Z) : option string :=
  if decide (rid = "q" /\ i = 0) then Some "img"%string else None.

Lemma demo_agrees r : demo_request = Ok r -> agrees demo_ident r /\ request_id r = "q"%string /\
  get_num_encoder_embeds r 0 = Ok 3.
Proof.
  intros E. assert (Ok r = demo_request) as F by done. vm_compute in F. injection F as ->.
  split_and!; [|done|done]. intros i h. unfold demo_ident. destruct (decide _) as [[_ ->]|]; [|done].
  intros [= <-]. done.
Qed.

Lemma encoder_slots_accounted_witness :
  exists r, demo_request = Ok r /\ reachable demo_ident (init 10) /\
  exists s', run_op (EAllocate r 0) (init 10) = (Ok tt, s').
Proof.
  destruct demo_request as [r|] eqn:E; [|by vm_compute in E]. exists r. split; [done|].
  destruct (demo_agrees r E) as (Ha & Hr & Hn).
  assert (reachable demo_ident (init 10)) as H0 by (apply reach_init; lia). split; [exact H0|].
  destruct (proj1 (encoder_slots_accounted demo_ident (init 10) H0) (EAllocate r 0)) as (s' & Hs' & _).
  - split; [exact Ha|]. exists "img"%string, 3. rewrite Hr. split_and!; [done|done|lia|simpl; lia|done].
  - by exists s'.
Defined.

Lemma can_allocate_exact_witness :
  exists r, demo_request = Ok r /\
  wp (can_allocate r 0 5 2) (fun ok _ => ok = true) (init 10) /\
  wp (can_allocate r 0 5 8) (fun ok _ => ok = false) (init 10).
Proof.
  destruct demo_request as [r|] eqn:E; [|by vm_compute in E]. exists r. split; [done|].
  destruct (demo_agrees r E) as (Ha & Hr & Hn).
  assert (reachable demo_ident (init 10)) as H0 by (apply reach_init; lia). split.
  - eapply wp_mono; [apply (can_allocate_exact demo_ident (init 10) r 0 3 5 2 H0 Hn)|].
    intros ok s' [H _]. apply H. simpl. lia.
  - eapply wp_mono; [apply (can_allocate_exact demo_ident (init 10) r 0 3 5 8 H0 Hn)|].
    intros ok s' [H _]. destruct ok; [|done]. apply proj1 in H. specialize (H eq_refl). simpl in H. lia.
Defined.

Lemma free_releases_request_witness :
  exists r, demo_request = Ok r /\
  wp (free r) (fun _ s' => num_free_slots s' = 10) (init 10).
Proof.
  destruct demo_request as [r|] eqn:E; [|by vm_compute in E]. exists r. split; [done|].
  destruct (demo_agrees r E) as (Ha & Hr & Hn).
  assert (reachable demo_ident (init 10)) as H0 by (apply reach_init; lia).
  eapply wp_mono; [apply (free_releases_request demo_ident (init 10) r H0 Ha)|].
  intros [] s' (_ & _ & _ & H). exact H.
Defined.

End EncoderCache.

(** [compute_mm_encoder_budget]; the dict is given by its values. *)
Definition compute_mm_encoder_budget (disable_chunked_mm_input : bool)
    (max_num_batched_tokens max_num_encoder_input_tokens encoder_cache_size : Z)
    (mm_max_toks_per_item : list Z) : outcome (Z * Z) :=
  match mm_max_toks_per_item with
  | [] => Ok (0, 0)
  | t :: ts =>
      let max_tokens_per_mm_item := foldl Z.max t ts in
      if disable_chunked_mm_input && (max_tokens_per_mm_item >? max_num_batched_tokens)
      then Raise ValueError
      else Ok (Z.max max_num_encoder_input_tokens max_tokens_per_mm_item,
               Z.max encoder_cache_size max_tokens_per_mm_item)
  end.

(** * EncoderDecoderCacheManager *)

Record EncoderDecoderCacheManager := mkEncDec {
  ed_cache_size : Z;
  ed_num_free_slots : Z;
  ed_allocated : list string;
  ed_to_free : list string
}.

Module EncoderDecoderCache.
Definition ed_init (cache_size : Z) : EncoderDecoderCacheManager := mkEncDec cache_size cache_size [] [].
Definition ed_reset : M EncoderDecoderCacheManager unit :=
  modify (fun s => mkEncDec (ed_cache_size s) (ed_cache_size s) [] []).
Definition ed_check_and_update_cache (r : Request) (input_id : Z) : M EncoderDecoderCacheManager bool :=
  ret false.
Definition ed_can_allocate (r : Request) (input_id encoder_compute_budget num_embeds_to_schedule : Z) :
    M EncoderDecoderCacheManager bool :=
  let! n := lift (get_num_encoder_embeds r input_id) in
  if n >? encoder_compute_budget then ret false
  else gets (fun s => n + num_embeds_to_schedule <=? ed_num_free_slots s).
Definition ed_add_slots (d : Z) (s : EncoderDecoderCacheManager) : EncoderDecoderCacheManager :=
  mkEncDec (ed_cache_size s) (ed_num_free_slots s + d) (ed_allocated s) (ed_to_free s).
Definition ed_allocate (r : Request) (input_id : Z) : M EncoderDecoderCacheManager unit :=
  let! n := lift (get_num_encoder_embeds r input_id) in
  modify (ed_add_slots (- n)) ;;
  let! h := lift (EncoderCache.mm_hash_of r input_id) in
  modify (fun s => mkEncDec (ed_cache_size s) (ed_num_free_slots s) (ed_allocated s ++ [h]) (ed_to_free s)).
Definition ed_free_encoder_input (r : Request) (input_id : Z) : M EncoderDecoderCacheManager unit :=
  let! n := lift (get_num_encoder_embeds r input_id) in
  modify (ed_add_slots n).
Definition ed_free (r : Request) : M EncoderDecoderCacheManager unit :=
  for_ (py_range 0 (zlen (mm_features r))) (ed_free_encoder_input r).
Definition ed_get_cached_input_ids (r : Request) : gset Z :=
  list_to_set (py_range 0 (zlen (mm_features r))).
Definition ed_get_freed_mm_hashes : M EncoderDecoderCacheManager (list string) :=
  let! to_free := gets ed_to_free in
  modify (fun s => mkEncDec (ed_cache_size s) (ed_num_free_slots s) [] (ed_allocated s)) ;;
  ret to_free.
End EncoderDecoderCache.
