(* ===== verification/BlockHash.v ===== *)
(** Block hashing ([vllm/v1/core/kv_cache_utils.py]): cache keys with their
    group id, the extra keys of a block, the incremental block hasher of a
    request and the coarser views of its hashes. *)
From Stdlib Require Import ZArith Lia Strings.String.
From stdpp Require Import base list numbers gmap strings.
From S2P Require Import Prelude Request.
Open Scope Z_scope.

(** * Integers as bytes *)

Definition byte_of_Z (z : Z) : Byte.byte :=
  default Byte.x00 (Byte.of_N (Z.to_N (z mod 256))).
Definition Z_of_byte (b : Byte.byte) : Z := Z.of_N (Byte.to_N b).

(** [z.to_bytes(n, "big", signed=False)] *)
Fixpoint be_bytes (n : nat) (z : Z) : bytes :=
  match n with
  | O => []
  | S n => be_bytes n (z / 256) ++ [byte_of_Z z]
  end.
Definition to_bytes (n : nat) (z : Z) : outcome bytes :=
  if (0 <=? z) && (z <? 256 ^ Z.of_nat n) then Ok (be_bytes n z) else Raise OverflowError.

(** [int.from_bytes(b, "big", signed=False)] *)
Definition from_bytes (b : bytes) : Z := foldl (fun acc x => acc * 256 + Z_of_byte x) 0 b.

(** * Cache keys *)

Definition make_block_hash_with_group_id (block_hash : bytes) (group_id : Z) : outcome bytes :=
  match to_bytes 4 group_id with
  | Ok g => Ok (block_hash ++ g)
  | Raise e => Raise e
  end.
Definition get_block_hash (key : bytes) : bytes := py_upto (-4) key.
Definition get_group_id (key : bytes) : Z := from_bytes (py_from (-4) key).

(** [bytes | int] *)
Definition ExternalBlockHash : Type := bytes + Z.

(** [use_int] is the environment switch [VLLM_KV_EVENTS_USE_INT_BLOCK_HASHES]. *)
Definition maybe_convert_block_hash (use_int : bool) (hash_bytes : bytes) : ExternalBlockHash :=
  if negb use_int then inl hash_bytes
  else inr (Z.land (from_bytes hash_bytes) (Z.shiftl 1 64 - 1)).

(** * Extra keys *)

Inductive extra_key :=
| KMM (identifier : string) (start_offset : Z)
| KLora (name path : string)
| KSalt (salt : string)
| KEmbeds (digest : bytes).

(** The untagged form published in KV events. *)
Inductive event_key :=
| EPair (identifier : string) (start_offset : Z)
| EStr (s : string)
| EBytes (b : bytes).

#[export] Instance extra_key_eq_dec : EqDecision extra_key.
Proof. solve_decision. Defined.
#[export] Instance event_key_eq_dec : EqDecision event_key.
Proof. solve_decision. Defined.

Definition range_end (f : MultiModalFeatureSpec) : Z :=
  offset (mm_position f) + length_ (mm_position f).

(** [bisect.bisect_left(a, x, key=key)]: the search on [lo, hi). *)
Fixpoint bisect_loop {A} (fuel : nat) (key : A -> Z) (a : list A) (x lo hi : Z) : outcome Z :=
  if lo <? hi then
    match fuel with
    | O => Raise OutOfFuel
    | S fuel =>
        let mid := (lo + hi) / 2 in
        match py_get a mid with
        | None => Raise IndexError
        | Some y => if key y <? x then bisect_loop fuel key a x (mid + 1) hi
                    else bisect_loop fuel key a x lo mid
        end
    end
  else Ok lo.
Definition bisect_left {A} (a : list A) (x : Z) (key : A -> Z) : outcome Z :=
  bisect_loop (length a) key a x 0 (zlen a).

Definition get_mm_features_in_window (mm_features : list MultiModalFeatureSpec)
    (start end_ : Z) : outcome (Z * Z) :=
  match bisect_left mm_features (start + 1) range_end with
  | Raise e => Raise e
  | Ok lo =>
      match bisect_left mm_features end_ (fun f => offset (mm_position f)) with
      | Raise e => Raise e
      | Ok hi => Ok (lo, hi)
      end
  end.

(** The [while] loop over [mm_features[curr_mm_idx:]]. *)
Fixpoint mm_keys_loop (todo : list MultiModalFeatureSpec) (start_token_idx end_token_idx curr_mm_idx : Z)
    (acc : list extra_key) : list extra_key * Z :=
  match todo with
  | [] => (acc, curr_mm_idx)
  | f :: todo =>
      let off := offset (mm_position f) in
      let len := length_ (mm_position f) in
      if end_token_idx >? off then
        if start_token_idx >=? off + len
        then mm_keys_loop todo start_token_idx end_token_idx (curr_mm_idx + 1) acc
        else
          let acc := acc ++ [KMM (identifier f) (off - start_token_idx)] in
          if end_token_idx >=? off + len
          then mm_keys_loop todo start_token_idx end_token_idx (curr_mm_idx + 1) acc
          else (acc, curr_mm_idx)
      else (acc, curr_mm_idx)
  end.

Definition gen_mm_extra_hash_keys (mm_features : list MultiModalFeatureSpec)
    (start_token_idx end_token_idx start_mm_idx : Z) : outcome (list extra_key * Z) :=
  match py_get mm_features (-1) with
  | None => Ok ([], start_mm_idx)
  | Some last =>
      if range_end last <=? start_token_idx then Ok ([], start_mm_idx)
      else if (start_mm_idx <? 0) && negb (- start_mm_idx <=? zlen mm_features)
      then Raise AssertionError
      else
        let start_mm_idx := if start_mm_idx <? 0 then zlen mm_features + start_mm_idx
                            else start_mm_idx in
        Ok (mm_keys_loop (drop (Z.to_nat start_mm_idx) mm_features)
              start_token_idx end_token_idx start_mm_idx [])
  end.

Definition gen_lora_extra_hash_keys (r : Request) : list extra_key :=
  match lora_request r with
  | None => []
  | Some l => [KLora (lora_name l) (lora_path l)]
  end.

Section hashing.
(** [hashlib.sha256(...).digest()] over raw bytes. *)
Context (sha256 : bytes -> bytes).

(** Python values handed to the configured block-hash function. *)
Inductive hash_input :=
| HSeed (seed : string)
| HBlock (parent_block_hash : bytes) (token_ids : list Z) (extra_keys : option (list extra_key)).

(** The configured [caching_hash_fn] (serialisation and digest). *)
Context (hash_function : hash_input -> bytes).
(** [NONE_HASH], set by [init_none_hash]. *)
Context (NONE_HASH : bytes).

Definition prompt_embeds_digest (embeds : list bytes) (start_token_idx end_token_idx : Z) : bytes :=
  sha256 (concat (py_slice start_token_idx end_token_idx embeds)).

Definition gen_prompt_embeds_extra_hash_keys (start_token_idx end_token_idx : Z) :
    M Request (list extra_key) :=
  let! embeds := gets prompt_embeds in
  match embeds with
  | None => ret []
  | Some e =>
      let! cached := gets (fun r => prompt_embeds_per_block_hashes r !! (start_token_idx, end_token_idx)) in
      match cached with
      | Some h => ret [KEmbeds h]
      | None =>
          let h := prompt_embeds_digest e start_token_idx end_token_idx in
          modify (fun r => set_prompt_embeds_per_block_hashes
            (<[(start_token_idx, end_token_idx) := h]> (prompt_embeds_per_block_hashes r)) r) ;;
          ret [KEmbeds h]
      end
  end.

(** [request.cache_salt] counts only for the first block, and only if it is a
    non-empty string. *)
Definition cache_salt_keys (r : Request) (start_token_idx : Z) : list extra_key :=
  match cache_salt r with
  | Some s => if (start_token_idx =? 0) && negb (String.eqb s "") then [KSalt s] else []
  | None => []
  end.

Definition generate_block_hash_extra_keys (start_token_idx end_token_idx start_mm_idx : Z) :
    M Request (option (list extra_key) * Z) :=
  let! r := gets (fun r => r) in
  let! mm := lift (gen_mm_extra_hash_keys (mm_features r) start_token_idx end_token_idx start_mm_idx) in
  let! embeds := gen_prompt_embeds_extra_hash_keys start_token_idx end_token_idx in
  let extra_keys := gen_lora_extra_hash_keys r ++ mm.1 ++ cache_salt_keys r start_token_idx ++ embeds in
  match extra_keys with
  | [] => ret (None, mm.2)
  | _ => ret (Some extra_keys, mm.2)
  end.

Definition event_key_of (k : extra_key) : event_key :=
  match k with
  | KMM i o => EPair i o
  | KLora n _ => EStr n
  | KSalt s => EStr s
  | KEmbeds d => EBytes d
  end.
Definition to_event_extra_keys (extra_keys : list (option (list extra_key))) :
    option (list (option (list event_key))) :=
  match extra_keys with
  | [] => None
  | _ => Some (map (fun keys => match keys with
                                | None => None
                                | Some ks => Some (map event_key_of ks)
                                end) extra_keys)
  end.

Definition hash_block_tokens (parent_block_hash : option bytes) (curr_block_token_ids : list Z)
    (extra_keys : option (list extra_key)) : bytes :=
  let parent := match parent_block_hash with
                | None | Some [] => NONE_HASH
                | Some h => h
                end in
  hash_function (HBlock parent curr_block_token_ids extra_keys).

(** The [while True] loop of the hasher. *)
Fixpoint hasher_loop (fuel : nat) (hash_block_size num_tokens start_token_idx curr_mm_idx : Z)
    (prev : option bytes) (acc : list bytes) : M Request (list bytes) :=
  let end_token_idx := start_token_idx + hash_block_size in
  if end_token_idx >? num_tokens then ret acc else
  match fuel with
  | O => raise OutOfFuel
  | S fuel =>
      let! keys := generate_block_hash_extra_keys start_token_idx end_token_idx curr_mm_idx in
      let! tokens := gets all_token_ids in
      let block_tokens := py_slice start_token_idx end_token_idx tokens in
      let block_hash := hash_block_tokens prev block_tokens keys.1 in
      hasher_loop fuel hash_block_size num_tokens end_token_idx keys.2 (Some block_hash)
        (acc ++ [block_hash])
  end.

(** [get_request_block_hasher(hash_block_size, ...)] *)
Definition request_block_hasher (hash_block_size : Z) : M Request (list bytes) :=
  let! r := gets (fun r => r) in
  let start_token_idx := zlen (block_hashes r) * hash_block_size in
  if start_token_idx + hash_block_size >? num_tokens r then ret [] else
  let! curr_mm_idx :=
    match py_get (mm_features r) (-1) with
    | Some last =>
        if (start_token_idx >? 0) && (range_end last >? start_token_idx) then
          lift (match get_mm_features_in_window (mm_features r) start_token_idx
                        (start_token_idx + hash_block_size) with
                | Ok w => Ok w.1
                | Raise e => Raise e
                end)
        else ret 0
    | None => ret 0
    end in
  hasher_loop (length (all_token_ids r)) hash_block_size (num_tokens r) start_token_idx curr_mm_idx
    (py_get (block_hashes r) (-1)) [].

End hashing.

(** * The seed of the first block *)

Definition DEFAULT_NONE_HASH_SEED : string := "vllm-none-hash".

(** [env]: PYTHONHASHSEED; [non_crypto]: the hash function is one of
    [_NON_CRYPTO_HASH_FUNCTIONS]; [urandom_hex]: fresh random bytes. *)
Definition resolve_none_hash_seed (env : option string) (non_crypto : bool)
    (urandom_hex : string) : string :=
  match env with
  | Some seed => seed
  | None => if non_crypto then urandom_hex else DEFAULT_NONE_HASH_SEED
  end.

Definition init_none_hash (hash_function : hash_input -> bytes) (env : option string)
    (non_crypto : bool) (urandom_hex : string) : bytes :=
  hash_function (HSeed (resolve_none_hash_seed env non_crypto urandom_hex)).

(** * Coarser views of the hashes *)

Record BlockHashListWithBlockSize := mkView {
  view_hashes : list bytes;
  scale_factor : Z
}.

Definition new_view (hashes : list bytes) (hash_block_size target_block_size : Z) :
    outcome BlockHashListWithBlockSize :=
  if target_block_size mod hash_block_size =? 0
  then Ok (mkView hashes (target_block_size / hash_block_size))
  else Raise AssertionError.
Definition view_len (v : BlockHashListWithBlockSize) : Z := zlen (view_hashes v) / scale_factor v.
Definition view_get (v : BlockHashListWithBlockSize) (idx : Z) : option bytes :=
  py_get (view_hashes v) ((idx + 1) * scale_factor v - 1).

(** [BlockHashList = list[BlockHash] | BlockHashListWithBlockSize] *)
Inductive BlockHashList :=
| Raw (hashes : list bytes)
| View (v : BlockHashListWithBlockSize).

Definition hl_len (l : BlockHashList) : Z :=
  match l with Raw h => zlen h | View v => view_len v end.
Definition hl_get (l : BlockHashList) (i : Z) : option bytes :=
  match l with Raw h => py_get h i | View v => view_get v i end.
(** [l[start:]], the only slice the callers take ([start >= 0]); a view
    evaluates its elements one by one. *)
Definition hl_from (l : BlockHashList) (start : Z) : outcome (list bytes) :=
  match l with
  | Raw h => Ok (py_from start h)
  | View v =>
      or_raise (mapM (view_get v) (py_range (Z.min start (view_len v)) (view_len v))) IndexError
  end.

Definition resolve_block_hashes (block_hashes : BlockHashList) (hash_block_size block_size : Z)
    (supports_fine_grained_hash_lookup : bool) (alignment_tokens : option Z) :
    outcome BlockHashList :=
  if block_size =? hash_block_size then Ok block_hashes else
  match block_hashes with
  | View v =>
      if scale_factor v =? block_size / hash_block_size then Ok block_hashes
      else Raise AssertionError
  | Raw hashes =>
      let fine := match alignment_tokens with
                  | Some a => supports_fine_grained_hash_lookup && (a <? block_size) &&
                              (block_size mod a =? 0)
                  | None => false
                  end in
      if fine then Ok block_hashes
      else if block_size mod hash_block_size =? 0 then
        match new_view hashes hash_block_size block_size with
        | Ok v => Ok (View v)
        | Raise e => Raise e
        end
      else Raise AssertionError
  end.

(** * Round trips of the cache keys *)

Lemma Z_of_byte_of_Z z : Z_of_byte (byte_of_Z z) = z mod 256.
Proof.
  unfold Z_of_byte, byte_of_Z.
  pose proof (Z.mod_pos_bound z 256 ltac:(lia)).
  destruct (Byte.of_N (Z.to_N (z mod 256))) as [b|] eqn:E.
  - apply Byte.to_of_N in E. simpl. rewrite E. lia.
  - apply Byte.of_N_None_iff in E. lia.
Qed.

Lemma length_be_bytes n z : length (be_bytes n z) = n.
Proof. revert z. induction n; intros; simpl; [done|]. rewrite length_app, IHn. simpl. lia. Qed.

Lemma from_be_bytes n z : from_bytes (be_bytes n z) = z mod 256 ^ Z.of_nat n.
Proof.
  revert z. induction n as [|n IH]; intros z; simpl be_bytes.
  { simpl. by rewrite Z.mod_1_r. }
  unfold from_bytes in *. rewrite foldl_app, IH. simpl foldl. rewrite Z_of_byte_of_Z.
  rewrite Nat2Z.inj_succ, Z.pow_succ_r by lia.
  rewrite (Z.rem_mul_r z 256) by lia. lia.
Qed.

Lemma py_tail_app {A} (l t : list A) :
  t <> [] -> py_upto (- zlen t) (l ++ t) = l /\ py_from (- zlen t) (l ++ t) = t.
Proof.
  intros Ht. assert (slice_bound (l ++ t) (- zlen t) = length l) as E.
  { unfold slice_bound. destruct t as [|x t]; [done|]. rewrite length_app.
    rewrite (proj2 (Z.ltb_lt _ _)) by (simpl; lia). lia. }
  unfold py_upto, py_from. rewrite E. split; [apply take_app_length|apply drop_app_length].
Qed.

Lemma make_key_Ok h g key :
  make_block_hash_with_group_id h g = Ok key <-> 0 <= g < 2 ^ 32 /\ key = h ++ be_bytes 4 g.
Proof.
  unfold make_block_hash_with_group_id, to_bytes. change (256 ^ Z.of_nat 4) with (2 ^ 32).
  destruct (0 <=? g) eqn:E1, (g <? 2 ^ 32) eqn:E2; simpl andb; bools;
    split; naive_solver lia.
Qed.

Lemma key_parts h g :
  0 <= g < 2 ^ 32 ->
  get_block_hash (h ++ be_bytes 4 g) = h /\ get_group_id (h ++ be_bytes 4 g) = g.
Proof.
  intros Hg. destruct (py_tail_app h (be_bytes 4 g)) as [Hu Hf].
  { intros E. apply (f_equal length) in E. by rewrite length_be_bytes in E. }
  rewrite length_be_bytes in Hu, Hf. unfold get_block_hash, get_group_id.
  change (-4) with (- Z.of_nat 4). rewrite Hu, Hf, from_be_bytes.
  split; [done|]. by apply Z.mod_small.
Qed.

Lemma make_key_inj h1 g1 h2 g2 key :
  make_block_hash_with_group_id h1 g1 = Ok key ->
  make_block_hash_with_group_id h2 g2 = Ok key -> h1 = h2 /\ g1 = g2.
Proof.
  intros [Hg1 ->]%make_key_Ok [Hg2 E]%make_key_Ok.
  pose proof (key_parts h1 g1 Hg1). pose proof (key_parts h2 g2 Hg2).
  rewrite E in *. naive_solver congruence.
Qed.

(** Round trip. A cache key packs the block hash and the group id without
    loss for every 32-bit group id, and packing rejects any other id. *)
Theorem group_key_roundtrip (h : bytes) (g : Z) :
  (0 <= g < 2 ^ 32 ->
     exists key, make_block_hash_with_group_id h g = Ok key /\
       get_block_hash key = h /\ get_group_id key = g) /\
  (~ 0 <= g < 2 ^ 32 -> make_block_hash_with_group_id h g = Raise OverflowError).
Proof.
  split; intros Hg.
  - exists (h ++ be_bytes 4 g). rewrite make_key_Ok. split; [done|]. by apply key_parts.
  - unfold make_block_hash_with_group_id, to_bytes. change (256 ^ Z.of_nat 4) with (2 ^ 32).
    destruct (0 <=? g) eqn:E1, (g <? 2 ^ 32) eqn:E2; simpl andb; try done. bools. lia.
Qed.

(** * Searching and scanning the multi-modal features *)

Lemma bisect_loop_ok {A} (key : A -> Z) (a : list A) x fuel lo hi :
  (forall i j y z, (i <= j)%nat -> a !! i = Some y -> a !! j = Some z -> key y <= key z) ->
  0 <= lo <= hi -> hi <= zlen a -> hi - lo <= Z.of_nat fuel ->
  (forall i y, a !! i = Some y -> Z.of_nat i < lo -> key y < x) ->
  (forall i y, a !! i = Some y -> hi <= Z.of_nat i -> x <= key y) ->
  exists r, bisect_loop fuel key a x lo hi = Ok r /\ 0 <= r <= zlen a /\
    (forall i y, a !! i = Some y -> Z.of_nat i < r -> key y < x) /\
    (forall i y, a !! i = Some y -> r <= Z.of_nat i -> x <= key y).
Proof.
  intros Hs. revert lo hi. induction fuel as [|fuel IH]; intros lo hi H1 H2 H3 Hl Hh; simpl.
  { assert (lo = hi) as -> by lia. rewrite Z.ltb_irrefl. exists hi. split_and!; auto; lia. }
  destruct (lo <? hi) eqn:E; bools.
  2: { assert (lo = hi) as -> by lia. exists hi. split_and!; auto; lia. }
  pose proof (Z.div_mod (lo + hi) 2 ltac:(lia)).
  pose proof (Z.mod_pos_bound (lo + hi) 2 ltac:(lia)).
  set (mid := (lo + hi) / 2) in *.
  rewrite py_get_nonneg by lia.
  destruct (lookup_lt_is_Some_2 a (Z.to_nat mid)) as [y Hy]; [lia|]. rewrite Hy.
  destruct (key y <? x) eqn:Ey; bools.
  - apply IH; try lia; [|done]. intros i z Hz Hi.
    assert (key z <= key y) by (eapply Hs; [|exact Hz|exact Hy]; lia). lia.
  - apply IH; try lia; [done|]. intros i z Hz Hi.
    assert (key y <= key z) by (eapply Hs; [|exact Hy|exact Hz]; lia). lia.
Qed.

(** What the comment on [get_mm_features_in_window] assumes: placeholders
    sorted by offset and non-overlapping. *)
Definition features_ok (fs : list MultiModalFeatureSpec) : Prop :=
  (forall f, f ∈ fs -> 0 <= length_ (mm_position f)) /\
  (forall i j f g, (i < j)%nat -> fs !! i = Some f -> fs !! j = Some g ->
     range_end f <= offset (mm_position g)).

Lemma features_ends_sorted fs :
  features_ok fs -> forall i j f g, (i <= j)%nat -> fs !! i = Some f -> fs !! j = Some g ->
  range_end f <= range_end g.
Proof.
  intros [Hlen Hs] i j f g Hij Hf Hg. destruct (decide (i = j)) as [->|]; [naive_solver lia|].
  assert (range_end f <= offset (mm_position g)) by (eapply (Hs i j); [lia|done..]).
  assert (0 <= length_ (mm_position g)) by (eapply Hlen, list_elem_of_lookup_2; done).
  unfold range_end in *. lia.
Qed.

Lemma features_offsets_sorted fs :
  features_ok fs -> forall i j f g, (i <= j)%nat -> fs !! i = Some f -> fs !! j = Some g ->
  offset (mm_position f) <= offset (mm_position g).
Proof.
  intros [Hlen Hs] i j f g Hij Hf Hg. destruct (decide (i = j)) as [->|]; [naive_solver lia|].
  assert (range_end f <= offset (mm_position g)) by (eapply (Hs i j); [lia|done..]).
  assert (0 <= length_ (mm_position f)) by (eapply Hlen, list_elem_of_lookup_2; done).
  unfold range_end in *. lia.
Qed.

(** All features before index [i] end at or before [start]. *)
Definition passed (fs : list MultiModalFeatureSpec) (i start : Z) : Prop :=
  0 <= i <= zlen fs /\
  forall j f, fs !! j = Some f -> Z.of_nat j < i -> range_end f <= start.

Lemma window_lo_passed fs start end_ :
  features_ok fs ->
  exists lo hi, get_mm_features_in_window fs start end_ = Ok (lo, hi) /\ passed fs lo start.
Proof.
  intros Hok. unfold get_mm_features_in_window, bisect_left.
  destruct (bisect_loop_ok range_end fs (start + 1) (length fs) 0 (zlen fs))
    as (lo & -> & Hlo & Hlt & _); try lia.
  { by apply features_ends_sorted. }
  { intros i y Hy%lookup_lt_Some. lia. }
  destruct (bisect_loop_ok (fun f => offset (mm_position f)) fs end_ (length fs) 0 (zlen fs))
    as (hi & -> & _); try lia.
  { by apply features_offsets_sorted. }
  { intros i y Hy%lookup_lt_Some. lia. }
  exists lo, hi. split; [done|]. split; [done|].
  intros j f Hf Hj. specialize (Hlt j f Hf Hj). lia.
Qed.

(** The features whose placeholder meets the block [start, end_), in order. *)
Definition overlaps (start end_ : Z) (f : MultiModalFeatureSpec) : Prop :=
  offset (mm_position f) < end_ /\ start < range_end f.
#[export] Instance overlaps_dec start end_ f : Decision (overlaps start end_ f).
Proof. unfold overlaps. apply _. Defined.
Definition mm_keys (fs : list MultiModalFeatureSpec) (start end_ : Z) : list extra_key :=
  map (fun f => KMM (identifier f) (offset (mm_position f) - start))
    (filter (overlaps start end_) fs).

Lemma filter_none {A} (P : A -> Prop) `{!forall x, Decision (P x)} (l : list A) :
  (forall x, x ∈ l -> ~ P x) -> filter P l = [].
Proof.
  induction l as [|x l IH]; intros Hl; [done|].
  rewrite filter_cons_False by (apply Hl; set_solver). apply IH. set_solver.
Qed.

Lemma mm_keys_loop_ok pre todo start end_ acc :
  features_ok (pre ++ todo) -> start <= end_ ->
  (forall f, f ∈ pre -> range_end f <= end_) ->
  exists idx, mm_keys_loop todo start end_ (zlen pre) acc = (acc ++ mm_keys todo start end_, idx) /\
    passed (pre ++ todo) idx end_.
Proof.
  intros Hok Hse. revert pre acc Hok.
  induction todo as [|f todo IH]; intros pre acc Hok Hpre.
  { exists (zlen pre). simpl. rewrite !app_nil_r. split; [done|]. split; [lia|].
    intros j f Hf%list_elem_of_lookup_2 _. auto. }
  assert (passed (pre ++ f :: todo) (zlen pre) end_) as Hstop.
  { split; [rewrite length_app; lia|]. intros j g Hg Hj.
    rewrite lookup_app_l in Hg by lia. apply Hpre. by eapply list_elem_of_lookup_2. }
  assert (forall g, g ∈ todo -> range_end f <= offset (mm_position g)) as Hlater.
  { intros g Hg. apply list_elem_of_lookup in Hg as [j Hj]. destruct Hok as [_ Hs].
    eapply (Hs (length pre) (S (length pre) + j)%nat); [lia|by rewrite list_lookup_middle|].
    rewrite lookup_app_r by lia. by replace (S (length pre) + j - length pre)%nat with (S j) by lia. }
  assert (range_end f <= end_ -> exists idx,
    mm_keys_loop todo start end_ (zlen pre + 1)
      (acc ++ if decide (overlaps start end_ f)
              then [KMM (identifier f) (offset (mm_position f) - start)] else []) =
      (acc ++ mm_keys (f :: todo) start end_, idx) /\ passed (pre ++ f :: todo) idx end_) as Hnext.
  { intros Hend. destruct (IH (pre ++ [f])
      (acc ++ if decide (overlaps start end_ f)
              then [KMM (identifier f) (offset (mm_position f) - start)] else []))
      as (idx & Hrun & Hp).
    - by rewrite <- app_assoc.
    - intros g [Hg|Hg%list_elem_of_singleton]%elem_of_app; [auto|by subst].
    - exists idx. rewrite <- app_assoc in Hp. rewrite length_app, Nat2Z.inj_add in Hrun.
      change (Z.of_nat (length [f])) with 1 in Hrun. rewrite Hrun. split; [|done]. unfold mm_keys.
      case_decide; [rewrite filter_cons_True by done|rewrite filter_cons_False by done];
        simpl; by rewrite <- ?app_assoc, ?app_nil_r. }
  assert (forall g, g ∈ todo -> end_ < range_end f \/ end_ <= offset (mm_position f) ->
            ~ overlaps start end_ g) as Hnone.
  { intros g Hg Hf [Ho _]. specialize (Hlater g Hg).
    assert (0 <= length_ (mm_position f)) by (apply Hok; set_solver).
    unfold range_end in *. lia. }
  simpl. unfold overlaps, range_end in *.
  destruct (end_ >? _) eqn:E1; [destruct (start >=? _) eqn:E2|]; bools.
  - destruct Hnext as (idx & Hrun & Hp); [lia|]. rewrite decide_False, app_nil_r in Hrun by lia.
    eauto.
  - destruct (end_ >=? _) eqn:E3; bools.
    + destruct Hnext as (idx & Hrun & Hp); [lia|]. rewrite decide_True in Hrun by lia. eauto.
    + exists (zlen pre). split; [|done]. unfold mm_keys.
      rewrite filter_cons_True by (unfold overlaps, range_end; lia).
      rewrite filter_none; [done|]. intros g Hg. apply (Hnone g Hg). lia.
  - exists (zlen pre). split; [|done]. unfold mm_keys.
    rewrite filter_none; [by rewrite app_nil_r|].
    intros g [->|Hg]%elem_of_cons; [unfold overlaps, range_end; lia|]. apply (Hnone g Hg). lia.
Qed.

Lemma gen_mm_keys_ok fs start end_ i :
  features_ok fs -> start <= end_ -> passed fs i start ->
  exists idx, gen_mm_extra_hash_keys fs start end_ i = Ok (mm_keys fs start end_, idx) /\
    passed fs idx end_.
Proof.
  intros Hok Hse [Hi Hp]. unfold gen_mm_extra_hash_keys.
  destruct (py_get fs (-1)) as [last|] eqn:Elast.
  2: { rewrite py_get_last in Elast. apply last_None in Elast as ->.
       exists i. split; [done|]. split; [done|]. done. }
  assert (fs !! pred (length fs) = Some last) as Hlast.
  { by rewrite <- last_lookup, <- py_get_last. }
  destruct (range_end last <=? start) eqn:E; bools.
  - exists i. assert (forall j f, fs !! j = Some f -> range_end f <= start) as Hall.
    { intros j f Hf. apply lookup_lt_Some in Hf as Hlt.
      assert (range_end f <= range_end last); [|lia].
      eapply (features_ends_sorted fs Hok j (pred (length fs))); [lia|done|done]. }
    split.
    + unfold mm_keys. rewrite filter_none; [done|].
      intros f [j Hf]%list_elem_of_lookup [_ Ho]. specialize (Hall j f Hf). lia.
    + split; [done|]. intros j f Hf _. specialize (Hall j f Hf). lia.
  - rewrite (proj2 (Z.ltb_ge i 0)) by lia. simpl andb. cbv iota.
    destruct (mm_keys_loop_ok (take (Z.to_nat i) fs) (drop (Z.to_nat i) fs) start end_ [])
      as (idx & Hrun & Hpass).
    { by rewrite take_drop. }
    { done. }
    { intros f [j Hf]%list_elem_of_lookup. apply lookup_take_Some in Hf as [Hf Hj].
      assert (range_end f <= start); [|lia]. eapply Hp; [done|lia]. }
    rewrite take_drop in Hpass. exists idx. split; [|done].
    rewrite length_take in Hrun. replace (Z.of_nat (Z.to_nat i `min` length fs)) with i in Hrun by lia.
    rewrite Hrun. f_equal. f_equal. simpl. unfold mm_keys. f_equal.
    rewrite <- (take_drop (Z.to_nat i) fs) at 2. rewrite filter_app.
    rewrite (filter_none _ (take _ _)); [done|].
    intros f [j Hf]%list_elem_of_lookup [_ Ho]. apply lookup_take_Some in Hf as [Hf Hj].
    assert (range_end f <= start); [|lia]. eapply Hp; [done|lia].
Qed.

(** * The hasher computes the chained hash of every full block *)

Section hasher_correct.
Context (sha256 : bytes -> bytes) (hash_function : hash_input -> bytes) (NONE_HASH : bytes).
Context (bs : Z) (Hbs : 0 < bs).

(** Reference: the extra keys of block [k] from the features it overlaps. *)
Definition embeds_keys (r : Request) (start end_ : Z) : list extra_key :=
  match prompt_embeds r with
  | None => []
  | Some e => [KEmbeds (prompt_embeds_digest sha256 e start end_)]
  end.
Definition block_keys (r : Request) (start end_ : Z) : option (list extra_key) :=
  match gen_lora_extra_hash_keys r ++ mm_keys (mm_features r) start end_ ++
        cache_salt_keys r start ++ embeds_keys r start end_ with
  | [] => None
  | ks => Some ks
  end.

(** Reference: the hash of block [k] is chained to that of block [k - 1]. *)
Fixpoint block_hash_at (r : Request) (k : nat) : bytes :=
  hash_block_tokens hash_function NONE_HASH
    (match k with O => None | S k' => Some (block_hash_at r k') end)
    (py_slice (Z.of_nat k * bs) (Z.of_nat k * bs + bs) (all_token_ids r))
    (block_keys r (Z.of_nat k * bs) (Z.of_nat k * bs + bs)).

Definition num_full_blocks (r : Request) : nat := Z.to_nat (num_tokens r / bs).

(** The memo of prompt-embedding digests holds digests of the right slices. *)
Definition memo_ok (r : Request) : Prop :=
  forall e a b h, prompt_embeds r = Some e ->
    prompt_embeds_per_block_hashes r !! (a, b) = Some h -> h = prompt_embeds_digest sha256 e a b.

(** Only the memo changes. *)
Definition memo_step (r r' : Request) : Prop :=
  (exists m, r' = set_prompt_embeds_per_block_hashes m r) /\ memo_ok r'.

Lemma memo_step_refl r : memo_ok r -> memo_step r r.
Proof. intros H. split; [|done]. exists (prompt_embeds_per_block_hashes r). by destruct r. Qed.
Lemma memo_step_trans r1 r2 r3 : memo_step r1 r2 -> memo_step r2 r3 -> memo_step r1 r3.
Proof. intros [[m ->] _] [[m' ->] H]. split; [|done]. by exists m'. Qed.

Lemma block_hash_at_memo m r k :
  block_hash_at (set_prompt_embeds_per_block_hashes m r) k = block_hash_at r k.
Proof. induction k as [|k IH]; [done|]. simpl. by rewrite IH. Qed.

Lemma gen_embeds_ok r start end_ :
  memo_ok r ->
  wp (gen_prompt_embeds_extra_hash_keys sha256 start end_)
     (fun ks r' => ks = embeds_keys r start end_ /\ memo_step r r') r.
Proof.
  intros Hm. unfold gen_prompt_embeds_extra_hash_keys, embeds_keys. wp_simpl.
  destruct (prompt_embeds r) as [e|] eqn:Ee; wp_simpl; [|split; [done|by apply memo_step_refl]].
  destruct (_ !! _) as [h|] eqn:Eh; wp_simpl.
  - rewrite (Hm _ _ _ _ Ee Eh). split; [done|by apply memo_step_refl].
  - split; [done|]. split; [eauto|]. intros e' a b h He. simpl in He |- *.
    rewrite Ee in He. simplify_eq. rewrite lookup_insert. intros Hh.
    case_decide; simplify_eq; [done|]. by eapply Hm.
Qed.

Lemma generate_keys_ok r start end_ i :
  features_ok (mm_features r) -> memo_ok r -> start <= end_ -> passed (mm_features r) i start ->
  wp (generate_block_hash_extra_keys sha256 start end_ i)
     (fun ks r' => ks.1 = block_keys r start end_ /\ passed (mm_features r) ks.2 end_ /\
        memo_step r r') r.
Proof.
  intros Hf Hm Hse Hp. unfold generate_block_hash_extra_keys. wp_simpl.
  destruct (gen_mm_keys_ok _ _ _ _ Hf Hse Hp) as (idx & -> & Hp').
  eexists. split; [done|]. wp_simpl. eapply wp_mono; [by apply gen_embeds_ok|].
  intros ks r' [-> Hs]. unfold block_keys. simpl.
  destruct (gen_lora_extra_hash_keys r ++ _) eqn:E; wp_simpl; auto.
Qed.

(** The hash the loop starts from. *)
Definition prev_hash (r : Request) (k : nat) : option bytes :=
  match k with O => None | S k' => Some (block_hash_at r k') end.

Lemma block_hash_at_eq r k :
  block_hash_at r k = hash_block_tokens hash_function NONE_HASH (prev_hash r k)
    (py_slice (Z.of_nat k * bs) (Z.of_nat k * bs + bs) (all_token_ids r))
    (block_keys r (Z.of_nat k * bs) (Z.of_nat k * bs + bs)).
Proof. by destruct k. Qed.

Lemma full_blocks_lt r k : (k < num_full_blocks r)%nat <-> Z.of_nat k * bs + bs <= num_tokens r.
Proof.
  unfold num_full_blocks. pose proof (Z.div_mod (num_tokens r) bs ltac:(lia)).
  pose proof (Z.mod_pos_bound (num_tokens r) bs Hbs).
  assert (0 <= num_tokens r / bs) by (apply Z.div_pos; unfold num_tokens; lia).
  split; intros; [|assert (Z.of_nat k < num_tokens r / bs); [|lia]]; nia.
Qed.

Lemma hasher_loop_ok fuel r0 r k idx acc :
  features_ok (mm_features r0) -> memo_step r0 r -> passed (mm_features r0) idx (Z.of_nat k * bs) ->
  (num_full_blocks r0 <= k + fuel)%nat ->
  wp (hasher_loop sha256 hash_function NONE_HASH fuel bs (num_tokens r0) (Z.of_nat k * bs) idx
        (prev_hash r0 k) acc)
     (fun hs r' => hs = acc ++ map (block_hash_at r0) (seq k (num_full_blocks r0 - k)) /\
        memo_step r0 r') r.
Proof.
  intros Hf. revert r k idx acc. induction fuel as [|fuel IH]; intros r k idx acc Hs Hp Hn; simpl;
    destruct (Z.of_nat k * bs + bs >? num_tokens r0) eqn:E; bools.
  1, 3: assert (~ (k < num_full_blocks r0)%nat) by (rewrite full_blocks_lt; lia);
    replace (num_full_blocks r0 - k)%nat with 0%nat by lia; wp_simpl; by rewrite app_nil_r.
  { assert (k < num_full_blocks r0)%nat by (apply full_blocks_lt; lia). lia. }
  assert (k < num_full_blocks r0)%nat as Hk by (apply full_blocks_lt; lia).
  pose proof Hs as [[m ->] Hm]. wp_simpl.
  eapply wp_mono; [by apply generate_keys_ok; [..|lia|]|].
  intros ks r' (Hks & Hp' & Hs'). wp_simpl.
  pose proof Hs' as [[m' Hr'] _].
  replace (all_token_ids r') with (all_token_ids r0) by (by rewrite Hr').
  rewrite Hks. change (block_keys (set_prompt_embeds_per_block_hashes m r0) _ _) with
    (block_keys r0 (Z.of_nat k * bs) (Z.of_nat k * bs + bs)).
  rewrite <- block_hash_at_eq.
  replace (Z.of_nat k * bs + bs) with (Z.of_nat (S k) * bs) in * by lia.
  eapply wp_mono; [apply (IH r' (S k))|].
  - exact (memo_step_trans _ _ _ Hs Hs').
  - done.
  - lia.
  - intros hs r'' [-> ?]. split; [|done]. rewrite <- app_assoc. f_equal. simpl.
    replace (num_full_blocks r0 - k)%nat with (S (num_full_blocks r0 - S k)) by lia. done.
Qed.

(** The state of a request whose hashes are up to date. *)
Record hashes_ok (r : Request) : Prop := {
  ok_features : features_ok (mm_features r);
  ok_memo : memo_ok r;
  ok_hashes : block_hashes r = map (block_hash_at r) (seq 0 (length (block_hashes r)));
  ok_bound : Z.of_nat (length (block_hashes r)) * bs <= num_tokens r
}.

Lemma block_hash_at_set_hashes h r k : block_hash_at (set_block_hashes h r) k = block_hash_at r k.
Proof. induction k as [|k IH]; [done|]. simpl. by rewrite IH. Qed.

(** Tokens appended behind a full block do not change its hash. *)
Lemma block_hash_at_append ts os r k :
  Z.of_nat k * bs + bs <= num_tokens r ->
  block_hash_at (set_all_token_ids (all_token_ids r ++ ts) (set_output_token_ids os r)) k =
    block_hash_at r k.
Proof.
  unfold num_tokens. induction k as [|k IH]; intros Hk; rewrite !block_hash_at_eq;
    simpl all_token_ids; rewrite py_slice_app_l by nia; [done|].
  simpl prev_hash. by rewrite IH by lia.
Qed.

Definition hasher : block_hasher_t := Some (request_block_hasher sha256 hash_function NONE_HASH bs).

Lemma hasher_ok r :
  hashes_ok r ->
  wp (request_block_hasher sha256 hash_function NONE_HASH bs)
     (fun hs r' => hs = map (block_hash_at r)
          (seq (length (block_hashes r)) (num_full_blocks r - length (block_hashes r))) /\
        memo_step r r') r.
Proof.
  intros [Hf Hm Hh Hb]. unfold request_block_hasher. wp_simpl.
  set (k := length (block_hashes r)) in *.
  destruct (_ >? _) eqn:E; bools.
  { assert (~ (k < num_full_blocks r)%nat) by (rewrite full_blocks_lt; lia).
    replace (num_full_blocks r - k)%nat with 0%nat by lia. wp_simpl.
    split; [done|by apply memo_step_refl]. }
  assert (py_get (block_hashes r) (-1) = prev_hash r k) as ->.
  { rewrite py_get_last, Hh. fold k. destruct k as [|k']; [done|].
    rewrite seq_S, map_app. simpl map at 2. by rewrite last_snoc. }
  assert (forall idx, passed (mm_features r) idx (Z.of_nat k * bs) ->
    wp (hasher_loop sha256 hash_function NONE_HASH (length (all_token_ids r)) bs (num_tokens r)
          (Z.of_nat k * bs) idx (prev_hash r k) [])
     (fun hs r' => hs = map (block_hash_at r) (seq k (num_full_blocks r - k)) /\
        memo_step r r') r) as Hloop.
  { intros idx Hp. apply hasher_loop_ok; [done|by apply memo_step_refl|done|].
    unfold num_full_blocks, num_tokens.
    pose proof (Z.div_le_upper_bound (zlen (all_token_ids r)) bs (zlen (all_token_ids r)) Hbs
      ltac:(nia)). lia. }
  assert (passed (mm_features r) 0 (Z.of_nat k * bs)) as Hp0 by (split; [lia|intros; lia]).
  destruct (py_get (mm_features r) (-1)) as [last|]; [|by wp_simpl; apply Hloop].
  destruct (_ && _) eqn:E2; wp_simpl; [|by apply Hloop].
  destruct (window_lo_passed (mm_features r) (Z.of_nat k * bs) (Z.of_nat k * bs + bs) Hf)
    as (lo & hi & -> & Hp). exists lo. split; [done|]. by apply Hloop.
Qed.

Lemma update_block_hashes_ok r :
  hashes_ok r ->
  wp (update_block_hashes hasher) (fun _ r' =>
    hashes_ok r' /\ length (block_hashes r') = num_full_blocks r' /\
    all_token_ids r' = all_token_ids r /\ output_token_ids r' = output_token_ids r) r.
Proof.
  intros Hok. unfold update_block_hashes, hasher. wp_simpl.
  eapply wp_mono; [by apply hasher_ok|]. intros hs r' [-> [[m ->] Hm]]. wp_simpl.
  destruct Hok as [Hf _ Hh Hb].
  assert (length (block_hashes r) <= num_full_blocks r)%nat as Hle.
  { unfold num_full_blocks. pose proof (Z.div_le_lower_bound (num_tokens r) bs
      (zlen (block_hashes r)) Hbs ltac:(lia)). lia. }
  assert (length (block_hashes r ++ map (block_hash_at r) (seq (length (block_hashes r))
    (num_full_blocks r - length (block_hashes r)))) = num_full_blocks r) as Hlen.
  { rewrite length_app, length_map, length_seq. lia. }
  split_and!; [split|..]; simpl; try done.
  - rewrite Hlen. rewrite Hh at 1. rewrite <- map_app, <- seq_app.
    replace (length (block_hashes r) + (num_full_blocks r - length (block_hashes r)))%nat
      with (num_full_blocks r) by lia.
    apply map_ext. intros k. by rewrite block_hash_at_set_hashes, block_hash_at_memo.
  - rewrite Hlen. change (num_tokens (set_block_hashes _ _)) with (num_tokens r).
    destruct (num_full_blocks r) as [|n] eqn:En; [unfold num_tokens; lia|].
    assert (n < num_full_blocks r)%nat as Hn%full_blocks_lt by lia. lia.
Qed.

Lemma append_ok_hashes r ts :
  hashes_ok r ->
  wp (append_output_token_ids hasher ts) (fun _ r' =>
    hashes_ok r' /\ length (block_hashes r') = num_full_blocks r' /\
    all_token_ids r' = all_token_ids r ++ ts /\ output_token_ids r' = output_token_ids r ++ ts) r.
Proof.
  intros [Hf Hm Hh Hb]. unfold append_output_token_ids. wp_simpl.
  eapply wp_mono; [apply update_block_hashes_ok|].
  - split; simpl; try done.
    + rewrite Hh at 1. apply map_ext_in. intros k Hk%in_seq. symmetry.
      apply block_hash_at_append. nia.
    + unfold num_tokens in *. simpl. rewrite length_app. lia.
  - intros [] r' (? & ? & -> & ->). done.
Qed.

Lemma new_request_hashes a r :
  features_ok (default [] (a_mm_features a)) ->
  new_request a hasher = Ok r ->
  hashes_ok r /\ length (block_hashes r) = num_full_blocks r.
Proof.
  intros Hf Hr. unfold new_request in Hr.
  destruct (request_kind _ _ _) as [k|]; [|done].
  destruct (length_from_prompt_token_ids_or_embeds _ _) as [n|]; [|done].
  match type of Hr with context [update_block_hashes hasher ?x] => set (r0 := x) in Hr end.
  assert (hashes_ok r0) as H0.
  { split; [done|..]; simpl; try done.
    unfold num_tokens. lia. }
  apply update_block_hashes_ok in H0. unfold wp in H0.
  destruct (update_block_hashes hasher r0) as [[]]; naive_solver.
Qed.

(** A request that was created and then received [chunks] of output tokens. *)
Definition served (a : RequestArgs) (chunks : list (list Z)) (r : Request) : Prop :=
  features_ok (default [] (a_mm_features a)) /\
  exists r0, new_request a hasher = Ok r0 /\ for_ chunks (append_output_token_ids hasher) r0 = (Ok tt, r).

Lemma appends_ok_hashes r chunks :
  hashes_ok r -> length (block_hashes r) = num_full_blocks r ->
  wp (for_ chunks (append_output_token_ids hasher))
     (fun _ r' => hashes_ok r' /\ length (block_hashes r') = num_full_blocks r' /\
        all_token_ids r' = all_token_ids r ++ concat chunks) r.
Proof.
  intros H0 Hl0.
  apply (wp_for _ _ (fun dn _ r' => hashes_ok r' /\
    length (block_hashes r') = num_full_blocks r' /\
    all_token_ids r' = all_token_ids r ++ concat dn)); [by rewrite app_nil_r| |done].
  intros dn ts todo r' _ (Hok & _ & Ht). eapply wp_mono; [by apply append_ok_hashes|].
  intros [] r'' (? & ? & -> & _). rewrite Ht, concat_app. simpl.
  by rewrite app_nil_r, app_assoc.
Qed.

Lemma served_hash a chunks r k h :
  served a chunks r -> block_hashes r !! k = Some h ->
  Z.of_nat k * bs + bs <= num_tokens r /\ h = block_hash_at r k.
Proof.
  intros (Hf & r0 & Hr0 & Hr) Hk. destruct (new_request_hashes _ _ Hf Hr0) as [H0 Hl0].
  pose proof (appends_ok_hashes r0 chunks H0 Hl0) as H. unfold wp in H. rewrite Hr in H. destruct H as (Hok & _ & _).
  pose proof (lookup_lt_Some _ _ _ Hk) as Hlt. pose proof (ok_bound _ Hok). split; [nia|].
  rewrite (ok_hashes _ Hok), list_lookup_fmap, lookup_seq_lt in Hk by done. by injection Hk as <-.
Qed.

(** C13: equivalence. However the output tokens of a request arrive, the block
    hashes it accumulates are exactly the chained hashes of all its full blocks
    computed from the final token list, each block keyed by the LoRA adapter,
    every multi-modal item overlapping it, the salt and the digest of its
    embeddings; no hash is missing, stale or recomputed differently. *)
Theorem incremental_block_hashes (a : RequestArgs) (r : Request) (chunks : list (list Z)) :
  features_ok (default [] (a_mm_features a)) ->
  new_request a hasher = Ok r ->
  wp (for_ chunks (append_output_token_ids hasher))
     (fun _ r' => all_token_ids r' = all_token_ids r ++ concat chunks /\
        block_hashes r' = map (block_hash_at r') (seq 0 (num_full_blocks r'))) r.
Proof.
  intros Hf Hr. destruct (new_request_hashes _ _ Hf Hr) as [H0 Hl0].
  eapply wp_mono; [by apply appends_ok_hashes|]. intros [] r' (Hok & Hl & Ht).
  split; [done|]. rewrite <- Hl. apply Hok.
Qed.

(** ** The kinds of extra keys *)

Inductive key_kind := IsLora | IsMM | IsSalt | IsEmbeds.
#[export] Instance key_kind_eq_dec : EqDecision key_kind.
Proof. solve_decision. Defined.
Definition kind_of (k : extra_key) : key_kind :=
  match k with KLora _ _ => IsLora | KMM _ _ => IsMM | KSalt _ => IsSalt | KEmbeds _ => IsEmbeds end.

(** Selecting a kind from keys of one kind. *)
Lemma select_kind kd kd' (l : list extra_key) :
  Forall (fun k => kind_of k = kd') l ->
  filter (fun k => kind_of k = kd) l = if bool_decide (kd = kd') then l else [].
Proof.
  induction 1 as [|k l Hk _ IH]; [by case_bool_decide|]. rewrite filter_cons, Hk, IH.
  case_bool_decide; case_decide; congruence.
Qed.

Lemma block_keys_parts r1 r2 s e :
  block_keys r1 s e = block_keys r2 s e ->
  gen_lora_extra_hash_keys r1 = gen_lora_extra_hash_keys r2 /\
  mm_keys (mm_features r1) s e = mm_keys (mm_features r2) s e /\
  cache_salt_keys r1 s = cache_salt_keys r2 s /\ embeds_keys r1 s e = embeds_keys r2 s e.
Proof.
  set (l r := gen_lora_extra_hash_keys r ++ mm_keys (mm_features r) s e ++ cache_salt_keys r s ++ embeds_keys r s e).
  intros H. assert (l r1 = l r2) as Hl.
  { unfold block_keys in H. fold (l r1) (l r2) in H. destruct (l r1), (l r2); congruence. }
  assert (forall kd r, filter (fun k => kind_of k = kd) (l r) =
    match kd with IsLora => gen_lora_extra_hash_keys r | IsMM => mm_keys (mm_features r) s e
             | IsSalt => cache_salt_keys r s | IsEmbeds => embeds_keys r s e end) as Hsel.
  { intros kd r. unfold l. rewrite !filter_app, (select_kind kd IsLora), (select_kind kd IsMM), (select_kind kd IsSalt),
      (select_kind kd IsEmbeds).
    - destruct kd; simpl; by rewrite ?app_nil_r.
    - unfold embeds_keys. case_match; by repeat constructor.
    - unfold cache_salt_keys. repeat case_match; by repeat constructor.
    - apply Forall_map, Forall_true. done.
    - unfold gen_lora_extra_hash_keys. case_match; by repeat constructor. }
  pose proof (fun kd => f_equal (filter (fun k => kind_of k = kd)) Hl) as Hk.
  split_and!; [specialize (Hk IsLora)|specialize (Hk IsMM)|specialize (Hk IsSalt)|specialize (Hk IsEmbeds)];
    by rewrite !Hsel in Hk.
Qed.

(** ** Equal hashes mean equal prefixes *)

Lemma py_slice_take_succ (l : list Z) (k : nat) :
  Z.of_nat k * bs + bs <= zlen l ->
  take (Z.to_nat (Z.of_nat k * bs + bs)) l =
    take (Z.to_nat (Z.of_nat k * bs)) l ++ py_slice (Z.of_nat k * bs) (Z.of_nat k * bs + bs) l.
Proof.
  intros H. rewrite py_slice_in by lia.
  replace (Z.of_nat k * bs + bs - Z.of_nat k * bs) with bs by lia.
  rewrite Z2Nat.inj_add by lia. symmetry. apply take_take_drop.
Qed.

Section collision_free.
(** Collision freedom of the configured hash function on its inputs. *)
Context (hash_inj : forall x y, hash_function x = hash_function y -> x = y).
(** A digest is never the empty byte string. *)
Context (hash_nonempty : forall x, hash_function x <> []).
(** [NONE_HASH] was computed by [init_none_hash]. *)
Context (env : option string) (non_crypto : bool) (urandom_hex : string).
Context (none_hash_init : NONE_HASH = init_none_hash hash_function env non_crypto urandom_hex).

Lemma hash_block_tokens_inj p1 t1 e1 p2 t2 e2 :
  p1 <> Some [] -> p2 <> Some [] ->
  hash_block_tokens hash_function NONE_HASH p1 t1 e1 =
    hash_block_tokens hash_function NONE_HASH p2 t2 e2 ->
  default NONE_HASH p1 = default NONE_HASH p2 /\ t1 = t2 /\ e1 = e2.
Proof.
  intros H1 H2 H. unfold hash_block_tokens in H. apply hash_inj in H.
  destruct p1 as [[|]|], p2 as [[|]|]; naive_solver.
Qed.

Lemma block_hash_is_hash r k : exists p t e, block_hash_at r k = hash_function (HBlock p t e).
Proof. rewrite block_hash_at_eq. unfold hash_block_tokens. eauto. Qed.

Lemma prev_hash_nonempty r k : prev_hash r k <> Some [].
Proof.
  destruct k as [|k]; [done|]. simpl. intros [= H].
  destruct (block_hash_is_hash r k) as (p & t & e & E). rewrite E in H. by eapply hash_nonempty.
Qed.

Lemma fingerprint_same_length r1 r2 k1 k2 :
  block_hash_at r1 k1 = block_hash_at r2 k2 -> k1 = k2.
Proof.
  revert k2. induction k1 as [|k1 IH]; intros k2 H; rewrite !block_hash_at_eq in H;
    apply hash_block_tokens_inj in H as (Hp & _); try apply prev_hash_nonempty;
    destruct k2 as [|k2]; simpl in Hp; try done.
  - destruct (block_hash_is_hash r2 k2) as (p & t & e & E).
    rewrite E, none_hash_init in Hp. by apply hash_inj in Hp.
  - destruct (block_hash_is_hash r1 k1) as (p & t & e & E).
    rewrite E, none_hash_init in Hp. by apply hash_inj in Hp.
  - f_equal. by apply IH.
Qed.

Lemma chained_hash_prefix (r1 r2 : Request) (k : nat) :
  Z.of_nat k * bs + bs <= num_tokens r1 ->
  Z.of_nat k * bs + bs <= num_tokens r2 ->
  block_hash_at r1 k = block_hash_at r2 k ->
  take (Z.to_nat (Z.of_nat k * bs + bs)) (all_token_ids r1) =
    take (Z.to_nat (Z.of_nat k * bs + bs)) (all_token_ids r2) /\
  forall j, (j <= k)%nat ->
    block_keys r1 (Z.of_nat j * bs) (Z.of_nat j * bs + bs) =
    block_keys r2 (Z.of_nat j * bs) (Z.of_nat j * bs + bs).
Proof.
  unfold num_tokens. intros H1 H2 H. induction k as [|k IH]; rewrite !block_hash_at_eq in H;
    apply hash_block_tokens_inj in H as (Hp & Ht & He); try apply prev_hash_nonempty;
    rewrite !py_slice_take_succ, Ht by done.
  - split; [done|]. intros j Hj. by assert (j = 0%nat) as -> by lia.
  - destruct IH as [IHt IHe]; [lia|lia|done|].
    replace (Z.of_nat (S k) * bs) with (Z.of_nat k * bs + bs) in * by lia.
    rewrite IHt. split; [done|]. intros j Hj.
    destruct (decide (j = S k)) as [->|]; [|apply IHe; lia].
    by replace (Z.of_nat (S k) * bs) with (Z.of_nat k * bs + bs) by lia.
Qed.

(** C21: safety of prefix sharing.  With a collision-free hash function, take two
    requests, each created and then fed any output tokens, whose hash lists were
    built along the way by the request's block hasher.  When the same block hash
    is stored at position [k1] of the one list and [k2] of the other, the
    positions agree, the whole token prefixes up to the end of that block agree,
    and for every block of the prefix the two requests have the same LoRA adapter,
    the same multi-modal items overlapping the block at the same offsets, the same
    salt and the same digest of prompt embeddings. *)
Theorem equal_hash_equal_prefix a1 a2 chunks1 chunks2 (r1 r2 : Request) (k1 k2 : nat) (h : bytes) :
  served a1 chunks1 r1 -> served a2 chunks2 r2 ->
  block_hashes r1 !! k1 = Some h -> block_hashes r2 !! k2 = Some h ->
  k1 = k2 /\
  take (Z.to_nat (Z.of_nat k1 * bs + bs)) (all_token_ids r1) =
    take (Z.to_nat (Z.of_nat k1 * bs + bs)) (all_token_ids r2) /\
  forall j, (j <= k1)%nat -> let start := Z.of_nat j * bs in let end_ := start + bs in
    gen_lora_extra_hash_keys r1 = gen_lora_extra_hash_keys r2 /\
    mm_keys (mm_features r1) start end_ = mm_keys (mm_features r2) start end_ /\
    cache_salt_keys r1 start = cache_salt_keys r2 start /\
    embeds_keys r1 start end_ = embeds_keys r2 start end_.
Proof.
  intros S1 S2 K1 K2. destruct (served_hash _ _ _ _ _ S1 K1) as [L1 ->], (served_hash _ _ _ _ _ S2 K2) as [L2 E].
  assert (k1 = k2) as <- by by eapply fingerprint_same_length.
  destruct (chained_hash_prefix r1 r2 k1 L1 L2 E) as [Ht Hk]. split_and!; [done|done|].
  intros j Hj. by apply block_keys_parts, Hk.
Qed.

End collision_free.

End hasher_correct.

(** * A collision-free hash function and sample requests *)

#[export] Instance extra_key_countable : Countable extra_key.
Proof.
  refine (inj_countable'
    (fun k => match k with
              | KMM i o => inl (inl (i, o)) | KLora n p => inl (inr (n, p))
              | KSalt s => inr (inl s) | KEmbeds d => inr (inr d) end)
    (fun x => match x with
              | inl (inl (i, o)) => KMM i o | inl (inr (n, p)) => KLora n p
              | inr (inl s) => KSalt s | inr (inr d) => KEmbeds d end) _).
  by intros [].
Defined.

#[export] Instance hash_input_eq_dec : EqDecision hash_input.
Proof. solve_decision. Defined.
#[export] Instance hash_input_countable : Countable hash_input.
Proof.
  refine (inj_countable'
    (fun k => match k with HSeed s => inl s | HBlock p t e => inr (p, t, e) end)
    (fun x => match x with inl s => HSeed s | inr (p, t, e) => HBlock p t e end) _).
  by intros [].
Defined.

Fixpoint pos_bytes (p : positive) : bytes :=
  match p with
  | xH => [Byte.x02]
  | xO p => Byte.x00 :: pos_bytes p
  | xI p => Byte.x01 :: pos_bytes p
  end.
Definition injective_hash (x : hash_input) : bytes := pos_bytes (encode x).

Lemma pos_bytes_inj p q : pos_bytes p = pos_bytes q -> p = q.
Proof.
  revert q. induction p; intros [] H; simplify_eq/=; try done; f_equal; auto.
Qed.
Lemma injective_hash_inj x y : injective_hash x = injective_hash y -> x = y.
Proof. intros H%pos_bytes_inj. by apply encode_inj. Qed.
Lemma injective_hash_nonempty x : injective_hash x <> [].
Proof. unfold injective_hash. by destruct (encode x). Qed.

Definition sample_feature (id : string) (off len : Z) : MultiModalFeatureSpec :=
  mkFeature id (mkRange off len None).
Definition sample_args (ids : list Z) (fs : list MultiModalFeatureSpec) : RequestArgs :=
  mkArgs "r" (Some ids) (Some (mkSampling (Some 16) 0 (Some 0) None None None None None)) None
    0 0 None None (Some fs) None (Some "salt"%string) 0 false None None false 0.
Definition sample_features : list MultiModalFeatureSpec :=
  [sample_feature "img1" 1 3; sample_feature "img2" 4 1].

Lemma sample_features_ok : features_ok sample_features.
Proof.
  split.
  - intros f Hf. unfold sample_features in Hf.
    repeat (apply elem_of_cons in Hf as [->|Hf]; [simpl; lia|]). by apply not_elem_of_nil in Hf.
  - intros [|[|i]] [|[|j]] f g Hij Hf Hg; simplify_eq/=; unfold range_end; simpl; lia.
Qed.

Definition sample_none : bytes := init_none_hash injective_hash None false "".
Definition sample_hasher : block_hasher_t := hasher (fun b => b) injective_hash sample_none 2.
Lemma incremental_block_hashes_witness :
  exists r, new_request (sample_args [7; 8; 9] sample_features) sample_hasher = Ok r /\
  wp (for_ [[10; 11]; [12]] (append_output_token_ids sample_hasher))
     (fun _ r' => all_token_ids r' = [7; 8; 9; 10; 11; 12] /\
        block_hashes r' = map (block_hash_at (fun b => b) injective_hash sample_none 2 r')
          (seq 0 3)) r.
Proof.
  destruct (new_request (sample_args [7; 8; 9] sample_features) sample_hasher) as [r|] eqn:E;
    [|by vm_compute in E].
  exists r. split; [done|].
  eapply wp_mono; [eapply (incremental_block_hashes (fun b => b) injective_hash sample_none 2
    ltac:(lia) (sample_args [7; 8; 9] sample_features) r [[10; 11]; [12]]); [|exact E]|].
  - exact sample_features_ok.
  - intros [] r' [Ht Hh].
    assert (all_token_ids r = [7; 8; 9]) as Er.
    { clear -E. vm_compute in E. by injection E as <-. }
    rewrite Er in Ht. simpl in Ht. split; [done|].
    rewrite Hh. unfold num_full_blocks, num_tokens. by rewrite Ht.
Defined.

(** The requests these chunks of output make of their arguments. *)
Definition sample_served (a : RequestArgs) (chunks : list (list Z)) : option Request :=
  match new_request a sample_hasher with
  | Ok r0 => match for_ chunks (append_output_token_ids sample_hasher) r0 with (Ok _, r) => Some r | _ => None end
  | Raise _ => None
  end.
Lemma sample_served_ok ids chunks r :
  sample_served (sample_args ids sample_features) chunks = Some r ->
  served (fun b => b) injective_hash sample_none 2 (sample_args ids sample_features) chunks r.
Proof.
  unfold sample_served. intros H. split; [exact sample_features_ok|].
  destruct (new_request _ sample_hasher) as [r0|] eqn:E; [|done]. exists r0. split; [exact E|].
  destruct (for_ chunks _ r0) as [[[]|] r'] eqn:E'; [|done]. injection H as <-. reflexivity.
Qed.

(** The hypotheses of the collision theorem hold for the injective hash above:
    the second block of a request that was given the tokens of another's output
    as its prompt. *)
Lemma equal_hash_equal_prefix_witness :
  exists r1 r2,
    served (fun b => b) injective_hash sample_none 2 (sample_args [7; 8; 9] sample_features) [[10]] r1 /\
    served (fun b => b) injective_hash sample_none 2 (sample_args [7; 8; 9; 10; 2] sample_features) [] r2 /\
    length (block_hashes r1) = 2%nat /\
    take 4 (all_token_ids r1) = take 4 (all_token_ids r2) /\
    mm_keys (mm_features r1) 2 4 = mm_keys (mm_features r2) 2 4.
Proof.
  destruct (sample_served (sample_args [7; 8; 9] sample_features) [[10]]) as [r1|] eqn:E1;
    [|assert (is_Some (sample_served (sample_args [7; 8; 9] sample_features) [[10]])) as [? ?]
        by (apply is_Some_alt; vm_compute; exact I); congruence].
  destruct (sample_served (sample_args [7; 8; 9; 10; 2] sample_features) []) as [r2|] eqn:E2;
    [|assert (is_Some (sample_served (sample_args [7; 8; 9; 10; 2] sample_features) [])) as [? ?]
        by (apply is_Some_alt; vm_compute; exact I); congruence].
  assert (bool_decide (
    sample_served (sample_args [7; 8; 9] sample_features) [[10]] ≫= (fun r => block_hashes r !! 1%nat) =
    sample_served (sample_args [7; 8; 9; 10; 2] sample_features) [] ≫= (fun r => block_hashes r !! 1%nat)) = true) as Hh
    by (vm_compute; reflexivity).
  assert (fmap (fun r => length (block_hashes r)) (sample_served (sample_args [7; 8; 9] sample_features) [[10]]) = Some 2%nat)
    as Hl by (vm_compute; reflexivity).
  apply bool_decide_eq_true in Hh. rewrite E1, E2 in Hh. rewrite E1 in Hl. simpl in Hh, Hl. injection Hl as Hl.
  destruct (lookup_lt_is_Some_2 (block_hashes r1) 1%nat) as [h Hh1]; [lia|].
  destruct (equal_hash_equal_prefix (fun b => b) injective_hash sample_none 2 ltac:(lia)
    injective_hash_inj injective_hash_nonempty None false "" eq_refl _ _ _ _ r1 r2 1 1 h
    (sample_served_ok _ _ _ E1) (sample_served_ok _ _ _ E2) Hh1 ltac:(congruence)) as (_ & Ht & Hk).
  exists r1, r2. split; [exact (sample_served_ok _ _ _ E1)|]. split; [exact (sample_served_ok _ _ _ E2)|].
  split; [exact Hl|]. split; [exact Ht|]. exact (proj1 (proj2 (Hk 1%nat ltac:(lia)))).
Defined.
