(* ===== verification/HashMap.v ===== *)
(** [BlockHashToBlockMap] ([vllm/v1/core/block_pool.py]): the prefix-cache index
    from keys to the blocks that hold them, with its union representation of
    one block or an insertion-ordered dict of blocks.  The theorems relate
    every operation to the relation "[key] is held by block [id]". *)
From Stdlib Require Import ZArith Lia.
From stdpp Require Import base list numbers gmap.
From S2P Require Import Prelude.

(** [KVCacheBlock | dict[int, KVCacheBlock]]; the dict is keyed by the id of
    the block it stores, so its keys in insertion order determine it. *)
Inductive cached_blocks :=
| Single (block : nat)
| Many (blocks : list nat).

Abbreviation BlockHashToBlockMap := (gmap bytes cached_blocks).

Module HashMap.

(** [d[id] = block]: an existing key keeps its place. *)
Definition dict_insert (id : nat) (d : list nat) : list nat :=
  if decide (id ∈ d) then d else d ++ [id].
(** [d.pop(id, None)] *)
Definition dict_pop (id : nat) (d : list nat) : list nat := filter (fun x => x <> id) d.

Definition get_one_block (key : bytes) (m : BlockHashToBlockMap) : outcome (option nat) :=
  match m !! key with
  | None => Ok None
  | Some (Single b) => Ok (Some b)
  | Some (Many []) => Raise StopIteration
  | Some (Many (b :: _)) => Ok (Some b)
  end.

Definition contain (key : bytes) (block_id : nat) (m : BlockHashToBlockMap) : bool :=
  match m !! key with
  | None => false
  | Some (Single b) => bool_decide (b = block_id)
  | Some (Many bs) => bool_decide (block_id ∈ bs)
  end.

Definition insert (key : bytes) (block : nat) (m : BlockHashToBlockMap) : BlockHashToBlockMap :=
  match m !! key with
  | None => <[key := Single block]> m
  | Some (Single b) => <[key := Many (dict_insert block [b])]> m
  | Some (Many bs) => <[key := Many (dict_insert block bs)]> m
  end.

Definition pop (key : bytes) (block_id : nat) (m : BlockHashToBlockMap) :
    option nat * BlockHashToBlockMap :=
  let m' := delete key m in
  match m !! key with
  | None => (None, m')
  | Some (Single b) =>
      if decide (b = block_id) then (Some b, m') else (None, <[key := Single b]> m')
  | Some (Many bs) =>
      let block := if decide (block_id ∈ bs) then Some block_id else None in
      let bs' := dict_pop block_id bs in
      (block, match bs' with [] => m' | _ => <[key := Many bs']> m' end)
  end.

Definition len (m : BlockHashToBlockMap) : nat := size m.

(** * The index as a relation *)

Definition holders (c : option cached_blocks) : list nat :=
  match c with
  | None => []
  | Some (Single b) => [b]
  | Some (Many bs) => bs
  end.
Definition blocks_of (m : BlockHashToBlockMap) (key : bytes) : list nat := holders (m !! key).

(** Stored dicts are never empty and have no duplicate keys. *)
Definition wf (m : BlockHashToBlockMap) : Prop :=
  forall key c, m !! key = Some c -> holders (Some c) <> [] /\ NoDup (holders (Some c)).

Lemma wf_empty : wf ∅.
Proof. intros key c H. by rewrite lookup_empty in H. Qed.

Lemma wf_nodup m key : wf m -> NoDup (blocks_of m key).
Proof.
  intros Hm. unfold blocks_of. destruct (m !! key) eqn:E; [by eapply Hm|constructor].
Qed.

Lemma wf_insert m key c :
  wf m -> holders (Some c) <> [] -> NoDup (holders (Some c)) -> wf (<[key := c]> m).
Proof.
  intros Hm H1 H2 k c'. rewrite lookup_insert. case_decide; [|apply Hm]. by intros [= <-].
Qed.

Lemma wf_delete m key : wf m -> wf (delete key m).
Proof. intros Hm k c. rewrite lookup_delete_Some. intros [_ H]. by eapply Hm. Qed.

Lemma elem_of_dict_insert id x d : x ∈ dict_insert id d <-> x = id \/ x ∈ d.
Proof. unfold dict_insert. case_decide; set_solver. Qed.
Lemma NoDup_dict_insert id d : NoDup d -> NoDup (dict_insert id d).
Proof.
  intros Hd. unfold dict_insert. case_decide; [done|].
  apply NoDup_app. split_and!; [done|set_solver|apply NoDup_singleton].
Qed.
Lemma dict_insert_nonempty id d : dict_insert id d <> [].
Proof. unfold dict_insert. case_decide; destruct d; set_solver. Qed.
Lemma elem_of_dict_pop id x d : x ∈ dict_pop id d <-> x <> id /\ x ∈ d.
Proof. unfold dict_pop. by rewrite list_elem_of_filter. Qed.

(** ** [get_one_block] and [contain] *)

Lemma get_one_block_ok m key :
  wf m -> get_one_block key m = Ok (head (blocks_of m key)).
Proof.
  intros Hm. unfold get_one_block, blocks_of.
  destruct (m !! key) as [[b|bs]|] eqn:E; [done| |done].
  destruct (Hm _ _ E) as [Hne _]. by destruct bs.
Qed.

Lemma contain_ok m key id : contain key id m = bool_decide (id ∈ blocks_of m key).
Proof.
  unfold contain, blocks_of. destruct (m !! key) as [[b|bs]|]; cbn [holders].
  - apply bool_decide_ext. rewrite list_elem_of_singleton. naive_solver.
  - done.
  - by rewrite bool_decide_eq_false_2 by apply not_elem_of_nil.
Qed.

(** ** [insert] *)

Lemma blocks_of_insert m key k id :
  blocks_of (insert key id m) k =
    if decide (k = key) then dict_insert id (blocks_of m key) else blocks_of m k.
Proof.
  unfold insert, blocks_of. case_decide as Hk; [subst k|];
    destruct (m !! key) as [[b|bs]|]; rewrite ?lookup_insert_eq, ?lookup_insert_ne by done; done.
Qed.

Lemma insert_wf m key id : wf m -> wf (insert key id m).
Proof.
  intros Hm. unfold insert. destruct (m !! key) as [[b|bs]|] eqn:E; apply wf_insert; simpl;
    try done; try apply NoDup_singleton; try apply dict_insert_nonempty; apply NoDup_dict_insert.
  - apply NoDup_singleton.
  - by destruct (Hm _ _ E).
Qed.

(** ** [pop] *)

Lemma pop_result m key id :
  (pop key id m).1 = if decide (id ∈ blocks_of m key) then Some id else None.
Proof.
  unfold pop, blocks_of. destruct (m !! key) as [[b|bs]|]; cbn [holders fst].
  - case_decide as H; [subst; by rewrite decide_True by set_solver|].
    by rewrite decide_False by set_solver.
  - done.
  - by rewrite decide_False by apply not_elem_of_nil.
Qed.

Lemma blocks_of_pop m key k id :
  blocks_of (pop key id m).2 k =
    if decide (k = key) then dict_pop id (blocks_of m key) else blocks_of m k.
Proof.
  unfold pop, blocks_of. destruct (m !! key) as [[b|bs]|] eqn:E; cbn [holders].
  - unfold dict_pop. destruct (decide (b = id)) as [Hb|Hb]; cbn [fst snd].
    + rewrite filter_cons_False by naive_solver. case_decide; [subst k; by rewrite lookup_delete_eq|].
      by rewrite lookup_delete_ne.
    + rewrite filter_cons_True by done. rewrite insert_delete_eq.
      case_decide; [subst k; by rewrite lookup_insert_eq|by rewrite lookup_insert_ne].
  - cbn [fst snd]. destruct (dict_pop id bs) as [|x xs] eqn:Ed.
    + case_decide; [subst k; by rewrite lookup_delete_eq|by rewrite lookup_delete_ne].
    + rewrite insert_delete_eq.
      case_decide; [subst k; by rewrite lookup_insert_eq|by rewrite lookup_insert_ne].
  - cbn [snd]. case_decide; [subst k; by rewrite lookup_delete_eq|by rewrite lookup_delete_ne].
Qed.

Lemma pop_wf m key id : wf m -> wf (pop key id m).2.
Proof.
  intros Hm. unfold pop. destruct (m !! key) as [[b|bs]|] eqn:E.
  - case_decide; simpl; [by apply wf_delete|].
    apply wf_insert; [by apply wf_delete|done|apply NoDup_singleton].
  - simpl. destruct (dict_pop id bs) as [|x xs] eqn:Ed; [by apply wf_delete|].
    apply wf_insert; [by apply wf_delete|done|].
    simpl. rewrite <- Ed. apply NoDup_filter. by destruct (Hm _ _ E).
  - by apply wf_delete.
Qed.

(** ** Sequences of operations *)

Inductive op := Insert (key : bytes) (id : nat) | Pop (key : bytes) (id : nat).
Definition step (m : BlockHashToBlockMap) (o : op) : BlockHashToBlockMap :=
  match o with Insert k i => insert k i m | Pop k i => (pop k i m).2 end.

(** Reference: a total table from keys to lists of distinct blocks. *)
Definition table_step (t : bytes -> list nat) (o : op) : bytes -> list nat := fun k =>
  match o with
  | Insert key i => if decide (k = key) then dict_insert i (t k) else t k
  | Pop key i => if decide (k = key) then dict_pop i (t k) else t k
  end.

(** C27: the index refines a table from keys to insertion-ordered lists of
    distinct blocks. Starting from the empty map, after any sequence of inserts
    and pops, [get_one_block] never fails and returns the first block of the
    key's list (None exactly when the list is empty), [contain] is membership
    in that list, a [pop] returns the block exactly when it was held, and a
    key has an entry exactly when its list is not empty (no empty dict is left
    behind). *)
Theorem hash_map_refines_table (ops : list op) (key : bytes) (id : nat) :
  let m := foldl step ∅ ops in
  let t := foldl table_step (fun _ => []) ops in
  NoDup (t key) /\
  get_one_block key m = Ok (head (t key)) /\
  contain key id m = bool_decide (id ∈ t key) /\
  (pop key id m).1 = (if decide (id ∈ t key) then Some id else None) /\
  (is_Some (m !! key) <-> t key <> []).
Proof.
  intros m t.
  assert (wf m /\ forall k, blocks_of m k = t k) as [Hwf Hk].
  { subst m t. induction ops as [|o ops [IHw IHk]] using rev_ind.
    { split; [apply wf_empty|]. intros k. unfold blocks_of. cbn [foldl]. by rewrite lookup_empty. }
    rewrite !foldl_app. simpl. destruct o as [k' i|k' i]; simpl; split;
      try (by apply insert_wf); try (by apply pop_wf); intros k;
      rewrite ?blocks_of_insert, ?blocks_of_pop; case_decide; subst; by rewrite <- ?IHk. }
  rewrite <- Hk, get_one_block_ok, contain_ok, pop_result by done. split_and!; try done.
  - by apply wf_nodup.
  - unfold blocks_of. destruct (m !! key) as [c|] eqn:E; [|by split; [intros []|]].
    split; [intros _; by eapply Hwf|done].
Qed.

End HashMap.
