(* ===== verification/BlockPool.v ===== *)
(** [BlockPool] ([vllm/v1/core/block_pool.py]): allocation, reference counting,
    caching and eviction of KV-cache blocks on top of the free queue and the
    prefix-cache index.  The invariant ties the three together: free blocks are
    exactly the unreferenced ones, and the index holds exactly the hashes the
    blocks carry. *)
From Stdlib Require Import ZArith Lia Strings.String.
From stdpp Require Import base list numbers gmap strings.
From S2P Require Import Prelude BlockQueue Request BlockHash HashMap.
Open Scope Z_scope.

(** * Events and collaborators *)

Inductive KVCacheEvent :=
| BlockStored (block_hashes : option (list ExternalBlockHash))
    (parent_block_hash : option ExternalBlockHash) (token_ids : list Z) (block_size : Z)
    (lora_id : option Z) (medium : string) (lora_name : option string)
    (extra_keys : option (list (option (list event_key)))) (group_idx : Z)
    (session_id : option string)
| BlockRemoved (block_hashes : list ExternalBlockHash) (medium : string) (group_idx : Z)
| AllBlocksCleared.

(** The calls the pool makes on its metrics collector, in order. *)
Inductive metric_call :=
| OnAllocated (block : nat) | OnAccessed (block : nat) | OnEvicted (block : nat) | OnReset.

(** [reuse_watchers] is an insertion-ordered dict from block ids to callbacks
    (identified by a number); [reuse_calls] records the calls made on them. *)
Record BlockPool := mkPool {
  num_gpu_blocks : Z;
  medium : string;
  enable_caching : bool;
  hash_block_size : Z;
  free_block_queue : FreeKVCacheBlockQueue;
  cached_block_hash_to_block : BlockHashToBlockMap;
  cached_block_hashes_by_block : gmap nat (gset bytes);
  null_block : nat;
  enable_kv_cache_events : bool;
  kv_event_queue : list KVCacheEvent;
  metrics_collector : option (list metric_call);
  reuse_watchers : list (nat * nat);
  reuse_calls : list (nat * nat)
}.

Definition set_queue (q : FreeKVCacheBlockQueue) (p : BlockPool) : BlockPool :=
  mkPool (num_gpu_blocks p) (medium p) (enable_caching p) (hash_block_size p) q
    (cached_block_hash_to_block p) (cached_block_hashes_by_block p) (null_block p)
    (enable_kv_cache_events p) (kv_event_queue p) (metrics_collector p)
    (reuse_watchers p) (reuse_calls p).
Definition set_index (m : BlockHashToBlockMap) (p : BlockPool) : BlockPool :=
  mkPool (num_gpu_blocks p) (medium p) (enable_caching p) (hash_block_size p) (free_block_queue p)
    m (cached_block_hashes_by_block p) (null_block p)
    (enable_kv_cache_events p) (kv_event_queue p) (metrics_collector p)
    (reuse_watchers p) (reuse_calls p).
Definition set_by_block (m : gmap nat (gset bytes)) (p : BlockPool) : BlockPool :=
  mkPool (num_gpu_blocks p) (medium p) (enable_caching p) (hash_block_size p) (free_block_queue p)
    (cached_block_hash_to_block p) m (null_block p)
    (enable_kv_cache_events p) (kv_event_queue p) (metrics_collector p)
    (reuse_watchers p) (reuse_calls p).
Definition set_kv_events (e : list KVCacheEvent) (p : BlockPool) : BlockPool :=
  mkPool (num_gpu_blocks p) (medium p) (enable_caching p) (hash_block_size p) (free_block_queue p)
    (cached_block_hash_to_block p) (cached_block_hashes_by_block p) (null_block p)
    (enable_kv_cache_events p) e (metrics_collector p)
    (reuse_watchers p) (reuse_calls p).
Definition set_metrics (c : option (list metric_call)) (p : BlockPool) : BlockPool :=
  mkPool (num_gpu_blocks p) (medium p) (enable_caching p) (hash_block_size p) (free_block_queue p)
    (cached_block_hash_to_block p) (cached_block_hashes_by_block p) (null_block p)
    (enable_kv_cache_events p) (kv_event_queue p) c
    (reuse_watchers p) (reuse_calls p).
Definition set_watchers (w c : list (nat * nat)) (p : BlockPool) : BlockPool :=
  mkPool (num_gpu_blocks p) (medium p) (enable_caching p) (hash_block_size p) (free_block_queue p)
    (cached_block_hash_to_block p) (cached_block_hashes_by_block p) (null_block p)
    (enable_kv_cache_events p) (kv_event_queue p) (metrics_collector p) w c.

Definition blk (p : BlockPool) (id : nat) : KVCacheBlock :=
  get_block (free_block_queue p) (Block id).
Definition upd_blk (f : KVCacheBlock -> KVCacheBlock) (id : nat) (p : BlockPool) : BlockPool :=
  set_queue (upd_block f (Block id) (free_block_queue p)) p.
Definition add_ref (d : Z) (b : KVCacheBlock) : KVCacheBlock := with_ref_cnt (ref_cnt b + d) b.
Definition on_queue {A} (m : M FreeKVCacheBlockQueue A) : M BlockPool A :=
  zoom free_block_queue set_queue m.
Definition emit (e : KVCacheEvent) (p : BlockPool) : BlockPool :=
  set_kv_events (kv_event_queue p ++ [e]) p.
(** [if self.metrics_collector: self.metrics_collector.call(...)] *)
Definition metric (c : metric_call) (p : BlockPool) : BlockPool :=
  set_metrics (option_map (fun l => l ++ [c]) (metrics_collector p)) p.

(** A block taken from the free list; a sentinel is never one
    ([FreeQueue.popleft_n_ok]). *)
Definition as_block (l : loc) : outcome nat :=
  match l with Block n => Ok n | _ => Raise RuntimeError end.
Fixpoint as_blocks (ls : list loc) : outcome (list nat) :=
  match ls with
  | [] => Ok []
  | l :: ls => match as_block l, as_blocks ls with
               | Ok n, Ok ns => Ok (n :: ns)
               | Raise e, _ | _, Raise e => Raise e
               end
  end.

Module Pool.
Section pool.
(** [VLLM_KV_EVENTS_USE_INT_BLOCK_HASHES] and the digest of prompt embeddings. *)
Context (use_int : bool) (sha256 : bytes -> bytes).

Definition init (num_gpu_blocks : Z) (enable_caching : bool) (hash_block_size : Z)
    (enable_kv_cache_events : bool) (metrics : bool) (medium : string) : outcome BlockPool :=
  if negb (num_gpu_blocks >? 0) then Raise AssertionError else
  match (FreeQueue.init (seq 0 (Z.to_nat num_gpu_blocks)) ;;
         let! null := FreeQueue.popleft in
         modify (upd_block (with_null true) null) ;;
         lift (as_block null)) FreeQueue.fresh_queue with
  | (Raise e, _) => Raise e
  | (Ok null, q) =>
      Ok (mkPool num_gpu_blocks medium enable_caching hash_block_size q ∅ ∅ null
            enable_kv_cache_events [] (if metrics then Some [] else None) [] [])
  end.

Definition get_num_free_blocks (p : BlockPool) : Z := num_free_blocks (free_block_queue p).

Fixpoint get_cached_block (block_hash : bytes) (kv_cache_group_ids : list Z) (p : BlockPool) :
    outcome (option (list nat)) :=
  match kv_cache_group_ids with
  | [] => Ok (Some [])
  | group_id :: rest =>
      match make_block_hash_with_group_id block_hash group_id with
      | Raise e => Raise e
      | Ok key =>
          match HashMap.get_one_block key (cached_block_hash_to_block p) with
          | Raise e => Raise e
          | Ok None => Ok None
          | Ok (Some block) =>
              match get_cached_block block_hash rest p with
              | Ok (Some blocks) => Ok (Some (block :: blocks))
              | other => other
              end
          end
      end
  end.

(** [_remove_cached_block_hashes]: pop the index entries one by one. *)
Definition pop_hash (id : nat) (removed : list bytes) (h : bytes) : M BlockPool (list bytes) :=
  let! m := gets cached_block_hash_to_block in
  let '(found, m') := HashMap.pop h id m in
  modify (set_index m') ;;
  ret (match found with Some _ => removed ++ [h] | None => removed end).

(** The extra hashes are a Python set, whose iteration order is unspecified; the
    model fixes it to that of [elements].  It shows only in the order of the
    removal events. *)
Definition remove_cached_block_hashes (id : nat) : M BlockPool (list bytes) :=
  let! b := gets (fun p => blk p id) in
  let! extra := gets (fun p => cached_block_hashes_by_block p !! id) in
  modify (fun p => set_by_block (delete id (cached_block_hashes_by_block p)) p) ;;
  let hashes := (match block_hash b with Some h => [h] | None => [] end) ++
                (match extra with Some s => elements s | None => [] end) in
  match hashes with
  | [] => ret []
  | _ =>
      let! removed := fold_ hashes [] (pop_hash id) in
      modify (upd_blk (with_hash None None) id) ;;
      ret removed
  end.

Definition block_removed_event (p : BlockPool) (h : bytes) : KVCacheEvent :=
  BlockRemoved [maybe_convert_block_hash use_int (get_block_hash h)] (medium p) (get_group_id h).

Definition emit_block_removed_events (block_hashes : list bytes) : M BlockPool unit :=
  let! enabled := gets enable_kv_cache_events in
  if negb enabled then ret tt else
  for_ block_hashes (fun h => modify (fun p => emit (block_removed_event p h) p)).

Definition insert_block_hash (key : bytes) (id : nat) (num_tokens : option Z) : M BlockPool unit :=
  let! b := gets (fun p => blk p id) in
  if bool_decide (block_hash b = Some key) then ret tt else
  let! known := gets (fun p => HashMap.contain key id (cached_block_hash_to_block p)) in
  if known : bool then ret tt else
  match block_hash b with
  | None => on_queue (set_block_hash (Block id) key num_tokens)
  | Some _ =>
      modify (fun p => set_by_block
        (<[id := {[key]} ∪ default ∅ (cached_block_hashes_by_block p !! id)]>
           (cached_block_hashes_by_block p)) p)
  end ;;
  modify (fun p => set_index (HashMap.insert key id (cached_block_hash_to_block p)) p).

Definition move_block_hashes (src dst : nat) : M BlockPool unit :=
  let! d := gets (fun p => blk p dst) in
  assert_ (bool_decide (block_hash d = None)) ;;
  let! other := gets (fun p => cached_block_hashes_by_block p !! dst) in
  assert_ (bool_decide (other = None)) ;;
  let! s := gets (fun p => blk p src) in
  let! hashes := remove_cached_block_hashes src in
  for_ hashes (fun h => insert_block_hash h dst (block_hash_num_tokens s)).

Definition maybe_evict_cached_block (id : nat) : M BlockPool bool :=
  modify (metric (OnEvicted id)) ;;
  let! evicted_hashes := remove_cached_block_hashes id in
  match evicted_hashes with
  | [] => ret false
  | _ => emit_block_removed_events evicted_hashes ;; ret true
  end.

(** [_notify_reuse] *)
Definition notify_one (id : nat) (p : BlockPool) : BlockPool :=
  match list_find (fun e => e.1 = id) (reuse_watchers p) with
  | Some (_, e) =>
      set_watchers (filter (fun e => e.1 <> id) (reuse_watchers p))
        (reuse_calls p ++ [(e.2, id)]) p
  | None => p
  end.
Definition notify_reuse (blocks : list nat) : M BlockPool unit :=
  for_ blocks (fun id => modify (notify_one id)).

Definition take_ref (id : nat) : M BlockPool unit :=
  let! b := gets (fun p => blk p id) in
  assert_ (ref_cnt b =? 0) ;;
  modify (upd_blk (add_ref 1) id) ;;
  modify (metric (OnAllocated id)).

Definition get_new_blocks (num_blocks : Z) : M BlockPool (list nat) :=
  let! free := gets get_num_free_blocks in
  if num_blocks >? free then raise ValueError else
  let! popped := on_queue (FreeQueue.popleft_n num_blocks) in
  let! blocks := lift (as_blocks popped) in
  let! watchers := gets reuse_watchers in
  match watchers with [] => ret tt | _ => notify_reuse blocks end ;;
  let! caching := gets enable_caching in
  (if caching : bool
   then for_ blocks (fun id => maybe_evict_cached_block id ;; take_ref id)
   else for_ blocks take_ref) ;;
  ret blocks.

(** [self._reuse_watchers[id] = on_reuse] *)
Definition watch (id on_reuse : nat) (p : BlockPool) : BlockPool :=
  let ws := reuse_watchers p in
  set_watchers
    (if decide (id ∈ ws.*1) then map (fun e => if decide (e.1 = id) then (id, on_reuse) else e) ws
     else ws ++ [(id, on_reuse)]) (reuse_calls p) p.

Definition unpin_one (on_reuse : nat) (released : list nat) (id : nat) : M BlockPool (list nat) :=
  let! b := gets (fun p => blk p id) in
  assert_ ((ref_cnt b >? 0) && negb (is_null b)) ;;
  modify (upd_blk (add_ref (-1)) id) ;;
  modify (watch id on_reuse) ;;
  let! b := gets (fun p => blk p id) in
  ret (if ref_cnt b =? 0 then released ++ [id] else released).

Definition unpin_blocks (blocks : list nat) (on_reuse : nat) : M BlockPool unit :=
  let! released := fold_ blocks [] (unpin_one on_reuse) in
  on_queue (FreeQueue.append_n (Block <$> released)).

Definition touch_one (id : nat) : M BlockPool unit :=
  let! b := gets (fun p => blk p id) in
  (if (ref_cnt b =? 0) && negb (is_null b) then on_queue (FreeQueue.remove (Block id)) else ret tt) ;;
  modify (upd_blk (add_ref 1) id) ;;
  modify (metric (OnAccessed id)).
Definition touch (blocks : list nat) : M BlockPool unit := for_ blocks touch_one.

Definition is_block_writable (id : nat) (p : BlockPool) : bool :=
  negb (is_null (blk p id)) && (ref_cnt (blk p id) =? 1) &&
  bool_decide (block_hash (blk p id) = None).

(** [free_blocks] on the pool's own blocks: the loop splits the released blocks
    into [blocks_to_evict_first] and [blocks_to_evict_last]. *)
Definition free_one (acc : list nat * list nat) (id : nat) : M BlockPool (list nat * list nat) :=
  modify (upd_blk (add_ref (-1)) id) ;;
  let! b := gets (fun p => blk p id) in
  let! caching := gets enable_caching in
  if (ref_cnt b =? 0) && negb (is_null b) then
    if bool_decide (block_hash b = None) || negb caching
    then ret (acc.1 ++ [id], acc.2)
    else ret (acc.1, acc.2 ++ [id])
  else ret acc.

Definition free_own_blocks (ordered_blocks : list nat) : M BlockPool unit :=
  let! acc := fold_ ordered_blocks ([], []) free_one in
  on_queue (FreeQueue.prepend_n (Block <$> acc.1)) ;;
  on_queue (FreeQueue.append_n (Block <$> acc.2)).

Definition evict_blocks (block_ids : list Z) : M BlockPool unit :=
  for_ block_ids (fun block_id =>
    let! n := gets num_gpu_blocks in
    assert_ (block_id <? n) ;;
    let! id := lift (or_raise (py_get (seq 0 (Z.to_nat n)) block_id) IndexError) in
    maybe_evict_cached_block id ;; ret tt).

Definition reset_prefix_cache : M BlockPool bool :=
  let! p := gets (fun p => p) in
  if negb (num_gpu_blocks p - get_num_free_blocks p =? 1) then ret false else
  modify (set_index ∅) ;;
  modify (set_by_block ∅) ;;
  match reuse_watchers p with
  | [] => ret tt
  | ws => notify_reuse ws.*1
  end ;;
  for_ (seq 0 (Z.to_nat (num_gpu_blocks p))) (fun id => modify (upd_blk (with_hash None None) id)) ;;
  modify (metric OnReset) ;;
  modify (fun p => if enable_kv_cache_events p then emit AllBlocksCleared p else p) ;;
  ret true.

Definition take_events : M BlockPool (list KVCacheEvent) :=
  let! enabled := gets enable_kv_cache_events in
  if negb enabled then ret [] else
  let! events := gets kv_event_queue in
  modify (set_kv_events []) ;;
  ret events.

(** ** Caching the blocks of a request

    These methods also memoise digests on the request, so they run on the pool
    and the request together. *)

Definition on_pool {A} (m : M BlockPool A) : M (BlockPool * Request) A :=
  zoom fst (fun p s => (p, s.2)) m.
Definition on_request {A} (m : M Request A) : M (BlockPool * Request) A :=
  zoom snd (fun r s => (s.1, r)) m.

(** [block_mask is not None and not block_mask[i]] *)
Definition masked_out (block_mask : option (list bool)) (i : Z) : outcome bool :=
  match block_mask with
  | None => Ok false
  | Some mask => match py_get mask i with
                 | Some b => Ok (negb b)
                 | None => Raise IndexError
                 end
  end.
Definition skip_block (is_null : bool) (block_mask : option (list bool)) (i : Z) : outcome bool :=
  if is_null then Ok true else masked_out block_mask i.

(** The body of the first loop of [cache_full_blocks]; [new_hashes] is [None]
    when events are disabled. *)
Definition cache_full_step (new_block_hashes : list bytes) (num_cached_blocks block_size
    kv_cache_group_id : Z) (block_mask : option (list bool))
    (new_hashes : option (list ExternalBlockHash)) (e : Z * nat) :
    M BlockPool (option (list ExternalBlockHash)) :=
  let '(i, id) := e in
  let! b := gets (fun p => blk p id) in
  let! skip := lift (skip_block (is_null b) block_mask i) in
  if skip : bool then ret new_hashes else
  let! hash := lift (or_raise (py_get new_block_hashes i) IndexError) in
  let num_hash_tokens := (num_cached_blocks + i + 1) * block_size in
  let! key := lift (make_block_hash_with_group_id hash kv_cache_group_id) in
  match block_hash b with
  | None => ret tt
  | Some _ =>
      assert_ (match block_hash_num_tokens b with
               | Some n => n <? num_hash_tokens
               | None => false
               end) ;;
      let! removed := remove_cached_block_hashes id in
      emit_block_removed_events removed
  end ;;
  insert_block_hash key id (Some num_hash_tokens) ;;
  ret (option_map (fun l => l ++ [maybe_convert_block_hash use_int hash]) new_hashes).

Definition build_block_stored_event (p : BlockPool) (request : Request)
    (block_hashes : option (list ExternalBlockHash)) (parent_block_hash : option ExternalBlockHash)
    (start_token_idx end_token_idx block_size kv_cache_group_id : Z)
    (extra_keys_list : list (option (list extra_key))) : KVCacheEvent :=
  BlockStored block_hashes parent_block_hash
    (py_slice start_token_idx end_token_idx (all_token_ids request)) block_size
    (option_map lora_int_id (lora_request request)) (medium p)
    (option_map lora_name (lora_request request))
    (to_event_extra_keys extra_keys_list) kv_cache_group_id (session_id request).

(** The body of the second loop: the extra keys of block [i]. *)
Definition stored_keys_step (blocks : list nat) (num_cached_blocks block_size : Z)
    (block_mask : option (list bool)) (acc : list (option (list extra_key)) * Z) (i : Z) :
    M (BlockPool * Request) (list (option (list extra_key)) * Z) :=
  let! id := lift (or_raise (py_get blocks i) IndexError) in
  let! b := on_pool (gets (fun p => blk p id)) in
  let! skip := lift (skip_block (is_null b) block_mask (i - num_cached_blocks)) in
  if skip : bool then ret acc else
  let block_start := i * block_size in
  let! keys := on_request (generate_block_hash_extra_keys sha256 block_start
                             (block_start + block_size) acc.2) in
  ret (acc.1 ++ [keys.1], keys.2).

Definition cache_full_blocks (blocks : list nat) (num_cached_blocks num_full_blocks block_size
    kv_cache_group_id : Z) (block_mask : option (list bool)) : M (BlockPool * Request) unit :=
  if num_cached_blocks >=? num_full_blocks then ret tt else
  let new_full_blocks := py_slice num_cached_blocks num_full_blocks blocks in
  assert_ (match block_mask with
           | None => true
           | Some mask => zlen mask =? zlen new_full_blocks
           end) ;;
  let! p := on_pool (gets (fun p => p)) in
  let! r := on_request (gets (fun r => r)) in
  let! hashes := lift (resolve_block_hashes (Raw (block_hashes r)) (hash_block_size p) block_size
                         false None) in
  let! new_block_hashes := lift (hl_from hashes num_cached_blocks) in
  let! new_hashes := on_pool (fold_ (enumerate new_full_blocks)
    (if enable_kv_cache_events p then Some [] else None)
    (cache_full_step new_block_hashes num_cached_blocks block_size kv_cache_group_id block_mask)) in
  if negb (enable_kv_cache_events p) then ret tt else
  let! parent := if num_cached_blocks =? 0 then ret None else
    let! h := lift (or_raise (hl_get hashes (num_cached_blocks - 1)) IndexError) in
    ret (Some (maybe_convert_block_hash use_int h)) in
  let! keys := fold_ (py_range num_cached_blocks num_full_blocks) ([], 0)
    (stored_keys_step blocks num_cached_blocks block_size block_mask) in
  let! r := on_request (gets (fun r => r)) in
  on_pool (modify (fun p => emit (build_block_stored_event p r new_hashes parent
    (num_cached_blocks * block_size) (num_full_blocks * block_size) block_size
    kv_cache_group_id keys.1) p)).

(** The loop body of [emit_cached_block_events]. *)
Definition cached_event_step (hashes : BlockHashList) (block_size : Z)
    (acc : list ExternalBlockHash * list (option (list extra_key)) * Z) (i : Z) :
    M (BlockPool * Request) (list ExternalBlockHash * list (option (list extra_key)) * Z) :=
  let '(cached_hashes, extra_keys_list, curr_mm_idx) := acc in
  let block_start := i * block_size in
  let! h := lift (or_raise (hl_get hashes i) IndexError) in
  let! keys := on_request (generate_block_hash_extra_keys sha256 block_start
                             (block_start + block_size) curr_mm_idx) in
  ret (cached_hashes ++ [maybe_convert_block_hash use_int h], extra_keys_list ++ [keys.1], keys.2).

Definition emit_cached_block_events (num_cached_blocks block_size kv_cache_group_id : Z) :
    M (BlockPool * Request) unit :=
  let! p := on_pool (gets (fun p => p)) in
  if negb (enable_kv_cache_events p) || (num_cached_blocks =? 0) then ret tt else
  let! r := on_request (gets (fun r => r)) in
  let! hashes := lift (resolve_block_hashes (Raw (block_hashes r)) (hash_block_size p) block_size
                         false None) in
  let! acc := fold_ (py_range 0 num_cached_blocks) ([], [], 0)
    (cached_event_step hashes block_size) in
  match acc.1.1 with
  | [] => ret tt
  | cached_hashes =>
      let! r := on_request (gets (fun r => r)) in
      on_pool (modify (fun p => emit (build_block_stored_event p r (Some cached_hashes) None
        0 (num_cached_blocks * block_size) block_size kv_cache_group_id acc.1.2) p))
  end.

Definition get_partial_block_hash (p : BlockPool) (request : Request) (num_tokens : Z) :
    outcome bytes :=
  if negb (num_tokens mod hash_block_size p =? 0) then Raise AssertionError else
  let num_hash_blocks := num_tokens / hash_block_size p in
  if negb ((0 <? num_hash_blocks) && (num_hash_blocks <=? zlen (block_hashes request)))
  then Raise AssertionError
  else or_raise (py_get (block_hashes request) (num_hash_blocks - 1)) IndexError.

Definition get_partial_block_parent_hash_and_start (p : BlockPool) (request : Request)
    (num_tokens : Z) : outcome (option bytes * Z) :=
  let num_hash_blocks := num_tokens / hash_block_size p in
  let block_start := (num_hash_blocks - 1) * hash_block_size p in
  if num_hash_blocks >? 1 then
    match py_get (block_hashes request) (num_hash_blocks - 2) with
    | Some h => Ok (Some h, block_start)
    | None => Raise IndexError
    end
  else Ok (None, block_start).

(** The event part of [cache_partial_block]. *)
Definition emit_partial_block (hash : bytes) (num_tokens kv_cache_group_id : Z) :
    M (BlockPool * Request) unit :=
  let! p := on_pool (gets (fun p => p)) in
  let! r := on_request (gets (fun r => r)) in
  let! ps := lift (get_partial_block_parent_hash_and_start p r num_tokens) in
  let block_start := ps.2 in
  let block_end := num_tokens in
  let! curr_mm_idx :=
    match py_get (mm_features r) (-1) with
    | Some last =>
        if (block_start >? 0) && (range_end last >? block_start) then
          lift (match get_mm_features_in_window (mm_features r) block_start block_end with
                | Ok w => Ok w.1
                | Raise e => Raise e
                end)
        else ret 0
    | None => ret 0
    end in
  let! keys := on_request (generate_block_hash_extra_keys sha256 block_start block_end curr_mm_idx) in
  on_pool (modify (emit (BlockStored (Some [maybe_convert_block_hash use_int hash])
    (option_map (maybe_convert_block_hash use_int) ps.1)
    (py_slice block_start block_end (all_token_ids r)) (block_end - block_start)
    (option_map lora_int_id (lora_request r)) (medium p)
    (option_map lora_name (lora_request r)) (to_event_extra_keys [keys.1])
    kv_cache_group_id (session_id r)))).

Definition cache_partial_block (id : nat) (num_tokens kv_cache_group_id block_size : Z)
    (replace_existing_hashes : bool) : M (BlockPool * Request) (option bytes) :=
  let! p := on_pool (gets (fun p => p)) in
  let! r := on_request (gets (fun r => r)) in
  let b := blk p id in
  if is_null b then ret None else
  assert_ (block_size mod hash_block_size p =? 0) ;;
  let! hash := lift (get_partial_block_hash p r num_tokens) in
  let num_hash_tokens := num_tokens / hash_block_size p * hash_block_size p in
  let! key := lift (make_block_hash_with_group_id hash kv_cache_group_id) in
  let already_cached := bool_decide (block_hash b = Some key) ||
                        HashMap.contain key id (cached_block_hash_to_block p) in
  let outgrown := match block_hash b, block_hash_num_tokens b with
                  | Some _, Some n => n <? num_hash_tokens
                  | _, _ => false
                  end in
  (if replace_existing_hashes || (negb already_cached && outgrown) then
     on_pool (let! removed := remove_cached_block_hashes id in emit_block_removed_events removed)
   else ret tt) ;;
  let already_cached := negb replace_existing_hashes && already_cached in
  on_pool (insert_block_hash key id (Some num_hash_tokens)) ;;
  (if enable_kv_cache_events p && negb already_cached
   then emit_partial_block hash num_tokens kv_cache_group_id else ret tt) ;;
  ret (Some key).
End pool.

(** ** Pools that share the blocks of a request

    [free_blocks] forwards the blocks of other pools to their owner; pools are
    identified by a number and a block by its pool and id. *)

Abbreviation pools := (gmap nat BlockPool).
Definition at_pool {A} (pid : nat) (m : M BlockPool A) : M pools A :=
  fun ps => match ps !! pid with
            | None => (Raise KeyError, ps)
            | Some p => match m p with (o, p') => (o, <[pid := p']> ps) end
            end.

(** [other_pools.setdefault(pool, []).append(block)] *)
Fixpoint group_add (pid id : nat) (g : list (nat * list nat)) : list (nat * list nat) :=
  match g with
  | [] => [(pid, [id])]
  | (q, ids) :: g => if decide (q = pid) then (q, ids ++ [id]) :: g else (q, ids) :: group_add pid id g
  end.

Definition free_ref (self : nat) (acc : list nat * list nat * list (nat * list nat))
    (ref : nat * nat) : M pools (list nat * list nat * list (nat * list nat)) :=
  let '(first, last, others) := acc in
  if negb (bool_decide (ref.1 = self)) then ret (first, last, group_add ref.1 ref.2 others) else
  let! a := at_pool self (free_one (first, last) ref.2) in
  ret (a, others).

(** The call on another pool passes only blocks of that pool, so the recursion
    is two levels deep ([free_blocks_depth]). *)
Fixpoint free_blocks (depth : nat) (self : nat) (ordered_blocks : list (nat * nat)) : M pools unit :=
  match depth with
  | O => raise OutOfFuel
  | S depth =>
      let! acc := fold_ ordered_blocks ([], [], []) (free_ref self) in
      at_pool self (on_queue (FreeQueue.prepend_n (Block <$> acc.1.1))) ;;
      at_pool self (on_queue (FreeQueue.append_n (Block <$> acc.1.2))) ;;
      for_ acc.2 (fun g => free_blocks depth g.1 (map (pair g.1) g.2))
  end.

(** * Invariant *)

(** The queue part: the free list holds exactly the unreferenced blocks; block
    0 is the null block, whose counter is not maintained. *)
Record queue_inv (n : Z) (null : nat) (q : FreeKVCacheBlockQueue) (free : list nat) : Prop := {
  qi_pos : 0 < n;
  qi_null : null = 0%nat;
  qi_repr : FreeQueue.repr q free;
  qi_free : forall x, x ∈ free <->
    (x <> 0%nat /\ Z.of_nat x < n) /\ ref_cnt (get_block q (Block x)) = 0;
  qi_ref : forall x, x <> 0%nat -> 0 <= ref_cnt (get_block q (Block x));
  qi_is_null : forall x, is_null (get_block q (Block x)) = bool_decide (x = 0%nat);
  qi_out : forall x, n <= Z.of_nat x -> ref_cnt (get_block q (Block x)) = 0
}.

Definition extra_hashes (bb : gmap nat (gset bytes)) (x : nat) : gset bytes := default ∅ (bb !! x).

(** The cache part: the index holds [key] for block [x] exactly when [x]
    carries [key] as its primary or as an additional hash. *)
Record hash_inv (n : Z) (q : FreeKVCacheBlockQueue) (m : BlockHashToBlockMap)
    (bb : gmap nat (gset bytes)) : Prop := {
  hi_wf : HashMap.wf m;
  hi_index : forall key x, x ∈ HashMap.blocks_of m key <->
    block_hash (get_block q (Block x)) = Some key \/ key ∈ extra_hashes bb x;
  hi_primary : forall key x, block_hash (get_block q (Block x)) = Some key -> key ∉ extra_hashes bb x;
  hi_extra : forall x, block_hash (get_block q (Block x)) = None -> bb !! x = None;
  hi_tokens : forall x, block_hash (get_block q (Block x)) = None ->
    block_hash_num_tokens (get_block q (Block x)) = None;
  hi_range : forall x, block_hash (get_block q (Block x)) <> None -> x <> 0%nat /\ Z.of_nat x < n
}.

Definition cache_inv (p : BlockPool) : Prop :=
  hash_inv (num_gpu_blocks p) (free_block_queue p) (cached_block_hash_to_block p)
    (cached_block_hashes_by_block p).
Definition inv (p : BlockPool) (free : list nat) : Prop :=
  queue_inv (num_gpu_blocks p) (null_block p) (free_block_queue p) free /\ cache_inv p.

(** The configuration of a pool never changes. *)
Definition config (p : BlockPool) :=
  (num_gpu_blocks p, medium p, enable_caching p, hash_block_size p, null_block p,
   enable_kv_cache_events p).

(** ** Frame lemmas *)

Lemma wp_on_queue {A} (m : M FreeKVCacheBlockQueue A) Q p :
  wp (on_queue m) Q p <-> wp m (fun a q => Q a (set_queue q p)) (free_block_queue p).
Proof. apply wp_zoom. Qed.
Lemma wp_on_pool {A} (m : M BlockPool A) Q s :
  wp (on_pool m) Q s <-> wp m (fun a p => Q a (p, s.2)) s.1.
Proof. unfold on_pool. by rewrite wp_zoom. Qed.
Lemma wp_on_request {A} (m : M Request A) Q s :
  wp (on_request m) Q s <-> wp m (fun a r => Q a (s.1, r)) s.2.
Proof. unfold on_request. by rewrite wp_zoom. Qed.
#[export] Hint Rewrite @wp_on_queue @wp_on_pool @wp_on_request : py.

Lemma blk_upd f x p y : blk (upd_blk f x p) y = if decide (x = y) then f (blk p x) else blk p y.
Proof.
  unfold blk, upd_blk. simpl. rewrite FreeQueue.get_upd.
  destruct (decide (x = y)) as [->|]; [by rewrite decide_True|].
  rewrite decide_False; [done|]. congruence.
Qed.

Lemma blk_same_meta q p x :
  FreeQueue.same_meta (free_block_queue p) q ->
  FreeQueue.meta (blk (set_queue q p) x) = FreeQueue.meta (blk p x).
Proof. intros H. apply H. Qed.

(** Updates that keep the links keep the free list. *)
Lemma repr_keep_links f l q free :
  (forall b, next_free_block (f b) = next_free_block b /\ prev_free_block (f b) = prev_free_block b) ->
  FreeQueue.repr q free -> FreeQueue.repr (upd_block f l q) free.
Proof.
  intros Hf [Hc Hn Ht Ho Hm].
  assert (forall a, FreeQueue.nxt (upd_block f l q) a = FreeQueue.nxt q a /\
                    FreeQueue.prv (upd_block f l q) a = FreeQueue.prv q a) as Hl.
  { intros a. unfold FreeQueue.nxt, FreeQueue.prv. rewrite FreeQueue.get_upd.
    case_decide; [subst; apply Hf|done]. }
  split; [| done | by rewrite (proj1 (Hl _)) | | done].
  - eapply FreeQueue.chain_frame; [done|]. intros a b A B _. by split; apply Hl.
  - intros x Hx. rewrite (proj1 (Hl _)), (proj2 (Hl _)). by apply Ho.
Qed.

(** The queue part depends on counters and null flags only, the cache part on
    hashes only. *)
Lemma queue_inv_frame n null q q' free :
  queue_inv n null q free -> FreeQueue.repr q' free ->
  (forall x, ref_cnt (get_block q' (Block x)) = ref_cnt (get_block q (Block x))) ->
  (forall x, is_null (get_block q' (Block x)) = is_null (get_block q (Block x))) ->
  queue_inv n null q' free.
Proof.
  intros [] Hr Hc Hn. split; try done; intros x; rewrite ?Hc, ?Hn; auto.
Qed.

Lemma hash_inv_frame n q q' m bb :
  hash_inv n q m bb ->
  (forall x, block_hash (get_block q' (Block x)) = block_hash (get_block q (Block x))) ->
  (forall x, block_hash_num_tokens (get_block q' (Block x)) =
             block_hash_num_tokens (get_block q (Block x))) ->
  hash_inv n q' m bb.
Proof.
  intros [] Hh Ht. split; try done; intros *; rewrite ?Hh, ?Ht; auto.
Qed.

Lemma meta_fields q q' :
  FreeQueue.same_meta q q' -> forall l,
  ref_cnt (get_block q' l) = ref_cnt (get_block q l) /\
  block_hash (get_block q' l) = block_hash (get_block q l) /\
  block_hash_num_tokens (get_block q' l) = block_hash_num_tokens (get_block q l) /\
  is_null (get_block q' l) = is_null (get_block q l).
Proof. intros H l. specialize (H l). unfold FreeQueue.meta in H. naive_solver. Qed.

Lemma cache_inv_queue q p :
  FreeQueue.same_meta (free_block_queue p) q -> cache_inv p -> cache_inv (set_queue q p).
Proof.
  intros Hm Hp. eapply hash_inv_frame; [exact Hp| |]; intros x; by apply meta_fields.
Qed.

Lemma cache_inv_ref d x p : cache_inv p -> cache_inv (upd_blk (add_ref d) x p).
Proof.
  intros Hp. eapply hash_inv_frame; [exact Hp| |]; intros y; simpl;
    rewrite FreeQueue.get_upd; case_decide; by simplify_eq.
Qed.

(** ** Removing the hashes of a block *)

(** Every key block [x] carries. *)
Definition keys_of (p : BlockPool) (x : nat) : list bytes :=
  option_list (block_hash (blk p x)) ++ elements (extra_hashes (cached_block_hashes_by_block p) x).

Definition pop_all (id : nat) (ks : list bytes) (m : BlockHashToBlockMap) : BlockHashToBlockMap :=
  foldl (fun m k => (HashMap.pop k id m).2) m ks.

Lemma pop_all_wf id ks m : HashMap.wf m -> HashMap.wf (pop_all id ks m).
Proof. revert m. induction ks; intros m Hm; simpl; [done|]. by apply IHks, HashMap.pop_wf. Qed.

Lemma elem_of_pop_all id ks m k x :
  x ∈ HashMap.blocks_of (pop_all id ks m) k <-> x ∈ HashMap.blocks_of m k /\ (x = id -> k ∉ ks).
Proof.
  revert m. induction ks as [|k' ks IH]; intros m; simpl; [set_solver|].
  rewrite IH, HashMap.blocks_of_pop. case_decide; subst.
  - rewrite HashMap.elem_of_dict_pop. set_solver.
  - set_solver.
Qed.

Lemma pop_hashes_run id ks acc p :
  NoDup ks -> (forall k, k ∈ ks -> id ∈ HashMap.blocks_of (cached_block_hash_to_block p) k) ->
  fold_ ks acc (pop_hash id) p =
    (Ok (acc ++ ks), set_index (pop_all id ks (cached_block_hash_to_block p)) p).
Proof.
  revert acc p. induction ks as [|k ks IH]; intros acc p Hnd Hin.
  { simpl. rewrite app_nil_r. by destruct p. }
  apply NoDup_cons in Hnd as [Hk Hnd]. simpl.
  pose proof (HashMap.pop_result (cached_block_hash_to_block p) k id) as Hp.
  rewrite decide_True in Hp by (apply Hin; set_solver).
  pose proof (HashMap.blocks_of_pop (cached_block_hash_to_block p) k) as Hb.
  unfold pop_hash at 1, bind, gets, modify, ret.
  destruct (HashMap.pop k id _) as [found m'] eqn:E. simpl in Hp. subst found.
  rewrite IH; [by rewrite <- app_assoc|done|]. intros k' Hk'. simpl.
  specialize (Hb k' id). rewrite E in Hb. simpl in Hb. rewrite Hb, decide_False by naive_solver.
  apply Hin. set_solver.
Qed.

(** The state [_remove_cached_block_hashes] leaves behind. *)
Definition clear_hashes (x : nat) (p : BlockPool) : BlockPool :=
  let p' := set_by_block (delete x (cached_block_hashes_by_block p)) p in
  match keys_of p x with
  | [] => p'
  | ks => upd_blk (with_hash None None) x
            (set_index (pop_all x ks (cached_block_hash_to_block p)) p')
  end.

Lemma keys_of_index p x k :
  cache_inv p -> k ∈ keys_of p x <-> x ∈ HashMap.blocks_of (cached_block_hash_to_block p) k.
Proof.
  intros Hp. rewrite (hi_index _ _ _ _ Hp). unfold keys_of, blk.
  rewrite elem_of_app, elem_of_elements. destruct (block_hash _); set_solver.
Qed.

Lemma keys_of_nodup p x : cache_inv p -> NoDup (keys_of p x).
Proof.
  intros Hp. unfold keys_of. apply NoDup_app. split_and!; [|intros k|apply NoDup_elements].
  - destruct (block_hash _); [apply NoDup_singleton|constructor].
  - rewrite elem_of_elements. intros Hk. eapply (hi_primary _ _ _ _ Hp).
    unfold blk in Hk. destruct (block_hash _); set_solver.
Qed.

Lemma remove_hashes_run x p :
  cache_inv p -> remove_cached_block_hashes x p = (Ok (keys_of p x), clear_hashes x p).
Proof.
  intros Hp. unfold remove_cached_block_hashes, clear_hashes, bind, gets, modify, ret.
  change (match block_hash (blk p x) with Some h => [h] | None => [] end)
    with (option_list (block_hash (blk p x))).
  replace (match cached_block_hashes_by_block p !! x with Some s => elements s | None => [] end)
    with (elements (extra_hashes (cached_block_hashes_by_block p) x)).
  2: { unfold extra_hashes. destruct (_ !! x); [done|]. apply elements_empty. }
  fold (keys_of p x). destruct (keys_of p x) as [|k ks] eqn:E; [done|].
  rewrite pop_hashes_run; [done|rewrite <- E; by apply keys_of_nodup|].
  intros k'. rewrite <- E. simpl. by apply keys_of_index.
Qed.

Lemma no_keys p x : keys_of p x = [] -> block_hash (blk p x) = None.
Proof. unfold keys_of. by destruct (block_hash _). Qed.

Lemma blk_clear x p y :
  cache_inv p ->
  blk (clear_hashes x p) y = if decide (x = y) then with_hash None None (blk p x) else blk p y.
Proof.
  intros Hp. unfold clear_hashes. destruct (keys_of p x) as [|k ks] eqn:E; [|by rewrite blk_upd].
  apply no_keys in E. change (blk _ y) with (blk p y). case_decide; [subst y|done].
  pose proof (hi_tokens _ _ _ _ Hp x E) as Ht. unfold blk in *. destruct (get_block _ _); simpl in *.
  by subst.
Qed.

Lemma clear_hashes_core x p :
  exists q m, clear_hashes x p = set_index m (set_queue q
    (set_by_block (delete x (cached_block_hashes_by_block p)) p)).
Proof.
  unfold clear_hashes. destruct (keys_of p x).
  - exists (free_block_queue p), (cached_block_hash_to_block p). by destruct p.
  - by eexists _, _.
Qed.

Lemma clear_hashes_index x p :
  cached_block_hash_to_block (clear_hashes x p) =
    pop_all x (keys_of p x) (cached_block_hash_to_block p).
Proof. unfold clear_hashes. by destruct (keys_of p x). Qed.

Lemma clear_hashes_by_block x p :
  cached_block_hashes_by_block (clear_hashes x p) = delete x (cached_block_hashes_by_block p).
Proof. unfold clear_hashes. by destruct (keys_of p x). Qed.

Lemma extra_delete bb x y :
  extra_hashes (delete x bb) y = if decide (x = y) then ∅ else extra_hashes bb y.
Proof.
  unfold extra_hashes. case_decide; [subst; by rewrite lookup_delete_eq|by rewrite lookup_delete_ne].
Qed.

Lemma cache_inv_clear x p : cache_inv p -> cache_inv (clear_hashes x p).
Proof.
  intros Hp. pose proof (blk_clear x p) as Hb. unfold blk in Hb. unfold cache_inv.
  rewrite clear_hashes_index, clear_hashes_by_block.
  assert (num_gpu_blocks (clear_hashes x p) = num_gpu_blocks p) as ->.
  { by destruct (clear_hashes_core x p) as (q & m & ->). }
  split.
  - apply pop_all_wf, Hp.
  - intros key y. rewrite elem_of_pop_all, (keys_of_index p x key Hp), extra_delete, Hb by done.
    case_decide; [subst y; simpl; set_solver|].
    rewrite (hi_index _ _ _ _ Hp). naive_solver.
  - intros key y. rewrite Hb, extra_delete by done. case_decide; [done|]. apply Hp.
  - intros y. rewrite Hb by done. case_decide; [subst; intros; by rewrite lookup_delete_eq|].
    rewrite lookup_delete_ne by done. apply Hp.
  - intros y. rewrite Hb by done. case_decide; [done|]. apply Hp.
  - intros y. rewrite Hb by done. case_decide; [done|]. apply Hp.
Qed.

(** [p'] differs from [p] in hashes, index and logs only. *)
Record keeps (p p' : BlockPool) : Prop := {
  k_config : config p' = config p;
  k_repr : forall free, FreeQueue.repr (free_block_queue p) free ->
    FreeQueue.repr (free_block_queue p') free;
  k_ref : forall x, ref_cnt (blk p' x) = ref_cnt (blk p x);
  k_null : forall x, is_null (blk p' x) = is_null (blk p x)
}.

#[export] Instance keeps_preorder : PreOrder keeps.
Proof.
  split; [by split|]. intros p1 p2 p3 [] []. split; [congruence|auto|..]; intros; congruence.
Qed.

Lemma keeps_inv p p' free : keeps p p' -> cache_inv p' -> inv p free -> inv p' free.
Proof.
  intros [Hc Hr Hf Hn] Hp' [Hq Hp]. split; [|done]. unfold config in Hc. simplify_eq.
  assert (num_gpu_blocks p' = num_gpu_blocks p /\ null_block p' = null_block p) as [-> ->] by naive_solver.
  eapply queue_inv_frame; [done| |done|done]. apply Hr, Hq.
Qed.

Lemma keeps_clear x p : cache_inv p -> keeps p (clear_hashes x p).
Proof.
  intros Hp. split.
  - by destruct (clear_hashes_core x p) as (q & m & ->).
  - intros free Hr. unfold clear_hashes. destruct (keys_of p x); [done|]. by apply repr_keep_links.
  - intros y. rewrite blk_clear by done. by case_decide; subst.
  - intros y. rewrite blk_clear by done. by case_decide; subst.
Qed.

(** ** Registering a hash *)

Definition holds (p : BlockPool) (key : bytes) (x : nat) : Prop :=
  x ∈ HashMap.blocks_of (cached_block_hash_to_block p) key.

(** The state [_insert_block_hash] leaves behind when the block does not carry
    the key yet. *)
Definition add_hash (key : bytes) (x : nat) (num_tokens : option Z) (p : BlockPool) : BlockPool :=
  set_index (HashMap.insert key x (cached_block_hash_to_block p))
    (match block_hash (blk p x) with
     | None => upd_blk (with_hash (Some key) num_tokens) x p
     | Some _ => set_by_block (<[x := {[key]} ∪ extra_hashes (cached_block_hashes_by_block p) x]>
                   (cached_block_hashes_by_block p)) p
     end).

Lemma insert_hash_run key x nt p :
  cache_inv p ->
  insert_block_hash key x nt p =
    (Ok tt, if decide (x ∈ HashMap.blocks_of (cached_block_hash_to_block p) key)
            then p else add_hash key x nt p).
Proof.
  intros Hp. unfold insert_block_hash, bind, gets, modify, ret.
  pose proof (proj2 (hi_index _ _ _ _ Hp key x)) as Hx.
  destruct (bool_decide (block_hash (blk p x) = Some key)) eqn:E1; bools.
  { rewrite decide_True; [done|]. apply Hx. by left. }
  rewrite HashMap.contain_ok.
  destruct (bool_decide (x ∈ HashMap.blocks_of _ _)) eqn:E2; bools; [by rewrite decide_True|].
  rewrite decide_False by done. unfold add_hash.
  destruct (block_hash (blk p x)) as [h|] eqn:Eh; [done|].
  unfold on_queue, zoom, set_block_hash, bind, gets, modify, assert_.
  pose proof (hi_tokens _ _ _ _ Hp x Eh) as Ht. unfold blk in Eh.
  by rewrite Eh, Ht.
Qed.

Lemma block_hash_add key x nt p y :
  block_hash (blk (add_hash key x nt p) y) =
    if decide (x = y) then Some (default key (block_hash (blk p x))) else block_hash (blk p y).
Proof.
  unfold add_hash. destruct (block_hash (blk p x)) as [h|] eqn:E.
  - case_decide; [subst y; exact E|done].
  - change (blk (set_index _ ?q) y) with (blk q y). rewrite blk_upd. by case_decide.
Qed.

Lemma extra_add key x nt p y :
  extra_hashes (cached_block_hashes_by_block (add_hash key x nt p)) y =
    if decide (x = y /\ block_hash (blk p x) <> None)
    then {[key]} ∪ extra_hashes (cached_block_hashes_by_block p) y
    else extra_hashes (cached_block_hashes_by_block p) y.
Proof.
  unfold add_hash. destruct (block_hash (blk p x)) as [h|] eqn:E; simpl.
  - unfold extra_hashes. rewrite lookup_insert. destruct (decide (x = y)) as [->|].
    + by rewrite decide_True.
    + rewrite decide_False by naive_solver. done.
  - rewrite decide_False by naive_solver. done.
Qed.

Lemma holds_add key x nt p k y :
  holds (add_hash key x nt p) k y <-> holds p k y \/ (k = key /\ y = x).
Proof.
  unfold holds, add_hash. simpl. rewrite HashMap.blocks_of_insert.
  case_decide; [subst; rewrite HashMap.elem_of_dict_insert|]; naive_solver.
Qed.

Lemma blk_add_frame key x nt p y :
  ref_cnt (blk (add_hash key x nt p) y) = ref_cnt (blk p y) /\
  is_null (blk (add_hash key x nt p) y) = is_null (blk p y) /\
  (block_hash (blk (add_hash key x nt p) y) = None ->
   block_hash_num_tokens (blk (add_hash key x nt p) y) = block_hash_num_tokens (blk p y)).
Proof.
  rewrite block_hash_add. unfold add_hash. destruct (block_hash (blk p x)) as [h|] eqn:E; [done|].
  change (blk (set_index _ ?q) y) with (blk q y). rewrite blk_upd. by case_decide; simplify_eq.
Qed.

Lemma cache_inv_add key x nt p :
  cache_inv p -> x <> 0%nat -> Z.of_nat x < num_gpu_blocks p -> ~ holds p key x ->
  cache_inv (add_hash key x nt p).
Proof.
  intros Hp Hx0 Hxn Hh.
  pose proof (block_hash_add key x nt p) as Hb. pose proof (extra_add key x nt p) as He.
  pose proof (holds_add key x nt p) as Hi. pose proof (blk_add_frame key x nt p) as Hf.
  assert (num_gpu_blocks (add_hash key x nt p) = num_gpu_blocks p) as Hn.
  { unfold add_hash. by destruct (block_hash (blk p x)). }
  unfold cache_inv, blk, holds in *. rewrite Hn.
  assert (block_hash (get_block (free_block_queue p) (Block x)) <> Some key /\
          key ∉ extra_hashes (cached_block_hashes_by_block p) x) as [Hh1 Hh2].
  { split; intros H; apply Hh, (hi_index _ _ _ _ Hp); auto. }
  split.
  - apply HashMap.insert_wf, Hp.
  - intros k y. rewrite Hi, Hb, He, (hi_index _ _ _ _ Hp).
    destruct (decide (x = y)) as [<-|]; [|rewrite decide_False by naive_solver; naive_solver].
    destruct (block_hash (get_block _ (Block x))) as [h|] eqn:E; simpl.
    + rewrite decide_True by done. set_solver.
    + rewrite decide_False by naive_solver. naive_solver.
  - intros k y. rewrite Hb, He. destruct (decide (x = y)) as [<-|].
    + destruct (block_hash (get_block _ (Block x))) as [h|] eqn:E; simpl.
      * rewrite decide_True by done. intros [= ->]. pose proof (hi_primary _ _ _ _ Hp k x E). set_solver.
      * rewrite decide_False by naive_solver. intros [= <-]. done.
    + rewrite decide_False by naive_solver. apply Hp.
  - intros y. rewrite Hb. destruct (decide (x = y)); [done|]. intros Hy.
    unfold add_hash, blk. destruct (block_hash (get_block _ (Block x))); simpl;
      [rewrite lookup_insert_ne by done|]; by apply Hp.
  - intros y Hy. rewrite (proj2 (proj2 (Hf y))) by done. rewrite Hb in Hy.
    case_decide; [done|]. by apply Hp.
  - intros y. rewrite Hb. case_decide; [by subst|]. apply Hp.
Qed.

Lemma keeps_add key x nt p : keeps p (add_hash key x nt p).
Proof.
  split; try (intros y; apply blk_add_frame); unfold add_hash;
    destruct (block_hash (blk p x)); try done. intros. by apply repr_keep_links.
Qed.

Lemma holds_clear x p k y :
  cache_inv p -> holds (clear_hashes x p) k y <-> holds p k y /\ y <> x.
Proof.
  intros Hp. unfold holds. rewrite clear_hashes_index, elem_of_pop_all.
  rewrite (keys_of_index p x k Hp). naive_solver.
Qed.

(** ** Eviction *)

Section events.
Context (use_int : bool).

Definition removed_events (p : BlockPool) (hs : list bytes) : list KVCacheEvent :=
  if enable_kv_cache_events p then map (block_removed_event use_int p) hs else [].

Lemma emit_removed_run hs p :
  emit_block_removed_events use_int hs p =
    (Ok tt, set_kv_events (kv_event_queue p ++ removed_events p hs) p).
Proof.
  unfold emit_block_removed_events, removed_events, bind, gets.
  destruct (enable_kv_cache_events p) eqn:E; simpl.
  2: { rewrite app_nil_r. by destruct p. }
  clear E. revert p. induction hs as [|h hs IH]; intros p; simpl.
  { rewrite app_nil_r. by destruct p. }
  unfold bind, modify. rewrite IH. unfold emit. simpl. by rewrite <- app_assoc.
Qed.

(** The state after [_maybe_evict_cached_block]. *)
Definition evicted (x : nat) (p : BlockPool) : BlockPool :=
  set_kv_events (kv_event_queue p ++ removed_events p (keys_of p x))
    (clear_hashes x (metric (OnEvicted x) p)).

Lemma maybe_evict_run x p :
  cache_inv p ->
  maybe_evict_cached_block use_int x p =
    (Ok (bool_decide (keys_of p x <> [])), evicted x p).
Proof.
  intros Hp. unfold maybe_evict_cached_block, evicted, bind, modify, ret.
  rewrite remove_hashes_run by exact Hp. change (keys_of (metric _ p) x) with (keys_of p x).
  destruct (clear_hashes_core x (metric (OnEvicted x) p)) as (q & m & ->).
  destruct (keys_of p x) as [|k ks]; [|by rewrite emit_removed_run].
  unfold removed_events. by destruct (enable_kv_cache_events p); simpl; rewrite app_nil_r.
Qed.

Lemma evicted_ok x p :
  cache_inv p -> cache_inv (evicted x p) /\ keeps p (evicted x p) /\
  (forall y, block_hash (blk (evicted x p) y) =
     if decide (x = y) then None else block_hash (blk p y)) /\
  (forall k y, holds (evicted x p) k y <-> holds p k y /\ y <> x) /\
  (forall y, y <> x -> blk (evicted x p) y = blk p y).
Proof.
  intros Hp. split_and!.
  - exact (cache_inv_clear x (metric (OnEvicted x) p) Hp).
  - destruct (keeps_clear x (metric (OnEvicted x) p) Hp). by split.
  - intros y. change (blk (evicted x p) y) with (blk (clear_hashes x (metric (OnEvicted x) p)) y).
    rewrite blk_clear by exact Hp. by case_decide.
  - intros k y. exact (holds_clear x (metric (OnEvicted x) p) k y Hp).
  - intros y Hy. change (blk (evicted x p) y) with (blk (clear_hashes x (metric (OnEvicted x) p)) y).
    rewrite blk_clear by exact Hp. by rewrite decide_False.
Qed.

Lemma notify_run bs p : exists w c, notify_reuse bs p = (Ok tt, set_watchers w c p).
Proof.
  revert p. induction bs as [|b bs IH]; intros p.
  { exists (reuse_watchers p), (reuse_calls p). by destruct p. }
  change (exists w c, notify_reuse bs (notify_one b p) = (Ok tt, set_watchers w c p)).
  destruct (IH (notify_one b p)) as (w & c & ->).
  exists w, c. unfold notify_one. by destruct (list_find _ _) as [[? ?]|].
Qed.

(** ** [get_new_blocks] *)

Lemma as_blocks_ok l : as_blocks (Block <$> l) = Ok l.
Proof. induction l as [|x l IH]; [done|]. rewrite fmap_cons. simpl. by rewrite IH. Qed.

(** The hash a block carries and the number of tokens it covers. *)
Definition hash_of (p : BlockPool) (x : nat) : option bytes * option Z :=
  (block_hash (blk p x), block_hash_num_tokens (blk p x)).

(** The blocks [got] of [p] have been handed out; [rest] is still free. *)
Record handed (p : BlockPool) (rest got : list nat) (p' : BlockPool) : Prop := {
  h_config : config p' = config p;
  h_cache : cache_inv p';
  h_repr : FreeQueue.repr (free_block_queue p') rest;
  h_ref : forall y, ref_cnt (blk p' y) = if decide (y ∈ got) then 1 else ref_cnt (blk p y);
  h_null : forall y, is_null (blk p' y) = is_null (blk p y);
  h_hash : forall y, block_hash (blk p' y) =
    if decide (enable_caching p = true /\ y ∈ got) then None else block_hash (blk p y);
  h_holds : forall k y, holds p' k y <-> holds p k y /\ ~ (enable_caching p = true /\ y ∈ got);
  h_others : forall y, y ∉ got -> hash_of p' y = hash_of p y
}.

Lemma take_ref_run x p :
  ref_cnt (blk p x) = 0 ->
  take_ref x p = (Ok tt, metric (OnAllocated x) (upd_blk (add_ref 1) x p)).
Proof. intros E. unfold take_ref, bind, gets, modify, assert_. by rewrite E. Qed.

Lemma handed_take p rest got x p' :
  handed p rest got p' -> x ∉ got -> ref_cnt (blk p x) = 0 -> enable_caching p = false ->
  handed p rest (got ++ [x]) (metric (OnAllocated x) (upd_blk (add_ref 1) x p')).
Proof.
  intros [] Hx Hr Hc. split; try done.
  - by apply cache_inv_ref.
  - by apply repr_keep_links.
  - intros y. change (blk (metric _ ?q) y) with (blk q y). rewrite blk_upd.
    destruct (decide (x = y)) as [<-|Hy]; simpl; rewrite ?h_ref0, ?Hr.
    + rewrite decide_False by done. by rewrite decide_True by set_solver.
    + apply decide_ext. set_solver.
  - intros y. change (blk (metric _ ?q) y) with (blk q y). rewrite blk_upd.
    destruct (decide (x = y)) as [<-|Hy]; simpl; auto.
  - intros y. change (blk (metric _ ?q) y) with (blk q y). rewrite blk_upd.
    destruct (decide (x = y)) as [<-|Hy]; simpl; rewrite h_hash0, !decide_False; try done;
      intros [? _]; congruence.
  - intros k y. change (holds p' k y <-> holds p k y /\ ~ (enable_caching p = true /\ y ∈ got ++ [x])).
    rewrite h_holds0, Hc. split; intros [? _]; (split; [done|intros [? _]; done]).
  - intros y Hy. rewrite <- h_others0 by set_solver. unfold hash_of. change (blk (metric _ ?q) y) with (blk q y).
    rewrite blk_upd, decide_False by set_solver. done.
Qed.

Lemma handed_evict_take p rest got x p' :
  handed p rest got p' -> x ∉ got -> ref_cnt (blk p x) = 0 -> enable_caching p = true ->
  handed p rest (got ++ [x]) (metric (OnAllocated x) (upd_blk (add_ref 1) x (evicted x p'))).
Proof.
  intros [] Hx Hr Hc. destruct (evicted_ok x p') as (Hp & [] & Hh & Hi & Ho); [done|].
  split; try done.
  - change (config (evicted x p') = config p). congruence.
  - by apply cache_inv_ref.
  - apply repr_keep_links; auto.
  - intros y. change (blk (metric _ ?q) y) with (blk q y). rewrite blk_upd.
    destruct (decide (x = y)) as [<-|Hy]; simpl; rewrite k_ref0, ?h_ref0, ?Hr.
    + rewrite decide_False by done. by rewrite decide_True by set_solver.
    + apply decide_ext. set_solver.
  - intros y. change (blk (metric _ ?q) y) with (blk q y). rewrite blk_upd.
    destruct (decide (x = y)) as [<-|Hy]; simpl; by rewrite k_null0.
  - intros y. change (blk (metric _ ?q) y) with (blk q y). rewrite blk_upd.
    destruct (decide (x = y)) as [<-|Hy]; simpl; rewrite Hh.
    + rewrite decide_True by done. by rewrite decide_True by set_solver.
    + rewrite decide_False by done. rewrite h_hash0. apply decide_ext. set_solver.
  - intros k y. change (holds (evicted x p') k y <->
      holds p k y /\ ~ (enable_caching p = true /\ y ∈ got ++ [x])).
    rewrite Hi, h_holds0, elem_of_app, list_elem_of_singleton, Hc. tauto.
  - intros y Hy. rewrite <- h_others0 by set_solver. unfold hash_of. change (blk (metric _ ?q) y) with (blk q y).
    rewrite blk_upd, decide_False, Ho by set_solver. done.
Qed.

Lemma handed_inv p taken rest p' :
  inv p (taken ++ rest) -> handed p rest taken p' -> inv p' rest.
Proof.
  intros [[Hn Hz Hr Hf Hrc Hnul Hout] Hc] [Hcfg]. split; [|done].
  unfold config in Hcfg.
  assert (num_gpu_blocks p' = num_gpu_blocks p /\ null_block p' = null_block p) as [-> ->] by naive_solver.
  pose proof (FreeQueue.repr_nodup _ _ Hr) as Hnd. apply NoDup_app in Hnd as (_ & Hd & _).
  unfold blk in *. split; try done.
  - intros x. rewrite h_ref0. specialize (Hf x). rewrite elem_of_app in Hf.
    destruct (decide (x ∈ taken)) as [Hx|Hx]; [split; [intros; by destruct (Hd x)|lia]|]. tauto.
  - intros x Hx. rewrite h_ref0. destruct (decide (x ∈ taken)); [lia|auto].
  - intros x. by rewrite h_null0.
  - intros x Hx. rewrite h_ref0. destruct (decide (x ∈ taken)) as [Ht|]; [|auto].
    destruct (proj1 (Hf x)) as [[_ Hlt] _]; [apply elem_of_app; by left|lia].
Qed.

Lemma maybe_notify_run (ws : list (nat * nat)) bs p :
  exists w c, (match ws with [] => ret tt | _ => notify_reuse bs end) p = (Ok tt, set_watchers w c p).
Proof.
  destruct ws; [|apply notify_run]. exists (reuse_watchers p), (reuse_calls p). by destruct p.
Qed.

(** The two loops of [get_new_blocks]. *)
Lemma take_blocks_ok p taken rest :
  NoDup taken -> (forall x, x ∈ taken -> ref_cnt (blk p x) = 0) -> handed p rest [] p ->
  wp (if enable_caching p
      then for_ taken (fun id => maybe_evict_cached_block use_int id ;; take_ref id)
      else for_ taken take_ref) (fun _ => handed p rest taken) p.
Proof.
  intros Hnd H0 Hp.
  assert (forall done x todo p', taken = done ++ x :: todo -> handed p rest done p' ->
    x ∉ done /\ ref_cnt (blk p x) = 0 /\ ref_cnt (blk p' x) = 0) as Hx.
  { intros done x todo p' -> H. apply NoDup_app in Hnd as (_ & Hnd & _).
    assert (x ∉ done) as Hxd. { intros ?. apply (Hnd x); [done|]. set_solver. }
    split; [done|]. rewrite (h_ref _ _ _ _ H), decide_False by done. split; apply H0; set_solver. }
  destruct (enable_caching p) eqn:Ec.
  all: apply (wp_for _ _ (fun done _ => handed p rest done)); [done| |done].
  all: intros done x todo p' E H; destruct (Hx _ _ _ _ E H) as (Hxd & Hr & Hr').
  - apply wp_bind. eapply wp_of_run; [by apply maybe_evict_run, H|].
    eapply wp_of_run; [|by eapply handed_evict_take]. apply take_ref_run.
    destruct (evicted_ok x p') as (_ & [] & _); [apply H|]. by rewrite k_ref0.
  - eapply wp_of_run; [by apply take_ref_run|]. by apply handed_take.
Qed.

Lemma get_new_blocks_ok p taken rest :
  inv p (taken ++ rest) ->
  wp (get_new_blocks use_int (zlen taken)) (fun blocks p' =>
    blocks = taken /\ handed p rest taken p') p.
Proof.
  intros [[Hn Hz Hr Hf Hrc Hnul Hout] Hc]. unfold get_new_blocks. wp_simpl.
  pose proof (FreeQueue.repr_nodup _ _ Hr) as Hnd. apply NoDup_app in Hnd as (Hnd & _ & _).
  unfold get_num_free_blocks. rewrite (FreeQueue.repr_num _ _ Hr), length_app.
  destruct (_ >? _) eqn:E; bools; [lia|]. wp_simpl.
  eapply wp_mono; [by apply FreeQueue.popleft_n_ok|]. intros bs q' (-> & Hr' & Hm).
  wp_simpl. exists taken. split; [apply as_blocks_ok|]. wp_simpl.
  destruct (maybe_notify_run (reuse_watchers (set_queue q' p)) taken (set_queue q' p)) as (w & c & Ew).
  eapply wp_of_run; [exact Ew|]. wp_simpl.
  eapply wp_mono; [apply (take_blocks_ok _ taken rest)|].
  - done.
  - intros x Hx. change (ref_cnt (get_block q' (Block x)) = 0).
    rewrite (proj1 (meta_fields _ _ Hm _)). apply Hf. set_solver.
  - split; try done; intros; rewrite ?decide_False by set_solver; try done.
    + by apply (cache_inv_queue q').
    + set_solver.
  - intros [] p' H. wp_simpl. split; [done|]. destruct H. pose proof (meta_fields _ _ Hm) as Hm'.
    split; try done; intros *.
    + rewrite h_ref0. destruct (decide _); [done|]. exact (proj1 (Hm' _)).
    + rewrite h_null0. apply Hm'.
    + rewrite h_hash0. destruct (decide _); [done|]. exact (proj1 (proj2 (Hm' _))).
    + intros Hy. rewrite h_others0 by done. unfold hash_of. f_equal; apply Hm'.
Qed.

(** ** Operations that only move references *)

(** [p'] differs from [p] in counters, free list and logs only. *)
Record same_cache (p p' : BlockPool) : Prop := {
  s_config : config p' = config p;
  s_index : cached_block_hash_to_block p' = cached_block_hash_to_block p;
  s_by_block : cached_block_hashes_by_block p' = cached_block_hashes_by_block p;
  s_hash : forall x, block_hash (blk p' x) = block_hash (blk p x);
  s_tokens : forall x, block_hash_num_tokens (blk p' x) = block_hash_num_tokens (blk p x);
  s_null : forall x, is_null (blk p' x) = is_null (blk p x)
}.

#[export] Instance same_cache_preorder : PreOrder same_cache.
Proof.
  split; [by split|]. intros p1 p2 p3 [] []. split; try congruence; intros; congruence.
Qed.

Lemma same_cache_num p p' :
  same_cache p p' -> num_gpu_blocks p' = num_gpu_blocks p /\ null_block p' = null_block p /\
    enable_caching p' = enable_caching p.
Proof. intros [H]. unfold config in H. naive_solver. Qed.

Lemma same_cache_inv p p' : same_cache p p' -> cache_inv p -> cache_inv p'.
Proof.
  intros H Hp. destruct (same_cache_num _ _ H) as (Hn & _). destruct H. unfold cache_inv.
  rewrite Hn, s_index0, s_by_block0. by eapply hash_inv_frame.
Qed.

Lemma same_cache_queue q p :
  FreeQueue.same_meta (free_block_queue p) q -> same_cache p (set_queue q p).
Proof. intros H. pose proof (meta_fields _ _ H). split; try done; intros x; apply H0. Qed.

Lemma same_cache_ref d x p : same_cache p (upd_blk (add_ref d) x p).
Proof. split; try done; intros y; rewrite blk_upd; by destruct (decide (x = y)) as [<-|]. Qed.

Lemma ref_upd d x p y :
  ref_cnt (blk (upd_blk (add_ref d) x p) y) = ref_cnt (blk p y) + if decide (x = y) then d else 0.
Proof. rewrite blk_upd. destruct (decide (x = y)) as [<-|]; simpl; lia. Qed.

(** How often a block occurs in a list of references. *)
Definition occ (x : nat) (bs : list nat) : Z := zlen (filter (fun b => b = x) bs).
Lemma occ_nil x : occ x [] = 0.
Proof. done. Qed.
Lemma occ_cons x b bs : occ x (b :: bs) = (if decide (b = x) then 1 else 0) + occ x bs.
Proof.
  unfold occ. destruct (decide (b = x)); [rewrite filter_cons_True by done|rewrite filter_cons_False by done];
    simpl length; lia.
Qed.
Lemma occ_app x bs bs' : occ x (bs ++ bs') = occ x bs + occ x bs'.
Proof. unfold occ. rewrite filter_app, length_app. lia. Qed.
Lemma occ_nonneg x bs : 0 <= occ x bs.
Proof. unfold occ. lia. Qed.
Lemma occ_pos x bs : 0 < occ x bs <-> x ∈ bs.
Proof.
  induction bs as [|b bs IH]; [rewrite occ_nil; split; [lia|intros H; by apply not_elem_of_nil in H]|].
  rewrite occ_cons, elem_of_cons, <- IH. pose proof (occ_nonneg x bs).
  destruct (decide (b = x)); naive_solver lia.
Qed.

(** Removing a free block from the free list. *)
Lemma touch_one_ok p free x :
  inv p free -> Z.of_nat x < num_gpu_blocks p ->
  wp (touch_one x) (fun _ p' => inv p' (filter (fun y => y <> x) free) /\ same_cache p p' /\
    forall y, ref_cnt (blk p' y) = ref_cnt (blk p y) + if decide (x = y) then 1 else 0) p.
Proof.
  intros [[Hn Hz Hr Hf Hrc Hnul Hout] Hc] Hx. unfold touch_one. wp_simpl.
  assert (forall p1, FreeQueue.repr (free_block_queue p1) (filter (fun y => y <> x) free) ->
    same_cache p p1 -> (forall y, ref_cnt (blk p1 y) = ref_cnt (blk p y)) ->
    let p' := metric (OnAccessed x) (upd_blk (add_ref 1) x p1) in
    inv p' (filter (fun y => y <> x) free) /\ same_cache p p' /\
    forall y, ref_cnt (blk p' y) = ref_cnt (blk p y) + if decide (x = y) then 1 else 0) as Hend.
  { intros p1 Hr1 Hs1 Hrc1 p'.
    assert (same_cache p p') as Hs. { etrans; [exact Hs1|]. destruct (same_cache_ref 1 x p1). by split. }
    assert (forall y, ref_cnt (blk p' y) = ref_cnt (blk p y) + if decide (x = y) then 1 else 0) as Hrc'.
    { intros y. change (blk p' y) with (blk (upd_blk (add_ref 1) x p1) y). by rewrite ref_upd, Hrc1. }
    split_and!; [|done|done]. split; [|by eapply same_cache_inv].
    destruct (same_cache_num _ _ Hs) as (-> & -> & _). unfold blk in *. split; try done.
    - by apply repr_keep_links.
    - intros y. rewrite list_elem_of_filter, Hf, Hrc'.
      destruct (decide (x = y)) as [<-|]; [|rewrite Z.add_0_r; naive_solver].
      split; [naive_solver|]. intros [[Hy _] H]. specialize (Hrc x Hy). lia.
    - intros y Hy. rewrite Hrc'. specialize (Hrc y Hy). destruct (decide _); lia.
    - intros y. pose proof (s_null _ _ Hs y) as H. unfold blk in H. by rewrite H.
    - intros y Hy. rewrite Hrc', Hout by done. destruct (decide _); lia. }
  assert (x ∈ free <-> (ref_cnt (blk p x) =? 0) && negb (is_null (blk p x)) = true) as Hin.
  { unfold blk. rewrite Hnul, Hf, andb_true_iff, Z.eqb_eq, negb_true_iff, bool_decide_eq_false. tauto. }
  destruct (_ && _) eqn:E; wp_simpl.
  - apply proj2 in Hin. specialize (Hin eq_refl). apply list_elem_of_split in Hin as (l1 & l2 & ->).
    pose proof (FreeQueue.repr_nodup _ _ Hr) as Hnd.
    assert (x ∉ l1 /\ x ∉ l2) as [Hx1 Hx2].
    { apply NoDup_app in Hnd as (_ & Hd & Hnd). apply NoDup_cons in Hnd. set_solver. }
    eapply wp_mono; [by apply FreeQueue.remove_ok|]. intros [] q' [Hr' Hm]. wp_simpl.
    apply Hend; [|by apply same_cache_queue|intros y; apply (meta_fields _ _ Hm)].
    by rewrite FreeQueue.filter_ne_middle.
  - apply Hend; try done. rewrite list_filter_id; [done|]. intros y Hy ->. apply Hin in Hy. done.
Qed.

Lemma touch_ok p free bs :
  inv p free -> (forall x, x ∈ bs -> Z.of_nat x < num_gpu_blocks p) ->
  wp (touch bs) (fun _ p' => inv p' (filter (fun y => y ∉ bs) free) /\ same_cache p p' /\
    forall y, ref_cnt (blk p' y) = ref_cnt (blk p y) + occ y bs) p.
Proof.
  unfold touch. revert p free. induction bs as [|x bs IH]; intros p free Hp Hbs; simpl; wp_simpl.
  { split_and!; [|done|intros; rewrite occ_nil; lia].
    rewrite list_filter_id; [done|]. intros. by apply not_elem_of_nil. }
  eapply wp_mono; [apply touch_one_ok; [done|apply Hbs; set_solver]|].
  intros [] p1 (Hp1 & Hs1 & Hr1). destruct (same_cache_num _ _ Hs1) as (Hn1 & _).
  eapply wp_mono; [apply IH; [exact Hp1|]|].
  { intros y Hy. rewrite Hn1. apply Hbs. set_solver. }
  intros [] p2 (Hp2 & Hs2 & Hr2). split_and!.
  - rewrite list_filter_filter in Hp2. erewrite list_filter_iff; [exact Hp2|].
    intros y. simpl. set_solver.
  - by etrans.
  - intros y. rewrite Hr2, Hr1, occ_cons. lia.
Qed.

(** ** [free_blocks] *)

(** All references to [y] are among the dropped ones. *)
Definition released (p : BlockPool) (done_ : list nat) (y : nat) : Prop :=
  y ∈ done_ /\ y <> 0%nat /\ ref_cnt (blk p y) = occ y done_.
(** A released block that no lookup can hit is reused first. *)
Definition reuse_first (p : BlockPool) (y : nat) : bool :=
  bool_decide (block_hash (blk p y) = None) || negb (enable_caching p).

(** The loop of [free_blocks] after the references [done_] were dropped. *)
Record freeing (p : BlockPool) (free done_ first last : list nat) (p' : BlockPool) : Prop := {
  f_same : same_cache p p';
  f_repr : FreeQueue.repr (free_block_queue p') free;
  f_ref : forall y, ref_cnt (blk p' y) = ref_cnt (blk p y) - occ y done_;
  f_first : forall y, y ∈ first <-> released p done_ y /\ reuse_first p y = true;
  f_last : forall y, y ∈ last <-> released p done_ y /\ reuse_first p y = false;
  f_first_order : first `sublist_of` done_ /\ NoDup first;
  f_last_order : last `sublist_of` done_ /\ NoDup last
}.

Lemma NoDup_snoc {A} (l : list A) x : NoDup l -> x ∉ l -> NoDup (l ++ [x]).
Proof.
  intros Hl Hx. apply NoDup_app. split_and!; [done|set_solver|apply NoDup_singleton].
Qed.

Lemma sublist_NoDup_snoc {A} (l k : list A) x :
  l `sublist_of` k /\ NoDup l -> x ∉ l -> l ++ [x] `sublist_of` k ++ [x] /\ NoDup (l ++ [x]).
Proof. intros [] ?. split; [by apply sublist_app|by apply NoDup_snoc]. Qed.
Lemma sublist_NoDup_skip {A} (l k : list A) x :
  l `sublist_of` k /\ NoDup l -> l `sublist_of` k ++ [x] /\ NoDup l.
Proof. intros []. split; [by apply sublist_inserts_r|done]. Qed.

Lemma occ_snoc y bs x : occ y (bs ++ [x]) = occ y bs + if decide (x = y) then 1 else 0.
Proof. rewrite occ_app, occ_cons, occ_nil. lia. Qed.

Lemma released_snoc p done_ x y :
  (x <> 0%nat -> occ x done_ + 1 <= ref_cnt (blk p x)) ->
  released p (done_ ++ [x]) y <->
    released p done_ y \/ (y = x /\ x <> 0%nat /\ ref_cnt (blk p x) = occ x done_ + 1).
Proof.
  intros Hx. unfold released. rewrite occ_snoc, elem_of_app, list_elem_of_singleton.
  destruct (decide (x = y)) as [<-|]; [|rewrite Z.add_0_r; naive_solver].
  split; [naive_solver|]. intros [(_ & H0 & H1)|(_ & H0 & H1)]; [|naive_solver].
  specialize (Hx H0). lia.
Qed.

Lemma not_released_yet p done_ x :
  (x <> 0%nat -> occ x done_ + 1 <= ref_cnt (blk p x)) -> ~ released p done_ x.
Proof. intros Hx (_ & H0 & H1). specialize (Hx H0). lia. Qed.

(** Dropping one reference: the test of the loop body and the state after it. *)
Lemma drop_ref_ok p free done_ first last x p' :
  (forall y, is_null (blk p y) = bool_decide (y = 0%nat)) ->
  freeing p free done_ first last p' ->
  let p1 := upd_blk (add_ref (-1)) x p' in
  same_cache p p1 /\ FreeQueue.repr (free_block_queue p1) free /\
  (forall y, ref_cnt (blk p1 y) = ref_cnt (blk p y) - occ y (done_ ++ [x])) /\
  ((ref_cnt (blk p1 x) =? 0) && negb (is_null (blk p1 x)) = true <->
     x <> 0%nat /\ ref_cnt (blk p x) = occ x done_ + 1) /\
  bool_decide (block_hash (blk p1 x) = None) || negb (enable_caching p1) = reuse_first p x.
Proof.
  intros Hnul [] p1.
  assert (same_cache p p1) as Hs by (etrans; [exact f_same0|apply same_cache_ref]).
  assert (forall y, ref_cnt (blk p1 y) = ref_cnt (blk p y) - occ y (done_ ++ [x])) as Hrc.
  { intros y. unfold p1. rewrite ref_upd, f_ref0, occ_snoc. destruct (decide _); lia. }
  split_and!; [done|by apply repr_keep_links|done| |].
  - rewrite Hrc, (s_null _ _ Hs), Hnul, occ_snoc, decide_True by done.
    rewrite andb_true_iff, Z.eqb_eq, negb_true_iff, bool_decide_eq_false. split; intros []; split; (done || lia).
  - unfold reuse_first. rewrite (s_hash _ _ Hs). by destruct (same_cache_num _ _ Hs) as (_ & _ & ->).
Qed.

Lemma free_one_ok p free done_ first last x p' :
  (forall y, is_null (blk p y) = bool_decide (y = 0%nat)) ->
  (x <> 0%nat -> occ x done_ + 1 <= ref_cnt (blk p x)) ->
  freeing p free done_ first last p' ->
  wp (free_one (first, last) x) (fun acc => freeing p free (done_ ++ [x]) acc.1 acc.2) p'.
Proof.
  intros Hnul Hx Hf. destruct (drop_ref_ok _ _ _ _ _ x _ Hnul Hf) as (Hs & Hr & Hrc & Hg & Hh).
  pose proof (not_released_yet _ _ _ Hx) as Hnr. pose proof (fun y => released_snoc p done_ x y Hx) as Hrel.
  unfold free_one. wp_simpl. destruct Hf. rewrite Hh.
  assert (x ∉ first /\ x ∉ last) as [Hxf Hxl] by (rewrite f_first0, f_last0; tauto).
  assert (forall y (l : list nat), y ∈ l ++ [x] <-> y ∈ l \/ y = x) as Hsx.
  { intros y l. by rewrite elem_of_app, list_elem_of_singleton. }
  destruct (_ && _) eqn:Ez.
  - destruct (proj1 Hg eq_refl) as [Hx0 Hrx]. destruct (reuse_first p x) eqn:Eu; wp_simpl; split;
      try done; simpl; try (by apply sublist_NoDup_snoc); try (by apply sublist_NoDup_skip);
      intros y; rewrite ?Hsx, Hrel, ?f_first0, ?f_last0;
      (destruct (decide (y = x)) as [->|]; [rewrite Eu|]; intuition congruence).
  - assert (~ (x <> 0%nat /\ ref_cnt (blk p x) = occ x done_ + 1)) as Hn.
    { intros H%Hg. done. }
    wp_simpl. split; try done; simpl; try (by apply sublist_NoDup_skip);
      intros y; rewrite Hrel, ?f_first0, ?f_last0; intuition congruence.
Qed.

Lemma free_loop_ok p free bs :
  inv p free ->
  (forall y, y ∈ bs -> y <> 0%nat -> occ y bs <= ref_cnt (blk p y)) ->
  wp (fold_ bs ([], []) free_one) (fun acc => freeing p free bs acc.1 acc.2) p.
Proof.
  intros [[Hn Hz Hr Hf Hrc Hnul Hout] Hc] Hocc.
  apply (wp_fold _ _ _ (fun done_ _ acc => freeing p free done_ acc.1 acc.2)); [| |auto].
  - split; try done; simpl; try (by split; constructor); intros y; rewrite ?occ_nil; [lia|..];
      unfold released; set_solver.
  - intros done_ x todo [first last] p' -> H. apply free_one_ok; [done| |done].
    intros Hx0. etrans; [|apply (Hocc x); [set_solver|done]].
    rewrite occ_app, occ_cons, decide_True by done. pose proof (occ_nonneg x todo). lia.
Qed.

(** The invariant after the references [bs] were dropped and the released
    blocks linked back. *)
Lemma released_inv p free bs free' p' :
  inv p free ->
  (forall y, y ∈ bs -> y <> 0%nat -> Z.of_nat y < num_gpu_blocks p /\ occ y bs <= ref_cnt (blk p y)) ->
  same_cache p p' -> FreeQueue.repr (free_block_queue p') free' ->
  (forall y, ref_cnt (blk p' y) = ref_cnt (blk p y) - occ y bs) ->
  (forall y, y ∈ free' <-> y ∈ free \/ released p bs y) -> inv p' free'.
Proof.
  intros [[Hn Hz Hr Hf Hrc Hnul Hout] Hc] Hocc Hs Hr' Hrc' Hin. split; [|by eapply same_cache_inv].
  destruct (same_cache_num _ _ Hs) as (-> & -> & _). unfold blk in *. split; try done.
  - intros y. rewrite Hin, Hf, Hrc'. unfold released, blk.
    destruct (decide (y ∈ bs)) as [Hy|Hy].
    + destruct (decide (y = 0%nat)) as [->|Hy0]; [tauto|].
      destruct (Hocc y Hy Hy0). apply occ_pos in Hy as Ho.
      split; [intuition lia|]. intros ([_ ?] & ?). intuition lia.
    + assert (occ y bs = 0) as ->. { pose proof (occ_nonneg y bs). rewrite <- occ_pos in Hy. lia. }
      rewrite Z.sub_0_r. tauto.
  - intros y Hy. rewrite Hrc'. destruct (decide (y ∈ bs)) as [Hb|Hb].
    + destruct (Hocc y Hb Hy). lia.
    + rewrite <- occ_pos in Hb. pose proof (occ_nonneg y bs). specialize (Hrc y Hy). lia.
  - intros y. pose proof (s_null _ _ Hs y) as H. unfold blk in H. by rewrite H.
  - intros y Hy. rewrite Hrc', Hout by done. destruct (decide (y ∈ bs)) as [Hb|Hb].
    + destruct (Hocc y Hb); lia.
    + rewrite <- occ_pos in Hb. pose proof (occ_nonneg y bs). lia.
Qed.

Lemma freeing_nodup p free bs first last p' :
  inv p free -> freeing p free bs first last p' -> NoDup ((first ++ free) ++ last).
Proof.
  intros [[Hn Hz Hr Hf Hrc Hnul Hout] Hc] [].
  assert (forall y, released p bs y -> y ∉ free) as Hnf.
  { intros y (Hy & Hy0 & E) [_ H]%Hf. apply occ_pos in Hy. unfold blk in E. lia. }
  apply NoDup_app. split_and!; [apply NoDup_app; split_and!| |apply f_last_order0].
  - apply f_first_order0.
  - intros y [Hy _]%f_first0. auto.
  - by eapply FreeQueue.repr_nodup.
  - intros y [H|H]%elem_of_app Hy%f_last0; [apply f_first0 in H; destruct H, Hy; congruence|].
    by apply (Hnf y); [apply Hy|].
Qed.

Lemma free_own_blocks_ok p free bs :
  inv p free ->
  (forall y, y ∈ bs -> y <> 0%nat -> Z.of_nat y < num_gpu_blocks p /\ occ y bs <= ref_cnt (blk p y)) ->
  wp (free_own_blocks bs) (fun _ p' => exists first last,
    inv p' (first ++ free ++ last) /\ freeing p (first ++ free ++ last) bs first last p') p.
Proof.
  intros Hp Hocc. unfold free_own_blocks. wp_simpl.
  eapply wp_mono; [apply (free_loop_ok p free); [done|intros; by apply Hocc]|].
  intros [first last] p1 Hf. pose proof (freeing_nodup _ _ _ _ _ _ Hp Hf) as Hnd. destruct Hf.
  simpl in *. wp_simpl.
  eapply wp_mono; [by apply FreeQueue.prepend_n_ok; [|apply NoDup_app in Hnd; apply Hnd]|].
  intros [] q1 [Hr1 Hm1].
  wp_simpl. eapply wp_mono; [by apply FreeQueue.append_n_ok|]. intros [] q2 [Hr2 Hm2].
  rewrite <- app_assoc in Hr2. exists first, last.
  assert (freeing p (first ++ free ++ last) bs first last (set_queue q2 (set_queue q1 p1))) as Hf'.
  { assert (FreeQueue.same_meta (free_block_queue p1) q2) as Hm by (by eapply FreeQueue.same_meta_trans).
    split; try done.
    - etrans; [exact f_same0|]. by apply (same_cache_queue q2 p1).
    - intros y. rewrite <- f_ref0. apply (meta_fields _ _ Hm). }
  split; [|done]. destruct Hf'. eapply released_inv; try done.
  intros y. rewrite !elem_of_app, f_first1, f_last1. destruct (reuse_first p y); intuition congruence.
Qed.

End events.
End Pool.
