(* ===== verification/PoolOps.v ===== *)
(** The block pool ([vllm/v1/core/block_pool.py]), continued: construction,
    [unpin_blocks], [evict_blocks], [reset_prefix_cache] and
    [move_block_hashes] establish or keep the invariant of [BlockPool]. *)
From Stdlib Require Import ZArith Lia Strings.String.
From stdpp Require Import base list numbers gmap strings.
From S2P Require Import Prelude BlockQueue Request BlockHash HashMap BlockPool.
Import Pool.
Open Scope Z_scope.

(** * Construction *)

Lemma pool_init_ok n caching hbs events metrics med :
  0 < n ->
  exists p, Pool.init n caching hbs events metrics med = Ok p /\
    inv p (seq 1 (Z.to_nat (n - 1))) /\
    config p = (n, med, caching, hbs, 0%nat, events) /\
    cached_block_hash_to_block p = ∅ /\
    forall x, ref_cnt (blk p x) = 0 /\ block_hash (blk p x) = None.
Proof.
  intros Hn. unfold Pool.init. destruct (n >? 0) eqn:E; bools; [|lia]. simpl.
  assert (seq 0 (Z.to_nat n) = 0%nat :: seq 1 (Z.to_nat (n - 1))) as Hseq.
  { replace (Z.to_nat n) with (S (Z.to_nat (n - 1))) by lia. done. }
  assert (wp (FreeQueue.init (seq 0 (Z.to_nat n)) ;;
    let! null := FreeQueue.popleft in
    modify (upd_block (with_null true) null) ;; lift (as_block null))
    (fun null q => null = 0%nat /\ FreeQueue.repr q (seq 1 (Z.to_nat (n - 1))) /\
       forall x, FreeQueue.meta (get_block q (Block x)) = (0, None, None, bool_decide (x = 0%nat)))
    FreeQueue.fresh_queue) as H.
  { wp_simpl. eapply wp_mono; [apply FreeQueue.init_ok; [apply NoDup_seq|done]|].
    intros [] q1 [Hr1 Hm1]. rewrite Hseq in Hr1. wp_simpl.
    eapply wp_mono; [by apply FreeQueue.popleft_ok|]. intros l q2 (-> & Hr2 & Hm2). wp_simpl.
    exists 0%nat. split; [done|]. split_and!; [done|by apply repr_keep_links|].
    intros x. assert (FreeQueue.meta (get_block q2 (Block x)) = (0, None, None, false)) as Hx.
    { rewrite Hm2, Hm1. done. }
    rewrite FreeQueue.get_upd. destruct (decide (Block 0 = Block x)) as [[= <-]|Hne].
    - unfold FreeQueue.meta in *. simpl. by injection Hx as -> -> -> _.
    - rewrite bool_decide_eq_false_2; [done|]. congruence. }
  unfold wp in H. destruct ((FreeQueue.init _ ;; _) _) as [[null|] q]; [|done].
  destruct H as (-> & Hr & Hm). eexists. split; [done|].
  assert (forall x, ref_cnt (get_block q (Block x)) = 0 /\ block_hash (get_block q (Block x)) = None /\
    block_hash_num_tokens (get_block q (Block x)) = None /\
    is_null (get_block q (Block x)) = bool_decide (x = 0%nat)) as Hx.
  { intros x. specialize (Hm x). unfold FreeQueue.meta in Hm. naive_solver. }
  split_and!; [|done|done|intros x; split; apply Hx].
  split; split; try done; intros *; simpl.
  - rewrite elem_of_seq. rewrite (proj1 (Hx x)). lia.
  - rewrite (proj1 (Hx x)). lia.
  - apply Hx.
  - intros _. apply Hx.
  - unfold HashMap.blocks_of, extra_hashes. rewrite !lookup_empty, (proj1 (proj2 (Hx x))). set_solver.
  - intros _. apply Hx.
  - by rewrite (proj1 (proj2 (Hx x))).
Qed.

(** * [unpin_blocks] *)

Lemma unpin_loop_ok w p free bs :
  inv p free ->
  (forall y, y ∈ bs -> y <> 0%nat /\ Z.of_nat y < num_gpu_blocks p /\ occ y bs <= ref_cnt (blk p y)) ->
  wp (fold_ bs [] (unpin_one w)) (fun rel p' =>
    same_cache p p' /\ FreeQueue.repr (free_block_queue p') free /\
    (forall y, ref_cnt (blk p' y) = ref_cnt (blk p y) - occ y bs) /\
    (forall y, y ∈ rel <-> released p bs y) /\ (rel `sublist_of` bs /\ NoDup rel)) p.
Proof.
  intros [[Hn Hz Hr Hf Hrc Hnul Hout] Hc] Hocc.
  apply (wp_fold _ _ _ (fun done_ _ rel p' => same_cache p p' /\
    FreeQueue.repr (free_block_queue p') free /\
    (forall y, ref_cnt (blk p' y) = ref_cnt (blk p y) - occ y done_) /\
    (forall y, y ∈ rel <-> released p done_ y) /\ (rel `sublist_of` done_ /\ NoDup rel))); [| |auto].
  { split_and!; [done|done| |unfold released; set_solver|constructor|constructor].
    intros; rewrite occ_nil; lia. }
  intros done_ x todo rel p' -> (Hs & Hr' & Hrc' & Hin & Hord). unfold unpin_one. wp_simpl.
  destruct (Hocc x ltac:(set_solver)) as (Hx0 & _ & Hx).
  rewrite occ_app, occ_cons, decide_True in Hx by done. pose proof (occ_nonneg x todo).
  assert (x <> 0%nat -> occ x done_ + 1 <= ref_cnt (blk p x)) as Hx' by lia.
  split.
  { rewrite Hrc', (s_null _ _ Hs). unfold blk in *. rewrite Hnul, bool_decide_eq_false_2 by done.
    rewrite andb_true_r, Z.gtb_ltb, Z.ltb_lt. lia. }
  set (p1 := upd_blk (add_ref (-1)) x p').
  change (blk (watch x w p1) x) with (blk p1 x).
  assert (forall y, ref_cnt (blk p1 y) = ref_cnt (blk p y) - occ y (done_ ++ [x])) as Hrc1.
  { intros y. unfold p1. rewrite ref_upd, Hrc', occ_snoc. destruct (decide _); lia. }
  assert (same_cache p (watch x w p1)) as Hs1.
  { etrans; [exact Hs|]. destruct (same_cache_ref (-1) x p'). by split. }
  assert (FreeQueue.repr (free_block_queue p1) free) as Hr1 by by apply repr_keep_links.
  rewrite Hrc1, occ_snoc, decide_True by done.
  destruct (_ =? 0) eqn:E; bools; (do 3 (split; [done|])); split.
  - intros y. rewrite elem_of_app, list_elem_of_singleton, Hin, released_snoc by done. intuition lia.
  - apply sublist_NoDup_snoc; [done|]. rewrite Hin. by apply not_released_yet.
  - intros y. rewrite Hin, released_snoc by done. intuition lia.
  - by apply sublist_NoDup_skip.
Qed.

Lemma unpin_blocks_ok w p free bs :
  inv p free ->
  (forall y, y ∈ bs -> y <> 0%nat /\ Z.of_nat y < num_gpu_blocks p /\ occ y bs <= ref_cnt (blk p y)) ->
  wp (unpin_blocks bs w) (fun _ p' => exists rel, inv p' (free ++ rel) /\ same_cache p p' /\
    (forall y, ref_cnt (blk p' y) = ref_cnt (blk p y) - occ y bs) /\
    (forall y, y ∈ rel <-> released p bs y) /\ rel `sublist_of` bs) p.
Proof.
  intros Hp Hocc. unfold unpin_blocks. wp_simpl.
  eapply wp_mono; [by apply (unpin_loop_ok w p free)|].
  intros rel p1 (Hs & Hr & Hrc & Hin & Hsub & Hnd). wp_simpl.
  assert (NoDup (free ++ rel)) as Hnd'.
  { apply NoDup_app. split_and!; [by eapply FreeQueue.repr_nodup| |done].
    intros y Hy (Hy' & _ & E)%Hin. destruct Hp as [[_ _ _ Hf _ _ _] _]. apply Hf in Hy as [_ Hy].
    apply occ_pos in Hy'. unfold blk in E. lia. }
  eapply wp_mono; [by apply FreeQueue.append_n_ok|]. intros [] q [Hr' Hm]. exists rel.
  assert (same_cache p (set_queue q p1)) as Hs' by (etrans; [exact Hs|by apply same_cache_queue]).
  assert (forall y, ref_cnt (blk (set_queue q p1) y) = ref_cnt (blk p y) - occ y bs) as Hrc'.
  { intros y. rewrite <- Hrc. apply (meta_fields _ _ Hm). }
  split_and!; try done. eapply (released_inv p free bs); try done.
  - intros y Hy _. by apply Hocc.
  - intros y. by rewrite elem_of_app, Hin.
Qed.

(** * Eviction by id and reset *)

Lemma keeps_num p p' : keeps p p' -> num_gpu_blocks p' = num_gpu_blocks p.
Proof. intros [H]. by injection H. Qed.

Section hashes.
Context (use_int : bool).

Lemma evict_blocks_ok p free (ids : list nat) :
  inv p free -> (forall x, x ∈ ids -> Z.of_nat x < num_gpu_blocks p) ->
  wp (evict_blocks use_int (map Z.of_nat ids)) (fun _ p' => inv p' free /\ keeps p p' /\
    (forall y, block_hash (blk p' y) = if decide (y ∈ ids) then None else block_hash (blk p y)) /\
    (forall k y, holds p' k y <-> holds p k y /\ y ∉ ids) /\ (forall y, y ∉ ids -> blk p' y = blk p y)) p.
Proof.
  unfold evict_blocks. revert p. induction ids as [|x ids IH]; intros p Hp Hids.
  { cbn [map for_]. wp_simpl. split_and!; [done|done| | |done].
    - intros y. by rewrite decide_False by apply not_elem_of_nil.
    - intros k y. set_solver. }
  cbn [map for_]. wp_simpl. assert (Z.of_nat x < num_gpu_blocks p) as Hx by (apply Hids; by left).
  split; [by apply Z.ltb_lt|]. exists x. split.
  { rewrite py_get_nat, lookup_seq_lt by lia. done. }
  wp_simpl. eapply wp_of_run; [by apply maybe_evict_run, Hp|]. wp_simpl.
  destruct (evicted_ok use_int x p) as (Hc & Hk & Hh & Hi & Ho); [apply Hp|].
  pose proof (keeps_num _ _ Hk) as Hnum.
  eapply wp_mono; [apply IH; [by eapply keeps_inv|]|].
  { intros y Hy. rewrite Hnum. apply Hids. by right. }
  intros [] p' (Hp' & Hk' & Hh' & Hi' & Ho'). split_and!; [done|by etrans| | |].
  - intros y. by rewrite Hh', Hh, decide_elem_cons.
  - intros k y. rewrite Hi', Hi, not_elem_of_cons. tauto.
  - intros y [Hy Hys]%not_elem_of_cons. by rewrite Ho', Ho.
Qed.

Lemma clear_all_ok ids p :
  wp (for_ ids (fun id => modify (upd_blk (with_hash None None) id))) (fun _ p' =>
    keeps p p' /\ cached_block_hash_to_block p' = cached_block_hash_to_block p /\
    cached_block_hashes_by_block p' = cached_block_hashes_by_block p /\
    enable_kv_cache_events p' = enable_kv_cache_events p /\ kv_event_queue p' = kv_event_queue p /\
    forall y, block_hash (blk p' y) = (if decide (y ∈ ids) then None else block_hash (blk p y)) /\
      block_hash_num_tokens (blk p' y) =
        (if decide (y ∈ ids) then None else block_hash_num_tokens (blk p y))) p.
Proof.
  revert p. induction ids as [|x ids IH]; intros p; cbn [for_]; wp_simpl.
  { split_and!; try done; intros y; by rewrite !decide_False by apply not_elem_of_nil. }
  eapply wp_mono; [apply IH|]. intros [] p' (Hk & Hi & Hb & He & Hq & Hh). split_and!; try done.
  - etrans; [|exact Hk]. split; try done; try (by intros; apply repr_keep_links);
      intros y; rewrite blk_upd; by destruct (decide (x = y)) as [<-|].
  - intros y. rewrite (proj1 (Hh y)), (proj2 (Hh y)), !blk_upd.
    rewrite !decide_elem_cons. by destruct (decide (y ∈ ids)), (decide (x = y)).
Qed.

Lemma get_cached_none p h g gs :
  cached_block_hash_to_block p = ∅ -> 0 <= g < 2 ^ 32 -> get_cached_block h (g :: gs) p = Ok None.
Proof.
  intros E Hg. simpl. unfold make_block_hash_with_group_id, to_bytes.
  change (256 ^ Z.of_nat 4) with (2 ^ 32).
  rewrite (proj2 (Z.leb_le 0 g)), (proj2 (Z.ltb_lt g _)) by lia. simpl andb. cbv iota.
  unfold HashMap.get_one_block. by rewrite E, lookup_empty.
Qed.

(** The null block plus the free list account for every block. *)
Lemma reset_in_use p free :
  inv p free ->
  (num_gpu_blocks p - get_num_free_blocks p =? 1) = true <->
  forall x, x <> 0%nat -> Z.of_nat x < num_gpu_blocks p -> ref_cnt (blk p x) = 0.
Proof.
  intros [[Hn Hz Hr Hf Hrc Hnul Hout] Hc]. unfold get_num_free_blocks.
  rewrite (FreeQueue.repr_num _ _ Hr), Z.eqb_eq. pose proof (FreeQueue.repr_nodup _ _ Hr) as Hnd.
  assert (free ⊆ seq 1 (Z.to_nat (num_gpu_blocks p - 1))) as Hsub.
  { intros x Hx. apply Hf in Hx. apply elem_of_seq. lia. }
  assert (length (seq 1 (Z.to_nat (num_gpu_blocks p - 1))) = Z.to_nat (num_gpu_blocks p - 1)) as Hl.
  { apply length_seq. }
  split.
  - intros E x Hx0 Hx. apply Hf.
    assert (free ≡ₚ seq 1 (Z.to_nat (num_gpu_blocks p - 1))) as ->.
    { apply submseteq_length_Permutation; [by apply NoDup_submseteq|lia]. }
    apply elem_of_seq. lia.
  - intros H. assert (free ≡ₚ seq 1 (Z.to_nat (num_gpu_blocks p - 1))) as Hp.
    { apply NoDup_Permutation; [done|apply NoDup_seq|]. intros x. split; [apply Hsub|].
      intros Hx%elem_of_seq. apply Hf. split; [lia|]. apply H; lia. }
    apply Permutation_length in Hp. lia.
Qed.

Lemma some_in_use p :
  (forall x, x <> 0%nat -> 0 <= ref_cnt (blk p x)) ->
  ~ (forall x, x <> 0%nat -> Z.of_nat x < num_gpu_blocks p -> ref_cnt (blk p x) = 0) ->
  exists x, x <> 0%nat /\ Z.of_nat x < num_gpu_blocks p /\ 0 < ref_cnt (blk p x).
Proof.
  intros Hrc Hn.
  destruct (decide (Exists (fun x => 0 < ref_cnt (blk p x)) (seq 1 (Z.to_nat (num_gpu_blocks p - 1)))))
    as [(x & Hx & Hp)%Exists_exists|Hall].
  - apply elem_of_seq in Hx. exists x. split_and!; [lia|lia|done].
  - destruct Hn. intros x Hx0 Hx. specialize (Hrc x Hx0).
    destruct (decide (0 < ref_cnt (blk p x))); [|lia]. destruct Hall. apply Exists_exists.
    exists x. split; [apply elem_of_seq; lia|done].
Qed.

Lemma empty_cache_inv p :
  cached_block_hash_to_block p = ∅ -> cached_block_hashes_by_block p = ∅ ->
  (forall x, block_hash (blk p x) = None /\ block_hash_num_tokens (blk p x) = None) -> cache_inv p.
Proof.
  intros Hi Hb Hn. unfold cache_inv. rewrite Hi, Hb. unfold blk in Hn. split.
  - apply HashMap.wf_empty.
  - intros k x. unfold HashMap.blocks_of, extra_hashes. rewrite !lookup_empty, (proj1 (Hn x)). set_solver.
  - intros k x. by rewrite (proj1 (Hn x)).
  - done.
  - intros x _. apply Hn.
  - intros x. by rewrite (proj1 (Hn x)).
Qed.

(** [reset_prefix_cache]: refused while a block is in use, otherwise every
    entry and every hash is dropped. *)
Lemma reset_ok p free :
  inv p free ->
  wp reset_prefix_cache (fun ok p' =>
    if ok : bool then
      (forall x, x <> 0%nat -> Z.of_nat x < num_gpu_blocks p -> ref_cnt (blk p x) = 0) /\
      inv p' free /\ keeps p p' /\ cached_block_hash_to_block p' = ∅ /\
      (forall x, block_hash (blk p' x) = None)
    else
      p' = p /\ exists x, x <> 0%nat /\ Z.of_nat x < num_gpu_blocks p /\ 0 < ref_cnt (blk p x)) p.
Proof.
  intros Hp. pose proof (reset_in_use p free Hp) as Huse. unfold reset_prefix_cache. wp_simpl.
  destruct (_ =? 1) eqn:E; simpl; wp_simpl.
  2: { split; [done|]. destruct Hp as [[_ _ _ _ Hrc _ _] _]. by apply some_in_use; [|rewrite <- Huse]. }
  set (p1 := set_by_block ∅ (set_index ∅ p)).
  assert (exists w c, (match reuse_watchers p with [] => ret tt | ws => notify_reuse ws.*1 end) p1 =
    (Ok tt, set_watchers w c p1)) as (w & c & Ew).
  { destruct (reuse_watchers p); [|apply notify_run]. eexists _, _. done. }
  eapply wp_of_run; [exact Ew|]. wp_simpl.
  eapply wp_mono; [apply clear_all_ok|]. intros [] p2 (Hk & Hi & Hb & _ & _ & Hh). wp_simpl.
  set (p3 := if enable_kv_cache_events _ then _ else _).
  assert (keeps p2 p3 /\ cached_block_hash_to_block p3 = cached_block_hash_to_block p2 /\
    cached_block_hashes_by_block p3 = cached_block_hashes_by_block p2 /\
    (forall x, blk p3 x = blk p2 x)) as (Hk3 & Hi3 & Hb3 & Hq3).
  { subst p3. destruct (enable_kv_cache_events _); by split_and!; [split|..]. }
  assert (keeps p p3) as Hk' by (etrans; [|exact Hk3]; destruct Hk; by split).
  assert (forall x, block_hash (blk p3 x) = None /\ block_hash_num_tokens (blk p3 x) = None) as Hn.
  { intros x. rewrite Hq3, (proj1 (Hh x)), (proj2 (Hh x)).
    change (blk (set_watchers w c p1) x) with (blk p x).
    destruct (decide (x ∈ seq 0 _)) as [|Hx]; [done|]. destruct Hp as [_ Hc].
    assert (block_hash (blk p x) = None) as Ex.
    { destruct (block_hash (blk p x)) eqn:Eb; [|done]. destruct Hx. apply elem_of_seq.
      pose proof (hi_range _ _ _ _ Hc x) as H. unfold blk in Eb. rewrite Eb in H. destruct H; [done|].
      change (num_gpu_blocks p1) with (num_gpu_blocks p). lia. }
    split; [done|by apply Hc]. }
  split_and!; [by apply Huse| |done|by rewrite Hi3, Hi|intros x; apply Hn].
  eapply keeps_inv; [done| |done]. apply empty_cache_inv; [|by rewrite Hb3, Hb|done].
  by rewrite Hi3, Hi.
Qed.

(** * [move_block_hashes] *)

Lemma insert_hash_ok key x nt p :
  cache_inv p -> x <> 0%nat -> Z.of_nat x < num_gpu_blocks p ->
  wp (insert_block_hash key x nt) (fun _ p' => keeps p p' /\ cache_inv p' /\
    (forall k y, holds p' k y <-> holds p k y \/ (k = key /\ y = x)) /\
    (forall y, (hash_of p' y = hash_of p y /\ (y = x -> block_hash (blk p x) <> None)) \/
       (y = x /\ hash_of p' y = (Some key, nt)))) p.
Proof.
  intros Hp Hx0 Hx. eapply wp_of_run; [by apply insert_hash_run|].
  destruct (decide _) as [Hin|Hin].
  - split_and!; [done|done| |].
    + intros k y. split; [auto|]. by intros [H|[-> ->]].
    + intros y. left. split; [done|]. intros -> Hn. apply (hi_index _ _ _ _ Hp) in Hin. unfold extra_hashes in Hin.
      rewrite (hi_extra _ _ _ _ Hp x Hn) in Hin. unfold blk in Hn. rewrite Hn in Hin. set_solver.
  - split_and!; [apply keeps_add|by apply cache_inv_add|apply holds_add|].
    intros y. unfold add_hash. destruct (block_hash (blk p x)) eqn:E; [by left|].
    unfold hash_of. change (blk (set_index _ ?q) y) with (blk q y). rewrite blk_upd.
    destruct (decide (x = y)) as [<-|]; [by right|by left].
Qed.

Lemma insert_hashes_ok ks x nt p :
  cache_inv p -> x <> 0%nat -> Z.of_nat x < num_gpu_blocks p ->
  wp (for_ ks (fun h => insert_block_hash h x nt)) (fun _ p' => keeps p p' /\ cache_inv p' /\
    forall k y, holds p' k y <-> holds p k y \/ (k ∈ ks /\ y = x)) p.
Proof.
  revert p. induction ks as [|k ks IH]; intros p Hp Hx0 Hx; cbn [for_]; wp_simpl.
  { split_and!; [done|done|]. intros k y. rewrite elem_of_nil. tauto. }
  eapply wp_mono; [by apply insert_hash_ok|]. intros [] p1 (Hk1 & Hp1 & Hh1 & _).
  eapply wp_mono; [apply IH; [done|done|by rewrite (keeps_num _ _ Hk1)]|].
  intros [] p2 (Hk2 & Hp2 & Hh2). split_and!; [by etrans|done|].
  intros k' y. rewrite Hh2, Hh1, elem_of_cons. tauto.
Qed.

Lemma move_block_hashes_ok p free src dst :
  inv p free -> dst <> 0%nat -> Z.of_nat dst < num_gpu_blocks p -> block_hash (blk p dst) = None ->
  wp (move_block_hashes src dst) (fun _ p' => inv p' free /\ keeps p p' /\
    forall k y, holds p' k y <-> (holds p k y /\ y <> src) \/ (holds p k src /\ y = dst)) p.
Proof.
  intros Hp Hd0 Hd Hn. destruct Hp as [Hq Hc]. unfold move_block_hashes. wp_simpl.
  split; [by rewrite bool_decide_eq_true|]. split.
  { rewrite bool_decide_eq_true. by apply (hi_extra _ _ _ _ Hc). }
  eapply wp_of_run; [by apply remove_hashes_run|].
  pose proof (keeps_clear src p Hc) as Hk1.
  eapply wp_mono; [apply insert_hashes_ok; [by apply cache_inv_clear|done|by rewrite (keeps_num _ _ Hk1)]|].
  intros [] p' (Hk & Hc' & Hh). assert (keeps p p') as Hk' by by etrans.
  split_and!; [by eapply keeps_inv|done|].
  intros k y. rewrite Hh, holds_clear, keys_of_index by done. done.
Qed.
End hashes.
