(* ===== verification/PoolCache.v ===== *)
(** Caching the blocks of a request ([cache_full_blocks] and
    [cache_partial_block] of [vllm/v1/core/block_pool.py]): the hashes the pool
    registers are the request's hashes at the block boundaries, and the
    registered blocks are found by [get_cached_block]. *)
From Stdlib Require Import ZArith Lia Strings.String.
From stdpp Require Import base list numbers gmap strings.
From S2P Require Import Prelude BlockQueue Request BlockHash HashMap BlockPool PoolOps.
Import Pool.
Open Scope Z_scope.
Local Arguments py_get : simpl never.
Local Arguments be_bytes : simpl never.

(** * Hashes at the granularity of a group *)

(** The hash of the prefix that ends with block [i] of size [bs]. *)
Definition boundary_hash (hs : list bytes) (hbs bs i : Z) : option bytes :=
  hs !! Z.to_nat ((i + 1) * (bs / hbs) - 1).

Lemma hl_from_raw (hs : list bytes) c :
  0 <= c -> forall i, 0 <= i -> c + i < zlen hs ->
  py_get (py_from c hs) i = hs !! Z.to_nat (c + i).
Proof.
  intros Hc i Hi Hl. rewrite py_from_in, py_get_nonneg, lookup_drop by lia. f_equal. lia.
Qed.

Lemma hl_from_view v c :
  0 < scale_factor v -> 0 <= c ->
  exists l, hl_from (View v) c = Ok l /\
  forall i, 0 <= i -> (c + i + 1) * scale_factor v <= zlen (view_hashes v) ->
    py_get l i = view_get v (c + i).
Proof.
  intros Hs Hc. simpl. set (n := view_len v).
  assert (forall i, 0 <= i < n -> is_Some (view_get v i)) as Hsome.
  { intros i Hi. unfold view_get. rewrite py_get_nonneg by nia. apply lookup_lt_is_Some_2.
    unfold n, view_len in Hi.
    assert ((i + 1) * scale_factor v <= zlen (view_hashes v)); [|nia].
    transitivity (zlen (view_hashes v) / scale_factor v * scale_factor v); [nia|].
    rewrite Z.mul_comm. apply Z.mul_div_le. lia. }
  assert (0 <= n) as Hn by (apply Z.div_pos; lia).
  destruct (mapM_is_Some_2 (view_get v) (py_range (Z.min c n) n)) as [l Hl].
  { apply Forall_forall. intros i Hi%elem_of_py_range. apply Hsome. lia. }
  rewrite Hl. exists l. split; [done|]. intros i Hi Hb.
  assert (c + i < n) as Hlt.
  { unfold n, view_len. apply Z.lt_le_trans with (c + i + 1); [lia|]. apply Z.div_le_lower_bound; lia. }
  apply mapM_Some_1 in Hl. rewrite py_get_nonneg by lia.
  destruct (Forall2_lookup_l _ _ _ (Z.to_nat i) (c + i) Hl) as (y & Hy & Hv).
  { unfold py_range. rewrite lookup_seqZ. lia. }
  rewrite Hy. congruence.
Qed.

Lemma resolve_ok hs hbs bs :
  0 < hbs -> 0 < bs -> bs mod hbs = 0 ->
  exists hl, resolve_block_hashes (Raw hs) hbs bs false None = Ok hl /\
  (forall i, 0 <= i -> (i + 1) * (bs / hbs) <= zlen hs ->
     hl_get hl i = boundary_hash hs hbs bs i) /\
  forall c, 0 <= c -> exists l, hl_from hl c = Ok l /\
    forall i, 0 <= i -> (c + i + 1) * (bs / hbs) <= zlen hs ->
      py_get l i = boundary_hash hs hbs bs (c + i).
Proof.
  intros Hh Hb Hm. unfold resolve_block_hashes, boundary_hash.
  destruct (bs =? hbs) eqn:E; bools.
  - subst hbs. rewrite Z.div_same by lia. eexists. split; [done|]. split.
    + intros i Hi Hl. simpl. rewrite py_get_nonneg by lia. f_equal. lia.
    + intros c Hc. eexists. split; [done|]. intros i Hi Hl.
      rewrite hl_from_raw by lia. f_equal. lia.
  - unfold new_view. rewrite Hm. simpl. eexists. split; [done|].
    assert (0 < bs / hbs) as Hs.
    { apply Z.div_str_pos. split; [lia|]. apply Z.divide_pos_le; [lia|]. by apply Z.mod_divide; [lia|]. }
    split.
    + intros i Hi Hl. simpl. unfold view_get. simpl. by rewrite py_get_nonneg by nia.
    + intros c Hc. destruct (hl_from_view (mkView hs (bs / hbs)) c Hs Hc) as (l & El & Hget).
      exists l. split; [done|]. intros i Hi Hl. rewrite Hget by done. unfold view_get. simpl.
      by rewrite py_get_nonneg by nia.
Qed.

(** * [cache_full_blocks] *)

Section cache.
Context (use_int : bool) (sha256 : bytes -> bytes).

(** Block [x] may receive the hash of a prefix of [n] tokens: it has no hash,
    or a hash of a shorter prefix (partial-to-full promotion). *)
Definition promotable (p : BlockPool) (x : nat) (n : Z) : Prop :=
  block_hash (blk p x) = None \/
  exists m, block_hash_num_tokens (blk p x) = Some m /\ m < n.

Lemma no_hash_not_held p x k : cache_inv p -> block_hash (blk p x) = None -> ~ holds p k x.
Proof.
  intros Hp Hn Hh. apply (hi_index _ _ _ _ Hp) in Hh. unfold extra_hashes in Hh.
  rewrite (hi_extra _ _ _ _ Hp x Hn) in Hh. unfold blk in Hn. rewrite Hn in Hh. set_solver.
Qed.

(** Registering [key] as the primary hash of an unhashed block. *)
Lemma insert_primary_ok key x nt p :
  cache_inv p -> x <> 0%nat -> Z.of_nat x < num_gpu_blocks p -> block_hash (blk p x) = None ->
  wp (insert_block_hash key x nt) (fun _ p' => keeps p p' /\ cache_inv p' /\
    (forall k y, holds p' k y <-> holds p k y \/ (k = key /\ y = x)) /\
    (forall y, block_hash (blk p' y) = (if decide (x = y) then Some key else block_hash (blk p y)) /\
      block_hash_num_tokens (blk p' y) =
        (if decide (x = y) then nt else block_hash_num_tokens (blk p y)))) p.
Proof.
  intros Hp Hx0 Hx Hn. eapply wp_of_run; [by apply insert_hash_run|].
  pose proof (no_hash_not_held p x key Hp Hn) as Hnh. rewrite decide_False by exact Hnh.
  split_and!; [apply keeps_add|by apply cache_inv_add|apply holds_add|].
  intros y. unfold add_hash. rewrite Hn. change (blk (set_index _ ?q) y) with (blk q y).
  rewrite blk_upd. by destruct (decide (x = y)).
Qed.

(** The state and the events after the hashes of [x] were dropped. *)
Definition forgotten (x : nat) (p : BlockPool) : BlockPool :=
  set_kv_events (kv_event_queue p ++ removed_events use_int p (keys_of p x)) (clear_hashes x p).

Lemma forget_run x p :
  cache_inv p ->
  (let! removed := remove_cached_block_hashes x in emit_block_removed_events use_int removed) p =
    (Ok tt, forgotten x p).
Proof.
  intros Hp. unfold bind. rewrite remove_hashes_run by done. rewrite emit_removed_run. unfold forgotten.
  by destruct (clear_hashes_core x p) as (q & m & ->).
Qed.

Lemma wp_forget x p (Q : unit -> BlockPool -> Prop) :
  cache_inv p -> Q tt (forgotten x p) ->
  wp (remove_cached_block_hashes x) (fun removed => wp (emit_block_removed_events use_int removed) Q) p.
Proof.
  intros Hp HQ. apply (wp_bind (remove_cached_block_hashes x) (emit_block_removed_events use_int)).
  by eapply wp_of_run; [apply forget_run|].
Qed.

Lemma forgotten_ok x p :
  cache_inv p -> keeps p (forgotten x p) /\ cache_inv (forgotten x p) /\
  (forall k y, holds (forgotten x p) k y <-> holds p k y /\ y <> x) /\
  (forall y, block_hash (blk (forgotten x p) y) =
     (if decide (x = y) then None else block_hash (blk p y)) /\
   block_hash_num_tokens (blk (forgotten x p) y) =
     (if decide (x = y) then None else block_hash_num_tokens (blk p y))).
Proof.
  intros Hp. split_and!.
  - destruct (keeps_clear x p Hp). by split.
  - exact (cache_inv_clear x p Hp).
  - intros k y. exact (holds_clear x p k y Hp).
  - intros y. change (blk (forgotten x p) y) with (blk (clear_hashes x p) y).
    rewrite blk_clear by done. by destruct (decide (x = y)) as [<-|].
Qed.

Lemma cache_step_skip nbh c bs g mask nh i x p :
  skip_block (is_null (blk p x)) mask i = Ok true ->
  cache_full_step use_int nbh c bs g mask nh (i, x) p = (Ok nh, p).
Proof. intros E. unfold cache_full_step, bind, gets, lift. by rewrite E. Qed.

Lemma cache_step_ok nbh c bs g mask nh i x p h key :
  cache_inv p -> x <> 0%nat -> Z.of_nat x < num_gpu_blocks p ->
  skip_block (is_null (blk p x)) mask i = Ok false ->
  py_get nbh i = Some h -> make_block_hash_with_group_id h g = Ok key ->
  promotable p x ((c + i + 1) * bs) ->
  wp (cache_full_step use_int nbh c bs g mask nh (i, x)) (fun nh' p' =>
    nh' = option_map (fun l => l ++ [maybe_convert_block_hash use_int h]) nh /\
    keeps p p' /\ cache_inv p' /\
    forall y, block_hash (blk p' y) = (if decide (x = y) then Some key else block_hash (blk p y)) /\
      block_hash_num_tokens (blk p' y) =
        (if decide (x = y) then Some ((c + i + 1) * bs) else block_hash_num_tokens (blk p y))) p.
Proof.
  intros Hp Hx0 Hx Hskip Hh Hk Hpr. unfold cache_full_step. wp_simpl.
  exists false. split; [done|]. wp_simpl. exists h. rewrite Hh. split; [done|]. wp_simpl.
  exists key. split; [done|]. wp_simpl.
  destruct (block_hash (blk p x)) as [h0|] eqn:Eb.
  - destruct Hpr as [?|(m & Em & Hm)]; [congruence|]. wp_simpl. rewrite Em.
    split; [by apply Z.ltb_lt|].
    apply wp_forget; [done|].
    destruct (forgotten_ok x p Hp) as (Hk1 & Hp1 & _ & Hb1). wp_simpl.
    eapply wp_mono; [apply insert_primary_ok; [done|done|by rewrite (keeps_num _ _ Hk1)|]|].
    { rewrite (proj1 (Hb1 x)). by rewrite decide_True. }
    intros [] p' (Hk2 & Hp2 & _ & Hb2). wp_simpl. split_and!; [done|by etrans|done|].
    intros y. rewrite (proj1 (Hb2 y)), (proj2 (Hb2 y)), (proj1 (Hb1 y)), (proj2 (Hb1 y)).
    by destruct (decide (x = y)).
  - wp_simpl. eapply wp_mono; [by apply insert_primary_ok|].
    intros [] p' (Hk2 & Hp2 & _ & Hb2). wp_simpl. by split_and!.
Qed.

(** ** The first loop *)

(** The mask keeps position [j]. *)
Definition mask_bit (mask : option (list bool)) (j : Z) : bool :=
  match mask with None => true | Some m => default false (m !! Z.to_nat j) end.
Definition kept (mask : option (list bool)) (e : Z * nat) : bool :=
  negb (bool_decide (e.2 = 0%nat)) && mask_bit mask e.1.

Lemma skip_block_kept mask j x n :
  (match mask with None => True | Some m => 0 <= j < zlen m end) -> n = bool_decide (x = 0%nat) ->
  skip_block n mask j = Ok (negb (kept mask (j, x))).
Proof.
  intros Hm ->. unfold skip_block, masked_out, kept, mask_bit. simpl.
  destruct (bool_decide (x = 0%nat)); [done|]. destruct mask as [m|]; [|done]. simpl.
  rewrite py_get_nonneg by lia.
  destruct (lookup_lt_is_Some_2 m (Z.to_nat j)) as [b Eb]; [lia|]. by rewrite Eb.
Qed.

Section loop.
Context (nbh : list bytes) (c bs g : Z) (mask : option (list bool)) (p : BlockPool).

(** What the loop needs of entry [(i, x)] of the block table. *)
Record entry_ok (e : Z * nat) : Prop := {
  e_mask : match mask with None => True | Some m => 0 <= e.1 < zlen m end;
  e_range : Z.of_nat e.2 < num_gpu_blocks p;
  e_hash : kept mask e = true -> exists h key, py_get nbh e.1 = Some h /\
    make_block_hash_with_group_id h g = Ok key;
  e_promotable : kept mask e = true -> promotable p e.2 ((c + e.1 + 1) * bs)
}.

Definition kept_hashes (es : list (Z * nat)) : list bytes :=
  omap (fun e => if kept mask e then py_get nbh e.1 else None) es.

(** The entries [done_] were cached. *)
Record cached_upto (ev : bool) (done_ : list (Z * nat)) (nh : option (list ExternalBlockHash))
    (p' : BlockPool) : Prop := {
  c_hashes : nh = if ev then Some (map (maybe_convert_block_hash use_int) (kept_hashes done_)) else None;
  c_keeps : keeps p p';
  c_inv : cache_inv p';
  c_cached : forall i x h key, (i, x) ∈ done_ -> kept mask (i, x) = true -> py_get nbh i = Some h ->
    make_block_hash_with_group_id h g = Ok key ->
    block_hash (blk p' x) = Some key /\ block_hash_num_tokens (blk p' x) = Some ((c + i + 1) * bs);
  c_other : forall y, (forall i, (i, y) ∈ done_ -> kept mask (i, y) = false) ->
    block_hash (blk p' y) = block_hash (blk p y) /\
    block_hash_num_tokens (blk p' y) = block_hash_num_tokens (blk p y)
}.

Lemma kept_hashes_snoc es e :
  kept_hashes (es ++ [e]) =
    kept_hashes es ++ (if kept mask e then option_list (py_get nbh e.1) else []).
Proof.
  unfold kept_hashes. rewrite omap_app. f_equal. simpl. destruct (kept mask e); [|done].
  by destruct (py_get nbh e.1).
Qed.

Lemma cached_skip ev done_ nh p' e :
  cached_upto ev done_ nh p' -> kept mask e = false -> cached_upto ev (done_ ++ [e]) nh p'.
Proof.
  intros [] He. split; try done.
  - by rewrite kept_hashes_snoc, He, app_nil_r.
  - intros i x h key [Hin|Hin]%elem_of_app; [by eauto|]. apply list_elem_of_singleton in Hin. congruence.
  - intros y Hy. apply c_other0. intros i Hi. apply Hy, elem_of_app. by left.
Qed.

Lemma cached_step ev done_ i x todo nh p' :
  (forall y, is_null (blk p y) = bool_decide (y = 0%nat)) ->
  entry_ok (i, x) ->
  NoDup (done_ ++ (i, x) :: todo).*1 ->
  (forall j, (j, x) ∈ done_ -> kept mask (j, x) = true -> x <> 0%nat -> j = i) ->
  cached_upto ev done_ nh p' ->
  wp (cache_full_step use_int nbh c bs g mask nh (i, x)) (cached_upto ev (done_ ++ [(i, x)])) p'.
Proof.
  intros Hnul [Hm Hr Hh Hp] Hnd Hdist Hc.
  assert (is_null (blk p' x) = bool_decide (x = 0%nat)) as Hn by by rewrite (k_null _ _ (c_keeps _ _ _ _ Hc)).
  pose proof (skip_block_kept mask i x _ Hm Hn) as Hskip.
  destruct (kept mask (i, x)) eqn:Ek.
  2: { eapply wp_of_run; [by apply cache_step_skip|]. by apply cached_skip. }
  destruct (Hh eq_refl) as (h & key & Eh & Ekey). simpl in Eh.
  assert (x <> 0%nat) as Hx0. { unfold kept in Ek. bools. done. }
  assert (forall j, (j, x) ∈ done_ -> kept mask (j, x) = false) as Hfresh.
  { intros j Hj. destruct (kept mask (j, x)) eqn:Ej; [|done]. specialize (Hdist j Hj Ej Hx0) as ->.
    rewrite fmap_app in Hnd. apply NoDup_app in Hnd as (_ & Hd & _). destruct (Hd i).
    - apply list_elem_of_fmap. by exists (i, x).
    - by left. }
  destruct Hc. destruct (c_other0 x Hfresh) as [Hb Ht].
  eapply wp_mono; [eapply cache_step_ok; try done|].
  - by rewrite (keeps_num _ _ c_keeps0).
  - unfold promotable. rewrite Hb, Ht. by apply Hp.
  - intros nh' p2 (-> & Hk & Hp2 & Hb2). split; [|by etrans|done| |].
    + rewrite kept_hashes_snoc, Ek. simpl. rewrite Eh, c_hashes0. destruct ev; [|done].
      simpl. by rewrite map_app.
    + intros j y h' key' [Hin|Hin]%elem_of_app Hk' Eh' Ekey';
        [|apply list_elem_of_singleton in Hin as [= -> ->]].
      * rewrite (proj1 (Hb2 y)), (proj2 (Hb2 y)).
        destruct (decide (x = y)) as [<-|]; [by rewrite Hfresh in Hk'|]. by eauto.
      * rewrite (proj1 (Hb2 x)), (proj2 (Hb2 x)), !decide_True by done. simpl in *. split; congruence.
    + intros y Hy. rewrite (proj1 (Hb2 y)), (proj2 (Hb2 y)). destruct (decide (x = y)) as [<-|].
      * exfalso. specialize (Hy i). rewrite Ek in Hy. discriminate Hy.
        apply elem_of_app. right. by left.
      * apply c_other0. intros j Hj. apply Hy, elem_of_app. by left.
Qed.

Lemma cache_loop_ok (ev : bool) (es : list (Z * nat)) :
  (forall y, is_null (blk p y) = bool_decide (y = 0%nat)) -> cache_inv p ->
  NoDup es.*1 -> (forall e, e ∈ es -> entry_ok e) ->
  (forall i j x, (i, x) ∈ es -> (j, x) ∈ es -> x <> 0%nat -> i = j) ->
  wp (fold_ es (if ev then Some [] else None) (cache_full_step use_int nbh c bs g mask))
     (cached_upto ev es) p.
Proof.
  intros Hnul Hp Hnd Hes Hdist.
  apply (wp_fold _ _ _ (fun done_ _ nh => cached_upto ev done_ nh)); [| |auto].
  - split; try done. intros. by apply not_elem_of_nil in H.
  - intros done_ [i x] todo nh p' -> Hc. eapply cached_step; try done.
    + apply Hes, elem_of_app. right. by left.
    + intros j Hj _ Hx. apply (Hdist j i x); [apply elem_of_app; by left| |done].
      apply elem_of_app. right. by left.
Qed.
End loop.

(** ** The second loop *)

Definition kept_at (blocks : list nat) (c : Z) (mask : option (list bool)) (i : Z) : bool :=
  match py_get blocks i with Some x => kept mask (i - c, x) | None => false end.

(** Positions of the newly cached blocks. *)
Definition kept_positions (blocks : list nat) (c f : Z) (mask : option (list bool)) : list Z :=
  filter (fun i => kept_at blocks c mask i = true) (py_range c f).

Lemma passed_mono fs j a b : passed fs j a -> a <= b -> passed fs j b.
Proof. intros [Hr Hj] Hab. split; [done|]. intros k f Hf Hk. specialize (Hj k f Hf Hk). lia. Qed.

Lemma stored_step_ok blocks c bs mask ks j p r r' i x :
  0 <= bs -> py_get blocks i = Some x -> is_null (blk p x) = bool_decide (x = 0%nat) ->
  (match mask with None => True | Some m => 0 <= i - c < zlen m end) ->
  features_ok (mm_features r) -> memo_step sha256 r r' -> passed (mm_features r) j (i * bs) ->
  wp (stored_keys_step sha256 blocks c bs mask (ks, j) i) (fun acc s => s.1 = p /\
    memo_step sha256 r s.2 /\ passed (mm_features r) acc.2 ((i + 1) * bs) /\
    acc.1 = ks ++ if kept_at blocks c mask i then [block_keys sha256 r (i * bs) (i * bs + bs)] else []) (p, r').
Proof.
  intros Hbs Ex Hn Hm Hf Hs Hp. unfold stored_keys_step, kept_at. wp_simpl. rewrite Ex.
  exists x. split; [done|]. wp_simpl. simpl.
  eexists. split; [by apply skip_block_kept|].
  destruct (kept mask (i - c, x)); simpl; wp_simpl.
  - pose proof Hs as [[m ->] Hmemo].
    eapply wp_mono; [by apply (generate_keys_ok sha256); [..|lia|]|].
    intros kk r2 (Hk & Hp' & Hs'). wp_simpl. simpl. split_and!; [done| | |by rewrite Hk].
    + eapply memo_step_trans; [exact Hs|exact Hs'].
    + eapply passed_mono; [exact Hp'|]. lia.
  - split_and!; [done|done| |by rewrite app_nil_r]. eapply passed_mono; [done|]. lia.
Qed.

Lemma stored_loop_ok blocks c f bs mask p r :
  0 <= c -> 0 <= bs -> f <= zlen blocks ->
  (forall y, is_null (blk p y) = bool_decide (y = 0%nat)) ->
  (match mask with None => True | Some m => zlen m = f - c end) ->
  features_ok (mm_features r) -> memo_ok sha256 r ->
  wp (fold_ (py_range c f) ([], 0) (stored_keys_step sha256 blocks c bs mask)) (fun acc s =>
    s.1 = p /\ memo_step sha256 r s.2 /\
    acc.1 = map (fun i => block_keys sha256 r (i * bs) (i * bs + bs)) (kept_positions blocks c f mask)) (p, r).
Proof.
  intros Hc Hbs Hf Hn Hm Hfs Hmemo.
  apply (wp_fold _ _ _ (fun done_ todo acc s => s.1 = p /\ memo_step sha256 r s.2 /\
    (forall i, i ∈ todo -> passed (mm_features r) acc.2 (i * bs)) /\
    acc.1 = map (fun i => block_keys sha256 r (i * bs) (i * bs + bs))
      (filter (fun i => kept_at blocks c mask i = true) done_))).
  - simpl. split_and!; [done|by apply memo_step_refl| |done].
    intros i _. split; [lia|]. intros k g _ Hk. lia.
  - intros done_ i todo [ks j] [p' r'] E (Hp & Hs & Hpass & Hks). simpl in *. subst p'.
    assert (i ∈ py_range c f) as Hi by (rewrite E; set_solver). apply elem_of_py_range in Hi.
    destruct (lookup_lt_is_Some_2 blocks (Z.to_nat i)) as [x Ex]; [lia|].
    eapply wp_mono; [apply (stored_step_ok blocks c bs mask ks j p r r' i x); try done|].
    + by rewrite py_get_nonneg by lia.
    + destruct mask; [lia|done].
    + apply Hpass. by left.
    + intros [ks' j'] [p2 r2] (H1 & H2 & H3 & H4). simpl in *. split_and!; try done.
      * intros k Hk. eapply passed_mono; [exact H3|].
        assert (i + 1 <= k); [|nia].
        apply (py_range_later c f done_ i todo); [done|done].
      * rewrite H4, Hks, filter_app, map_app. f_equal.
        destruct (kept_at blocks c mask i) eqn:Ek;
          [by rewrite filter_cons_True|by rewrite filter_cons_False by congruence].
  - intros acc s (H1 & H2 & _ & H4). by split_and!.
Qed.

(** ** The whole method *)

(** The calling contract of [cache_full_blocks(request, blocks, c, f, bs, g, mask)]:
    positions [c, f) of the block table hold blocks of the pool whose tokens are
    all hashed, no block twice, none of them already cached for a longer prefix. *)
Record full_args (p : BlockPool) (r : Request) (blocks : list nat) (c f bs g : Z)
    (mask : option (list bool)) : Prop := {
  fa_range : 0 <= c < f /\ f <= zlen blocks;
  fa_sizes : 0 < hash_block_size p /\ 0 < bs /\ bs mod hash_block_size p = 0;
  fa_hashed : f * (bs / hash_block_size p) <= zlen (block_hashes r);
  fa_group : 0 <= g < 2 ^ 32;
  fa_mask : match mask with None => True | Some m => zlen m = f - c end;
  fa_blocks : forall i x, c <= i < f -> py_get blocks i = Some x -> Z.of_nat x < num_gpu_blocks p;
  fa_distinct : forall i j x, c <= i < f -> c <= j < f ->
    py_get blocks i = Some x -> py_get blocks j = Some x -> x <> 0%nat -> i = j;
  fa_promotable : forall i x, c <= i < f -> py_get blocks i = Some x ->
    kept_at blocks c mask i = true -> promotable p x ((i + 1) * bs)
}.

Lemma make_key_ok h g :
  0 <= g < 2 ^ 32 -> make_block_hash_with_group_id h g = Ok (h ++ be_bytes 4 g).
Proof.
  intros Hg. unfold make_block_hash_with_group_id, to_bytes. change (256 ^ Z.of_nat 4) with (2 ^ 32).
  by rewrite (proj2 (Z.leb_le 0 g)), (proj2 (Z.ltb_lt g _)) by lia.
Qed.

Lemma elem_of_slice (blocks : list nat) c f i x :
  0 <= c <= f -> f <= zlen blocks ->
  (i, x) ∈ enumerate (py_slice c f blocks) <-> 0 <= i /\ c + i < f /\ py_get blocks (c + i) = Some x.
Proof.
  intros Hc Hf. rewrite elem_of_enumerate, py_slice_in by lia. split.
  - intros [Hi Hx]. apply lookup_take_Some in Hx as [Hx Hl]. rewrite lookup_drop in Hx.
    rewrite py_get_nonneg by lia. split_and!; [done|lia|]. rewrite <- Hx. f_equal. lia.
  - intros (Hi & Hl & Hx). split; [done|]. rewrite py_get_nonneg in Hx by lia.
    rewrite lookup_take_lt by lia. rewrite lookup_drop, <- Hx. f_equal. lia.
Qed.

Lemma enumerate_slice (blocks : list nat) c f :
  0 <= c <= f -> f <= zlen blocks ->
  enumerate (py_slice c f blocks) = omap (fun i => pair (i - c) <$> py_get blocks i) (py_range c f).
Proof.
  intros Hc Hf. remember (Z.to_nat (f - c)) as n eqn:En. unfold enumerate, py_range.
  rewrite py_slice_in, length_take, length_drop by lia.
  replace (Z.of_nat (Z.to_nat (f - c) `min` (length blocks - Z.to_nat c)) - 0) with (f - c) by lia.
  assert (forall k, 0 <= k -> k + Z.of_nat n <= f - c ->
    zip (seqZ k (Z.of_nat n)) (take n (drop (Z.to_nat (c + k)) blocks)) =
    omap (fun i => pair (i - c) <$> py_get blocks i) (seqZ (c + k) (Z.of_nat n))) as H.
  2: { specialize (H 0 ltac:(lia) ltac:(lia)). rewrite Z.add_0_r in H.
       by replace (f - c) with (Z.of_nat n) by lia; rewrite Nat2Z.id. }
  clear En. induction n as [|n IH]; intros k Hk Hl; [done|].
  rewrite (seqZ_cons k), (seqZ_cons (c + k)) by lia. replace (Z.pred (Z.of_nat (S n))) with (Z.of_nat n) by lia.
  destruct (lookup_lt_is_Some_2 blocks (Z.to_nat (c + k))) as [x Ex]; [lia|].
  rewrite (drop_S _ x) by done. simpl. rewrite py_get_nonneg, Ex by lia. simpl.
  f_equal; [f_equal; lia|].
  replace (S (Z.to_nat (c + k))) with (Z.to_nat (c + Z.succ k)) by lia.
  rewrite IH by lia. by replace (Z.succ (c + k)) with (c + Z.succ k) by lia.
Qed.

(** The hashes registered by the first loop are those at the positions whose
    keys the second loop collects. *)
Lemma kept_hashes_positions nbh (bh : Z -> option bytes) blocks c f mask :
  0 <= c <= f -> f <= zlen blocks ->
  (forall i, c <= i < f -> py_get nbh (i - c) = bh i) ->
  kept_hashes nbh mask (enumerate (py_slice c f blocks)) =
    omap bh (kept_positions blocks c f mask).
Proof.
  intros Hc Hf Hn. rewrite enumerate_slice by done. unfold kept_hashes, kept_positions.
  assert (forall i, i ∈ py_range c f -> py_get nbh (i - c) = bh i) as Hn'.
  { intros i Hi%elem_of_py_range. by apply Hn. }
  clear Hn. induction (py_range c f) as [|i zs IH]; [done|].
  assert (IH' := IH (fun j Hj => Hn' j ltac:(by right))). clear IH.
  simpl. destruct (py_get blocks i) as [x|] eqn:Ex; simpl.
  - destruct (kept mask (i - c, x)) eqn:Ek.
    + rewrite filter_cons_True by (unfold kept_at; by rewrite Ex). simpl.
      rewrite (Hn' i) by by left. destruct (bh i); [f_equal|]; exact IH'.
    + rewrite filter_cons_False by (unfold kept_at; rewrite Ex; congruence). done.
  - rewrite filter_cons_False by (unfold kept_at; by rewrite Ex). done.
Qed.

Definition stored_event (p : BlockPool) (r : Request) (blocks : list nat) (c f bs g : Z)
    (mask : option (list bool)) : KVCacheEvent :=
  let hash_at := boundary_hash (block_hashes r) (hash_block_size p) bs in
  let at_ := kept_positions blocks c f mask in
  build_block_stored_event p r
    (Some (map (maybe_convert_block_hash use_int) (omap hash_at at_)))
    (if c =? 0 then None else maybe_convert_block_hash use_int <$> hash_at (c - 1))
    (c * bs) (f * bs) bs g (map (fun i => block_keys sha256 r (i * bs) (i * bs + bs)) at_).

(** What [cache_full_blocks] leaves behind. *)
Record full_cached (p : BlockPool) (r : Request) (blocks : list nat) (c f bs g : Z)
    (mask : option (list bool)) (s : BlockPool * Request) : Prop := {
  fc_keeps : keeps p s.1;
  fc_inv : cache_inv s.1;
  fc_request : memo_step sha256 r s.2;
  fc_cached : forall i x, c <= i < f -> py_get blocks i = Some x -> kept_at blocks c mask i = true ->
    exists h, boundary_hash (block_hashes r) (hash_block_size p) bs i = Some h /\
      block_hash (blk s.1 x) = Some (h ++ be_bytes 4 g) /\
      block_hash_num_tokens (blk s.1 x) = Some ((i + 1) * bs);
  fc_other : forall y,
    (forall i, c <= i < f -> py_get blocks i = Some y -> kept_at blocks c mask i = false) ->
    block_hash (blk s.1 y) = block_hash (blk p y) /\
    block_hash_num_tokens (blk s.1 y) = block_hash_num_tokens (blk p y);
  fc_event : enable_kv_cache_events p = true ->
    last (kv_event_queue s.1) = Some (stored_event p r blocks c f bs g mask)
}.

Lemma boundary_some r p bs f i :
  0 < bs / hash_block_size p -> f * (bs / hash_block_size p) <= zlen (block_hashes r) -> 0 <= i < f ->
  exists h, boundary_hash (block_hashes r) (hash_block_size p) bs i = Some h.
Proof. intros. apply lookup_lt_is_Some_2. nia. Qed.

(** The first loop establishes everything but the event. *)
Lemma cache_loop_full p r free blocks c f bs g mask nbh :
  inv p free -> full_args p r blocks c f bs g mask -> 0 < bs / hash_block_size p ->
  (forall i, 0 <= i -> (c + i + 1) * (bs / hash_block_size p) <= zlen (block_hashes r) ->
    py_get nbh i = boundary_hash (block_hashes r) (hash_block_size p) bs (c + i)) ->
  wp (fold_ (enumerate (py_slice c f blocks)) (if enable_kv_cache_events p then Some [] else None)
        (cache_full_step use_int nbh c bs g mask))
     (cached_upto nbh c bs g mask p (enable_kv_cache_events p) (enumerate (py_slice c f blocks))) p.
Proof.
  intros [[_ _ _ _ _ Hnul _] Hc] [] Hsc Hn.
  apply cache_loop_ok; [done|done|apply enumerate_nodup| |].
  - intros [i x] (Hi & Hl & Hx)%elem_of_slice; [|lia|lia]. split; simpl.
    + destruct mask; [lia|done].
    + apply (fa_blocks0 (c + i)); [lia|done].
    + intros _. destruct (boundary_some r p bs f (c + i)) as [h Eh]; [done|done|lia|].
      exists h, (h ++ be_bytes 4 g). split; [|by apply make_key_ok]. rewrite Hn; [done|lia|nia].
    + intros Hk. apply fa_promotable0; [lia|done|]. unfold kept_at. rewrite Hx.
      by replace (c + i - c) with i by lia.
  - intros i j x (Hi & Hil & Hx)%elem_of_slice (Hj & Hjl & Hy)%elem_of_slice Hx0; [|lia..].
    assert (c + i = c + j) by (apply (fa_distinct0 _ _ x); (lia || done)). lia.
Qed.

Lemma cached_upto_full p r blocks c f bs g mask nbh nh p1 :
  full_args p r blocks c f bs g mask -> 0 < bs / hash_block_size p -> memo_ok sha256 r ->
  (forall i, 0 <= i -> (c + i + 1) * (bs / hash_block_size p) <= zlen (block_hashes r) ->
    py_get nbh i = boundary_hash (block_hashes r) (hash_block_size p) bs (c + i)) ->
  cached_upto nbh c bs g mask p (enable_kv_cache_events p) (enumerate (py_slice c f blocks)) nh p1 ->
  (forall i x, c <= i < f -> py_get blocks i = Some x -> kept_at blocks c mask i = true ->
    exists h, boundary_hash (block_hashes r) (hash_block_size p) bs i = Some h /\
      block_hash (blk p1 x) = Some (h ++ be_bytes 4 g) /\
      block_hash_num_tokens (blk p1 x) = Some ((i + 1) * bs)) /\
  (forall y,
    (forall i, c <= i < f -> py_get blocks i = Some y -> kept_at blocks c mask i = false) ->
    block_hash (blk p1 y) = block_hash (blk p y) /\
    block_hash_num_tokens (blk p1 y) = block_hash_num_tokens (blk p y)).
Proof.
  intros [] Hsc Hmemo Hn []. split.
  - intros i x Hi Hx Hk. destruct (boundary_some r p bs f i) as [h Eh]; [done|done|lia|].
    exists h. split; [done|]. unfold kept_at in Hk. rewrite Hx in Hk.
    replace ((i + 1) * bs) with ((c + (i - c) + 1) * bs) by lia.
    apply (c_cached0 (i - c) x h); [|done| |by apply make_key_ok].
    + apply elem_of_slice; [lia|lia|]. replace (c + (i - c)) with i by lia. split_and!; [lia|lia|done].
    + rewrite Hn by nia. by replace (c + (i - c)) with i by lia.
  - intros y Hy. apply c_other0. intros i (Hi & Hl & Hx)%elem_of_slice; [|lia|lia].
    specialize (Hy (c + i) ltac:(lia) Hx). unfold kept_at in Hy. rewrite Hx in Hy.
    by replace (c + i - c) with i in Hy by lia.
Qed.

Lemma cache_full_blocks_ok p r free blocks c f bs g mask :
  inv p free -> features_ok (mm_features r) -> memo_ok sha256 r ->
  full_args p r blocks c f bs g mask ->
  wp (cache_full_blocks use_int sha256 blocks c f bs g mask)
     (fun _ => full_cached p r blocks c f bs g mask) (p, r).
Proof.
  intros Hp Hf Hmemo Ha. pose proof Ha as [Hr (Hh & Hb & Hmod) Hhash Hg Hmask _ _ _].
  assert (0 < bs / hash_block_size p) as Hsc.
  { apply Z.div_str_pos. split; [lia|]. apply Z.divide_pos_le; [lia|]. by apply Z.mod_divide; [lia|]. }
  destruct (resolve_ok (block_hashes r) (hash_block_size p) bs) as (hl & El & Hget & Hfrom); [done..|].
  destruct (Hfrom c) as (nbh & En & Hn); [lia|].
  unfold cache_full_blocks. destruct (c >=? f) eqn:Ecf; bools; [lia|]. wp_simpl. split.
  { destruct mask; [|done]. apply Z.eqb_eq. rewrite py_slice_in, length_take, length_drop by lia. lia. }
  wp_simpl. simpl. exists hl. split; [done|]. wp_simpl. exists nbh. split; [done|]. wp_simpl. simpl.
  eapply wp_mono; [by eapply cache_loop_full|]. intros nh p1 Hc1.
  destruct (cached_upto_full p r blocks c f bs g mask nbh nh p1) as [Hcached Hother]; [done..|].
  destruct Hc1. pose proof (k_config _ _ c_keeps0) as Hcfg. unfold config in Hcfg.
  destruct (enable_kv_cache_events p) eqn:Eev; simpl; wp_simpl.
  2: { split; try done; [by apply memo_step_refl|congruence]. }
  assert (forall y, is_null (blk p1 y) = bool_decide (y = 0%nat)) as Hnul.
  { intros y. rewrite (k_null _ _ c_keeps0). apply Hp. }
  assert (wp (if c =? 0 then ret None else
      let! h := lift (or_raise (hl_get hl (c - 1)) IndexError) in
      ret (Some (maybe_convert_block_hash use_int h)))
    (fun parent s => s = (p1, r) /\ parent = (if c =? 0 then None else
      maybe_convert_block_hash use_int <$>
        boundary_hash (block_hashes r) (hash_block_size p) bs (c - 1))) (p1, r)) as Hparent.
  { destruct (c =? 0) eqn:Ec; wp_simpl; [done|]. bools.
    destruct (boundary_some r p bs f (c - 1)) as [h Eh]; [done|done|lia|].
    exists h. rewrite Hget by nia. rewrite Eh. split; [done|]. by wp_simpl. }
  eapply wp_mono; [exact Hparent|]. intros parent s [-> ->]. clear Hparent. wp_simpl.
  eapply wp_mono; [apply (stored_loop_ok blocks c f bs mask p1 r); try done; lia|].
  intros [keys j] [p2 r2] (E1 & Hs2 & E2). simpl in *. subst p2 keys. wp_simpl. simpl.
  assert (config p1 = config p) as Hcfg' by apply c_keeps0.
  split; simpl; try done.
  - destruct c_keeps0. by split.
  - intros _. rewrite last_snoc. f_equal. unfold stored_event, build_block_stored_event.
    assert (medium p1 = medium p) as -> by by injection Hcfg.
    destruct Hs2 as [[m ->] _]. simpl. rewrite c_hashes0. f_equal. f_equal. f_equal.
    apply kept_hashes_positions; [lia|lia|]. intros i Hi. rewrite Hn by nia. f_equal. lia.
Qed.

(** * [cache_partial_block] *)

Lemma emit_partial_ok p r h n g :
  features_ok (mm_features r) -> memo_ok sha256 r ->
  0 < hash_block_size p -> n mod hash_block_size p = 0 -> 0 < n ->
  n / hash_block_size p <= zlen (block_hashes r) ->
  wp (emit_partial_block use_int sha256 h n g) (fun _ s =>
    memo_step sha256 r s.2 /\ exists e, s.1 = emit e p) (p, r).
Proof.
  intros Hf Hm Hh Hmod Hn Hl. unfold emit_partial_block. wp_simpl. simpl.
  assert (1 <= n / hash_block_size p) as Hk.
  { apply Z.div_le_lower_bound; [lia|]. rewrite Z.mul_1_r.
    apply Z.divide_pos_le; [lia|]. by apply Z.mod_divide; [lia|]. }
  assert (exists ph, get_partial_block_parent_hash_and_start p r n =
    Ok (ph, (n / hash_block_size p - 1) * hash_block_size p)) as [ph Eph].
  { unfold get_partial_block_parent_hash_and_start.
    destruct (_ >? 1) eqn:E; bools; [|by eexists]. rewrite py_get_nonneg by lia.
    destruct (lookup_lt_is_Some_2 (block_hashes r) (Z.to_nat (n / hash_block_size p - 2))) as [x ->]; [lia|].
    by eexists. }
  eexists. split; [exact Eph|]. set (start := (_ - 1) * _). wp_simpl. simpl.
  assert (start <= n) as Hs.
  { unfold start. pose proof (Z.mul_div_le n (hash_block_size p) Hh). nia. }
  assert (passed (mm_features r) 0 start) as Hp0.
  { split; [lia|]. intros k f _ Hk'. lia. }
  assert (wp (match py_get (mm_features r) (-1) with
    | Some last => if (start >? 0) && (range_end last >? start) then
        lift (match get_mm_features_in_window (mm_features r) start n with
              | Ok w => Ok w.1 | Raise e => Raise e end) else ret 0
    | None => ret 0 end)
    (fun j s => s = (p, r) /\ passed (mm_features r) j start) (p, r)) as Hidx.
  { destruct (py_get (mm_features r) (-1)); [|by wp_simpl].
    destruct (_ && _); wp_simpl; [|done].
    destruct (window_lo_passed (mm_features r) start n Hf) as (lo & hi & -> & Hlo). eexists. by split. }
  eapply wp_mono; [exact Hidx|]. intros j s [-> Hj]. wp_simpl. simpl.
  eapply wp_mono; [by apply (generate_keys_ok sha256)|].
  intros ks r' (_ & _ & Hs'). wp_simpl. simpl. eauto.
Qed.

Lemma cache_partial_block_ok p r free x n g bs repl :
  inv p free -> Z.of_nat x < num_gpu_blocks p -> features_ok (mm_features r) -> memo_ok sha256 r ->
  0 < hash_block_size p -> bs mod hash_block_size p = 0 -> n mod hash_block_size p = 0 -> 0 < n ->
  n / hash_block_size p <= zlen (block_hashes r) -> 0 <= g < 2 ^ 32 ->
  wp (cache_partial_block use_int sha256 x n g bs repl) (fun res s =>
    if decide (x = 0%nat) then res = None /\ s = (p, r) else
    exists h, block_hashes r !! Z.to_nat (n / hash_block_size p - 1) = Some h /\
      res = Some (h ++ be_bytes 4 g) /\
      inv s.1 free /\ keeps p s.1 /\ memo_step sha256 r s.2 /\ holds s.1 (h ++ be_bytes 4 g) x /\
      (forall k y, y <> x -> holds s.1 k y <-> holds p k y) /\
      (repl = true -> forall k, holds s.1 k x -> k = h ++ be_bytes 4 g) /\
      (forall y, hash_of s.1 y = hash_of p y \/ (y = x /\ hash_of s.1 y = (Some (h ++ be_bytes 4 g), Some n)))) (p, r).
Proof.
  intros Hp Hx Hf Hm Hh Hbs Hmod Hn Hl Hg. unfold cache_partial_block. wp_simpl. simpl.
  pose proof Hp as [[_ _ _ _ _ Hnul _] Hc].
  replace (is_null (blk p x)) with (bool_decide (x = 0%nat)) by (symmetry; apply Hnul).
  destruct (decide (x = 0%nat)) as [->|Hx0]; [by wp_simpl|].
  rewrite bool_decide_eq_false_2 by done. wp_simpl. split; [by apply Z.eqb_eq|].
  assert (1 <= n / hash_block_size p) as Hk.
  { apply Z.div_le_lower_bound; [lia|]. rewrite Z.mul_1_r.
    apply Z.divide_pos_le; [lia|]. by apply Z.mod_divide; [lia|]. }
  destruct (lookup_lt_is_Some_2 (block_hashes r) (Z.to_nat (n / hash_block_size p - 1))) as [h Eh]; [lia|].
  exists h. split.
  { unfold get_partial_block_hash. rewrite Hmod. simpl.
    rewrite (proj2 (Z.ltb_lt 0 _)), (proj2 (Z.leb_le _ _)) by lia. simpl.
    rewrite py_get_nonneg by lia. by rewrite Eh. }
  wp_simpl. exists (h ++ be_bytes 4 g). split; [by apply make_key_ok|]. set (key := h ++ be_bytes 4 g).
  wp_simpl. set (b := repl || _).
  assert (wp (if b then on_pool (let! removed := remove_cached_block_hashes x in
      emit_block_removed_events use_int removed) else ret tt)
    (fun _ s => s.2 = r /\ keeps p s.1 /\ cache_inv s.1 /\
      (forall k y, y <> x -> holds s.1 k y <-> holds p k y) /\
      (repl = true -> forall k, ~ holds s.1 k x) /\
      (forall y, hash_of s.1 y = hash_of p y \/ (y = x /\ block_hash (blk s.1 x) = None))) (p, r)) as Hrem.
  { destruct b eqn:Eb; wp_simpl.
    - apply wp_forget; [done|]. simpl. destruct (forgotten_ok x p Hc) as (H1 & H2 & H3 & H4).
      split_and!; try done; [intros *; rewrite ?H3; naive_solver..|]. intros y. unfold hash_of.
      destruct (H4 y) as [-> ->], (H4 x) as [-> _]. destruct (decide (x = y)); [right|by left].
      split; [done|by rewrite decide_True].
    - split_and!; try done; [|intros y; by left]. intros Hr. subst b. by rewrite Hr in Eb. }
  eapply wp_mono; [exact Hrem|]. intros [] [p1 r1] (E1 & Hk1 & Hc1 & Hy1 & Hr1 & Hf1). simpl in *. subst r1. wp_simpl. simpl.
  eapply wp_mono; [apply insert_hash_ok; [done|done|by rewrite (keeps_num _ _ Hk1)]|].
  intros [] p2 (Hk2 & Hc2 & Hh2 & Hf2). simpl. wp_simpl.
  assert (keeps p p2) as Hkp by by etrans.
  assert (n / hash_block_size p * hash_block_size p = n) as En by (rewrite Z.mul_comm; symmetry; by apply Z.div_exact; [lia|]).
  assert (forall y, hash_of p2 y = hash_of p y \/ (y = x /\ hash_of p2 y = (Some key, Some n))) as Hfin.
  { intros y. destruct (Hf2 y) as [[E Hne]|[-> E]]; [|right; by rewrite E, En]. rewrite E.
    destruct (Hf1 y) as [|[-> Hno]]; [by left|by destruct Hne]. }
  assert (forall p3, (p3 = p2 \/ exists e, p3 = emit e p2) -> forall r3, memo_step sha256 r r3 ->
    exists h', block_hashes r !! Z.to_nat (n / hash_block_size p - 1) = Some h' /\
      Some key = Some (h' ++ be_bytes 4 g) /\
      inv p3 free /\ keeps p p3 /\ memo_step sha256 r r3 /\ holds p3 (h' ++ be_bytes 4 g) x /\
      (forall k y, y <> x -> holds p3 k y <-> holds p k y) /\
      (repl = true -> forall k, holds p3 k x -> k = h' ++ be_bytes 4 g) /\
      (forall y, hash_of p3 y = hash_of p y \/ (y = x /\ hash_of p3 y = (Some (h' ++ be_bytes 4 g), Some n)))) as Hend.
  { intros p3 Hp3 r3 Hr3. exists h.
    assert (inv p2 free) as Hi2 by by eapply keeps_inv.
    assert (holds p2 key x) as Hhx by (apply Hh2; auto).
    assert (forall k y, y <> x -> holds p2 k y <-> holds p k y) as Hoth.
    { intros k y Hy. rewrite Hh2, Hy1 by done. split; [by intros [?|[_ ?]]|auto]. }
    assert (repl = true -> forall k, holds p2 k x -> k = key) as Hrepl.
    { intros Hr k [H|[H _]]%Hh2; [by destruct (Hr1 Hr k)|done]. }
    destruct Hp3 as [->|[e ->]]; split_and!; try done. destruct Hkp. by split. }
  match goal with |- context [if ?c then emit_partial_block _ _ _ _ _ else _] => destruct c end;
    wp_simpl.
  - assert (hash_block_size p2 = hash_block_size p) as Hhbs.
    { pose proof (k_config _ _ Hkp) as H. by injection H. }
    eapply wp_mono; [apply emit_partial_ok; rewrite ?Hhbs; done|].
    intros [] [p3 r3] [Hs3 He3]. simpl in *. wp_simpl. simpl. apply Hend; auto.
  - simpl. apply Hend; [by left|]. by apply memo_step_refl.
Qed.
End cache.
