(* ===== verification/PoolSafety.v ===== *)
(** What the block pool promises to its clients ([vllm/v1/core/block_pool.py]):
    the invariant holds after every sequence of calls that respects the calling
    contract, and the functional behaviour of the calls clients rely on. *)
From Stdlib Require Import ZArith Lia Strings.String.
From stdpp Require Import base list numbers gmap strings.
From S2P Require Import Prelude BlockQueue Request BlockHash HashMap BlockPool PoolOps PoolCache.
Import Pool.
Open Scope Z_scope.
Local Arguments be_bytes : simpl never.

Section client.
Context (use_int : bool) (sha256 : bytes -> bytes).

(** * Sequences of calls *)

Inductive pool_op :=
| OGetNew (num_blocks : Z)
| OTouch (blocks : list nat)
| OFree (blocks : list nat)
| OUnpin (blocks : list nat) (on_reuse : nat)
| OEvict (ids : list nat)
| OReset
| OMove (src dst : nat)
| OTakeEvents
| OCacheFull (r : Request) (blocks : list nat) (c f bs g : Z) (mask : option (list bool))
| OCachePartial (r : Request) (block : nat) (num_tokens g bs : Z) (replace : bool).

(** Run a method that also takes a request; the request is the client's. *)
Definition with_request {A} (r : Request) (m : M (BlockPool * Request) A) : M BlockPool A :=
  fun p => match m (p, r) with (o, (p', _)) => (o, p') end.

Definition run_op (o : pool_op) : M BlockPool unit :=
  match o with
  | OGetNew n => get_new_blocks use_int n ;; ret tt
  | OTouch bs => touch bs
  | OFree bs => free_own_blocks bs
  | OUnpin bs w => unpin_blocks bs w
  | OEvict ids => evict_blocks use_int (map Z.of_nat ids)
  | OReset => reset_prefix_cache ;; ret tt
  | OMove src dst => move_block_hashes src dst
  | OTakeEvents => take_events ;; ret tt
  | OCacheFull r blocks c f bs g mask =>
      with_request r (cache_full_blocks use_int sha256 blocks c f bs g mask)
  | OCachePartial r x n g bs repl =>
      with_request r (cache_partial_block use_int sha256 x n g bs repl ;; ret tt)
  end.

(** The request is well-formed for caching. *)
Definition request_ok (r : Request) : Prop := features_ok (mm_features r) /\ memo_ok sha256 r.

(** The calling contract: blocks are blocks of the pool, a reference is dropped
    only if it is held, blocks are cached as described by [full_args]. *)
Definition op_ok (p : BlockPool) (o : pool_op) : Prop :=
  match o with
  | OGetNew n => 0 <= n <= get_num_free_blocks p
  | OTouch bs => forall x, x ∈ bs -> Z.of_nat x < num_gpu_blocks p
  | OFree bs => forall y, y ∈ bs -> y <> 0%nat ->
      Z.of_nat y < num_gpu_blocks p /\ occ y bs <= ref_cnt (blk p y)
  | OUnpin bs _ => forall y, y ∈ bs -> y <> 0%nat /\
      Z.of_nat y < num_gpu_blocks p /\ occ y bs <= ref_cnt (blk p y)
  | OEvict ids => forall x, x ∈ ids -> Z.of_nat x < num_gpu_blocks p
  | OReset | OTakeEvents => True
  | OMove _ dst => dst <> 0%nat /\ Z.of_nat dst < num_gpu_blocks p /\ block_hash (blk p dst) = None
  | OCacheFull r blocks c f bs g mask => request_ok r /\ full_args p r blocks c f bs g mask
  | OCachePartial r x n g bs _ => request_ok r /\ Z.of_nat x < num_gpu_blocks p /\
      0 < hash_block_size p /\ bs mod hash_block_size p = 0 /\ n mod hash_block_size p = 0 /\ 0 < n /\
      n / hash_block_size p <= zlen (block_hashes r) /\ 0 <= g < 2 ^ 32
  end.

Inductive reachable : BlockPool -> Prop :=
| reach_init n caching hbs events metrics med p :
    Pool.init n caching hbs events metrics med = Ok p -> reachable p
| reach_step p o res p' :
    reachable p -> op_ok p o -> run_op o p = (res, p') -> reachable p'.

Lemma init_inv n caching hbs events metrics med p :
  Pool.init n caching hbs events metrics med = Ok p -> exists free, inv p free.
Proof.
  intros H. destruct (decide (0 < n)) as [Hn|Hn].
  - destruct (pool_init_ok n caching hbs events metrics med Hn) as (p' & E & Hp & _).
    rewrite H in E. injection E as ->. eexists; exact Hp.
  - unfold Pool.init in H. destruct (n >? 0) eqn:E; bools; [lia|done].
Qed.

Lemma wp_with_request {A} r (m : M (BlockPool * Request) A) Q p :
  wp (with_request r m) Q p <-> wp m (fun a s => Q a s.1) (p, r).
Proof. unfold wp, with_request. by destruct (m (p, r)) as [[] []]. Qed.

Lemma take_free p free n :
  inv p free -> 0 <= n <= get_num_free_blocks p ->
  exists taken rest, free = taken ++ rest /\ n = zlen taken.
Proof.
  intros [[_ _ Hr _ _ _ _] _] Hn. unfold get_num_free_blocks in Hn.
  rewrite (FreeQueue.repr_num _ _ Hr) in Hn.
  exists (take (Z.to_nat n) free), (drop (Z.to_nat n) free). split; [by rewrite take_drop|].
  rewrite length_take. lia.
Qed.

(** Every call within the contract returns and keeps the invariant. *)
Lemma pool_run_op_ok p free o :
  inv p free -> op_ok p o -> wp (run_op o) (fun _ p' => exists free', inv p' free') p.
Proof.
  intros Hp Ho. destruct o; simpl in *.
  - destruct (take_free _ _ _ Hp Ho) as (taken & rest & -> & ->). wp_simpl.
    eapply wp_mono; [by apply get_new_blocks_ok|]. intros bs p' [_ H]. wp_simpl.
    exists rest. by eapply handed_inv.
  - eapply wp_mono; [by apply touch_ok|]. intros [] p' [H _]. eauto.
  - eapply wp_mono; [by apply (free_own_blocks_ok p free)|]. intros [] p' (? & ? & H & _). eauto.
  - eapply wp_mono; [by apply (unpin_blocks_ok _ p free)|]. intros [] p' (? & H & _). eauto.
  - eapply wp_mono; [by apply (evict_blocks_ok _ p free)|]. intros [] p' [H _]. eauto.
  - wp_simpl. eapply wp_mono; [by apply (reset_ok p free)|]. intros ok p' H. wp_simpl.
    destruct ok; [destruct H as (_ & H & _)|destruct H as [-> _]]; eauto.
  - destruct Ho as (H1 & H2 & H3). eapply wp_mono; [by apply (move_block_hashes_ok p free)|].
    intros [] p' [H _]. eauto.
  - unfold take_events. wp_simpl. destruct (enable_kv_cache_events p); simpl; wp_simpl; eauto.
  - destruct Ho as [[Hf Hm] Ha]. apply wp_with_request.
    eapply wp_mono; [by eapply (cache_full_blocks_ok use_int sha256 p)|].
    intros [] s []. exists free. by eapply keeps_inv.
  - destruct Ho as ([Hf Hm] & Hx & Hh & Hb & Hmod & Hn & Hl & Hg). apply wp_with_request. wp_simpl.
    eapply wp_mono; [by eapply (cache_partial_block_ok use_int sha256 p r free)|].
    intros res s H. wp_simpl. destruct (decide (block = 0%nat)).
    + destruct H as [_ ->]. eauto.
    + destruct H as (h & _ & _ & H & _). eauto.
Qed.

Lemma pool_reachable_inv p : reachable p -> exists free, inv p free.
Proof.
  induction 1 as [|p o res p' _ [free Hp] Ho E]; [by eapply init_inv|].
  pose proof (pool_run_op_ok _ _ _ Hp Ho) as H. unfold wp in H. rewrite E in H. by destruct res.
Qed.

(** ** Looking up cached blocks *)

Lemma get_cached_ok p h gs :
  cache_inv p -> (forall g, g ∈ gs -> 0 <= g < 2 ^ 32) ->
  exists res, get_cached_block h gs p = Ok res /\
  match res with
  | Some bs => Forall2 (fun g b => holds p (h ++ be_bytes 4 g) b) gs bs
  | None => exists g, g ∈ gs /\ forall b, ~ holds p (h ++ be_bytes 4 g) b
  end.
Proof.
  intros Hp. induction gs as [|g gs IH]; intros Hgs; simpl; [exists (Some []); split; [done|constructor]|].
  rewrite make_key_ok by (apply Hgs; by left).
  rewrite HashMap.get_one_block_ok by apply Hp.
  destruct (HashMap.blocks_of (cached_block_hash_to_block p) (h ++ be_bytes 4 g)) as [|b bs] eqn:E; cbn [head].
  - eexists. split; [done|]. exists g. split; [by left|]. intros b. unfold holds. rewrite E.
    apply not_elem_of_nil.
  - destruct IH as (res & -> & Hres); [intros; apply Hgs; by right|].
    destruct res as [l|]; eexists; (split; [done|]).
    + constructor; [|done]. unfold holds. rewrite E. by left.
    + destruct Hres as (g' & Hg' & Hno). exists g'. split; [by right|done].
Qed.

(** A block carries its primary hash and the additional ones. *)
Definition carries (p : BlockPool) (key : bytes) (x : nat) : Prop :=
  block_hash (blk p x) = Some key \/ key ∈ extra_hashes (cached_block_hashes_by_block p) x.
Lemma held_in_range p key x : cache_inv p -> holds p key x -> x <> 0%nat /\ Z.of_nat x < num_gpu_blocks p.
Proof.
  intros Hc Hx. apply (hi_range _ _ _ _ Hc). intros E. apply (hi_index _ _ _ _ Hc) in Hx as [Hx|Hx]; [congruence|].
  unfold extra_hashes in Hx. rewrite (hi_extra _ _ _ _ Hc x E) in Hx. set_solver.
Qed.

(** A walk of the free list that ends within its fuel determines the list. *)
Lemma collect_more fuel q curr acc res :
  FreeQueue.collect fuel q curr acc = Ok res ->
  forall fuel', (fuel <= fuel')%nat -> FreeQueue.collect fuel' q curr acc = Ok res.
Proof.
  revert curr acc. induction fuel as [|fuel IH]; intros curr acc H fuel' Hf; simpl in H.
  - destruct (FreeQueue.nxt q curr) eqn:E; [done|]. destruct fuel'; simpl; by rewrite E.
  - destruct fuel' as [|fuel']; [lia|]. simpl. destruct (FreeQueue.nxt q curr); [|done].
    apply IH; [done|lia].
Qed.

Lemma walk_determines q free free' fuel :
  FreeQueue.repr q free' -> FreeQueue.get_all_free_blocks fuel q = Ok (Block <$> free) -> free = free'.
Proof.
  intros Hr H.
  assert (FreeQueue.get_all_free_blocks (fuel + length free') q = Ok (Block <$> free)) as H1.
  { unfold FreeQueue.get_all_free_blocks in *. destruct (FreeQueue.nxt q FakeHead); [|done].
    eapply collect_more; [done|lia]. }
  rewrite (FreeQueue.get_all_free_blocks_ok _ _ _ Hr) in H1 by lia.
  injection H1 as H1. by apply (inj (fmap Block)) in H1.
Qed.

(** * Theorems *)

(** C6: safety of the block pool. After any sequence of calls within the
    contract, starting from a newly built pool: every further call within the
    contract returns normally (no assertion, link or lookup error); walking the
    free list yields, without repetition, exactly the non-null blocks with
    reference count 0, and its length is the free count; and [get_cached_block]
    returns, for each group, a non-null block of the pool that carries the
    requested key as its primary or as an additional hash, or it misses because
    in some group no block carries the key in either way. *)
Theorem pool_safe (p : BlockPool) :
  reachable p ->
  (forall o, op_ok p o -> exists p', run_op o p = (Ok tt, p')) /\
  (exists free, FreeQueue.get_all_free_blocks (length free) (free_block_queue p) = Ok (Block <$> free) /\
     NoDup free /\ get_num_free_blocks p = zlen free /\
     forall x, x ∈ free <-> (x <> 0%nat /\ Z.of_nat x < num_gpu_blocks p) /\ ref_cnt (blk p x) = 0) /\
  (forall h gs, (forall g, g ∈ gs -> 0 <= g < 2 ^ 32) ->
     exists res, get_cached_block h gs p = Ok res /\
     match res with
     | Some bs => Forall2 (fun g b => (b <> 0%nat /\ Z.of_nat b < num_gpu_blocks p) /\ carries p (h ++ be_bytes 4 g) b) gs bs
     | None => exists g, g ∈ gs /\ forall b, ~ carries p (h ++ be_bytes 4 g) b
     end).
Proof.
  intros [free Hp]%pool_reachable_inv. split_and!.
  - intros o Ho. pose proof (pool_run_op_ok _ _ _ Hp Ho) as (a & p' & E & _)%wp_run. destruct a. eauto.
  - destruct Hp as [[_ _ Hr Hf _ _ _] _]. exists free. split_and!; [|by eapply FreeQueue.repr_nodup| |done].
    + by apply FreeQueue.get_all_free_blocks_ok.
    + by apply FreeQueue.repr_num.
  - intros h gs Hgs. destruct Hp as [_ Hc]. destruct (get_cached_ok p h gs Hc Hgs) as (res & E & Hres).
    exists res. split; [done|]. destruct res as [bs|].
    + eapply Forall2_impl; [exact Hres|]. intros g b Hb. split; [exact (held_in_range p _ b Hc Hb)|by apply (hi_index _ _ _ _ Hc)].
    + destruct Hres as (g & Hg & Hno). exists g. split; [done|]. intros b Hb. apply (Hno b). by apply (hi_index _ _ _ _ Hc).
Qed.

(** C9: allocation. On a reachable pool, [get_new_blocks(n)] raises ValueError
    and changes nothing when fewer than [n] blocks are free; otherwise it hands
    out [n] distinct non-null blocks that nobody referenced, each now with
    exactly one reference, leaves every other reference count alone, and with
    caching enabled no lookup can return one of them any more while the other
    blocks stay cached. *)
Theorem get_new_blocks_fresh (p : BlockPool) (n : Z) :
  reachable p -> 0 <= n ->
  if decide (get_num_free_blocks p < n)
  then get_new_blocks use_int n p = (Raise ValueError, p)
  else wp (get_new_blocks use_int n) (fun blocks p' =>
    zlen blocks = n /\ NoDup blocks /\
    (forall x, x ∈ blocks -> x <> 0%nat /\ Z.of_nat x < num_gpu_blocks p /\ ref_cnt (blk p x) = 0) /\
    (forall x, ref_cnt (blk p' x) = if decide (x ∈ blocks) then 1 else ref_cnt (blk p x)) /\
    get_num_free_blocks p' = get_num_free_blocks p - n /\
    (enable_caching p = true -> forall k x, holds p' k x <-> holds p k x /\ x ∉ blocks)) p.
Proof.
  intros [free Hp]%pool_reachable_inv Hn. destruct (decide _) as [Hlt|Hge].
  - unfold get_new_blocks, bind, gets. by rewrite (proj2 (Z.gtb_lt _ _)) by lia.
  - destruct (take_free p free n Hp) as (taken & rest & -> & ->); [lia|].
    eapply wp_mono; [by apply get_new_blocks_ok|]. intros blocks p' [-> H].
    pose proof (handed_inv _ _ _ _ Hp H) as Hp'. destruct H.
    destruct Hp as [[_ _ Hr Hf _ _ _] _], Hp' as [[_ _ Hr' _ _ _ _] _].
    pose proof (FreeQueue.repr_nodup _ _ Hr) as Hnd. apply NoDup_app in Hnd as (Hnd & _).
    unfold get_num_free_blocks. rewrite (FreeQueue.repr_num _ _ Hr), (FreeQueue.repr_num _ _ Hr'), length_app.
    split_and!; [done|done| |done|lia|].
    + intros x Hx. assert (x ∈ taken ++ rest) as [[] ?]%Hf by (apply elem_of_app; by left). done.
    + intros Hec k x. rewrite h_holds0, Hec. intuition.
Qed.


(** C23: caching makes blocks reusable. [cache_full_blocks] called within its
    contract on a reachable pool returns, keeps the invariant, and afterwards
    every newly cached position is a hit: [get_cached_block] with the request's
    hash at the end of that block finds a block that carries it in the group.
    No other block's hash changes, and with events enabled the last published
    event announces exactly the cached positions, with one extra-keys entry per
    announced hash. *)
Theorem cached_blocks_found (p : BlockPool) (r : Request) blocks c f bs g mask :
  reachable p -> op_ok p (OCacheFull r blocks c f bs g mask) ->
  wp (cache_full_blocks use_int sha256 blocks c f bs g mask) (fun _ s =>
    (exists free, inv s.1 free) /\
    (forall i x, c <= i < f -> py_get blocks i = Some x -> kept_at blocks c mask i = true ->
       exists h b, boundary_hash (block_hashes r) (hash_block_size p) bs i = Some h /\
         get_cached_block h [g] s.1 = Ok (Some [b]) /\ holds s.1 (h ++ be_bytes 4 g) x) /\
    (forall y, (forall i, c <= i < f -> py_get blocks i = Some y -> kept_at blocks c mask i = false) ->
       block_hash (blk s.1 y) = block_hash (blk p y)) /\
    (enable_kv_cache_events p = true ->
       last (kv_event_queue s.1) = Some (stored_event use_int sha256 p r blocks c f bs g mask))) (p, r).
Proof.
  intros [free Hp]%pool_reachable_inv [[Hf Hm] Ha].
  eapply wp_mono; [by eapply (cache_full_blocks_ok use_int sha256 p)|].
  intros [] s [Hkp Hci _ Hcd Hot Hev].
  split_and!; [exists free; by eapply keeps_inv| |intros y Hy; by apply Hot|done].
  intros i x Hi Hx Hk. destruct (Hcd i x Hi Hx Hk) as (h & Eh & Hh & _).
  assert (holds s.1 (h ++ be_bytes 4 g) x) as Hhold by (apply (hi_index _ _ _ _ Hci); by left).
  destruct (get_cached_ok s.1 h [g] Hci) as (res & Er & Hres).
  { intros g' ->%list_elem_of_singleton. apply Ha. }
  exists h. destruct res as [l|].
  - apply Forall2_cons_inv_l in Hres as (b & l' & Hb & Hnil & ->). apply Forall2_nil_inv_l in Hnil as ->.
    exists b. done.
  - destruct Hres as (g' & ->%list_elem_of_singleton & Hno). by destruct (Hno x).
Qed.

(** Partial entries. [cache_partial_block] on a reachable pool returns the
    key of the request's prefix hash at [num_tokens] and makes the block
    reachable under it; entries of other blocks are untouched, and with
    [replace_existing_hashes] the new key is the only one left on the block.
    For the null block it does nothing. *)
Theorem partial_block_registered (p : BlockPool) (r : Request) x n g bs repl :
  reachable p -> op_ok p (OCachePartial r x n g bs repl) ->
  wp (cache_partial_block use_int sha256 x n g bs repl) (fun res s =>
    if decide (x = 0%nat) then res = None /\ s = (p, r) else
    exists h, block_hashes r !! Z.to_nat (n / hash_block_size p - 1) = Some h /\
      res = Some (h ++ be_bytes 4 g) /\ (exists free, inv s.1 free) /\
      holds s.1 (h ++ be_bytes 4 g) x /\
      (forall k y, y <> x -> holds s.1 k y <-> holds p k y) /\
      (repl = true -> forall k, holds s.1 k x -> k = h ++ be_bytes 4 g)) (p, r).
Proof.
  intros [free Hp]%pool_reachable_inv ([Hf Hm] & Hx & Hh & Hb & Hmod & Hn & Hl & Hg).
  eapply wp_mono; [by eapply (cache_partial_block_ok use_int sha256 p r free)|].
  intros res s H. destruct (decide (x = 0%nat)); [done|].
  destruct H as (h & E & -> & Hi & _ & _ & H1 & H2 & H3 & _). exists h.
  split_and!; try done. by exists free.
Qed.

(** C29: [reset_prefix_cache] on a reachable pool succeeds exactly when no block
    is referenced; then no lookup hits any more and no block carries a hash.
    Otherwise it returns False and changes nothing. *)
Theorem reset_clears_cache (p : BlockPool) :
  reachable p ->
  wp reset_prefix_cache (fun ok p' =>
    (ok = true <-> forall x, x <> 0%nat -> Z.of_nat x < num_gpu_blocks p -> ref_cnt (blk p x) = 0) /\
    (ok = true -> (exists free, inv p' free) /\ (forall x, block_hash (blk p' x) = None) /\
       forall h g gs, 0 <= g < 2 ^ 32 -> get_cached_block h (g :: gs) p' = Ok None) /\
    (ok = false -> p' = p)) p.
Proof.
  intros [free Hp]%pool_reachable_inv. eapply wp_mono; [by apply (reset_ok p free)|].
  intros [] p' H.
  - destruct H as (Hz & Hp' & _ & Hi & Hn). split_and!; [done| |done].
    intros _. split_and!; [by exists free|done|]. intros. by apply get_cached_none.
  - destruct H as (-> & x & Hx0 & Hx & Hr). split_and!; [|done|done]. split; [done|].
    intros H. specialize (H x Hx0 Hx). lia.
Qed.

(** C28: [touch] on a reachable pool adds one reference per occurrence and takes
    the touched blocks out of the free list, keeping the order of the others;
    no cache entry changes. *)
Theorem touch_pins_blocks (p : BlockPool) (free bs : list nat) :
  reachable p -> FreeQueue.get_all_free_blocks (length free) (free_block_queue p) = Ok (Block <$> free) ->
  op_ok p (OTouch bs) ->
  wp (touch bs) (fun _ p' =>
    let free' := filter (fun x => x ∉ bs) free in
    FreeQueue.get_all_free_blocks (length free') (free_block_queue p') = Ok (Block <$> free') /\
    (forall x, ref_cnt (blk p' x) = ref_cnt (blk p x) + occ x bs) /\
    (forall x, block_hash (blk p' x) = block_hash (blk p x)) /\
    cached_block_hash_to_block p' = cached_block_hash_to_block p) p.
Proof.
  intros [free' Hp]%pool_reachable_inv Hfree Ho. pose proof Hp as [[_ _ Hr _ _ _ _] _].
  pose proof (walk_determines _ _ _ _ Hr Hfree) as ->.
  eapply wp_mono; [by apply touch_ok|]. intros [] p' ([[_ _ Hr' _ _ _ _] _] & [] & Hrc).
  split_and!; try done. by apply FreeQueue.get_all_free_blocks_ok.
Qed.
End client.

(** * Freeing across pools *)

Lemma at_pool_some {A} pid (m : M BlockPool A) (ps : pools) p :
  ps !! pid = Some p -> at_pool pid m ps = (let '(o, p') := m p in (o, <[pid := p']> ps)).
Proof. intros E. unfold at_pool. by rewrite E. Qed.

(** The blocks of pool [q] among the references, in order. *)
Definition ids_of (q : nat) (refs : list (nat * nat)) : list nat :=
  (filter (fun e : nat * nat => e.1 = q) refs).*2.

(** [other_pools] after the loop. *)
Definition groups (self : nat) (refs : list (nat * nat)) (g : list (nat * list nat)) :
    list (nat * list nat) :=
  foldl (fun g e => if decide (e.1 = self) then g else group_add e.1 e.2 g) g refs.

Lemma free_one_run acc x p :
  exists acc', free_one acc x p = (Ok acc', upd_blk (add_ref (-1)) x p).
Proof.
  unfold free_one, bind, modify, gets. destruct (_ && _); [|by eexists].
  destruct (_ || _); by eexists.
Qed.

Lemma free_own_loop_run ids acc p : exists acc' p', fold_ ids acc free_one p = (Ok acc', p').
Proof.
  revert acc p. induction ids as [|x ids IH]; intros acc p; [by eexists _, _|].
  simpl. unfold bind. destruct (free_one_run acc x p) as [acc' ->]. apply IH.
Qed.

Lemma free_ref_own self acc others x (ps : pools) p acc' p' :
  ps !! self = Some p -> free_one acc x p = (Ok acc', p') ->
  free_ref self (acc, others) (self, x) ps = (Ok (acc', others), <[self := p']> ps).
Proof.
  intros Hp E. destruct acc as [first last]. unfold free_ref. cbn [fst snd].
  rewrite bool_decide_eq_true_2 by done. cbn [negb]. unfold bind.
  by rewrite (at_pool_some _ _ _ _ Hp), E.
Qed.

Lemma free_ref_other self acc others q x (ps : pools) :
  q <> self -> free_ref self (acc, others) (q, x) ps = (Ok (acc, group_add q x others), ps).
Proof.
  intros Hq. destruct acc as [first last]. unfold free_ref. cbn [fst snd].
  by rewrite bool_decide_eq_false_2.
Qed.

Lemma free_ref_loop self refs acc others (ps : pools) p :
  ps !! self = Some p ->
  fold_ refs (acc, others) (free_ref self) ps =
    (let '(o, p') := fold_ (ids_of self refs) acc free_one p in
     (match o with Ok a => Ok (a, groups self refs others) | Raise e => Raise e end,
      <[self := p']> ps)).
Proof.
  revert acc others ps p. induction refs as [|[q x] refs IH]; intros acc others ps p Hp.
  { simpl. unfold ret. by rewrite insert_id. }
  cbn [fold_]. unfold bind, ids_of. destruct (decide (q = self)) as [->|Hq].
  - rewrite filter_cons_True, fmap_cons by done. cbn [fold_ snd]. unfold bind.
    destruct (free_one_run acc x p) as [acc' E].
    rewrite (free_ref_own _ _ _ _ _ _ _ _ Hp E), E.
    rewrite (IH acc' others _ (upd_blk (add_ref (-1)) x p)) by by rewrite lookup_insert_eq.
    unfold ids_of, groups. cbn [foldl fst snd]. rewrite decide_True by done.
    destruct (fold_ _ acc' free_one _) as [o p']. by rewrite insert_insert_eq.
  - rewrite free_ref_other by done.
    rewrite (IH _ _ _ p Hp), filter_cons_False by done.
    unfold ids_of, groups. cbn [foldl fst snd]. by rewrite decide_False by done.
Qed.

Lemma ids_of_own pid ids : ids_of pid (map (pair pid) ids) = ids.
Proof.
  unfold ids_of. induction ids as [|x ids IH]; [done|]. cbn [map].
  rewrite filter_cons_True, fmap_cons, IH by done. done.
Qed.

Lemma groups_own pid ids : groups pid (map (pair pid) ids) [] = [].
Proof.
  unfold groups. induction ids as [|x ids IH]; [done|]. cbn [map foldl fst snd].
  by rewrite decide_True by done.
Qed.

(** One level of the recursion: the pool's own blocks, then the other pools. *)
Lemma free_blocks_level depth self refs (ps : pools) p p' :
  ps !! self = Some p -> free_own_blocks (ids_of self refs) p = (Ok tt, p') ->
  free_blocks (S depth) self refs ps =
    for_ (groups self refs []) (fun g => free_blocks depth g.1 (map (pair g.1) g.2)) (<[self := p']> ps).
Proof.
  intros Hp E. cbn [free_blocks]. unfold bind at 1. rewrite (free_ref_loop _ _ _ _ _ _ Hp).
  unfold free_own_blocks, bind in E.
  destruct (fold_ (ids_of self refs) ([], []) free_one p) as [[acc|] p1]; [|done].
  cbn [fst snd]. unfold bind.
  rewrite (at_pool_some _ _ _ p1) by by rewrite lookup_insert_eq.
  destruct (on_queue (FreeQueue.prepend_n (Block <$> acc.1)) p1) as [[[]|] p2]; [|done].
  rewrite (at_pool_some _ _ _ p2) by by rewrite lookup_insert_eq.
  destruct (on_queue (FreeQueue.append_n (Block <$> acc.2)) p2) as [[[]|] p3]; [|done].
  injection E as <-. by rewrite !insert_insert_eq.
Qed.

Lemma free_blocks_own depth pid ids (ps : pools) p p' :
  ps !! pid = Some p -> free_own_blocks ids p = (Ok tt, p') ->
  free_blocks (S depth) pid (map (pair pid) ids) ps = (Ok tt, <[pid := p']> ps).
Proof.
  intros Hp E. rewrite (free_blocks_level depth pid _ ps p p'); [|done|by rewrite ids_of_own].
  by rewrite groups_own.
Qed.

(** The groups: one per other pool, with that pool's blocks in order. *)
Lemma group_add_keys pid id g :
  (forall q, q ∈ (group_add pid id g).*1 <-> q = pid \/ q ∈ g.*1) /\
  (NoDup g.*1 -> NoDup (group_add pid id g).*1).
Proof.
  induction g as [|[q ids] g [IH1 IH2]]; simpl.
  { split; [set_solver|intros _; apply NoDup_singleton]. }
  destruct (decide (q = pid)) as [->|Hq]; simpl; [split; [set_solver|done]|].
  split; [set_solver|]. rewrite !NoDup_cons. intros [H1 H2]. split; [|auto]. rewrite IH1. naive_solver.
Qed.

Lemma elem_of_group_add pid id g q ids :
  NoDup g.*1 -> (q, ids) ∈ group_add pid id g ->
  (q <> pid /\ (q, ids) ∈ g) \/
  (q = pid /\ ((pid ∉ g.*1 /\ ids = [id]) \/ exists old, (pid, old) ∈ g /\ ids = old ++ [id])).
Proof.
  induction g as [|[q' ids'] g IH]; simpl; intros Hnd.
  { intros [= -> ->]%list_elem_of_singleton. right. split; [done|]. left. split; [apply not_elem_of_nil|done]. }
  apply NoDup_cons in Hnd as [Hq' Hnd]. destruct (decide (q' = pid)) as [->|Hne].
  - intros [[= -> ->]|Hin]%elem_of_cons.
    + right. split; [done|]. right. exists ids'. split; [by left|done].
    + left. split; [|by right]. intros ->. apply Hq', list_elem_of_fmap. by exists (pid, ids).
  - intros [[= -> ->]|Hin]%elem_of_cons; [left; split; [done|by left]|].
    destruct (IH Hnd Hin) as [[? ?]|[-> [[Hn ->]|(old & Ho & ->)]]].
    + left. split; [done|by right].
    + right. split; [done|]. left. split; [|done]. rewrite not_elem_of_cons. naive_solver.
    + right. split; [done|]. right. exists old. split; [by right|done].
Qed.

Lemma ids_of_snoc q refs e :
  ids_of q (refs ++ [e]) = ids_of q refs ++ (if decide (e.1 = q) then [e.2] else []).
Proof.
  unfold ids_of. rewrite filter_app, fmap_app. f_equal.
  destruct (decide (e.1 = q)); [by rewrite filter_cons_True|by rewrite filter_cons_False].
Qed.

Lemma elem_of_ids_of q refs x : x ∈ ids_of q refs <-> (q, x) ∈ refs.
Proof.
  unfold ids_of. rewrite list_elem_of_fmap. split.
  - intros ([q' y] & -> & [Hq Hin]%list_elem_of_filter). simpl in *. by subst.
  - intros Hin. exists (q, x). split; [done|]. by apply list_elem_of_filter.
Qed.

Lemma ids_of_nil q refs : (forall e, e ∈ refs -> e.1 <> q) -> ids_of q refs = [].
Proof.
  intros H. destruct (ids_of q refs) as [|x l] eqn:E; [done|].
  assert (x ∈ ids_of q refs) as Hx%elem_of_ids_of by (rewrite E; by left). by apply H in Hx.
Qed.

Lemma groups_snoc self refs e g :
  groups self (refs ++ [e]) g =
    if decide (e.1 = self) then groups self refs g else group_add e.1 e.2 (groups self refs g).
Proof. unfold groups. by rewrite foldl_app. Qed.

Lemma groups_correct self refs :
  let g := groups self refs [] in
  NoDup g.*1 /\ (forall q ids, (q, ids) ∈ g -> q <> self /\ ids = ids_of q refs) /\
  (forall q, q ∈ g.*1 <-> q <> self /\ exists x, (q, x) ∈ refs).
Proof.
  induction refs as [|e refs (IH1 & IH2 & IH3)] using rev_ind; intros g.
  { split_and!; [constructor|intros q ids H; by apply not_elem_of_nil in H|]. intros q. split.
    - intros H. by apply not_elem_of_nil in H.
    - intros [_ [x H]]. by apply not_elem_of_nil in H. }
  subst g. rewrite groups_snoc. set (g := groups self refs []) in *. clearbody g.
  destruct e as [q0 x0]. cbn [fst snd].
  assert (forall q, (exists x, (q, x) ∈ refs ++ [(q0, x0)]) <-> q = q0 \/ exists x, (q, x) ∈ refs) as Hex.
  { intros q. split.
    - intros [x [H|H]%elem_of_app]; [by eauto|]. apply list_elem_of_singleton in H. naive_solver.
    - intros [->|[x H]]; [exists x0|exists x]; apply elem_of_app; [right; by left|by left]. }
  destruct (decide (q0 = self)) as [->|Hq0].
  - split_and!; [done| |].
    + intros q ids Hin. destruct (IH2 q ids Hin) as [Hq ->]. split; [done|].
      by rewrite ids_of_snoc, decide_False, app_nil_r.
    + intros q. rewrite IH3, Hex. naive_solver.
  - destruct (group_add_keys q0 x0 g) as [Hk Hnd]. split_and!; [auto| |].
    + intros q ids Hin. rewrite ids_of_snoc. cbn [fst snd].
      destruct (elem_of_group_add _ _ _ _ _ IH1 Hin) as [[Hq Hin']|[-> H]].
      * destruct (IH2 q ids Hin') as [? ->]. by rewrite decide_False, app_nil_r by done.
      * split; [done|]. rewrite decide_True by done.
        destruct H as [[Hn ->]|(old & Ho & ->)]; [|by destruct (IH2 _ _ Ho) as [_ ->]].
        rewrite ids_of_nil; [done|]. intros [q x] He Eq. simpl in Eq. subst q.
        apply Hn, IH3. eauto.
    + intros q. rewrite Hk, IH3, Hex. naive_solver.
Qed.

(** Freeing the groups one after the other. *)
Lemma free_groups_ok depth (gs : list (nat * list nat)) (ps ps' : pools) :
  NoDup gs.*1 ->
  (forall q ids, (q, ids) ∈ gs -> exists p p', ps !! q = Some p /\
     free_own_blocks ids p = (Ok tt, p') /\ ps' !! q = Some p') ->
  (forall q, q ∉ gs.*1 -> ps' !! q = ps !! q) ->
  for_ gs (fun g => free_blocks (S depth) g.1 (map (pair g.1) g.2)) ps = (Ok tt, ps').
Proof.
  revert ps. induction gs as [|[q ids] gs IH]; intros ps Hnd Hg Hout.
  { simpl. unfold ret. do 2 f_equal. apply map_eq. intros q. symmetry. apply Hout, not_elem_of_nil. }
  rewrite fmap_cons in Hnd. apply NoDup_cons in Hnd as [Hq Hnd]. cbn [for_ fst snd] in *. unfold bind.
  destruct (Hg q ids) as (p & p' & Hp & E & Hp'); [by left|].
  rewrite (free_blocks_own _ _ _ _ _ _ Hp E). apply IH; [done| |].
  - intros q1 ids1 Hin. destruct (Hg q1 ids1) as (p1 & p1' & H1 & H2 & H3); [by right|].
    exists p1, p1'. split_and!; [|done|done]. rewrite lookup_insert_ne; [done|].
    intros ->. apply Hq, list_elem_of_fmap. by exists (q1, ids1).
  - intros q1 Hq1. destruct (decide (q1 = q)) as [->|Hne]; [by rewrite lookup_insert_eq|].
    rewrite lookup_insert_ne by done. apply Hout. rewrite fmap_cons, not_elem_of_cons. done.
Qed.

(** Routing of freed blocks. When the references a caller frees belong to
    several pools, [free_blocks] on any one of them terminates (two levels of
    calls) and treats every pool as if its own references, in their order, had
    been freed on it directly; pools without references are not touched. *)
Theorem free_blocks_routes (self : nat) (refs : list (nat * nat)) (ps : pools) (depth : nat) :
  is_Some (ps !! self) ->
  (forall q x, (q, x) ∈ refs -> is_Some (ps !! q)) ->
  (forall q p, ps !! q = Some p -> exists free, inv p free /\ op_ok (fun b => b) p (OFree (ids_of q refs))) ->
  exists ps', free_blocks (S (S depth)) self refs ps = (Ok tt, ps') /\
  forall q, match ps !! q, ps' !! q with
            | Some p, Some p' => free_own_blocks (ids_of q refs) p = (Ok tt, p')
            | None, None => True
            | _, _ => False
            end.
Proof.
  intros [p0 Hself] Hrefs Hps.
  assert (forall q p, ps !! q = Some p -> exists p', free_own_blocks (ids_of q refs) p = (Ok tt, p')) as Hrun.
  { intros q p Hq. destruct (Hps q p Hq) as (free & Hi & Ho).
    destruct (proj1 (wp_run _ _ _) (free_own_blocks_ok p free _ Hi Ho)) as ([] & p' & E & _). eauto. }
  set (ps' := (fun (q : nat) (p : BlockPool) => (free_own_blocks (ids_of q refs) p).2)).
  exists (map_imap (fun q p => Some (ps' q p)) ps).
  assert (forall q p, ps !! q = Some p -> free_own_blocks (ids_of q refs) p = (Ok tt, ps' q p)) as Hps'.
  { intros q p Hq. unfold ps'. destruct (Hrun q p Hq) as [p' E]. by rewrite E. }
  split.
  2: { intros q. rewrite map_lookup_imap. destruct (ps !! q) eqn:E; simpl; [by apply Hps'|done]. }
  rewrite (free_blocks_level _ _ _ _ _ _ Hself (Hps' _ _ Hself)).
  destruct (groups_correct self refs) as (H1 & H2 & H3). apply free_groups_ok; [done| |].
  - intros q ids Hin. destruct (H2 q ids Hin) as [Hq ->].
    assert (q ∈ (groups self refs []).*1) as [_ [x Hx]]%H3.
    { apply list_elem_of_fmap. by exists (q, ids_of q refs). }
    destruct (Hrefs q x Hx) as [p Hp]. exists p, (ps' q p).
    rewrite lookup_insert_ne, map_lookup_imap, Hp by done. split_and!; [done|by apply Hps'|done].
  - intros q Hq. destruct (decide (q = self)) as [->|Hne].
    + by rewrite lookup_insert_eq, map_lookup_imap, Hself.
    + rewrite lookup_insert_ne, map_lookup_imap by done. destruct (ps !! q) as [p|] eqn:Ep; [|done].
      simpl. f_equal. unfold ps'. rewrite ids_of_nil; [by destruct p|].
      intros [q' x] He <-. apply Hq, H3. eauto.
Qed.

(** * Witnesses *)

(** A pool of four blocks on which two blocks were allocated. *)
Definition demo_pool : outcome BlockPool := Pool.init 4 true 2 true true "GPU".
Definition demo_two : BlockPool :=
  match demo_pool with
  | Ok p => (run_op false (fun b => b) (OGetNew 2) p).2
  | Raise _ => mkPool 0 "" false 0 FreeQueue.fresh_queue ∅ ∅ 0%nat false [] None [] []
  end.

Lemma demo_two_reachable : reachable false (fun b => b) demo_two.
Proof.
  destruct demo_pool as [p|] eqn:E; [|by vm_compute in E].
  eapply (reach_step false _ p (OGetNew 2) (Ok tt)).
  - eapply reach_init. exact E.
  - assert (get_num_free_blocks p = 3) as H.
    { assert (Ok p = demo_pool) as H by done. vm_compute in H. by injection H as ->. }
    simpl. rewrite H. lia.
  - unfold demo_two. rewrite E. assert (Ok p = demo_pool) as H by done.
    vm_compute in H. injection H as ->. vm_compute. reflexivity.
Qed.

#[local] Opaque demo_two.

Lemma pool_safe_witness :
  reachable false (fun b => b) demo_two /\
  exists p', run_op false (fun b => b) (OFree [2; 1]%nat) demo_two = (Ok tt, p').
Proof.
  split; [apply demo_two_reachable|].
  apply (pool_safe false (fun b => b) demo_two demo_two_reachable).
  intros y Hy Hy0. repeat (apply elem_of_cons in Hy as [->|Hy]; [by vm_compute|]).
  by apply not_elem_of_nil in Hy.
Defined.

Lemma get_new_blocks_fresh_witness :
  0 <= 1 /\
  wp (get_new_blocks false 1) (fun blocks p' => zlen blocks = 1 /\ get_num_free_blocks p' = 0) demo_two /\
  get_new_blocks false 2 demo_two = (Raise ValueError, demo_two).
Proof.
  split; [lia|]. split.
  - pose proof (get_new_blocks_fresh false (fun b => b) demo_two 1 demo_two_reachable ltac:(lia)) as H.
    rewrite decide_False in H by (intros Hlt; vm_compute in Hlt; discriminate Hlt).
    eapply wp_mono; [exact H|]. intros blocks p' (Hl & _ & _ & _ & Hf & _). split; [done|].
    rewrite Hf. by vm_compute.
  - pose proof (get_new_blocks_fresh false (fun b => b) demo_two 2 demo_two_reachable ltac:(lia)) as H.
    rewrite decide_True in H by (vm_compute; reflexivity). exact H.
Defined.

Lemma demo_held : op_ok (fun b => b) demo_two (OFree [2; 1]%nat).
Proof.
  intros y Hy Hy0. repeat (apply elem_of_cons in Hy as [->|Hy]; [by vm_compute|]).
  by apply not_elem_of_nil in Hy.
Qed.


(** A request of four tokens hashed in blocks of two. *)
Definition demo_request : option Request :=
  match new_request (sample_args [7; 8; 9; 10] sample_features)
          (Some (request_block_hasher (fun b => b) (fun _ => [Byte.x01]) [] 2)) with
  | Ok r => Some r
  | Raise _ => None
  end.

Lemma demo_request_ok : exists r, demo_request = Some r /\ request_ok (fun b => b) r /\
  block_hashes r = [[Byte.x01]; [Byte.x01]].
Proof.
  eexists. split; [vm_compute; reflexivity|]. split; [|done]. split; [exact sample_features_ok|].
  intros e a b h He. done.
Qed.

Lemma demo_full_ok r :
  request_ok (fun b => b) r -> block_hashes r = [[Byte.x01]; [Byte.x01]] ->
  op_ok (fun b => b) demo_two (OCacheFull r [1; 2]%nat 0 2 2 0 None).
Proof.
  intros Hr Hh. split; [done|].
  assert (forall i x, 0 <= i < 2 -> py_get [1; 2]%nat i = Some x ->
    (i = 0 /\ x = 1%nat) \/ (i = 1 /\ x = 2%nat)) as Hix.
  { intros i x Hi. assert (i = 0 \/ i = 1) as [-> | ->] by lia; vm_compute; naive_solver. }
  split; try (by vm_compute).
  - rewrite Hh. by vm_compute.
  - intros i x Hi Hx. destruct (Hix i x Hi Hx) as [[-> ->]|[-> ->]]; by vm_compute.
  - intros i j x Hi Hj Hx Hy _. destruct (Hix i x Hi Hx) as [[-> ->]|[-> ->]], (Hix j _ Hj Hy); naive_solver.
  - intros i x Hi Hx _. left. destruct (Hix i x Hi Hx) as [[-> ->]|[-> ->]]; by vm_compute.
Qed.

Lemma cached_blocks_found_witness :
  exists r, demo_request = Some r /\ op_ok (fun b => b) demo_two (OCacheFull r [1; 2]%nat 0 2 2 0 None) /\
  wp (cache_full_blocks false (fun b => b) [1; 2]%nat 0 2 2 0 None) (fun _ s =>
    exists b, get_cached_block [Byte.x01] [0] s.1 = Ok (Some [b])) (demo_two, r).
Proof.
  destruct demo_request_ok as (r & Er & Hr & Hh). exists r. split; [done|].
  pose proof (demo_full_ok r Hr Hh) as Ho.
  split; [exact Ho|].
  eapply wp_mono; [apply (cached_blocks_found false (fun b => b) demo_two r [1; 2]%nat 0 2 2 0 None
    demo_two_reachable Ho)|].
  intros [] s (_ & Hc & _). destruct (Hc 0 1%nat) as (h & b & Eh & Hg & _); [lia|by vm_compute..|].
  exists b. unfold boundary_hash in Eh. rewrite Hh in Eh. vm_compute in Eh. by injection Eh as <-.
Defined.

Lemma partial_block_registered_witness :
  exists r, demo_request = Some r /\ op_ok (fun b => b) demo_two (OCachePartial r 1%nat 2 0 4 false) /\
  wp (cache_partial_block false (fun b => b) 1%nat 2 0 4 false) (fun res s =>
    res = Some ([Byte.x01] ++ be_bytes 4 0)) (demo_two, r).
Proof.
  destruct demo_request_ok as (r & Er & Hr & Hh). exists r. split; [done|].
  assert (op_ok (fun b => b) demo_two (OCachePartial r 1%nat 2 0 4 false)) as Ho.
  { split; [done|]. rewrite Hh. by vm_compute. }
  split; [exact Ho|].
  eapply wp_mono; [apply (partial_block_registered false (fun b => b) demo_two r 1%nat 2 0 4 false
    demo_two_reachable Ho)|].
  intros res s H. cbn [decide] in H. destruct (decide (1%nat = 0%nat)); [done|].
  destruct H as (h & Eh & -> & _). rewrite Hh in Eh. vm_compute in Eh. by injection Eh as <-.
Defined.

Lemma reset_clears_cache_witness :
  reachable false (fun b => b) demo_two /\ wp reset_prefix_cache (fun ok p' => ok = false /\ p' = demo_two) demo_two.
Proof.
  split; [exact demo_two_reachable|].
  eapply wp_mono; [apply (reset_clears_cache false (fun b => b) demo_two demo_two_reachable)|].
  intros ok p' (Hok & _ & Hf). destruct ok; [|auto].
  pose proof (proj1 Hok eq_refl 1%nat ltac:(done) ltac:(by vm_compute)) as H. by vm_compute in H.
Defined.

Lemma touch_pins_blocks_witness :
  op_ok (fun b => b) demo_two (OTouch [3; 1; 3]%nat) /\
  wp (touch [3; 1; 3]%nat) (fun _ p' => ref_cnt (blk p' 3%nat) = 2 /\ ref_cnt (blk p' 1%nat) = 2) demo_two.
Proof.
  assert (op_ok (fun b => b) demo_two (OTouch [3; 1; 3]%nat)) as Ho.
  { intros x Hx. repeat (apply elem_of_cons in Hx as [->|Hx]; [by vm_compute|]).
    by apply not_elem_of_nil in Hx. }
  split; [exact Ho|].
  eapply wp_mono; [apply (touch_pins_blocks false (fun b => b) demo_two [3%nat] [3; 1; 3]%nat
    demo_two_reachable); [by vm_compute|exact Ho]|].
  intros [] p' (_ & Hr & _). rewrite !Hr. by vm_compute.
Defined.

Lemma free_blocks_routes_witness :
  exists ps', free_blocks 2 0 [(0, 1); (1, 2); (0, 2)]%nat
    (<[0%nat := demo_two]> (<[1%nat := demo_two]> ∅)) = (Ok tt, ps') /\ is_Some (ps' !! 1%nat).
Proof.
  destruct (free_blocks_routes 0 [(0, 1); (1, 2); (0, 2)]%nat
    (<[0%nat := demo_two]> (<[1%nat := demo_two]> ∅)) 0) as (ps' & E & H).
  - by eexists.
  - intros q x Hq. repeat (apply elem_of_cons in Hq as [[= -> ->]|Hq]; [by eexists|]).
    by apply not_elem_of_nil in Hq.
  - intros q p Hq. assert (p = demo_two /\ (q = 0 \/ q = 1)%nat) as [-> Hq01].
    { apply lookup_insert_Some in Hq as [[<- <-]|[_ Hq]]; [auto|].
      apply lookup_insert_Some in Hq as [[<- <-]|[_ Hq]]; [auto|]. by rewrite lookup_empty in Hq. }
    destruct (pool_reachable_inv _ _ _ demo_two_reachable) as [free Hi]. exists free. split; [done|].
    clear free Hi Hq. intros y Hy _.
    assert (y = 1 \/ y = 2)%nat as Hy12.
    { apply elem_of_ids_of in Hy. set_solver. }
    destruct Hq01 as [-> | ->], Hy12 as [-> | ->]; split; vm_compute; congruence.
  - exists ps'. split; [exact E|]. specialize (H 1%nat).
    rewrite lookup_insert_ne, lookup_insert_eq in H by done. destruct (ps' !! 1%nat) as [p1|]; [exists p1; reflexivity|destruct H].
Defined.
