(* ===== verification/NgramProposer.v ===== *)
(** Prompt-lookup speculative decoding
    ([vllm/v1/spec_decode/ngram_proposer.py]): the KMP search for the longest
    n-gram that ends the context and occurs earlier in it, and the batched
    proposer around it. *)
From Stdlib Require Import ZArith Lia.
From stdpp Require Import base numbers list sets.
From S2P Require Import Prelude.
Open Scope Z_scope.
Local Arguments py_get : simpl never.

(** * The search *)

(** The local variables of [_find_longest_matched_ngram_and_propose_tokens]. *)
Record search := mkSearch {
  lps : list Z;
  longest_ngram : Z;
  position : Z;
  prev_lps : Z;
  pos_i : Z
}.

(** The body of [while i < total_token]. *)
Definition search_step (tokens : list Z) (max_ngram : Z) (s : search) : outcome search :=
  match py_get tokens (prev_lps s), py_get tokens (pos_i s) with
  | Some a, Some b =>
      if a =? b then
        let prev := prev_lps s + 1 in
        let '(longest, pos) := if prev >=? longest_ngram s then (prev, pos_i s)
                               else (longest_ngram s, position s) in
        match (if pos_i s <? max_ngram then py_set (lps s) (pos_i s) prev else Some (lps s)) with
        | None => Raise IndexError
        | Some l =>
            match (if prev =? max_ngram then py_get l (max_ngram - 1) else Some prev) with
            | None => Raise IndexError
            | Some prev => Ok (mkSearch l longest pos prev (pos_i s + 1))
            end
        end
      else if negb (prev_lps s =? 0) then
        match py_get (lps s) (prev_lps s - 1) with
        | None => Raise IndexError
        | Some prev => Ok (mkSearch (lps s) (longest_ngram s) (position s) prev (pos_i s))
        end
      else Ok (mkSearch (lps s) (longest_ngram s) (position s) (prev_lps s) (pos_i s + 1))
  | _, _ => Raise IndexError
  end.

Fixpoint search_loop (fuel : nat) (tokens : list Z) (total_token max_ngram : Z) (s : search) :
    outcome search :=
  if negb (pos_i s <? total_token) then Ok s else
  match fuel with
  | O => Raise OutOfFuel
  | S fuel =>
      match search_step tokens max_ngram s with
      | Ok s => search_loop fuel tokens total_token max_ngram s
      | Raise e => Raise e
      end
  end.

(** Two rounds per token bound the loop ([search_loop_ok]). *)
Definition find_longest_matched_ngram_and_propose_tokens (origin_tokens : list Z)
    (min_ngram max_ngram max_model_len k : Z) : outcome (list Z) :=
  let total_token := zlen origin_tokens in
  if total_token <? min_ngram then Ok [] else
  let k := Z.min k (max_model_len - total_token) in
  if k <=? 0 then Ok [] else
  let tokens := reverse origin_tokens in
  if max_ngram <? 0 then Raise ValueError else
  let s := mkSearch (replicate (Z.to_nat max_ngram) 0) 0 0 0 1 in
  match search_loop (2 * length origin_tokens) tokens total_token max_ngram s with
  | Raise e => Raise e
  | Ok s =>
      if longest_ngram s <? min_ngram then Ok [] else
      let start_position := total_token - 1 - position s + longest_ngram s in
      let k := Z.min k (total_token - start_position) in
      Ok (py_slice start_position (start_position + k) origin_tokens)
  end.

(** * Reference: brute force over lengths and positions *)

(** The last [v] tokens also occur at position [s]. *)
Definition occurs_at (o : list Z) (v s : Z) : Prop :=
  py_slice s (s + v) o = py_from (zlen o - v) o.
#[export] Instance occurs_at_dec o v s : Decision (occurs_at o v s) := decide (_ = _).

Definition earliest (o : list Z) (v : Z) : option Z :=
  head (filter (occurs_at o v) (py_range 0 (zlen o - v))).

(** Lengths [lo + cnt - 1] down to [lo]. *)
Fixpoint longest_match (o : list Z) (lo : Z) (cnt : nat) : option (Z * Z) :=
  match cnt with
  | O => None
  | S cnt =>
      let v := lo + Z.of_nat cnt in
      match earliest o v with
      | Some s => Some (v, s)
      | None => longest_match o lo cnt
      end
  end.

Definition ngram_reference (o : list Z) (min_n max_n max_model_len k : Z) : list Z :=
  let k := Z.min k (max_model_len - zlen o) in
  if k <=? 0 then [] else
  match longest_match o min_n (Z.to_nat (max_n - min_n + 1)) with
  | None => []
  | Some (v, s) => py_slice (s + v) (s + v + k) o
  end.

Example search_small :
  find_longest_matched_ngram_and_propose_tokens [1; 2; 3; 9; 2; 3; 7; 1; 2; 3] 1 2 100 2 = Ok [9; 2] /\
  ngram_reference [1; 2; 3; 9; 2; 3; 7; 1; 2; 3] 1 2 100 2 = [9; 2].
Proof. split; vm_compute; reflexivity. Qed.

(** * Correctness of the search *)

Section kmp.
Context (t : list Z) (N : Z).
Local Abbreviation n := (zlen t).
Local Abbreviation T j := (t !! Z.to_nat j).

(** The prefix of length [v] is a proper suffix of the prefix of length [e]. *)
Definition border (e v : Z) : Prop :=
  0 <= v < e /\ forall d, 0 <= d < v -> T d = T (e - v + d).

Definition longest_border (e v : Z) : Prop := border e v /\ forall q, border e q -> q <= v.

Lemma border_0 e : 0 < e -> border e 0.
Proof. intros. split; [lia|]. intros d Hd. lia. Qed.

Lemma border_trans e p q : border e p -> border p q -> border e q.
Proof.
  intros [Hp Ep] [Hq Eq]. split; [lia|]. intros d Hd. rewrite Eq, Ep by lia. f_equal. lia.
Qed.

Lemma border_nest e p q : border e p -> border e q -> q < p -> border p q.
Proof.
  intros [Hp Ep] [Hq Eq] Hlt. split; [lia|]. intros d Hd.
  rewrite Eq, (Ep (p - q + d)) by lia. f_equal. lia.
Qed.

Lemma border_snoc e p : border e p -> T p = T e -> border (e + 1) (p + 1).
Proof.
  intros [Hp Ep] HT. split; [lia|]. intros d Hd. destruct (decide (d = p)) as [->|].
  - rewrite HT. f_equal. lia.
  - rewrite Ep by lia. f_equal. lia.
Qed.

Lemma border_unsnoc e q : border (e + 1) q -> 0 < q -> border e (q - 1) /\ T (q - 1) = T e.
Proof.
  intros [Hq Eq] H0. split; [split; [lia|]|].
  - intros d Hd. rewrite Eq by lia. f_equal. lia.
  - rewrite Eq by lia. f_equal. lia.
Qed.

Record lps_ok (l : list Z) (i : Z) : Prop := {
  lps_len : zlen l = N;
  lps_done : forall j, 0 <= j < i -> j < N -> exists v, l !! Z.to_nat j = Some v /\ longest_border (j + 1) v;
  lps_todo : forall j, i <= j < N -> l !! Z.to_nat j = Some 0
}.

(** [L] is the longest border of length at most [N] of the prefixes up to
    length [i], and [p + 1] the longest prefix that has it. *)
Record best (i L p : Z) : Prop := {
  best_range : 0 <= L <= N;
  best_max : forall e q, e <= i -> border e q -> q <= N -> q <= L;
  best_at : 0 < L -> border (p + 1) L /\ 0 <= p < i;
  best_last : 0 < L -> forall e, p + 1 < e <= i -> ~ border e L
}.

Record search_inv (s : search) : Prop := {
  inv_i : 1 <= pos_i s <= n;
  inv_border : border (pos_i s) (prev_lps s) /\ prev_lps s < N;
  inv_longer : forall q, prev_lps s < q < N -> border (pos_i s) q -> T q <> T (pos_i s);
  inv_lps : lps_ok (lps s) (pos_i s);
  inv_best : best (pos_i s) (longest_ngram s) (position s)
}.

(** Extending the processed prefix by one position whose longest capped border
    is [v]. *)
Lemma best_extend i L p v :
  0 < i -> best i L p -> border (i + 1) v -> v <= N -> (forall q, border (i + 1) q -> q <= N -> q <= v) -> 0 < v ->
  best (i + 1) (if v >=? L then v else L) (if v >=? L then i else p).
Proof.
  intros Hi [HL Hmax Hat Hlast] Hv HvN Hvmax H0. destruct (v >=? L) eqn:E; bools.
  - split; [lia| |intros _; split; [done|lia]|lia].
    intros e q He Hq HqN. destruct (decide (e = i + 1)) as [->|]; [auto|].
    specialize (Hmax e q ltac:(lia) Hq HqN). lia.
  - split; [lia| | |].
    + intros e q He Hq HqN. destruct (decide (e = i + 1)) as [->|]; [|apply (Hmax e); auto with lia].
      specialize (Hvmax q Hq HqN). lia.
    + intros HL0. destruct (Hat HL0). split; [done|lia].
    + intros HL0 e He Hb. destruct (decide (e = i + 1)) as [->|]; [|apply (Hlast HL0 e); auto with lia].
      specialize (Hvmax L Hb ltac:(lia)). lia.
Qed.

Lemma best_same i L p :
  best i L p -> (forall q, border (i + 1) q -> q <= N -> q = 0) -> best (i + 1) L p.
Proof.
  intros [HL Hmax Hat Hlast] Hno. split; [done| | |].
  - intros e q He Hq HqN. destruct (decide (e = i + 1)) as [->|]; [|apply (Hmax e); auto with lia].
    rewrite (Hno q) by done. lia.
  - intros HL0. destruct (Hat HL0). split; [done|lia].
  - intros HL0 e He Hb. destruct (decide (e = i + 1)) as [->|]; [|apply (Hlast HL0 e); auto with lia].
    specialize (Hno L Hb ltac:(lia)). lia.
Qed.

Lemma lps_ok_set l i v :
  0 <= i -> lps_ok l i -> (i < N -> longest_border (i + 1) v) ->
  exists l', (if i <? N then py_set l i v else Some l) = Some l' /\ lps_ok l' (i + 1).
Proof.
  intros Hi [Hlen Hdone Htodo] Hv. destruct (i <? N) eqn:E; bools.
  - exists (<[Z.to_nat i := v]> l). split; [apply py_set_in; lia|]. split; [by rewrite length_insert| |].
    + intros j Hj HjN. destruct (decide (j = i)) as [->|].
      * exists v. split; [|auto]. apply list_lookup_insert_eq. lia.
      * destruct (Hdone j) as (w & Hw & ?); [lia..|]. exists w. split; [|done].
        by rewrite list_lookup_insert_ne by lia.
    + intros j Hj. rewrite list_lookup_insert_ne by lia. apply Htodo. lia.
  - exists l. split; [done|]. split; [done| |].
    + intros j Hj HjN. apply Hdone; lia.
    + intros j Hj. lia.
Qed.

Definition measure (s : search) : Z := 2 * (n - pos_i s) + prev_lps s.

Definition step_ok (s : search) : Prop :=
  exists s', search_step t N s = Ok s' /\ search_inv s' /\ 0 <= measure s' < measure s.

Lemma step_match s :
  search_inv s -> pos_i s < n -> T (prev_lps s) = T (pos_i s) -> step_ok s.
Proof.
  intros [Hi [Hb HpN] Hlong Hlps Hbest] Hn HT. unfold step_ok, search_step, measure.
  destruct s as [l L p prev i]; simpl in *. pose proof (proj1 Hb) as Hp.
  rewrite !py_get_nonneg by lia. rewrite HT.
  destruct (lookup_lt_is_Some_2 t (Z.to_nat i)) as [b Eb]; [lia|]. rewrite Eb, Z.eqb_refl.
  pose proof (border_snoc i prev Hb HT) as Hb'.
  assert (forall q, border (i + 1) q -> q <= N -> q <= prev + 1) as Hcap.
  { intros q Hq HqN. destruct (decide (q <= prev + 1)); [done|].
    destruct (border_unsnoc i q Hq) as [Hq' HTq]; [lia|]. by destruct (Hlong (q - 1) ltac:(lia) Hq'). }
  pose proof (best_extend i L p (prev + 1) ltac:(lia) Hbest Hb' ltac:(lia) Hcap ltac:(lia)) as Hbest'.
  destruct (lps_ok_set l i (prev + 1)) as (l' & -> & Hlps'); [lia|done| |].
  { intros HiN. split; [done|]. intros q Hq. apply Hcap; [done|]. destruct Hq. lia. }
  assert (exists w, (if prev + 1 =? N then py_get l' (N - 1) else Some (prev + 1)) = Some w /\
            border (i + 1) w /\ w < N /\ w <= prev + 1 /\ forall q, w < q < N -> ~ border (i + 1) q)
    as (w & -> & Hw & HwN & Hwp & Hwmax).
  { destruct (prev + 1 =? N) eqn:E; bools.
    - destruct (lps_done _ _ Hlps' (N - 1)) as (w & Ew & [Hw Hwm]); [lia..|].
      rewrite Z.sub_add in *. rewrite E in Hb'. exists w. rewrite py_get_nonneg by lia.
      split; [done|]. pose proof (proj1 Hw). split_and!; [by eapply border_trans|lia|lia|].
      intros q Hq Hbq. pose proof (Hwm q (border_nest _ _ _ Hb' Hbq ltac:(lia))). lia.
    - exists (prev + 1). split_and!; [done|done|lia|lia|]. intros q Hq Hbq.
      specialize (Hcap q Hbq ltac:(lia)). lia. }
  destruct (prev + 1 >=? L); (eexists; split; [reflexivity|]; split;
    [split; simpl; [lia|done|intros q Hq Hbq; by destruct (Hwmax q Hq)|done|done]
    |simpl; destruct Hw; lia]).
Qed.

Lemma step_mismatch s :
  search_inv s -> pos_i s < n -> T (prev_lps s) <> T (pos_i s) -> step_ok s.
Proof.
  intros [Hi [Hb HpN] Hlong Hlps Hbest] Hn HT. unfold step_ok, search_step, measure.
  destruct s as [l L p prev i]; simpl in *. pose proof (proj1 Hb) as Hp.
  rewrite !py_get_nonneg by lia.
  destruct (lookup_lt_is_Some_2 t (Z.to_nat prev)) as [a Ea]; [lia|].
  destruct (lookup_lt_is_Some_2 t (Z.to_nat i)) as [b Eb]; [lia|]. rewrite Ea, Eb.
  destruct (a =? b) eqn:E; bools; [congruence|]. destruct (prev =? 0) eqn:E0; bools; simpl.
  - subst prev. eexists. split; [reflexivity|]. simpl. split; [|lia].
    assert (forall q, border (i + 1) q -> q <= N -> q = 0) as Hno.
    { intros q Hq HqN. destruct (decide (q = 0)); [done|]. pose proof (proj1 Hq).
      destruct (border_unsnoc i q Hq) as [Hq' HTq]; [lia|].
      destruct (decide (q = 1)) as [->|]; [done|]. by destruct (Hlong (q - 1) ltac:(lia) Hq'). }
    split; simpl; [lia| | | |by apply best_same].
    + split; [apply border_0; lia|done].
    + intros q Hq Hbq. specialize (Hno q Hbq ltac:(lia)). lia.
    + destruct Hlps as [Hlen Hdone Htodo]. split; [done| |intros; apply Htodo; lia].
      intros j Hj HjN. destruct (decide (j = i)) as [->|]; [|apply Hdone; lia].
      exists 0. split; [apply Htodo; lia|]. split; [apply border_0; lia|].
      intros q Hq. rewrite (Hno q Hq); [lia|]. destruct Hq. lia.
  - rewrite py_get_nonneg by lia.
    destruct (lps_done _ _ Hlps (prev - 1)) as (w & -> & [Hw Hwm]); [lia..|].
    rewrite Z.sub_add in *. eexists. split; [reflexivity|]. simpl. pose proof (proj1 Hw). split; [|lia].
    split; simpl; [lia| | |done|done].
    + split; [by eapply border_trans|lia].
    + intros q Hq Hbq. destruct (decide (prev < q)); [apply Hlong; auto with lia|].
      destruct (decide (q = prev)) as [->|]; [congruence|].
      pose proof (Hwm q (border_nest _ _ _ Hb Hbq ltac:(lia))). lia.
Qed.

Lemma search_loop_ok fuel s :
  search_inv s -> measure s <= Z.of_nat fuel ->
  exists s', search_loop fuel t n N s = Ok s' /\ best n (longest_ngram s') (position s').
Proof.
  revert s. induction fuel as [|fuel IH]; intros s Hs Hm; simpl; destruct (pos_i s <? n) eqn:E; bools; simpl.
  - pose proof (proj1 (proj1 (inv_border _ Hs))). unfold measure in Hm. lia.
  - exists s. split; [done|]. destruct Hs. by replace n with (pos_i s) by lia.
  - assert (step_ok s) as (s' & -> & Hs' & Hm').
    { destruct (decide (T (prev_lps s) = T (pos_i s))); [by apply step_match|by apply step_mismatch]. }
    apply IH; [done|lia].
  - exists s. split; [done|]. destruct Hs. by replace n with (pos_i s) by lia.
Qed.

Lemma search_start : 1 <= N -> 1 <= n -> search_inv (mkSearch (replicate (Z.to_nat N) 0) 0 0 0 1).
Proof.
  intros HN Hn. split; simpl; [lia| | | |].
  - split; [apply border_0; lia|lia].
  - intros q Hq [Hb _]. lia.
  - split; [rewrite length_replicate; lia| |].
    + intros j Hj HjN. exists 0. split; [apply lookup_replicate; lia|].
      split; [apply border_0; lia|]. intros q [Hq _]. lia.
    + intros j Hj. apply lookup_replicate. lia.
  - split; [lia| |lia|lia]. intros e q He [Hq _]. lia.
Qed.
End kmp.

(** The borders of the reversed context are the earlier occurrences of its last
    tokens. *)
Lemma border_occurs (o : list Z) (v s : Z) :
  0 <= s -> 0 <= v < zlen o - s -> occurs_at o v s <-> border (reverse o) (zlen o - s) v.
Proof.
  intros Hs Hv. unfold occurs_at, border. rewrite py_slice_in, py_from_in by lia.
  set (n := zlen o) in *. assert (forall j, 0 <= j < n -> reverse o !! Z.to_nat j = o !! Z.to_nat (n - 1 - j)) as HT.
  { intros j Hj. rewrite reverse_lookup by lia. f_equal. lia. }
  split.
  - intros E. split; [lia|]. intros d Hd. rewrite !HT by lia.
    apply (f_equal (fun l => l !! Z.to_nat (v - 1 - d))) in E.
    rewrite lookup_take_lt, !lookup_drop in E by lia.
    replace (Z.to_nat (n - 1 - d)) with (Z.to_nat (n - v) + Z.to_nat (v - 1 - d))%nat by lia.
    rewrite <- E. f_equal. lia.
  - intros [_ E]. apply list_eq. intros j. destruct (decide (j < Z.to_nat v)%nat).
    + rewrite lookup_take_lt, !lookup_drop by lia. specialize (E (v - 1 - Z.of_nat j) ltac:(lia)).
      rewrite !HT in E by lia.
      replace (Z.to_nat (n - v) + j)%nat with (Z.to_nat (n - 1 - (v - 1 - Z.of_nat j))) by lia.
      rewrite E. f_equal. lia.
    + rewrite !lookup_ge_None_2; [done|rewrite length_drop; lia|rewrite length_take; lia].
Qed.

Lemma head_filter_range (P : Z -> Prop) `{!forall x, Decision (P x)} a b s :
  a <= s < b -> P s -> (forall x, a <= x < s -> ~ P x) -> head (filter P (py_range a b)) = Some s.
Proof.
  intros Hs HP Hno. remember (Z.to_nat (s - a)) as d eqn:Ed. revert a Hs Hno Ed.
  induction d as [|d IH]; intros a Hs Hno Ed; rewrite py_range_cons by lia.
  - replace a with s by lia. by rewrite filter_cons_True.
  - rewrite filter_cons_False by (apply Hno; lia). apply IH; [lia| |lia]. intros x Hx. apply Hno. lia.
Qed.

Lemma longest_match_some o lo cnt v s :
  lo <= v < lo + Z.of_nat cnt -> earliest o v = Some s ->
  (forall v', v < v' < lo + Z.of_nat cnt -> earliest o v' = None) -> longest_match o lo cnt = Some (v, s).
Proof.
  intros Hv Es Hno. induction cnt as [|cnt IH]; [lia|]. simpl.
  destruct (decide (v = lo + Z.of_nat cnt)) as [<-|]; [by rewrite Es|].
  rewrite Hno by lia. apply IH; [lia|]. intros v' Hv'. apply Hno. lia.
Qed.

Lemma longest_match_none o lo cnt :
  (forall v, lo <= v < lo + Z.of_nat cnt -> earliest o v = None) -> longest_match o lo cnt = None.
Proof.
  intros Hno. induction cnt as [|cnt IH]; [done|]. simpl. rewrite Hno by lia. apply IH.
  intros v Hv. apply Hno. lia.
Qed.

Lemma earliest_none o v L p N :
  best (reverse o) N (zlen o) L p -> L < v <= N -> 0 < v -> earliest o v = None.
Proof.
  intros Hbest Hv H0. unfold earliest. destruct (head _) as [s|] eqn:E; [|done]. exfalso.
  apply head_Some_elem_of in E. apply list_elem_of_filter in E as [Hocc Hs%elem_of_py_range].
  apply border_occurs in Hocc; [|lia..].
  pose proof (best_max _ _ _ _ _ Hbest (zlen o - s) v ltac:(lia) Hocc ltac:(lia)). lia.
Qed.

Lemma earliest_best o L p N :
  best (reverse o) N (zlen o) L p -> 0 < L -> earliest o L = Some (zlen o - 1 - p).
Proof.
  intros Hbest HL. destruct (best_at _ _ _ _ _ Hbest HL) as [Hb Hp]. pose proof (proj1 Hb).
  apply head_filter_range; [lia| |].
  - apply border_occurs; [lia..|]. by replace (zlen o - (zlen o - 1 - p)) with (p + 1) by lia.
  - intros x Hx Hocc. apply border_occurs in Hocc; [|lia..].
    apply (best_last _ _ _ _ _ Hbest HL (zlen o - x)); [lia|done].
Qed.

Lemma py_slice_clamp {A} (a k : Z) (l : list A) :
  0 <= a <= zlen l -> 0 <= k -> py_slice a (a + Z.min k (zlen l - a)) l = py_slice a (a + k) l.
Proof.
  intros Ha Hk. unfold py_slice. do 2 f_equal. unfold slice_bound.
  rewrite !(proj2 (Z.ltb_ge _ 0)) by lia. lia.
Qed.

Lemma find_longest_reference (o : list Z) (min_n max_n max_model_len k : Z) :
  1 <= min_n <= max_n ->
  find_longest_matched_ngram_and_propose_tokens o min_n max_n max_model_len k =
    Ok (ngram_reference o min_n max_n max_model_len k).
Proof.
  intros Hn. unfold find_longest_matched_ngram_and_propose_tokens, ngram_reference.
  destruct (zlen o <? min_n) eqn:E0; bools.
  { rewrite longest_match_none; [by destruct (_ <=? 0)|].
    intros v Hv. unfold earliest. by rewrite py_range_nil by lia. }
  destruct (_ <=? 0) eqn:Ek; bools; [done|]. rewrite (proj2 (Z.ltb_ge max_n 0)) by lia.
  rewrite <- (length_reverse o).
  destruct (search_loop_ok (reverse o) max_n (2 * length (reverse o))
    (mkSearch (replicate (Z.to_nat max_n) 0) 0 0 0 1)) as (s & -> & Hbest);
    [apply search_start; rewrite ?length_reverse; lia|unfold measure; simpl; lia|].
  rewrite length_reverse in *. pose proof (best_range _ _ _ _ _ Hbest).
  destruct (_ <? min_n) eqn:EL; bools.
  - rewrite longest_match_none; [done|]. intros v Hv. eapply earliest_none; [done|lia..].
  - rewrite (longest_match_some _ _ _ (longest_ngram s) (zlen o - 1 - position s));
      [|lia|by eapply earliest_best; [|lia]|intros v Hv; eapply earliest_none; [done|lia..]].
    destruct (best_at _ _ _ _ _ Hbest) as [[Hb _] Hp]; [lia|].
    by rewrite py_slice_clamp by lia.
Qed.

Lemma head_filter_range_inv (P : Z -> Prop) `{!forall x, Decision (P x)} a b :
  match head (filter P (py_range a b)) with
  | Some s => a <= s < b /\ P s /\ forall x, a <= x < s -> ~ P x
  | None => forall x, a <= x < b -> ~ P x
  end.
Proof.
  remember (Z.to_nat (b - a)) as d eqn:Ed. revert a Ed. induction d as [|d IH]; intros a Ed.
  { rewrite py_range_nil by lia. simpl. lia. }
  rewrite py_range_cons by lia. destruct (decide (P a)) as [Ha|Ha].
  { rewrite filter_cons_True by done. simpl. split_and!; [lia..|done|lia]. }
  rewrite filter_cons_False by done. specialize (IH (a + 1) ltac:(lia)).
  destruct (head _) as [s|]; [destruct IH as (? & ? & IH); split_and!; [lia..|done|]|];
    intros x Hx; (destruct (decide (x = a)) as [->|]; [done|apply IH; lia]).
Qed.

Lemma longest_match_inv o lo cnt :
  match longest_match o lo cnt with
  | Some (v, s) => lo <= v < lo + Z.of_nat cnt /\ earliest o v = Some s /\
      forall v', v < v' < lo + Z.of_nat cnt -> earliest o v' = None
  | None => forall v, lo <= v < lo + Z.of_nat cnt -> earliest o v = None
  end.
Proof.
  induction cnt as [|cnt IH]; simpl; [lia|]. destruct (earliest o (lo + Z.of_nat cnt)) as [s|] eqn:E.
  { split_and!; [lia..|done|lia]. }
  destruct (longest_match o lo cnt) as [[v s]|]; [destruct IH as (? & ? & IH); split_and!; [lia..|done|]|];
    intros v' Hv'; (destruct (decide (v' = lo + Z.of_nat cnt)) as [->|]; [done|apply IH; lia]).
Qed.

(** [v], [s] is the match the proposer is after: the longest n-gram, at its
    earliest position. *)
Definition best_match (o : list Z) (min_n max_n v s : Z) : Prop :=
  min_n <= v <= max_n /\ 0 <= s < zlen o - v /\ occurs_at o v s /\
  (forall s', 0 <= s' < s -> ~ occurs_at o v s') /\
  (forall v' s', v < v' <= max_n -> 0 <= s' < zlen o - v' -> ~ occurs_at o v' s').

(** C24: the linear-time search is exact. For [1 <= min_n <= max_n] it always
    returns (two rounds per token suffice and every array access is in range).
    With no room left below [max_model_len], or when no n-gram of an allowed
    length that ends the context occurs earlier in it, it proposes nothing;
    otherwise it proposes the tokens (at most [k], and at most as many as fit)
    that follow the earliest occurrence of the longest such n-gram, at least
    one. *)
Theorem ngram_search_exact (o : list Z) (min_n max_n max_model_len k : Z) :
  1 <= min_n <= max_n ->
  let room := Z.min k (max_model_len - zlen o) in
  exists r, find_longest_matched_ngram_and_propose_tokens o min_n max_n max_model_len k = Ok r /\
  (room <= 0 -> r = []) /\
  (0 < room ->
     (exists v s, best_match o min_n max_n v s /\ r = py_slice (s + v) (s + v + room) o /\ r <> []) \/
     (forall v s, min_n <= v <= max_n -> 0 <= s < zlen o - v -> ~ occurs_at o v s) /\ r = []).
Proof.
  intros Hn room. eexists. split; [by apply find_longest_reference|]. unfold ngram_reference. fold room.
  destruct (room <=? 0) eqn:Er; bools; [by split; [|lia]|]. split; [lia|]. intros _.
  pose proof (longest_match_inv o min_n (Z.to_nat (max_n - min_n + 1))) as Hm.
  assert (forall v, earliest o v = None -> forall s, 0 <= s < zlen o - v -> ~ occurs_at o v s) as Hnone.
  { intros v Ev. unfold earliest in Ev. pose proof (head_filter_range_inv (occurs_at o v) 0 (zlen o - v)) as H.
    by rewrite Ev in H. }
  destruct (longest_match _ _ _) as [[v s]|].
  - left. destruct Hm as (Hv & Es & Hmax). exists v, s. unfold earliest in Es.
    pose proof (head_filter_range_inv (occurs_at o v) 0 (zlen o - v)) as H. rewrite Es in H.
    destruct H as (Hs & Hocc & Hmin). split_and!; [|done|].
    + split_and!; [lia..|done|done|]. intros v' s' Hv'. apply Hnone, Hmax. lia.
    + intros E%(f_equal length). rewrite <- py_slice_clamp in E by lia.
      rewrite py_slice_in, length_take, length_drop in E by lia. simpl in E. lia.
  - right. split; [|done]. intros v s Hv. apply Hnone, Hm. lia.
Qed.

Lemma ngram_search_exact_witness :
  1 <= 1 <= 2 /\ exists r, find_longest_matched_ngram_and_propose_tokens [5; 6; 8; 5; 6] 1 2 100 2 = Ok r.
Proof.
  split; [lia|]. destruct (ngram_search_exact [5; 6; 8; 5; 6] 1 2 100 2 ltac:(lia)) as (r & E & _).
  by exists r.
Defined.

(** * The proposer *)

(** [numba_threads] is the number of threads Numba may use, which
    [get_num_threads] reads and [set_num_threads] sets. *)
Record NgramProposer := mkProposer {
  min_n : Z;
  max_n : Z;
  spec_k : Z;
  max_model_len : Z;
  valid_ngram_draft : list (list Z);
  valid_ngram_num_drafts : list Z;
  num_tokens_threshold : Z;
  num_numba_thread_available : Z;
  numba_threads : Z
}.

Definition set_buffers (draft : list (list Z)) (num_drafts : list Z) (p : NgramProposer) : NgramProposer :=
  mkProposer (min_n p) (max_n p) (spec_k p) (max_model_len p) draft num_drafts
    (num_tokens_threshold p) (num_numba_thread_available p) (numba_threads p).
Definition set_threads (n : Z) (p : NgramProposer) : NgramProposer :=
  mkProposer (min_n p) (max_n p) (spec_k p) (max_model_len p) (valid_ngram_draft p)
    (valid_ngram_num_drafts p) (num_tokens_threshold p) (num_numba_thread_available p) n.

Section proposer.
(** The number of threads Numba was launched with, and the order in which
    [prange] runs the iterations of the batch loop: any order, as every
    iteration writes only the row of its own request. *)
Context (NUMBA_NUM_THREADS : Z) (prange : list Z -> list Z).

Definition set_num_threads (n : Z) : M NgramProposer unit :=
  if (n <? 1) || (n >? NUMBA_NUM_THREADS) then raise ValueError else modify (set_threads n).

(** The body of the loop of [batch_propose_numba]. *)
Definition propose_row (num_tokens_no_spec : list Z) (token_ids_cpu : list (list Z))
    (min_n max_n max_model_len k : Z) (idx : Z) : M NgramProposer unit :=
  let! num_tokens := lift (or_raise (py_get num_tokens_no_spec idx) IndexError) in
  let! row := lift (or_raise (py_get token_ids_cpu idx) IndexError) in
  let! drafter_output := lift (find_longest_matched_ngram_and_propose_tokens
                                 (py_upto num_tokens row) min_n max_n max_model_len k) in
  let! p := gets (fun p => p) in
  let! num_drafts := lift (or_raise (py_set (valid_ngram_num_drafts p) idx (zlen drafter_output))
                             IndexError) in
  modify (set_buffers (valid_ngram_draft p) num_drafts) ;;
  if zlen drafter_output =? 0 then ret tt else
  let! old := lift (or_raise (py_get (valid_ngram_draft p) idx) IndexError) in
  if zlen drafter_output >? zlen old then raise ValueError else
  let! draft := lift (or_raise (py_set (valid_ngram_draft p) idx
                        (drafter_output ++ drop (length drafter_output) old)) IndexError) in
  modify (set_buffers draft num_drafts).

Definition batch_propose_numba (valid_ngram_requests num_tokens_no_spec : list Z)
    (token_ids_cpu : list (list Z)) (min_n max_n max_model_len k : Z) : M NgramProposer unit :=
  for_ (prange valid_ngram_requests)
    (propose_row num_tokens_no_spec token_ids_cpu min_n max_n max_model_len k).

(** The final loop of [batch_propose]. *)
Definition read_draft (valid_ngram_requests : list Z) (draft_token_ids : list (list Z)) (i : Z) :
    M NgramProposer (list (list Z)) :=
  if negb (bool_decide (i ∈ valid_ngram_requests)) then ret (draft_token_ids ++ [[]]) else
  let! p := gets (fun p => p) in
  let! n := lift (or_raise (py_get (valid_ngram_num_drafts p) i) IndexError) in
  if negb (n >? 0) then ret (draft_token_ids ++ [[]]) else
  let! row := lift (or_raise (py_get (valid_ngram_draft p) i) IndexError) in
  ret (draft_token_ids ++ [py_upto n row]).

Definition batch_propose (num_requests : Z) (valid_ngram_requests num_tokens_no_spec : list Z)
    (token_ids_cpu : list (list Z)) (k : Z) : M NgramProposer (list (list Z)) :=
  let! p := gets (fun p => p) in
  let num_ngram_requests := zlen valid_ngram_requests in
  (if num_ngram_requests =? 0 then ret tt else
     let original_num_numba_threads := numba_threads p in
     let total_tokens := foldr Z.add 0 num_tokens_no_spec in
     (if total_tokens >=? num_tokens_threshold p
      then set_num_threads (Z.max 1 (Z.min (num_numba_thread_available p) num_ngram_requests))
      else set_num_threads 1) ;;
     batch_propose_numba valid_ngram_requests num_tokens_no_spec token_ids_cpu
       (min_n p) (max_n p) (max_model_len p) k ;;
     set_num_threads original_num_numba_threads) ;;
  fold_ (py_range 0 num_requests) [] (read_draft valid_ngram_requests).

(** The loop of [propose] that selects the requests to draft for. *)
Definition select_request (num_tokens_no_spec : list Z) (valid_ngram_requests : list Z)
    (e : Z * list Z) : M NgramProposer (list Z) :=
  let '(i, sampled_ids) := e in
  if zlen sampled_ids =? 0 then ret valid_ngram_requests else
  let! num_tokens := lift (or_raise (py_get num_tokens_no_spec i) IndexError) in
  let! p := gets (fun p => p) in
  if num_tokens >=? max_model_len p then ret valid_ngram_requests
  else ret (valid_ngram_requests ++ [i]).

Definition propose (num_speculative_tokens : Z) (sampled_token_ids : list (list Z))
    (num_tokens_no_spec : list Z) (token_ids_cpu : list (list Z)) : M NgramProposer (list (list Z)) :=
  let! p := gets (fun p => p) in
  assert_ (num_speculative_tokens <=? spec_k p) ;;
  let! valid_ngram_requests := fold_ (zip (py_range 0 (zlen sampled_token_ids)) sampled_token_ids) []
    (select_request num_tokens_no_spec) in
  batch_propose (zlen sampled_token_ids) valid_ngram_requests num_tokens_no_spec token_ids_cpu
    num_speculative_tokens.

(** [__init__]: the configuration values it reads, then the warm-up call. *)
Definition new_proposer (prompt_lookup_min prompt_lookup_max : option Z)
    (num_speculative_tokens model_len max_num_seqs tp_size : Z) (cpu_count : option Z) (threads : Z) :
    outcome NgramProposer :=
  match prompt_lookup_min, prompt_lookup_max with
  | Some lo, Some hi =>
      if (max_num_seqs <? 0) || (num_speculative_tokens <? 0) || (model_len <? 0) then Raise ValueError else
      let available := match cpu_count with
                       | None | Some 0 => 1
                       | Some c => Z.min 1 (c / 2) / tp_size
                       end in
      let p := mkProposer lo hi num_speculative_tokens model_len
                 (replicate (Z.to_nat max_num_seqs) (replicate (Z.to_nat num_speculative_tokens) 0))
                 (replicate (Z.to_nat max_num_seqs) 0) 8192 available threads in
      match propose num_speculative_tokens (replicate 1024 []) (replicate 1024 0)
              (replicate 1024 (replicate (Z.to_nat model_len) 0)) p with
      | (Ok _, p) => Ok p
      | (Raise e, _) => Raise e
      end
  | _, _ => Raise AssertionError
  end.
End proposer.

(** * Correctness of the proposer *)

Section proposer_ok.
Context (NUMBA_NUM_THREADS : Z) (prange : list Z -> list Z).
Hypothesis prange_order : forall l, prange l ≡ₚ l.

Record proposer_ok (p : NgramProposer) : Prop := {
  ok_ngram : 1 <= min_n p <= max_n p;
  ok_rows : length (valid_ngram_draft p) = length (valid_ngram_num_drafts p);
  ok_width : Forall (fun row => zlen row = spec_k p) (valid_ngram_draft p);
  ok_avail : num_numba_thread_available p <= 1;
  ok_threads : 1 <= numba_threads p <= NUMBA_NUM_THREADS
}.

(** What only the buffers may differ in. *)
Definition same_config (p p' : NgramProposer) : Prop :=
  exists d c, length d = length (valid_ngram_draft p) /\ p' = set_buffers d c p.

(** The buffers hold draft [r] for request [i]. *)
Definition drafted (p : NgramProposer) (i : nat) (r : list Z) : Prop :=
  valid_ngram_num_drafts p !! i = Some (zlen r) /\
  exists row, valid_ngram_draft p !! i = Some row /\ take (length r) row = r.

Lemma ngram_reference_short o lo hi len k : 0 <= lo -> zlen (ngram_reference o lo hi len k) <= Z.max 0 k.
Proof.
  intros Hlo. unfold ngram_reference. destruct (_ <=? 0) eqn:Er; bools; [simpl; lia|].
  pose proof (longest_match_inv o lo (Z.to_nat (hi - lo + 1))) as Hm.
  destruct (longest_match _ _ _) as [[v s]|]; [|simpl; lia]. destruct Hm as (Hv & Es & _).
  unfold earliest in Es. apply head_Some_elem_of in Es.
  apply list_elem_of_filter in Es as [_ Hs%elem_of_py_range].
  rewrite <- py_slice_clamp by lia. rewrite py_slice_in, length_take by lia. lia.
Qed.

Lemma lookup_nth {A} (l : list A) i d : (i < length l)%nat -> l !! i = Some (nth i l d).
Proof. intros. destruct (nth_lookup_or_length l i d); [done|lia]. Qed.

Section batch.
Context (nums : list Z) (tokens : list (list Z)) (k : Z).

(** The draft the reference computes for request [i]. *)
Definition reference_draft (p : NgramProposer) (i : nat) : list Z :=
  ngram_reference (py_upto (nth i nums 0) (nth i tokens [])) (min_n p) (max_n p) (max_model_len p) k.

Lemma set_buffers_ok p d c :
  proposer_ok p -> length d = length c -> Forall (fun row => zlen row = spec_k p) d ->
  proposer_ok (set_buffers d c p).
Proof. intros []. by split. Qed.

Lemma propose_row_ok p (i : nat) :
  proposer_ok p -> k <= spec_k p -> (i < length nums)%nat -> (i < length tokens)%nat ->
  (i < length (valid_ngram_draft p))%nat ->
  wp (propose_row nums tokens (min_n p) (max_n p) (max_model_len p) k (Z.of_nat i))
     (fun _ p' => proposer_ok p' /\ same_config p p' /\ drafted p' i (reference_draft p i) /\
        forall j r, j <> i -> drafted p j r -> drafted p' j r) p.
Proof.
  intros Hok Hk Hi1 Hi2 Hi3. pose proof (ok_rows _ Hok) as Hrows.
  pose proof (lookup_nth _ i [] Hi3) as Erow. set (old := nth i (valid_ngram_draft p) []) in *.
  pose proof (proj1 (Forall_lookup _ _) (ok_width _ Hok) _ _ Erow) as Hold. simpl in Hold.
  pose proof (ngram_reference_short (py_upto (nth i nums 0) (nth i tokens [])) (min_n p) (max_n p)
    (max_model_len p) k ltac:(pose proof (ok_ngram _ Hok); lia)) as Hshort. fold (reference_draft p i) in Hshort.
  unfold propose_row. wp_simpl. rewrite py_get_nat, (lookup_nth nums i 0) by done.
  eexists. split; [reflexivity|]. wp_simpl. rewrite py_get_nat, (lookup_nth tokens i []) by done.
  eexists. split; [reflexivity|]. wp_simpl. eexists.
  split; [apply find_longest_reference, ok_ngram, Hok|]. fold (reference_draft p i).
  set (r := reference_draft p i) in *. wp_simpl. rewrite py_set_in, Nat2Z.id by lia.
  eexists. split; [reflexivity|]. wp_simpl. destruct (zlen r =? 0) eqn:E0; bools; wp_simpl.
  - split_and!; [apply set_buffers_ok; [done|by rewrite length_insert|apply Hok]|eexists _, _; by split| |].
    + split; simpl; [apply list_lookup_insert_eq; by rewrite <- Hrows|]. exists old. split; [done|]. by destruct r.
    + intros j r' Hj [Hn Hd]. split; simpl; [by rewrite list_lookup_insert_ne by done|done].
  - rewrite py_get_nat, Erow. eexists. split; [reflexivity|].
    destruct (zlen r >? zlen old) eqn:El; bools; [lia|]. wp_simpl. rewrite py_set_in, Nat2Z.id by lia.
    eexists. split; [reflexivity|]. simpl. split_and!.
    + apply set_buffers_ok; [apply set_buffers_ok; [done|by rewrite length_insert|apply Hok]
        |by rewrite !length_insert|]. simpl.
      apply Forall_insert; [apply Hok|]. rewrite length_app, length_drop. lia.
    + eexists _, _. split; [|reflexivity]. by rewrite length_insert.
    + split; simpl; [apply list_lookup_insert_eq; by rewrite <- Hrows|].
      eexists. split; [by apply list_lookup_insert_eq|]. apply take_app_length.
    + intros j r' Hj [Hn (row & Hd & Ht)]. split; simpl; [by rewrite list_lookup_insert_ne by done|].
      exists row. by rewrite list_lookup_insert_ne by done.
Qed.

Lemma batch_propose_numba_ok p (valid : list Z) :
  proposer_ok p -> k <= spec_k p ->
  (forall i, i ∈ valid -> 0 <= i < zlen nums /\ i < zlen tokens /\ i < zlen (valid_ngram_draft p)) ->
  wp (batch_propose_numba prange valid nums tokens (min_n p) (max_n p) (max_model_len p) k)
     (fun _ p' => proposer_ok p' /\ same_config p p' /\
        forall i, i ∈ valid -> drafted p' (Z.to_nat i) (reference_draft p (Z.to_nat i))) p.
Proof.
  intros Hok Hk Hv. unfold batch_propose_numba.
  apply (wp_for _ _ (fun done _ p' => proposer_ok p' /\ same_config p p' /\
    forall i, i ∈ done -> drafted p' (Z.to_nat i) (reference_draft p (Z.to_nat i)))).
  - split_and!; [done| |by intros i Hi%not_elem_of_nil]. exists (valid_ngram_draft p), (valid_ngram_num_drafts p).
    by destruct p.
  - intros done i todo p' Ev (Hok' & (d & c & Hd & ->) & Hdone).
    assert (i ∈ valid) as (Hi & Hi2 & Hi3)%Hv.
    { rewrite <- (prange_order valid), Ev. set_solver. }
    eapply wp_mono.
    + rewrite <- (Z2Nat.id i) at 1 by lia.
      apply (propose_row_ok (set_buffers d c p) (Z.to_nat i)); [done|done|lia|lia|simpl; lia].
    + simpl. intros _ p'' (Hok'' & (d' & c' & Hd' & ->) & Hi' & Hother). split_and!; [done| |].
      * exists d', c'. split; [by rewrite Hd'|done].
      * intros j [Hj| ->%list_elem_of_singleton]%elem_of_app; [|done].
        destruct (decide (Z.to_nat j = Z.to_nat i)) as [->|]; [done|]. by apply Hother, Hdone.
  - intros p' (? & ? & Hall). split_and!; [done..|]. intros i Hi. apply Hall. by rewrite (prange_order valid).
Qed.

Lemma set_num_threads_ok n p (Q : unit -> NgramProposer -> Prop) :
  1 <= n <= NUMBA_NUM_THREADS -> Q tt (set_threads n p) -> wp (set_num_threads NUMBA_NUM_THREADS n) Q p.
Proof.
  intros Hn HQ. unfold set_num_threads. rewrite (proj2 (Z.ltb_ge _ _)) by lia.
  rewrite Z.gtb_ltb, (proj2 (Z.ltb_ge _ _)) by lia. done.
Qed.

Lemma set_threads_ok p n : proposer_ok p -> 1 <= n <= NUMBA_NUM_THREADS -> proposer_ok (set_threads n p).
Proof. intros []. by split. Qed.

Lemma read_drafts_ok p (valid : list Z) (m : nat) :
  (forall i, i ∈ valid -> drafted p (Z.to_nat i) (reference_draft p (Z.to_nat i))) ->
  wp (fold_ (py_range 0 (Z.of_nat m)) [] (read_draft valid)) (fun out p' => p' = p /\
    out = map (fun i => if decide (i ∈ valid) then reference_draft p (Z.to_nat i) else [])
            (py_range 0 (Z.of_nat m))) p.
Proof.
  intros Hv. apply (wp_fold _ _ _ (fun done _ out p' => p' = p /\
    out = map (fun i => if decide (i ∈ valid) then reference_draft p (Z.to_nat i) else []) done)); [done| |done].
  intros done i todo out p' Er [-> ->]. assert (0 <= i) as Hi.
  { assert (i ∈ py_range 0 (Z.of_nat m)) as Hi by (rewrite Er; set_solver). apply elem_of_py_range in Hi. lia. }
  rewrite map_app. unfold read_draft. simpl. destruct (decide (i ∈ valid)) as [Hin|Hin].
  - rewrite bool_decide_eq_true_2 by done. simpl. wp_simpl.
    destruct (Hv i Hin) as [Hn (row & Hd & Ht)]. set (r := reference_draft p (Z.to_nat i)) in *.
    rewrite !py_get_nonneg, Hn by done. eexists. split; [reflexivity|].
    destruct (zlen r >? 0) eqn:E; bools; simpl; wp_simpl.
    + rewrite Hd. eexists. split; [reflexivity|]. split; [done|]. do 2 f_equal. unfold py_upto.
      rewrite <- Ht at 2. f_equal. pose proof (f_equal length Ht) as Hl. rewrite length_take in Hl.
      rewrite slice_bound_in by lia. lia.
    + split; [done|]. by destruct r.
  - by rewrite bool_decide_eq_false_2 by done.
Qed.

Lemma batch_propose_ok p (valid : list Z) (m : nat) :
  proposer_ok p -> k <= spec_k p ->
  (forall i, i ∈ valid -> 0 <= i < zlen nums /\ i < zlen tokens /\ i < zlen (valid_ngram_draft p)) ->
  wp (batch_propose NUMBA_NUM_THREADS prange (Z.of_nat m) valid nums tokens k)
     (fun out p' => proposer_ok p' /\ same_config p p' /\
        out = map (fun i => if decide (i ∈ valid) then reference_draft p (Z.to_nat i) else [])
            (py_range 0 (Z.of_nat m))) p.
Proof.
  intros Hok Hk Hv. unfold batch_propose. wp_simpl. destruct (zlen valid =? 0) eqn:E; bools; wp_simpl.
  - destruct valid; [|done]. eapply wp_mono; [apply read_drafts_ok; by intros i Hi%not_elem_of_nil|].
    simpl. intros out p' [-> ->]. split_and!; [done| |done].
    exists (valid_ngram_draft p), (valid_ngram_num_drafts p). by destruct p.
  - pose proof (ok_threads _ Hok) as Ht. pose proof (ok_avail _ Hok).
    assert (exists n, 1 <= n <= NUMBA_NUM_THREADS /\
      (if foldr Z.add 0 nums >=? num_tokens_threshold p
       then set_num_threads NUMBA_NUM_THREADS (Z.max 1 (Z.min (num_numba_thread_available p) (zlen valid)))
       else set_num_threads NUMBA_NUM_THREADS 1) = set_num_threads NUMBA_NUM_THREADS n) as (n & Hn & ->).
    { destruct (_ >=? _); eexists; (split; [|reflexivity]); lia. }
    apply set_num_threads_ok; [done|]. wp_simpl.
    eapply wp_mono; [apply (batch_propose_numba_ok (set_threads n p)); [by apply set_threads_ok|done..]|].
    intros _ p' (Hok' & (d & c & Hd & ->) & Hall). apply set_num_threads_ok; [done|].
    eapply wp_mono; [by apply read_drafts_ok|]. simpl. intros out p' [-> ->]. split_and!; [|by exists d, c|done].
    by apply set_threads_ok.
Qed.
End batch.

End proposer_ok.

(** The requests that get a draft: those that sampled a token and have room. *)
Definition wants_draft (p : NgramProposer) (sampled : list (list Z)) (nums : list Z) (i : Z) : Prop :=
  nth (Z.to_nat i) sampled [] <> [] /\ nth (Z.to_nat i) nums 0 < max_model_len p.
#[local] Instance wants_draft_dec p sampled nums i : Decision (wants_draft p sampled nums i) := decide (_ /\ _).

Lemma select_requests_ok p (sampled : list (list Z)) (nums : list Z) :
  (length sampled <= length nums)%nat ->
  wp (fold_ (zip (py_range 0 (zlen sampled)) sampled) [] (select_request nums))
     (fun valid p' => p' = p /\ valid = filter (wants_draft p sampled nums) (py_range 0 (zlen sampled))) p.
Proof.
  intros Hlen. set (es := zip (py_range 0 (zlen sampled)) sampled).
  assert (length (py_range 0 (zlen sampled)) = length sampled) as Hr by (unfold py_range; rewrite length_seqZ; lia).
  assert (forall i s, (i, s) ∈ es -> 0 <= i < zlen sampled /\ nth (Z.to_nat i) sampled [] = s) as Hes.
  { intros i s [j Hj]%list_elem_of_lookup. apply lookup_zip_Some in Hj as [Hi Hs].
    apply lookup_seqZ in Hi. pose proof (lookup_lt_Some _ _ _ Hs). split; [lia|].
    replace (Z.to_nat i) with j by lia. by apply nth_lookup_Some. }
  replace (py_range 0 (zlen sampled)) with es.*1 by (apply fst_zip; lia).
  apply (wp_fold _ _ _ (fun done _ valid p' => p' = p /\ valid = filter (wants_draft p sampled nums) done.*1));
    [done| |done].
  intros done [i s] todo valid p' E [-> ->].
  destruct (Hes i s) as [Hi Hs]; [rewrite E; set_solver|]. rewrite fmap_app, filter_app. cbn [fmap list_fmap fst].
  assert (forall b, wants_draft p sampled nums i <-> b = true -> filter (wants_draft p sampled nums) [i] =
    if b : bool then [i] else []) as Hf.
  { intros b H. destruct (decide (wants_draft p sampled nums i)) as [Hw|Hw].
    - rewrite filter_cons_True by done. by rewrite (proj1 H Hw).
    - rewrite filter_cons_False by done. destruct b; [|done]. by destruct Hw; apply H. }
  unfold select_request, wants_draft in *. rewrite Hs in Hf.
  destruct (zlen s =? 0) eqn:E0; bools; wp_simpl.
  - split; [done|]. rewrite (Hf false), app_nil_r; [done|]. destruct s; [|done]. split; [|done]. by intros [? _].
  - rewrite py_get_nonneg, (lookup_nth nums (Z.to_nat i) 0) by lia. eexists. split; [reflexivity|]. wp_simpl.
    assert (s <> []) by (by destruct s).
    destruct (_ >=? _) eqn:El; bools; wp_simpl; (split; [done|]).
    + rewrite (Hf false), app_nil_r; [done|]. split; [|done]. lia.
    + by rewrite (Hf true).
Qed.
(** C35: the batched proposer. Whatever an earlier call left in the shared
    buffers and in whatever order [prange] runs the rows, [propose] returns one
    list per request: the exact search result on the request's own context for
    a request that sampled a token and is below the length limit, and the empty
    list for every other. Numba's thread count and the configuration are as
    before, and the proposer stays usable. *)
Theorem propose_exact (NUMBA_NUM_THREADS : Z) (prange : list Z -> list Z) (p : NgramProposer)
    (k : Z) (sampled : list (list Z)) (nums : list Z) (tokens : list (list Z)) :
  (forall l, prange l ≡ₚ l) -> proposer_ok NUMBA_NUM_THREADS p -> k <= spec_k p ->
  (length sampled <= length nums)%nat -> (length sampled <= length tokens)%nat ->
  (length sampled <= length (valid_ngram_draft p))%nat ->
  wp (propose NUMBA_NUM_THREADS prange k sampled nums tokens) (fun out p' =>
    proposer_ok NUMBA_NUM_THREADS p' /\ same_config p p' /\ length out = length sampled /\
    forall i, (i < length sampled)%nat -> exists draft, out !! i = Some draft /\
      if decide (nth i sampled [] <> [] /\ nth i nums 0 < max_model_len p)
      then find_longest_matched_ngram_and_propose_tokens (py_upto (nth i nums 0) (nth i tokens []))
             (min_n p) (max_n p) (max_model_len p) k = Ok draft
      else draft = []) p.
Proof.
  intros Hpr Hok Hk H1 H2 H3. unfold propose. wp_simpl. split; [by apply Z.leb_le|].
  eapply wp_mono; [by apply (select_requests_ok p)|]. intros valid p' [-> Evalid].
  assert (forall i, i ∈ valid <-> wants_draft p sampled nums i /\ 0 <= i < zlen sampled) as Hv.
  { intros i. by rewrite Evalid, list_elem_of_filter, elem_of_py_range. }
  eapply wp_mono; [apply batch_propose_ok; [done..|]|].
  { intros i [_ Hi]%Hv. lia. }
  cbv beta. intros out p' (Hok' & Hc & ->). unfold py_range.
  split_and!; [done|done|rewrite length_map, length_seqZ; lia|]. intros i Hi.
  rewrite list_lookup_fmap, (proj2 (lookup_seqZ 0 (zlen sampled - 0) i (Z.of_nat i))) by lia.
  eexists. split; [reflexivity|]. cbv beta.
  specialize (Hv (Z.of_nat i)). unfold wants_draft in Hv. rewrite Nat2Z.id in *.
  destruct (decide (nth i sampled [] <> [] /\ nth i nums 0 < max_model_len p)) as [Hw|Hw].
  - rewrite decide_True by (apply Hv; split; [done|lia]). apply find_longest_reference, (ok_ngram _ _ Hok).
  - rewrite decide_False; [done|]. intros [? _]%Hv. done.
Qed.

(** A newly built proposer meets the precondition of every later call. *)
Lemma new_proposer_ok (NUMBA_NUM_THREADS : Z) prange lo hi k len seqs tp cpus threads :
  1 <= lo <= hi -> 0 <= k -> 0 <= len -> 0 <= seqs -> 1 <= tp -> 1 <= threads <= NUMBA_NUM_THREADS ->
  exists p, new_proposer NUMBA_NUM_THREADS prange (Some lo) (Some hi) k len seqs tp cpus threads = Ok p /\
    proposer_ok NUMBA_NUM_THREADS p /\ spec_k p = k /\ zlen (valid_ngram_draft p) = seqs.
Proof.
  intros Hn Hk Hlen Hseqs Htp Ht. unfold new_proposer.
  rewrite !(proj2 (Z.ltb_ge _ 0)) by lia. cbn [orb].
  set (avail := match cpus with None | Some 0 => 1 | Some c => _ end).
  assert (avail <= 1) as Ha.
  { unfold avail. destruct cpus as [[|c|c]|]; [lia| | |lia].
    all: etransitivity; [apply Z.div_le_mono; [lia|apply Z.le_min_l]|]; apply Z.div_le_upper_bound; lia. }
  set (p := mkProposer _ _ _ _ _ _ _ _ _).
  assert (propose NUMBA_NUM_THREADS prange k (replicate 1024 []) (replicate 1024 0)
    (replicate 1024 (replicate (Z.to_nat len) 0)) p = (Ok (replicate 1024 []), p)) as ->.
  { unfold propose, bind, gets, assert_, ret. cbn [spec_k p]. rewrite Z.leb_refl. by vm_compute. }
  exists p. split; [done|]. split_and!; [|done|simpl; rewrite length_replicate; lia].
  split; simpl; [done|by rewrite !length_replicate| |done|done].
  apply Forall_replicate. rewrite length_replicate. lia.
Qed.

Lemma propose_exact_witness : exists p out p',
  new_proposer 4 (fun l => reverse l) (Some 1) (Some 2) 2 100 3 1 (Some 8) 4 = Ok p /\
  propose 4 (fun l => reverse l) 2 [[6]; []; [9]] [5; 5; 2] [[5; 6; 8; 5; 6]; [5; 6; 8; 5; 6]; [9; 9; 9]] p = (Ok out, p') /\
  numba_threads p' = 4 /\ length out = 3%nat.
Proof.
  destruct (new_proposer_ok 4 (fun l => reverse l) 1 2 2 100 3 1 (Some 8) 4) as (p & E & Hok & Hk & Hl); [lia..|].
  pose proof (propose_exact 4 (fun l => reverse l) p 2 [[6]; []; [9]] [5; 5; 2]
    [[5; 6; 8; 5; 6]; [5; 6; 8; 5; 6]; [9; 9; 9]] (fun l => reverse_Permutation l) Hok ltac:(lia)
    ltac:(simpl; lia) ltac:(simpl; lia) ltac:(simpl; lia)) as H.
  apply wp_run in H as (out & p' & Er & _ & (d & c & _ & ->) & Hout & _).
  exists p, out, (set_buffers d c p). split_and!; [exact E|exact Er| |exact Hout].
  vm_compute in E. injection E as <-. reflexivity.
Defined.
