(* ===== verification/OrderedDict.v ===== *)
(** Python's [OrderedDict] as the offloading code uses it: the list of its
    items, oldest first. *)
From stdpp Require Import base list gmap sets.
From S2P Require Import Prelude.

Section odict.
Context {K V : Type} `{Countable K}.
Abbreviation odict := (list (K * V)).

Fixpoint od_get (key : K) (d : odict) : option V :=
  match d with
  | [] => None
  | (k, v) :: d => if decide (k = key) then Some v else od_get key d
  end.
(** [keys] without [key]; [d.pop(key, None)], the remaining dictionary. *)
Definition pop_key (key : K) (keys : list K) : list K := filter (fun k => k <> key) keys.
Definition od_del (key : K) (d : odict) : odict := filter (fun e => e.1 <> key) d.
(** [d[key] = v]: in place, or at the end for a new key. *)
Definition od_set (key : K) (v : V) (d : odict) : odict :=
  match od_get key d with
  | Some _ => map (fun e => if decide (e.1 = key) then (key, v) else e) d
  | None => d ++ [(key, v)]
  end.
(** [d.move_to_end(key)] for a key of [d]. *)
Definition od_move_to_end (key : K) (d : odict) : odict :=
  match od_get key d with
  | Some v => od_del key d ++ [(key, v)]
  | None => d
  end.

Lemma od_get_map key d : od_get key d = (list_to_map d : gmap K V) !! key.
Proof.
  induction d as [|[k v] d IH]; simpl; [done|]. destruct (decide (k = key)) as [->|].
  - by rewrite lookup_insert_eq.
  - by rewrite lookup_insert_ne.
Qed.

Lemma od_get_app key d d' :
  od_get key (d ++ d') = match od_get key d with Some c => Some c | None => od_get key d' end.
Proof. induction d as [|[k v] d IH]; simpl; [done|]. by destruct (decide (k = key)). Qed.

Lemma od_get_none key d : od_get key d = None <-> key ∉ d.*1.
Proof. rewrite od_get_map. symmetry. apply not_elem_of_list_to_map. Qed.

Lemma od_get_elem key c d : od_get key d = Some c -> key ∈ d.*1.
Proof. intros E. destruct (decide (key ∈ d.*1)) as [|Hn%od_get_none]; [done|congruence]. Qed.

Lemma od_get_in key c d : NoDup d.*1 -> od_get key d = Some c <-> (key, c) ∈ d.
Proof. intros Hnd. rewrite od_get_map. symmetry. by apply elem_of_list_to_map. Qed.

Lemma od_get_del k key d : od_get k (od_del key d) = if decide (k = key) then None else od_get k d.
Proof.
  unfold od_del. induction d as [|[k' v] d IH]; [by destruct (decide _)|].
  destruct (decide (k' = key)) as [->|Hne].
  - rewrite filter_cons_False by (simpl; tauto). rewrite IH. simpl.
    destruct (decide (k = key)) as [->|]; [done|]. by rewrite decide_False by done.
  - rewrite filter_cons_True by done. simpl. rewrite IH.
    destruct (decide (k' = k)) as [->|]; [by rewrite decide_False by done|done].
Qed.

Lemma od_del_keys key d : (od_del key d).*1 = pop_key key d.*1.
Proof.
  unfold od_del, pop_key. induction d as [|[k v] d IH]; [done|].
  cbn [fmap list_fmap fst]. destruct (decide (k = key)) as [->|].
  - rewrite !filter_cons_False by (simpl; tauto). done.
  - rewrite !filter_cons_True by done. cbn [fmap list_fmap fst]. by f_equal.
Qed.

Lemma od_del_absent key d : key ∉ d.*1 -> od_del key d = d.
Proof.
  intros Hk. apply list_filter_id. intros e He E. apply Hk. rewrite <- E. by apply list_elem_of_fmap_2.
Qed.

Lemma od_get_move k key d : od_get k (od_move_to_end key d) = od_get k d.
Proof.
  unfold od_move_to_end. destruct (od_get key d) as [v|] eqn:E; [|done].
  rewrite od_get_app, od_get_del. simpl. destruct (decide (k = key)) as [->|].
  - by rewrite decide_True by done.
  - destruct (od_get k d); [done|]. by rewrite decide_False by done.
Qed.

Lemma od_move_keys key d : key ∈ d.*1 -> (od_move_to_end key d).*1 = pop_key key d.*1 ++ [key].
Proof.
  intros Hk. unfold od_move_to_end. destruct (od_get key d) eqn:E; [|by apply od_get_none in E].
  by rewrite fmap_app, od_del_keys.
Qed.

Lemma od_set_new key v d : key ∉ d.*1 -> od_set key v d = d ++ [(key, v)].
Proof. intros Hk%od_get_none. unfold od_set. by rewrite Hk. Qed.

Lemma od_get_filter k (D : list K) d :
  od_get k (filter (fun e => e.1 ∉ D) d) = if decide (k ∈ D) then None else od_get k d.
Proof.
  induction d as [|[k' v] d IH]; [by destruct (decide _)|]. destruct (decide (k' ∈ D)) as [Hk|Hk].
  - rewrite filter_cons_False by (simpl; tauto). rewrite IH. simpl.
    destruct (decide (k ∈ D)), (decide (k' = k)); by subst.
  - rewrite filter_cons_True by done. simpl. rewrite IH.
    destruct (decide (k' = k)) as [->|]; [by rewrite decide_False by done|done].
Qed.

Lemma od_del_filter k (D : list K) d :
  od_del k (filter (fun e => e.1 ∉ D) d) = filter (fun e => e.1 ∉ D ++ [k]) d.
Proof.
  unfold od_del. rewrite list_filter_filter. apply list_filter_iff. intros e.
  rewrite elem_of_app, list_elem_of_singleton. tauto.
Qed.

Lemma elem_of_pop k key g : k ∈ pop_key key g <-> k ∈ g /\ k <> key.
Proof. unfold pop_key. rewrite list_elem_of_filter. tauto. Qed.
Lemma NoDup_pop key (g : list K) : NoDup g -> NoDup (pop_key key g).
Proof. apply NoDup_filter. Qed.
End odict.

Lemma NoDup_end {A} (l : list A) x : NoDup l -> x ∉ l -> NoDup (l ++ [x]).
Proof.
  intros Hl Hx. apply NoDup_app. split_and!; [done| |apply NoDup_singleton].
  intros y Hy ->%list_elem_of_singleton. done.
Qed.
