(* ===== verification/OffloadPolicy.v ===== *)
(** Eviction policies of the CPU offloading tier
    ([vllm/v1/kv_offload/cpu/policies/base.py], [vllm/v1/kv_offload/base.py]):
    offload keys, chunk objects, the [CachePolicy] interface as a class, and
    the laws the offloading manager relies on. *)
From Stdlib Require Import ZArith Lia.
From stdpp Require Import base numbers list gmap sets.
From S2P Require Import Prelude BlockHash.
Open Scope Z_scope.

(** * Keys *)

Definition make_offload_key (block_hash : bytes) (group_idx : Z) : outcome bytes :=
  match to_bytes 4 group_idx with
  | Ok g => Ok (block_hash ++ g)
  | Raise e => Raise e
  end.
Definition get_offload_block_hash (key : bytes) : bytes := py_upto (-4) key.
Definition get_offload_group_idx (key : bytes) : Z := from_bytes (py_from (-4) key).

(** * Chunks *)

(** [ref_cnt] is a [c_int32], [chunk_id] a [c_int64]. *)
Record ChunkStatus := mkChunk {
  ref_cnt : Z;
  chunk_id : Z
}.
Definition new_chunk (id : Z) : ChunkStatus := mkChunk (wrap_signed 32 (-1)) (wrap_signed 64 id).
Definition with_ref_cnt (r : Z) (c : ChunkStatus) : ChunkStatus :=
  mkChunk (wrap_signed 32 r) (chunk_id c).
Definition is_ready (c : ChunkStatus) : bool := ref_cnt c >=? 0.

(** Chunk objects are shared between a policy and the manager, which changes
    their [ref_cnt]; a reference is the number of the object. *)
Abbreviation chunk_heap := (gmap nat ChunkStatus).
Definition chunk_at (h : chunk_heap) (c : nat) : ChunkStatus := default (mkChunk (-1) 0) (h !! c).
Definition idle (h : chunk_heap) (c : nat) : Prop := ref_cnt (chunk_at h c) = 0.
#[export] Instance idle_dec h c : Decision (idle h c) := decide (_ = _).

(** * Order of a request's keys *)

(** [keys.sort(key=f)], stable. *)
Fixpoint sort_insert {A} (f : A -> Z) (x : A) (l : list A) : list A :=
  match l with
  | [] => [x]
  | y :: l => if f x <? f y then x :: y :: l else y :: sort_insert f x l
  end.
Definition stable_sort {A} (f : A -> Z) (l : list A) : list A := foldl (fun acc x => sort_insert f x acc) [] l.

(** Sort by position when every key, without repetitions, has one. *)
Definition sort_by_position (positions : gmap bytes Z) (keys : list bytes) : list bytes :=
  let known := filter (fun kp => kp.1 ∈ keys) positions in
  if decide (size known = length keys) then stable_sort (fun k => default 0 (known !! k)) keys
  else keys.

Definition order_request_keys (key_groups : list (list bytes)) (positions : gmap bytes Z) : list bytes :=
  sort_by_position positions (concat key_groups).

Lemma stable_sort_perm {A} (f : A -> Z) (l : list A) : stable_sort f l ≡ₚ l.
Proof.
  assert (forall x acc, sort_insert f x acc ≡ₚ x :: acc) as Hi.
  { intros x acc. induction acc as [|y acc IH]; simpl; [done|]. destruct (_ <? _); [done|].
    rewrite IH. apply perm_swap. }
  unfold stable_sort. cut (forall acc, foldl (fun acc x => sort_insert f x acc) acc l ≡ₚ l ++ acc).
  { intros H. rewrite H. by rewrite app_nil_r. }
  induction l as [|x l IH]; intros acc; simpl; [done|]. rewrite IH, Hi. by rewrite <- Permutation_middle.
Qed.

Lemma sort_by_position_perm positions keys : sort_by_position positions keys ≡ₚ keys.
Proof. unfold sort_by_position. destruct (decide _); [apply stable_sort_perm|done]. Qed.

(** * The interface *)

(** Methods read chunk objects through the heap they are given; none changes
    one. *)
Class CachePolicy (P : Type) := {
  new_policy : Z -> P;
  policy_get : bytes -> P -> option nat;
  policy_insert : chunk_heap -> bytes -> nat -> M P unit;
  policy_remove : bytes -> M P unit;
  policy_touch : chunk_heap -> list bytes -> M P unit;
  policy_on_store_miss : chunk_heap -> list bytes -> M P unit;
  policy_on_request_finished : chunk_heap -> gmap bytes Z -> list (list bytes) ->
    gset bytes -> gset bytes -> M P unit;
  policy_evict : chunk_heap -> Z -> gset bytes -> M P (option (list (bytes * nat)));
  policy_clear : M P unit;
  policy_mark_evictable : bytes -> M P unit;
  policy_mark_non_evictable : bytes -> M P unit
}.

(** The methods the abstract class implements. *)
Section defaults.
Context {P : Type} (touch : chunk_heap -> list bytes -> M P unit).
Definition default_on_store_miss (h : chunk_heap) (keys : list bytes) : M P unit := touch h keys.
Definition default_on_request_finished (h : chunk_heap) (positions : gmap bytes Z)
    (key_groups : list (list bytes)) (insertion_only_keys reused_keys : gset bytes) : M P unit :=
  for_ key_groups (touch h).
Definition default_mark_evictable (key : bytes) : M P unit := ret tt.
Definition default_mark_non_evictable (key : bytes) : M P unit := ret tt.
End defaults.

(** * What the manager relies on *)

(** The keys that may be evicted. *)
Definition eligible (h : chunk_heap) (m : gmap bytes nat) (protected : gset bytes) : gset bytes :=
  dom (filter (fun kc => idle h kc.2 /\ kc.1 ∉ protected) m).

Lemma elem_of_eligible h m protected k :
  k ∈ eligible h m protected <-> exists c, m !! k = Some c /\ idle h c /\ k ∉ protected.
Proof.
  unfold eligible. rewrite elem_of_dom. unfold is_Some. setoid_rewrite map_lookup_filter_Some. done.
Qed.

(** Outcome of [evict(n, protected)] on contents [m]: exactly [n] distinct
    eligible keys leave, or there are fewer than [n] and nothing changes. *)
Definition evict_spec (h : chunk_heap) (m m' : gmap bytes nat) (n : Z) (protected : gset bytes)
    (r : option (list (bytes * nat))) : Prop :=
  match r with
  | None => m' = m /\ Z.of_nat (size (eligible h m protected)) < n
  | Some l => zlen l = n /\ NoDup l.*1 /\
      (forall k c, (k, c) ∈ l -> m !! k = Some c /\ idle h c /\ k ∉ protected) /\
      (forall k, m' !! k = if decide (k ∈ l.*1) then None else m !! k)
  end.

Class CachePolicyLaws (P : Type) `{CachePolicy P} := {
  policy_ok : chunk_heap -> P -> Prop;
  contents : P -> gmap bytes nat;
  law_get h s k : policy_ok h s -> policy_get k s = contents s !! k;
  law_new h cap : 0 <= cap -> policy_ok h (new_policy cap) /\ contents (new_policy cap) = ∅;
  law_heap h h' s :
    policy_ok h s -> (forall k c, contents s !! k = Some c -> idle h c <-> idle h' c) -> policy_ok h' s;
  law_insert h s k c : policy_ok h s -> contents s !! k = None ->
    wp (policy_insert h k c) (fun _ s' => policy_ok h s' /\ contents s' = <[k := c]> (contents s)) s;
  law_remove h s k c : policy_ok h s -> contents s !! k = Some c ->
    wp (policy_remove k) (fun _ s' => policy_ok h s' /\ contents s' = delete k (contents s)) s;
  law_touch h s keys : policy_ok h s ->
    wp (policy_touch h keys) (fun _ s' => policy_ok h s' /\ contents s' = contents s) s;
  law_store_miss h s keys : policy_ok h s -> (forall k, k ∈ keys -> contents s !! k = None) ->
    wp (policy_on_store_miss h keys) (fun _ s' => policy_ok h s' /\ contents s' = contents s) s;
  law_finished h s pos groups ins reu : policy_ok h s ->
    wp (policy_on_request_finished h pos groups ins reu)
       (fun _ s' => policy_ok h s' /\ contents s' = contents s) s;
  law_evict h s n protected : policy_ok h s -> 0 < n ->
    wp (policy_evict h n protected)
       (fun r s' => policy_ok h s' /\ evict_spec h (contents s) (contents s') n protected r) s;
  law_clear h s : policy_ok h s ->
    wp policy_clear (fun _ s' => policy_ok h s' /\ contents s' = ∅) s;
  law_mark_evictable h h' s k c : policy_ok h s -> contents s !! k = Some c -> ~ idle h c -> idle h' c ->
    (forall k' c', k' <> k -> contents s !! k' = Some c' -> idle h c' <-> idle h' c') ->
    wp (policy_mark_evictable k) (fun _ s' => policy_ok h' s' /\ contents s' = contents s) s;
  law_mark_non_evictable h h' s k c : policy_ok h s -> contents s !! k = Some c -> idle h c -> ~ idle h' c ->
    (forall k' c', k' <> k -> contents s !! k' = Some c' -> idle h c' <-> idle h' c') ->
    wp (policy_mark_non_evictable k) (fun _ s' => policy_ok h' s' /\ contents s' = contents s) s
}.
