(* ===== verification/LruPolicy.v ===== *)
(** The LRU eviction policy of the CPU offloading tier
    ([vllm/v1/kv_offload/cpu/policies/lru.py]): recency ranks, the set of
    evictable keys, and a min-heap whose stale entries are dropped lazily. *)
From Stdlib Require Import ZArith Lia Sorting.Sorted.
From stdpp Require Import base numbers list gmap sets.
From S2P Require Import Prelude Heap BlockHash OffloadPolicy.
Open Scope Z_scope.

(** * Order on heap entries: tuples of a rank and a key *)

Fixpoint bytes_compare (a b : bytes) : comparison :=
  match a, b with
  | [], [] => Eq
  | [], _ :: _ => Lt
  | _ :: _, [] => Gt
  | x :: a, y :: b => match Z.compare (Z_of_byte x) (Z_of_byte y) with
                      | Eq => bytes_compare a b
                      | r => r
                      end
  end.

Lemma bytes_compare_cmp : is_cmp bytes_compare.
Proof.
  split.
  - intros x. induction x as [|a x IH]; intros [|b y]; simpl; try done.
    rewrite (Z.compare_antisym (Z_of_byte a) (Z_of_byte b)).
    destruct (Z.compare (Z_of_byte a) (Z_of_byte b)); simpl; auto.
  - intros x. induction x as [|a x IH]; intros [|b y] [|c z]; simpl; try done.
    destruct (Z.compare_spec (Z_of_byte a) (Z_of_byte b)),
      (Z.compare_spec (Z_of_byte b) (Z_of_byte c)),
      (Z.compare_spec (Z_of_byte a) (Z_of_byte c)); try done; try lia. apply IH.
Qed.

Abbreviation entry := (Z * bytes)%type.
Definition entry_cmp : entry -> entry -> comparison :=
  lex (fun a b => Z.compare a.1 b.1) (fun a b => bytes_compare a.2 b.2).
Abbreviation entry_lt := (cmp_lt entry_cmp).

Lemma entry_cmp_ok : is_cmp entry_cmp.
Proof.
  apply lex_cmp; [apply (Zcompare_cmp fst)|]. destruct bytes_compare_cmp as [Ho Ht]. split; eauto.
Qed.
Abbreviation is_heap := (Heap.is_heap entry_lt).
Abbreviation entry_le := (Heap.le entry_lt).

Lemma entry_le_rank a b : entry_le a b -> a.1 <= b.1.
Proof.
  unfold Heap.le, cmp_lt, entry_cmp, lex. destruct (Z.compare_spec b.1 a.1); [lia|done|lia].
Qed.

(** * State *)

Record LRUCachePolicy := mkLRU {
  cache_capacity : Z;
  chunks : gmap bytes nat;
  ranks : gmap bytes Z;
  evictable : gset bytes;
  rank_heap : list entry;
  next_rank : Z
}.

Definition set_chunks (m : gmap bytes nat) (s : LRUCachePolicy) : LRUCachePolicy :=
  mkLRU (cache_capacity s) m (ranks s) (evictable s) (rank_heap s) (next_rank s).
Definition set_ranks (r : gmap bytes Z) (s : LRUCachePolicy) : LRUCachePolicy :=
  mkLRU (cache_capacity s) (chunks s) r (evictable s) (rank_heap s) (next_rank s).
Definition set_evictable (e : gset bytes) (s : LRUCachePolicy) : LRUCachePolicy :=
  mkLRU (cache_capacity s) (chunks s) (ranks s) e (rank_heap s) (next_rank s).
Definition set_heap (l : list entry) (s : LRUCachePolicy) : LRUCachePolicy :=
  mkLRU (cache_capacity s) (chunks s) (ranks s) (evictable s) l (next_rank s).
(** [self._next_rank += 1; self._ranks[key] = self._next_rank] *)
Definition bump_rank (key : bytes) (s : LRUCachePolicy) : LRUCachePolicy :=
  mkLRU (cache_capacity s) (chunks s) (<[key := next_rank s + 1]> (ranks s)) (evictable s)
    (rank_heap s) (next_rank s + 1).

Section lru.
(** The order in which Python iterates over a set. *)
Context (iter_set : gset bytes -> list bytes).

(** * Operations *)

Definition lru_init (capacity : Z) : LRUCachePolicy := mkLRU capacity ∅ ∅ ∅ [] 0.

Definition assign_new_rank (key : bytes) : M LRUCachePolicy bool :=
  let! s := gets (fun s => s) in
  if decide (chunks s !! key = None) then ret false else
  modify (bump_rank key) ;;
  ret (bool_decide (key ∈ evictable s)).

(** [heapq.heappush(self._heap, e)] *)
Definition heap_push (e : entry) : M LRUCachePolicy unit :=
  let! s := gets (fun s => s) in
  let! l := lift (Heap.heappush entry_lt (rank_heap s) e) in
  modify (set_heap l).

Definition push_evictable (key : bytes) : M LRUCachePolicy unit :=
  let! s := gets (fun s => s) in
  let! r := lift (or_raise (ranks s !! key) KeyError) in
  heap_push (r, key).

Definition is_current (e : entry) (s : LRUCachePolicy) : bool :=
  bool_decide (e.2 ∈ evictable s) && bool_decide (ranks s !! e.2 = Some e.1).

(** [[(self._ranks[key], key) for key in keys]] *)
Fixpoint ranked (r : gmap bytes Z) (keys : list bytes) : outcome (list entry) :=
  match keys with
  | [] => Ok []
  | key :: keys =>
      match r !! key with
      | None => Raise KeyError
      | Some rank => match ranked r keys with
                     | Ok es => Ok ((rank, key) :: es)
                     | Raise e => Raise e
                     end
      end
  end.

Definition rebuild_heap : M LRUCachePolicy unit :=
  let! s := gets (fun s => s) in
  let! es := lift (ranked (ranks s) (iter_set (evictable s))) in
  let! l := lift (Heap.heapify entry_lt es) in
  modify (set_heap l).

Definition maybe_compact_heap : M LRUCachePolicy unit :=
  let! s := gets (fun s => s) in
  if zlen (rank_heap s) <? Z.max 64 (2 * Z.of_nat (size (evictable s))) then ret tt else rebuild_heap.

Definition update_recency (keys : list bytes) : M LRUCachePolicy unit :=
  let! updated_evictable := fold_ keys [] (fun acc key =>
    let! b := assign_new_rank key in ret (if b : bool then acc ++ [key] else acc)) in
  let! s := gets (fun s => s) in
  if zlen updated_evictable >=? Z.max 64 (Z.of_nat (size (evictable s)) / 4) then rebuild_heap else
  for_ updated_evictable push_evictable ;;
  maybe_compact_heap.

Definition lru_get (key : bytes) (s : LRUCachePolicy) : option nat := chunks s !! key.

Definition lru_insert (h : chunk_heap) (key : bytes) (chunk : nat) : M LRUCachePolicy unit :=
  modify (fun s => set_chunks (<[key := chunk]> (chunks s)) s) ;;
  modify (bump_rank key) ;;
  if ref_cnt (chunk_at h chunk) =? 0 then
    modify (fun s => set_evictable (evictable s ∪ {[key]}) s) ;;
    push_evictable key
  else ret tt.

Definition lru_remove (key : bytes) : M LRUCachePolicy unit :=
  let! s := gets (fun s => s) in
  if decide (chunks s !! key = None) then raise KeyError else
  modify (fun s => set_chunks (delete key (chunks s)) s) ;;
  modify (fun s => set_ranks (delete key (ranks s)) s) ;;
  modify (fun s => set_evictable (evictable s ∖ {[key]}) s).

Definition lru_touch (h : chunk_heap) (keys : list bytes) : M LRUCachePolicy unit :=
  update_recency (reverse keys).

Definition lru_on_request_finished (h : chunk_heap) (positions : gmap bytes Z)
    (key_groups : list (list bytes)) (insertion_only_keys reused_keys : gset bytes) :
    M LRUCachePolicy unit :=
  update_recency (reverse (order_request_keys key_groups positions)).

Definition lru_clear : M LRUCachePolicy unit :=
  modify (fun s => mkLRU (cache_capacity s) ∅ ∅ ∅ [] 0).

Definition lru_mark_evictable (key : bytes) : M LRUCachePolicy unit :=
  modify (fun s => set_evictable (evictable s ∪ {[key]}) s) ;;
  push_evictable key ;;
  maybe_compact_heap.

Definition lru_mark_non_evictable (key : bytes) : M LRUCachePolicy unit :=
  let! s := gets (fun s => s) in
  if negb (bool_decide (key ∈ evictable s)) then raise KeyError else
  modify (fun s => set_evictable (evictable s ∖ {[key]}) s).

(** ** Eviction *)

(** The local variables of [evict]. *)
Record selection := mkSel {
  selected : list (entry * nat);
  selected_keys : gset bytes;
  deferred : list entry
}.

(** The body of the [while] loop. *)
Definition select_step (h : chunk_heap) (protected : gset bytes) (v : selection) :
    M LRUCachePolicy selection :=
  let! s := gets (fun s => s) in
  let! popped := lift (Heap.heappop entry_lt (rank_heap s)) in
  modify (set_heap popped.2) ;;
  let e := popped.1 in
  if negb (is_current e s) then ret v else
  let key := e.2 in
  if bool_decide (key ∈ selected_keys v) then ret v else
  if bool_decide (key ∈ protected)
  then ret (mkSel (selected v) (selected_keys v) (deferred v ++ [e])) else
  let! chunk := lift (or_raise (chunks s !! key) KeyError) in
  assert_ (ref_cnt (chunk_at h chunk) =? 0) ;;
  ret (mkSel (selected v ++ [(e, chunk)]) (selected_keys v ∪ {[key]}) (deferred v)).

(** Every round pops an entry, so the heap's length bounds the rounds. *)
Fixpoint select_loop (fuel : nat) (h : chunk_heap) (n : Z) (protected : gset bytes) (v : selection) :
    M LRUCachePolicy selection :=
  let! s := gets (fun s => s) in
  if decide (rank_heap s = []) then ret v else
  if negb (zlen (selected v) <? n) then ret v else
  match fuel with
  | O => raise OutOfFuel
  | S fuel => let! v := select_step h protected v in select_loop fuel h n protected v
  end.

(** The final loop: [self._evictable.remove(key); del self.chunks[key]; del self._ranks[key]]. *)
Definition drop_selected (candidates : list (bytes * nat)) (x : entry * nat) :
    M LRUCachePolicy (list (bytes * nat)) :=
  let key := x.1.2 in
  lru_mark_non_evictable key ;;
  let! s := gets (fun s => s) in
  (if decide (chunks s !! key = None) then raise KeyError
   else modify (set_chunks (delete key (chunks s)))) ;;
  (if decide (ranks s !! key = None) then raise KeyError
   else modify (set_ranks (delete key (ranks s)))) ;;
  ret (candidates ++ [(key, x.2)]).

Definition lru_evict (h : chunk_heap) (n : Z) (protected : gset bytes) :
    M LRUCachePolicy (option (list (bytes * nat))) :=
  if n =? 0 then ret (Some []) else
  let! s := gets (fun s => s) in
  let! v := select_loop (length (rank_heap s)) h n protected (mkSel [] ∅ []) in
  if zlen (selected v) <? n then
    for_ (selected v) (fun x => heap_push x.1) ;;
    for_ (deferred v) heap_push ;;
    ret None
  else
    for_ (deferred v) heap_push ;;
    let! candidates := fold_ (selected v) [] drop_selected in
    maybe_compact_heap ;;
    ret (Some candidates).
End lru.

(** * Invariant *)

(** What iterating over a set guarantees: every element once, in any order. *)
Definition set_iteration (iter_set : gset bytes -> list bytes) : Prop :=
  forall X, iter_set X ≡ₚ elements X.

(** The order-independent part: ranks are unique and belong to the cached keys. *)
Record ranks_ok (s : LRUCachePolicy) : Prop := {
  ok_dom : forall k, is_Some (ranks s !! k) <-> is_Some (chunks s !! k);
  ok_le : forall k r, ranks s !! k = Some r -> r <= next_rank s;
  ok_inj : forall k k' r, ranks s !! k = Some r -> ranks s !! k' = Some r -> k = k'
}.
Definition evictable_ok (h : chunk_heap) (s : LRUCachePolicy) : Prop :=
  forall k, k ∈ evictable s <-> exists c, chunks s !! k = Some c /\ idle h c.
(** The heap holds the current entry of every evictable key of [X]. *)
Definition covers (X : gset bytes) (s : LRUCachePolicy) : Prop :=
  is_heap (rank_heap s) /\
  forall k r, k ∈ X -> k ∈ evictable s -> ranks s !! k = Some r -> (r, k) ∈ rank_heap s.

Record lru_ok (h : chunk_heap) (s : LRUCachePolicy) : Prop := {
  lru_ranks : ranks_ok s;
  lru_evictable : evictable_ok h s;
  lru_heap : covers (evictable s) s
}.

Lemma set_heap_ok h s l :
  ranks_ok s -> evictable_ok h s -> covers (evictable s) (set_heap l s) -> lru_ok h (set_heap l s).
Proof. intros [] ??. by split. Qed.

Lemma wp_heap_push e s (Q : unit -> LRUCachePolicy -> Prop) :
  is_heap (rank_heap s) ->
  (forall l, is_heap l -> l ≡ₚ e :: rank_heap s -> Q tt (set_heap l s)) ->
  wp (heap_push e) Q s.
Proof.
  intros Hh HQ. unfold heap_push. wp_simpl.
  destruct (Heap.heappush_ok _ (cmp_lt_asym _ entry_cmp_ok) (cmp_lt_ntrans _ entry_cmp_ok) (rank_heap s) e Hh)
    as (l & -> & ? & ?).
  eexists. split; [reflexivity|]. wp_simpl. auto.
Qed.

Lemma wp_heap_pushes {A} (f : A -> entry) (xs : list A) s (Q : unit -> LRUCachePolicy -> Prop) :
  is_heap (rank_heap s) ->
  (forall l, is_heap l -> l ≡ₚ map f xs ++ rank_heap s -> Q tt (set_heap l s)) ->
  wp (for_ xs (fun x => heap_push (f x))) Q s.
Proof.
  revert s. induction xs as [|x xs IH]; intros s Hh HQ; simpl; wp_simpl.
  { specialize (HQ (rank_heap s) Hh). destruct s. by apply HQ. }
  apply wp_heap_push; [done|]. intros l Hl Hp. apply IH; [done|]. intros l' Hl' Hp'.
  simpl in *. apply HQ; [done|]. rewrite Hp', Hp. by rewrite <- Permutation_middle.
Qed.

Lemma ranked_ok r keys :
  (forall k, k ∈ keys -> is_Some (r !! k)) ->
  exists es, ranked r keys = Ok es /\ forall k x, (x, k) ∈ es <-> k ∈ keys /\ r !! k = Some x.
Proof.
  induction keys as [|k keys IH]; intros Hk; simpl.
  { exists []. split; [done|]. intros k x. rewrite !elem_of_nil. tauto. }
  destruct (Hk k) as [x Hx]; [by left|]. rewrite Hx.
  destruct IH as (es & -> & Hes); [intros; apply Hk; by right|].
  exists ((x, k) :: es). split; [done|]. intros k' x'. rewrite !elem_of_cons, Hes. naive_solver.
Qed.

Lemma wp_rebuild iter_set s (Q : unit -> LRUCachePolicy -> Prop) :
  set_iteration iter_set ->
  (forall k, k ∈ evictable s -> is_Some (ranks s !! k)) ->
  (forall l, covers (evictable s) (set_heap l s) -> Q tt (set_heap l s)) ->
  wp (rebuild_heap iter_set) Q s.
Proof.
  intros Hiter Hk HQ. unfold rebuild_heap. wp_simpl.
  assert (forall k, k ∈ iter_set (evictable s) <-> k ∈ evictable s) as Hit.
  { intros k. by rewrite (Hiter (evictable s)), elem_of_elements. }
  destruct (ranked_ok (ranks s) (iter_set (evictable s))) as (es & -> & Hes).
  { intros k Hin%Hit. auto. }
  eexists. split; [reflexivity|]. wp_simpl.
  destruct (Heap.heapify_ok _ (cmp_lt_asym _ entry_cmp_ok) (cmp_lt_ntrans _ entry_cmp_ok) es) as (l & -> & Hl & Hp).
  eexists. split; [reflexivity|]. wp_simpl. apply HQ. split; [done|]. simpl.
  intros k r _ Hin Hr. rewrite Hp. apply Hes. by rewrite Hit.
Qed.

Lemma ok_ranked h s : ranks_ok s -> evictable_ok h s -> forall k, k ∈ evictable s -> is_Some (ranks s !! k).
Proof. intros [Hd _ _] He k (c & Hc & _)%He. apply Hd. eauto. Qed.

Lemma wp_compact iter_set h s :
  set_iteration iter_set -> lru_ok h s -> wp (maybe_compact_heap iter_set) (fun _ s' => exists l, s' = set_heap l s /\ lru_ok h s') s.
Proof.
  intros Hiter [Hr He Hc]. unfold maybe_compact_heap. wp_simpl. destruct (_ <? _).
  - apply wp_ret. exists (rank_heap s). destruct s. split; [done|]. by split.
  - apply wp_rebuild; [done|by apply (ok_ranked h)|]. intros l Hl. exists l. split; [done|].
    by apply set_heap_ok.
Qed.

(** Pushing the current entry of a key completes the heap. *)
Lemma wp_push_evictable h k X s :
  ranks_ok s -> evictable_ok h s -> covers X s -> k ∈ evictable s ->
  wp (push_evictable k) (fun _ s' => exists l, s' = set_heap l s /\ covers (X ∪ {[k]}) s') s.
Proof.
  intros Hr He [Hh Hc] Hk. unfold push_evictable. wp_simpl.
  destruct (ok_ranked h s Hr He k Hk) as [r Er]. rewrite Er. eexists. split; [reflexivity|].
  apply wp_heap_push; [done|]. intros l Hl Hp. exists l. split; [done|]. split; [done|]. simpl.
  intros k' r' [HX| ->%elem_of_singleton]%elem_of_union Hk' Hr'; rewrite Hp.
  - right. auto.
  - assert (r' = r) as -> by congruence. by left.
Qed.

Lemma bump_rank_ok k s :
  (forall k', k' <> k -> is_Some (ranks s !! k') <-> is_Some (chunks s !! k')) -> is_Some (chunks s !! k) ->
  (forall k r, ranks s !! k = Some r -> r <= next_rank s) ->
  (forall k k' r, ranks s !! k = Some r -> ranks s !! k' = Some r -> k = k') ->
  ranks_ok (bump_rank k s).
Proof.
  intros Hd Hk Hle Hinj. split; simpl.
  - intros k'. destruct (decide (k' = k)) as [->|]; [|rewrite lookup_insert_ne by done; auto].
    rewrite lookup_insert_eq. split; eauto.
  - intros k' r. rewrite lookup_insert_Some. intros [[<- <-]|[_ Hr]]; [lia|]. apply Hle in Hr. lia.
  - intros k1 k2 r. rewrite !lookup_insert_Some.
    intros [[<- <-]|[? H1]] [[<- E]|[? H2]]; [done| | |by eapply Hinj].
    + apply Hle in H2. lia.
    + apply Hle in H1. lia.
Qed.

(** [b] was used after [a]. *)
Definition used_later (s : LRUCachePolicy) (a b : bytes) : Prop :=
  forall ra rb, ranks s !! a = Some ra -> ranks s !! b = Some rb -> ra < rb.

(** The effect on recency of using the keys one after the other. *)
Record reranked (keys : list bytes) (s s' : LRUCachePolicy) : Prop := {
  rr_next : next_rank s <= next_rank s';
  rr_other : forall k, k ∉ keys -> ranks s' !! k = ranks s !! k;
  rr_new : forall k, k ∈ keys -> is_Some (chunks s !! k) -> exists r, ranks s' !! k = Some r /\ next_rank s < r;
  rr_order : NoDup keys -> StronglySorted (used_later s') keys
}.

Lemma sorted_snoc_rel {A} (R : A -> A -> Prop) (l : list A) x :
  StronglySorted R l -> (forall e, e ∈ l -> R e x) -> StronglySorted R (l ++ [x]).
Proof.
  induction 1 as [|y l Hl IH Hf]; intros Hx; simpl; [by repeat constructor|].
  constructor; [apply IH; intros; apply Hx; by right|]. apply Forall_app. split; [done|].
  constructor; [apply Hx; by left|done].
Qed.

Lemma sorted_reverse {A} (R : A -> A -> Prop) (l : list A) :
  StronglySorted R l -> StronglySorted (fun a b => R b a) (reverse l).
Proof.
  induction 1 as [|x l Hl IH Hf]; [constructor|]. rewrite reverse_cons. apply sorted_snoc_rel; [done|].
  intros e He. rewrite Forall_forall in Hf. apply Hf. by apply elem_of_reverse.
Qed.

Lemma sorted_impl {A} (R R' : A -> A -> Prop) (l : list A) :
  StronglySorted R l -> (forall a b, a ∈ l -> b ∈ l -> R a b -> R' a b) -> StronglySorted R' l.
Proof.
  induction 1 as [|x l Hl IH Hf]; intros HR; constructor; [apply IH; intros; apply HR; by (try right)|].
  apply Forall_forall. intros y Hy. rewrite Forall_forall in Hf. apply HR; [by left|by right|auto].
Qed.

Lemma reranked_snoc keys k s s' :
  ranks_ok s' -> reranked keys s s' -> chunks s' = chunks s ->
  reranked (keys ++ [k]) s (if decide (chunks s' !! k = None) then s' else bump_rank k s').
Proof.
  intros Hr [Hn Ho Hnew Hs] Ec. destruct (decide (chunks s' !! k = None)) as [Hk|Hk].
  - split; [done|set_solver| |].
    + intros k' [?| ->%list_elem_of_singleton]%elem_of_app Hc; [auto|]. rewrite Ec in Hk. by rewrite Hk in Hc; destruct Hc.
    + intros (Hnd & _ & _)%NoDup_app. apply sorted_snoc_rel; [auto|]. intros e _ ra rb _ Hrb.
      assert (is_Some (chunks s' !! k)) as Hx by (apply (ok_dom _ Hr); eauto). by rewrite Hk in Hx; destruct Hx.
  - split; simpl; [lia| | |].
    + intros k' Hk'. rewrite lookup_insert_ne by set_solver. apply Ho. set_solver.
    + intros k' Hk' Hc. destruct (decide (k' = k)) as [->|]; [rewrite lookup_insert_eq; eexists; split; [done|lia]|].
      rewrite lookup_insert_ne by done. apply Hnew; set_solver.
    + intros (Hnd & Hdis & _)%NoDup_app. assert (k ∉ keys) as Hnk by (intros ?; apply (Hdis k); set_solver).
      apply sorted_snoc_rel.
      * apply (sorted_impl (used_later s')); [auto|]. unfold used_later. simpl. intros a b Ha Hb.
        rewrite !lookup_insert_ne by (by intros ->). done.
      * intros e He ra rb. simpl. rewrite lookup_insert_ne by (by intros ->). rewrite lookup_insert_eq.
        intros Hra [= <-]. apply (ok_le _ Hr) in Hra. lia.
Qed.

(** The keys given a new rank; only the entries of those on the list need
    pushing. *)
Lemma wp_assign_ranks h keys s :
  lru_ok h s ->
  wp (fold_ keys [] (fun acc key => let! b := assign_new_rank key in ret (if b : bool then acc ++ [key] else acc)))
     (fun updated s' => (ranks_ok s' /\ evictable_ok h s' /\ chunks s' = chunks s /\ evictable s' = evictable s) /\
        covers (evictable s ∖ list_to_set updated) s' /\ (forall k, k ∈ updated -> k ∈ evictable s) /\
        reranked keys s s') s.
Proof.
  intros [Hr He Hc]. eapply (wp_fold _ _ _ (fun done _ updated s' => (ranks_ok s' /\ evictable_ok h s' /\
    chunks s' = chunks s /\ evictable s' = evictable s) /\
    covers (evictable s ∖ list_to_set updated) s' /\ (forall k, k ∈ updated -> k ∈ evictable s) /\
    reranked done s s')); [| |done].
  - split_and!; try done; [|by intros k Hk%not_elem_of_nil|].
    + simpl. by rewrite difference_empty_L.
    + split; [lia|done|by intros k Hk%not_elem_of_nil|constructor].
  - intros done k todo upd s' _ ((Hr' & He' & Ec & Ee) & [Hh Hcov] & Hupd & Hre). unfold assign_new_rank. wp_simpl.
    pose proof (reranked_snoc done k s s' Hr' Hre Ec) as Hre'.
    destruct (decide (chunks s' !! k = None)) as [Hk|Hk]; wp_simpl; [by split_and!|].
    split_and!; [apply bump_rank_ok; [intros; apply Hr'|by apply not_eq_None_Some|apply Hr'..]|done|done|done| | |done].
    + split; [done|]. simpl. intros k' r Hk' Hev Hr'0.
      assert (k' <> k) as Hne.
      { intros ->. rewrite bool_decide_eq_true_2 in Hk' by done. set_solver. }
      rewrite lookup_insert_ne in Hr'0 by done. apply Hcov; [|done|done].
      case_bool_decide; [set_solver|done].
    + case_bool_decide as Hin; [|done]. intros k' [Hk'| ->%list_elem_of_singleton]%elem_of_app; [auto|].
      by rewrite <- Ee.
Qed.

Lemma wp_update_recency iter_set h keys s :
  set_iteration iter_set -> lru_ok h s ->
  wp (update_recency iter_set keys) (fun _ s' => lru_ok h s' /\ chunks s' = chunks s /\ reranked keys s s') s.
Proof.
  intros Hiter Hs. unfold update_recency. wp_simpl. eapply wp_mono; [by apply (wp_assign_ranks h)|].
  simpl. intros upd s' ((Hr & He & Ec & Ee) & Hc & Hupd & Hre). wp_simpl.
  assert (forall l, reranked keys s (set_heap l s')) as Hre' by (intros l; by destruct Hre).
  destruct (_ >=? _).
  - apply wp_rebuild; [done|by apply (ok_ranked h)|]. intros l Hl. split_and!; [by apply set_heap_ok|done|done].
  - wp_simpl. apply (wp_for _ _ (fun done _ s'' => exists l, s'' = set_heap l s' /\
      covers ((evictable s ∖ list_to_set upd) ∪ list_to_set done) s'')).
    + exists (rank_heap s'). split; [by destruct s'|]. simpl. by rewrite union_empty_r_L.
    + intros done k todo s'' E (l & -> & Hcl). eapply wp_mono.
      * apply (wp_push_evictable h); [by destruct Hr|done|done|]. simpl. rewrite Ee. apply Hupd. rewrite E. set_solver.
      * intros _ s3 (l' & -> & Hcl'). exists l'. split; [done|]. by rewrite list_to_set_app_L, list_to_set_singleton_L, assoc_L by apply _.
    + intros s'' (l & -> & Hcl). eapply wp_mono; [apply (wp_compact iter_set h); [done|]|].
      * apply set_heap_ok; [done|done|]. rewrite Ee. destruct Hcl as [? Hcl]. split; [done|].
        intros k r Hk. apply Hcl. destruct (decide (k ∈ upd)); set_solver.
      * intros _ s3 (l' & -> & ?). split_and!; [done|done|apply Hre'].
Qed.

Lemma lru_insert_ok h s k c :
  lru_ok h s -> chunks s !! k = None ->
  wp (lru_insert h k c) (fun _ s' => lru_ok h s' /\ chunks s' = <[k := c]> (chunks s)) s.
Proof.
  intros [[Hd Hle Hinj] He [Hh Hc]] Hk. unfold lru_insert. wp_simpl.
  set (s1 := bump_rank k (set_chunks (<[k := c]> (chunks s)) s)).
  assert (k ∉ evictable s) as Hnk by (intros (c' & ? & _)%He; congruence).
  assert (ranks_ok s1) as Hr1.
  { apply bump_rank_ok; simpl; [|rewrite lookup_insert_eq; eauto|done|done].
    intros k' Hk'. rewrite lookup_insert_ne by done. apply Hd. }
  assert (forall X, evictable_ok h (set_evictable X s1) <->
            (forall k', k' ∈ X <-> k' ∈ evictable s \/ k' = k /\ idle h c)) as HX.
  { intros X. unfold evictable_ok in *. simpl. split; intros H k'; rewrite H, ?He; clear H;
      destruct (decide (k' = k)) as [->|]; rewrite ?lookup_insert_eq, ?lookup_insert_ne by done; naive_solver. }
  assert (covers (evictable s) s1) as Hc1.
  { split; [done|]. simpl. intros k' r Hk' _. rewrite lookup_insert_ne by (by intros ->). auto. }
  destruct (_ =? 0) eqn:Ei; bools; wp_simpl.
  - set (s2 := set_evictable (evictable s1 ∪ {[k]}) s1). eapply wp_mono.
    + apply (wp_push_evictable h k (evictable s)); [by destruct Hr1|by apply HX; set_solver| |set_solver].
      destruct Hc1 as [? Hc1]. split; [done|]. simpl. intros k' r Hk' _. by apply Hc1.
    + intros _ s' (l & -> & Hcl). split; [|done]. by apply set_heap_ok; [destruct Hr1|apply HX; set_solver|].
  - split; [|done]. split; [done| |done]. unfold s1 at 1.
    change s1 with (set_evictable (evictable s) s1). apply HX. unfold idle. naive_solver.
Qed.

Lemma lru_remove_ok h s k c :
  lru_ok h s -> chunks s !! k = Some c ->
  wp (lru_remove k) (fun _ s' => lru_ok h s' /\ chunks s' = delete k (chunks s)) s.
Proof.
  intros [[Hd Hle Hinj] He [Hh Hc]] Hk. unfold lru_remove. wp_simpl.
  rewrite decide_False by (by rewrite Hk). wp_simpl. split; [|done]. split.
  - split; simpl.
    + intros k'. destruct (decide (k' = k)) as [->|]; [by rewrite !lookup_delete_eq|by rewrite !lookup_delete_ne].
    + intros k' r [_ Hr]%lookup_delete_Some. by apply (Hle k').
    + intros k1 k2 r [_ H1]%lookup_delete_Some [_ H2]%lookup_delete_Some. by eapply Hinj.
  - intros k'. simpl. rewrite elem_of_difference, elem_of_singleton, (He k').
    setoid_rewrite lookup_delete_Some. naive_solver.
  - split; [done|]. simpl. intros k' r _ [Hk' _]%elem_of_difference [_ Hr]%lookup_delete_Some. by apply Hc.
Qed.

Lemma lru_mark_evictable_ok iter_set h h' s k c :
  set_iteration iter_set -> lru_ok h s -> chunks s !! k = Some c -> idle h' c ->
  (forall k' c', k' <> k -> chunks s !! k' = Some c' -> idle h c' <-> idle h' c') ->
  wp (lru_mark_evictable iter_set k) (fun _ s' => lru_ok h' s' /\ chunks s' = chunks s) s.
Proof.
  intros Hiter [Hr He [Hh Hc]] Hk Hi Hother. unfold lru_mark_evictable. wp_simpl.
  set (s1 := set_evictable (evictable s ∪ {[k]}) s).
  assert (evictable_ok h' s1) as He1.
  { intros k'. simpl. rewrite elem_of_union, elem_of_singleton, (He k').
    destruct (decide (k' = k)) as [->|]; [naive_solver|]. split.
    - intros [(c' & Hc' & Hi')| ->]; [|done]. exists c'. split; [done|]. by apply (Hother k').
    - intros (c' & Hc' & Hi'). left. exists c'. split; [done|]. by apply (Hother k'). }
  eapply wp_mono; [apply (wp_push_evictable h' k (evictable s)); [by destruct Hr|done| |set_solver]|].
  { split; [done|]. simpl. auto. }
  intros _ s' (l & -> & Hcl). eapply wp_mono; [apply (wp_compact iter_set h'); [done|]; apply set_heap_ok; [by destruct Hr|done..]|].
  intros _ s' (l' & -> & ?). by split.
Qed.

Lemma lru_mark_non_evictable_ok h h' s k c :
  lru_ok h s -> chunks s !! k = Some c -> idle h c -> ~ idle h' c ->
  (forall k' c', k' <> k -> chunks s !! k' = Some c' -> idle h c' <-> idle h' c') ->
  wp (lru_mark_non_evictable k) (fun _ s' => lru_ok h' s' /\ chunks s' = chunks s) s.
Proof.
  intros [Hr He [Hh Hc]] Hk Hi Hi' Hother. unfold lru_mark_non_evictable. wp_simpl.
  rewrite bool_decide_eq_true_2 by (apply He; eauto). simpl. wp_simpl. split; [|done].
  split; [by destruct Hr| |].
  - intros k'. simpl. rewrite elem_of_difference, elem_of_singleton, (He k').
    destruct (decide (k' = k)) as [->|]; [naive_solver|]. split.
    + intros [(c' & Hc' & Hx) _]. exists c'. split; [done|]. by apply (Hother k').
    + intros (c' & Hc' & Hx). split; [|done]. exists c'. split; [done|]. by apply (Hother k').
  - split; [done|]. simpl. intros k' r _ [Hk' _]%elem_of_difference. auto.
Qed.

Lemma lru_heap_change h h' s :
  lru_ok h s -> (forall k c, chunks s !! k = Some c -> idle h c <-> idle h' c) -> lru_ok h' s.
Proof.
  intros [Hr He Hc] Hh. split; [done| |done]. intros k. rewrite (He k).
  split; intros (c & Hk & Hi); exists c; (split; [done|]); by apply (Hh k c).
Qed.

Lemma lru_empty_ok h cap : lru_ok h (mkLRU cap ∅ ∅ ∅ [] 0).
Proof.
  split; [split; simpl|intros k; simpl|split; simpl].
  - intros k. by rewrite !lookup_empty.
  - intros k r. by rewrite lookup_empty.
  - intros k k' r. by rewrite lookup_empty.
  - setoid_rewrite lookup_empty. set_solver.
  - intros i a b _ _ _ H. by rewrite lookup_nil in H.
  - set_solver.
Qed.

(** ** Eviction *)

Abbreviation sel_key x := (x.1.2).

Section evict.
Context (h : chunk_heap) (s : LRUCachePolicy) (protected : gset bytes) (n : Z).

(** Invariant of the selection loop on the remaining heap [l]. *)
Record sel_ok (v : selection) (l : list entry) : Prop := {
  sel_heap : is_heap l;
  sel_covers : forall k r, k ∈ evictable s -> ranks s !! k = Some r ->
    (r, k) ∈ l \/ (r, k) ∈ (selected v).*1 \/ (r, k) ∈ deferred v;
  sel_current : forall e c, (e, c) ∈ selected v ->
    e.2 ∈ evictable s /\ ranks s !! e.2 = Some e.1 /\ chunks s !! e.2 = Some c /\ e.2 ∉ protected;
  sel_deferred : forall e, e ∈ deferred v -> e.2 ∈ protected;
  sel_keys : forall k, k ∈ selected_keys v <-> k ∈ map (fun x => sel_key x) (selected v);
  sel_nodup : NoDup (map (fun x => sel_key x) (selected v));
  sel_sorted : StronglySorted entry_le (selected v).*1;
  sel_before : forall e y, e ∈ (selected v).*1 -> y ∈ l -> entry_le e y;
  sel_short : zlen (selected v) <= n
}.

Lemma sel_drop v x l l' :
  sel_ok v l -> l ≡ₚ x :: l' -> is_heap l' ->
  (forall k r, k ∈ evictable s -> ranks s !! k = Some r -> (r, k) = x -> (r, k) ∈ (selected v).*1) ->
  sel_ok v l'.
Proof.
  intros [] Hp Hl' Hx. split; try done.
  - intros k r Hk Hr. destruct (sel_covers0 k r Hk Hr) as [Hin|?]; [|auto].
    rewrite Hp in Hin. apply elem_of_cons in Hin as [Hin|Hin]; [|auto]. right. left. by apply Hx.
  - intros e y He Hy. apply sel_before0; [done|]. rewrite Hp. by right.
Qed.

Lemma sel_accept v x l l' c :
  sel_ok v l -> l ≡ₚ x :: l' -> is_heap l' -> (forall y, y ∈ l -> entry_le x y) ->
  x.2 ∈ evictable s -> ranks s !! x.2 = Some x.1 -> chunks s !! x.2 = Some c ->
  x.2 ∉ protected -> x.2 ∉ selected_keys v -> zlen (selected v) < n ->
  sel_ok (mkSel (selected v ++ [(x, c)]) (selected_keys v ∪ {[x.2]}) (deferred v)) l'.
Proof.
  intros [Hheap Hcov Hcur Hdef Hkeys Hnd Hsort Hbef Hshort] Hp Hl' Hmin Hxe Hxr Hc Hprot Hsel Hn.
  split; try done; simpl; rewrite ?fmap_app, ?map_app.
  - intros k r Hk Hr. destruct (Hcov k r Hk Hr) as [Hin|[?|?]]; [|set_solver..].
    rewrite Hp in Hin. apply elem_of_cons in Hin as [->|Hin]; set_solver.
  - intros e c' [Hin|Hin%list_elem_of_singleton]%elem_of_app; [auto|]. by injection Hin as -> ->.
  - intros k. rewrite elem_of_app, <- Hkeys. set_solver.
  - apply NoDup_app. split_and!; [done| |apply NoDup_singleton].
    intros k Hk%Hkeys Hk'%list_elem_of_singleton. simpl in Hk'. congruence.
  - apply sorted_snoc_rel; [done|]. intros e Hin. apply Hbef; [done|]. rewrite Hp. by left.
  - intros e y [Hin| ->%list_elem_of_singleton]%elem_of_app Hy; [apply Hbef; [done|]|apply Hmin];
      rewrite Hp; by right.
  - rewrite length_app. simpl. lia.
Qed.

Lemma select_step_ok v l :
  lru_ok h s -> sel_ok v l -> l <> [] -> zlen (selected v) < n ->
  wp (select_step h protected v)
     (fun v' s' => exists l', s' = set_heap l' s /\ sel_ok v' l' /\ length l = S (length l')) (set_heap l s).
Proof.
  intros [_ He _] Hv Hne Hn. unfold select_step. wp_simpl.
  destruct (Heap.heappop_ok _ (cmp_lt_asym _ entry_cmp_ok) (cmp_lt_ntrans _ entry_cmp_ok) l (sel_heap _ _ Hv) Hne)
    as (x & l' & E & Hl' & Hp & _ & Hmin).
  simpl. rewrite E. eexists. split; [reflexivity|]. wp_simpl. simpl.
  assert (length l = S (length l')) as Hlen by (by rewrite (Permutation_length Hp)).
  unfold is_current. simpl. destruct (_ && _) eqn:Ecur; simpl; bools.
  2: { exists l'. split_and!; [done| |done]. eapply sel_drop; [done..|]. intros k r Hk Hr <-. exfalso.
       simpl in Ecur. by rewrite !bool_decide_eq_true_2 in Ecur. }
  case_bool_decide as Hsel.
  { exists l'. split_and!; [done| |done]. eapply sel_drop; [done..|]. intros k r Hk Hr <-.
    apply (sel_keys _ _ Hv) in Hsel. apply list_elem_of_fmap in Hsel as ([e c] & Ek & Hin). simpl in Ek.
    destruct (sel_current _ _ Hv e c Hin) as (_ & Hre & _). subst k. rewrite Hr in Hre. injection Hre as ->.
    apply list_elem_of_fmap. exists (e, c). split; [by destruct e|done]. }
  case_bool_decide as Hprot.
  - exists l'. split_and!; [done| |done]. destruct Hv as [Hheap Hcov Hcur Hdef Hkeys Hnd Hsort Hbef Hshort].
    split; try done; simpl.
    + intros k r Hk Hr. destruct (Hcov k r Hk Hr) as [Hin|[?|?]]; [|by right; left|right; right; set_solver].
      rewrite Hp in Hin. apply elem_of_cons in Hin as [->|Hin]; [right; right; set_solver|by left].
    + intros e [Hin| ->%list_elem_of_singleton]%elem_of_app; auto.
    + intros e y Hin Hy. apply Hbef; [done|]. rewrite Hp. by right.
  - assert (x.2 ∈ evictable s) as (c & Hc & Hidle)%He by done. wp_simpl.
    simpl. rewrite Hc. eexists. split; [reflexivity|]. wp_simpl. split; [by apply Z.eqb_eq|].
    exists l'. split_and!; [done|by eapply sel_accept|done].
Qed.

Lemma select_loop_ok fuel v l :
  lru_ok h s -> sel_ok v l -> (length l <= fuel)%nat ->
  wp (select_loop fuel h n protected v)
     (fun v' s' => exists l', s' = set_heap l' s /\ sel_ok v' l' /\ (l' = [] \/ zlen (selected v') = n))
     (set_heap l s).
Proof.
  intros Hs. revert v l. induction fuel as [|fuel IH]; intros v l Hv Hl; simpl; wp_simpl; simpl;
    (destruct (decide (l = [])) as [->|Hne]; [apply wp_ret; exists []; by split_and!; [|done|left]|]).
  { destruct l; simpl in Hl; [done|lia]. }
  destruct (zlen (selected v) <? n) eqn:En; bools; simpl; wp_simpl.
  - eapply wp_mono; [by apply select_step_ok|]. intros v' s' (l' & -> & Hv' & Hlen). apply IH; [done|lia].
  - exists l. split_and!; [done..|]. right. pose proof (sel_short _ _ Hv). lia.
Qed.

(** What remains after dropping the keys [ks]. *)
Record dropped (ks : list bytes) (s1 s2 : LRUCachePolicy) : Prop := {
  drop_chunks : forall k, chunks s2 !! k = if decide (k ∈ ks) then None else chunks s1 !! k;
  drop_ranks : forall k, ranks s2 !! k = if decide (k ∈ ks) then None else ranks s1 !! k;
  drop_evictable : forall k, k ∈ evictable s2 <-> k ∈ evictable s1 /\ k ∉ ks;
  drop_heap : rank_heap s2 = rank_heap s1 /\ next_rank s2 = next_rank s1
}.

Lemma delete_snoc {A} (m m' : gmap bytes A) ks x :
  (forall k, m' !! k = if decide (k ∈ ks) then None else m !! k) ->
  forall k, delete x m' !! k = if decide (k ∈ ks ++ [x]) then None else m !! k.
Proof.
  intros Hm k. destruct (decide (k = x)) as [->|].
  - rewrite lookup_delete_eq, decide_True; [done|]. set_solver.
  - rewrite lookup_delete_ne, Hm by done. destruct (decide (k ∈ ks)).
    + rewrite decide_True; [done|]. set_solver.
    + rewrite decide_False; [done|]. set_solver.
Qed.

Lemma drop_selected_ok (sel : list (entry * nat)) s1 :
  NoDup (map (fun x => sel_key x) sel) ->
  (forall x, x ∈ sel -> sel_key x ∈ evictable s1 /\ is_Some (ranks s1 !! sel_key x) /\ is_Some (chunks s1 !! sel_key x)) ->
  wp (fold_ sel [] drop_selected) (fun out s2 =>
    out = map (fun x => (sel_key x, x.2)) sel /\ dropped (map (fun x => sel_key x) sel) s1 s2) s1.
Proof.
  intros Hnd Hin. eapply (wp_fold _ _ _ (fun done _ out s2 =>
    out = map (fun x => (sel_key x, x.2)) done /\ dropped (map (fun x => sel_key x) done) s1 s2)); [| |done].
  { split; [done|]. split; [done|done| |done]. intros k. simpl. rewrite elem_of_nil. tauto. }
  intros done x todo out s2 E [-> [Hc Hr He [Hh Hn]]].
  assert (sel_key x ∉ map (fun x => sel_key x) done) as Hx.
  { subst sel. rewrite map_app in Hnd. apply NoDup_app in Hnd as (_ & Hd & _). intros H. apply (Hd _ H).
    simpl. by left. }
  destruct (Hin x) as (Hxe & Hxr & Hxc); [subst sel; set_solver|].
  specialize (Hc (sel_key x)) as Hck. specialize (Hr (sel_key x)) as Hrk.
  rewrite decide_False in Hck by done. rewrite decide_False in Hrk by done. rewrite <- Hck in Hxc. rewrite <- Hrk in Hxr.
  unfold drop_selected, lru_mark_non_evictable. wp_simpl.
  rewrite bool_decide_eq_true_2 by (apply He; split; [done|exact Hx]). simpl. wp_simpl. simpl.
  rewrite !decide_False by (by apply not_eq_None_Some). wp_simpl.
  rewrite !map_app. split; [done|]. simpl. split; simpl; [by apply delete_snoc..|intros k; set_solver|done].
Qed.

Lemma dropped_ok ks s1 s2 :
  ranks_ok s1 -> evictable_ok h s1 -> dropped ks s1 s2 -> is_heap (rank_heap s1) ->
  (forall k r, k ∈ evictable s1 -> k ∉ ks -> ranks s1 !! k = Some r -> (r, k) ∈ rank_heap s1) ->
  lru_ok h s2.
Proof.
  intros [Hd Hle Hinj] He [Hc Hr Hev [Hh Hn]] Hheap Hcov.
  assert (forall k r, ranks s2 !! k = Some r -> k ∉ ks /\ ranks s1 !! k = Some r) as Hr2.
  { intros k r. rewrite Hr. by destruct (decide (k ∈ ks)). }
  split; [split| |split].
  - intros k. rewrite Hr, Hc. destruct (decide (k ∈ ks)); [done|apply Hd].
  - intros k r [_ Hk]%Hr2. rewrite Hn. by eapply Hle.
  - intros k k' r [_ H1]%Hr2 [_ H2]%Hr2. by eapply Hinj.
  - intros k. rewrite Hev, (He k), Hc. destruct (decide (k ∈ ks)); naive_solver.
  - by rewrite Hh.
  - intros k r _ [Hk Hnk]%Hev [_ Hk2]%Hr2. rewrite Hh. auto.
Qed.

(** The evicted keys come in order of recency, and every key that could have
    been evicted instead was used later. *)
Definition oldest_first (r : option (list (bytes * nat))) : Prop :=
  forall l, r = Some l ->
    (exists rs, Forall2 (fun k x => ranks s !! k = Some x) l.*1 rs /\ StronglySorted Z.lt rs) /\
    forall k c k' x x', (k, c) ∈ l -> ranks s !! k = Some x ->
      k' ∈ eligible h (chunks s) protected -> k' ∉ l.*1 -> ranks s !! k' = Some x' -> x < x'.

Lemma ranks_sorted (sel : list (entry * nat)) :
  ranks_ok s -> StronglySorted entry_le sel.*1 -> NoDup (map (fun x => sel_key x) sel) ->
  (forall x, x ∈ sel -> ranks s !! sel_key x = Some x.1.1) -> StronglySorted Z.lt (map (fun x => x.1.1) sel).
Proof.
  intros Hr. induction sel as [|x sel IH]; intros Hs Hnd Hin; simpl in *; [constructor|].
  apply StronglySorted_inv in Hs as [Hs Hf]. apply NoDup_cons in Hnd as [Hx Hnd].
  constructor; [apply IH; [done|done|intros; apply Hin; by right]|].
  apply Forall_forall. intros y (z & -> & Hz)%list_elem_of_fmap.
  rewrite Forall_forall in Hf. pose proof (entry_le_rank _ _ (Hf z.1 ltac:(set_solver))) as Hle.
  destruct (decide (x.1.1 = z.1.1)) as [E|]; [|lia]. destruct Hx. apply list_elem_of_fmap. exists z. split; [|done].
  apply (ok_inj _ Hr _ _ x.1.1); [apply Hin; by left|]. rewrite E. apply Hin. by right.
Qed.

Lemma selection_short v :
  lru_ok h s -> sel_ok v [] -> Z.of_nat (size (eligible h (chunks s) protected)) <= zlen (selected v).
Proof.
  intros [Hr He _] Hv. rewrite <- (length_map (fun x => sel_key x) (selected v)).
  rewrite <- (size_list_to_set (C := gset bytes)) by apply (sel_nodup _ _ Hv). apply Nat2Z.inj_le, subseteq_size.
  intros k (c & Hc & Hi & Hp)%elem_of_eligible. apply elem_of_list_to_set.
  assert (k ∈ evictable s) as Hk by (apply He; eauto). destruct (ok_ranked h s Hr He k Hk) as [r Er].
  destruct (sel_covers _ _ Hv k r Hk Er) as [[]%not_elem_of_nil|[Hin|Hin%(sel_deferred _ _ Hv)]]; [|done].
  apply list_elem_of_fmap in Hin as (x & Ex & Hin). apply list_elem_of_fmap. exists x. by rewrite <- Ex.
Qed.

Lemma selection_oldest v l :
  lru_ok h s -> sel_ok v l -> oldest_first (Some (map (fun x => (sel_key x, x.2)) (selected v))).
Proof.
  intros [Hr He _] Hv _ [= <-]. rewrite <- list_fmap_compose. split.
  - exists (map (fun x => x.1.1) (selected v)). split.
    + apply Forall2_fmap, Forall_Forall2_diag, Forall_forall. intros [e c] Hin. simpl.
      by destruct (sel_current _ _ Hv e c Hin) as (_ & ? & _).
    + apply ranks_sorted; [done|apply (sel_sorted _ _ Hv)|apply (sel_nodup _ _ Hv)|].
      intros [e c] Hin. by destruct (sel_current _ _ Hv e c Hin) as (_ & ? & _).
  - intros k c k' x x' Hin Hx (c' & Hc' & Hi' & Hp')%elem_of_eligible Hnk Hx'.
    apply list_elem_of_fmap in Hin as ([e c0] & [= -> ->] & Hin). simpl in Hx.
    destruct (sel_current _ _ Hv e c0 Hin) as (_ & Hre & _). rewrite Hx in Hre. injection Hre as ->.
    assert (k' ∈ evictable s) as Hk' by (apply He; eauto).
    assert (k' <> e.2) as Hne by (intros ->; apply Hnk, list_elem_of_fmap; by exists (e, c0)).
    destruct (sel_covers _ _ Hv k' x' Hk' Hx') as [Hl|[Hl|Hl%(sel_deferred _ _ Hv)]]; [| |done].
    + pose proof (entry_le_rank _ _ (sel_before _ _ Hv e _ ltac:(apply list_elem_of_fmap; by exists (e, c0)) Hl)).
      simpl in *. destruct (decide (e.1 = x')) as [E|]; [|lia]. destruct Hne.
      by apply (ok_inj _ Hr _ _ x'); [|rewrite Hx, E].
    + apply list_elem_of_fmap in Hl as (y & Ey & Hy). destruct Hnk. apply list_elem_of_fmap. exists y.
      split; [exact (f_equal snd Ey)|done].
Qed.

Lemma lru_evict_ok iter_set :
  set_iteration iter_set -> lru_ok h s -> 0 < n ->
  wp (lru_evict iter_set h n protected) (fun r s' => lru_ok h s' /\
    evict_spec h (chunks s) (chunks s') n protected r /\ oldest_first r) s.
Proof.
  intros Hiter Hs Hn. unfold lru_evict. rewrite (proj2 (Z.eqb_neq n 0)) by lia. wp_simpl.
  assert (set_heap (rank_heap s) s = s) as Es by (by destruct s).
  pose proof (select_loop_ok (length (rank_heap s)) (mkSel [] ∅ []) (rank_heap s) Hs) as Hloop.
  rewrite Es in Hloop. eapply wp_mono; [apply Hloop; [|done]|].
  { destruct Hs as [_ _ [Hh Hc]]. split; simpl; try done; try (by intros ? ? []%not_elem_of_nil);
      [auto|by intros ? []%not_elem_of_nil|set_solver|constructor|constructor|lia]. }
  simpl. intros v s1 (l & -> & Hv & Hend). destruct (_ <? n) eqn:En; bools; wp_simpl.
  - destruct Hend as [->|]; [|lia]. apply wp_heap_pushes; [apply (sel_heap _ _ Hv)|].
    intros l1 Hl1 Hp1. wp_simpl. apply (wp_heap_pushes (fun e => e)); [done|]. intros l2 Hl2 Hp2.
    rewrite map_id in Hp2. simpl in *. pose proof (selection_short v Hs Hv). split_and!; [|by split; [|lia]|done].
    destruct Hs as [Hr He _]. apply set_heap_ok; [by destruct Hr|done|]. split; [done|]. simpl. intros k r _ Hk Er.
    rewrite Hp2, Hp1. destruct (sel_covers _ _ Hv k r Hk Er) as [?|[?|?]]; set_solver.
  - apply (wp_heap_pushes (fun e => e)); [apply (sel_heap _ _ Hv)|]. intros l1 Hl1 Hp1. rewrite map_id in Hp1.
    simpl in *. wp_simpl. destruct Hs as [Hr He Hcov].
    eapply wp_mono; [apply drop_selected_ok; [apply (sel_nodup _ _ Hv)|]|].
    { intros [e c] Hin. simpl. destruct (sel_current _ _ Hv e c Hin) as (? & -> & -> & _). eauto. }
    simpl. intros out s2 [-> Hd]. wp_simpl. eapply wp_mono; [apply (wp_compact iter_set h); [done|]|].
    + eapply (dropped_ok _ (set_heap l1 s)); [by destruct Hr|done|done|done|]. simpl. intros k r Hk Hnk Er.
      rewrite Hp1. destruct (sel_covers _ _ Hv k r Hk Er) as [?|[Hin|?]]; [set_solver| |set_solver].
      apply list_elem_of_fmap in Hin as (x & Ex & Hin). destruct Hnk. apply list_elem_of_fmap. exists x.
      by rewrite <- Ex.
    + intros _ s3 (l3 & -> & Hs3). wp_simpl. split_and!; [done| |by eapply selection_oldest; [split|]].
      pose proof (sel_short _ _ Hv). unfold evict_spec. rewrite <- list_fmap_compose.
      split_and!; [rewrite length_map; lia|apply (sel_nodup _ _ Hv)| |apply Hd].
      intros k c Hin. apply list_elem_of_fmap in Hin as ([e c0] & [= -> ->] & Hin).
      destruct (sel_current _ _ Hv e c0 Hin) as (Hev & _ & Hc & Hp). split_and!; [done| |done].
      apply He in Hev as (c1 & Hc1 & Hi). congruence.
Qed.
End evict.

(** * The interface *)

#[export] Instance lru_policy (iter_set : gset bytes -> list bytes) : CachePolicy LRUCachePolicy := {
  new_policy := lru_init;
  policy_get := lru_get;
  policy_insert := lru_insert;
  policy_remove := lru_remove;
  policy_touch := lru_touch iter_set;
  policy_on_store_miss := default_on_store_miss (lru_touch iter_set);
  policy_on_request_finished := lru_on_request_finished iter_set;
  policy_evict := lru_evict iter_set;
  policy_clear := lru_clear;
  policy_mark_evictable := lru_mark_evictable iter_set;
  policy_mark_non_evictable := lru_mark_non_evictable
}.

Lemma lru_laws (iter_set : gset bytes -> list bytes) :
  set_iteration iter_set -> @CachePolicyLaws LRUCachePolicy (lru_policy iter_set).
Proof.
  intros Hit. refine {| policy_ok := lru_ok; contents := chunks |}; simpl.
  - done.
  - intros h cap _. split; [apply lru_empty_ok|done].
  - apply lru_heap_change.
  - by apply lru_insert_ok.
  - by apply lru_remove_ok.
  - intros h s keys Hs. eapply wp_mono; [by apply wp_update_recency|]. by intros _ s' (? & ? & _).
  - intros h s keys Hs _. eapply wp_mono; [by apply wp_update_recency|]. by intros _ s' (? & ? & _).
  - intros h s pos groups ins reu Hs. eapply wp_mono; [by apply wp_update_recency|]. by intros _ s' (? & ? & _).
  - intros h s n protected Hs Hn. eapply wp_mono; [by apply lru_evict_ok|]. by intros r s' (? & ? & _).
  - intros h s _. unfold lru_clear. wp_simpl. split; [apply lru_empty_ok|done].
  - intros h h' s k c Hs Hk _. by apply (lru_mark_evictable_ok iter_set h h' s k c).
  - apply lru_mark_non_evictable_ok.
Defined.

(** C34: LRU eviction. Whatever stale and duplicate entries the heap carries,
    [evict(n, protected)] returns None exactly when fewer than [n] idle
    unprotected chunks exist, and then the cache is unchanged; otherwise it
    evicts exactly [n] such chunks, least recently used first, and every idle
    unprotected chunk that stays was used after all evicted ones. *)
Theorem lru_evicts_oldest (iter_set : gset bytes -> list bytes) (h : chunk_heap) (s : LRUCachePolicy)
    (n : Z) (protected : gset bytes) :
  set_iteration iter_set -> lru_ok h s -> 0 < n ->
  wp (lru_evict iter_set h n protected) (fun r s' => lru_ok h s' /\
    evict_spec h (chunks s) (chunks s') n protected r /\
    (r = None <-> Z.of_nat (size (eligible h (chunks s) protected)) < n) /\
    forall l, r = Some l ->
      StronglySorted (used_later s) l.*1 /\
      forall k k', k ∈ l.*1 -> k' ∈ eligible h (chunks s) protected -> k' ∉ l.*1 -> used_later s k k') s.
Proof.
  intros Hit Hs Hn. eapply wp_mono; [by apply lru_evict_ok|]. intros r s' (Hs' & Hev & Hold).
  split_and!; [done|done| |].
  - destruct r as [l|]; [|by split; [intros _; apply Hev|]]. split; [done|]. intros Hlt.
    destruct Hev as (Hl & Hnd & Hel & _). exfalso.
    assert (list_to_set l.*1 ⊆ eligible h (chunks s) protected) as Hsub.
    { intros k Hk%elem_of_list_to_set. apply list_elem_of_fmap in Hk as ([k' c] & -> & Hin).
      apply elem_of_eligible. exists c. by apply Hel. }
    apply subseteq_size in Hsub. rewrite size_list_to_set, length_fmap in Hsub by done. lia.
  - intros l ->. destruct (Hold l eq_refl) as [(rs & Hrs & Hsort) Hlater]. split.
    + revert Hsort. clear - Hrs. induction Hrs as [|k x ks rs Hk Hrs IH]; intros Hsort; [constructor|].
      apply StronglySorted_inv in Hsort as [Hsort Hf]. constructor; [auto|].
      apply Forall_forall. intros k' [i Hi]%list_elem_of_lookup ra rb Hra Hrb.
      destruct (Forall2_lookup_l _ _ _ _ _ Hrs Hi) as (x' & Hx' & Hk').
      rewrite Forall_forall in Hf. pose proof (Hf x' (list_elem_of_lookup_2 _ _ _ Hx')).
      rewrite Hk in Hra. rewrite Hk' in Hrb. by injection Hra as <-; injection Hrb as <-.
    + intros k k' Hk Hk' Hnk ra rb Hra Hrb. apply list_elem_of_fmap in Hk as ([k0 c] & -> & Hin).
      by eapply (Hlater k0 c k').
Qed.

(** Recency. [touch(keys)] with distinct keys changes nothing but the order
    of use: every cached key of the list is now used later than every cached
    key outside it, the first keys of the list (the head of the prefix) later
    than the following ones, and the others keep their order. *)
Theorem touch_orders_by_recency (iter_set : gset bytes -> list bytes) (h : chunk_heap)
    (s : LRUCachePolicy) (keys : list bytes) :
  set_iteration iter_set -> lru_ok h s -> NoDup keys ->
  wp (lru_touch iter_set h keys) (fun _ s' => lru_ok h s' /\ chunks s' = chunks s /\
    (forall a b, a ∉ keys -> b ∈ keys -> used_later s' a b) /\
    StronglySorted (fun a b => used_later s' b a) keys /\
    (forall a b, a ∉ keys -> b ∉ keys -> used_later s a b -> used_later s' a b)) s.
Proof.
  intros Hit Hs Hnd. eapply wp_mono; [by apply wp_update_recency|].
  intros _ s' (Hs' & Ec & [Hn Ho Hnew Hord]). split_and!; [done|done| | |].
  - intros a b Ha Hb ra rb Hra Hrb. rewrite Ho in Hra by (by rewrite elem_of_reverse).
    apply (ok_le _ (lru_ranks _ _ Hs)) in Hra.
    destruct (Hnew b) as (r & Hr & Hlt); [by rewrite elem_of_reverse| |].
    + rewrite <- Ec. apply (ok_dom _ (lru_ranks _ _ Hs')). eauto.
    + rewrite Hrb in Hr. injection Hr as <-. lia.
  - rewrite <- (reverse_involutive keys). apply sorted_reverse, Hord. by rewrite reverse_Permutation.
  - intros a b Ha Hb Hab ra rb. rewrite !Ho by (by rewrite elem_of_reverse). apply Hab.
Qed.

(** * Concrete instance *)

Definition demo_chunks : chunk_heap := {[0%nat := mkChunk 0 0; 1%nat := mkChunk 0 1; 2%nat := mkChunk 1 2]}.
Definition key_a : bytes := [Byte.x01].
Definition key_b : bytes := [Byte.x02].
Definition key_c : bytes := [Byte.x03].
Definition demo_build : M LRUCachePolicy unit :=
  lru_insert demo_chunks key_a 0 ;; lru_insert demo_chunks key_b 1 ;; lru_insert demo_chunks key_c 2.
Definition demo_lru : LRUCachePolicy := (demo_build (lru_init 4)).2.

Lemma demo_lru_ok : lru_ok demo_chunks demo_lru.
Proof.
  assert (wp demo_build (fun _ s => lru_ok demo_chunks s) (lru_init 4)) as H.
  { unfold demo_build. wp_simpl. eapply wp_mono; [apply lru_insert_ok; [apply lru_empty_ok|done]|].
    intros _ s (Hs & Ec). wp_simpl. eapply wp_mono; [apply lru_insert_ok; [done|by rewrite Ec]|].
    intros _ s2 (Hs2 & Ec2). eapply wp_mono; [apply lru_insert_ok; [done|by rewrite Ec2, Ec]|].
    by intros _ s3 [? _]. }
  unfold demo_lru. unfold wp in H. destruct (demo_build (lru_init 4)) as [[]]; done.
Qed.

Lemma lru_evicts_oldest_witness :
  exists l s', lru_evict elements demo_chunks 1 {[key_b]} demo_lru = (Ok (Some l), s') /\ zlen l = 1.
Proof.
  pose proof (lru_evicts_oldest elements demo_chunks demo_lru 1 {[key_b]} (fun X => reflexivity _)
    demo_lru_ok ltac:(lia)) as H.
  apply wp_run in H as (r & s' & E & _ & Hev & Hnone & _). destruct r as [l|].
  - exists l, s'. split; [exact E|]. apply Hev.
  - exfalso. pose proof (proj1 Hnone eq_refl) as Hlt. vm_compute in Hlt. discriminate.
Defined.

Lemma touch_orders_by_recency_witness : exists s',
  lru_touch elements demo_chunks [key_a; key_c] demo_lru = (Ok tt, s') /\ used_later s' key_b key_a.
Proof.
  assert (NoDup [key_a; key_c]) as Hnd by (apply (bool_decide_unpack _); vm_compute; exact I).
  pose proof (touch_orders_by_recency elements demo_chunks demo_lru [key_a; key_c] (fun X => reflexivity _)
    demo_lru_ok Hnd) as H.
  apply wp_run in H as ([] & s' & E & _ & _ & Hlater & _). exists s'. split; [exact E|].
  apply Hlater; apply (bool_decide_unpack _); vm_compute; exact I.
Defined.
