(* ===== verification/ArcPolicy.v ===== *)
(** The ARC eviction policy of the CPU offloading tier
    ([vllm/v1/kv_offload/cpu/policies/arc.py]): recent and frequent lists [t1]
    and [t2], ghost lists [b1] and [b2], and the adaptive target size of [t1]. *)
From Stdlib Require Import ZArith QArith Lia Lqa.
From stdpp Require Import base numbers list gmap sets.
From S2P Require Import Prelude OrderedDict OffloadPolicy.
Open Scope Z_scope.

(** * Lists *)

(** An [OrderedDict] from keys to chunks. *)
Abbreviation odict := (list (bytes * nat)).

(** Ghost lists hold keys only. *)
Abbreviation ghost_pop := (pop_key (K := bytes)).
Definition ghost_set (key : bytes) (g : list bytes) : list bytes :=
  if decide (key ∈ g) then g else g ++ [key].
Definition ghost_move_to_end (key : bytes) (g : list bytes) : list bytes := ghost_pop key g ++ [key].

(** * State *)

Record ARCCachePolicy := mkARC {
  arc_capacity : Z;
  target_t1_size : Q;
  t1 : odict;
  t2 : odict;
  b1 : list bytes;
  b2 : list bytes
}.

Definition set_t1 (d : odict) (s : ARCCachePolicy) : ARCCachePolicy :=
  mkARC (arc_capacity s) (target_t1_size s) d (t2 s) (b1 s) (b2 s).
Definition set_t2 (d : odict) (s : ARCCachePolicy) : ARCCachePolicy :=
  mkARC (arc_capacity s) (target_t1_size s) (t1 s) d (b1 s) (b2 s).
Definition set_ghosts (g1 g2 : list bytes) (s : ARCCachePolicy) : ARCCachePolicy :=
  mkARC (arc_capacity s) (target_t1_size s) (t1 s) (t2 s) g1 g2.
Definition set_target (x : Q) (s : ARCCachePolicy) : ARCCachePolicy :=
  mkARC (arc_capacity s) x (t1 s) (t2 s) (b1 s) (b2 s).

(** Python's [min], [max] and [int] on numbers. *)
Definition py_min (a b : Q) : Q := if Qle_bool a b then a else b.
Definition py_max (a b : Q) : Q := if Qle_bool b a then a else b.
Definition py_int (a : Q) : Z := Z.quot (Qnum a) (Zpos (Qden a)).

Section arc.
(** Rounding of a float operation's exact result to binary64. *)
Context (round : Q -> Q).

(** * Operations *)

Definition arc_init (capacity : Z) : ARCCachePolicy := mkARC capacity 0 [] [] [] [].

Definition arc_get (key : bytes) (s : ARCCachePolicy) : option nat :=
  match od_get key (t1 s) with
  | Some c => Some c
  | None => od_get key (t2 s)
  end.

Definition arc_insert (h : chunk_heap) (key : bytes) (chunk : nat) : M ARCCachePolicy unit :=
  modify (fun s => set_t1 (od_set key chunk (t1 s)) s) ;;
  modify (fun s => set_ghosts (ghost_pop key (b1 s)) (ghost_pop key (b2 s)) s).

Definition arc_remove (key : bytes) : M ARCCachePolicy unit :=
  modify (fun s => match od_get key (t1 s) with
                   | Some _ => set_t1 (od_del key (t1 s)) s
                   | None => set_t2 (od_del key (t2 s)) s
                   end).

(** [len(a) / len(b)] *)
Definition len_ratio (a b : list bytes) : Q := round (inject_Z (zlen a) / inject_Z (zlen b)).

Definition adapt_to_ghost_hit (key : bytes) : M ARCCachePolicy bool :=
  let! s := gets (fun s => s) in
  if decide (key ∈ b1 s) then
    let delta := py_max 1 (len_ratio (b2 s) (b1 s)) in
    modify (set_target (py_min (round (target_t1_size s + delta)) (inject_Z (arc_capacity s)))) ;;
    modify (set_ghosts (ghost_move_to_end key (b1 s)) (b2 s)) ;;
    ret true
  else if decide (key ∈ b2 s) then
    let delta := py_max 1 (len_ratio (b1 s) (b2 s)) in
    modify (set_target (py_max (round (target_t1_size s - delta)) 0)) ;;
    modify (set_ghosts (b1 s) (ghost_move_to_end key (b2 s))) ;;
    ret true
  else ret false.

Definition arc_on_store_miss (h : chunk_heap) (keys : list bytes) : M ARCCachePolicy unit :=
  for_ (reverse keys) (fun key => adapt_to_ghost_hit key ;; ret tt).

Definition touch_key (h : chunk_heap) (key : bytes) : M ARCCachePolicy unit :=
  let! s := gets (fun s => s) in
  match od_get key (t1 s), od_get key (t2 s) with
  | Some chunk, _ =>
      modify (set_t1 (od_del key (t1 s))) ;;
      if negb (is_ready (chunk_at h chunk)) then modify (fun s => set_t1 (od_set key chunk (t1 s)) s)
      else modify (fun s => set_t2 (od_set key chunk (t2 s)) s)
  | None, Some _ => modify (set_t2 (od_move_to_end key (t2 s)))
  | None, None => adapt_to_ghost_hit key ;; ret tt
  end.
Definition arc_touch (h : chunk_heap) (keys : list bytes) : M ARCCachePolicy unit :=
  for_ (reverse keys) (touch_key h).

Definition finish_key (insertion_only_keys reused_keys : gset bytes) (key : bytes) :
    M ARCCachePolicy unit :=
  let! s := gets (fun s => s) in
  if decide (key ∈ insertion_only_keys) then
    match od_get key (t1 s), od_get key (t2 s) with
    | Some _, _ => modify (set_t1 (od_move_to_end key (t1 s)))
    | None, Some _ => modify (set_t2 (od_move_to_end key (t2 s)))
    | None, None => ret tt
    end
  else if decide (key ∈ reused_keys) then
    match od_get key (t1 s), od_get key (t2 s) with
    | Some chunk, _ =>
        modify (set_t1 (od_del key (t1 s))) ;;
        modify (fun s => set_t2 (od_set key chunk (t2 s)) s)
    | None, Some _ => modify (set_t2 (od_move_to_end key (t2 s)))
    | None, None => ret tt
    end
  else ret tt.

Definition arc_on_request_finished (h : chunk_heap) (positions : gmap bytes Z)
    (key_groups : list (list bytes)) (insertion_only_keys reused_keys : gset bytes) :
    M ARCCachePolicy unit :=
  for_ (reverse (order_request_keys key_groups positions))
    (finish_key insertion_only_keys reused_keys).

Definition arc_clear : M ARCCachePolicy unit := modify (fun s => mkARC (arc_capacity s) 0 [] [] [] []).

(** ** Eviction *)

(** [next_candidate]: advance an iterator to its next evictable entry. *)
Fixpoint next_candidate (h : chunk_heap) (protected : gset bytes) (entries : odict) :
    option (bytes * nat) * odict :=
  match entries with
  | [] => (None, [])
  | (key, chunk) :: entries =>
      if decide (idle h chunk /\ key ∉ protected) then (Some (key, chunk), entries)
      else next_candidate h protected entries
  end.

(** The local variables of [evict]; the iterators are the items still ahead. *)
Record scan := mkScan {
  candidates : list (bytes * nat * bool);
  virtual_t1_size : Z;
  t1_iter : odict;
  t2_iter : odict
}.

(** One round of [for _ in range(n)]; [None] is [return None]. *)
Definition pick (h : chunk_heap) (protected : gset bytes) (target : Z) (v : scan) : option scan :=
  let recent_first := virtual_t1_size v >=? target in
  let '(c1, it1) := if recent_first then next_candidate h protected (t1_iter v) else (None, t1_iter v) in
  match c1 with
  | Some e => Some (mkScan (candidates v ++ [(e, true)]) (virtual_t1_size v - 1) it1 (t2_iter v))
  | None =>
      let '(c2, it2) := next_candidate h protected (t2_iter v) in
      match c2 with
      | Some e => Some (mkScan (candidates v ++ [(e, false)]) (virtual_t1_size v) it1 it2)
      | None =>
          let '(c3, it1) := next_candidate h protected it1 in
          match c3 with
          | Some e => Some (mkScan (candidates v ++ [(e, true)]) (virtual_t1_size v - 1) it1 it2)
          | None => None
          end
      end
  end.
Fixpoint pick_n (n : nat) (h : chunk_heap) (protected : gset bytes) (target : Z) (v : scan) : option scan :=
  match n with
  | O => Some v
  | S n => match pick h protected target v with
           | Some v => pick_n n h protected target v
           | None => None
           end
  end.

(** The body of the loop that applies the evictions. *)
Definition apply_candidate (result : list (bytes * nat)) (c : bytes * nat * bool) :
    M ARCCachePolicy (list (bytes * nat)) :=
  let '(key, chunk, from_t1) := c in
  let! s := gets (fun s => s) in
  (if from_t1 : bool then
     if decide (od_get key (t1 s) = None) then raise KeyError else
     modify (set_t1 (od_del key (t1 s))) ;;
     modify (set_ghosts (ghost_set key (b1 s)) (b2 s))
   else
     if decide (od_get key (t2 s) = None) then raise KeyError else
     modify (set_t2 (od_del key (t2 s))) ;;
     modify (set_ghosts (b1 s) (ghost_set key (b2 s)))) ;;
  ret (result ++ [(key, chunk)]).

(** [n] times [ghost.popitem(last=False)]. *)
Fixpoint pop_oldest (n : nat) (ghost : list bytes) : outcome (list bytes) :=
  match n, ghost with
  | O, _ => Ok ghost
  | S n, [] => Raise KeyError
  | S n, _ :: ghost => pop_oldest n ghost
  end.
Definition trim_ghosts : M ARCCachePolicy unit :=
  let! s := gets (fun s => s) in
  let! g1 := lift (pop_oldest (Z.to_nat (zlen (b1 s) - arc_capacity s)) (b1 s)) in
  let! g2 := lift (pop_oldest (Z.to_nat (zlen (b2 s) - arc_capacity s)) (b2 s)) in
  modify (set_ghosts g1 g2).

Definition arc_evict (h : chunk_heap) (n : Z) (protected : gset bytes) :
    M ARCCachePolicy (option (list (bytes * nat))) :=
  if n =? 0 then ret (Some []) else
  let! s := gets (fun s => s) in
  match pick_n (Z.to_nat n) h protected (py_int (target_t1_size s))
          (mkScan [] (zlen (t1 s)) (t1 s) (t2 s)) with
  | None => ret None
  | Some v =>
      let! result := fold_ (candidates v) [] apply_candidate in
      trim_ghosts ;;
      ret (Some result)
  end.
End arc.

#[export] Instance arc_policy (round : Q -> Q) : CachePolicy ARCCachePolicy := {
  new_policy := arc_init;
  policy_get := arc_get;
  policy_insert := arc_insert;
  policy_remove := arc_remove;
  policy_touch := arc_touch round;
  policy_on_store_miss := arc_on_store_miss round;
  policy_on_request_finished := arc_on_request_finished;
  policy_evict := arc_evict;
  policy_clear := arc_clear;
  policy_mark_evictable := default_mark_evictable;
  policy_mark_non_evictable := default_mark_non_evictable
}.

(** * Ghost lists *)

Lemma elem_of_move k key g : key ∈ g -> k ∈ ghost_move_to_end key g <-> k ∈ g.
Proof.
  intros Hk. unfold ghost_move_to_end. rewrite elem_of_app, elem_of_pop, list_elem_of_singleton.
  destruct (decide (k = key)) as [->|]; tauto.
Qed.
Lemma NoDup_move key g : NoDup g -> NoDup (ghost_move_to_end key g).
Proof. intros. apply NoDup_end; [by apply NoDup_pop|]. rewrite elem_of_pop. tauto. Qed.
Lemma ghost_pop_length key g : (length (ghost_pop key g) <= length g)%nat.
Proof. apply length_filter. Qed.

(** * Invariant *)

(** Every key is in at most one of the four lists, at most once. *)
Record lists_ok (l1 l2 g1 g2 : list bytes) : Prop := {
  nodup_t1 : NoDup l1; nodup_t2 : NoDup l2; nodup_b1 : NoDup g1; nodup_b2 : NoDup g2;
  apart_12 : forall k, k ∈ l1 -> k ∉ l2;
  apart_c1 : forall k, k ∈ l1 \/ k ∈ l2 -> k ∉ g1;
  apart_c2 : forall k, k ∈ l1 \/ k ∈ l2 -> k ∉ g2;
  apart_b : forall k, k ∈ g1 -> k ∉ g2
}.

Record arc_ok (s : ARCCachePolicy) : Prop := {
  arc_lists : lists_ok (t1 s).*1 (t2 s).*1 (b1 s) (b2 s);
  arc_bound1 : zlen (b1 s) <= arc_capacity s;
  arc_bound2 : zlen (b2 s) <= arc_capacity s;
  arc_target : (0 <= target_t1_size s)%Q /\
    (arc_capacity s <= 2 ^ 53 -> (target_t1_size s <= inject_Z (arc_capacity s))%Q)
}.

Definition arc_contents (s : ARCCachePolicy) : gmap bytes nat := list_to_map (t1 s ++ t2 s).

Lemma arc_contents_get s k : arc_contents s !! k = arc_get k s.
Proof. unfold arc_contents, arc_get. by rewrite <- od_get_map, od_get_app. Qed.

Lemma arc_contents_eq s s' : (forall k, arc_get k s' = arc_get k s) -> arc_contents s' = arc_contents s.
Proof. intros H. apply map_eq. intros k. by rewrite !arc_contents_get. Qed.

Ltac lists_solve key :=
  let k := fresh "k" in
  intros k; rewrite ?elem_of_app, ?elem_of_pop, ?list_elem_of_singleton;
  destruct (decide (k = key)) as [->|]; naive_solver.

Lemma lists_insert key l1 l2 g1 g2 :
  lists_ok l1 l2 g1 g2 -> key ∉ l1 -> key ∉ l2 -> lists_ok (l1 ++ [key]) l2 (ghost_pop key g1) (ghost_pop key g2).
Proof.
  intros [] H1 H2. split; [by apply NoDup_end|done|by apply NoDup_pop|by apply NoDup_pop|lists_solve key..].
Qed.
Lemma lists_pop1 key l1 l2 g1 g2 : lists_ok l1 l2 g1 g2 -> lists_ok (ghost_pop key l1) l2 g1 g2.
Proof. intros []. split; [by apply NoDup_pop|done..|lists_solve key|lists_solve key|lists_solve key|done]. Qed.
Lemma lists_pop2 key l1 l2 g1 g2 : lists_ok l1 l2 g1 g2 -> lists_ok l1 (ghost_pop key l2) g1 g2.
Proof. intros []. split; [done|by apply NoDup_pop|done|done|lists_solve key|lists_solve key|lists_solve key|done]. Qed.
(** From [t1] to the end of [t2]. *)
Lemma lists_promote key l1 l2 g1 g2 :
  lists_ok l1 l2 g1 g2 -> key ∈ l1 -> lists_ok (ghost_pop key l1) (l2 ++ [key]) g1 g2.
Proof.
  intros [] H1. split; [by apply NoDup_pop|apply NoDup_end; auto|done|done|lists_solve key..|done].
Qed.
(** From [t1] to [b1], or from [t2] to [b2]. *)
Lemma lists_ghost1 key l1 l2 g1 g2 :
  lists_ok l1 l2 g1 g2 -> key ∈ l1 -> lists_ok (ghost_pop key l1) l2 (g1 ++ [key]) g2.
Proof.
  intros [] H1. split; [by apply NoDup_pop|done|apply NoDup_end; auto|done|lists_solve key..].
Qed.
Lemma lists_ghost2 key l1 l2 g1 g2 :
  lists_ok l1 l2 g1 g2 -> key ∈ l2 -> lists_ok l1 (ghost_pop key l2) g1 (g2 ++ [key]).
Proof.
  intros [] H1. split; [done|by apply NoDup_pop|done|apply NoDup_end; auto|lists_solve key..].
Qed.
(** Reordering one of the lists. *)
Lemma lists_perm l1 l2 g1 g2 l1' l2' g1' g2' :
  lists_ok l1 l2 g1 g2 -> l1' ≡ₚ l1 -> l2' ≡ₚ l2 -> g1' ≡ₚ g1 -> g2' ≡ₚ g2 -> lists_ok l1' l2' g1' g2'.
Proof.
  intros [] P1 P2 P3 P4. split; [by rewrite P1|by rewrite P2|by rewrite P3|by rewrite P4|..];
    intros k; rewrite ?P1, ?P2, ?P3, ?P4; auto.
Qed.
Lemma ghost_move_perm key g : NoDup g -> key ∈ g -> ghost_move_to_end key g ≡ₚ g.
Proof.
  intros Hnd Hk. apply NoDup_Permutation; [by apply NoDup_move|done|]. intros k. by apply elem_of_move.
Qed.

(** * The operations keep the invariant *)

Lemma arc_insert_ok h s k c :
  arc_ok s -> arc_contents s !! k = None ->
  wp (arc_insert h k c) (fun _ s' => arc_ok s' /\ arc_contents s' = <[k := c]> (arc_contents s)) s.
Proof.
  intros [Hl H1 H2 Ht] Hk. rewrite arc_contents_get in Hk. unfold arc_get in Hk.
  destruct (od_get k (t1 s)) eqn:E1; [done|]. apply od_get_none in E1 as N1. apply od_get_none in Hk as N2.
  unfold arc_insert. wp_simpl. rewrite od_set_new by done. split.
  - pose proof (ghost_pop_length k (b1 s)). pose proof (ghost_pop_length k (b2 s)).
    split; simpl; [|lia|lia|done]. rewrite fmap_app. by apply lists_insert.
  - apply map_eq. intros k'. rewrite arc_contents_get. unfold arc_get. simpl. rewrite od_get_app. simpl.
    destruct (decide (k' = k)) as [->|].
    + rewrite lookup_insert_eq, E1. by rewrite decide_True by done.
    + rewrite lookup_insert_ne, arc_contents_get by done. unfold arc_get.
      destruct (od_get k' (t1 s)); [done|]. by rewrite decide_False by done.
Qed.

Lemma arc_remove_ok s k :
  arc_ok s -> wp (arc_remove k) (fun _ s' => arc_ok s' /\ arc_contents s' = delete k (arc_contents s)) s.
Proof.
  intros [Hl H1 H2 Ht]. unfold arc_remove. wp_simpl. destruct (od_get k (t1 s)) as [c|] eqn:E.
  - split; [split; simpl; [rewrite od_del_keys; by apply lists_pop1|done..]|].
    apply map_eq. intros k'. rewrite arc_contents_get. unfold arc_get. simpl. rewrite od_get_del.
    destruct (decide (k' = k)) as [->|].
    + rewrite lookup_delete_eq. apply od_get_none. apply od_get_elem in E. by apply (apart_12 _ _ _ _ Hl).
    + by rewrite lookup_delete_ne, arc_contents_get.
  - split; [split; simpl; [rewrite od_del_keys; by apply lists_pop2|done..]|].
    apply map_eq. intros k'. rewrite arc_contents_get. unfold arc_get. simpl. rewrite od_get_del.
    destruct (decide (k' = k)) as [->|].
    + by rewrite lookup_delete_eq, E.
    + by rewrite lookup_delete_ne, arc_contents_get.
Qed.

(** Moving a cached key to the end of its list, or from [t1] to [t2]. *)
Lemma arc_move1 s k :
  arc_ok s -> k ∈ (t1 s).*1 ->
  arc_ok (set_t1 (od_move_to_end k (t1 s)) s) /\ arc_contents (set_t1 (od_move_to_end k (t1 s)) s) = arc_contents s.
Proof.
  intros [Hl H1 H2 Ht] Hk. split.
  - split; simpl; [|done..]. rewrite od_move_keys by done.
    apply (lists_perm (t1 s).*1 (t2 s).*1 (b1 s) (b2 s)); try done. apply ghost_move_perm; [apply Hl|done].
  - apply arc_contents_eq. intros k'. unfold arc_get. simpl. by rewrite od_get_move.
Qed.
Lemma arc_move2 s k :
  arc_ok s -> k ∈ (t2 s).*1 ->
  arc_ok (set_t2 (od_move_to_end k (t2 s)) s) /\ arc_contents (set_t2 (od_move_to_end k (t2 s)) s) = arc_contents s.
Proof.
  intros [Hl H1 H2 Ht] Hk. split.
  - split; simpl; [|done..]. rewrite od_move_keys by done.
    apply (lists_perm (t1 s).*1 (t2 s).*1 (b1 s) (b2 s)); try done. apply ghost_move_perm; [apply Hl|done].
  - apply arc_contents_eq. intros k'. unfold arc_get. simpl. by rewrite od_get_move.
Qed.
Lemma arc_promote s k c :
  arc_ok s -> od_get k (t1 s) = Some c ->
  let s' := set_t2 (od_set k c (t2 s)) (set_t1 (od_del k (t1 s)) s) in
  arc_ok s' /\ arc_contents s' = arc_contents s.
Proof.
  intros [Hl H1 H2 Ht] E s'. pose proof (od_get_elem _ _ _ E) as Hk.
  assert (k ∉ (t2 s).*1) as Hk2 by (by apply (apart_12 _ _ _ _ Hl)). unfold s'. rewrite od_set_new by done. split.
  - split; simpl; [|done..]. rewrite od_del_keys, fmap_app. by apply lists_promote.
  - apply arc_contents_eq. intros k'. unfold arc_get. simpl. rewrite od_get_del, od_get_app. simpl.
    destruct (decide (k' = k)) as [->|].
    + apply od_get_none in Hk2 as ->. rewrite E. by rewrite decide_True by done.
    + destruct (od_get k' (t1 s)), (od_get k' (t2 s)); try done. by rewrite decide_False by done.
Qed.

(** ** Adapting the target *)

(** What IEEE 754 guarantees of rounding: it is monotone and exact on the
    integers that binary64 represents. *)
Record rounding (round : Q -> Q) : Prop := {
  round_mono : forall x y, (x <= y -> round x <= round y)%Q;
  round_int : forall z, - 2 ^ 53 <= z <= 2 ^ 53 -> (round (inject_Z z) == inject_Z z)%Q
}.

Lemma py_min_le a b : (py_min a b <= a /\ py_min a b <= b)%Q.
Proof.
  unfold py_min. destruct (Qle_bool a b) eqn:E.
  - apply Qle_bool_iff in E. split; [apply Qle_refl|done].
  - assert (b < a)%Q by (apply Qnot_le_lt; intros H%Qle_bool_iff; congruence). split; lra.
Qed.
Lemma py_max_ge a b : (a <= py_max a b /\ b <= py_max a b)%Q.
Proof.
  unfold py_max. destruct (Qle_bool b a) eqn:E.
  - apply Qle_bool_iff in E. split; [apply Qle_refl|done].
  - assert (a < b)%Q by (apply Qnot_le_lt; intros H%Qle_bool_iff; congruence). split; lra.
Qed.
Lemma py_min_glb a b c : (c <= a -> c <= b -> c <= py_min a b)%Q.
Proof. unfold py_min. by destruct (Qle_bool a b). Qed.
Lemma py_max_lub a b c : (a <= c -> b <= c -> py_max a b <= c)%Q.
Proof. unfold py_max. by destruct (Qle_bool b a). Qed.

Section adapt.
Context (round : Q -> Q) (Hround : rounding round).

Lemma round_nonneg x : (0 <= x -> 0 <= round x)%Q.
Proof.
  intros Hx. pose proof (round_int _ Hround 0 ltac:(lia)) as E. pose proof (round_mono _ Hround _ _ Hx) as H.
  change (inject_Z 0) with 0%Q in E. lra.
Qed.
Lemma round_below x z : 0 <= z <= 2 ^ 53 -> (x <= inject_Z z -> round x <= inject_Z z)%Q.
Proof.
  intros Hz Hx. pose proof (round_int _ Hround z ltac:(lia)). pose proof (round_mono _ Hround _ _ Hx). lra.
Qed.

Lemma adapt_ok s k :
  arc_ok s -> wp (adapt_to_ghost_hit round k) (fun _ s' => arc_ok s' /\ arc_contents s' = arc_contents s) s.
Proof.
  intros [Hl H1 H2 [Ht0 Ht]]. unfold adapt_to_ghost_hit. wp_simpl.
  assert (0 <= inject_Z (arc_capacity s))%Q as Hcap.
  { change 0%Q with (inject_Z 0). rewrite <- Zle_Qle. lia. }
  assert (forall a b, 0 <= py_max 1 (len_ratio round a b))%Q as Hdelta.
  { intros a b. pose proof (py_max_ge 1 (len_ratio round a b)). lra. }
  destruct (decide (k ∈ b1 s)) as [Hk|Hk]; [|destruct (decide (k ∈ b2 s)) as [Hk2|Hk2]]; wp_simpl; [| |done].
  - set (d := py_max 1 _). specialize (Hdelta (b2 s) (b1 s)). fold d in Hdelta.
    pose proof (ghost_move_perm k (b1 s) (nodup_b1 _ _ _ _ Hl) Hk) as Hp.
    split; [|done]. split; simpl; [by eapply lists_perm|by rewrite Hp|done|]. split.
    + apply py_min_glb; [|done]. apply round_nonneg. lra.
    + intros _. apply py_min_le.
  - set (d := py_max 1 _). specialize (Hdelta (b1 s) (b2 s)). fold d in Hdelta.
    pose proof (ghost_move_perm k (b2 s) (nodup_b2 _ _ _ _ Hl) Hk2) as Hp.
    split; [|done]. split; simpl; [by eapply lists_perm|done|by rewrite Hp|]. split.
    + apply py_max_ge.
    + intros H53. apply py_max_lub; [|done]. apply round_below; [lia|]. specialize (Ht H53). lra.
Qed.

Lemma touch_key_ok h s k :
  arc_ok s -> wp (touch_key round h k) (fun _ s' => arc_ok s' /\ arc_contents s' = arc_contents s) s.
Proof.
  intros Hs. unfold touch_key. wp_simpl. destruct (od_get k (t1 s)) as [c|] eqn:E1.
  - wp_simpl. destruct (is_ready _); simpl; wp_simpl.
    + exact (arc_promote s k c Hs E1).
    + replace (set_t1 _ _) with (set_t1 (od_move_to_end k (t1 s)) s); [by apply arc_move1, (od_get_elem _ c)|].
      unfold od_move_to_end. rewrite E1. simpl. rewrite od_set_new; [done|].
      rewrite od_del_keys, elem_of_pop. tauto.
  - destruct (od_get k (t2 s)) as [c|] eqn:E2; wp_simpl.
    + by apply arc_move2, (od_get_elem _ c).
    + eapply wp_mono; [by apply adapt_ok|]. intros b s' Hs'. by wp_simpl.
Qed.

Lemma finish_key_ok ins reu s k :
  arc_ok s -> wp (finish_key ins reu k) (fun _ s' => arc_ok s' /\ arc_contents s' = arc_contents s) s.
Proof.
  intros Hs. unfold finish_key. wp_simpl.
  destruct (decide (k ∈ ins)); [|destruct (decide (k ∈ reu)); [|by wp_simpl]];
    destruct (od_get k (t1 s)) as [c|] eqn:E1; wp_simpl;
    [by apply arc_move1, (od_get_elem _ c)| |exact (arc_promote s k c Hs E1)|];
    (destruct (od_get k (t2 s)) as [c|] eqn:E2; wp_simpl; [by apply arc_move2, (od_get_elem _ c)|done]).
Qed.

(** A loop of steps that keep the invariant and the contents. *)
Lemma for_keeps (f : bytes -> M ARCCachePolicy unit) keys s :
  (forall s k, arc_ok s -> wp (f k) (fun _ s' => arc_ok s' /\ arc_contents s' = arc_contents s) s) ->
  arc_ok s -> wp (for_ keys f) (fun _ s' => arc_ok s' /\ arc_contents s' = arc_contents s) s.
Proof.
  intros Hf Hs. apply (wp_for _ _ (fun _ _ s' => arc_ok s' /\ arc_contents s' = arc_contents s)); [done| |done].
  intros _ k _ s' _ [Hs' E]. eapply wp_mono; [by apply Hf|]. intros _ s'' [? E']. split; [done|congruence].
Qed.
End adapt.

(** ** Eviction *)

Section evict.
Context (h : chunk_heap) (protected : gset bytes).

(** The entries of a list that may be evicted, in order. *)
Abbreviation may_evict := (fun e : bytes * nat => idle h e.2 /\ e.1 ∉ protected).
Definition evictable_of (d : odict) : odict := filter may_evict d.

Lemma next_candidate_spec d :
  match next_candidate h protected d with
  | (Some e, d') => evictable_of d = e :: evictable_of d'
  | (None, d') => evictable_of d = [] /\ d' = []
  end.
Proof.
  unfold evictable_of. induction d as [|[k c] d IH]; simpl; [done|].
  destruct (decide (idle h c /\ k ∉ protected)) as [He|He].
  - by rewrite filter_cons_True.
  - rewrite filter_cons_False by done. apply IH.
Qed.

(** The candidates taken from [t1], and those taken from [t2]. *)
Definition taken1 (cs : list (bytes * nat * bool)) : odict := (filter (fun c => c.2 = true) cs).*1.
Definition taken2 (cs : list (bytes * nat * bool)) : odict := (filter (fun c => c.2 <> true) cs).*1.

Lemma taken_app1 cs e b : taken1 (cs ++ [(e, b)]) = taken1 cs ++ if b : bool then [e] else [].
Proof. unfold taken1. rewrite filter_app, fmap_app. by destruct b. Qed.
Lemma taken_app2 cs e b : taken2 (cs ++ [(e, b)]) = taken2 cs ++ if b : bool then [] else [e].
Proof. unfold taken2. rewrite filter_app, fmap_app. by destruct b. Qed.
Lemma taken_perm cs : cs.*1 ≡ₚ taken1 cs ++ taken2 cs.
Proof.
  unfold taken1, taken2. rewrite <- fmap_app. apply fmap_Permutation. symmetry.
  apply (filter_app_complement (fun c : bytes * nat * bool => c.2 = true)).
Qed.

(** Invariant of the selection from lists [d1] and [d2]: both are scanned from
    the oldest entry on; [t1] gives an entry while it is at least as long as the
    target or [t2] has none left, and [t2] gives one only when [t1] is below the
    target or has none left. *)
Record scan_ok (target : Z) (d1 d2 : odict) (v : scan) : Prop := {
  scan_1 : evictable_of d1 = taken1 (candidates v) ++ evictable_of (t1_iter v);
  scan_2 : evictable_of d2 = taken2 (candidates v) ++ evictable_of (t2_iter v);
  scan_size : virtual_t1_size v = zlen d1 - zlen (taken1 (candidates v));
  scan_rule1 : taken1 (candidates v) <> [] ->
    target <= virtual_t1_size v + 1 \/ evictable_of (t2_iter v) = [];
  scan_rule2 : taken2 (candidates v) <> [] ->
    virtual_t1_size v < target \/ evictable_of (t1_iter v) = []
}.

Lemma scan_start target d1 d2 : scan_ok target d1 d2 (mkScan [] (zlen d1) d1 d2).
Proof. by split; simpl; unfold taken1, taken2; simpl; [..|lia| |]. Qed.

Lemma scan_take1 target d1 d2 cs n i1 i1' i2 e :
  scan_ok target d1 d2 (mkScan cs n i1 i2) -> evictable_of i1 = e :: evictable_of i1' ->
  target <= n \/ evictable_of i2 = [] ->
  scan_ok target d1 d2 (mkScan (cs ++ [(e, true)]) (n - 1) i1' i2).
Proof.
  intros [H1 H2 Hs R1 R2] E Hrule; simpl in *. rewrite E in *.
  split; cbn [candidates virtual_t1_size t1_iter t2_iter]; rewrite ?taken_app1, ?taken_app2, ?app_nil_r.
  - by rewrite <- app_assoc.
  - done.
  - rewrite length_app. simpl. lia.
  - intros _. destruct Hrule; [left; lia|by right].
  - intros Hne. destruct (R2 Hne); [left; lia|done].
Qed.

Lemma scan_take2 target d1 d2 cs n i1 i1' i2 i2' e :
  scan_ok target d1 d2 (mkScan cs n i1 i2) -> evictable_of i2 = e :: evictable_of i2' ->
  evictable_of i1' = evictable_of i1 -> n < target \/ evictable_of i1 = [] ->
  scan_ok target d1 d2 (mkScan (cs ++ [(e, false)]) n i1' i2').
Proof.
  intros [H1 H2 Hs R1 R2] E E1 Hrule; simpl in *. rewrite E in *.
  split; cbn [candidates virtual_t1_size t1_iter t2_iter]; rewrite ?taken_app1, ?taken_app2, ?app_nil_r, ?E1;
    [done|by rewrite <- app_assoc|done| |done].
  intros Hne. destruct (R1 Hne); [by left|done].
Qed.

Lemma pick_ok target d1 d2 v :
  scan_ok target d1 d2 v ->
  match pick h protected target v with
  | Some v' => scan_ok target d1 d2 v' /\ length (candidates v') = S (length (candidates v))
  | None => evictable_of (t1_iter v) = [] /\ evictable_of (t2_iter v) = []
  end.
Proof.
  destruct v as [cs n i1 i2]. intros Hv. unfold pick. simpl.
  pose proof (next_candidate_spec i1) as N1. pose proof (next_candidate_spec i2) as N2.
  destruct (n >=? target) eqn:En; bools.
  - destruct (next_candidate h protected i1) as [[e|] i1'].
    + split; [|simpl; rewrite length_app; simpl; lia]. eapply scan_take1; [done..|]. by left.
    + destruct N1 as [N1 ->]. destruct (next_candidate h protected i2) as [[e|] i2']; [|by destruct N2].
      split; [|simpl; rewrite length_app; simpl; lia]. eapply scan_take2; [done..|by rewrite N1|by right].
  - destruct (next_candidate h protected i2) as [[e|] i2'].
    + split; [|simpl; rewrite length_app; simpl; lia]. eapply scan_take2; [done..|]. by left.
    + destruct N2 as [N2 ->]. destruct (next_candidate h protected i1) as [[e|] i1']; [|by destruct N1].
      split; [|simpl; rewrite length_app; simpl; lia]. eapply scan_take1; [|done|by right].
      destruct Hv as [H1 H2 Hs R1 R2]; simpl in *. rewrite N2 in *. by split.
Qed.

Lemma pick_n_ok target d1 d2 n v :
  scan_ok target d1 d2 v ->
  match pick_n n h protected target v with
  | Some v' => scan_ok target d1 d2 v' /\ length (candidates v') = (n + length (candidates v))%nat
  | None => (length (evictable_of d1) + length (evictable_of d2) < n + length (candidates v))%nat
  end.
Proof.
  revert v. induction n as [|n IH]; intros v Hv; simpl; [done|].
  pose proof (pick_ok target d1 d2 v Hv) as Hp. destruct (pick h protected target v) as [v'|].
  - destruct Hp as [Hv' Hl]. specialize (IH v' Hv'). rewrite Hl in IH.
    destruct (pick_n n h protected target v'); [destruct IH; split; [done|]|]; lia.
  - destruct Hp as [E1 E2]. rewrite (scan_1 _ _ _ _ Hv), (scan_2 _ _ _ _ Hv), E1, E2, !app_nil_r.
    pose proof (Permutation_length (taken_perm (candidates v))) as Hl.
    rewrite length_fmap, length_app in Hl. lia.
Qed.
End evict.



(** The state after the evictions [cs] were applied. *)
Definition applied (s : ARCCachePolicy) (cs : list (bytes * nat * bool)) : ARCCachePolicy :=
  mkARC (arc_capacity s) (target_t1_size s)
    (filter (fun e => e.1 ∉ (taken1 cs).*1) (t1 s)) (filter (fun e => e.1 ∉ (taken2 cs).*1) (t2 s))
    (b1 s ++ (taken1 cs).*1) (b2 s ++ (taken2 cs).*1).

Abbreviation arc_lists_of s := (lists_ok (t1 s).*1 (t2 s).*1 (b1 s) (b2 s)).

Lemma apply_step s cs (c : bytes * nat * bool) :
  arc_lists_of (applied s cs) ->
  (if c.2 then c.1.1 ∈ (t1 s).*1 /\ c.1.1 ∉ (taken1 cs).*1 else c.1.1 ∈ (t2 s).*1 /\ c.1.1 ∉ (taken2 cs).*1) ->
  wp (apply_candidate cs.*1 c)
     (fun res s' => res = (cs ++ [c]).*1 /\ s' = applied s (cs ++ [c]) /\ arc_lists_of s') (applied s cs).
Proof.
  destruct c as [[k c] b]. intros Hl Hc. unfold apply_candidate. wp_simpl.
  assert (forall (d : odict) (D : list bytes), k ∈ d.*1 /\ k ∉ D -> od_get k (filter (fun e => e.1 ∉ D) d) <> None /\
            k ∈ (filter (fun e => e.1 ∉ D) d).*1) as Hget.
  { intros d D [Hk Hn]. assert (od_get k (filter (fun e => e.1 ∉ D) d) <> None) as Hg.
    { rewrite od_get_filter, decide_False by done. by intros E%od_get_none. }
    split; [done|]. apply not_eq_None_Some in Hg as [v Hv]. by eapply od_get_elem. }
  destruct b; simpl in Hc; apply Hget in Hc as [Hne Hin]; simpl; rewrite decide_False by done; wp_simpl; simpl.
  - assert (k ∉ b1 s ++ (taken1 cs).*1) as Hb by (apply (apart_c1 _ _ _ _ Hl); by left).
    rewrite od_del_filter. unfold ghost_set. rewrite decide_False by done.
    rewrite fmap_app. split; [done|]. unfold applied. rewrite taken_app1, taken_app2, !fmap_app, app_nil_r, app_assoc.
    split; [done|]. simpl. rewrite <- od_del_filter, od_del_keys. by apply lists_ghost1.
  - assert (k ∉ b2 s ++ (taken2 cs).*1) as Hb by (apply (apart_c2 _ _ _ _ Hl); by right).
    rewrite od_del_filter. unfold ghost_set. rewrite decide_False by done.
    rewrite fmap_app. split; [done|]. unfold applied. rewrite taken_app1, taken_app2, !fmap_app, app_nil_r, app_assoc.
    split; [done|]. simpl. rewrite <- od_del_filter, od_del_keys. by apply lists_ghost2.
Qed.

Lemma taken_elem cs (c : bytes * nat * bool) : c ∈ cs -> c.1 ∈ (if c.2 then taken1 cs else taken2 cs).
Proof.
  intros Hc. destruct c as [e []]; apply list_elem_of_fmap; eexists; (split; [reflexivity|]);
    apply list_elem_of_filter; by split.
Qed.

Lemma apply_all_ok s (cs : list (bytes * nat * bool)) :
  arc_ok s -> NoDup (taken1 cs).*1 -> NoDup (taken2 cs).*1 ->
  (forall k, k ∈ (taken1 cs).*1 -> k ∈ (t1 s).*1) -> (forall k, k ∈ (taken2 cs).*1 -> k ∈ (t2 s).*1) ->
  wp (fold_ cs [] apply_candidate)
     (fun res s' => res = cs.*1 /\ s' = applied s cs /\ arc_lists_of s') s.
Proof.
  intros Hs N1 N2 I1 I2. apply (wp_fold _ _ _ (fun done _ res s' =>
    res = done.*1 /\ s' = applied s done /\ arc_lists_of s')); [| |done].
  { split; [done|]. assert (s = applied s []) as Es.
    { destruct s. unfold applied. simpl. rewrite !app_nil_r. f_equal; symmetry; apply list_filter_id; set_solver. }
    split; [done|]. apply Hs. }
  intros done c todo res s' E (-> & -> & Hl). apply apply_step; [done|].
  assert (c ∈ cs) as Hc%taken_elem by (rewrite E; set_solver). apply (list_elem_of_fmap_2 fst) in Hc.
  replace cs with ((done ++ [c]) ++ todo) in N1, N2 by (by rewrite E, <- app_assoc).
  unfold taken1, taken2 in N1, N2. rewrite !filter_app, !fmap_app in N1, N2.
  destruct c as [e []]; simpl in *; (split; [auto|]); intros Hin.
  - apply NoDup_app in N1 as (N1 & _). apply NoDup_app in N1 as (_ & N1 & _). apply (N1 e.1); [done|]. set_solver.
  - apply NoDup_app in N2 as (N2 & _). apply NoDup_app in N2 as (_ & N2 & _). apply (N2 e.1); [done|]. set_solver.
Qed.

Lemma pop_oldest_ok n g : (n <= length g)%nat -> pop_oldest n g = Ok (drop n g).
Proof. revert g. induction n as [|n IH]; intros [|x g] Hn; simpl in *; try done; [lia|]. apply IH. lia. Qed.

(** The newest [cap] entries of a ghost list. *)
Definition newest (cap : Z) (g : list bytes) : list bytes := drop (Z.to_nat (zlen g - cap)) g.

Lemma newest_sub cap g : newest cap g `sublist_of` g.
Proof. apply sublist_drop. Qed.

Lemma lists_sub l1 l2 g1 g2 g1' g2' :
  lists_ok l1 l2 g1 g2 -> g1' `sublist_of` g1 -> g2' `sublist_of` g2 -> lists_ok l1 l2 g1' g2'.
Proof.
  intros [N1 N2 N3 N4 A12 A1 A2 Ab] S1 S2. split; try done;
    [eapply sublist_NoDup; [|exact S1]; done|eapply sublist_NoDup; [|exact S2]; done|..]; intros k Hk.
  - intros Hk'. apply (A1 k Hk). by eapply elem_of_sublist.
  - intros Hk'. apply (A2 k Hk). by eapply elem_of_sublist.
  - intros Hk'. by apply (Ab k); [apply (elem_of_sublist g1')|apply (elem_of_sublist g2')].
Qed.

Lemma trim_ok s :
  0 <= arc_capacity s ->
  wp trim_ghosts (fun _ s' => s' = set_ghosts (newest (arc_capacity s) (b1 s)) (newest (arc_capacity s) (b2 s)) s) s.
Proof.
  intros Hc. unfold trim_ghosts. wp_simpl. rewrite pop_oldest_ok by lia. eexists. split; [reflexivity|].
  wp_simpl. rewrite pop_oldest_ok by lia. eexists. split; [reflexivity|]. by wp_simpl.
Qed.

(** What a successful eviction does: [cs] are the oldest evictable entries of
    the two lists, taken by the rule of the target size. *)
Record evicted_by_rule (h : chunk_heap) (protected : gset bytes) (n : Z) (s : ARCCachePolicy)
    (cs : list (bytes * nat * bool)) : Prop := {
  rule_count : zlen cs = n;
  rule_t1 : taken1 cs `prefix_of` evictable_of h protected (t1 s);
  rule_t2 : taken2 cs `prefix_of` evictable_of h protected (t2 s);
  rule_recent : taken1 cs <> [] ->
    py_int (target_t1_size s) <= zlen (t1 s) - zlen (taken1 cs) + 1 \/
    taken2 cs = evictable_of h protected (t2 s);
  rule_frequent : taken2 cs <> [] ->
    zlen (t1 s) - zlen (taken1 cs) < py_int (target_t1_size s) \/
    taken1 cs = evictable_of h protected (t1 s)
}.

Definition after_evict (s : ARCCachePolicy) (cs : list (bytes * nat * bool)) : ARCCachePolicy :=
  set_ghosts (newest (arc_capacity s) (b1 s ++ (taken1 cs).*1))
    (newest (arc_capacity s) (b2 s ++ (taken2 cs).*1)) (applied s cs).

Section evict_ok.
Context (h : chunk_heap) (protected : gset bytes) (n : Z) (s : ARCCachePolicy).
Hypothesis (Hs : arc_ok s) (Hn : 0 < n).

Lemma evictable_keys d cs :
  NoDup d.*1 -> cs `prefix_of` evictable_of h protected d ->
  NoDup cs.*1 /\ (forall k, k ∈ cs.*1 -> k ∈ d.*1) /\
  forall k c, (k, c) ∈ cs -> od_get k d = Some c /\ idle h c /\ k ∉ protected.
Proof.
  intros Hnd [rest E]. assert (forall e, e ∈ cs -> (idle h e.2 /\ e.1 ∉ protected) /\ e ∈ d) as Hin.
  { intros e He. assert (e ∈ evictable_of h protected d) as H by (rewrite E; set_solver).
    by apply list_elem_of_filter in H. }
  assert (NoDup (evictable_of h protected d).*1) as Hnd'.
  { eapply sublist_NoDup; [exact Hnd|]. apply fmap_sublist, sublist_filter. }
  split_and!.
  - rewrite E, fmap_app in Hnd'. by apply NoDup_app in Hnd' as [? _].
  - intros k (e & -> & He)%list_elem_of_fmap. apply list_elem_of_fmap_2, Hin, He.
  - intros k c He. destruct (Hin _ He) as [[? ?] ?]. split_and!; [by apply od_get_in|done|done].
Qed.

Lemma taken_result cs : evicted_by_rule h protected n s cs ->
  NoDup cs.*1.*1 /\
  (forall k c, (k, c) ∈ cs.*1 -> arc_get k s = Some c /\ idle h c /\ k ∉ protected) /\
  forall k, arc_get k (after_evict s cs) = if decide (k ∈ cs.*1.*1) then None else arc_get k s.
Proof.
  intros Hr. pose proof (arc_lists _ Hs) as Hl.
  destruct (evictable_keys (t1 s) (taken1 cs) (nodup_t1 _ _ _ _ Hl) (rule_t1 _ _ _ _ _ Hr)) as (N1 & I1 & G1).
  destruct (evictable_keys (t2 s) (taken2 cs) (nodup_t2 _ _ _ _ Hl) (rule_t2 _ _ _ _ _ Hr)) as (N2 & I2 & G2).
  pose proof (taken_perm cs) as Hp. split_and!.
  - rewrite Hp, fmap_app. apply NoDup_app. split_and!; [done| |done].
    intros k Hk%I1 Hk'%I2. by apply (apart_12 _ _ _ _ Hl k).
  - intros k c Hin. rewrite Hp in Hin. unfold arc_get. apply elem_of_app in Hin as [Hin|Hin].
    + destruct (G1 _ _ Hin) as (-> & ? & ?). done.
    + destruct (G2 _ _ Hin) as (-> & ? & ?). rewrite (proj2 (od_get_none k (t1 s))); [done|].
      intros Hk. apply (apart_12 _ _ _ _ Hl k Hk), I2, list_elem_of_fmap. by exists (k, c).
  - intros k. unfold arc_get. simpl. rewrite !od_get_filter.
    assert (k ∈ cs.*1.*1 <-> k ∈ (taken1 cs).*1 \/ k ∈ (taken2 cs).*1) as Hk.
    { by rewrite Hp, fmap_app, elem_of_app. }
    destruct (decide (k ∈ (taken1 cs).*1)) as [H1|H1], (decide (k ∈ (taken2 cs).*1)) as [H2|H2].
    + by rewrite decide_True by tauto.
    + rewrite decide_True by tauto. apply od_get_none, (apart_12 _ _ _ _ Hl); auto.
    + rewrite decide_True by tauto. rewrite (proj2 (od_get_none k (t1 s))); [done|].
      intros Hk'. apply (apart_12 _ _ _ _ Hl k Hk'); auto.
    + by rewrite decide_False by tauto.
Qed.

Lemma arc_evict_run :
  match pick_n (Z.to_nat n) h protected (py_int (target_t1_size s))
          (mkScan [] (zlen (t1 s)) (t1 s) (t2 s)) with
  | None => arc_evict h n protected s = (Ok None, s) /\
      zlen (evictable_of h protected (t1 s)) + zlen (evictable_of h protected (t2 s)) < n
  | Some v => arc_evict h n protected s = (Ok (Some (candidates v).*1), after_evict s (candidates v)) /\
      evicted_by_rule h protected n s (candidates v) /\ arc_ok (after_evict s (candidates v))
  end.
Proof.
  unfold arc_evict. rewrite (proj2 (Z.eqb_neq n 0)) by lia. unfold bind, gets, ret. cbv beta iota.
  pose proof (pick_n_ok h protected (py_int (target_t1_size s)) (t1 s) (t2 s) (Z.to_nat n)
    (mkScan [] (zlen (t1 s)) (t1 s) (t2 s))) as Hp.
  destruct (pick_n _ _ _ _ _) as [v|]; simpl in Hp.
  2: { split; [done|]. specialize (Hp (scan_start _ _ _ _ _)). lia. }
  destruct (Hp (scan_start _ _ _ _ _)) as [[S1 S2 Ssz R1 R2] Hlen].
  set (cs := candidates v) in *. assert (evicted_by_rule h protected n s cs) as Hr.
  { split; [lia|by eexists|by eexists| |].
    - intros Hne. destruct (R1 Hne) as [?|E]; [left; lia|right]. by rewrite S2, E, app_nil_r.
    - intros Hne. destruct (R2 Hne) as [?|E]; [left; lia|right]. by rewrite S1, E, app_nil_r. }
  pose proof (arc_lists _ Hs) as Hl.
  destruct (evictable_keys (t1 s) (taken1 cs) (nodup_t1 _ _ _ _ Hl) (rule_t1 _ _ _ _ _ Hr)) as (N1 & I1 & _).
  destruct (evictable_keys (t2 s) (taken2 cs) (nodup_t2 _ _ _ _ Hl) (rule_t2 _ _ _ _ _ Hr)) as (N2 & I2 & _).
  pose proof (apply_all_ok s cs Hs N1 N2 I1 I2) as Ha. apply wp_run in Ha as (res & s1 & Ea & -> & -> & Hl1).
  pose proof (arc_bound1 _ Hs). pose proof (arc_bound2 _ Hs).
  pose proof (trim_ok (applied s cs) ltac:(simpl; lia)) as Ht. apply wp_run in Ht as ([] & s2 & Et & ->).
  split_and!; [by rewrite Ea, Et|done|].
  split; simpl; [eapply lists_sub; [exact Hl1|apply newest_sub..]| | |apply Hs];
    unfold newest; rewrite length_drop; lia.
Qed.

Lemma arc_evict_ok :
  wp (arc_evict h n protected)
     (fun r s' => arc_ok s' /\ evict_spec h (arc_contents s) (arc_contents s') n protected r) s.
Proof.
  pose proof arc_evict_run as H. unfold wp. destruct (pick_n _ _ _ _ _) as [v|].
  - destruct H as (-> & Hr & Hok). split; [done|]. destruct (taken_result _ Hr) as (Hnd & Hin & Hget).
    split_and!; [rewrite length_fmap; apply Hr|done| |].
    + intros k c Hk. rewrite arc_contents_get. by apply Hin.
    + intros k. rewrite !arc_contents_get. apply Hget.
  - destruct H as [-> Hlt]. split; [done|]. split; [done|]. eapply Z.le_lt_trans; [|exact Hlt].
    rewrite <- Nat2Z.inj_add, <- length_app, <- (length_fmap fst). apply Nat2Z.inj_le.
    transitivity (size (list_to_set (C := gset bytes)
      (evictable_of h protected (t1 s) ++ evictable_of h protected (t2 s)).*1)).
    + apply subseteq_size. intros k (c & Hc & Hi & Hp)%elem_of_eligible.
      apply elem_of_list_to_set, list_elem_of_fmap. exists (k, c). split; [done|].
      pose proof (arc_lists _ Hs) as Hl. rewrite arc_contents_get in Hc. unfold arc_get in Hc.
      unfold evictable_of. rewrite <- filter_app. apply list_elem_of_filter. split; [done|].
      apply elem_of_app. destruct (od_get k (t1 s)) eqn:E.
      * left. apply od_get_in; [apply Hl|]. congruence.
      * right. apply od_get_in; [apply Hl|done].
    + rewrite size_list_to_set; [done|]. pose proof (arc_lists _ Hs) as Hl.
      destruct (evictable_keys (t1 s) _ (nodup_t1 _ _ _ _ Hl) ltac:(reflexivity)) as (N1 & I1 & _).
      destruct (evictable_keys (t2 s) _ (nodup_t2 _ _ _ _ Hl) ltac:(reflexivity)) as (N2 & I2 & _).
      rewrite fmap_app. apply NoDup_app. split_and!; [done| |done].
      intros k Hk%I1 Hk'%I2. by apply (apart_12 _ _ _ _ Hl k).
Qed.
End evict_ok.

Lemma arc_empty_ok cap : 0 <= cap -> arc_ok (mkARC cap 0 [] [] [] []).
Proof.
  intros Hc. split; simpl; [split; simpl; try apply NoDup_nil_2; set_solver|lia|lia|].
  split; [apply Qle_refl|]. intros _. change 0%Q with (inject_Z 0). by rewrite <- Zle_Qle.
Qed.

Lemma arc_laws (round : Q -> Q) :
  rounding round -> @CachePolicyLaws ARCCachePolicy (arc_policy round).
Proof.
  intros Hround. refine {| policy_ok := fun _ => arc_ok; contents := arc_contents |}; simpl.
  - intros _ s k _. by rewrite arc_contents_get.
  - intros _ cap Hc. split; [by apply arc_empty_ok|done].
  - done.
  - intros. by apply arc_insert_ok.
  - intros h s k c Hs _. by apply arc_remove_ok.
  - intros h s keys Hs. apply for_keeps; [|done]. intros. by apply touch_key_ok.
  - intros h s keys Hs _. apply for_keeps; [|done]. intros s' k Hs'. wp_simpl.
    eapply wp_mono; [by apply adapt_ok|]. by intros b s'' H.
  - intros h s pos groups ins reu Hs. apply for_keeps; [|done]. intros. by apply finish_key_ok.
  - intros. by apply arc_evict_ok.
  - intros h s [Hl H1 H2 Ht]. unfold arc_clear. wp_simpl. split; [apply arc_empty_ok; lia|done].
  - intros h h' s k c Hs _ _ _ _. by wp_simpl.
  - intros h h' s k c Hs _ _ _ _. by wp_simpl.
Defined.

(** * Reachable states *)

Inductive arc_op :=
| AInsert (h : chunk_heap) (key : bytes) (chunk : nat)
| ARemove (key : bytes)
| ATouch (h : chunk_heap) (keys : list bytes)
| AStoreMiss (h : chunk_heap) (keys : list bytes)
| AFinish (h : chunk_heap) (positions : gmap bytes Z) (groups : list (list bytes)) (ins reu : gset bytes)
| AEvict (h : chunk_heap) (n : Z) (protected : gset bytes)
| AClear.

Definition run_arc (round : Q -> Q) (o : arc_op) : M ARCCachePolicy unit :=
  match o with
  | AInsert h key chunk => arc_insert h key chunk
  | ARemove key => arc_remove key
  | ATouch h keys => arc_touch round h keys
  | AStoreMiss h keys => arc_on_store_miss round h keys
  | AFinish h positions groups ins reu => arc_on_request_finished h positions groups ins reu
  | AEvict h n protected => arc_evict h n protected ;; ret tt
  | AClear => arc_clear
  end.

(** Only keys that are not cached are inserted. *)
Definition arc_op_ok (s : ARCCachePolicy) (o : arc_op) : Prop :=
  match o with
  | AInsert _ key _ => arc_get key s = None
  | AEvict _ n _ => 0 <= n
  | _ => True
  end.

Inductive arc_reachable (round : Q -> Q) (capacity : Z) : ARCCachePolicy -> Prop :=
| arc_start : arc_reachable round capacity (arc_init capacity)
| arc_call s o s' :
    arc_reachable round capacity s -> arc_op_ok s o -> run_arc round o s = (Ok tt, s') ->
    arc_reachable round capacity s'.

Lemma run_arc_ok round s o :
  rounding round -> arc_ok s -> arc_op_ok s o -> wp (run_arc round o) (fun _ => arc_ok) s.
Proof.
  intros Hround Hs Ho. destruct o; simpl in *.
  - eapply wp_mono; [apply arc_insert_ok; [done|by rewrite arc_contents_get]|]. by intros _ s' [? _].
  - eapply wp_mono; [by apply arc_remove_ok|]. by intros _ s' [? _].
  - eapply wp_mono; [apply for_keeps; [intros; by apply touch_key_ok|done]|]. by intros _ s' [? _].
  - eapply wp_mono; [apply for_keeps; [|done]|by intros _ s' [? _]]. intros s' k Hs'. wp_simpl.
    eapply wp_mono; [by apply adapt_ok|]. by intros b s'' ?.
  - eapply wp_mono; [apply for_keeps; [intros; by apply finish_key_ok|done]|]. by intros _ s' [? _].
  - wp_simpl. destruct (decide (n = 0)) as [->|]; [done|].
    eapply wp_mono; [apply arc_evict_ok; [done|lia]|]. by intros r s' [? _].
  - wp_simpl. apply arc_empty_ok. destruct Hs. lia.
Qed.

(** C33: the ARC lists stay consistent. In every state reachable by calls that
    insert only keys not cached, every such call returns normally; a key is in
    at most one of [t1], [t2], [b1] and [b2], at most once; neither ghost list
    is longer than the capacity; and, whatever the rounding of the float
    operations, the target size of [t1] stays between 0 and the capacity (for a
    capacity that a float represents). *)
Theorem arc_lists_consistent (round : Q -> Q) (capacity : Z) (s : ARCCachePolicy) :
  rounding round -> 0 <= capacity -> arc_reachable round capacity s ->
  (forall o, arc_op_ok s o -> exists s', run_arc round o s = (Ok tt, s')) /\
  NoDup ((t1 s).*1 ++ (t2 s).*1 ++ b1 s ++ b2 s) /\
  zlen (b1 s) <= arc_capacity s /\ zlen (b2 s) <= arc_capacity s /\
  (0 <= target_t1_size s)%Q /\
  (arc_capacity s <= 2 ^ 53 -> (target_t1_size s <= inject_Z (arc_capacity s))%Q).
Proof.
  intros Hround Hcap Hr. assert (arc_ok s) as Hs.
  { induction Hr as [|s o s' _ IH Ho E]; [by apply arc_empty_ok|].
    pose proof (run_arc_ok round s o Hround IH Ho) as H. unfold wp in H. by rewrite E in H. }
  split; [|destruct Hs as [[N1 N2 N3 N4 A12 A1 A2 Ab] H1 H2 [Ht0 Ht]]; split_and!; try done].
  - intros o Ho. pose proof (run_arc_ok round s o Hround Hs Ho) as ([] & s' & E & _)%wp_run. by exists s'.
  - apply NoDup_app. split_and!; [done| |apply NoDup_app; split_and!; [done| |by apply NoDup_app; split_and!; auto]].
    + intros k Hk [Hk'|[Hk'|Hk']%elem_of_app]%elem_of_app; [by apply (A12 k)|apply (A1 k); auto|apply (A2 k); auto].
    + intros k Hk [Hk'|Hk']%elem_of_app; [apply (A1 k); auto|apply (A2 k); auto].
Qed.

(** ARC replacement. [evict(n, protected)] returns None, and changes nothing,
    only when [t1] and [t2] together hold fewer than [n] idle unprotected chunks.
    Otherwise the [n] evicted chunks are the oldest such chunks of [t1] and the
    oldest ones of [t2]; a chunk is taken from [t1] only if [t1] still had at least
    the target, truncated to an integer, before it was taken, or [t2] has nothing
    left to give, and [t2] gives chunks only when [t1] has gone below the target or
    has nothing left; the keys join the ghost list of their side, of which the
    newest [capacity] entries are kept. *)
Theorem arc_evicts_by_target (h : chunk_heap) (s : ARCCachePolicy) (n : Z) (protected : gset bytes) :
  arc_ok s -> 0 < n ->
  let e1 := evictable_of h protected (t1 s) in
  let e2 := evictable_of h protected (t2 s) in
  let target := py_int (target_t1_size s) in
  (zlen e1 + zlen e2 < n /\ arc_evict h n protected s = (Ok None, s)) \/
  exists r from_t1 from_t2 s', arc_evict h n protected s = (Ok (Some r), s') /\
    r ≡ₚ from_t1 ++ from_t2 /\ zlen r = n /\ from_t1 `prefix_of` e1 /\ from_t2 `prefix_of` e2 /\
    (from_t1 <> [] -> target <= zlen (t1 s) - zlen from_t1 + 1 \/ from_t2 = e2) /\
    (from_t2 <> [] -> zlen (t1 s) - zlen from_t1 < target \/ from_t1 = e1) /\
    t1 s' = filter (fun e => e.1 ∉ from_t1.*1) (t1 s) /\ t2 s' = filter (fun e => e.1 ∉ from_t2.*1) (t2 s) /\
    b1 s' = newest (arc_capacity s) (b1 s ++ from_t1.*1) /\ b2 s' = newest (arc_capacity s) (b2 s ++ from_t2.*1).
Proof.
  intros Hs Hn e1 e2 target. pose proof (arc_evict_run h protected n s Hs Hn) as H.
  destruct (pick_n _ _ _ _ _) as [v|]; [right|left; by destruct H].
  destruct H as (E & Hr & _). set (cs := candidates v) in *.
  exists cs.*1, (taken1 cs), (taken2 cs), (after_evict s cs).
  split_and!; [exact E|apply taken_perm|rewrite length_fmap; apply Hr|apply Hr..|done|done|done|done].
Qed.

(** * Concrete instance *)

Definition demo_arc_chunks : chunk_heap := {[0%nat := mkChunk 0 0; 1%nat := mkChunk 0 1]}.
Definition demo_arc : ARCCachePolicy :=
  mkARC 2 1 [([Byte.x01], 0%nat)] [([Byte.x02], 1%nat)] [] [[Byte.x03]].

Lemma demo_arc_ok : arc_ok demo_arc.
Proof.
  split; simpl; [|lia|lia|split; [lra|intros _; by compute]].
  split; try (apply (bool_decide_unpack _); by vm_compute); intros k; simpl; set_solver.
Qed.

Lemma exact_rounding : rounding (fun x => x).
Proof. split; [done|]. intros. apply Qeq_refl. Qed.

Lemma arc_lists_consistent_witness :
  exists s, arc_reachable (fun x => x) 2 s /\ t1 s = [([Byte.x01], 0%nat)] /\ NoDup ((t1 s).*1 ++ (t2 s).*1 ++ b1 s ++ b2 s).
Proof.
  set (s := (arc_insert ∅ [Byte.x01] 0 (arc_init 2)).2).
  assert (arc_reachable (fun x => x) 2 s) as Hr.
  { apply (arc_call _ _ (arc_init 2) (AInsert ∅ [Byte.x01] 0)); [constructor|reflexivity|reflexivity]. }
  exists s. split; [exact Hr|]. split; [reflexivity|].
  pose proof (arc_lists_consistent (fun x => x) 2 s exact_rounding ltac:(lia) Hr) as (_ & H & _). exact H.
Defined.

Lemma arc_evicts_by_target_witness :
  exists r s', arc_evict demo_arc_chunks 1 ∅ demo_arc = (Ok (Some r), s') /\ zlen r = 1.
Proof.
  destruct (arc_evicts_by_target demo_arc_chunks demo_arc 1 ∅ demo_arc_ok ltac:(lia))
    as [[Hlt _]|(r & f1 & f2 & s' & E & _ & Hl & _)].
  - exfalso. vm_compute in Hlt. discriminate.
  - exists r, s'. split; [exact E|exact Hl].
Defined.
