(* ===== verification/OffloadManager.v ===== *)
(** The CPU offloading manager ([vllm/v1/kv_offload/cpu/manager.py]): the pool of
    chunk buffers, reference counts, the store admission tracker, per-request
    access records and events, over any eviction policy. *)
From Stdlib Require Import ZArith QArith Lia.
From stdpp Require Import base numbers list gmap sets.
From S2P Require Import Prelude OrderedDict BlockHash OffloadPolicy.
Open Scope Z_scope.

(** * Data *)

(** [owner] is the manager object the record belongs to. *)
Record RequestCacheAccess := mkAccess {
  owner : nat;
  access_generation : Z;
  key_groups : gmap Z (list bytes);
  seen_keys : gset bytes;
  inserted_keys : gset bytes;
  reused_keys : gset bytes;
  store_miss_keys : gset bytes;
  finished : bool
}.
Definition new_access (owner : nat) (generation : Z) : RequestCacheAccess :=
  mkAccess owner generation ∅ ∅ ∅ ∅ ∅ false.

(** The part of a request's context the manager uses: its own scratch state and
    the positions of the request's keys. *)
Record ReqContext := mkCtx {
  access_state : option RequestCacheAccess;
  offload_key_positions : gmap bytes Z
}.
Definition set_state (a : RequestCacheAccess) (r : ReqContext) : ReqContext :=
  mkCtx (Some a) (offload_key_positions r).

Inductive LookupResult := MISS | HIT | HIT_PENDING | RETRY.

(** Events of this manager all have the CPU medium. *)
Record OffloadingEvent := mkEvent { event_keys : list bytes; removed : bool }.

Record PrepareStoreOutput := mkOutput {
  out_keys_to_store : list bytes;
  store_spec : list Z;
  evicted_keys : list bytes
}.

(** [mgr_id] identifies the object; [chunk_objs] and [next_obj] are the chunk
    objects it created. *)
Record CPUOffloadingManager (P : Type) := mkMgr {
  mgr_id : nat;
  num_chunks : Z;
  num_allocated_chunks : Z;
  free_list : list Z;
  events : option (list OffloadingEvent);
  policy : P;
  chunk_objs : chunk_heap;
  next_obj : nat;
  num_evictable_cache_chunks : Z;
  num_write_pending_chunks : Z;
  store_threshold : Z;
  max_tracker_size : Z;
  stores_skipped_in_current_batch : Z;
  allocation_sizes_in_current_batch : list Z;
  cache_generation : Z;
  counts : option (list (bytes * Z))
}.
Arguments mkMgr {P}.
Arguments mgr_id {P}. Arguments num_chunks {P}. Arguments num_allocated_chunks {P}.
Arguments free_list {P}. Arguments events {P}. Arguments policy {P}. Arguments chunk_objs {P}.
Arguments next_obj {P}. Arguments num_evictable_cache_chunks {P}.
Arguments num_write_pending_chunks {P}. Arguments store_threshold {P}.
Arguments max_tracker_size {P}. Arguments stores_skipped_in_current_batch {P}.
Arguments allocation_sizes_in_current_batch {P}. Arguments cache_generation {P}. Arguments counts {P}.

Section setters.
Context {P : Type}.
Implicit Types m : CPUOffloadingManager P.

Definition set_pool (allocated : Z) (free : list Z) m :=
  mkMgr (mgr_id m) (num_chunks m) allocated free (events m) (policy m) (chunk_objs m) (next_obj m)
    (num_evictable_cache_chunks m) (num_write_pending_chunks m) (store_threshold m) (max_tracker_size m)
    (stores_skipped_in_current_batch m) (allocation_sizes_in_current_batch m) (cache_generation m) (counts m).
Definition set_events (e : option (list OffloadingEvent)) m :=
  mkMgr (mgr_id m) (num_chunks m) (num_allocated_chunks m) (free_list m) e (policy m) (chunk_objs m) (next_obj m)
    (num_evictable_cache_chunks m) (num_write_pending_chunks m) (store_threshold m) (max_tracker_size m)
    (stores_skipped_in_current_batch m) (allocation_sizes_in_current_batch m) (cache_generation m) (counts m).
Definition set_policy (p : P) m :=
  mkMgr (mgr_id m) (num_chunks m) (num_allocated_chunks m) (free_list m) (events m) p (chunk_objs m) (next_obj m)
    (num_evictable_cache_chunks m) (num_write_pending_chunks m) (store_threshold m) (max_tracker_size m)
    (stores_skipped_in_current_batch m) (allocation_sizes_in_current_batch m) (cache_generation m) (counts m).
Definition set_objs (h : chunk_heap) (n : nat) m :=
  mkMgr (mgr_id m) (num_chunks m) (num_allocated_chunks m) (free_list m) (events m) (policy m) h n
    (num_evictable_cache_chunks m) (num_write_pending_chunks m) (store_threshold m) (max_tracker_size m)
    (stores_skipped_in_current_batch m) (allocation_sizes_in_current_batch m) (cache_generation m) (counts m).
(** Changes of the two counters. *)
Definition add_counters (evictable pending : Z) m :=
  mkMgr (mgr_id m) (num_chunks m) (num_allocated_chunks m) (free_list m) (events m) (policy m) (chunk_objs m)
    (next_obj m) (num_evictable_cache_chunks m + evictable) (num_write_pending_chunks m + pending)
    (store_threshold m) (max_tracker_size m) (stores_skipped_in_current_batch m)
    (allocation_sizes_in_current_batch m) (cache_generation m) (counts m).
Definition set_batch (skipped : Z) (sizes : list Z) m :=
  mkMgr (mgr_id m) (num_chunks m) (num_allocated_chunks m) (free_list m) (events m) (policy m) (chunk_objs m)
    (next_obj m) (num_evictable_cache_chunks m) (num_write_pending_chunks m) (store_threshold m)
    (max_tracker_size m) skipped sizes (cache_generation m) (counts m).
Definition set_counts (c : option (list (bytes * Z))) m :=
  mkMgr (mgr_id m) (num_chunks m) (num_allocated_chunks m) (free_list m) (events m) (policy m) (chunk_objs m)
    (next_obj m) (num_evictable_cache_chunks m) (num_write_pending_chunks m) (store_threshold m)
    (max_tracker_size m) (stores_skipped_in_current_batch m) (allocation_sizes_in_current_batch m)
    (cache_generation m) c.
End setters.

(** * The admission tracker *)

(** [self.counts.move_to_end(key); self.counts[key] += 1] *)
Definition count_again (key : bytes) (n : Z) (c : list (bytes * Z)) : list (bytes * Z) :=
  od_del key c ++ [(key, n + 1)].

(** First loop: the offered keys that are tracked. *)
Definition count_tracked (acc : list (bytes * Z) * gset bytes) (key : bytes) :
    list (bytes * Z) * gset bytes :=
  match od_get key acc.1 with
  | Some n => (count_again key n acc.1, acc.2 ∪ {[key]})
  | None => acc
  end.
(** Second loop: start tracking the others, dropping unprotected entries. *)
Definition count_new (max_tracker_size : Z) (acc : list (bytes * Z) * Z) (key : bytes) :
    outcome (list (bytes * Z) * Z) :=
  let '(c, num_unprotected) := acc in
  match od_get key c with
  | Some _ => Ok acc
  | None =>
      if zlen c >=? max_tracker_size then
        if num_unprotected =? 0 then Ok acc else
        match c with
        | [] => Raise KeyError
        | _ :: c => Ok (c ++ [(key, 1)], num_unprotected - 1)
        end
      else Ok (c ++ [(key, 1)], num_unprotected)
  end.
Fixpoint count_all_new (max_tracker_size : Z) (acc : list (bytes * Z) * Z) (keys : list bytes) :
    outcome (list (bytes * Z) * Z) :=
  match keys with
  | [] => Ok acc
  | key :: keys => match count_new max_tracker_size acc key with
                   | Ok acc => count_all_new max_tracker_size acc keys
                   | Raise e => Raise e
                   end
  end.
Definition count_offer (max_tracker_size : Z) (c : list (bytes * Z)) (keys : list bytes) :
    outcome (list (bytes * Z)) :=
  let '(c, protected) := foldl count_tracked (c, ∅) keys in
  match count_all_new max_tracker_size (c, zlen c - Z.of_nat (size protected)) keys with
  | Ok (c, _) => Ok c
  | Raise e => Raise e
  end.

(** * Operations *)

Section manager.
Context {P : Type} `{CachePolicy P}.
Abbreviation Mgr := (CPUOffloadingManager P).

(** The methods run on the manager and the context of the calling request. *)
Definition on_mgr {A} (m : M Mgr A) : M (Mgr * ReqContext) A := zoom fst (fun x s => (x, s.2)) m.
Definition on_ctx {A} (m : M ReqContext A) : M (Mgr * ReqContext) A := zoom snd (fun x s => (s.1, x)) m.
(** A call on the policy. *)
Definition on_policy {A} (m : M P A) : M Mgr A := zoom policy set_policy m.

Definition init (id : nat) (chunks : Z) (enable_events : bool) (threshold tracker_size : Z) : Mgr :=
  mkMgr id chunks 0 [] (if enable_events then Some [] else None) (new_policy chunks) ∅ 0 0 0
    threshold tracker_size 0 [] 0 (if threshold >=? 2 then Some [] else None).

(** ** Chunk pool *)

Definition get_num_free_chunks (m : Mgr) : Z := zlen (free_list m) + num_chunks m - num_allocated_chunks m.

(** [ChunkStatus(id)] *)
Definition create_chunk (id : Z) : M Mgr nat :=
  let! m := gets (fun m => m) in
  modify (set_objs (<[next_obj m := new_chunk id]> (chunk_objs m)) (S (next_obj m))) ;;
  ret (next_obj m).
Definition allocate_fresh : M Mgr nat :=
  let! m := gets (fun m => m) in
  let! c := create_chunk (num_allocated_chunks m) in
  modify (fun m => set_pool (num_allocated_chunks m + 1) (free_list m) m) ;;
  ret c.
(** [ChunkStatus(self._free_list.pop())] *)
Definition allocate_reused : M Mgr nat :=
  let! m := gets (fun m => m) in
  match last (free_list m) with
  | None => raise IndexError
  | Some id =>
      modify (set_pool (num_allocated_chunks m) (take (length (free_list m) - 1) (free_list m))) ;;
      create_chunk id
  end.
Definition repeat_alloc (n : Z) (alloc : M Mgr nat) (chunks : list nat) : M Mgr (list nat) :=
  fold_ (py_range 0 n) chunks (fun acc _ => let! c := alloc in ret (acc ++ [c])).
Definition allocate_chunks (keys : list bytes) : M Mgr (list nat) :=
  let! m := gets (fun m => m) in
  let num_fresh := Z.min (zlen keys) (num_chunks m - num_allocated_chunks m) in
  let num_reused := zlen keys - num_fresh in
  assert_ (zlen (free_list m) >=? num_reused) ;;
  let! chunks := repeat_alloc num_fresh allocate_fresh [] in
  repeat_alloc num_reused allocate_reused chunks.

Definition chunk_of (m : Mgr) (c : nat) : ChunkStatus := chunk_at (chunk_objs m) c.
Definition free_chunk (c : nat) : M Mgr unit :=
  modify (fun m => set_pool (num_allocated_chunks m) (free_list m ++ [chunk_id (chunk_of m c)]) m).
Definition get_load_store_spec (m : Mgr) (chunks : list nat) : list Z :=
  map (fun c => chunk_id (chunk_of m c)) chunks.
(** [chunk.ref_cnt = r] *)
Definition set_ref_cnt (c : nat) (r : Z) (m : Mgr) : Mgr :=
  set_objs (<[c := with_ref_cnt r (chunk_of m c)]> (chunk_objs m)) (next_obj m) m.

Definition record_accesses (keys : list bytes) : M Mgr unit :=
  let! m := gets (fun m => m) in
  match counts m with
  | None => raise AssertionError
  | Some c => let! c := lift (count_offer (max_tracker_size m) c keys) in
              modify (set_counts (Some c))
  end.

(** ** Access records *)

Definition get_request_cache_access : M (Mgr * ReqContext) RequestCacheAccess :=
  let! m := on_mgr (gets (fun m => m)) in
  let! r := on_ctx (gets (fun r => r)) in
  match access_state r with
  | Some a =>
      if bool_decide (owner a = mgr_id m) && (access_generation a =? cache_generation m) then ret a
      else let a := new_access (mgr_id m) (cache_generation m) in on_ctx (modify (set_state a)) ;; ret a
  | None => let a := new_access (mgr_id m) (cache_generation m) in on_ctx (modify (set_state a)) ;; ret a
  end.

Definition record_key (a : RequestCacheAccess) (key : bytes) : outcome RequestCacheAccess :=
  if bool_decide (key ∈ seen_keys a) then Ok a else
  if finished a then Raise AssertionError else
  let group_idx := get_offload_group_idx key in
  Ok (mkAccess (owner a) (access_generation a)
        (<[group_idx := default [] (key_groups a !! group_idx) ++ [key]]> (key_groups a))
        (seen_keys a ∪ {[key]}) (inserted_keys a) (reused_keys a) (store_miss_keys a) (finished a)).

Definition record_request_cache_access (keys reused : list bytes) : M (Mgr * ReqContext) unit :=
  let! a := get_request_cache_access in
  let! a := fold_ keys a (fun a key =>
    let! a := lift (record_key a key) in on_ctx (modify (set_state a)) ;; ret a) in
  let reused := filter (fun key => key ∉ inserted_keys a) reused in
  on_ctx (modify (set_state (mkAccess (owner a) (access_generation a) (key_groups a) (seen_keys a)
    (inserted_keys a) (reused_keys a ∪ list_to_set reused) (store_miss_keys a) (finished a)))).

Definition add_store_misses (keys : list bytes) (a : RequestCacheAccess) : RequestCacheAccess :=
  mkAccess (owner a) (access_generation a) (key_groups a) (seen_keys a) (inserted_keys a) (reused_keys a)
    (store_miss_keys a ∪ list_to_set keys) (finished a).
Definition add_inserted (keys : list bytes) (a : RequestCacheAccess) : RequestCacheAccess :=
  mkAccess (owner a) (access_generation a) (key_groups a) (seen_keys a) (inserted_keys a ∪ list_to_set keys)
    (reused_keys a) (store_miss_keys a) (finished a).
Definition set_finished (a : RequestCacheAccess) : RequestCacheAccess :=
  mkAccess (owner a) (access_generation a) (key_groups a) (seen_keys a) (inserted_keys a) (reused_keys a)
    (store_miss_keys a) true.
(** A change of the record the context holds. *)
Definition modify_access (f : RequestCacheAccess -> RequestCacheAccess) : M (Mgr * ReqContext) unit :=
  on_ctx (modify (fun r => match access_state r with Some a => set_state (f a) r | None => r end)).

Definition on_new_request : M (Mgr * ReqContext) unit :=
  get_request_cache_access ;; ret tt.

(** ** Lookup and loads *)

Definition lookup (key : bytes) (m : Mgr) : LookupResult :=
  match policy_get key (policy m) with
  | None => MISS
  | Some c => if negb (is_ready (chunk_of m c)) then HIT_PENDING else HIT
  end.

(** The loop body of [_prepare_load]. *)
Definition pin_chunk (chunks : list nat) (key : bytes) : M Mgr (list nat) :=
  let! m := gets (fun m => m) in
  match policy_get key (policy m) with
  | None => raise AssertionError
  | Some c =>
      assert_ (is_ready (chunk_of m c)) ;;
      (if ref_cnt (chunk_of m c) =? 0 then
         on_policy (policy_mark_non_evictable key) ;;
         modify (add_counters (-1) 0) ;;
         let! m := gets (fun m => m) in
         assert_ (num_evictable_cache_chunks m >=? 0)
       else ret tt) ;;
      modify (fun m => set_ref_cnt c (ref_cnt (chunk_of m c) + 1) m) ;;
      ret (chunks ++ [c])
  end.
Definition prepare_load_ (keys : list bytes) (record_access : bool) : M (Mgr * ReqContext) (list Z) :=
  let! chunks := on_mgr (fold_ keys [] pin_chunk) in
  (if record_access then record_request_cache_access keys keys else ret tt) ;;
  on_mgr (gets (fun m => get_load_store_spec m chunks)).
Definition prepare_load (keys : list bytes) : M (Mgr * ReqContext) (list Z) := prepare_load_ keys true.

Definition touch (keys : list bytes) : M Mgr unit :=
  let! m := gets (fun m => m) in on_policy (policy_touch (chunk_objs m) keys).

Definition unpin_chunk (key : bytes) : M Mgr unit :=
  let! m := gets (fun m => m) in
  match policy_get key (policy m) with
  | None => raise AssertionError
  | Some c =>
      assert_ (ref_cnt (chunk_of m c) >? 0) ;;
      modify (fun m => set_ref_cnt c (ref_cnt (chunk_of m c) - 1) m) ;;
      let! m := gets (fun m => m) in
      if ref_cnt (chunk_of m c) =? 0 then
        modify (add_counters 1 0) ;;
        on_policy (policy_mark_evictable key)
      else ret tt
  end.
Definition complete_load (keys : list bytes) : M Mgr unit := for_ keys unpin_chunk.

(** ** Stores *)

(** The partition of the offered keys into new ones and ready resident ones. *)
Definition missing_keys (m : Mgr) (keys : list bytes) : list bytes :=
  filter (fun key => policy_get key (policy m) = None) keys.
Definition ready_keys (m : Mgr) (keys : list bytes) : list bytes :=
  filter (fun key => match policy_get key (policy m) with
                     | Some c => is_ready (chunk_of m c)
                     | None => false
                     end = true) keys.
(** The admission threshold on new keys. *)
Definition admitted (m : Mgr) (keys : list bytes) : list bytes :=
  match counts m with
  | None => keys
  | Some c => filter (fun key => store_threshold m <= default 0 (od_get key c)) keys
  end.

(** Making room for [keys_to_store]; [None] when eviction fails. *)
Definition make_room (keys keys_to_store : list bytes) : M Mgr (option (list bytes)) :=
  let! m := gets (fun m => m) in
  let num_chunks_to_evict := zlen keys_to_store - get_num_free_chunks m in
  if num_chunks_to_evict >? 0 then
    if num_chunks_to_evict >? num_evictable_cache_chunks m then ret None else
    let! evicted := on_policy (policy_evict (chunk_objs m) num_chunks_to_evict (list_to_set keys)) in
    match evicted with
    | None => ret None
    | Some l =>
        modify (add_counters (- zlen l) 0) ;;
        let! m := gets (fun m => m) in
        assert_ (num_evictable_cache_chunks m >=? 0) ;;
        for_ l (fun e => free_chunk e.2) ;;
        ret (Some l.*1)
    end
  else ret (Some []).

Definition emit (keys : list bytes) (removed : bool) (m : Mgr) : Mgr :=
  match keys, events m with
  | _ :: _, Some es => set_events (Some (es ++ [mkEvent keys removed])) m
  | _, _ => m
  end.

(** The insertion of the allocated chunks. *)
Definition insert_chunk (e : bytes * nat) : M Mgr unit :=
  let! m := gets (fun m => m) in on_policy (policy_insert (chunk_objs m) e.1 e.2).
Definition store_chunks (keys_to_store to_evict : list bytes) : M Mgr PrepareStoreOutput :=
  modify (emit to_evict true) ;;
  let! chunks := allocate_chunks keys_to_store in
  assert_ (zlen chunks =? zlen keys_to_store) ;;
  for_ (zip keys_to_store chunks) insert_chunk ;;
  modify (add_counters 0 (zlen keys_to_store)) ;;
  let! m := gets (fun m => m) in
  ret (mkOutput keys_to_store (get_load_store_spec m chunks) to_evict).

(** The parts of [prepare_store] before allocation: the tracker, the partition
    and the threshold, giving the keys to store and the ready resident ones; *)
Definition partition_offer (keys : list bytes) : M Mgr (list bytes * list bytes) :=
  let! m := gets (fun m => m) in
  (match counts m with Some _ => record_accesses keys | None => ret tt end) ;;
  let! m := gets (fun m => m) in
  let candidates := missing_keys m keys in
  let keys_to_store := admitted m candidates in
  (match counts m with
   | Some _ => modify (set_batch
       (stores_skipped_in_current_batch m + (zlen candidates - zlen keys_to_store))
       (allocation_sizes_in_current_batch m))
   | None => ret tt
   end) ;;
  ret (keys_to_store, ready_keys m keys).
(** the policy's observation of store misses and the access record. *)
Definition observe_offer (keys keys_to_store ready_existing_keys : list bytes) : M (Mgr * ReqContext) unit :=
  let! a := get_request_cache_access in
  let new_store_misses := filter (fun key => key ∉ store_miss_keys a) keys_to_store in
  (match new_store_misses with
   | [] => ret tt
   | _ => on_mgr (let! m := gets (fun m => m) in
                  on_policy (policy_on_store_miss (chunk_objs m) new_store_misses)) ;;
          modify_access (add_store_misses new_store_misses)
   end) ;;
  record_request_cache_access
    (filter (fun key => key ∈ keys_to_store ++ ready_existing_keys) keys) ready_existing_keys.

Definition prepare_store (keys : list bytes) : M (Mgr * ReqContext) (option PrepareStoreOutput) :=
  let! (keys_to_store, ready_existing_keys) := on_mgr (partition_offer keys) in
  observe_offer keys keys_to_store ready_existing_keys ;;
  match keys_to_store with
  | [] => ret (Some (mkOutput [] [] []))
  | _ =>
      on_mgr (modify (fun m => set_batch (stores_skipped_in_current_batch m)
        (allocation_sizes_in_current_batch m ++ [zlen keys_to_store]) m)) ;;
      let! to_evict := on_mgr (make_room keys keys_to_store) in
      match to_evict with
      | None => ret None
      | Some to_evict =>
          let! out := on_mgr (store_chunks keys_to_store to_evict) in
          modify_access (add_inserted keys_to_store) ;;
          ret (Some out)
      end
  end.

(** The loop bodies of [complete_store]. *)
Definition complete_one (stored_keys : list bytes) (key : bytes) : M Mgr (list bytes) :=
  let! m := gets (fun m => m) in
  match policy_get key (policy m) with
  | None => ret stored_keys
  | Some c =>
      if is_ready (chunk_of m c) then ret stored_keys else
      modify (set_ref_cnt c 0) ;;
      modify (add_counters 1 (-1)) ;;
      on_policy (policy_mark_evictable key) ;;
      ret (stored_keys ++ [key])
  end.
Definition abandon_one (key : bytes) : M Mgr unit :=
  let! m := gets (fun m => m) in
  match policy_get key (policy m) with
  | None => ret tt
  | Some c =>
      if is_ready (chunk_of m c) then ret tt else
      modify (add_counters 0 (-1)) ;;
      on_policy (policy_remove key) ;;
      free_chunk c
  end.
Definition complete_store (keys : list bytes) (success : bool) : M Mgr unit :=
  if success then
    let! stored_keys := fold_ keys [] complete_one in
    modify (emit stored_keys false)
  else for_ keys abandon_one.

(** ** Requests, reset, events and statistics *)

Definition ordered_groups (positions : gmap bytes Z) (groups : gmap Z (list bytes)) : list (list bytes) :=
  map (fun g => sort_by_position positions (default [] (groups !! g)))
      (stable_sort (fun g => g) (map_to_list groups).*1).

Definition on_request_finished : M (Mgr * ReqContext) unit :=
  let! m := on_mgr (gets (fun m => m)) in
  let! r := on_ctx (gets (fun r => r)) in
  match access_state r with
  | None => ret tt
  | Some a =>
      if negb (bool_decide (owner a = mgr_id m)) || negb (access_generation a =? cache_generation m) ||
         finished a then ret tt else
      on_ctx (modify (set_state (set_finished a))) ;;
      on_mgr (on_policy (policy_on_request_finished (chunk_objs m) (offload_key_positions r)
        (ordered_groups (offload_key_positions r) (key_groups a))
        (inserted_keys a ∖ reused_keys a) (reused_keys a)))
  end.

Definition reset_cache : M Mgr unit :=
  on_policy policy_clear ;;
  modify (fun m =>
    mkMgr (mgr_id m) (num_chunks m) 0 [] (events m) (policy m) (chunk_objs m) (next_obj m) 0 0
      (store_threshold m) (max_tracker_size m) (stores_skipped_in_current_batch m)
      (allocation_sizes_in_current_batch m) (cache_generation m + 1) (counts m)).

(** [list(manager.take_events())] *)
Definition take_events : M Mgr (list OffloadingEvent) :=
  let! m := gets (fun m => m) in
  match events m with
  | None => ret []
  | Some es => modify (set_events (Some [])) ;; ret es
  end.

(** The gauges, histogram observations and counter of [get_stats]; [round] is
    the rounding of float operations. *)
Record OffloadingConnectorStats := mkStats {
  cache_usage : Q;
  allocation_sizes : list Z;
  write_usage : Q;
  read_usage : Q;
  stores_skipped : option Z
}.
Definition usage_of (round : Q -> Q) (n : Z) (m : Mgr) : Q :=
  if num_chunks m >? 0 then round (inject_Z n / inject_Z (num_chunks m))%Q else 0%Q.
Definition get_stats (round : Q -> Q) : M Mgr OffloadingConnectorStats :=
  let! m := gets (fun m => m) in
  let num_used := num_allocated_chunks m - zlen (free_list m) - num_evictable_cache_chunks m in
  let usage := usage_of round num_used m in
  let write := usage_of round (num_write_pending_chunks m) m in
  let diff := round (usage - write)%Q in
  let read := if Qle_bool 0 diff then diff else 0%Q in
  modify (set_batch (stores_skipped_in_current_batch m) []) ;;
  (if store_threshold m >=? 2 then modify (set_batch 0 []) else ret tt) ;;
  ret (mkStats usage (allocation_sizes_in_current_batch m) write read
         (if store_threshold m >=? 2 then Some (stores_skipped_in_current_batch m) else None)).
End manager.
