(* ===== verification/OffloadTracker.v ===== *)
(** Correctness of the store admission tracker of the CPU offloading manager:
    [_record_accesses] of [vllm/v1/kv_offload/cpu/manager.py]. *)
From Stdlib Require Import ZArith Lia.
From stdpp Require Import base numbers list gmap sets.
From S2P Require Import Prelude OrderedDict OffloadManager.
Open Scope Z_scope.

Abbreviation tracker := (list (bytes * Z)).

(** Occurrences of a key in an offer. *)
Definition times (k : bytes) (keys : list bytes) : Z := zlen (filter (fun x => x = k) keys).

Lemma times_snoc k keys x : times k (keys ++ [x]) = times k keys + if decide (x = k) then 1 else 0.
Proof.
  unfold times. rewrite filter_app, length_app. destruct (decide (x = k)).
  - rewrite filter_cons_True by done. simpl. lia.
  - rewrite filter_cons_False by done. simpl. lia.
Qed.

Lemma times_room k done x todo : x = k -> 0 <= times k done < times k (done ++ x :: todo).
Proof.
  intros ->. unfold times. rewrite filter_app, length_app, filter_cons_True by done. simpl. lia.
Qed.

Lemma times_absent k keys : k ∉ keys -> times k keys = 0.
Proof.
  intros Hk. unfold times. induction keys as [|x keys IH]; [done|].
  rewrite filter_cons_False by (intros ->; apply Hk; by left). apply IH. intros ?. apply Hk. by right.
Qed.

(** After the first loop over [done]: the entries split into the untouched ones,
    in their order, and the counted ones behind them. *)
Record counted (c : tracker) (done : list bytes) (c1 : tracker) (protected : gset bytes) : Prop := {
  counted_nodup : NoDup c1.*1;
  counted_split : exists old hot, c1 = old ++ hot /\ old = filter (fun e => e.1 ∉ done) c /\
    list_to_set hot.*1 = protected;
  counted_tail : forall k n, od_get k c = Some n -> od_get k c1 = Some (n + times k done);
  counted_keys : forall k, k ∈ c1.*1 <-> k ∈ c.*1
}.

Lemma filter_absent (c : tracker) done k :
  k ∉ c.*1 -> filter (fun e => e.1 ∉ done ++ [k]) c = filter (fun e => e.1 ∉ done) c.
Proof.
  intros Hk. assert (forall e, e ∈ c -> e.1 <> k) as Hne.
  { intros e He <-. apply Hk. by apply list_elem_of_fmap_2. }
  clear Hk. induction c as [|e c IH]; [done|].
  assert (filter (fun e => e.1 ∉ done ++ [k]) c = filter (fun e => e.1 ∉ done) c) as E.
  { apply IH. intros e' He'. apply Hne. by right. }
  assert (e.1 <> k) by (apply Hne; by left).
  destruct (decide (e.1 ∈ done)).
  - rewrite !filter_cons_False by set_solver. done.
  - rewrite !filter_cons_True by set_solver. by rewrite E.
Qed.

Lemma counted_step c done c1 protected k :
  counted c done c1 protected ->
  counted c (done ++ [k]) (count_tracked (c1, protected) k).1 (count_tracked (c1, protected) k).2.
Proof.
  intros [Hnd (old & hot & Ec & Eo & Ep) Ht Hk]. unfold count_tracked. simpl.
  destruct (od_get k c1) as [n|] eqn:E; simpl.
  - pose proof (od_get_elem _ _ _ E) as Hin. unfold count_again. split.
    + rewrite fmap_app, od_del_keys. apply NoDup_end; [by apply NoDup_pop|]. simpl. rewrite elem_of_pop. tauto.
    + exists (od_del k old), (od_del k hot ++ [(k, n + 1)]). split_and!.
      * rewrite Ec. unfold od_del. by rewrite filter_app, app_assoc.
      * rewrite Eo. apply od_del_filter.
      * rewrite fmap_app, od_del_keys, <- Ep. apply set_eq. intros x. simpl.
        rewrite elem_of_list_to_set, elem_of_app, elem_of_pop, list_elem_of_singleton, elem_of_union,
          elem_of_list_to_set, elem_of_singleton. destruct (decide (x = k)); tauto.
    + intros k' n' Hk'. rewrite od_get_app, od_get_del, times_snoc. simpl.
      destruct (decide (k' = k)) as [->|].
      * rewrite !decide_True by done. rewrite (Ht _ _ Hk') in E. injection E as <-. f_equal. lia.
      * rewrite (Ht _ _ Hk'). rewrite decide_False by done. f_equal. lia.
    + intros x. rewrite fmap_app, od_del_keys. simpl. rewrite elem_of_app, elem_of_pop, list_elem_of_singleton, <- Hk.
      destruct (decide (x = k)) as [->|]; tauto.
  - apply od_get_none in E as Hn. split; [done| | |done].
    + exists old, hot. split_and!; [done| |done]. rewrite Eo, filter_absent; [done|]. by rewrite <- Hk.
    + intros k' n' Hk'. rewrite times_snoc, decide_False, Z.add_0_r; [by apply Ht|].
      intros ->. apply Hn, Hk. by eapply od_get_elem.
Qed.

Lemma count_tracked_ok c keys :
  NoDup c.*1 -> counted c keys (foldl count_tracked (c, ∅) keys).1 (foldl count_tracked (c, ∅) keys).2.
Proof.
  intros Hnd. induction keys as [|k keys IH] using rev_ind.
  - simpl. split; [done| | |done].
    + exists c, []. split_and!; [by rewrite app_nil_r| |done]. symmetry. apply list_filter_id. set_solver.
    + intros k n Hk. unfold times. simpl. by rewrite Z.add_0_r.
  - rewrite foldl_app. simpl. destruct (foldl count_tracked (c, ∅) keys) as [c1 p]. by apply counted_step.
Qed.

(** In the second loop only the untouched entries are dropped, oldest first;
    the counted entries [hot] stay, and new keys are appended. *)
Lemma count_all_new_ok size old hot new keys :
  NoDup (old ++ hot ++ new).*1 -> (forall k, k ∈ keys -> k ∉ old.*1) ->
  exists dropped old' new', old = dropped ++ old' /\
    count_all_new size (old ++ hot ++ new, zlen old) keys = Ok (old' ++ hot ++ new ++ new', zlen old') /\
    NoDup (old' ++ hot ++ new ++ new').*1 /\ (forall e, e ∈ new' -> e.2 = 1 /\ e.1 ∈ keys) /\
    zlen (old' ++ hot ++ new ++ new') <= Z.max size (zlen (old ++ hot ++ new)).
Proof.
  revert old new. induction keys as [|k keys IH]; intros old new Hnd Hold; cbn [count_all_new].
  { exists [], old, []. rewrite !app_nil_r. split_and!; [done..| |lia]. intros e He. by apply not_elem_of_nil in He. }
  assert (forall k', k' ∈ keys -> k' ∉ old.*1) as Hold' by (intros; apply Hold; by right).
  assert (k ∉ old.*1) as Hk by (apply Hold; by left).
  unfold count_new. destruct (od_get k (old ++ hot ++ new)) as [n|] eqn:E.
  { destruct (IH old new Hnd Hold') as (d & o & w & ? & ? & ? & Hw & ?). exists d, o, w. split_and!; try done.
    intros e He. destruct (Hw e He). split; [done|by right]. }
  apply od_get_none in E.
  assert (forall o, o `sublist_of` old -> NoDup (o ++ hot ++ new ++ [(k, 1)]).*1) as Hnd'.
  { intros o Ho. rewrite !app_assoc, fmap_app. apply NoDup_end.
    - eapply sublist_NoDup; [exact Hnd|]. rewrite <- !app_assoc. apply fmap_sublist, sublist_app; done.
    - intros Hin. apply E. rewrite !fmap_app, !elem_of_app in *.
      simpl in Hin. assert (k ∈ o.*1 -> k ∈ old.*1) by (intros; by eapply elem_of_sublist, fmap_sublist, Ho). tauto. }
  assert (forall w : tracker, (forall e, e ∈ w -> e.2 = 1 /\ e.1 ∈ keys) ->
            forall e, e ∈ (k, 1) :: w -> e.2 = 1 /\ e.1 ∈ k :: keys) as Hw'.
  { intros w Hw e [->|He]%elem_of_cons; [by split; [|left]|]. destruct (Hw e He). split; [done|by right]. }
  destruct (_ >=? size) eqn:Es; bools.
  - destruct (zlen old =? 0) eqn:Eo; bools.
    + destruct (IH old new Hnd Hold') as (d & o & w & ? & ? & ? & Hw & ?). exists d, o, w. split_and!; try done.
      intros e He. destruct (Hw e He). split; [done|by right].
    + destruct old as [|e0 old]; [simpl in Eo; lia|]. simpl app.
      replace (zlen (e0 :: old) - 1) with (zlen old) by (simpl; lia).
      rewrite <- !app_assoc.
      destruct (IH old (new ++ [(k, 1)])) as (d & o & w & -> & Er & Hn & Hw & Hl).
      { apply Hnd'. by apply sublist_cons. }
      { intros k' Hk' Hin. apply (Hold' k' Hk'). by right. }
      exists (e0 :: d), o, ((k, 1) :: w). rewrite <- (app_assoc new) in *. simpl app in *.
      split_and!; [done|done|done|by apply Hw'|].
      rewrite !length_app in *. simpl in *. rewrite !length_app in *. simpl in *. lia.
  - rewrite <- !app_assoc. destruct (IH old (new ++ [(k, 1)])) as (d & o & w & Eo & Er & Hn & Hw & Hl); [by apply Hnd'|done|].
    exists d, o, ((k, 1) :: w). rewrite <- (app_assoc new) in *. simpl app in *.
    split_and!; [done|done|done|by apply Hw'|]. rewrite !length_app in *. simpl in *. lia.
Qed.

(** The tracker after an offer: the untouched entries without the oldest ones,
    the entries counted again, and the new ones. *)
Lemma count_offer_split (size : Z) (c : tracker) (keys : list bytes) :
  NoDup c.*1 -> exists dropped old hot new, count_offer size c keys = Ok (old ++ hot ++ new) /\
    dropped ++ old = filter (fun e => e.1 ∉ keys) c /\
    counted c keys ((dropped ++ old) ++ hot) (list_to_set hot.*1) /\
    NoDup (old ++ hot ++ new).*1 /\ (forall e, e ∈ new -> e.2 = 1 /\ e.1 ∈ keys) /\
    zlen (old ++ hot ++ new) <= Z.max size (zlen c).
Proof.
  intros Hnd. unfold count_offer. pose proof (count_tracked_ok c keys Hnd) as Hc.
  destruct (foldl count_tracked (c, ∅) keys) as [c1 protected]; simpl in Hc.
  pose proof Hc as [Hnd1 (old & hot & -> & Eo & Ep) Ht Hk].
  assert (forall k, k ∈ keys -> k ∉ old.*1) as Hold.
  { intros k Hin (e & -> & He)%list_elem_of_fmap. subst old. apply list_elem_of_filter in He as [He _]. done. }
  assert (zlen (old ++ hot) - Z.of_nat (base.size protected) = zlen old) as ->.
  { rewrite <- Ep, size_list_to_set, length_fmap, length_app; [lia|]. rewrite fmap_app in Hnd1.
    by apply NoDup_app in Hnd1 as (_ & _ & ?). }
  destruct (count_all_new_ok size old hot [] keys) as (d & o & new & Ed & E & Hnd2 & Hnew & Hlen);
    [by rewrite app_nil_r|done|]. rewrite app_nil_r in E, Hlen. rewrite E. simpl app in *.
  assert (length c = length (old ++ hot)) as Hlc.
  { rewrite <- (length_fmap fst c), <- (length_fmap fst (old ++ hot)). symmetry.
    apply Permutation_length, NoDup_Permutation; done. }
  exists d, o, hot, new. rewrite <- Ed. split_and!; [done..|by rewrite Ep|done|done|by rewrite Hlc].
Qed.

(** The admission tracker. Recording an offer never fails; a key that was
    tracked and is offered is counted once per occurrence and is not dropped,
    even when the tracker is full; keys not offered keep their count or are
    dropped; a newly tracked key has count 1; and the tracker does not grow
    beyond its bound. *)
Theorem offer_counted (size : Z) (c : tracker) (keys : list bytes) :
  NoDup c.*1 ->
  exists c', count_offer size c keys = Ok c' /\ NoDup c'.*1 /\ zlen c' <= Z.max size (zlen c) /\
  (forall k n, od_get k c = Some n -> k ∈ keys -> od_get k c' = Some (n + times k keys)) /\
  (forall k n, k ∉ keys -> od_get k c' = Some n -> od_get k c = Some n) /\
  (forall k n, od_get k c = None -> od_get k c' = Some n -> k ∈ keys /\ n = 1).
Proof.
  intros Hnd. destruct (count_offer_split size c keys Hnd)
    as (d & o & hot & new & E & Eo & [Hnd1 _ Ht Hk] & Hnd2 & Hnew & Hlen).
  assert (forall k, k ∈ keys -> k ∉ (d ++ o).*1) as Hold.
  { intros k Hin (e & -> & He)%list_elem_of_fmap. rewrite Eo in He. apply list_elem_of_filter in He as [He _]. done. }
  exists (o ++ hot ++ new). split_and!; [done..| | |].
  - intros k n Hn Hin. apply (od_get_in _ _ _ Hnd2). pose proof (Ht _ _ Hn) as H.
    apply (od_get_in _ _ _ Hnd1) in H. apply elem_of_app in H as [H|H]; [|set_solver].
    destruct (Hold k Hin). apply (list_elem_of_fmap_2 fst) in H. exact H.
  - intros k n Hin Hn. apply (od_get_in _ _ _ Hnd2) in Hn. apply elem_of_app in Hn as [Hn|[Hn|Hn]%elem_of_app].
    + assert ((k, n) ∈ d ++ o) as Hko by (apply elem_of_app; by right). rewrite Eo in Hko.
      apply list_elem_of_filter in Hko as [_ ?]. by apply od_get_in.
    + assert (od_get k ((d ++ o) ++ hot) = Some n) as Hg by (apply (od_get_in _ _ _ Hnd1); set_solver).
      assert (k ∈ c.*1) as Hkc by (apply Hk; by eapply od_get_elem).
      destruct (od_get k c) as [n0|] eqn:En; [|by apply od_get_none in En].
      rewrite (Ht _ _ En) in Hg. injection Hg as <-. f_equal.
      rewrite times_absent by done. lia.
    + by destruct (Hnew _ Hn).
  - intros k n Hn Hg. apply (od_get_in _ _ _ Hnd2) in Hg. apply elem_of_app in Hg as [Hg|[Hg|Hg]%elem_of_app].
    1,2: exfalso; apply od_get_none in Hn; apply Hn, Hk, list_elem_of_fmap; exists (k, n); split; [done|];
      set_solver.
    destruct (Hnew _ Hg). done.
Qed.

Lemma offer_counted_witness :
  NoDup ([([Byte.x01], 1); ([Byte.x02], 3)] : tracker).*1 /\
  count_offer 2 [([Byte.x01], 1); ([Byte.x02], 3)] [[Byte.x02]; [Byte.x05]] =
    Ok [([Byte.x02], 4); ([Byte.x05], 1)] /\
  exists c', count_offer 2 [([Byte.x01], 1); ([Byte.x02], 3)] [[Byte.x02]; [Byte.x05]] = Ok c' /\ zlen c' <= 2.
Proof.
  assert (NoDup ([([Byte.x01], 1); ([Byte.x02], 3)] : tracker).*1) as Hnd
    by (apply (bool_decide_unpack _); vm_compute; exact I).
  split; [exact Hnd|]. split; [vm_compute; reflexivity|].
  destruct (offer_counted 2 _ [[Byte.x02]; [Byte.x05]] Hnd) as (c' & E & _ & Hl & _).
  exists c'. split; [exact E|]. simpl in Hl. lia.
Defined.
