(* ===== verification/OffloadSafety.v ===== *)
(** Safety of the CPU offloading manager over any policy that satisfies the laws
    of [OffloadPolicy]: chunk buffers are neither lost nor shared, the counters
    are exact, chunks in use are never evicted. *)
From Stdlib Require Import ZArith Lia.
From stdpp Require Import base numbers list gmap sets.
From S2P Require Import Prelude OrderedDict BlockHash OffloadPolicy OffloadManager OffloadTracker.
Open Scope Z_scope.

(** * Chunk objects and buffers *)

Abbreviation id_of h c := (chunk_id (chunk_at h c)).
Abbreviation ref_of h c := (ref_cnt (chunk_at h c)).

(** [objs] are the live chunk objects: their buffers and the free ones are
    exactly the allocated buffers, each once. *)
Record objs_ok (objs : list nat) (h : chunk_heap) (next : nat) (alloc : Z) (free : list Z) (N : Z) : Prop := {
  objs_nodup : NoDup objs;
  objs_fresh : forall c, c ∈ objs -> (c < next)%nat;
  objs_refs : forall c, c ∈ objs -> -1 <= ref_of h c < 2 ^ 31;
  objs_ids : map (fun c => id_of h c) objs ++ free ≡ₚ seqZ 0 alloc;
  objs_range : 0 <= alloc <= N /\ N <= 2 ^ 63
}.

(** How many of the objects have reference count [r]. *)
Definition count_refs (r : Z) (h : chunk_heap) (objs : list nat) : Z :=
  zlen (filter (fun c => ref_of h c = r) objs).

Lemma count_refs_perm r h objs objs' : objs ≡ₚ objs' -> count_refs r h objs = count_refs r h objs'.
Proof. intros Hp. unfold count_refs. by rewrite Hp. Qed.
Lemma count_refs_cons r h c objs :
  count_refs r h (c :: objs) = (if decide (ref_of h c = r) then 1 else 0) + count_refs r h objs.
Proof.
  unfold count_refs. destruct (decide (ref_of h c = r)).
  - rewrite filter_cons_True by done. simpl. lia.
  - rewrite filter_cons_False by done. lia.
Qed.
Lemma count_refs_app r h l l' : count_refs r h (l ++ l') = count_refs r h l + count_refs r h l'.
Proof. unfold count_refs. rewrite filter_app, length_app. lia. Qed.
Lemma count_refs_ext r h h' objs :
  (forall c, c ∈ objs -> ref_of h' c = ref_of h c) -> count_refs r h' objs = count_refs r h objs.
Proof.
  intros E. induction objs as [|c objs IH]; [done|]. rewrite !count_refs_cons, E by (by left).
  rewrite IH; [done|]. intros c' Hc. apply E. by right.
Qed.

Lemma chunk_at_eq h c x : chunk_at (<[c := x]> h) c = x.
Proof. unfold chunk_at. by rewrite lookup_insert_eq. Qed.
Lemma chunk_at_ne h c c' x : c <> c' -> chunk_at (<[c := x]> h) c' = chunk_at h c'.
Proof. intros. unfold chunk_at. by rewrite lookup_insert_ne. Qed.

(** [h] with the reference count of [c] set to [r]. *)
Definition ref_set (c : nat) (r : Z) (h : chunk_heap) : chunk_heap :=
  <[c := with_ref_cnt r (chunk_at h c)]> h.

Lemma ref_set_id c r h c' : id_of (ref_set c r h) c' = id_of h c'.
Proof.
  unfold ref_set. destruct (decide (c = c')) as [->|]; [by rewrite chunk_at_eq|by rewrite chunk_at_ne].
Qed.
Lemma ref_set_ref c r h c' :
  -1 <= r < 2 ^ 31 -> ref_of (ref_set c r h) c' = if decide (c = c') then r else ref_of h c'.
Proof.
  intros Hr. unfold ref_set. destruct (decide (c = c')) as [->|]; [|by rewrite chunk_at_ne].
  rewrite chunk_at_eq. simpl. apply wrap_signed_id; lia.
Qed.

Lemma objs_perm objs objs' h next alloc free N :
  objs_ok objs h next alloc free N -> objs ≡ₚ objs' -> objs_ok objs' h next alloc free N.
Proof.
  intros [] Hp. split; [by rewrite <- Hp|intros c; rewrite <- Hp; auto..| |done].
  rewrite <- objs_ids0. by rewrite (fmap_Permutation _ _ _ Hp : map _ _ ≡ₚ map _ _).
Qed.

Lemma objs_set_ref objs h next alloc free N c r :
  objs_ok objs h next alloc free N -> -1 <= r < 2 ^ 31 -> objs_ok objs (ref_set c r h) next alloc free N.
Proof.
  intros [] Hr. split; [done..| | |done].
  - intros c' Hc. rewrite ref_set_ref by done. destruct (decide (c = c')); [done|auto].
  - replace (map _ objs) with (map (fun c => id_of h c) objs); [done|].
    apply list_fmap_ext. intros i x _. by rewrite ref_set_id.
Qed.

Lemma count_set_ref x objs h c r :
  NoDup objs -> c ∈ objs -> -1 <= r < 2 ^ 31 ->
  count_refs x (ref_set c r h) objs =
    count_refs x h objs - (if decide (ref_of h c = x) then 1 else 0) + if decide (r = x) then 1 else 0.
Proof.
  intros Hnd (l1 & l2 & ->)%list_elem_of_split Hr.
  assert (l1 ++ c :: l2 ≡ₚ c :: l1 ++ l2) as Hp by (symmetry; apply Permutation_middle).
  rewrite Hp in Hnd. apply NoDup_cons in Hnd as [Hc _]. rewrite !(count_refs_perm _ _ _ _ Hp), !count_refs_cons.
  rewrite ref_set_ref by done. rewrite (decide_True (P := c = c)) by done.
  rewrite (count_refs_ext x h (ref_set c r h) (l1 ++ l2)); [lia|].
  intros c' Hc'. rewrite ref_set_ref, decide_False; [done| |done]. by intros ->.
Qed.

Lemma objs_release objs h next alloc free N c :
  objs_ok (c :: objs) h next alloc free N -> objs_ok objs h next alloc (free ++ [id_of h c]) N.
Proof.
  intros [Hnd Hf Hr Hids Hrg]. apply NoDup_cons in Hnd as [_ Hnd].
  split; [done|intros; apply Hf; by right|intros; apply Hr; by right| |done].
  rewrite <- Hids. simpl. rewrite Permutation_app_comm, <- app_assoc. simpl.
  rewrite <- Permutation_middle. by rewrite (Permutation_app_comm free).
Qed.

(** A new object for buffer [id]. *)
Lemma objs_create objs h next alloc alloc' free free' N id :
  objs_ok objs h next alloc free N ->
  (forall l, l ++ free ≡ₚ seqZ 0 alloc -> id :: l ++ free' ≡ₚ seqZ 0 alloc') -> 0 <= alloc' <= N ->
  objs_ok (next :: objs) (<[next := new_chunk id]> h) (S next) alloc' free' N.
Proof.
  intros [Hnd Hf Hr Hids Hrg] Hp Ha. specialize (Hp _ Hids).
  assert (0 <= id < 2 ^ 63) as Hid.
  { assert (id ∈ seqZ 0 alloc') as Hin by (rewrite <- Hp; by left). apply elem_of_seqZ in Hin. lia. }
  assert (forall c, c ∈ objs -> chunk_at (<[next := new_chunk id]> h) c = chunk_at h c) as Hsame.
  { intros c Hc%Hf. apply chunk_at_ne. lia. }
  split; [apply NoDup_cons; split; [intros Hc%Hf; lia|done]| | | |by destruct Hrg].
  - intros c [->|Hc%Hf]%elem_of_cons; lia.
  - intros c [->|Hc]%elem_of_cons; [rewrite chunk_at_eq; by vm_compute|rewrite Hsame by done; auto].
  - simpl. rewrite chunk_at_eq. simpl. rewrite wrap_signed_id by lia. rewrite <- Hp. f_equiv. f_equiv.
    replace (map _ objs) with (map (fun c => id_of h c) objs); [done|].
    apply list_fmap_ext. intros i c Hc%list_elem_of_lookup_2. by rewrite Hsame.
Qed.

Lemma count_create x objs h next id :
  (forall c, c ∈ objs -> (c < next)%nat) -> count_refs x (<[next := new_chunk id]> h) objs = count_refs x h objs.
Proof. intros Hf. apply count_refs_ext. intros c Hc%Hf. rewrite chunk_at_ne by lia. done. Qed.

(** * Cached objects *)

(** The objects a map of cached chunks refers to. *)
Definition cached_objs (C : gmap bytes nat) : list nat := (map_to_list C).*2.

Lemma cached_insert C k c : C !! k = None -> cached_objs (<[k := c]> C) ≡ₚ c :: cached_objs C.
Proof. intros Hk. unfold cached_objs. by rewrite map_to_list_insert. Qed.
Lemma cached_delete C k c : C !! k = Some c -> cached_objs C ≡ₚ c :: cached_objs (delete k C).
Proof. intros Hk. unfold cached_objs. by rewrite <- (map_to_list_delete C k c). Qed.
Lemma cached_elem C k c : C !! k = Some c -> c ∈ cached_objs C.
Proof. intros Hk. rewrite (cached_delete C k c) by done. by left. Qed.
Lemma cached_inj C k1 k2 c :
  NoDup (cached_objs C) -> C !! k1 = Some c -> C !! k2 = Some c -> k1 = k2.
Proof.
  intros Hnd H1 H2. destruct (decide (k1 = k2)) as [|Hne]; [done|]. exfalso.
  rewrite (cached_delete C k1 c) in Hnd by done. apply NoDup_cons in Hnd as [Hc _]. apply Hc.
  apply (cached_elem _ k2). by rewrite lookup_delete_ne.
Qed.

(** Removing several keys at once. *)
Lemma cached_drop (C C' : gmap bytes nat) (l : list (bytes * nat)) :
  NoDup l.*1 -> (forall k c, (k, c) ∈ l -> C !! k = Some c) ->
  (forall k, C' !! k = if decide (k ∈ l.*1) then None else C !! k) ->
  cached_objs C ≡ₚ l.*2 ++ cached_objs C'.
Proof.
  intros Hnd Hin HC. unfold cached_objs. rewrite <- fmap_app. apply fmap_Permutation, NoDup_Permutation.
  - apply NoDup_map_to_list.
  - apply NoDup_app. split_and!; [by eapply NoDup_fmap_1| |apply NoDup_map_to_list].
    intros [k c] Hl Hm%elem_of_map_to_list. rewrite HC in Hm.
    rewrite decide_True in Hm; [done|]. apply list_elem_of_fmap. by exists (k, c).
  - intros [k c]. rewrite elem_of_app, !elem_of_map_to_list, HC. destruct (decide (k ∈ l.*1)) as [Hk|Hk].
    + split; [|intros [?|?]; [by apply Hin|done]]. intros Hc.
      apply list_elem_of_fmap in Hk as ([k' c'] & -> & Hl). simpl in Hc. pose proof (Hin _ _ Hl) as Hc2. rewrite Hc in Hc2. injection Hc2 as <-. by left.
    + split; [by right|]. intros [Hl|?]; [|done]. destruct Hk. apply list_elem_of_fmap. by exists (k, c).
Qed.

(** Calls on the parts of the state. *)
Lemma wp_on_policy {P A} (f : M P A) Q (m : CPUOffloadingManager P) :
  wp (on_policy f) Q m <-> wp f (fun a p => Q a (set_policy p m)) (policy m).
Proof. apply wp_zoom. Qed.
Lemma wp_on_mgr {P A} (f : M (CPUOffloadingManager P) A) Q s :
  wp (on_mgr f) Q s <-> wp f (fun a m => Q a (m, s.2)) s.1.
Proof. exact (wp_zoom fst (fun x s => (x, s.2)) f Q s). Qed.
Lemma wp_on_ctx {P A} (f : M ReqContext A) Q (s : CPUOffloadingManager P * ReqContext) :
  wp (on_ctx f) Q s <-> wp f (fun a r => Q a (s.1, r)) s.2.
Proof. exact (wp_zoom snd (fun x s => (s.1, x)) f Q s). Qed.
#[export] Hint Rewrite @wp_on_policy @wp_on_mgr @wp_on_ctx : py.

Definition bit (b : Prop) `{Decision b} : Z := if decide b then 1 else 0.
Ltac bits := unfold bit; repeat destruct (decide _); lia.

(** * The invariant of the manager *)

Section safety.
Context {P : Type} `{HP : CachePolicy P} `{HL : !CachePolicyLaws P}.
Abbreviation Mgr := (CPUOffloadingManager P).
Implicit Types m : Mgr.

Definition cached m : gmap bytes nat := contents (policy m).

(** [out]: chunk objects allocated but not yet inserted. *)
Record mgr_inv (out : list nat) m : Prop := {
  inv_policy : policy_ok (chunk_objs m) (policy m);
  inv_objs : objs_ok (cached_objs (cached m) ++ out) (chunk_objs m) (next_obj m) (num_allocated_chunks m)
    (free_list m) (num_chunks m);
  inv_evictable : num_evictable_cache_chunks m = count_refs 0 (chunk_objs m) (cached_objs (cached m));
  inv_pending : num_write_pending_chunks m = count_refs (-1) (chunk_objs m) (cached_objs (cached m));
  inv_counts : match counts m with Some c => NoDup c.*1 | None => True end
}.

Lemma get_cached out m k : mgr_inv out m -> policy_get k (policy m) = cached m !! k.
Proof. intros Hm. eapply law_get, Hm. Qed.

Lemma inv_nodup out m : mgr_inv out m -> NoDup (cached_objs (cached m)).
Proof. intros Hm. pose proof (objs_nodup _ _ _ _ _ _ (inv_objs _ _ Hm)) as Hnd. by apply NoDup_app in Hnd as [? _]. Qed.

Lemma inv_ref out m k c : mgr_inv out m -> cached m !! k = Some c -> -1 <= ref_of (chunk_objs m) c < 2 ^ 31.
Proof. intros Hm Hk%cached_elem. apply (objs_refs _ _ _ _ _ _ (inv_objs _ _ Hm)). set_solver. Qed.

Lemma inv_other out m k c k' c' :
  mgr_inv out m -> cached m !! k = Some c -> k' <> k -> cached m !! k' = Some c' -> c <> c'.
Proof. intros Hm Hk Hne Hk' ->. apply Hne. by eapply cached_inj; [eapply inv_nodup|..]. Qed.

(** The heap changes idleness only where the reference count was set. *)
Lemma ref_set_idle out m k c r k' c' :
  mgr_inv out m -> cached m !! k = Some c -> -1 <= r < 2 ^ 31 -> k' <> k -> cached m !! k' = Some c' ->
  idle (chunk_objs m) c' <-> idle (ref_set c r (chunk_objs m)) c'.
Proof.
  intros Hm Hk Hr Hne Hk'. unfold idle. rewrite ref_set_ref, decide_False by (done || by eapply inv_other). done.
Qed.

(** Setting the reference count of a cached chunk, with the policy and the
    counters following. *)
Definition with_ref m (c : nat) (r : Z) (p : P) : Mgr :=
  add_counters (bit (r = 0) - bit (ref_of (chunk_objs m) c = 0)) (bit (r = -1) - bit (ref_of (chunk_objs m) c = -1))
    (set_policy p (set_objs (ref_set c r (chunk_objs m)) (next_obj m) m)).

(** Two managers with the same cached chunks in the same buffers. *)
Record same_chunks m m' : Prop := {
  same_cached : cached m' = cached m;
  same_ids : forall c, id_of (chunk_objs m') c = id_of (chunk_objs m) c;
  same_free : free_list m' = free_list m;
  same_alloc : num_allocated_chunks m' = num_allocated_chunks m /\ num_chunks m' = num_chunks m;
  same_next : next_obj m' = next_obj m;
  same_events : events m' = events m;
  same_self : mgr_id m' = mgr_id m /\ cache_generation m' = cache_generation m
}.
#[export] Instance same_chunks_refl : Reflexive same_chunks.
Proof. intros m. split; done. Qed.
#[export] Instance same_chunks_trans : Transitive same_chunks.
Proof. intros m1 m2 m3 [? H12 ? [] ? ? []] [? H23 ? [] ? ? []]. split; try split; try congruence. Qed.

(** [m'] is [m] with the reference count of [c] set to [r]. *)
Definition ref_changed m c r m' : Prop :=
  mgr_inv [] m' /\ same_chunks m m' /\
  forall c', ref_of (chunk_objs m') c' = if decide (c = c') then r else ref_of (chunk_objs m) c'.

Lemma with_ref_ok m k c r p :
  mgr_inv [] m -> cached m !! k = Some c -> -1 <= r < 2 ^ 31 ->
  policy_ok (ref_set c r (chunk_objs m)) p -> contents p = cached m -> ref_changed m c r (with_ref m c r p).
Proof.
  intros Hm Hk Hr Hp E. pose proof (inv_nodup _ _ Hm) as Hnd. destruct Hm as [_ Ho He Hpd Hcn].
  split_and!; [split| |]; unfold cached in *; simpl; rewrite ?E; try done.
  - by apply objs_set_ref.
  - rewrite count_set_ref by (try done; by eapply cached_elem). rewrite He. unfold bit. repeat destruct (decide _); lia.
  - rewrite count_set_ref by (try done; by eapply cached_elem). rewrite Hpd. unfold bit. repeat destruct (decide _); lia.
  - split; try done. intros c'. apply ref_set_id.
  - intros c'. by apply ref_set_ref.
Qed.

(** The policy need not be told when idleness does not change. *)
Lemma ref_set_same out m k c r :
  mgr_inv out m -> cached m !! k = Some c -> -1 <= r < 2 ^ 31 -> r <> 0 -> ~ idle (chunk_objs m) c ->
  policy_ok (ref_set c r (chunk_objs m)) (policy m).
Proof.
  intros Hm Hk Hr Hr0 Hni. eapply law_heap; [apply Hm|]. intros k' c' Hk'. destruct (decide (k' = k)) as [->|].
  - assert (c' = c) as -> by (unfold cached in Hk; congruence). unfold idle at 2.
    rewrite ref_set_ref, decide_True by done. tauto.
  - by eapply ref_set_idle.
Qed.

(** [with_ref] as the code's assignments. *)
Lemma with_ref_eq m c r p de dp :
  bit (r = 0) - bit (ref_of (chunk_objs m) c = 0) = de ->
  bit (r = -1) - bit (ref_of (chunk_objs m) c = -1) = dp ->
  with_ref m c r p = set_ref_cnt c r (add_counters de dp (set_policy p m)).
Proof. intros <- <-. reflexivity. Qed.

(** ** Loads *)

Lemma pin_chunk_ok m acc k c :
  mgr_inv [] m -> cached m !! k = Some c -> 0 <= ref_of (chunk_objs m) c < 2 ^ 31 - 1 ->
  wp (pin_chunk acc k) (fun r m' => r = acc ++ [c] /\ ref_changed m c (ref_of (chunk_objs m) c + 1) m') m.
Proof.
  intros Hm Hk Hr. unfold pin_chunk. wp_simpl.
  rewrite (get_cached [] m k Hm), Hk. wp_simpl. unfold chunk_of.
  split; [unfold is_ready; apply Z.geb_le; lia|].
  destruct (_ =? 0) eqn:E0; bools; wp_simpl.
  - eapply wp_mono.
    + apply (law_mark_non_evictable (chunk_objs m) (ref_set c (ref_of (chunk_objs m) c + 1) (chunk_objs m)) _ k c);
        [apply Hm|done|done| |].
      * unfold idle. rewrite ref_set_ref, decide_True by (done || lia). lia.
      * intros k' c' Hne Hk'. eapply ref_set_idle; [done..|lia|done|done].
    + intros _ p [Hp E]. wp_simpl. simpl. split.
      { apply Z.geb_le. rewrite (inv_evictable _ _ Hm), (count_refs_perm _ _ _ _ (cached_delete _ _ _ Hk)).
        rewrite count_refs_cons, decide_True by done. unfold count_refs. lia. }
      split; [done|]. rewrite <- (with_ref_eq m c _ p (-1) 0) by bits. eapply with_ref_ok; done || lia.
  - split; [done|]. pose proof (with_ref_eq m c (ref_of (chunk_objs m) c + 1) (policy m) 0 0) as E.
    destruct (with_ref_ok m k c (ref_of (chunk_objs m) c + 1) (policy m)) as (Hi & Hs & Hrf);
      [done|done|lia|eapply ref_set_same; done || unfold idle; lia|done|].
    rewrite E in Hi, Hs, Hrf by bits. clear E. destruct m; unfold add_counters, set_policy in *; simpl in *.
    by rewrite !Z.add_0_r in *.
Qed.

Lemma unpin_chunk_ok m k c :
  mgr_inv [] m -> cached m !! k = Some c -> 0 < ref_of (chunk_objs m) c ->
  wp (unpin_chunk k) (fun _ m' => ref_changed m c (ref_of (chunk_objs m) c - 1) m') m.
Proof.
  intros Hm Hk Hr. pose proof (inv_ref _ _ _ _ Hm Hk) as Hb. unfold unpin_chunk. wp_simpl.
  rewrite (get_cached [] m k Hm), Hk. wp_simpl. unfold chunk_of at 1.
  split; [apply Z.gtb_lt; lia|]. unfold set_ref_cnt, chunk_of; simpl.
  fold (ref_set c (ref_of (chunk_objs m) c - 1) (chunk_objs m)).
  rewrite ref_set_ref, decide_True by (done || lia).
  destruct (_ =? 0) eqn:E0; bools; wp_simpl.
  - eapply wp_mono.
    + apply (law_mark_evictable (chunk_objs m) (ref_set c (ref_of (chunk_objs m) c - 1) (chunk_objs m)) _ k c);
        [apply Hm|done|unfold idle; lia| |].
      * unfold idle. rewrite ref_set_ref, decide_True by (done || lia). lia.
      * intros k' c' Hne Hk'. eapply ref_set_idle; [done..|lia|done|done].
    + intros _ p [Hp E]. 
      pose proof (with_ref_ok m k c (ref_of (chunk_objs m) c - 1) p Hm Hk (ltac:(lia)) Hp E) as Hok.
      rewrite (with_ref_eq _ _ _ _ 1 0) in Hok by bits. exact Hok.
  - pose proof (with_ref_eq m c (ref_of (chunk_objs m) c - 1) (policy m) 0 0) as E.
    destruct (with_ref_ok m k c (ref_of (chunk_objs m) c - 1) (policy m)) as (Hi & Hs & Hrf);
      [done|done|lia|eapply ref_set_same; done || unfold idle; lia|done|].
    rewrite E in Hi, Hs, Hrf by bits. clear E. destruct m; unfold add_counters, set_policy in *; simpl in *.
    rewrite !Z.add_0_r in *. done.
Qed.

(** [m'] is [m] with the count of every chunk raised by [d] per occurrence of
    its key in [keys]. *)
Definition shifted m (d : Z) (keys : list bytes) m' : Prop :=
  mgr_inv [] m' /\ same_chunks m m' /\
  forall k c, cached m !! k = Some c -> ref_of (chunk_objs m') c = ref_of (chunk_objs m) c + d * times k keys.

Lemma shifted_refl m d : mgr_inv [] m -> shifted m d [] m.
Proof. intros Hm. split_and!; [done..|]. intros. unfold times. simpl. lia. Qed.

Lemma shifted_step m m1 m2 d done k c :
  mgr_inv [] m -> shifted m d done m1 -> cached m !! k = Some c ->
  ref_changed m1 c (ref_of (chunk_objs m1) c + d) m2 -> shifted m d (done ++ [k]) m2.
Proof.
  intros Hm (Hm1 & Hs1 & Hr1) Hk (Hm2 & Hs2 & Hr2). split_and!; [done|by etrans|].
  intros k' c' Hk'. rewrite Hr2, times_snoc. destruct (decide (c = c')) as [<-|Hne].
  - assert (k = k') as <- by (eapply cached_inj; [by eapply (inv_nodup [] m)|done|done]). rewrite (Hr1 k c) by done.
    rewrite decide_True by done. lia.
  - rewrite (Hr1 k' c') by done. rewrite decide_False; [lia|]. intros ->. congruence.
Qed.

(** What [prepare_load] and [complete_load] require of their keys. *)
Definition loadable m (keys : list bytes) : Prop :=
  forall k, k ∈ keys -> exists c, cached m !! k = Some c /\ 0 <= ref_of (chunk_objs m) c /\
    ref_of (chunk_objs m) c + times k keys < 2 ^ 31.
Definition unloadable m (keys : list bytes) : Prop :=
  forall k, k ∈ keys -> exists c, cached m !! k = Some c /\ times k keys <= ref_of (chunk_objs m) c.

Lemma pin_chunks_ok m keys :
  mgr_inv [] m -> loadable m keys ->
  wp (fold_ keys [] pin_chunk) (fun chunks m' => map Some chunks = map (fun k => cached m !! k) keys /\
    shifted m 1 keys m') m.
Proof.
  intros Hm Hl. apply (wp_fold _ _ _ (fun done _ acc m' => map Some acc = map (fun k => cached m !! k) done /\
    shifted m 1 done m')); [by split; [|apply shifted_refl]| |done].
  intros done k todo acc m1 E [Ha Hs]. destruct (Hl k) as (c & Hk & Hr0 & Hr1); [rewrite E; set_solver|].
  pose proof Hs as (Hm1 & Hs1 & Hrf). pose proof (Hrf k c Hk) as Hc.
  pose proof (times_room k done k todo eq_refl) as Ht. rewrite <- E in Ht. eapply wp_mono.
  - apply (pin_chunk_ok m1 acc k c); [done|by rewrite (same_cached _ _ Hs1)|lia].
  - intros r m2 [-> Hch]. split; [rewrite !map_app, Ha; simpl; by rewrite Hk|].
    by eapply (shifted_step m m1 m2).
Qed.

Lemma unpin_chunks_ok m keys :
  mgr_inv [] m -> unloadable m keys -> wp (complete_load keys) (fun _ m' => shifted m (-1) keys m') m.
Proof.
  intros Hm Hl. apply (wp_for _ _ (fun done _ m' => shifted m (-1) done m')); [by apply shifted_refl| |done].
  intros done k todo m1 E Hs. destruct (Hl k) as (c & Hk & Hr1); [rewrite E; set_solver|].
  pose proof Hs as (Hm1 & Hs1 & Hrf). pose proof (Hrf k c Hk) as Hc.
  pose proof (times_room k done k todo eq_refl) as Ht. rewrite <- E in Ht. eapply wp_mono.
  - apply (unpin_chunk_ok m1 k c); [done|by rewrite (same_cached _ _ Hs1)|lia].
  - intros [] m2 Hch. by eapply (shifted_step m m1 m2 (-1)); [done..|].
Qed.

(** ** Access records *)

(** The record the manager keeps in the context of a request that it has not
    finished. *)
Definition ctx_open m (r : ReqContext) : Prop :=
  forall a, access_state r = Some a -> owner a = mgr_id m -> access_generation a = cache_generation m ->
  finished a = false.
Definition records m (a : RequestCacheAccess) (r : ReqContext) : Prop :=
  access_state r = Some a /\ owner a = mgr_id m /\ access_generation a = cache_generation m /\ finished a = false.

Lemma get_access_ok m r :
  ctx_open m r -> wp get_request_cache_access (fun a s => s.1 = m /\ records m a s.2) (m, r).
Proof.
  intros Ho. unfold get_request_cache_access. wp_simpl. simpl. destruct (access_state r) as [a|] eqn:E.
  - destruct (_ && _)%bool eqn:Eb; wp_simpl; [|done]. bools. split; [done|]. split_and!; [done..|]. by apply Ho.
  - wp_simpl. done.
Qed.

Lemma records_open m a r : records m a r -> ctx_open m r.
Proof. intros (E & _ & _ & Hf) a' E'. congruence. Qed.

Lemma record_access_ok m r keys reused :
  ctx_open m r ->
  wp (record_request_cache_access keys reused) (fun _ s => s.1 = m /\ exists a, records m a s.2) (m, r).
Proof.
  intros Ho. unfold record_request_cache_access. wp_simpl. eapply wp_mono; [by apply get_access_ok|].
  intros a [m1 r1] [? Ha]; simpl in *; subst m1. wp_simpl.
  apply (wp_fold _ _ _ (fun _ _ a s => s.1 = m /\ records m a s.2)); [done| |].
  - intros done k todo b [m1 r2] _ [? (E & Eo & Eg & Ef)]; simpl in *; subst m1. unfold record_key. wp_simpl.
    destruct (bool_decide _); [|rewrite Ef]; (eexists; split; [reflexivity|]); by wp_simpl.
  - intros b [m1 r2] [? (E & Eo & Eg & Ef)]; simpl in *; subst m1. wp_simpl. split; [done|]. by eexists.
Qed.

Lemma modify_access_ok m a f s :
  s.1 = m -> records m a s.2 -> (owner (f a), access_generation (f a), finished (f a)) =
    (owner a, access_generation a, finished a) ->
  wp (modify_access f) (fun _ s' => s'.1 = m /\ records m (f a) s'.2) s.
Proof.
  intros Hs (E & Eo & Eg & Ef) Hf. unfold modify_access. wp_simpl. rewrite E. simplify_eq/=.
  split; [done|]. repeat split; simpl; congruence.
Qed.

Lemma prepare_load_ok m r keys :
  mgr_inv [] m -> ctx_open m r -> loadable m keys ->
  wp (prepare_load keys) (fun spec s => shifted m 1 keys s.1 /\ ctx_open s.1 s.2 /\
    map Some spec = map (fun k => (fun c => id_of (chunk_objs m) c) <$> cached m !! k) keys) (m, r).
Proof.
  intros Hm Ho Hl. unfold prepare_load, prepare_load_. wp_simpl. eapply wp_mono; [by apply pin_chunks_ok|].
  intros chunks m1 [Hc (Hm1 & Hs & Hr)]. wp_simpl. eapply wp_mono.
  - apply record_access_ok. intros a. destruct (same_self _ _ Hs) as [-> ->]. apply Ho.
  - intros _ [m2 r2] [? [a Ha]]; simpl in *; subst m2. wp_simpl. split_and!; [done|by eapply records_open|].
    apply (f_equal (map (fmap (fun c => id_of (chunk_objs m) c)))) in Hc. rewrite !map_map in Hc. rewrite <- Hc.
    unfold get_load_store_spec, chunk_of. rewrite map_map. apply map_ext. intros c. by rewrite (same_ids _ _ Hs).
Qed.

(** ** Allocation *)

Lemma inv_total out m :
  mgr_inv out m -> get_num_free_chunks m = num_chunks m - zlen (cached_objs (cached m) ++ out).
Proof.
  intros Hm. destruct (inv_objs _ _ Hm) as [_ _ _ Hids Hrg]. apply Permutation_length in Hids.
  rewrite length_app, length_map, length_seqZ in Hids. unfold get_num_free_chunks. lia.
Qed.

(** [m] is [m0] with the chunk objects [out] allocated and not yet inserted. *)
Record allocated m0 (out : list nat) m : Prop := {
  al_inv : mgr_inv out m;
  al_policy : policy m = policy m0;
  al_old : forall c, (c < next_obj m0)%nat -> chunk_at (chunk_objs m) c = chunk_at (chunk_objs m0) c;
  al_next : (next_obj m0 <= next_obj m)%nat;
  al_new : forall c, c ∈ out -> ref_of (chunk_objs m) c = -1;
  al_self : mgr_id m = mgr_id m0 /\ cache_generation m = cache_generation m0 /\ num_chunks m = num_chunks m0
}.

Lemma create_inv m0 out m id alloc' free' :
  allocated m0 out m ->
  (forall l, l ++ free_list m ≡ₚ seqZ 0 (num_allocated_chunks m) -> id :: l ++ free' ≡ₚ seqZ 0 alloc') ->
  0 <= alloc' <= num_chunks m ->
  allocated m0 (out ++ [next_obj m])
    (set_pool alloc' free' (set_objs (<[next_obj m := new_chunk id]> (chunk_objs m)) (S (next_obj m)) m)).
Proof.
  intros [Hm Hp Ho Hn Hw Hs] Hl Ha. pose proof (objs_fresh _ _ _ _ _ _ (inv_objs _ _ Hm)) as Hf.
  assert (forall c, c ∈ cached_objs (cached m) -> (c < next_obj m)%nat) as Hfc by (intros; apply Hf; set_solver).
  split; simpl; [|done|intros c Hc; rewrite chunk_at_ne by lia; auto|lia| |done].
  - destruct Hm as [Hpol Hob Hev Hpd Hcn]. split; unfold cached in *; simpl; [| | | |done].
    + eapply law_heap; [done|]. intros k c Hk%cached_elem%Hfc. unfold idle. rewrite chunk_at_ne by lia. done.
    + eapply objs_perm; [by eapply objs_create|].
      rewrite (Permutation_app_comm out), app_assoc, (Permutation_app_comm _ [_]). done.
    + by rewrite count_create.
    + by rewrite count_create.
  - intros c [Hc| ->%list_elem_of_singleton]%elem_of_app.
    + assert (c < next_obj m)%nat by (apply Hf; set_solver). rewrite chunk_at_ne by lia. auto.
    + rewrite chunk_at_eq. by vm_compute.
Qed.

Lemma allocate_fresh_ok m0 out m :
  allocated m0 out m -> num_allocated_chunks m < num_chunks m ->
  wp allocate_fresh (fun c m' => allocated m0 (out ++ [c]) m' /\ free_list m' = free_list m /\
    num_allocated_chunks m' = num_allocated_chunks m + 1 /\ num_chunks m' = num_chunks m) m.
Proof.
  intros Hal Hlt. pose proof (objs_range _ _ _ _ _ _ (inv_objs _ _ (al_inv _ _ _ Hal))) as Hrg.
  unfold allocate_fresh, create_chunk. wp_simpl. simpl. split_and!; [|done..].
  apply (create_inv m0 out m); [done| |lia]. intros l E. rewrite seqZ_app, <- E by lia. simpl.
  by rewrite (Permutation_app_comm _ (seqZ _ 1)).
Qed.

Lemma allocate_reused_ok m0 out m :
  allocated m0 out m -> free_list m <> [] ->
  wp allocate_reused (fun c m' => allocated m0 (out ++ [c]) m' /\ zlen (free_list m') = zlen (free_list m) - 1 /\
    num_allocated_chunks m' = num_allocated_chunks m /\ num_chunks m' = num_chunks m) m.
Proof.
  intros Hal Hne. pose proof (objs_range _ _ _ _ _ _ (inv_objs _ _ (al_inv _ _ _ Hal))) as Hrg.
  unfold allocate_reused, create_chunk. wp_simpl.
  destruct (free_list m) as [|id fl _] eqn:Ef using rev_ind; [done|]. rewrite last_snoc. wp_simpl. simpl.
  rewrite length_app, Nat.add_sub, take_app_length. simpl. split_and!; [|lia|done|done].
  apply (create_inv m0 out m id); [done|simpl|simpl; lia]. intros l E. rewrite <- E, Ef.
  by rewrite app_assoc, (Permutation_app_comm _ [id]).
Qed.

Lemma allocate_chunks_ok m (keys : list bytes) :
  mgr_inv [] m -> zlen keys <= get_num_free_chunks m ->
  wp (allocate_chunks keys) (fun chunks m' => allocated m chunks m' /\ length chunks = length keys) m.
Proof.
  intros Hm Hle. unfold get_num_free_chunks in Hle. unfold allocate_chunks. wp_simpl.
  pose proof (objs_range _ _ _ _ _ _ (inv_objs _ _ Hm)) as Hrg.
  set (nf := Z.min (zlen keys) _). assert (0 <= nf <= zlen keys /\ nf <= num_chunks m - num_allocated_chunks m /\
    (nf = zlen keys \/ nf = num_chunks m - num_allocated_chunks m)) as Hnf by lia.
  split; [apply Z.geb_le; lia|]. unfold repeat_alloc.
  apply (wp_fold _ _ _ (fun done _ acc m' => allocated m acc m' /\ length acc = length done /\
    free_list m' = free_list m /\ num_allocated_chunks m' = num_allocated_chunks m + zlen done /\
    num_chunks m' = num_chunks m)).
  { split_and!; try done; [|simpl; lia]. by split; try done; intros; set_solver. }
  - intros done x todo acc m1 E (Hal & Hl & Hf & Ha & Hn). wp_simpl.
    apply (f_equal length) in E. unfold py_range in E. rewrite length_seqZ, length_app in E. simpl in E.
    eapply wp_mono; [apply allocate_fresh_ok; [done|lia]|]. intros c m2 (Hal2 & Hf2 & Ha2 & Hn2). wp_simpl.
    rewrite !length_app. simpl. split_and!; [done|lia|congruence|lia|congruence].
  - intros acc1 m1 (Hal & Hl & Hf & Ha & Hn). unfold py_range in *. rewrite length_seqZ in *.
    apply (wp_fold _ _ _ (fun done _ acc m' => allocated m acc m' /\ length acc = (Z.to_nat nf + length done)%nat /\
      zlen (free_list m') = zlen (free_list m) - zlen done)).
    + split_and!; [done|simpl; lia|rewrite Hf; simpl; lia].
    + intros done x todo acc m2 E (Hal2 & Hl2 & Hf2). wp_simpl.
      apply (f_equal length) in E. rewrite length_seqZ, length_app in E. simpl in E.
      eapply wp_mono; [apply allocate_reused_ok; [done|]|].
      { intros E0. rewrite E0 in Hf2. simpl in Hf2. lia. }
      intros c m3 (Hal3 & Hf3 & Ha3 & Hn3). wp_simpl. rewrite !length_app. simpl. split_and!; [done|lia..].
    + intros acc m2 (Hal2 & Hl2 & Hf2). rewrite length_seqZ in *. split; [done|]. lia.
Qed.

(** ** Insertion *)

(** What is cached under a key: the buffer and the reference count. *)
Definition view m (k : bytes) : option ChunkStatus := chunk_at (chunk_objs m) <$> cached m !! k.

Lemma ref_changed_view m k c r m' k' :
  mgr_inv [] m -> cached m !! k = Some c -> ref_changed m c r m' ->
  view m' k' = if decide (k' = k) then Some (mkChunk r (id_of (chunk_objs m) c)) else view m k'.
Proof.
  intros Hm Hk (Hm' & Hs & Hr). unfold view. rewrite (same_cached _ _ Hs).
  assert (forall c', chunk_at (chunk_objs m') c' =
    mkChunk (if decide (c = c') then r else ref_of (chunk_objs m) c') (id_of (chunk_objs m) c')) as E.
  { intros c'. rewrite <- Hr, <- (same_ids _ _ Hs). by destruct (chunk_at _ c'). }
  destruct (decide (k' = k)) as [->|Hne].
  - rewrite Hk. simpl. by rewrite E, decide_True.
  - destruct (cached m !! k') as [c'|] eqn:Hk'; [|done]. simpl.
    rewrite E, decide_False by (by apply (inv_other [] m k c k' c')). by destruct (chunk_at _ c').
Qed.

Lemma insert_ok out m k c :
  mgr_inv (c :: out) m -> cached m !! k = None -> ref_of (chunk_objs m) c = -1 ->
  wp (insert_chunk (k, c)) (fun _ m' => exists p, m' = set_policy p m /\ contents p = <[k := c]> (cached m) /\
    mgr_inv out (add_counters 0 1 m')) m.
Proof.
  intros [Hp Ho He Hpd Hcn] Hk Hr. unfold insert_chunk. wp_simpl. eapply wp_mono; [by apply law_insert|].
  intros [] p [Hp' E]. exists p. split_and!; [done..|]. unfold cached in *.
  assert (cached_objs (contents p) ≡ₚ c :: cached_objs (contents (policy m))) as Hc
    by (rewrite E; by apply cached_insert).
  split; unfold cached; simpl; [done| | | |done].
  - eapply objs_perm; [done|]. rewrite Hc. symmetry. apply Permutation_middle.
  - rewrite (count_refs_perm _ _ _ _ Hc), count_refs_cons, Hr, He. simpl. lia.
  - rewrite (count_refs_perm _ _ _ _ Hc), count_refs_cons, Hr, Hpd. simpl. lia.
Qed.

Lemma add_counters_add a b a' b' m : add_counters a b (add_counters a' b' m) = add_counters (a' + a) (b' + b) m.
Proof. unfold add_counters. simpl. by rewrite !Z.add_assoc. Qed.

(** The insertion loop. The counter of pending writes is raised after it. *)
Lemma insert_chunks_ok m0 m (l : list (bytes * nat)) :
  allocated m0 l.*2 m -> NoDup l.*1 -> (forall k, k ∈ l.*1 -> cached m0 !! k = None) ->
  wp (for_ l insert_chunk) (fun _ m' => exists p, m' = set_policy p m /\ mgr_inv [] (add_counters 0 (zlen l) m') /\
    (forall k c, (k, c) ∈ l -> contents p !! k = Some c) /\
    (forall k, k ∉ l.*1 -> contents p !! k = cached m0 !! k)) m.
Proof.
  intros Hal Hnd Hn. apply (wp_for _ _ (fun done todo m' => exists p, m' = set_policy p m /\
    mgr_inv todo.*2 (add_counters 0 (zlen done) m') /\ (forall k c, (k, c) ∈ done -> contents p !! k = Some c) /\
    (forall k, k ∉ done.*1 -> contents p !! k = cached m0 !! k))); [| |done].
  - exists (policy m). assert (add_counters 0 0 m = m) as E.
    { destruct m; unfold add_counters; simpl. by rewrite !Z.add_0_r. }
    split_and!; [by destruct m| |set_solver|intros; by rewrite (al_policy _ _ _ Hal)].
    change (zlen []) with 0. rewrite E. apply Hal.
  - intros done [k c] todo m1 E (p & -> & Hm1 & Hin & Hout).
    assert (k ∉ done.*1 /\ NoDup (done ++ [(k, c)]).*1) as [Hk Hnd'].
    { rewrite E, fmap_app in Hnd. apply NoDup_app in Hnd as (Hd & Hdj & Ht). simpl in *.
      assert (k ∉ done.*1) by (intros Hk; apply (Hdj k Hk); by left). split; [done|].
      rewrite fmap_app. by apply NoDup_end. }
    assert (wp (insert_chunk (k, c)) (fun _ m' => exists p', m' = set_policy p' (add_counters 0 (zlen done) (set_policy p m)) /\
      contents p' = <[k := c]> (contents p) /\ mgr_inv todo.*2 (add_counters 0 1 m')) (add_counters 0 (zlen done) (set_policy p m))) as Hw.
    { apply (insert_ok todo.*2 (add_counters 0 (zlen done) (set_policy p m)) k c); [done| |].
      - unfold cached. simpl. rewrite Hout by done. apply Hn. rewrite E, fmap_app. set_solver.
      - simpl. apply (al_new _ _ _ Hal). rewrite E, fmap_app. set_solver. }
    revert Hw. unfold insert_chunk. wp_simpl. simpl. intros Hw. eapply wp_mono; [exact Hw|].
    intros [] p2 (p' & E2 & E3 & Hm2). assert (p2 = p') as -> by (by injection E2). exists p'. split_and!.
    + done.
    + rewrite length_app, Nat2Z.inj_add. change (zlen [(k, c)]) with 1.
      change (mgr_inv todo.*2 (add_counters (0 + 0) (zlen done + 1) (set_policy p' m))).
      rewrite <- add_counters_add. exact Hm2.
    + intros k' c' [Hk'|Hk']%elem_of_app.
      * rewrite E3, lookup_insert_ne; [auto|]. intros ->. apply Hk. by apply (list_elem_of_fmap_2 fst) in Hk'.
      * apply list_elem_of_singleton in Hk' as [= -> ->]. by rewrite E3, lookup_insert_eq.
    + intros k' Hk'. rewrite fmap_app in Hk'. rewrite E3, lookup_insert_ne; [apply Hout; set_solver|set_solver].
Qed.
End safety.
