(* ===== verification/OffloadStore.v ===== *)
(** Stores of the CPU offloading manager: eviction, allocation and insertion in
    [prepare_store], completion in [complete_store], over any lawful policy. *)
From Stdlib Require Import ZArith Lia.
From stdpp Require Import base numbers list gmap sets.
From S2P Require Import Prelude OrderedDict BlockHash OffloadPolicy OffloadManager OffloadTracker OffloadSafety.
Open Scope Z_scope.

Section stores.
Context {P : Type} `{HP : CachePolicy P} `{HL : !CachePolicyLaws P}.
Abbreviation Mgr := (CPUOffloadingManager P).
Implicit Types m : Mgr.

(** ** Events *)

Lemma emit_eq keys b m : exists e, emit keys b m = set_events e m.
Proof.
  unfold emit. destruct keys; [exists (events m); by destruct m|].
  destruct (events m); [by eexists|]. exists (events m). by destruct m.
Qed.

Lemma set_events_inv out e m : mgr_inv out m -> mgr_inv out (set_events e m).
Proof. intros []. by split. Qed.
Lemma emit_inv out keys b m : mgr_inv out m -> mgr_inv out (emit keys b m).
Proof. destruct (emit_eq keys b m) as [e ->]. apply set_events_inv. Qed.
Lemma set_batch_inv out a b m : mgr_inv out m -> mgr_inv out (set_batch a b m).
Proof. intros []. by split. Qed.

(** ** Storing the admitted keys *)

(** [m'] has the chunks of [m] and new ones, being written, under [keys] in the
    buffers [spec]. *)
Record stored m (keys : list bytes) (spec : list Z) m' : Prop := {
  st_inv : mgr_inv [] m';
  st_length : length spec = length keys;
  st_new : forall k id, (k, id) ∈ zip keys spec -> view m' k = Some (mkChunk (-1) id);
  st_old : forall k, k ∉ keys -> view m' k = view m k;
  st_self : mgr_id m' = mgr_id m /\ cache_generation m' = cache_generation m
}.

Lemma view_old m0 (out : list nat) m (C : gmap bytes nat) (k : bytes) :
  mgr_inv [] m0 -> allocated m0 out m -> C !! k = cached m0 !! k ->
  chunk_at (chunk_objs m) <$> C !! k = view m0 k.
Proof.
  intros Hm0 Hal Hk. unfold view. rewrite Hk. destruct (cached m0 !! k) as [c|] eqn:E; [|done]. simpl. f_equal.
  apply (al_old _ _ _ Hal). apply (objs_fresh _ _ _ _ _ _ (inv_objs _ _ Hm0)).
  apply elem_of_app. left. by eapply cached_elem.
Qed.

Lemma store_chunks_ok m keys to_evict :
  mgr_inv [] m -> NoDup keys -> (forall k, k ∈ keys -> cached m !! k = None) ->
  zlen keys <= get_num_free_chunks m ->
  wp (store_chunks keys to_evict) (fun o m' => out_keys_to_store o = keys /\ evicted_keys o = to_evict /\
    stored m keys (store_spec o) m') m.
Proof.
  intros Hm Hnd Hk Hfree. unfold store_chunks. wp_simpl. destruct (emit_eq to_evict true m) as [e ->].
  eapply wp_mono; [apply allocate_chunks_ok; [by apply set_events_inv|done]|].
  intros chunks m1 [Hal Hl]. wp_simpl. split; [apply Z.eqb_eq; lia|].
  eapply wp_mono; [apply (insert_chunks_ok (set_events e m) m1 (zip keys chunks))|].
  - by rewrite snd_zip by lia.
  - by rewrite fst_zip by lia.
  - rewrite fst_zip by lia. exact Hk.
  - intros [] m2 (p & -> & Hi & Hin & Hout). wp_simpl. rewrite length_zip in Hi.
    rewrite Hl, Nat.min_id in Hi. split_and!; [done..|]. split.
    + exact Hi.
    + simpl. unfold get_load_store_spec. by rewrite length_map.
    + intros k id Hz. simpl in Hz. unfold get_load_store_spec in Hz.
      apply elem_of_lookup_zip_with in Hz as (i & k' & id' & [= -> ->] & Hki & Hid).
      apply list_lookup_fmap_Some in Hid as (c & -> & Hc).
      assert ((k', c) ∈ zip keys chunks) as Hz by (apply elem_of_lookup_zip_with; by exists i, k', c).
      unfold view, cached. simpl. rewrite (Hin _ _ Hz). simpl.
      assert (ref_of (chunk_objs m1) c = -1) as Hr by (apply (al_new _ _ _ Hal), list_elem_of_lookup; by exists i).
      unfold chunk_of. simpl. destruct (chunk_at (chunk_objs m1) c); simpl in *; congruence.
    + intros k Hnk. apply (view_old _ _ m1 _ k (set_events_inv [] e m Hm) Hal). simpl. apply Hout.
      by rewrite fst_zip by lia.
    + by destruct (al_self _ _ _ Hal) as (? & ? & _).
Qed.

(** ** Eviction *)

Lemma count_idle (h : chunk_heap) (C : gmap bytes nat) :
  Z.of_nat (size (filter (fun kc => idle h kc.2) C)) = count_refs 0 h (cached_objs C).
Proof.
  induction C as [|k c C Hk IH] using map_ind; [done|].
  rewrite (count_refs_perm _ _ _ _ (cached_insert _ _ _ Hk)), count_refs_cons, <- IH.
  destruct (decide (idle h c)) as [Hi|Hi]; unfold idle in Hi.
  - rewrite map_filter_insert_True by done. rewrite map_size_insert_None, decide_True by
      (done || by apply map_lookup_filter_None_2; left). lia.
  - rewrite map_filter_insert_False, delete_id, decide_False by done. lia.
Qed.

Lemma eligible_count (h : chunk_heap) (C : gmap bytes nat) (prot : gset bytes) :
  Z.of_nat (size (eligible h C prot)) <= count_refs 0 h (cached_objs C).
Proof.
  rewrite <- count_idle. unfold eligible. rewrite size_dom. apply inj_le, map_subseteq_size.
  apply map_subseteq_spec. intros k c. rewrite !map_lookup_filter_Some. simpl. tauto.
Qed.

Lemma count_all (r : Z) (h : chunk_heap) (l : list nat) : (forall c, c ∈ l -> ref_of h c = r) -> count_refs r h l = zlen l.
Proof. intros Hl. unfold count_refs. by rewrite list_filter_id. Qed.
Lemma count_none (r : Z) (h : chunk_heap) (l : list nat) : (forall c, c ∈ l -> ref_of h c <> r) -> count_refs r h l = 0.
Proof.
  intros Hl. unfold count_refs. induction l as [|c l IH]; [done|]. rewrite filter_cons_False by (apply Hl; by left).
  apply IH. intros. apply Hl. by right.
Qed.

(** The policy's answer, with the counter lowered: the evicted objects are
    live and in no cache entry. *)
Lemma evicted_inv m p n prot l :
  mgr_inv [] m -> policy_ok (chunk_objs m) p -> evict_spec (chunk_objs m) (cached m) (contents p) n prot (Some l) ->
  mgr_inv l.*2 (add_counters (- zlen l) 0 (set_policy p m)).
Proof.
  intros [_ Ho He Hpd Hcn] Hp (Hl & Hnd & Hin & HC).
  assert (cached_objs (cached m) ≡ₚ l.*2 ++ cached_objs (contents p)) as Hc.
  { apply cached_drop; [done| |done]. intros k c Hkc. by apply Hin. }
  assert (forall c, c ∈ l.*2 -> ref_of (chunk_objs m) c = 0) as H0.
  { intros c ([k c'] & -> & Hkc)%list_elem_of_fmap. by destruct (Hin _ _ Hkc) as (_ & ? & _). }
  rewrite (count_refs_perm _ _ _ _ Hc), count_refs_app in He.
  rewrite (count_refs_perm _ _ _ _ Hc), count_refs_app in Hpd.
  rewrite count_all, length_fmap in He by done. rewrite count_none in Hpd by (intros c Hc'; rewrite H0; [lia|done]).
  split; unfold cached in *; simpl; [done| |lia|lia|done].
  eapply objs_perm; [done|]. rewrite app_nil_r, Hc. apply Permutation_app_comm.
Qed.

Lemma free_chunks_ok m (l : list (bytes * nat)) :
  mgr_inv l.*2 m -> wp (for_ l (fun e => free_chunk e.2)) (fun _ m' => exists fl,
    m' = set_pool (num_allocated_chunks m) (free_list m ++ fl) m /\ length fl = length l /\ mgr_inv [] m') m.
Proof.
  intros Hm. apply (wp_for _ _ (fun done todo m' => exists fl,
    m' = set_pool (num_allocated_chunks m) (free_list m ++ fl) m /\ length fl = length done /\ mgr_inv todo.*2 m'));
    [|intros done [k c] todo m1 _ (fl & -> & Hl & Hi)|done].
  - exists []. rewrite app_nil_r. by destruct m.
  - unfold free_chunk. wp_simpl. simpl. eexists (fl ++ [_]). split_and!.
    + unfold set_pool. simpl. by rewrite app_assoc.
    + rewrite !length_app. simpl. lia.
    + destruct Hi as [Hp Ho He Hpd Hcn]. split; try done. unfold cached in *. simpl in *.
      apply objs_release. eapply objs_perm; [done|]. symmetry. apply Permutation_middle.
Qed.

(** Making room: either enough buffers are free afterwards and what was
    evicted was idle and not offered, or too few chunks can be evicted and
    nothing changed. *)
Definition room_made m (keys to_store : list bytes) (r : option (list bytes)) m' : Prop :=
  mgr_inv [] m' /\ mgr_id m' = mgr_id m /\ cache_generation m' = cache_generation m /\
  match r with
  | None => (forall k, view m' k = view m k) /\
      Z.of_nat (size (eligible (chunk_objs m) (cached m) (list_to_set keys))) < zlen to_store - get_num_free_chunks m
  | Some ev => zlen to_store <= get_num_free_chunks m' /\ NoDup ev /\
      zlen ev = Z.max 0 (zlen to_store - get_num_free_chunks m) /\
      (forall k, k ∈ ev -> k ∉ keys /\ exists c, view m k = Some c /\ ref_cnt c = 0) /\
      (forall k, view m' k = if decide (k ∈ ev) then None else view m k)
  end.

Lemma make_room_ok m keys to_store :
  mgr_inv [] m -> wp (make_room keys to_store) (room_made m keys to_store) m.
Proof.
  intros Hm. unfold make_room. wp_simpl. set (n := zlen to_store - get_num_free_chunks m).
  destruct (n >? 0) eqn:En; bools; [destruct (n >? num_evictable_cache_chunks m) eqn:Ee; bools|]; wp_simpl.
  - split_and!; [done..|]. rewrite (inv_evictable _ _ Hm) in Ee.
    pose proof (eligible_count (chunk_objs m) (cached m) (list_to_set keys)). unfold n in Ee. lia.
  - eapply wp_mono; [apply law_evict; [apply Hm|done]|]. intros [l|] p [Hp Hs]; wp_simpl.
    + pose proof (evicted_inv m p n _ l Hm Hp Hs) as Hi. destruct Hs as (Hl & Hnd & Hin & HC). split.
      { apply Z.geb_le. rewrite (inv_evictable _ _ Hi). unfold count_refs. lia. }
      eapply wp_mono; [by apply free_chunks_ok|]. intros [] m1 (fl & -> & Hfl & Hi1). wp_simpl. simpl.
      split_and!; [done..| | | | |].
      * unfold get_num_free_chunks. simpl. rewrite length_app. unfold n, get_num_free_chunks in *. lia.
      * done.
      * rewrite length_fmap. unfold n in *. lia.
      * intros k ([k' c] & -> & Hkc)%list_elem_of_fmap. destruct (Hin _ _ Hkc) as (Hk & Hid & Hn).
        split; [set_solver|]. exists (chunk_at (chunk_objs m) c). unfold view, cached. simpl. by rewrite Hk.
      * intros k. unfold view, cached. simpl. rewrite HC. by destruct (decide _).
    + destruct Hs as [Hs Hn]. split_and!; [|done..| |done].
      * destruct Hm as [Hpol Ho He Hpd Hcn]. split; unfold cached in *; simpl in *; rewrite ?Hs; done.
      * intros k. unfold view, cached. simpl. by rewrite Hs.
  - split_and!; [done..|fold n; lia|constructor|fold n; simpl; lia|set_solver|done].
Qed.

(** ** The offer *)

(** The keys a store will be attempted for. *)
Definition to_store m (keys : list bytes) : list bytes :=
  match counts m with
  | None => missing_keys m keys
  | Some c => match count_offer (max_tracker_size m) c keys with
              | Ok c => filter (fun k => store_threshold m <= default 0 (od_get k c)) (missing_keys m keys)
              | Raise _ => []
              end
  end.

(** [m'] differs from [m] neither in chunks nor in reference counts. *)
Definition unchanged m m' : Prop := mgr_inv [] m' /\ same_chunks m m' /\ chunk_objs m' = chunk_objs m.

Lemma unchanged_view m m' k : unchanged m m' -> view m' k = view m k.
Proof. intros (_ & Hs & E). unfold view. by rewrite E, (same_cached _ _ Hs). Qed.
Lemma unchanged_free m m' : unchanged m m' -> get_num_free_chunks m' = get_num_free_chunks m.
Proof. intros (_ & [_ _ Hf [Ha Hn] _ _ _] & _). unfold get_num_free_chunks. congruence. Qed.
Lemma unchanged_trans m1 m2 m3 : unchanged m1 m2 -> unchanged m2 m3 -> unchanged m1 m3.
Proof. intros (? & ? & E) (? & ? & E'). split_and!; [done|by etrans|congruence]. Qed.
Lemma unchanged_open m m' r : unchanged m m' -> ctx_open m r -> ctx_open m' r.
Proof. intros (_ & Hs & _) Ho a. destruct (same_self _ _ Hs) as [-> ->]. apply Ho. Qed.

Lemma partition_offer_ok m keys :
  mgr_inv [] m -> wp (partition_offer keys) (fun p m' => p = (to_store m keys, ready_keys m keys) /\
    unchanged m m' /\ exists c s, m' = set_batch s (allocation_sizes_in_current_batch m) (set_counts c m)) m.
Proof.
  intros Hm. pose proof (inv_counts _ _ Hm) as Hc. unfold partition_offer, to_store. wp_simpl.
  destruct (counts m) as [c|] eqn:Ec.
  - unfold record_accesses. wp_simpl. rewrite Ec. wp_simpl.
    destruct (count_offer_split (max_tracker_size m) c keys Hc) as (d & o & hot & new & E & _ & _ & Hnd & _).
    eexists. split; [exact E|]. wp_simpl. simpl. wp_simpl. rewrite E. split_and!; [done| |by eexists _, _].
    split_and!; [|by split|done]. by destruct Hm; split.
  - wp_simpl. rewrite Ec. wp_simpl. unfold admitted. rewrite Ec. split_and!; [done|by split_and!; [|split|]|].
    exists (counts m), (stores_skipped_in_current_batch m). by destruct m.
Qed.

Lemma observe_offer_ok m r keys ks ready :
  mgr_inv [] m -> ctx_open m r -> (forall k, k ∈ ks -> cached m !! k = None) ->
  wp (observe_offer keys ks ready) (fun _ s => unchanged m s.1 /\ exists a, records s.1 a s.2) (m, r).
Proof.
  intros Hm Ho Hk. unfold observe_offer. wp_simpl. eapply wp_mono; [by apply get_access_ok|].
  intros a [m1 r1] [? Ha]; simpl in *; subst m1. wp_simpl.
  assert (forall s, unchanged m s.1 -> (exists a, records s.1 a s.2) ->
    wp (record_request_cache_access (filter (fun key => key ∈ ks ++ ready) keys) ready)
      (fun _ s => unchanged m s.1 /\ exists a, records s.1 a s.2) s) as Hrec.
  { intros [m1 r2] Hu [a1 Ha1]. eapply wp_mono; [apply record_access_ok; by eapply records_open|].
    intros [] [m2 r3] [? Hr]; simpl in *; subst m2. done. }
  destruct (filter _ ks) as [|x l] eqn:El; wp_simpl.
  - apply Hrec; [by split_and!|by eexists].
  - eapply wp_mono.
    + apply law_store_miss; [apply Hm|]. intros k Hin. apply Hk. rewrite <- El in Hin.
      by apply list_elem_of_filter in Hin as [_ ?].
    + intros [] p [Hp E]. wp_simpl. eapply wp_mono; [by apply (modify_access_ok (set_policy p m) a)|].
      intros [] [m2 r2] [E2 Hr2]; simpl in E2; subst m2. apply Hrec; [|by eexists].
      destruct Hm as [_ Hob He Hpd Hcn]. unfold cached in *.
      split_and!; [split|split|]; unfold cached in *; simpl; rewrite ?E; done.
Qed.

(** ** [prepare_store] *)

(** What a store offer does. *)
Definition store_result m (keys : list bytes) (o : option PrepareStoreOutput) m' : Prop :=
  match o with
  | None => (forall k, view m' k = view m k) /\
      Z.of_nat (size (eligible (chunk_objs m) (cached m) (list_to_set keys)))
        < zlen (to_store m keys) - get_num_free_chunks m
  | Some o => out_keys_to_store o = to_store m keys /\ length (store_spec o) = length (to_store m keys) /\
      (forall k id, (k, id) ∈ zip (to_store m keys) (store_spec o) -> view m' k = Some (mkChunk (-1) id)) /\
      NoDup (evicted_keys o) /\ zlen (evicted_keys o) = Z.max 0 (zlen (to_store m keys) - get_num_free_chunks m) /\
      (forall k, k ∈ evicted_keys o -> k ∉ keys /\ (exists c, view m k = Some c /\ ref_cnt c = 0) /\ view m' k = None) /\
      (forall k, k ∉ to_store m keys -> k ∉ evicted_keys o -> view m' k = view m k)
  end.

Lemma to_store_in m keys k : mgr_inv [] m -> k ∈ to_store m keys -> k ∈ keys /\ cached m !! k = None.
Proof.
  intros Hm Hk. assert (k ∈ missing_keys m keys) as Hin.
  { unfold to_store in Hk. destruct (counts m); [|done]. destruct (count_offer _ _ _); [|by apply not_elem_of_nil in Hk].
    by apply list_elem_of_filter in Hk as [_ ?]. }
  unfold missing_keys in Hin. apply list_elem_of_filter in Hin as [E ?]. by rewrite (get_cached [] m k Hm) in E.
Qed.
Lemma to_store_nodup m keys : NoDup keys -> NoDup (to_store m keys).
Proof.
  intros Hnd. assert (NoDup (missing_keys m keys)) by (by apply NoDup_filter). unfold to_store.
  destruct (counts m); [|done]. destruct (count_offer _ _ _); [by apply NoDup_filter|constructor].
Qed.

Lemma store_empty m keys m' :
  mgr_inv [] m -> unchanged m m' -> to_store m keys = [] -> store_result m keys (Some (mkOutput [] [] [])) m'.
Proof.
  intros Hm Hu E. unfold store_result. rewrite E. simpl.
  assert (0 <= get_num_free_chunks m).
  { destruct (objs_range _ _ _ _ _ _ (inv_objs _ _ Hm)). unfold get_num_free_chunks. lia. }
  split_and!; [done..|set_solver|constructor|lia|set_solver|]. intros. by apply unchanged_view.
Qed.

Lemma store_failed m keys m1 m2 :
  unchanged m m1 -> room_made m1 keys (to_store m keys) None m2 -> store_result m keys None m2.
Proof.
  intros Hu (_ & _ & _ & Hv & Hlt). split; [intros; by rewrite Hv, (unchanged_view m m1)|].
  rewrite (unchanged_free _ _ Hu) in Hlt. destruct Hu as (_ & Hs & E). by rewrite E, (same_cached _ _ Hs) in Hlt.
Qed.

Lemma store_done m keys m1 m2 m3 ev o :
  mgr_inv [] m -> unchanged m m1 -> room_made m1 keys (to_store m keys) (Some ev) m2 ->
  out_keys_to_store o = to_store m keys -> evicted_keys o = ev -> stored m2 (to_store m keys) (store_spec o) m3 ->
  store_result m keys (Some o) m3.
Proof.
  intros Hm Hu (_ & _ & _ & Hle & Hnd & Hlen & Hev & Hv) Eo Ev [Hm3 Hl Hnew Hold _]. unfold store_result.
  rewrite (unchanged_free _ _ Hu) in Hlen. rewrite Ev. split_and!; try done.
  - intros k Hk. destruct (Hev k Hk) as [Hnk Hc]. rewrite (unchanged_view m m1) in Hc by done.
    split_and!; [done..|]. rewrite Hold by (intros Hin; by destruct (to_store_in m keys k Hm Hin)). by rewrite Hv, decide_True.
  - intros k Hk Hne. rewrite Hold, Hv, decide_False by done. by apply unchanged_view.
Qed.

Lemma view_none m k : view m k = None <-> cached m !! k = None.
Proof. unfold view. by rewrite fmap_None. Qed.

Lemma prepare_store_ok m r keys :
  mgr_inv [] m -> ctx_open m r -> NoDup keys ->
  wp (prepare_store keys) (fun o s => mgr_inv [] s.1 /\ ctx_open s.1 s.2 /\ store_result m keys o s.1) (m, r).
Proof.
  intros Hm Ho Hnd. unfold prepare_store. wp_simpl. eapply wp_mono; [by apply partition_offer_ok|].
  intros [ks rd] m1 ([= -> ->] & Hu & _). cbv beta iota. wp_simpl. eapply wp_mono.
  { apply observe_offer_ok; [apply Hu|by eapply unchanged_open|]. intros k Hk.
    destruct Hu as (_ & Hs & _). rewrite (same_cached _ _ Hs). by eapply to_store_in. }
  intros [] [m2 r2] [Hu2 [a Ha]]; simpl in *. pose proof (unchanged_trans _ _ _ Hu Hu2) as Hum.
  destruct (to_store m keys) as [|k0 ks0] eqn:Ets; wp_simpl.
  { split_and!; [apply Hum|by eapply records_open|by apply store_empty]. }
  rewrite <- Ets. clear k0 ks0 Ets. cbn [fst snd]. set (m3 := set_batch _ _ m2).
  assert (unchanged m m3) as Hu3.
  { destruct Hum as (Hi & Hs & E). split_and!; [by apply set_batch_inv|by destruct Hs; split|done]. }
  assert (records m3 a r2) as Ha3 by exact Ha. clearbody m3. simpl.
  eapply wp_mono; [apply make_room_ok, Hu3|]. intros [ev|] m4 Hroom; wp_simpl.
  - pose proof Hroom as (Hm4 & Eid & Egen & Hle & _ & _ & Hev & Hv). eapply wp_mono.
    + apply store_chunks_ok; [done|by apply to_store_nodup| |done]. intros k Hk. apply view_none. rewrite Hv.
      destruct (decide _); [done|]. rewrite (unchanged_view m m3), view_none by done. by eapply to_store_in.
    + intros o m5 (Eo & Ee & Hst). wp_simpl. pose proof (st_self _ _ _ _ Hst) as [Eid5 Egen5].
      eapply wp_mono; [apply (modify_access_ok m5 a); [done| |done]|].
      { destruct Ha3 as (? & ? & ? & ?). simpl in *. split_and!; congruence. }
      intros [] [m6 r6] [E6 Ha6]; simpl in E6; subst m6. wp_simpl.
      split; [apply Hst|]. split; [by eapply records_open|by eapply store_done].
  - pose proof Hroom as (Hm4 & Eid & Egen & _). split; [done|]. split; [|by eapply store_failed].
    intros a'. simpl. rewrite Eid, Egen. by eapply records_open.
Qed.

(** ** [complete_store] *)

(** The end of a write: the chunk becomes readable, or goes. *)
Definition finish_write (success : bool) (c : ChunkStatus) : option ChunkStatus :=
  if is_ready c then Some c else if success then Some (mkChunk 0 (chunk_id c)) else None.
Definition pending m (k : bytes) : Prop := match view m k with Some c => is_ready c = false | None => False end.
#[export] Instance pending_dec m k : Decision (pending m k).
Proof. unfold pending. destruct (view m k); apply _. Defined.

Lemma finish_write_idem b c : finish_write b c ≫= finish_write b = finish_write b c.
Proof.
  unfold finish_write. destruct (is_ready c) eqn:E; simpl; [by rewrite E|]. by destruct b.
Qed.

(** [m'] is [m] with the writes under [keys] ended. *)
Definition writes_ended (success : bool) m (keys : list bytes) m' : Prop :=
  mgr_inv [] m' /\ events m' = events m /\ mgr_id m' = mgr_id m /\ cache_generation m' = cache_generation m /\
  forall k, view m' k = if decide (k ∈ keys) then view m k ≫= finish_write success else view m k.

Lemma writes_ended_nil b m : mgr_inv [] m -> writes_ended b m [] m.
Proof. intros. split_and!; done. Qed.

Lemma writes_ended_step b m m1 m2 done k :
  writes_ended b m done m1 -> writes_ended b m1 [k] m2 -> writes_ended b m (done ++ [k]) m2.
Proof.
  intros (H1 & E1 & I1 & G1 & V1) (H2 & E2 & I2 & G2 & V2). split_and!; [done|congruence..|]. intros k'.
  rewrite V2, V1. destruct (decide (k' ∈ [k])) as [Hk|Hk]; destruct (decide (k' ∈ done)) as [Hd|Hd].
  - rewrite decide_True by set_solver. destruct (view m k') as [c|]; [|done]. simpl. apply finish_write_idem.
  - rewrite decide_True by set_solver. done.
  - rewrite decide_True by set_solver. done.
  - rewrite decide_False by set_solver. done.
Qed.

Lemma writes_ended_ready b m k :
  mgr_inv [] m -> ~ pending m k -> writes_ended b m [k] m.
Proof.
  intros Hm Hp. split_and!; [done..|]. intros k'. destruct (decide (k' ∈ [k])) as [->%list_elem_of_singleton|]; [|done].
  unfold pending in Hp. destruct (view m k) as [c|]; [|done]. simpl. unfold finish_write. by destruct (is_ready c).
Qed.

Lemma pending_chunk m k c :
  mgr_inv [] m -> cached m !! k = Some c -> is_ready (chunk_of m c) = false -> ref_of (chunk_objs m) c = -1.
Proof.
  intros Hm Hk Hr. pose proof (inv_ref _ _ _ _ Hm Hk). unfold is_ready, chunk_of in Hr. bools. lia.
Qed.

Lemma complete_one_ok m acc k :
  mgr_inv [] m -> wp (complete_one acc k) (fun acc' m' => writes_ended true m [k] m' /\
    acc' = acc ++ if decide (pending m k) then [k] else []) m.
Proof.
  intros Hm. unfold complete_one. wp_simpl. rewrite (get_cached [] m k Hm).
  assert (forall c, cached m !! k = Some c -> pending m k <-> is_ready (chunk_of m c) = false) as Hp.
  { intros c Hc. unfold pending, view. by rewrite Hc. }
  destruct (cached m !! k) as [c|] eqn:Hk; [destruct (is_ready (chunk_of m c)) eqn:Hr|]; wp_simpl.
  - rewrite decide_False, app_nil_r by (rewrite Hp by done; congruence). split; [|done].
    apply writes_ended_ready; [done|]. rewrite Hp by done. congruence.
  - pose proof (pending_chunk m k c Hm Hk Hr) as Hc. rewrite decide_True by (by eapply Hp). eapply wp_mono.
    + simpl. apply (law_mark_evictable (chunk_objs m) (ref_set c 0 (chunk_objs m)) _ k c);
        [apply Hm|done|unfold idle; lia| |].
      * unfold idle. by rewrite ref_set_ref, decide_True.
      * intros k' c' Hne Hk'. by eapply ref_set_idle.
    + intros [] p [Hpo E]. wp_simpl. split; [|done].
      pose proof (with_ref_ok m k c 0 p Hm Hk (ltac:(lia)) Hpo E) as Hok. rewrite (with_ref_eq _ _ _ _ 1 (-1)) in Hok by bits.
      pose proof Hok as (Hi & Hs & Hrf).
      split_and!; [exact Hi|exact (same_events _ _ Hs)|apply (same_self _ _ Hs)..|].
      intros k'. etrans; [exact (ref_changed_view m k c 0 _ k' Hm Hk Hok)|]. destruct (decide (k' = k)) as [->|].
      * rewrite decide_True by set_solver. unfold view. rewrite Hk. simpl. unfold finish_write.
        unfold chunk_of in Hr. by rewrite Hr.
      * rewrite decide_False by set_solver. done.
  - assert (~ pending m k) as Hn by (unfold pending, view; rewrite Hk; tauto).
    rewrite decide_False, app_nil_r by done. split; [by apply writes_ended_ready|done].
Qed.

Lemma abandon_one_ok m k :
  mgr_inv [] m -> wp (abandon_one k) (fun _ m' => writes_ended false m [k] m') m.
Proof.
  intros Hm. unfold abandon_one. wp_simpl. rewrite (get_cached [] m k Hm).
  destruct (cached m !! k) as [c|] eqn:Hk; [destruct (is_ready (chunk_of m c)) eqn:Hr|]; wp_simpl.
  - apply writes_ended_ready; [done|]. unfold pending, view. rewrite Hk. simpl. unfold chunk_of in Hr. congruence.
  - pose proof (pending_chunk m k c Hm Hk Hr) as Hc. eapply wp_mono; [simpl; by eapply law_remove; [apply Hm|]|].
    intros [] p [Hpo E]. unfold free_chunk. wp_simpl. destruct Hm as [_ Ho He Hpd Hcn].
    assert (cached_objs (cached m) ≡ₚ c :: cached_objs (contents p)) as Hp by (rewrite E; by apply cached_delete).
    rewrite (count_refs_perm _ _ _ _ Hp), count_refs_cons, Hc in He. rewrite (count_refs_perm _ _ _ _ Hp), count_refs_cons, Hc in Hpd.
    simpl in He, Hpd. split_and!; [split|done..|]; unfold cached in *; simpl; [done| |lia|lia|done|].
    + apply objs_release. eapply objs_perm; [done|]. by rewrite Hp.
    + intros k'. unfold view, cached. simpl. rewrite E. destruct (decide (k' ∈ [k])) as [->%list_elem_of_singleton|Hne].
      * rewrite lookup_delete_eq, Hk. simpl. unfold finish_write. unfold chunk_of in Hr. by rewrite Hr.
      * rewrite lookup_delete_ne by set_solver. done.
  - apply writes_ended_ready; [done|]. unfold pending, view. rewrite Hk. tauto.
Qed.

Lemma complete_store_ok m keys success :
  mgr_inv [] m -> NoDup keys ->
  wp (complete_store keys success) (fun _ m' => exists m1, writes_ended success m keys m1 /\
    m' = emit (if success then filter (pending m) keys else []) false m1) m.
Proof.
  intros Hm Hnd. unfold complete_store. destruct success; wp_simpl.
  - apply (wp_fold _ _ _ (fun done _ acc m1 => writes_ended true m done m1 /\ acc = filter (pending m) done)).
    + split; [by apply writes_ended_nil|done].
    + intros done k todo acc m1 E [Hw ->]. eapply wp_mono; [apply complete_one_ok, Hw|].
      intros acc' m2 [Hw2 ->]. split; [by eapply writes_ended_step|]. rewrite filter_app. f_equal.
      assert (view m1 k = view m k) as Ev.
      { destruct Hw as (_ & _ & _ & _ & ->). rewrite decide_False; [done|]. rewrite E in Hnd.
        apply NoDup_app in Hnd as (_ & Hd & _). intros Hin. apply (Hd k Hin). by left. }
      destruct (decide (pending m k)) as [Hp|Hp].
      * rewrite filter_cons_True, decide_True by (done || unfold pending in *; by rewrite Ev). done.
      * rewrite filter_cons_False, decide_False by (done || unfold pending in *; by rewrite Ev). done.
    + intros acc m1 [Hw ->]. wp_simpl. by exists m1.
  - apply (wp_for _ _ (fun done _ m1 => writes_ended false m done m1)); [by apply writes_ended_nil| |].
    + intros done k todo m1 E Hw. eapply wp_mono; [apply abandon_one_ok, Hw|]. intros [] m2 Hw2. by eapply writes_ended_step.
    + intros m1 Hw. exists m1. done.
Qed.
End stores.
