(* ===== verification/OffloadReach.v ===== *)
(** Guarantees of the CPU offloading manager in every state its callers can
    reach: calls in contract return, buffers and counters are exact, stores and
    loads round-trip, and chunks being read are not evicted. *)
From Stdlib Require Import ZArith QArith Lia.
From stdpp Require Import base numbers list gmap sets.
From S2P Require Import Prelude OrderedDict BlockHash OffloadPolicy LruPolicy OffloadManager OffloadTracker.
From S2P Require Import OffloadSafety OffloadStore.
Open Scope Z_scope.

Section reach.
Context {P : Type} `{HP : CachePolicy P} `{HL : !CachePolicyLaws P}.
Abbreviation Mgr := (CPUOffloadingManager P).
Implicit Types m : Mgr.

(** ** The remaining operations *)

Lemma set_policy_unchanged m p :
  mgr_inv [] m -> policy_ok (chunk_objs m) p -> contents p = cached m -> unchanged m (set_policy p m).
Proof.
  intros [_ Ho He Hpd Hcn] Hp E. unfold cached in *.
  split_and!; [split|split|]; unfold cached; simpl; rewrite ?E; done.
Qed.

Lemma mgr_touch_ok m keys : mgr_inv [] m -> wp (touch keys) (fun _ m' => unchanged m m') m.
Proof.
  intros Hm. unfold touch. wp_simpl. eapply wp_mono; [apply law_touch, Hm|].
  intros [] p [Hp E]. by apply set_policy_unchanged.
Qed.

Lemma on_request_finished_ok m r :
  mgr_inv [] m -> wp on_request_finished (fun _ s => unchanged m s.1) (m, r).
Proof.
  intros Hm. assert (unchanged m m) as Hu by (by split_and!). unfold on_request_finished. wp_simpl. simpl.
  destruct (access_state r) as [a|]; [|done]. destruct (_ || _)%bool; wp_simpl; [done|].
  eapply wp_mono; [apply law_finished, Hm|]. intros [] p [Hp E]. by apply set_policy_unchanged.
Qed.

Lemma mgr_reset_ok m : mgr_inv [] m -> wp reset_cache (fun _ m' => mgr_inv [] m' /\ cached m' = ∅) m.
Proof.
  intros Hm. unfold reset_cache. wp_simpl. eapply wp_mono; [apply law_clear, Hm|]. intros [] p [Hp E]. wp_simpl.
  unfold cached; simpl. split; [|done]. destruct (objs_range _ _ _ _ _ _ (inv_objs _ _ Hm)).
  split; unfold cached; simpl; rewrite ?E; [done| |done|done|apply Hm].
  split; [constructor|set_solver..|done|lia].
Qed.

Lemma take_events_ok m : mgr_inv [] m -> wp take_events (fun _ m' => mgr_inv [] m') m.
Proof.
  intros Hm. unfold take_events. wp_simpl. destruct (events m); wp_simpl; [by apply set_events_inv|done].
Qed.

Lemma get_stats_ok round m : mgr_inv [] m -> wp (get_stats round) (fun _ m' => mgr_inv [] m') m.
Proof.
  intros Hm. unfold get_stats. wp_simpl. destruct (_ >=? _); wp_simpl; by repeat apply set_batch_inv.
Qed.

Lemma on_new_request_ok m r : mgr_inv [] m -> wp on_new_request (fun _ s => mgr_inv [] s.1) (m, r).
Proof.
  intros Hm. unfold on_new_request, get_request_cache_access. wp_simpl. simpl.
  destruct (access_state r); [destruct (_ && _)%bool|]; by wp_simpl.
Qed.

Lemma mgr_init_ok id chunks ev thr size :
  0 <= chunks <= 2 ^ 63 -> mgr_inv [] (init id chunks ev thr size : Mgr).
Proof.
  intros Hc. destruct (law_new ∅ chunks) as [Hp E]; [lia|]. unfold init.
  split; unfold cached; simpl; rewrite ?E; [done| |done|done|].
  - split; [constructor|set_solver..|done|lia].
  - destruct (thr >=? 2); [constructor|done].
Qed.

(** * Calls *)

(** The calls that change a manager. *)
Inductive op :=
| OpNewRequest
| OpPrepareLoad (keys : list bytes)
| OpCompleteLoad (keys : list bytes)
| OpPrepareStore (keys : list bytes)
| OpCompleteStore (keys : list bytes) (success : bool)
| OpTouch (keys : list bytes)
| OpRequestFinished
| OpResetCache
| OpTakeEvents
| OpGetStats (round : Q -> Q).

Definition run_op (o : op) : M (Mgr * ReqContext) unit :=
  match o with
  | OpNewRequest => on_new_request
  | OpPrepareLoad keys => prepare_load keys ;; ret tt
  | OpCompleteLoad keys => on_mgr (complete_load keys)
  | OpPrepareStore keys => prepare_store keys ;; ret tt
  | OpCompleteStore keys success => on_mgr (complete_store keys success)
  | OpTouch keys => on_mgr (touch keys)
  | OpRequestFinished => on_request_finished
  | OpResetCache => on_mgr reset_cache
  | OpTakeEvents => on_mgr take_events ;; ret tt
  | OpGetStats round => on_mgr (get_stats round) ;; ret tt
  end.

(** What the manager holds for a key. *)
Definition chunk_for m (k : bytes) : option ChunkStatus := chunk_of m <$> policy_get k (policy m).

(** The contract of a call: loads are of ready chunks, with the counts within
    [c_int32], completions match loads, offers do not repeat a key. *)
Definition can_load m (keys : list bytes) : Prop :=
  forall k, k ∈ keys -> exists c, chunk_for m k = Some c /\ 0 <= ref_cnt c /\ ref_cnt c + times k keys < 2 ^ 31.
Definition op_ok m (o : op) : Prop :=
  match o with
  | OpPrepareLoad keys => can_load m keys
  | OpCompleteLoad keys =>
      forall k, k ∈ keys -> exists c, chunk_for m k = Some c /\ times k keys <= ref_cnt c
  | OpPrepareStore keys | OpCompleteStore keys _ => NoDup keys
  | _ => True
  end.

(** The states callers reach, from contexts whose record is not finished. *)
Inductive reachable : Mgr -> Prop :=
| reach_init id chunks ev thr size : 0 <= chunks <= 2 ^ 63 -> reachable (init id chunks ev thr size)
| reach_step m r o m' r' : reachable m -> ctx_open m r -> op_ok m o ->
    run_op o (m, r) = (Ok tt, (m', r')) -> reachable m'.

Lemma chunk_for_view out m k : mgr_inv out m -> chunk_for m k = view m k.
Proof. intros Hm. unfold chunk_for, view. by rewrite (get_cached out m k Hm). Qed.

Lemma view_cached m k c : view m k = Some c -> exists x, cached m !! k = Some x /\ chunk_at (chunk_objs m) x = c.
Proof. unfold view. intros (x & ? & ?)%fmap_Some. by exists x. Qed.

Lemma can_load_loadable m keys : mgr_inv [] m -> can_load m keys -> loadable m keys.
Proof.
  intros Hm Hl k Hk. destruct (Hl k Hk) as (c & Hc & ?). rewrite (chunk_for_view [] m k Hm) in Hc.
  apply view_cached in Hc as (x & ? & <-). by exists x.
Qed.

Lemma mgr_run_ok m r o :
  mgr_inv [] m -> ctx_open m r -> op_ok m o -> wp (run_op o) (fun _ s => mgr_inv [] s.1) (m, r).
Proof.
  intros Hm Ho Hok. destruct o as [|keys|keys|keys|keys b|keys| | | |rnd]; simpl in *; wp_simpl; simpl.
  - by apply on_new_request_ok.
  - eapply wp_mono; [by apply prepare_load_ok, can_load_loadable|]. by intros spec s [[? _] _].
  - eapply wp_mono; [apply unpin_chunks_ok; [done|]|by intros [] m' [? _]].
    intros k Hk. destruct (Hok k Hk) as (c & Hc & ?). rewrite (chunk_for_view [] m k Hm) in Hc.
    apply view_cached in Hc as (x & ? & <-). by exists x.
  - eapply wp_mono; [by apply prepare_store_ok|]. by intros out s [? _].
  - eapply wp_mono; [by apply complete_store_ok|]. intros [] m' (m1 & [? _] & ->).
    by apply emit_inv.
  - eapply wp_mono; [by apply mgr_touch_ok|]. by intros [] m' [? _].
  - eapply wp_mono; [by apply on_request_finished_ok|]. by intros [] m' [? _].
  - eapply wp_mono; [by apply mgr_reset_ok|]. by intros [] m' [? _].
  - eapply wp_mono; [by apply take_events_ok|]. done.
  - eapply wp_mono; [by apply get_stats_ok|]. done.
Qed.

Lemma mgr_reachable_inv m : reachable m -> mgr_inv [] m.
Proof.
  induction 1 as [id chunks ev thr size Hc|m r o m' r' _ IH Hctx Hok E]; [by apply mgr_init_ok|].
  pose proof (mgr_run_ok m r o IH Hctx Hok) as Hw. unfold wp in Hw. by rewrite E in Hw.
Qed.

(** * Guarantees *)

Definition cached_chunks m : list ChunkStatus := map (chunk_at (chunk_objs m)) (map_to_list (contents (policy m))).*2.

(** The allocated buffers are the free ones and those of the cached chunks,
    each once; the counters count the idle and the pending chunks. *)
Definition accounting m : Prop :=
  map chunk_id (cached_chunks m) ++ free_list m ≡ₚ seqZ 0 (num_allocated_chunks m) /\
  0 <= num_allocated_chunks m <= num_chunks m /\
  (forall c, c ∈ cached_chunks m -> -1 <= ref_cnt c < 2 ^ 31) /\
  num_evictable_cache_chunks m = zlen (filter (fun c => ref_cnt c = 0) (cached_chunks m)) /\
  num_write_pending_chunks m = zlen (filter (fun c => ref_cnt c = -1) (cached_chunks m)).

Lemma count_chunks r h (l : list nat) :
  zlen (filter (fun c => ref_cnt c = r) (map (chunk_at h) l)) = count_refs r h l.
Proof.
  induction l as [|c l IH]; [done|]. rewrite count_refs_cons. simpl. destruct (decide (ref_of h c = r)).
  - rewrite filter_cons_True by done. simpl. lia.
  - rewrite filter_cons_False by done. lia.
Qed.

Lemma inv_accounting m : mgr_inv [] m -> accounting m.
Proof.
  intros [_ [_ _ Hr Hids [Hrg _]] He Hpd _]. unfold cached in *. rewrite app_nil_r in *. unfold accounting, cached_chunks.
  rewrite map_map. split_and!; [done|lia..| | |].
  - intros c (x & -> & Hx)%list_elem_of_fmap. by apply Hr.
  - by rewrite count_chunks.
  - by rewrite count_chunks.
Qed.

(** C22: the CPU offloading manager is safe over every policy that satisfies
    the interface's laws. In every reachable state the allocated chunk buffers
    are exactly the free ones and those of the cached chunks, no buffer twice
    (none is lost and no two chunks share one), reference counts stay in
    range, the counters of evictable and write-pending chunks are exact, and
    every call within its contract returns (no assertion fails) in a state
    that is again reachable. *)
Theorem manager_safe m :
  reachable m ->
  accounting m /\
  forall r o, ctx_open m r -> op_ok m o -> exists m' r', run_op o (m, r) = (Ok tt, (m', r')) /\ reachable m'.
Proof.
  intros Hr. pose proof (mgr_reachable_inv m Hr) as Hm. split; [by apply inv_accounting|]. intros r o Ho Hok.
  pose proof (mgr_run_ok m r o Hm Ho Hok) as Hw. apply wp_run in Hw as ([] & [m' r'] & E & _).
  exists m', r'. split; [done|]. by eapply reach_step.
Qed.

(** C31: storing. Offering distinct keys always returns. The keys to store are
    those neither cached nor below the admission threshold. Either nothing is
    returned, no chunk changed, and there were fewer evictable chunks that are
    idle and not offered than buffers missing; or every key to store is cached
    as being written in the buffer the result names, exactly as many chunks as
    buffers were missing were evicted, all idle and none of them offered, and
    every other chunk is as it was. *)
Theorem prepare_store_exact m r keys :
  reachable m -> ctx_open m r -> NoDup keys ->
  exists o m' r', prepare_store keys (m, r) = (Ok o, (m', r')) /\
  match o with
  | None => (forall k, chunk_for m' k = chunk_for m k) /\
      Z.of_nat (size (eligible (chunk_objs m) (contents (policy m)) (list_to_set keys)))
        < zlen (to_store m keys) - get_num_free_chunks m
  | Some o => out_keys_to_store o = to_store m keys /\ length (store_spec o) = length (to_store m keys) /\
      (forall k id, (k, id) ∈ zip (to_store m keys) (store_spec o) -> chunk_for m' k = Some (mkChunk (-1) id)) /\
      NoDup (evicted_keys o) /\ zlen (evicted_keys o) = Z.max 0 (zlen (to_store m keys) - get_num_free_chunks m) /\
      (forall k, k ∈ evicted_keys o -> k ∉ keys /\
         (exists c, chunk_for m k = Some c /\ ref_cnt c = 0) /\ chunk_for m' k = None) /\
      (forall k, k ∉ to_store m keys -> k ∉ evicted_keys o -> chunk_for m' k = chunk_for m k)
  end.
Proof.
  intros Hr Ho Hnd. pose proof (mgr_reachable_inv m Hr) as Hm. pose proof (prepare_store_ok m r keys Hm Ho Hnd) as Hw.
  apply wp_run in Hw as (o & [m' r'] & E & Hm' & _ & Hres). exists o, m', r'. split; [done|].
  assert (forall k, chunk_for m k = view m k) as Ev by (intros; by eapply chunk_for_view).
  assert (forall k, chunk_for m' k = view m' k) as Ev' by (intros; by eapply chunk_for_view).
  unfold store_result in Hres. destruct o; setoid_rewrite Ev'; setoid_rewrite Ev; exact Hres.
Qed.

Lemma lookup_view m k :
  mgr_inv [] m -> lookup k m = match view m k with
                               | None => MISS
                               | Some c => if is_ready c then HIT else HIT_PENDING
                               end.
Proof.
  intros Hm. unfold lookup, view. rewrite (get_cached [] m k Hm). destruct (cached m !! k); [|done]. simpl.
  unfold chunk_of. by destruct (is_ready _).
Qed.

Lemma zip_second {A B} (l : list A) (l' : list B) x :
  length l' = length l -> x ∈ l -> exists y, (x, y) ∈ zip l l'.
Proof.
  intros Hl [i Hi]%list_elem_of_lookup. assert (is_Some (l' !! i)) as [y Hy].
  { apply lookup_lt_is_Some. rewrite Hl. by eapply lookup_lt_Some. }
  exists y. apply elem_of_lookup_zip_with. by exists i, x, y.
Qed.

Lemma times_nodup k keys : NoDup keys -> times k keys <= 1.
Proof.
  induction 1 as [|x l Hx Hnd IH]; [by vm_compute|]. unfold times in *. destruct (decide (x = k)) as [->|].
  - rewrite filter_cons_True by done. pose proof (times_absent k l Hx). unfold times in *. simpl. lia.
  - by rewrite filter_cons_False.
Qed.

(** Ending the writes of a store. *)
Lemma complete_stored m r keys o m1 r1 success :
  mgr_inv [] m -> ctx_open m r -> NoDup keys -> prepare_store keys (m, r) = (Ok (Some o), (m1, r1)) ->
  exists m2, complete_store (out_keys_to_store o) success m1 = (Ok tt, m2) /\ mgr_inv [] m2 /\ ctx_open m2 r1 /\
    forall k, view m2 k = if decide (k ∈ out_keys_to_store o) then view m1 k ≫= finish_write success else view m1 k.
Proof.
  intros Hm Ho Hnd E. pose proof (prepare_store_ok m r keys Hm Ho Hnd) as Hw. unfold wp in Hw. rewrite E in Hw.
  destruct Hw as (Hm1 & Ho1 & Hres). destruct Hres as (Ek & _). simpl in *.
  assert (NoDup (out_keys_to_store o)) as Hno by (rewrite Ek; by apply to_store_nodup).
  pose proof (complete_store_ok m1 _ success Hm1 Hno) as Hw.
  apply wp_run in Hw as ([] & m2 & E2 & m' & (Hi & _ & Eid & Eg & Hv) & ->).
  eexists. split; [exact E2|]. destruct (emit_eq (if success then filter (pending m1) (out_keys_to_store o) else []) false m')
    as [e ->]. split_and!; [by apply set_events_inv| |exact Hv].
  intros a. simpl. rewrite Eid, Eg. apply Ho1.
Qed.

Lemma zip_map {A B} (f : A -> option B) (l : list A) (l' : list B) :
  length l' = length l -> (forall x y, (x, y) ∈ zip l l' -> f x = Some y) -> map f l = map Some l'.
Proof.
  revert l'. induction l as [|x l IH]; intros [|y l'] Hl Hf; try done. simpl in *.
  rewrite (Hf x y) by (by left). f_equal. apply IH; [lia|]. intros. apply Hf. by right.
Qed.

(** Loading distinct chunks that are ready and unused. *)
Lemma load_stored m r keys spec :
  mgr_inv [] m -> ctx_open m r -> NoDup keys -> length spec = length keys ->
  (forall k id, (k, id) ∈ zip keys spec -> view m k = Some (mkChunk 0 id)) ->
  exists m' r', prepare_load keys (m, r) = (Ok spec, (m', r')).
Proof.
  intros Hm Ho Hnd Hl Hv. assert (loadable m keys) as Hld.
  { intros k Hk. destruct (zip_second keys spec k Hl Hk) as [id (c & Hc & E)%Hv%view_cached]. exists c. rewrite E. simpl.
    pose proof (times_nodup k keys Hnd). split_and!; [done|lia..]. }
  pose proof (prepare_load_ok m r keys Hm Ho Hld) as Hw. apply wp_run in Hw as (spec' & [m' r'] & E & _ & _ & Es).
  exists m', r'. rewrite E. do 2 f_equal. apply (inj (fmap (M := list) (Some (A := Z)))). etrans; [exact Es|].
  apply zip_map; [done|]. intros k id (c & Hc & Ec)%Hv%view_cached. rewrite Hc. simpl. by rewrite Ec.
Qed.

(** C25: a store round-trips. After a successful offer the stored keys are
    found but pending. If the transfer completes successfully they are hits,
    and preparing to load them returns exactly the buffers the store named; if
    it fails they are misses and the cache is as it was before the offer, less
    the evicted chunks. *)
Theorem store_roundtrip m r keys o m1 r1 :
  reachable m -> ctx_open m r -> NoDup keys -> prepare_store keys (m, r) = (Ok (Some o), (m1, r1)) ->
  (forall k, k ∈ out_keys_to_store o -> lookup k m1 = HIT_PENDING) /\
  (exists m2, complete_store (out_keys_to_store o) true m1 = (Ok tt, m2) /\
     (forall k, k ∈ out_keys_to_store o -> lookup k m2 = HIT) /\
     exists m3 r3, prepare_load (out_keys_to_store o) (m2, r1) = (Ok (store_spec o), (m3, r3))) /\
  (exists m2, complete_store (out_keys_to_store o) false m1 = (Ok tt, m2) /\
     (forall k, k ∈ out_keys_to_store o -> lookup k m2 = MISS) /\
     forall k, chunk_for m2 k = if decide (k ∈ evicted_keys o) then None else chunk_for m k).
Proof.
  intros Hr Ho Hnd E. pose proof (mgr_reachable_inv m Hr) as Hm.
  pose proof (prepare_store_ok m r keys Hm Ho Hnd) as Hw. unfold wp in Hw. rewrite E in Hw.
  destruct Hw as (Hm1 & Ho1 & Ek & Hl & Hnew & _ & _ & Hev & Hold). simpl in *.
  pose proof (to_store_nodup m keys Hnd) as Hns. rewrite Ek.
  assert (forall k, k ∈ to_store m keys -> exists id, view m1 k = Some (mkChunk (-1) id)) as Hpend.
  { intros k Hk. destruct (zip_second _ (store_spec o) k Hl Hk) as [id Hz]. exists id. by apply Hnew. }
  destruct (complete_stored m r keys o m1 r1 true Hm Ho Hnd E) as (m2 & E2 & Hm2 & Ho2 & V2).
  destruct (complete_stored m r keys o m1 r1 false Hm Ho Hnd E) as (m3 & E3 & Hm3 & _ & V3). rewrite Ek in *.
  split_and!.
  - intros k Hk. rewrite lookup_view by done. by destruct (Hpend k Hk) as [id ->].
  - exists m2. split_and!; [done| |].
    + intros k Hk. rewrite lookup_view, V2, decide_True by done. by destruct (Hpend k Hk) as [id ->].
    + apply load_stored; try done. intros k id Hz. rewrite V2, decide_True by (by eapply elem_of_zip_l).
      by rewrite (Hnew k id Hz).
  - exists m3. split_and!; [done| |].
    + intros k Hk. rewrite lookup_view, V3, decide_True by done. by destruct (Hpend k Hk) as [id ->].
    + intros k. rewrite !(chunk_for_view []), V3 by done. destruct (decide (k ∈ to_store m keys)) as [Hk|Hk].
      * destruct (Hpend k Hk) as [id ->]. simpl. destruct (to_store_in m keys k Hm Hk) as [Hin Hc%view_none].
        rewrite Hc. by destruct (decide _).
      * destruct (decide (k ∈ evicted_keys o)) as [He|He]; [by destruct (Hev k He) as (_ & _ & ?)|by apply Hold].
Qed.

Lemma shifted_view m d keys m' k :
  shifted m d keys m' -> view m' k = (fun c => mkChunk (ref_cnt c + d * times k keys) (chunk_id c)) <$> view m k.
Proof.
  intros (_ & Hs & Hr). unfold view. rewrite (same_cached _ _ Hs). destruct (cached m !! k) as [c|] eqn:E; [|done]. simpl.
  rewrite <- (Hr k c E), <- (same_ids _ _ Hs). by destruct (chunk_at _ c).
Qed.

(** A store offer leaves chunks in use alone. *)
Lemma store_keeps m offer o m' k c :
  mgr_inv [] m -> store_result m offer o m' -> view m k = Some c /\ ref_cnt c <> 0 -> view m' k = view m k.
Proof.
  intros Hm Hres [Hc Hr]. destruct o as [o|]; [|apply Hres]. destruct Hres as (_ & _ & _ & _ & _ & Hev & Hold).
  apply Hold.
  - intros Hin. destruct (to_store_in m offer k Hm Hin) as [_ Hn%view_none]. congruence.
  - intros Hin. destruct (Hev k Hin) as (_ & (c' & Hc' & ?) & _). congruence.
Qed.

Lemma loaded_pinned m keys m1 :
  mgr_inv [] m -> can_load m keys -> shifted m 1 keys m1 ->
  forall k, k ∈ keys -> exists c, view m1 k = Some c /\ 0 < times k keys <= ref_cnt c.
Proof.
  intros Hm Hl Hs k Hk. destruct (Hl k Hk) as (c & Hc & H0 & _). rewrite (chunk_for_view [] m k Hm) in Hc.
  rewrite (shifted_view _ _ _ _ _ Hs), Hc. eexists. split; [reflexivity|]. simpl.
  apply list_elem_of_split in Hk as (l1 & l2 & ->). pose proof (times_room k l1 k l2 eq_refl). lia.
Qed.

(** Calls that leave a load of [keys] alone: the cache is not reset, and loads
    that complete meanwhile take back counts of their own. *)
Definition leaves_load (keys : list bytes) m (o : op) : Prop :=
  match o with
  | OpCompleteLoad ks =>
      forall k c, k ∈ ks -> k ∈ keys -> chunk_for m k = Some c -> times k ks + times k keys <= ref_cnt c
  | OpResetCache => False
  | _ => True
  end.

(** The calls made while [keys] are being loaded, by any requests. *)
Inductive while_loading (keys : list bytes) : Mgr -> Mgr -> Prop :=
| loading_done m : while_loading keys m m
| loading_step m r o m1 r1 m2 : ctx_open m r -> op_ok m o -> leaves_load keys m o ->
    run_op o (m, r) = (Ok tt, (m1, r1)) -> while_loading keys m1 m2 -> while_loading keys m m2.

(** The chunk under [k] is read by a load of [keys] from buffer [id]. *)
Definition pinned_at (keys : list bytes) (k : bytes) (id : Z) m : Prop :=
  exists c, view m k = Some c /\ chunk_id c = id /\ times k keys <= ref_cnt c.

Lemma pinned_view keys k id m m' : view m' k = view m k -> pinned_at keys k id m -> pinned_at keys k id m'.
Proof. unfold pinned_at. by intros ->. Qed.

Lemma times_in k (keys : list bytes) : k ∈ keys -> 0 < times k keys.
Proof. intros (l1 & l2 & ->)%list_elem_of_split. pose proof (times_room k l1 k l2 eq_refl). lia. Qed.

Lemma times_nonneg k (keys : list bytes) : 0 <= times k keys.
Proof. unfold times. lia. Qed.

Lemma run_op_pinned keys k id m r o :
  mgr_inv [] m -> ctx_open m r -> op_ok m o -> leaves_load keys m o -> k ∈ keys -> pinned_at keys k id m ->
  wp (run_op o) (fun _ s => pinned_at keys k id s.1) (m, r).
Proof.
  intros Hm Ho Hok Hlv Hk Hp. pose proof Hp as (c & Hc & Hid & Hrc). pose proof (times_in k keys Hk) as Ht.
  destruct o as [|ks|ks|ks|ks b|ks| | | |rnd]; simpl in *; wp_simpl; simpl.
  - unfold on_new_request, get_request_cache_access. wp_simpl. simpl.
    destruct (access_state r); [destruct (_ && _)%bool|]; by wp_simpl.
  - eapply wp_mono; [by apply prepare_load_ok, can_load_loadable|]. intros spec [m1 r1] [Hs _]. wp_simpl. simpl in *. unfold pinned_at.
    rewrite (shifted_view _ _ _ _ _ Hs), Hc. simpl. eexists. split; [done|]. simpl.
    pose proof (times_nonneg k ks). split; [done|lia].
  - eapply wp_mono; [apply unpin_chunks_ok; [done|]|].
    { intros j Hj. destruct (Hok j Hj) as (x & Hx & ?). rewrite (chunk_for_view [] m j Hm) in Hx.
      apply view_cached in Hx as (y & ? & <-). by exists y. }
    intros [] m' Hs. unfold pinned_at. rewrite (shifted_view _ _ _ _ _ Hs), Hc. simpl. eexists. split; [done|]. simpl.
    split; [done|]. destruct (decide (k ∈ ks)) as [Hin|Hin]; [|pose proof (times_absent k ks Hin); lia].
    specialize (Hlv k c Hin Hk). rewrite (chunk_for_view [] m k Hm) in Hlv. specialize (Hlv Hc). lia.
  - eapply wp_mono; [by apply prepare_store_ok|]. intros out s (_ & _ & Hres). wp_simpl.
    eapply pinned_view; [|exact Hp]. eapply (store_keeps m); [done..|]. split; [done|lia].
  - eapply wp_mono; [by apply complete_store_ok|]. intros [] m' (m1 & (_ & _ & _ & _ & Hv) & ->).
    destruct (emit_eq (if b then filter (pending m) ks else []) false m1) as [e ->].
    eapply pinned_view; [|exact Hp]. change (view m1 k = view m k). rewrite Hv, Hc. destruct (decide _); [|done]. simpl.
    unfold finish_write, is_ready. by rewrite (proj2 (Z.geb_le _ _)) by lia.
  - eapply wp_mono; [by apply mgr_touch_ok|]. intros [] m' Hu. by eapply pinned_view; [apply unchanged_view, Hu|].
  - eapply wp_mono; [by apply on_request_finished_ok|]. intros [] s Hu. by eapply pinned_view; [apply unchanged_view, Hu|].
  - done.
  - unfold take_events. wp_simpl. by destruct (events m); wp_simpl.
  - unfold get_stats. wp_simpl. by destruct (_ >=? _); wp_simpl.
Qed.

Lemma while_loading_pinned keys m m' :
  while_loading keys m m' -> mgr_inv [] m ->
  mgr_inv [] m' /\ forall k id, k ∈ keys -> pinned_at keys k id m -> pinned_at keys k id m'.
Proof.
  induction 1 as [m|m r o m1 r1 m2 Ho Hok Hlv E _ IH]; intros Hm; [done|].
  pose proof (mgr_run_ok m r o Hm Ho Hok) as Hw. unfold wp in Hw. rewrite E in Hw. destruct (IH Hw) as [Hm2 Hp].
  split; [done|]. intros k id Hk Hpin. apply Hp; [done|].
  pose proof (run_op_pinned keys k id m r o Hm Ho Hok Hlv Hk Hpin) as Hw1. unfold wp in Hw1. by rewrite E in Hw1.
Qed.

Lemma complete_pinned keys m (ids : bytes -> Z) :
  mgr_inv [] m -> (forall k, k ∈ keys -> pinned_at keys k (ids k) m) ->
  exists m', complete_load keys m = (Ok tt, m') /\
    forall k, chunk_for m' k = (fun c => mkChunk (ref_cnt c - times k keys) (chunk_id c)) <$> chunk_for m k.
Proof.
  intros Hm Hp. assert (unloadable m keys) as Hu.
  { intros k Hin. destruct (Hp k Hin) as (c & Hc & _ & ?). apply view_cached in Hc as (x & Hx & <-). exists x. split; [done|lia]. }
  pose proof (unpin_chunks_ok m keys Hm Hu) as Hw. apply wp_run in Hw as ([] & m' & E & Hs). pose proof Hs as (Hm' & _).
  exists m'. split; [done|]. intros k. rewrite !(chunk_for_view []), (shifted_view _ _ _ _ _ Hs) by done.
  destruct (view m k); [|done]. simpl. do 3 f_equal; lia.
Qed.

(** C32: loading pins. Preparing to load ready chunks returns the buffer of
    each key in order and raises each chunk's reference count by the number of
    times its key is given, changing no other chunk.  Whatever calls follow, by any
    requests and in any number (stores, evictions, further loads and completions of
    those, but no reset of the cache), each of the chunks stays cached in its
    buffer with at least this load's count, so that completing the load returns,
    takes exactly that count back and leaves every chunk of the load ready. *)
Theorem load_pins m r keys :
  reachable m -> ctx_open m r -> can_load m keys ->
  exists spec m1 r1, prepare_load keys (m, r) = (Ok spec, (m1, r1)) /\
  map Some spec = map (fun k => chunk_id <$> chunk_for m k) keys /\
  (forall k, chunk_for m1 k =
     (fun c => mkChunk (ref_cnt c + times k keys) (chunk_id c)) <$> chunk_for m k) /\
  forall m2, while_loading keys m1 m2 ->
    (forall k c, k ∈ keys -> chunk_for m k = Some c ->
       exists c', chunk_for m2 k = Some c' /\ chunk_id c' = chunk_id c /\ times k keys <= ref_cnt c') /\
    exists m3, complete_load keys m2 = (Ok tt, m3) /\
    (forall k, chunk_for m3 k = (fun c => mkChunk (ref_cnt c - times k keys) (chunk_id c)) <$> chunk_for m2 k) /\
    forall k, k ∈ keys -> lookup k m3 = HIT.
Proof.
  intros Hreach Ho Hl. pose proof (mgr_reachable_inv m Hreach) as Hm.
  pose proof (prepare_load_ok m r keys Hm Ho (can_load_loadable m keys Hm Hl)) as Hw.
  apply wp_run in Hw as (spec & [m1 r1] & E & Hs & _ & Es). pose proof Hs as (Hm1 & _). simpl in *.
  exists spec, m1, r1. split_and!; [done| | |].
  - etrans; [exact Es|]. apply map_ext. intros k. rewrite (chunk_for_view [] m k Hm). unfold view.
    by destruct (cached m !! k).
  - intros k. rewrite !(chunk_for_view []), (shifted_view _ _ _ _ _ Hs) by done. destruct (view m k); [|done]. simpl.
    do 3 f_equal. lia.
  - intros m2 Hwl. destruct (while_loading_pinned keys m1 m2 Hwl Hm1) as [Hm2 Hpin].
    set (ids := fun k => match view m k with Some c => chunk_id c | None => 0 end).
    assert (forall k, k ∈ keys -> pinned_at keys k (ids k) m2) as Hp2.
    { intros k Hin. apply Hpin; [done|]. destruct (Hl k Hin) as (c & Hc & H0 & _). rewrite (chunk_for_view [] m k Hm) in Hc.
      unfold pinned_at, ids. rewrite (shifted_view _ _ _ _ _ Hs), Hc. simpl. eexists. split; [done|]. simpl. split; [done|lia]. }
    split.
    { intros k c Hin. rewrite !(chunk_for_view []) by done. intros Hc. destruct (Hp2 k Hin) as (c' & Hc' & Hid & Ht).
      exists c'. unfold ids in Hid. rewrite Hc in Hid. done. }
    destruct (complete_pinned keys m2 ids Hm2 Hp2) as (m3 & E3 & Hv3). exists m3. split_and!; [done|done|].
    intros k Hin. destruct (Hp2 k Hin) as (c' & Hc' & _ & Ht). unfold lookup. specialize (Hv3 k).
    unfold chunk_for in Hv3 at 1. rewrite (chunk_for_view []), Hc' in Hv3 by done.
    destruct (policy_get k (policy m3)) as [x|]; [|done]. injection Hv3 as ->. unfold is_ready. simpl.
    by rewrite (proj2 (Z.geb_le _ _)) by lia.
Qed.
End reach.

(** * Witnesses: two chunks, the LRU policy *)

#[local] Instance demo_policy : CachePolicy LRUCachePolicy := lru_policy elements.
#[local] Instance demo_laws : CachePolicyLaws LRUCachePolicy := lru_laws elements (fun X => reflexivity _).

Definition demo_ctx : ReqContext := mkCtx None ∅.
Definition demo_init : CPUOffloadingManager LRUCachePolicy := init 0 2 true 1 64000.
Definition demo_stored : CPUOffloadingManager LRUCachePolicy :=
  (run_op (OpPrepareStore [key_a; key_b]) (demo_init, demo_ctx)).2.1.
Definition demo_ready : CPUOffloadingManager LRUCachePolicy :=
  (run_op (OpCompleteStore [key_a; key_b] true) (demo_stored, demo_ctx)).2.1.

Lemma demo_open (m : CPUOffloadingManager LRUCachePolicy) : ctx_open m demo_ctx.
Proof. intros a E. discriminate. Qed.
Lemma demo_step (m : CPUOffloadingManager LRUCachePolicy) o :
  reachable m -> op_ok m o -> (run_op o (m, demo_ctx)).1 = Ok tt -> reachable (run_op o (m, demo_ctx)).2.1.
Proof.
  intros Hr Hok E. destruct (run_op o (m, demo_ctx)) as [x [m' r']] eqn:Er; simpl in *; subst x.
  eapply reach_step; [exact Hr|apply demo_open|exact Hok|exact Er].
Qed.
Lemma demo_keys : NoDup [key_a; key_b].
Proof. apply (bool_decide_unpack _); vm_compute; exact I. Qed.
Lemma demo_init_reachable : reachable demo_init.
Proof. apply reach_init. lia. Qed.
Lemma demo_ready_reachable : reachable demo_ready.
Proof.
  assert (reachable demo_stored) as Hs.
  { apply demo_step; [exact demo_init_reachable|exact demo_keys|vm_compute; reflexivity]. }
  apply demo_step; [exact Hs|exact demo_keys|vm_compute; reflexivity].
Qed.

Lemma manager_safe_witness :
  zlen (free_list demo_ready) = 0 /\ accounting demo_ready /\
  exists m' r', run_op (OpPrepareLoad []) (demo_ready, demo_ctx) = (Ok tt, (m', r')).
Proof.
  split; [vm_compute; reflexivity|]. destruct (manager_safe demo_ready demo_ready_reachable) as [Ha Hop].
  split; [exact Ha|]. destruct (Hop demo_ctx (OpPrepareLoad []) (demo_open _)) as (m' & r' & E & _).
  - intros k Hk. apply not_elem_of_nil in Hk. destruct Hk.
  - exists m', r'. exact E.
Defined.

Lemma prepare_store_exact_witness :
  exists o m' r', prepare_store [key_c] (demo_ready, demo_ctx) = (Ok (Some o), (m', r')) /\
    zlen (evicted_keys o) = 1 /\ out_keys_to_store o = [key_c].
Proof.
  assert (NoDup [key_c]) as Hnd by (apply (bool_decide_unpack _); vm_compute; exact I).
  destruct (prepare_store_exact demo_ready demo_ctx [key_c] demo_ready_reachable (demo_open _) Hnd)
    as (o & m' & r' & E & H).
  destruct o as [o|].
  - exists o, m', r'. split; [exact E|]. destruct H as (Ho & _ & _ & _ & He & _). rewrite He, Ho.
    vm_compute. split; reflexivity.
  - exfalso. apply (f_equal fst) in E. vm_compute in E. discriminate E.
Defined.

Lemma store_roundtrip_witness :
  exists o m1 r1, prepare_store [key_a; key_b] (demo_init, demo_ctx) = (Ok (Some o), (m1, r1)) /\
    store_spec o = [0; 1] /\ exists m2, complete_store (out_keys_to_store o) true m1 = (Ok tt, m2) /\
    exists m3 r3, prepare_load (out_keys_to_store o) (m2, r1) = (Ok (store_spec o), (m3, r3)).
Proof.
  destruct (prepare_store [key_a; key_b] (demo_init, demo_ctx)) as [[[o|]|e] [m1 r1]] eqn:E;
    [|apply (f_equal fst) in E; vm_compute in E; discriminate E..].
  exists o, m1, r1. split; [reflexivity|]. split.
  - assert (Ok (Some o) = (prepare_store [key_a; key_b] (demo_init, demo_ctx)).1) as Eo by (rewrite E; reflexivity).
    vm_compute in Eo. injection Eo as ->. reflexivity.
  - destruct (store_roundtrip demo_init demo_ctx [key_a; key_b] o m1 r1 demo_init_reachable (demo_open _) demo_keys E)
      as (_ & (m2 & E2 & _ & E3) & _). exists m2. split; [exact E2|exact E3].
Defined.

(** While one chunk is read, a store of a new key evicts the other one. *)
Definition demo_loading : CPUOffloadingManager LRUCachePolicy := (prepare_load [key_a] (demo_ready, demo_ctx)).2.1.
Definition demo_storing : CPUOffloadingManager LRUCachePolicy * ReqContext :=
  (run_op (OpPrepareStore [key_c]) (demo_loading, demo_ctx)).2.
Lemma demo_store_run : run_op (OpPrepareStore [key_c]) (demo_loading, demo_ctx) = (Ok tt, (demo_storing.1, demo_storing.2)).
Proof.
  assert ((run_op (OpPrepareStore [key_c]) (demo_loading, demo_ctx)).1 = Ok tt) as E by (vm_compute; reflexivity).
  unfold demo_storing. by destruct (run_op _ _) as [o [m r]]; simpl in *; subst.
Qed.
Definition demo_offer : list bytes :=
  match (prepare_store [key_c] (demo_loading, demo_ctx)).1 with Ok (Some o) => evicted_keys o | _ => [] end.

Lemma load_pins_witness :
  can_load demo_ready [key_a] /\ chunk_for demo_loading key_a = Some (mkChunk 1 0) /\ demo_offer = [key_b] /\
  exists m3, complete_load [key_a] demo_storing.1 = (Ok tt, m3) /\ lookup key_a m3 = HIT.
Proof.
  assert (can_load demo_ready [key_a]) as Hl.
  { intros k Hk. apply list_elem_of_singleton in Hk. subst k. exists (mkChunk 0 0). vm_compute. split_and!; congruence. }
  destruct (load_pins demo_ready demo_ctx [key_a] demo_ready_reachable (demo_open _) Hl)
    as (spec & m1 & r1 & E & _ & H & Hw).
  assert (m1 = demo_loading) as -> by (unfold demo_loading; rewrite E; reflexivity).
  split; [exact Hl|]. split; [rewrite H; vm_compute; reflexivity|]. split; [vm_compute; reflexivity|].
  destruct (Hw demo_storing.1) as (_ & m3 & E3 & _ & H3).
  - eapply loading_step; [apply demo_open| | |exact demo_store_run|apply loading_done]; [apply NoDup_singleton|exact I].
  - exists m3. split; [exact E3|]. apply H3. by left.
Defined.
