(* ===== verification/CacheHit.v ===== *)
(** Prefix-cache lookups of the attention types
    ([vllm/v1/core/single_type_kv_cache_manager.py]): the longest prefix of a
    request whose KV data a group still has, for full, sliding-window and
    chunked-local attention. *)
From Stdlib Require Import ZArith Lia Strings.String.
From stdpp Require Import base numbers list gmap strings.
From S2P Require Import Prelude Request BlockHash HashMap BlockPool PoolOps PoolCache PoolSafety.
Import Pool.
Open Scope Z_scope.
Local Arguments py_get : simpl never.

(** * KV cache specifications *)

(** The attention type of a group, with the fields the managers read. *)
Inductive spec_kind :=
| FullAttention
| SlidingWindow (sliding_window extra_retained_tokens : Z)
| ChunkedLocalAttention (attention_chunk_size : Z)
| RSWA (rswa_window : Z).
(** [spec_layout] stands for the fields of the dataclass that are only compared:
    heads, head size, data type, alignment and the like. *)
Record KVCacheSpec := mkSpec {
  spec_block_size : Z;
  kind : spec_kind;
  spec_dcp_sharded : bool;
  spec_layout : string
}.

(** [-(a // -b)] *)
Definition cdiv (a b : Z) : Z := - (a / - b).

(** [range(a, b, -1)] *)
Definition py_range_down (a b : Z) : list Z := reverse (py_range (b + 1) (a + 1)).

(** * Lookups *)

(** [for computed, cached in zip(computed_blocks, cached_block): computed.append(cached)] *)
Fixpoint append_each (computed : list (list nat)) (cached : list nat) : list (list nat) :=
  match computed, cached with
  | l :: computed, c :: cached => (l ++ [c]) :: append_each computed cached
  | _, _ => computed
  end.
(** [... computed[i] = cached], [i] in range. *)
Fixpoint set_each (i : Z) (computed : list (list nat)) (cached : list nat) : list (list nat) :=
  match computed, cached with
  | l :: computed, c :: cached => <[Z.to_nat i := c]> l :: set_each i computed cached
  | _, _ => computed
  end.
(** [for computed in computed_blocks: del computed[n:]] and [computed.pop()],
    the latter on lists that are not empty. *)
Definition trim_each (n : Z) (computed : list (list nat)) : list (list nat) := map (py_upto n) computed.
Definition pop_each (computed : list (list nat)) : list (list nat) := map (py_upto (-1)) computed.
(** [len(computed_blocks[0])] *)
Definition first_len (computed : list (list nat)) : outcome Z :=
  match computed with [] => Raise IndexError | l :: _ => Ok (zlen l) end.

Section lookup.
Context (p : BlockPool) (kv_cache_group_ids : list Z).

(** A hit: a truthy result of [get_cached_block]. *)
Definition probe (block_hash : bytes) : outcome (option (list nat)) :=
  let? r := get_cached_block block_hash kv_cache_group_ids p in
  Ok (match r with Some [] => None | r => r end).

(** ** Full attention *)

(** Phase 1: the longest run of cached full blocks. *)
Fixpoint full_run (hashes : list bytes) (computed : list (list nat)) : outcome (list (list nat)) :=
  match hashes with
  | [] => Ok computed
  | h :: hashes =>
      let? r := probe h in
      match r with
      | None => Ok computed
      | Some cached => full_run hashes (append_each computed cached)
      end
  end.
(** Phase 2: the first cached boundary among [idxs]. *)
Fixpoint probe_boundaries (hashes : list bytes) (idxs : list Z) : outcome (option (Z * list nat)) :=
  match idxs with
  | [] => Ok None
  | i :: idxs =>
      let? h := or_raise (py_get hashes i) IndexError in
      let? r := probe h in
      match r with
      | None => probe_boundaries hashes idxs
      | Some cached => Ok (Some (i, cached))
      end
  end.

(** The lookup at the group's block size. *)
Definition full_attention_search (block_hashes : BlockHashList) (max_length block_size : Z)
    (drop_eagle_block : bool) (alignment_tokens : Z) : outcome (list (list nat) * Z) :=
  let? hashes := resolve_block_hashes block_hashes (hash_block_size p) block_size true (Some alignment_tokens) in
  let fine_grained := (alignment_tokens <? block_size) && (block_size mod alignment_tokens =? 0) in
  let? full := (if fine_grained then
                  match hashes with
                  | Raw hs => let? v := new_view hs alignment_tokens block_size in Ok (View v)
                  | View _ => Raise AssertionError
                  end
                else Ok hashes) in
  let? full := hl_from full 0 in
  let? computed := full_run (take (Z.to_nat (max_length / block_size)) full)
                     (map (fun _ => []) kv_cache_group_ids) in
  let? num_full := first_len computed in
  let? found := (match hashes, fine_grained with
                 | Raw hs, true =>
                     let scale_factor := block_size / alignment_tokens in
                     let first_partial_idx := num_full * scale_factor in
                     let max_partial_idx := Z.min (Z.min (first_partial_idx + scale_factor - 1)
                                                         (max_length / alignment_tokens)) (zlen hs) in
                     probe_boundaries hs (py_range_down (max_partial_idx - 1) (first_partial_idx - 1))
                 | _, _ => Ok None
                 end) in
  let '(computed, hit_length) := match found with
                                 | Some (i, cached) => (append_each computed cached, (i + 1) * alignment_tokens)
                                 | None => (computed, num_full * block_size)
                                 end in
  let hit_length := if drop_eagle_block && (hit_length >? 0) then hit_length - Z.min alignment_tokens block_size
                    else hit_length in
  let hit_length := hit_length - hit_length mod alignment_tokens in
  Ok (trim_each (cdiv hit_length block_size) computed, hit_length).
Definition full_attention_hit (block_hashes : BlockHashList) (max_length : Z) (kv_cache_spec : KVCacheSpec)
    (drop_eagle_block : bool) (alignment_tokens dcp_world_size : Z) : outcome (list (list nat) * Z) :=
  match kind kv_cache_spec with
  | SlidingWindow _ _ => Raise AssertionError
  | FullAttention | ChunkedLocalAttention _ | RSWA _ =>
      let block_size := if dcp_world_size >? 1 then spec_block_size kv_cache_spec * dcp_world_size
                        else spec_block_size kv_cache_spec in
      full_attention_search block_hashes max_length block_size drop_eagle_block alignment_tokens
  end.

(** ** Sliding-window attention *)

Definition contiguous_blocks_for_hit (window_size block_size : Z) (use_eagle : bool) : Z :=
  cdiv (window_size - 1) block_size + if use_eagle then 1 else 0.

(** The search from right to left; [Some computed] when enough contiguous
    blocks were found, else the blocks set and the length of the last run. *)
Fixpoint window_search (hashes : BlockHashList) (block_size alignment_tokens need : Z) (drop_eagle_block : bool)
    (idxs : list Z) (computed : list (list nat)) (num_contiguous_blocks : Z) :
    outcome (bool * list (list nat) * Z) :=
  match idxs with
  | [] => Ok (false, computed, num_contiguous_blocks)
  | i :: idxs =>
      let? h := or_raise (hl_get hashes i) IndexError in
      let? r := probe h in
      match r with
      | None => window_search hashes block_size alignment_tokens need drop_eagle_block idxs computed 0
      | Some cached =>
          let post_pop_blocks := if drop_eagle_block then i else i + 1 in
          if (num_contiguous_blocks =? 0) && negb (block_size =? alignment_tokens) &&
             negb (post_pop_blocks * block_size mod alignment_tokens =? 0)
          then window_search hashes block_size alignment_tokens need drop_eagle_block idxs computed
                 num_contiguous_blocks
          else
            let computed := set_each i computed cached in
            let n := num_contiguous_blocks + 1 in
            if n >=? need then Ok (true, trim_each (i + n) computed, n)
            else window_search hashes block_size alignment_tokens need drop_eagle_block idxs computed n
      end
  end.

(** [while block_size != alignment_tokens and len(...) * block_size % alignment_tokens != 0]:
    every round pops a block. *)
Fixpoint pop_to_aligned (fuel : nat) (block_size alignment_tokens : Z) (computed : list (list nat)) :
    outcome (list (list nat)) :=
  let? n := first_len computed in
  if negb (block_size =? alignment_tokens) && negb (n * block_size mod alignment_tokens =? 0) then
    match fuel with
    | O => Raise OutOfFuel
    | S fuel => pop_to_aligned fuel block_size alignment_tokens (pop_each computed)
    end
  else Ok computed.

Definition sliding_window_hit (block_hashes : BlockHashList) (max_length : Z) (kv_cache_spec : KVCacheSpec)
    (drop_eagle_block : bool) (alignment_tokens dcp_world_size pcp_world_size : Z) :
    outcome (list (list nat) * Z) :=
  match kind kv_cache_spec with
  | SlidingWindow sliding_window _ =>
      if negb (dcp_world_size =? 1) || negb (pcp_world_size =? 1) then Raise AssertionError else
      let block_size := spec_block_size kv_cache_spec in
      let? hashes := resolve_block_hashes block_hashes (hash_block_size p) block_size false (Some alignment_tokens) in
      let need := contiguous_blocks_for_hit sliding_window block_size drop_eagle_block in
      let max_num_blocks := max_length / block_size in
      let fuel := Z.to_nat max_num_blocks in
      let computed := map (fun _ => replicate fuel (null_block p)) kv_cache_group_ids in
      let? found := window_search hashes block_size alignment_tokens need drop_eagle_block
                      (py_range_down (max_num_blocks - 1) (-1)) computed 0 in
      let '(match_found, computed, num_contiguous_blocks) := found in
      let? computed := (if match_found : bool then Ok computed
                        else pop_to_aligned fuel block_size alignment_tokens
                               (trim_each num_contiguous_blocks computed)) in
      let? n := first_len computed in
      let? computed := (if drop_eagle_block && negb (n =? 0)
                        then pop_to_aligned fuel block_size alignment_tokens (pop_each computed)
                        else Ok computed) in
      let? n := first_len computed in
      Ok (computed, n * block_size)
  | _ => Raise AssertionError
  end.

(** ** Chunked local attention *)

Fixpoint chunk_run (hashes : BlockHashList) (idxs : list Z) (computed : list (list nat)) :
    outcome (list (list nat)) :=
  match idxs with
  | [] => Ok computed
  | i :: idxs =>
      let? h := or_raise (hl_get hashes i) IndexError in
      let? r := probe h in
      match r with
      | None => Ok computed
      | Some cached => chunk_run hashes idxs (append_each computed cached)
      end
  end.

Definition chunked_local_hit (block_hashes : BlockHashList) (max_length : Z) (kv_cache_spec : KVCacheSpec)
    (drop_eagle_block : bool) (alignment_tokens dcp_world_size pcp_world_size : Z) :
    outcome (list (list nat) * Z) :=
  match kind kv_cache_spec with
  | ChunkedLocalAttention attention_chunk_size =>
      let block_size := spec_block_size kv_cache_spec in
      if drop_eagle_block || negb (dcp_world_size =? 1) || negb (pcp_world_size =? 1) ||
         negb (block_size =? alignment_tokens) then Raise AssertionError else
      let? hashes := resolve_block_hashes block_hashes (hash_block_size p) block_size false (Some alignment_tokens) in
      let max_num_blocks := max_length / block_size in
      let local_attention_start_idx := if max_length >? 0 then max_length / attention_chunk_size * attention_chunk_size
                                       else 0 in
      let local_attention_start_block_idx := local_attention_start_idx / block_size in
      let? computed := chunk_run hashes (py_range local_attention_start_block_idx max_num_blocks)
        (map (fun _ => replicate (Z.to_nat local_attention_start_block_idx) (null_block p)) kv_cache_group_ids) in
      let? n := first_len computed in
      Ok (computed, n * block_size)
  | _ => Raise AssertionError
  end.
End lookup.

(** * Rows: one block per group, for each position *)

(** The per-group lists of [k] groups, from the rows. *)
Definition by_group (k : nat) (rows : list (list nat)) : list (list nat) :=
  map (fun j => map (fun row => row !!! j) rows) (seq 0 k).

Lemma by_group_lookup k rows j :
  (j < k)%nat -> by_group k rows !! j = Some (map (fun row => row !!! j) rows).
Proof.
  intros Hj. unfold by_group. apply list_lookup_fmap_Some. exists j. split; [done|]. apply lookup_seq. lia.
Qed.
Lemma by_group_length k rows : length (by_group k rows) = k.
Proof. unfold by_group. by rewrite length_map, length_seq. Qed.
Lemma by_group_first k rows : (0 < k)%nat -> first_len (by_group k rows) = Ok (zlen rows).
Proof. intros Hk. destruct k as [|k]; [lia|]. simpl. by rewrite length_map. Qed.

Lemma append_each_zip (l : list (list nat)) (c : list nat) :
  length l = length c -> append_each l c = zip_with (fun l c => l ++ [c]) l c.
Proof. revert c. induction l as [|x l IH]; intros [|y c] Hl; simpl in *; try done. f_equal. apply IH. lia. Qed.
Lemma set_each_zip i (l : list (list nat)) (c : list nat) :
  length l = length c -> set_each i l c = zip_with (fun l c => <[Z.to_nat i := c]> l) l c.
Proof. revert c. induction l as [|x l IH]; intros [|y c] Hl; simpl in *; try done. f_equal. apply IH. lia. Qed.

(** A per-group update is an update of the rows. *)
Lemma by_group_zip k rows rows' (row : list nat) (f : list nat -> nat -> list nat) :
  length row = k -> (forall j, (j < k)%nat ->
    f (map (fun r => r !!! j) rows) (row !!! j) = map (fun r => r !!! j) rows') ->
  zip_with f (by_group k rows) row = by_group k rows'.
Proof.
  intros Hr Hf. apply list_eq_same_length with k; [by rewrite by_group_length|by rewrite length_zip_with, by_group_length, Hr, Nat.min_id|].
  intros j x y Hj Hx Hy. rewrite lookup_zip_with, by_group_lookup in Hx by done. simpl in Hx.
  rewrite by_group_lookup in Hy by done. simplify_eq.
  destruct (row !! j) as [r|] eqn:Er; [|apply lookup_ge_None in Er; lia]. simpl in Hx. simplify_eq.
  rewrite <- (Hf j Hj). by rewrite (list_lookup_total_correct _ _ _ Er).
Qed.

Lemma by_group_snoc k rows row :
  length row = k -> append_each (by_group k rows) row = by_group k (rows ++ [row]).
Proof.
  intros Hr. rewrite append_each_zip by (by rewrite by_group_length). apply by_group_zip; [done|].
  intros j Hj. by rewrite map_app.
Qed.
Lemma by_group_set k rows row i :
  length row = k -> set_each i (by_group k rows) row = by_group k (<[Z.to_nat i := row]> rows).
Proof.
  intros Hr. rewrite set_each_zip by (by rewrite by_group_length). apply by_group_zip; [done|].
  intros j Hj. symmetry. apply (list_fmap_insert (fun r : list nat => r !!! j)).
Qed.
Lemma by_group_trim k rows n : by_group k (py_upto n rows) = trim_each n (by_group k rows).
Proof.
  unfold by_group, trim_each. rewrite map_map. apply map_ext. intros j. unfold py_upto, slice_bound.
  by rewrite length_map, <- firstn_map.
Qed.
Lemma by_group_replicate {A} k (gs : list A) x n :
  length gs = k -> map (fun _ => replicate n x) gs = by_group k (replicate n (replicate k x)).
Proof.
  intros Hg. apply list_eq_same_length with k; [by rewrite by_group_length|by rewrite length_map|].
  intros j a b Hj Ha Hb. rewrite by_group_lookup in Hb by done. simplify_eq.
  apply list_lookup_fmap_Some in Ha as (g & -> & _). etrans; [|symmetry; apply (fmap_replicate (fun r : list nat => r !!! j))]. f_equal.
  symmetry. by apply list_lookup_total_correct, lookup_replicate_2.
Qed.

Lemma elem_of_range_down a b x : x ∈ py_range_down a b <-> b < x <= a.
Proof. unfold py_range_down. rewrite elem_of_reverse, elem_of_py_range. lia. Qed.

(** A downward range lists larger numbers first. *)
Lemma range_down_above a b above i below j :
  py_range_down a b = above ++ i :: below -> j ∈ py_range_down a b -> i < j -> j ∈ above.
Proof.
  intros E Hj Hlt. rewrite E in Hj. apply elem_of_app in Hj as [|[->|Hj]%elem_of_cons]; [done|lia|exfalso].
  unfold py_range_down in E. apply (f_equal reverse) in E. rewrite reverse_involutive in E.
  rewrite reverse_app, reverse_cons, <- app_assoc in E. simpl in E.
  apply elem_of_reverse, list_elem_of_split in Hj as (l1 & l2 & El). rewrite El, <- app_assoc in E. simpl in E.
  eapply py_range_later in E; [|apply elem_of_app; right; by left]. lia.
Qed.

(** * Lookups that succeed *)

Record lookup_ok (p : BlockPool) (gs : list Z) : Prop := {
  lk_inv : cache_inv p;
  lk_some : gs <> [];
  lk_groups : forall g, g ∈ gs -> 0 <= g < 2 ^ 32
}.

(** The blocks cached for a prefix hash, one per group. *)
Definition hit (p : BlockPool) (gs : list Z) (h : bytes) : option (list nat) :=
  match probe p gs h with Ok r => r | Raise _ => None end.

Lemma probe_hit p gs h : lookup_ok p gs -> probe p gs h = Ok (hit p gs h).
Proof.
  intros [Hp Hs Hg]. unfold hit, probe. destruct (get_cached_ok p h gs Hp Hg) as (r & -> & _). done.
Qed.
Lemma hit_length p gs h row : lookup_ok p gs -> hit p gs h = Some row -> length row = length gs.
Proof.
  intros [Hp Hs Hg]. unfold hit, probe. destruct (get_cached_ok p h gs Hp Hg) as (r & -> & Hr). simpl.
  destruct r as [[|b bs]|]; intros [= <-]. symmetry. by apply Forall2_length in Hr.
Qed.

(** The leading cached rows. *)
Fixpoint leading (p : BlockPool) (gs : list Z) (hs : list bytes) : list (list nat) :=
  match hs with
  | [] => []
  | h :: hs => match hit p gs h with None => [] | Some row => row :: leading p gs hs end
  end.

Lemma full_run_ok p gs hs rows :
  lookup_ok p gs ->
  full_run p gs hs (by_group (length gs) rows) = Ok (by_group (length gs) (rows ++ leading p gs hs)).
Proof.
  intros Hl. revert rows. induction hs as [|h hs IH]; intros rows; simpl; [by rewrite app_nil_r|].
  rewrite probe_hit by done. simpl. destruct (hit p gs h) as [row|] eqn:E; [|by rewrite app_nil_r].
  rewrite by_group_snoc by (by eapply hit_length). rewrite IH. by rewrite <- app_assoc.
Qed.

Lemma leading_row p gs hs i row :
  leading p gs hs !! i = Some row -> exists h, hs !! i = Some h /\ hit p gs h = Some row.
Proof.
  revert i. induction hs as [|h hs IH]; intros i; simpl; [done|]. destruct (hit p gs h) as [r|] eqn:E; [|done].
  destruct i as [|i]; simpl; [intros [= <-]; by exists h|apply IH].
Qed.
Lemma leading_stop p gs hs h : hs !! length (leading p gs hs) = Some h -> hit p gs h = None.
Proof.
  induction hs as [|h' hs IH]; simpl; [done|]. destruct (hit p gs h') as [r|] eqn:E; simpl; [done|congruence].
Qed.
Lemma leading_length p gs hs : (length (leading p gs hs) <= length hs)%nat.
Proof. induction hs as [|h hs IH]; simpl; [lia|]. destruct (hit p gs h); simpl; lia. Qed.

Lemma probe_boundaries_ok p gs hs idxs :
  lookup_ok p gs -> (forall i, i ∈ idxs -> 0 <= i < zlen hs) ->
  exists r, probe_boundaries p gs hs idxs = Ok r /\
  match r with
  | Some (i, row) => exists above below h, idxs = above ++ i :: below /\ hs !! Z.to_nat i = Some h /\
      hit p gs h = Some row /\
      forall j h', j ∈ above -> hs !! Z.to_nat j = Some h' -> hit p gs h' = None
  | None => forall j h', j ∈ idxs -> hs !! Z.to_nat j = Some h' -> hit p gs h' = None
  end.
Proof.
  intros Hl. induction idxs as [|i idxs IH]; intros Hr; simpl; [eexists; split; [done|]; set_solver|].
  assert (0 <= i < zlen hs) as Hi by (apply Hr; by left). rewrite py_get_nonneg by lia.
  destruct (hs !! Z.to_nat i) as [h|] eqn:E; [|apply lookup_ge_None in E; lia]. simpl.
  rewrite probe_hit by done. simpl. destruct (hit p gs h) as [row|] eqn:Eh.
  - eexists. split; [done|]. exists [], idxs, h. split_and!; [done..|]. set_solver.
  - destruct IH as (r & -> & Hres); [intros; apply Hr; by right|]. exists r. split; [done|].
    destruct r as [[i' row]|].
    + destruct Hres as (ab & be & h' & -> & ? & ? & Hab). exists (i :: ab), be, h'. split_and!; [done..|].
      intros j hj [->|Hj]%elem_of_cons Hh; [congruence|by eapply Hab].
    + intros j hj [->|Hj]%elem_of_cons Hh; [congruence|by eapply Hres].
Qed.

(** * Hashes of prefixes *)

(** The hash of the first [t] tokens, [t] a positive multiple of [hbs]. *)
Definition prefix_hash (hs : list bytes) (hbs t : Z) : option bytes := hs !! Z.to_nat (t / hbs - 1).
(** Every group has a block cached for the prefix of [t] tokens. *)
Definition covered (p : BlockPool) (gs : list Z) (hs : list bytes) (hbs t : Z) : Prop :=
  exists h row, prefix_hash hs hbs t = Some h /\ hit p gs h = Some row.

Lemma view_list v :
  0 < scale_factor v -> exists F, hl_from (View v) 0 = Ok F /\ zlen F = view_len v /\
    forall i, 0 <= i < view_len v -> F !! Z.to_nat i = view_get v i.
Proof.
  intros Hs. assert (0 <= view_len v) as Hn by (apply Z.div_pos; lia). simpl.
  rewrite Z.min_l by done.
  destruct (mapM_is_Some_2 (view_get v) (py_range 0 (view_len v))) as [F HF].
  { apply Forall_forall. intros i Hi%elem_of_py_range. unfold view_get, compose. rewrite py_get_nonneg by nia.
    apply lookup_lt_is_Some_2. unfold view_len in Hi.
    pose proof (Z.mul_div_le (zlen (view_hashes v)) (scale_factor v) Hs). nia. }
  rewrite HF. exists F. apply mapM_Some_1 in HF. split; [done|]. split.
  - apply Forall2_length in HF. unfold py_range in HF. rewrite length_seqZ in HF. lia.
  - intros i Hi. destruct (Forall2_lookup_l _ _ _ (Z.to_nat i) i HF) as (y & Hy & Hv).
    { unfold py_range. rewrite lookup_seqZ. lia. }
    by rewrite Hy, Hv.
Qed.

(** A list [F] of the hashes of the prefixes of full blocks. *)
Definition full_hashes (hs : list bytes) (hbs bs : Z) (F : list bytes) : Prop :=
  zlen F = zlen hs / (bs / hbs) /\ forall i, 0 <= i < zlen F -> F !! Z.to_nat i = prefix_hash hs hbs ((i + 1) * bs).

Lemma view_full_hashes hs hbs bs :
  0 < hbs -> 0 < bs -> bs mod hbs = 0 ->
  exists F, hl_from (View (mkView hs (bs / hbs))) 0 = Ok F /\ full_hashes hs hbs bs F.
Proof.
  intros Hh Hb Hm. apply Z.div_exact in Hm as Hd; [|lia]. assert (0 < bs / hbs) as Hs by nia.
  destruct (view_list (mkView hs (bs / hbs)) Hs) as (F & E & Hl & HF). exists F. split; [done|]. split; [done|].
  intros i Hi. rewrite HF by (rewrite <- Hl; done). unfold view_get, prefix_hash. simpl.
  rewrite py_get_nonneg by nia. do 3 f_equal. rewrite Hd at 2.
  rewrite (Z.mul_comm hbs), Z.mul_assoc, Z.div_mul; lia.
Qed.

Lemma raw_full_hashes hs bs : 0 < bs -> full_hashes hs bs bs hs.
Proof.
  intros Hb. split; [rewrite Z.div_same, Z.div_1_r by lia; lia|]. intros i Hi. unfold prefix_hash.
  rewrite Z.div_mul by lia. f_equal. lia.
Qed.

Definition group_block_size (spec : KVCacheSpec) (dcp_world_size : Z) : Z :=
  if dcp_world_size >? 1 then spec_block_size spec * dcp_world_size else spec_block_size spec.

(** The arguments of a full-attention lookup: hits are aligned to whole blocks,
    or to the hash granularity below the block size. *)
Record full_args_ok (p : BlockPool) (gs : list Z) (bs al max_length : Z) : Prop := {
  fa_lookup : lookup_ok p gs;
  fa_hbs : 0 < hash_block_size p;
  fa_bs : 0 < bs /\ bs mod hash_block_size p = 0;
  fa_al : 0 < al /\ (al mod bs = 0 \/ (al = hash_block_size p /\ al < bs));
  fa_max : 0 <= max_length
}.

Lemma full_hash_list p gs bs al max_length hs :
  full_args_ok p gs bs al max_length ->
  exists hashes full F, resolve_block_hashes (Raw hs) (hash_block_size p) bs true (Some al) = Ok hashes /\
    (if (al <? bs) && (bs mod al =? 0) then
       match hashes with
       | Raw hs => let? v := new_view hs al bs in Ok (View v)
       | View _ => Raise AssertionError
       end
     else Ok hashes) = Ok full /\ hl_from full 0 = Ok F /\ full_hashes hs (hash_block_size p) bs F /\
    ((al <? bs) && (bs mod al =? 0) = bool_decide (al < bs)) /\ (al < bs -> hashes = Raw hs).
Proof.
  intros [_ Hh [Hb Hm] [Ha Hal] _]. unfold resolve_block_hashes.
  destruct (decide (al < bs)) as [Hf|Hf].
  - destruct Hal as [Hal|[-> _]]; [rewrite Z.mod_small in Hal; lia|].
    rewrite (proj2 (Z.eqb_neq _ _)) by lia. rewrite Hm, (proj2 (Z.ltb_lt _ _)) by done. simpl.
    destruct (view_full_hashes hs (hash_block_size p) bs Hh Hb Hm) as (F & E & HF).
    exists (Raw hs), (View (mkView hs (bs / hash_block_size p))), F. unfold new_view. rewrite Hm. simpl.
    split_and!; try done. by rewrite bool_decide_true.
  - rewrite (proj2 (Z.ltb_ge al bs)) by lia. simpl. rewrite bool_decide_false by done.
    destruct (bs =? hash_block_size p) eqn:E; bools.
    + exists (Raw hs), (Raw hs), hs. subst bs. split_and!; try done; [|by apply raw_full_hashes].
      simpl. by rewrite py_from_in by lia.
    + rewrite Hm. simpl. unfold new_view. rewrite Hm. simpl.
      destruct (view_full_hashes hs (hash_block_size p) bs Hh Hb Hm) as (F & EF & HF).
      eexists _, _, F. split_and!; try done; lia.
Qed.

Lemma cdiv_spec a b : 0 < b -> (cdiv a b - 1) * b < a <= cdiv a b * b.
Proof.
  intros Hb. unfold cdiv.
  assert (a / - b = (- a) / b) as E by (rewrite <- (Z.div_opp_opp a (- b)), Z.opp_involutive by lia; done).
  rewrite E. pose proof (Z.div_mod (- a) b ltac:(lia)). pose proof (Z.mod_pos_bound (- a) b Hb). nia.
Qed.

Section full.
Context (p : BlockPool) (gs : list Z) (hs : list bytes) (bs : Z).
Abbreviation hbs := (hash_block_size p).

(** The first [B] tokens are cached: every full block among them, and the
    prefix that ends inside a block if [B] does. *)
Definition prefix_cached (B : Z) : Prop :=
  (forall i, 0 <= i -> (i + 1) * bs <= B -> covered p gs hs hbs ((i + 1) * bs)) /\
  (B mod bs <> 0 -> covered p gs hs hbs B).

Definition row_of (t : Z) (row : list nat) : Prop :=
  exists h, prefix_hash hs hbs t = Some h /\ hit p gs h = Some row.

Lemma covered_index F i :
  0 < hbs -> 0 < bs -> bs mod hbs = 0 -> full_hashes hs hbs bs F -> 0 <= i ->
  covered p gs hs hbs ((i + 1) * bs) -> i < zlen F.
Proof.
  intros Hh Hb Hm [Hl _] Hi (h & row & E & _). apply lookup_lt_Some in E. apply Z.div_exact in Hm as Hd; [|lia].
  assert (0 < bs / hbs) as Hs by nia. replace ((i + 1) * bs / hbs) with ((i + 1) * (bs / hbs)) in E.
  - rewrite Hl. apply Z.lt_le_trans with (i + 1); [lia|]. apply Z.div_le_lower_bound; nia.
  - rewrite Hd at 2. rewrite (Z.mul_comm hbs), Z.mul_assoc, Z.div_mul; lia.
Qed.

Lemma phase1 F max_length (rows := leading p gs (take (Z.to_nat (max_length / bs)) F)) :
  0 < hbs -> 0 < bs -> bs mod hbs = 0 -> full_hashes hs hbs bs F -> 0 <= max_length ->
  zlen rows * bs <= max_length /\
  (forall i row, rows !! i = Some row -> row_of ((Z.of_nat i + 1) * bs) row) /\
  (forall B, prefix_cached B -> B <= max_length -> B / bs <= zlen rows).
Proof.
  intros Hh Hb Hm HF Hmax. pose proof (leading_length p gs (take (Z.to_nat (max_length / bs)) F)) as Hl.
  rewrite length_take in Hl. fold rows in Hl. pose proof (Z.div_pos max_length bs Hmax Hb).
  pose proof (Z.mul_div_le max_length bs Hb) as Hmd. split_and!.
  - assert (zlen rows <= max_length / bs) by lia. nia.
  - intros i row (h & Hh' & Hrow)%leading_row. apply lookup_take_Some in Hh' as [Hh' _].
    exists h. split; [|done]. destruct HF as [_ HF]. apply lookup_lt_Some in Hh' as Hlt.
    rewrite <- (HF (Z.of_nat i)) by lia. by rewrite Nat2Z.id.
  - intros B [Hfull _] HB. destruct (Z.le_gt_cases (B / bs) (zlen rows)) as [|Hgt]; [done|exfalso].
    pose proof (Z.mul_div_le B bs Hb). pose proof (Z.div_le_mono _ _ bs Hb HB) as Hdm.
    assert (covered p gs hs hbs ((zlen rows + 1) * bs)) as Hc by (apply Hfull; [lia|nia]).
    pose proof (covered_index F (zlen rows) Hh Hb Hm HF ltac:(lia) Hc) as Hlt.
    destruct Hc as (h & row & E & Hrow). destruct HF as [_ HF]. rewrite <- (HF (zlen rows)), Nat2Z.id in E by lia.
    assert (hit p gs h = None); [|congruence]. apply (leading_stop p gs (take (Z.to_nat (max_length / bs)) F)).
    fold rows. rewrite lookup_take_lt; [done|lia].
Qed.

(** The boundaries probed inside block [n]. *)
Lemma phase2 max_length n :
  lookup_ok p gs -> 0 < hbs -> hbs < bs -> bs mod hbs = 0 -> 0 <= max_length -> 0 <= n ->
  let hi := Z.min (Z.min (n * (bs / hbs) + bs / hbs - 1) (max_length / hbs)) (zlen hs) in
  exists r, probe_boundaries p gs hs (py_range_down (hi - 1) (n * (bs / hbs) - 1)) = Ok r /\
  match r with
  | Some (i, row) => n * bs < (i + 1) * hbs < (n + 1) * bs /\ (i + 1) * hbs <= max_length /\
      row_of ((i + 1) * hbs) row /\
      (forall t, (i + 1) * hbs < t < (n + 1) * bs -> t mod hbs = 0 -> t <= max_length -> ~ covered p gs hs hbs t)
  | None => forall t, n * bs < t < (n + 1) * bs -> t mod hbs = 0 -> t <= max_length -> ~ covered p gs hs hbs t
  end.
Proof.
  intros Hl Hh Hlt Hm Hmax Hn hi. apply Z.div_exact in Hm as Hd; [|lia]. set (s := bs / hbs) in *.
  assert (1 < s) as Hs by nia. pose proof (Z.mul_div_le max_length hbs Hh) as Hmd.
  set (idxs := py_range_down _ _). assert (forall i, i ∈ idxs <-> n * s <= i < hi) as Hidx.
  { intros i. unfold idxs. rewrite elem_of_range_down. lia. }
  assert (forall t, t mod hbs = 0 -> n * bs < t -> t < (n + 1) * bs -> t <= max_length -> covered p gs hs hbs t ->
    t / hbs - 1 ∈ idxs /\ t = (t / hbs - 1 + 1) * hbs) as Hin.
  { intros t Ht H1 H2 H3 (h & row & E & _). apply lookup_lt_Some in E. apply Z.div_exact in Ht; [|lia].
    rewrite Hidx. split; [|lia]. assert (n * s < t / hbs < n * s + s) by nia.
    assert (t / hbs <= max_length / hbs) by (apply Z.div_le_mono; lia). unfold hi. lia. }
  destruct (probe_boundaries_ok p gs hs idxs Hl) as (r & E & Hr).
  { intros i Hi%Hidx. unfold hi in Hi. nia. }
  exists r. split; [done|]. destruct r as [[i row]|].
  - destruct Hr as (ab & be & h & Ei & Hh' & Hrow & Hab).
    assert (n * s <= i < hi) as Hi by (apply Hidx; rewrite Ei; set_solver).
    assert (row_of ((i + 1) * hbs) row) as Hro.
    { exists h. split; [|done]. unfold prefix_hash. rewrite Z.div_mul by lia. by rewrite Z.add_simpl_r. }
    split_and!; [unfold hi in Hi; nia..|unfold hi in Hi; nia|done|].
    intros t Ht1 Ht Ht2 Hc. destruct (Hin t Ht ltac:(nia) ltac:(lia) Ht2 Hc) as [Hti Et].
    destruct Hc as (h' & row' & E' & Hrow'). assert (hit p gs h' = None); [|congruence]. eapply Hab; [|exact E'].
    eapply range_down_above; [exact Ei|exact Hti|nia].
  - intros t Ht1 Ht Ht2 Hc. destruct (Hin t Ht ltac:(lia) ltac:(lia) Ht2 Hc) as [Hti Et].
    destruct Hc as (h' & row' & E' & Hrow'). assert (hit p gs h' = None); [|congruence]. by eapply Hr.
Qed.

(** The rows of a prefix of [B] tokens, cut to [L] tokens. *)
Lemma cut_rows rows B al eagle (R := if eagle && (B >? 0) then B - Z.min al bs else B) (L := R - R mod al) :
  0 < bs -> 0 < al -> 0 <= B -> B mod Z.min al bs = 0 -> zlen rows = cdiv B bs ->
  (forall i row, rows !! i = Some row -> row_of (Z.min ((Z.of_nat i + 1) * bs) B) row) ->
  zlen (py_upto (cdiv L bs) rows) = cdiv L bs /\
  (forall i row, py_upto (cdiv L bs) rows !! i = Some row -> row_of (Z.min ((Z.of_nat i + 1) * bs) B) row).
Proof.
  intros Hb Ha HB Hu Hr Hrow. assert (0 <= L <= B) as HL.
  { assert (0 <= R <= B) as HR.
    { unfold R. destruct (eagle && (B >? 0)) eqn:E; [|lia]. bools. apply Z.div_exact in Hu; [|lia].
      assert (0 < B / Z.min al bs) by nia. nia. }
    unfold L. pose proof (Z.mod_le R al ltac:(lia) Ha). pose proof (Z.mod_pos_bound R al Ha). lia. }
  pose proof (cdiv_spec L bs Hb). pose proof (cdiv_spec B bs Hb).
  assert (0 <= cdiv L bs <= zlen rows) as Hc by (rewrite Hr; nia).
  unfold py_upto. rewrite slice_bound_in by done. split; [rewrite length_take; lia|].
  intros i row [Hi _]%lookup_take_Some. by apply Hrow.
Qed.

Lemma prefix_cached_rows n : 0 < bs -> (forall i, 0 <= i < n -> covered p gs hs hbs ((i + 1) * bs)) -> prefix_cached (n * bs).
Proof.
  intros Hb Hc. split; [intros i Hi Hle; apply Hc; nia|]. intros Hm. by rewrite Z.mod_mul in Hm by lia.
Qed.

Lemma row_covered t row : row_of t row -> covered p gs hs hbs t.
Proof. intros (h & ? & ?). by exists h, row. Qed.

(** The cached rows end at a block boundary. *)
Lemma whole_found rows max_length u :
  0 < bs -> 0 < u ->
  (forall i row, rows !! i = Some row -> row_of ((Z.of_nat i + 1) * bs) row) ->
  (forall B, prefix_cached B -> B <= max_length -> B / bs <= zlen rows) ->
  (forall B, 0 <= B <= max_length -> B mod u = 0 -> prefix_cached B -> zlen rows * bs < B -> False) ->
  prefix_cached (zlen rows * bs) /\
  (forall B, 0 <= B <= max_length -> B mod u = 0 -> prefix_cached B -> B <= zlen rows * bs) /\
  zlen rows = cdiv (zlen rows * bs) bs /\
  (forall i row, rows !! i = Some row -> row_of (Z.min ((Z.of_nat i + 1) * bs) (zlen rows * bs)) row).
Proof.
  intros Hb Hu Hrows Hmx Hno. split_and!.
  - apply prefix_cached_rows; [done|]. intros i Hi.
    destruct (lookup_lt_is_Some_2 rows (Z.to_nat i)) as [row Hr]; [lia|]. eapply row_covered.
    replace i with (Z.of_nat (Z.to_nat i)) by lia. by apply Hrows.
  - intros B HB HBu Hc. destruct (Z.le_gt_cases B (zlen rows * bs)) as [|Hgt]; [done|]. by destruct (Hno B HB HBu Hc).
  - pose proof (cdiv_spec (zlen rows * bs) bs Hb). nia.
  - intros i row Hi. apply lookup_lt_Some in Hi as Hlt. rewrite Z.min_l by nia. by apply Hrows.
Qed.

(** ... or inside a block. *)
Lemma partial_found rows i row max_length (n := zlen rows) :
  0 < hbs -> 0 < bs ->
  (forall i row, rows !! i = Some row -> row_of ((Z.of_nat i + 1) * bs) row) ->
  (forall B, prefix_cached B -> B <= max_length -> B / bs <= n) ->
  n * bs < (i + 1) * hbs < (n + 1) * bs -> (i + 1) * hbs <= max_length -> row_of ((i + 1) * hbs) row ->
  (forall t, (i + 1) * hbs < t < (n + 1) * bs -> t mod hbs = 0 -> t <= max_length -> ~ covered p gs hs hbs t) ->
  0 <= (i + 1) * hbs /\ prefix_cached ((i + 1) * hbs) /\
  (forall B, 0 <= B <= max_length -> B mod hbs = 0 -> prefix_cached B -> B <= (i + 1) * hbs) /\
  zlen (rows ++ [row]) = cdiv ((i + 1) * hbs) bs /\
  (forall j r, (rows ++ [row]) !! j = Some r -> row_of (Z.min ((Z.of_nat j + 1) * bs) ((i + 1) * hbs)) r).
Proof.
  intros Hh Hb Hrows Hmx Hi Hi2 Hrow Hno. split_and!; [nia| | | |].
  - split; [|intros _; by eapply row_covered]. intros j Hj Hle. assert (j < n) by nia.
    destruct (lookup_lt_is_Some_2 rows (Z.to_nat j)) as [r Hr]; [lia|]. eapply row_covered.
    replace j with (Z.of_nat (Z.to_nat j)) by lia. by apply Hrows.
  - intros B HB Hu Hc. destruct (Z.le_gt_cases B ((i + 1) * hbs)) as [|Hgt]; [done|exfalso].
    pose proof (Hmx B Hc ltac:(lia)). pose proof (Z.div_mod B bs ltac:(lia)). pose proof (Z.mod_pos_bound B bs Hb).
    apply (Hno B); [nia|done|lia|]. apply Hc. nia.
  - rewrite length_app. simpl. pose proof (cdiv_spec ((i + 1) * hbs) bs Hb). nia.
  - intros j r Hr. destruct (decide (j < length rows)%nat) as [Hlt|Hge].
    + rewrite lookup_app_l in Hr by done. rewrite Z.min_l by nia. by apply Hrows.
    + apply lookup_lt_Some in Hr as Hlt. rewrite length_app in Hlt. simpl in Hlt.
      assert (j = length rows) as -> by lia. rewrite lookup_app_r, Nat.sub_diag in Hr by lia. injection Hr as <-.
      fold n. rewrite Z.min_r by lia. done.
Qed.

(** What the two phases find. *)
Lemma full_search_ok max_length eagle al :
  full_args_ok p gs bs al max_length ->
  exists rows B, 0 <= B <= max_length /\ B mod Z.min al bs = 0 /\ prefix_cached B /\
  (forall B', 0 <= B' <= max_length -> B' mod Z.min al bs = 0 -> prefix_cached B' -> B' <= B) /\
  zlen rows = cdiv B bs /\
  (forall i row, rows !! i = Some row -> row_of (Z.min ((Z.of_nat i + 1) * bs) B) row) /\
  full_attention_search p gs (Raw hs) max_length bs eagle al =
    let R := if eagle && (B >? 0) then B - Z.min al bs else B in
    Ok (trim_each (cdiv (R - R mod al) bs) (by_group (length gs) rows), R - R mod al).
Proof.
  intros Ha. pose proof Ha as [Hl Hh [Hb Hm] [Ha0 Hal] Hmax]. unfold full_attention_search.
  destruct (full_hash_list p gs bs al max_length hs Ha) as (hashes & full & F & -> & E2 & E3 & HF & Ef & Hraw).
  cbn [obind]. rewrite E2. cbn [obind]. rewrite E3. cbn [obind].
  rewrite (by_group_replicate (length gs) gs 0%nat 0 eq_refl : map (fun _ => []) gs = _), full_run_ok by done. cbn [obind app replicate].
  assert (0 < length gs)%nat as Hk by (destruct gs; [by destruct (lk_some _ _ Hl)|simpl; lia]).
  rewrite by_group_first by done. cbn [obind].
  destruct (phase1 F max_length Hh Hb Hm HF Hmax) as (Hn & Hrows & Hmx).
  set (rows := leading p gs _) in *. rewrite Ef.
  destruct (decide (al < bs)) as [Hf|Hf]; [rewrite bool_decide_true by done|rewrite bool_decide_false by done].
  - destruct Hal as [Hal|[-> _]]; [rewrite Z.mod_small in Hal; lia|]. rewrite Hraw, Z.min_l by (done || lia).
    destruct (phase2 max_length (zlen rows) Hl Hh Hf Hm Hmax ltac:(lia)) as (r & Er & Hr). rewrite Er. cbn [obind].
    destruct r as [[i row]|].
    + destruct Hr as (Hi & Hi2 & Hrow & Hno). exists (rows ++ [row]), ((i + 1) * hbs).
      destruct (partial_found rows i row max_length Hh Hb Hrows Hmx Hi Hi2 Hrow Hno) as (? & ? & ? & ? & ?).
      split_and!; try done; [by apply Z.mod_mul; lia|].
      rewrite by_group_snoc; [done|]. destruct Hrow as (h & _ & Hrow). by eapply hit_length.
    + exists rows, (zlen rows * bs). destruct (whole_found rows max_length hbs Hb ltac:(lia) Hrows Hmx) as (? & ? & ? & ?).
      { intros B' HB' Hu Hc Hgt. pose proof (Hmx B' Hc ltac:(lia)). pose proof (Z.div_mod B' bs ltac:(lia)).
        pose proof (Z.mod_pos_bound B' bs Hb). apply (Hr B'); [nia|done|lia|]. apply Hc. nia. }
      split_and!; try done; [nia|]. apply Z.mod_divide; [lia|]. apply Z.divide_mul_r. by apply Z.mod_divide; [lia|].
  - assert (match hashes with Raw _ | _ => Ok None end = Ok (@None (Z * list nat))) as -> by (by destruct hashes). cbn [obind].
    exists rows, (zlen rows * bs). rewrite Z.min_r by lia.
    destruct (whole_found rows max_length bs Hb ltac:(lia) Hrows Hmx) as (? & ? & ? & ?).
    { intros B' HB' Hu Hc Hgt. pose proof (Hmx B' Hc ltac:(lia)). apply Z.div_exact in Hu; [|lia]. nia. }
    split_and!; try done; [nia|by apply Z.mod_mul; lia].
Qed.

(** C12: full attention. A lookup finds the longest cached prefix: among the
    lengths up to [max_length] at the granularity of the lookup (whole blocks,
    or hash units in fine-grained mode) it reaches the largest [B] whose full
    blocks and final partial block are all cached in every group; it returns
    that length, less one unit when EAGLE must recompute the last one, rounded
    down to the alignment, with exactly the blocks that cover it, each of which
    is the block cached for its prefix. *)
Theorem full_attention_longest_hit (max_length : Z) (spec : KVCacheSpec) (eagle : bool) (al dcp : Z) :
  (forall w e, kind spec <> SlidingWindow w e) -> bs = group_block_size spec dcp ->
  full_args_ok p gs bs al max_length ->
  exists rows B L, full_attention_hit p gs (Raw hs) max_length spec eagle al dcp = Ok (by_group (length gs) rows, L) /\
  0 <= B <= max_length /\ B mod Z.min al bs = 0 /\ prefix_cached B /\
  (forall B', 0 <= B' <= max_length -> B' mod Z.min al bs = 0 -> prefix_cached B' -> B' <= B) /\
  (let R := if eagle && (B >? 0) then B - Z.min al bs else B in L = R - R mod al) /\
  zlen rows = cdiv L bs /\
  (forall i row, rows !! i = Some row -> row_of (Z.min ((Z.of_nat i + 1) * bs) B) row).
Proof.
  intros Hk Hbs Ha. destruct (full_search_ok max_length eagle al Ha) as (rows & B & HB & Hu & Hc & Hmx & Hlen & Hrow & E).
  pose proof Ha as [_ _ [Hb _] [Ha0 _] _].
  destruct (cut_rows rows B al eagle Hb Ha0 (proj1 HB) Hu Hlen Hrow) as [Hl Hr].
  eexists _, B, _. split.
  - unfold full_attention_hit. fold (group_block_size spec dcp). rewrite <- Hbs, E. cbv zeta. rewrite <- by_group_trim.
    destruct (kind spec) as [|w e|c|w]; try reflexivity. by destruct (Hk w e).
  - split_and!; done || lia.
Qed.
End full.

(** * Sliding windows *)

Section window.
Context (p : BlockPool) (gs : list Z) (hl : BlockHashList) (bs al need : Z) (eagle : bool) (N : Z).
Abbreviation k := (length gs).

Definition cached_at (i : Z) (row : list nat) : Prop := exists h, hl_get hl i = Some h /\ hit p gs h = Some row.
(** A run of blocks may end at [e]: the prefix it leaves is aligned. *)
Definition aligned_end (e : Z) : Prop := bs = al \/ (if eagle then e - 1 else e) * bs mod al = 0.
(** Blocks [lo, hi) are cached. *)
Definition run (lo hi : Z) : Prop := forall j, lo <= j < hi -> exists row, cached_at j row.
Definition valid_end (e : Z) : Prop := 1 <= e <= N /\ aligned_end e /\ run (Z.max 0 (e - Z.max 1 need)) e.

(** The search between two rounds: [i] blocks are left, the last [c] of those
    seen form a run. *)
Record searching (i c : Z) (rows : list (list nat)) : Prop := {
  se_range : 0 <= i /\ 0 <= c < Z.max 1 need /\ i + c <= N /\ zlen rows = N;
  se_run : run i (i + c);
  se_rows : forall j, i <= j < i + c -> exists row, rows !! Z.to_nat j = Some row /\ cached_at j row;
  se_null : forall j row, j < i -> rows !! Z.to_nat j = Some row -> 0 <= j -> row = replicate k (null_block p);
  se_end : 0 < c -> aligned_end (i + c);
  se_max : forall e, i + c < e -> ~ valid_end e
}.

Lemma search_miss i c rows h :
  searching (i + 1) c rows -> 0 <= i -> hl_get hl i = Some h -> hit p gs h = None -> searching i 0 rows.
Proof.
  intros [Hr Hrun Hrows Hnull He Hmax] Hi Hh Hno. split.
  - lia.
  - intros j Hj. lia.
  - intros j Hj. lia.
  - intros j row Hj. apply Hnull. lia.
  - lia.
  - intros e He1 Hv. destruct (Z.lt_ge_cases (i + 1 + c) e) as [Hlt|Hge]; [by destruct (Hmax e Hlt)|].
    destruct Hv as (_ & _ & Hrn). destruct (Hrn i) as [row (h' & Hh' & Hrow)]; [lia|]. congruence.
Qed.

Lemma search_skip i rows : searching (i + 1) 0 rows -> 0 <= i -> ~ aligned_end (i + 1) -> searching i 0 rows.
Proof.
  intros [Hr Hrun Hrows Hnull He Hmax] Hi Hal. split; [lia|intros j Hj; lia|intros j Hj; lia| |lia|].
  - intros j row Hj. apply Hnull. lia.
  - intros e He1 Hv. destruct (decide (e = i + 1)) as [->|]; [by destruct Hv as (_ & ? & _)|].
    apply (Hmax e); [lia|done].
Qed.

Lemma search_extend i c rows row :
  searching (i + 1) c rows -> 0 <= i -> cached_at i row -> aligned_end (i + 1 + c) ->
  run i (i + (c + 1)) /\
  (forall j, i <= j < i + (c + 1) -> exists r, <[Z.to_nat i := row]> rows !! Z.to_nat j = Some r /\ cached_at j r) /\
  (forall j r, j < i -> <[Z.to_nat i := row]> rows !! Z.to_nat j = Some r -> 0 <= j -> r = replicate k (null_block p)) /\
  (forall e, i + (c + 1) < e -> ~ valid_end e).
Proof.
  intros [Hr Hrun Hrows Hnull He Hmax] Hi Hc Hal. split_and!.
  - intros j Hj. destruct (decide (j = i)) as [->|]; [by exists row|]. apply Hrun. lia.
  - intros j Hj. destruct (decide (j = i)) as [->|].
    + exists row. split; [|done]. apply list_lookup_insert_eq. lia.
    + destruct (Hrows j) as (r & ? & ?); [lia|]. exists r. rewrite list_lookup_insert_ne by lia. done.
  - intros j r Hj Hl H0. rewrite list_lookup_insert_ne in Hl by lia. eapply (Hnull j); [lia|done..].
  - intros e He1. apply Hmax. lia.
Qed.

(** What the search returns. *)
Definition search_result (found : bool) (rows : list (list nat)) (n : Z) : Prop :=
  if found then n = Z.max 1 need /\ exists e, n <= e /\ zlen rows = e /\ valid_end e /\
    (forall j, e - n <= j < e -> exists row, rows !! Z.to_nat j = Some row /\ cached_at j row) /\
    (forall j row, 0 <= j < e - n -> rows !! Z.to_nat j = Some row -> row = replicate k (null_block p)) /\
    (forall e', e < e' -> ~ valid_end e')
  else searching 0 n rows.

Lemma aligned_end_test i c :
  0 < al -> (c =? 0) && negb (bs =? al) && negb ((if eagle then i else i + 1) * bs mod al =? 0) = false ->
  (0 < c -> aligned_end (i + 1 + c)) -> 0 <= c -> aligned_end (i + 1 + c).
Proof.
  intros Ha Hb Hc Hc0. destruct (decide (c = 0)) as [->|]; [|apply Hc; lia]. simpl in Hb.
  unfold aligned_end. destruct (bs =? al) eqn:E; bools; [by left|]. right. simpl in Hb. bools.
  rewrite Z.add_0_r. destruct eagle; [by rewrite Z.add_simpl_r|done].
Qed.

Lemma search_done i c rows :
  1 <= i /\ 0 <= c /\ i + c <= N /\ zlen rows = N -> c + 1 = Z.max 1 need ->
  aligned_end (i - 1 + 1 + c) -> run (i - 1) (i - 1 + (c + 1)) ->
  (forall j, i - 1 <= j < i - 1 + (c + 1) -> exists r, rows !! Z.to_nat j = Some r /\ cached_at j r) ->
  (forall j r, j < i - 1 -> rows !! Z.to_nat j = Some r -> 0 <= j -> r = replicate k (null_block p)) ->
  (forall e, i - 1 + (c + 1) < e -> ~ valid_end e) ->
  search_result true (py_upto (i - 1 + (c + 1)) rows) (c + 1).
Proof.
  intros Hr Hn Hal Hrun Hrows Hnull Hmax. split; [done|]. exists (i - 1 + (c + 1)).
  unfold py_upto. rewrite slice_bound_in by lia. split_and!.
  - lia.
  - rewrite length_take. lia.
  - split_and!; [lia|lia|by replace (i - 1 + (c + 1)) with (i - 1 + 1 + c) by lia|]. intros j Hj. apply Hrun. lia.
  - intros j Hj. destruct (Hrows j) as (r & ? & ?); [lia|]. exists r. split; [|done]. rewrite lookup_take_lt; [done|lia].
  - intros j r Hj [Hl _]%lookup_take_Some. apply (Hnull j); [lia|done|lia].
  - done.
Qed.

Lemma window_search_ok i c rows :
  lookup_ok p gs -> 0 < al -> (forall j, 0 <= j < N -> exists h, hl_get hl j = Some h) -> searching i c rows ->
  exists found rows' n, window_search p gs hl bs al need eagle (py_range_down (i - 1) (-1)) (by_group k rows) c =
    Ok (found, by_group k rows', n) /\ search_result found rows' n.
Proof.
  intros Hl Ha Hh. remember (Z.to_nat i) as m eqn:Em. revert i c rows Em.
  induction m as [|m IH]; intros i c rows Em Hs.
  { assert (i = 0) as -> by (destruct (se_range _ _ _ Hs); lia).
    unfold py_range_down. rewrite py_range_nil by lia. simpl. exists false, rows, c. split; [done|]. exact Hs. }
  assert (py_range_down (i - 1) (-1) = (i - 1) :: py_range_down (i - 1 - 1) (-1)) as ->.
  { unfold py_range_down. rewrite <- reverse_snoc. f_equal. unfold py_range.
    replace (i - 1 + 1 - (-1 + 1)) with (i - 1 - 1 + 1 - (-1 + 1) + 1) by lia. rewrite seqZ_app by lia.
    f_equal. replace (-1 + 1 + (i - 1 - 1 + 1 - (-1 + 1))) with (i - 1) by lia. done. }
  pose proof (se_range _ _ _ Hs) as Hr. destruct (Hh (i - 1)) as [h Eh]; [lia|]. cbn [window_search]. rewrite Eh. simpl.
  rewrite probe_hit by done. simpl. replace i with (i - 1 + 1) in Hs by lia.
  destruct (hit p gs h) as [row|] eqn:Er.
  - destruct ((c =? 0) && _ && _) eqn:Eb.
    + pose proof Eb as Eb'. bools. subst c. apply (IH (i - 1) 0 rows); [lia|]. apply search_skip; [done|lia|].
      intros [|Hal]; [done|]. destruct eagle; simpl in *; rewrite ?Z.add_simpl_r in Hal; done.
    + apply aligned_end_test in Eb; [|done|apply (se_end _ _ _ Hs)|lia].
      destruct (search_extend (i - 1) c rows row Hs ltac:(lia) ltac:(by exists h) Eb) as (Hrun & Hrows & Hnull & Hmax).
      rewrite by_group_set by (by eapply hit_length). destruct (c + 1 >=? need) eqn:En; bools.
      * eexists true, _, _. split; [by rewrite <- by_group_trim|].
        apply (search_done i c); [rewrite length_insert; lia|lia|done..].
      * apply (IH (i - 1) (c + 1)); [lia|]. split; try done; [|intros _; by replace (i - 1 + (c + 1)) with (i - 1 + 1 + c) by lia].
        rewrite length_insert. lia.
  - apply (IH (i - 1) 0 rows); [lia|]. by eapply search_miss; [|lia|..].
Qed.
End window.

(** ** Trimming to the alignment *)

Section trimming.
Context (k : nat) (bs al : Z).

Definition aligned_len (n : nat) : Prop := bs = al \/ Z.of_nat n * bs mod al = 0.
#[local] Instance aligned_len_dec n : Decision (aligned_len n).
Proof. unfold aligned_len. apply _. Defined.

(** The longest aligned prefix not longer than [n]. *)
Record aligned_below (n r : nat) : Prop := {
  ab_le : (r <= n)%nat;
  ab_ok : aligned_len r;
  ab_max : forall m, (r < m <= n)%nat -> ~ aligned_len m
}.

Lemma aligned_below_self n r : aligned_below n r -> aligned_len n -> r = n.
Proof.
  intros [Hle _ Hmax] Hn. destruct (decide (r = n)) as [|Hne]; [done|]. destruct (Hmax n); [lia|done].
Qed.

Lemma pop_rows (rows : list (list nat)) : pop_each (by_group k rows) = by_group k (take (length rows - 1) rows).
Proof.
  unfold pop_each. fold (trim_each (-1) (by_group k rows)). rewrite <- by_group_trim. f_equal.
  unfold py_upto, slice_bound. simpl. f_equal. lia.
Qed.

Lemma pop_to_aligned_ok fuel rows :
  (0 < k)%nat -> (length rows <= fuel)%nat ->
  exists r, pop_to_aligned fuel bs al (by_group k rows) = Ok (by_group k (take r rows)) /\ aligned_below (length rows) r.
Proof.
  intros Hk. revert rows. induction fuel as [|fuel IH]; intros rows Hl; cbn [pop_to_aligned];
    rewrite by_group_first by done; cbn [obind].
  - destruct rows; [|simpl in Hl; lia]. rewrite Zmod_0_l, andb_false_r. exists 0%nat. split; [done|].
    split; [done|by right|intros m Hm; simpl in Hm; lia].
  - destruct (negb (bs =? al) && _) eqn:E.
    + bools. destruct rows as [|r0 rows]; [by rewrite Zmod_0_l in *|]. rewrite pop_rows.
      destruct (IH (take (length (r0 :: rows) - 1) (r0 :: rows))) as (r & -> & [Hle Hok Hmax]);
        [rewrite length_take; simpl in *; lia|]. rewrite length_take in *. exists r. split.
      * f_equal. f_equal. rewrite take_take. f_equal. simpl in *. lia.
      * split; [simpl in *; lia|done|]. intros m Hm Hal.
        destruct (decide (m = length (r0 :: rows))) as [->|]; [by destruct Hal|]. apply (Hmax m); [simpl in *; lia|done].
    + exists (length rows). rewrite take_ge by lia. split; [done|]. split; [lia| |lia].
      apply andb_false_iff in E as [E|E]; bools; [by left|by right].
Qed.

(** The EAGLE step and the result. *)
Lemma window_tail_ok fuel rows (eagle : bool) :
  (0 < k)%nat -> (length rows <= fuel)%nat -> aligned_len (length rows) \/ eagle = true ->
  exists r, (let? n := first_len (by_group k rows) in
      let? computed := (if eagle && negb (n =? 0)
                        then pop_to_aligned fuel bs al (pop_each (by_group k rows)) else Ok (by_group k rows)) in
      let? n := first_len computed in Ok (computed, n * bs)) = Ok (by_group k (take r rows), Z.of_nat r * bs) /\
    aligned_len r /\ (r <= length rows)%nat /\
    (if eagle then aligned_below (length rows - 1) r else r = length rows).
Proof.
  intros Hk Hl Hal. rewrite by_group_first by done. cbn [obind]. destruct eagle; simpl.
  - destruct (zlen rows =? 0) eqn:E; bools; simpl.
    + assert (rows = []) as -> by (apply length_zero_iff_nil; lia). rewrite by_group_first by done. simpl.
      exists 0%nat. split_and!; [done|by right|lia|]. split; [lia|by right|simpl; lia].
    + rewrite pop_rows. destruct (pop_to_aligned_ok fuel (take (length rows - 1) rows) Hk) as (r & -> & Hb).
      { rewrite length_take. lia. }
      rewrite length_take in Hb. assert (r <= length rows - 1)%nat by (destruct Hb; lia).
      simpl. rewrite take_take, by_group_first, length_take by done. simpl. exists r. split_and!.
      * f_equal. f_equal; [do 2 f_equal; lia|]. f_equal. lia.
      * apply Hb.
      * lia.
      * by replace (length rows - 1)%nat with ((length rows - 1) `min` length rows)%nat by lia.
  - rewrite by_group_first by done. simpl. exists (length rows). rewrite take_ge by lia. destruct Hal; [|done].
    split_and!; done || lia.
Qed.
End trimming.

(** ** The lookup *)

Record window_args_ok (p : BlockPool) (gs : list Z) (hs : list bytes) (bs al window max_length : Z) : Prop := {
  wa_lookup : lookup_ok p gs;
  wa_hbs : 0 < hash_block_size p;
  wa_bs : 0 < bs /\ bs mod hash_block_size p = 0;
  wa_al : 0 < al;
  wa_window : 1 < window;
  wa_max : 0 <= max_length /\ max_length / bs * (bs / hash_block_size p) <= zlen hs
}.

Lemma window_hashes p gs hs bs al window max_length :
  window_args_ok p gs hs bs al window max_length ->
  exists hl, resolve_block_hashes (Raw hs) (hash_block_size p) bs false (Some al) = Ok hl /\
  forall j, 0 <= j < max_length / bs ->
    hl_get hl j = prefix_hash hs (hash_block_size p) ((j + 1) * bs) /\ exists h, hl_get hl j = Some h.
Proof.
  intros [_ Hh [Hb Hm] _ _ [Hmax Hn]].
  destruct (resolve_ok hs (hash_block_size p) bs Hh Hb Hm) as (hl & E & Hget & _). exists hl.
  split; [exact E|]. intros j Hj. apply Z.div_exact in Hm as Hd; [|lia]. assert (0 < bs / hash_block_size p) by nia.
  assert (hl_get hl j = prefix_hash hs (hash_block_size p) ((j + 1) * bs)) as Ej.
  { rewrite Hget by nia. unfold boundary_hash, prefix_hash. do 3 f_equal.
    rewrite Hd at 2. rewrite (Z.mul_comm (hash_block_size p)), Z.mul_assoc, Z.div_mul; lia. }
  split; [done|]. rewrite Ej. unfold prefix_hash. apply lookup_lt_is_Some_2.
  rewrite Hd at 1. rewrite (Z.mul_comm (hash_block_size p)), Z.mul_assoc, Z.div_mul by lia. nia.
Qed.

Section window_hit.
Context (p : BlockPool) (gs : list Z) (hs : list bytes) (bs al window max_length : Z) (eagle : bool).
Abbreviation k := (length gs).
Abbreviation hbs := (hash_block_size p).
Abbreviation W := (cdiv (window - 1) bs).
Abbreviation E := (if eagle then 1 else 0).

(** [n] blocks can be resumed from: their last [W] blocks, and the one EAGLE
    recomputes, are cached. *)
Definition resumable (n : Z) : Prop :=
  0 < n /\ n + E <= max_length / bs /\ (bs = al \/ n * bs mod al = 0) /\
  forall j, Z.max 0 (n - W) <= j < n + E -> covered p gs hs hbs ((j + 1) * bs).

Definition window_rows (n : nat) (rows : list (list nat)) : Prop :=
  (forall j, Z.max 0 (Z.of_nat n - W) <= j < Z.of_nat n ->
     exists row, rows !! Z.to_nat j = Some row /\ row_of p gs hs ((j + 1) * bs) row) /\
  forall j row, rows !! j = Some row ->
    row = replicate k (null_block p) \/ row_of p gs hs ((Z.of_nat j + 1) * bs) row.

Lemma resumable_valid hl n :
  1 <= W -> (forall j, 0 <= j < max_length / bs -> hl_get hl j = prefix_hash hs hbs ((j + 1) * bs)) ->
  resumable n -> valid_end p gs hl bs al (W + E) eagle (max_length / bs) (n + E).
Proof.
  intros HW Hh (Hn & Hle & Hal & Hc). split; [destruct eagle; lia|]. split.
  - unfold aligned_end. destruct eagle; [by rewrite Z.add_simpl_r|by rewrite Z.add_0_r].
  - intros j Hj. destruct (Hc j) as (h & row & Eh & Hrow); [destruct eagle; lia|]. exists row, h.
    by rewrite Hh by (destruct eagle; lia).
Qed.

Definition hashes_at (hl : BlockHashList) : Prop :=
  forall j, 0 <= j < max_length / bs -> hl_get hl j = prefix_hash hs hbs ((j + 1) * bs).

Lemma cached_row hl j row :
  hashes_at hl -> 0 <= j < max_length / bs -> cached_at p gs hl j row -> row_of p gs hs ((j + 1) * bs) row.
Proof. intros Hh Hj (h & E & Hrow). exists h. by rewrite <- Hh. Qed.

(** The result after a run that is long enough. *)
Lemma found_rows hl rows n r :
  1 <= W -> hashes_at hl -> search_result p gs hl bs al (W + E) eagle (max_length / bs) true rows n ->
  aligned_len bs al r -> (if eagle then aligned_below bs al (length rows - 1) r else r = length rows) ->
  window_rows r (take r rows) /\ Z.of_nat r + E <= max_length / bs /\ (forall n', resumable n' -> n' <= Z.of_nat r).
Proof.
  intros HW Hh (Hn & e & Hne & Hl & Hv & Hrows & Hnull & Hmax) Hal Hr.
  assert (Z.of_nat r = e - E) as Er.
  { destruct Hv as (He & Hae & _). destruct eagle; [|subst r; lia].
    rewrite (aligned_below_self _ _ _ _ Hr); [lia|]. destruct Hae as [|Hae]; [by left|right].
    by replace (Z.of_nat (length rows - 1)) with (e - 1) by lia. }
  assert (r <= length rows)%nat as Hrl by (destruct eagle; lia).
  destruct Hv as (He & _). split_and!; [split| |].
  - intros j Hj. destruct (Hrows j) as (row & Hrow & Hc); [destruct eagle; lia|]. exists row.
    rewrite lookup_take_lt by lia. split; [done|]. eapply cached_row; [done|destruct eagle; lia|done].
  - intros j row [Hj Hlt]%lookup_take_Some. destruct (Z.lt_ge_cases (Z.of_nat j) (e - n)).
    + left. apply (Hnull (Z.of_nat j)); [lia|by rewrite Nat2Z.id].
    + right. destruct (Hrows (Z.of_nat j)) as (row' & Hrow' & Hc); [lia|]. rewrite Nat2Z.id in Hrow'. simplify_eq.
      eapply cached_row; [done|lia|done].
  - destruct eagle; lia.
  - intros n' Hn'. pose proof (resumable_valid hl n' HW Hh Hn') as Hv'.
    destruct (Z.le_gt_cases (n' + E) e) as [|Hgt]; [lia|]. by destruct (Hmax _ Hgt).
Qed.

(** ... and when the search ends in a shorter run from the first block. *)
Lemma prefix_rows hl rows c r1 r :
  1 <= W -> hashes_at hl -> searching p gs hl bs al (W + E) eagle (max_length / bs) 0 c rows ->
  aligned_below bs al (Z.to_nat c) r1 -> aligned_len bs al r ->
  (if eagle then aligned_below bs al (r1 - 1) r else r = r1) ->
  window_rows r (take r rows) /\ (r = 0%nat \/ Z.of_nat r + E <= max_length / bs) /\
  (eagle = false \/ bs = al -> forall n', resumable n' -> n' <= Z.of_nat r).
Proof.
  intros HW Hh [Hrg Hrun Hrows Hnull He Hmax] Hr1 Hal Hr.
  assert (Z.of_nat r <= c) as Hrc by (destruct Hr1, eagle; [destruct Hr|]; lia).
  assert (forall j, 0 <= j < c -> exists row, rows !! Z.to_nat j = Some row /\ row_of p gs hs ((j + 1) * bs) row) as Hall.
  { intros j Hj. destruct (Hrows j) as (row & ? & ?); [lia|]. exists row. split; [done|].
    eapply cached_row; [done|lia|done]. }
  split_and!; [split| |].
  - intros j Hj. destruct (Hall j) as (row & ? & ?); [lia|]. exists row. by rewrite lookup_take_lt by lia.
  - intros j row [Hj Hlt]%lookup_take_Some. right. destruct (Hall (Z.of_nat j)) as (row' & Hrow' & Hc); [lia|].
    rewrite Nat2Z.id in Hrow'. by simplify_eq.
  - destruct Hr1, eagle; [destruct Hr|]; lia.
  - intros Hcase n' Hn'. pose proof (resumable_valid hl n' HW Hh Hn') as Hv'.
    destruct (Z.le_gt_cases (n' + E) c) as [Hle|Hgt]; [|by destruct (Hmax (n' + E)); [lia|]].
    assert (0 < n') by (by destruct Hn').
    assert (aligned_len bs al (Z.to_nat c)) as Hc.
    { destruct Hcase as [->|]; [|by left]. destruct (He ltac:(lia)) as [|Ha]; [by left|]. right.
      by rewrite Z2Nat.id by lia. }
    rewrite (aligned_below_self _ _ _ _ Hr1 Hc) in Hr. destruct eagle; [|lia]. destruct Hcase as [|Hba]; [done|].
    rewrite (aligned_below_self _ _ _ _ Hr); [lia|by left].
Qed.

Lemma window_search_start hl :
  0 <= max_length / bs -> searching p gs hl bs al (W + E) eagle (max_length / bs) (max_length / bs) 0
    (replicate (Z.to_nat (max_length / bs)) (replicate k (null_block p))).
Proof.
  intros HN. split.
  - rewrite length_replicate. lia.
  - intros j Hj. lia.
  - intros j Hj. lia.
  - intros j row _ [-> _]%lookup_replicate. done.
  - lia.
  - intros e He [? _]. lia.
Qed.

Lemma window_hit_ok (spec : KVCacheSpec) (extra : Z) :
  kind spec = SlidingWindow window extra -> bs = spec_block_size spec ->
  window_args_ok p gs hs bs al window max_length ->
  exists rows, sliding_window_hit p gs (Raw hs) max_length spec eagle al 1 1 = Ok (by_group k rows, zlen rows * bs) /\
  zlen rows * bs <= max_length /\ (length rows = 0%nat \/ (zlen rows + E) * bs <= max_length) /\
  aligned_len bs al (length rows) /\ window_rows (length rows) rows /\
  (eagle = false \/ bs = al -> forall n', resumable n' -> n' <= zlen rows).
Proof.
  intros Hk Hbs Ha. pose proof Ha as [Hl Hh [Hb Hm] Ha0 Hw [Hmax Hn]]. unfold sliding_window_hit. rewrite Hk. simpl.
  rewrite <- Hbs. destruct (window_hashes _ _ _ _ _ _ _ Ha) as (hl & E1 & Hhl). rewrite E1. cbn [obind].
  assert (1 <= W) as HW by (pose proof (cdiv_spec (window - 1) bs Hb); nia).
  assert (0 <= max_length / bs) as HN by (apply Z.div_pos; lia).
  assert (hashes_at hl) as Hat by (intros j Hj; by apply Hhl).
  assert (0 < k)%nat as Hk0 by (destruct gs; [by destruct (lk_some _ _ Hl)|simpl; lia]).
  rewrite (by_group_replicate k) by done. unfold contiguous_blocks_for_hit.
  destruct (window_search_ok p gs hl bs al (W + E) eagle (max_length / bs) (max_length / bs) 0
              (replicate (Z.to_nat (max_length / bs)) (replicate k (null_block p))) Hl Ha0)
    as (found & rows & c & -> & Hres); [intros j Hj; by apply Hhl|by apply window_search_start|]. cbn [obind].
  pose proof (Z.mul_div_le max_length bs Hb) as Hmd. destruct found; cbn [obind].
  - pose proof Hres as (_ & e & Hne & Hel & (He & Hae & _) & _).
    destruct (window_tail_ok k bs al (Z.to_nat (max_length / bs)) rows eagle Hk0) as (r & -> & Hal & Hrl & Hr); [lia| |].
    { destruct eagle; [by right|left]. destruct Hae as [|Hae]; [by left|right]. by rewrite Hel. }
    destruct (found_rows hl rows c r HW Hat Hres Hal Hr) as (Hrows & Hle & Hmx).
    exists (take r rows). rewrite length_take, Nat.min_l by lia.
    split_and!; [done|destruct eagle; nia|right; destruct eagle; nia|done|done|by intros _].
  - rewrite <- by_group_trim. unfold py_upto. destruct (se_range _ _ _ _ _ _ _ _ _ _ _ Hres) as (_ & Hc & HcN & HlN).
    rewrite slice_bound_in by lia.
    destruct (pop_to_aligned_ok k bs al (Z.to_nat (max_length / bs)) (take (Z.to_nat c) rows) Hk0) as (r1 & -> & Hr1);
      [rewrite length_take; lia|]. cbn [obind]. rewrite length_take in Hr1. rewrite take_take.
    replace (Z.to_nat c `min` length rows)%nat with (Z.to_nat c) in Hr1 by lia. destruct (Hr1) as [Hr1c _ _].
    rewrite (Nat.min_l r1) by lia.
    destruct (window_tail_ok k bs al (Z.to_nat (max_length / bs)) (take r1 rows) eagle Hk0) as (r & -> & Hal & Hrl & Hr).
    { rewrite length_take. lia. }
    { left. rewrite length_take, Nat.min_l by lia. apply Hr1. }
    rewrite length_take, (Nat.min_l r1) in Hr, Hrl by lia. rewrite take_take, (Nat.min_l r) by lia.
    destruct (prefix_rows hl rows c r1 r HW Hat Hres Hr1 Hal Hr) as (Hrows & Hle & Hmx).
    exists (take r rows). rewrite length_take, Nat.min_l by lia.
    split_and!; [done|destruct eagle; nia| |done|done|done]. destruct Hle as [->|Hle]; [by left|right; destruct eagle; nia].
Qed.

(** C19: sliding windows. A lookup returns an aligned number of blocks, not
    longer than [max_length], from which decoding can resume: every block that
    overlaps the window behind the resumption point is the one cached for its
    prefix, and the blocks before are cached ones or the null block; with EAGLE
    it ends a block before [max_length]. Unless
    EAGLE is combined with an alignment other than the block size, no longer
    prefix could be resumed from. *)
Theorem sliding_window_longest_hit (spec : KVCacheSpec) (extra : Z) :
  kind spec = SlidingWindow window extra -> bs = spec_block_size spec ->
  window_args_ok p gs hs bs al window max_length ->
  exists rows n, sliding_window_hit p gs (Raw hs) max_length spec eagle al 1 1 = Ok (by_group k rows, n * bs) /\
  zlen rows = n /\ n * bs <= max_length /\ (n = 0 \/ (n + E) * bs <= max_length) /\ (bs = al \/ n * bs mod al = 0) /\ window_rows (Z.to_nat n) rows /\
  (eagle = false \/ bs = al -> forall n', resumable n' -> n' <= n).
Proof.
  intros Hk Hbs Ha. destruct (window_hit_ok spec extra Hk Hbs Ha) as (rows & E1 & Hmax & Hend & Hal & Hrows & Hmx).
  exists rows, (zlen rows). rewrite Nat2Z.id. split_and!; try done.
  destruct Hend as [Hz|Hend]; [left|by right]. by rewrite Hz.
Qed.
End window_hit.

(** * Chunked local attention *)

Section chunked.
Context (p : BlockPool) (gs : list Z) (hs : list bytes) (bs chunk max_length : Z).
Abbreviation k := (length gs).
Abbreviation hbs := (hash_block_size p).

Lemma chunk_run_ok hl N rows :
  lookup_ok p gs -> (forall j, 0 <= j < N -> hl_get hl j = prefix_hash hs hbs ((j + 1) * bs) /\ exists h, hl_get hl j = Some h) ->
  zlen rows <= N ->
  exists more, chunk_run p gs hl (py_range (zlen rows) N) (by_group k rows) = Ok (by_group k (rows ++ more)) /\
    zlen (rows ++ more) <= N /\
    (forall j row, more !! j = Some row -> row_of p gs hs ((zlen rows + Z.of_nat j + 1) * bs) row) /\
    (zlen (rows ++ more) < N -> ~ covered p gs hs hbs ((zlen (rows ++ more) + 1) * bs)).
Proof.
  intros Hl Hh. remember (Z.to_nat (N - zlen rows)) as m eqn:Em. revert rows Em.
  induction m as [|m IH]; intros rows Em Hle.
  { rewrite py_range_nil by lia. exists []. rewrite app_nil_r. split_and!; [done|lia| |lia]. intros j row Hj. done. }
  rewrite py_range_cons by lia. cbn [chunk_run]. destruct (Hh (zlen rows)) as [Ep [h Eh]]; [lia|]. rewrite Eh. simpl.
  rewrite probe_hit by done. simpl. destruct (hit p gs h) as [row|] eqn:Er.
  - rewrite by_group_snoc by (by eapply hit_length).
    destruct (IH (rows ++ [row])) as (more & E & Hn & Hrows & Hstop); [rewrite length_app; simpl; lia..|].
    rewrite length_app in E. simpl in E. replace (Z.of_nat (length rows + 1)) with (zlen rows + 1) in E by lia.
    exists (row :: more). rewrite <- app_assoc in *. simpl in *. split_and!; [done..| |done].
    intros [|j] r Hj; simpl in Hj.
    + injection Hj as <-. exists h. rewrite Z.add_0_r, <- Ep. done.
    + apply Hrows in Hj. rewrite length_app in Hj. simpl in Hj.
      by replace (zlen rows + Z.of_nat (S j) + 1) with (Z.of_nat (length rows + 1) + Z.of_nat j + 1) by lia.
  - exists []. rewrite app_nil_r. split_and!; [done|lia|intros j row Hj; done|]. intros _ (h' & row & E & Hrow).
    rewrite <- Ep, Eh in E. simplify_eq.
Qed.

Lemma chunked_hit_ok (spec : KVCacheSpec) (start := (if max_length >? 0 then max_length / chunk * chunk else 0) / bs) :
  kind spec = ChunkedLocalAttention chunk -> bs = spec_block_size spec -> 0 < chunk ->
  window_args_ok p gs hs bs bs 2 max_length ->
  exists rows, chunked_local_hit p gs (Raw hs) max_length spec false bs 1 1 = Ok (by_group k rows, zlen rows * bs) /\
  0 <= start <= zlen rows /\ zlen rows <= max_length / bs /\
  (forall j row, rows !! Z.to_nat j = Some row -> 0 <= j ->
     if j <? start then row = replicate k (null_block p) else row_of p gs hs ((j + 1) * bs) row) /\
  (zlen rows < max_length / bs -> ~ covered p gs hs hbs ((zlen rows + 1) * bs)).
Proof.
  intros Hk Hbs Hc Ha. pose proof Ha as [Hl Hh [Hb Hm] _ _ [Hmax Hn]]. unfold chunked_local_hit. rewrite Hk.
  rewrite <- Hbs, !Z.eqb_refl. simpl. destruct (window_hashes _ _ _ _ _ _ _ Ha) as (hl & E1 & Hhl). rewrite E1. cbn [obind].
  fold start. assert (0 <= start <= max_length / bs) as Hs.
  { unfold start. destruct (max_length >? 0) eqn:E; [|rewrite Z.div_0_l by lia; pose proof (Z.div_pos max_length bs Hmax Hb); lia].
    pose proof (Z.mul_div_le max_length chunk Hc). pose proof (Z.div_pos max_length chunk Hmax Hc).
    split; [apply Z.div_pos; nia|apply Z.div_le_mono; lia]. }
  assert (0 < k)%nat as Hk0 by (destruct gs; [by destruct (lk_some _ _ Hl)|simpl; lia]).
  rewrite (by_group_replicate k) by done.
  set (nulls := replicate (Z.to_nat start) (replicate k (null_block p))).
  assert (zlen nulls = start) as Hnl by (unfold nulls; rewrite length_replicate; lia).
  destruct (chunk_run_ok hl (max_length / bs) nulls Hl Hhl) as (more & E & Hle & Hrows & Hstop); [lia|].
  rewrite Hnl in E. rewrite E. cbn [obind]. rewrite by_group_first by done. cbn [obind].
  assert (start <= zlen (nulls ++ more)) by (rewrite length_app; lia).
  exists (nulls ++ more). split_and!; [done|lia|done|done| |done].
  intros j row Hj Hj0. destruct (j <? start) eqn:Ej; bools.
  - rewrite lookup_app_l in Hj by lia. by apply lookup_replicate in Hj as [-> _].
  - rewrite lookup_app_r in Hj by lia. apply Hrows in Hj.
    by replace (zlen nulls + Z.of_nat (Z.to_nat j - length nulls) + 1) with (j + 1) in Hj by lia.
Qed.

(** C20: chunked local attention. A lookup treats the blocks before the chunk
    of the next token as computed (null blocks) and extends them with the
    cached blocks of the current chunk, up to the first block that is not
    cached. *)
Theorem chunked_local_longest_hit (spec : KVCacheSpec) (start := (if max_length >? 0 then max_length / chunk * chunk else 0) / bs) :
  kind spec = ChunkedLocalAttention chunk -> bs = spec_block_size spec -> 0 < chunk ->
  window_args_ok p gs hs bs bs 2 max_length ->
  exists rows n, chunked_local_hit p gs (Raw hs) max_length spec false bs 1 1 = Ok (by_group k rows, n * bs) /\
  zlen rows = n /\ 0 <= start <= n /\ n <= max_length / bs /\
  (forall j row, rows !! Z.to_nat j = Some row -> 0 <= j ->
     if j <? start then row = replicate k (null_block p) else row_of p gs hs ((j + 1) * bs) row) /\
  (n < max_length / bs -> ~ covered p gs hs hbs ((n + 1) * bs)).
Proof.
  intros Hk Hbs Hc Ha. destruct (chunked_hit_ok spec Hk Hbs Hc Ha) as (rows & E & Hs & Hn & Hrows & Hstop).
  exists rows, (zlen rows). split_and!; done || lia.
Qed.
End chunked.

(** * Witnesses *)

(** A pool in which block 1 is cached under one hash. *)
Definition demo_hit : BlockPool :=
  match demo_request with
  | Some r => (run_op false (fun b => b) (OCachePartial r 1%nat 2 0 4 false) demo_two).2
  | None => demo_two
  end.
Definition demo_hash : bytes := [Byte.x01].
Definition demo_spec (block_size : Z) (k : spec_kind) : KVCacheSpec := mkSpec block_size k true "float16".
Definition demo_full_spec : KVCacheSpec := demo_spec 2 FullAttention.
Definition demo_window_spec : KVCacheSpec := demo_spec 2 (SlidingWindow 100 0).
Definition demo_chunk_spec : KVCacheSpec := demo_spec 2 (ChunkedLocalAttention 4).

Lemma demo_hit_reachable : reachable false (fun b => b) demo_hit.
Proof.
  destruct demo_request_ok as (r & Er & Hr & Hh). unfold demo_hit. rewrite Er.
  destruct (run_op false (fun b => b) (OCachePartial r 1%nat 2 0 4 false) demo_two) as [o p'] eqn:E.
  eapply reach_step; [exact demo_two_reachable| |exact E]. split; [exact Hr|]. rewrite Hh.
  split_and!; vm_compute; congruence.
Qed.

Lemma demo_lookup : lookup_ok demo_hit [0].
Proof.
  split; [|done|intros g ->%list_elem_of_singleton; lia].
  destruct (pool_reachable_inv _ _ _ demo_hit_reachable) as [free Hi]. apply Hi.
Qed.

#[local] Opaque demo_hit.

Lemma full_attention_longest_hit_witness :
  full_attention_hit demo_hit [0] (Raw [demo_hash; demo_hash; [Byte.x02]]) 6 demo_full_spec true 2 1 = Ok ([[1%nat]], 2) /\
  exists rows B L, full_attention_hit demo_hit [0] (Raw [demo_hash; demo_hash; [Byte.x02]]) 6 demo_full_spec true 2 1 =
    Ok (by_group 1 rows, L) /\ prefix_cached demo_hit [0] [demo_hash; demo_hash; [Byte.x02]] 2 B /\ zlen rows = cdiv L 2.
Proof.
  split; [vm_compute; reflexivity|].
  destruct (full_attention_longest_hit demo_hit [0] [demo_hash; demo_hash; [Byte.x02]] 2 6 demo_full_spec true 2 1)
    as (rows & B & L & E & _ & _ & Hc & _ & _ & Hl & _).
  - intros w e. discriminate.
  - reflexivity.
  - split; [exact demo_lookup|vm_compute; reflexivity|vm_compute; split; reflexivity|split; [lia|left; reflexivity]|lia].
  - exists rows, B, L. split; [exact E|]. split; [exact Hc|exact Hl].
Defined.

Lemma demo_window_args : window_args_ok demo_hit [0] [demo_hash; demo_hash; demo_hash] 2 2 100 6.
Proof.
  split; [exact demo_lookup|vm_compute; reflexivity|vm_compute; split; reflexivity|lia|lia|].
  split; [lia|vm_compute; congruence].
Qed.

Lemma sliding_window_longest_hit_witness :
  sliding_window_hit demo_hit [0] (Raw [demo_hash; demo_hash; demo_hash]) 6 demo_window_spec true 2 1 1 =
    Ok ([[1; 1]%nat], 4) /\
  exists rows n, sliding_window_hit demo_hit [0] (Raw [demo_hash; demo_hash; demo_hash]) 6 demo_window_spec true 2 1 1 =
    Ok (by_group 1 rows, n * 2) /\ zlen rows = n /\ n * 2 <= 6.
Proof.
  split; [vm_compute; reflexivity|].
  destruct (sliding_window_longest_hit demo_hit [0] [demo_hash; demo_hash; demo_hash] 2 2 100 6 true demo_window_spec 0
    eq_refl eq_refl demo_window_args) as (rows & n & E & Hn & Hle & _).
  exists rows, n. split; [exact E|]. split; [exact Hn|exact Hle].
Defined.

Lemma chunked_local_longest_hit_witness :
  chunked_local_hit demo_hit [0] (Raw [demo_hash; demo_hash; demo_hash]) 6 demo_chunk_spec false 2 1 1 =
    Ok ([[0; 0; 1]%nat], 6) /\
  exists rows n, chunked_local_hit demo_hit [0] (Raw [demo_hash; demo_hash; demo_hash]) 6 demo_chunk_spec false 2 1 1 =
    Ok (by_group 1 rows, n * 2) /\ zlen rows = n.
Proof.
  split; [vm_compute; reflexivity|].
  destruct (chunked_local_longest_hit demo_hit [0] [demo_hash; demo_hash; demo_hash] 2 4 6 demo_chunk_spec eq_refl eq_refl)
    as (rows & n & E & Hn & _); [lia| |].
  - split; [exact demo_lookup|vm_compute; reflexivity|vm_compute; split; reflexivity|lia|lia|].
    split; [lia|vm_compute; congruence].
  - exists rows, n. split; [exact E|exact Hn].
Defined.

(** With EAGLE and an alignment of two blocks, three cached blocks shorter than
    the window give no hit, although two blocks could be resumed from: the
    search ends on a length that is aligned after dropping the EAGLE block, is
    then cut to an aligned length before it is dropped, and again after. *)
Lemma eagle_alignment_loses_prefix :
  sliding_window_hit demo_hit [0] (Raw [demo_hash; demo_hash; demo_hash]) 6 demo_window_spec true 4 1 1 = Ok ([[]], 0) /\
  resumable demo_hit [0] [demo_hash; demo_hash; demo_hash] 2 4 100 6 true 2.
Proof.
  split; [vm_compute; reflexivity|]. split; [lia|]. split; [vm_compute; congruence|].
  split; [right; reflexivity|]. intros j Hj.
  assert (j = 0 \/ j = 1 \/ j = 2) as [->|[->| ->]] by (change (cdiv (100 - 1) 2) with 50 in Hj; lia);
    exists demo_hash, [1%nat]; split; vm_compute; reflexivity.
Qed.
