(* ===== verification/SingleTypeManager.v ===== *)
(** The KV cache manager of one attention type
    ([vllm/v1/core/single_type_kv_cache_manager.py]): the block tables of the
    requests on top of the block pool, for full attention, R-SWA, sliding-window
    and chunked-local attention. *)
From Stdlib Require Import ZArith Lia Strings.String.
From stdpp Require Import base numbers list gmap strings.
From S2P Require Import Prelude BlockQueue Request BlockHash HashMap BlockPool PoolOps PoolCache PoolSafety CacheHit.
Import Pool.
Open Scope Z_scope.
Local Arguments py_get : simpl never.

(** * State *)

(** The block tables, [req_to_blocks], are a [defaultdict(list)]: reading a
    missing entry creates it. *)
Record SingleTypeKVCacheManager := mkSingle {
  kv_cache_spec : KVCacheSpec;
  dcp_world_size : Z;
  block_size : Z;
  mgr_enable_caching : bool;
  kv_cache_group_id : Z;
  cache_hit_alignment_tokens : Z;
  max_admission_blocks_per_request : option Z;
  record_new_block_ids : bool;
  use_eagle : bool;
  new_block_ids : list nat;
  req_to_blocks : gmap string (list nat);
  num_cached_block : gmap string Z;
  partial_hit_reqs : gmap string (Z * nat);
  pending_cow_copies : list (nat * nat)
}.

Abbreviation single := (SingleTypeKVCacheManager).
Definition set_tables (t : gmap string (list nat)) (m : single) : single :=
  mkSingle (kv_cache_spec m) (dcp_world_size m) (block_size m) (mgr_enable_caching m) (kv_cache_group_id m)
    (cache_hit_alignment_tokens m) (max_admission_blocks_per_request m) (record_new_block_ids m) (use_eagle m)
    (new_block_ids m) t (num_cached_block m) (partial_hit_reqs m) (pending_cow_copies m).
Definition set_num_cached (c : gmap string Z) (m : single) : single :=
  mkSingle (kv_cache_spec m) (dcp_world_size m) (block_size m) (mgr_enable_caching m) (kv_cache_group_id m)
    (cache_hit_alignment_tokens m) (max_admission_blocks_per_request m) (record_new_block_ids m) (use_eagle m)
    (new_block_ids m) (req_to_blocks m) c (partial_hit_reqs m) (pending_cow_copies m).
Definition set_new_ids (ids : list nat) (m : single) : single :=
  mkSingle (kv_cache_spec m) (dcp_world_size m) (block_size m) (mgr_enable_caching m) (kv_cache_group_id m)
    (cache_hit_alignment_tokens m) (max_admission_blocks_per_request m) (record_new_block_ids m) (use_eagle m)
    ids (req_to_blocks m) (num_cached_block m) (partial_hit_reqs m) (pending_cow_copies m).
Definition set_cow (h : gmap string (Z * nat)) (c : list (nat * nat)) (m : single) : single :=
  mkSingle (kv_cache_spec m) (dcp_world_size m) (block_size m) (mgr_enable_caching m) (kv_cache_group_id m)
    (cache_hit_alignment_tokens m) (max_admission_blocks_per_request m) (record_new_block_ids m) (use_eagle m)
    (new_block_ids m) (req_to_blocks m) (num_cached_block m) h c.

Module SingleType.
Section single.
Context (use_int : bool) (sha256 : bytes -> bytes).

(** The methods run on the manager and the pool. *)
Definition on_mgr {A} (f : M single A) : M (single * BlockPool) A := zoom fst (fun x s => (x, s.2)) f.
Definition on_pool {A} (f : M BlockPool A) : M (single * BlockPool) A := zoom snd (fun x s => (s.1, x)) f.

(** [needs_zeroing] is [needs_kv_cache_zeroing and kv_cache_spec.requires_block_zeroing]. *)
Definition init (spec : KVCacheSpec) (dcp scheduler_block_size group : Z) (caching : bool)
    (needs_zeroing : bool) (cap : option Z) : single :=
  let dcp := if spec_dcp_sharded spec then dcp else 1 in
  mkSingle spec dcp (spec_block_size spec * dcp) caching group scheduler_block_size cap needs_zeroing false
    [] ∅ ∅ ∅ [].

(** [self.pcp_world_size] of a manager under [pcp] ranks. *)
Definition manager_pcp (pcp : Z) (m : single) : Z := if spec_dcp_sharded (kv_cache_spec m) then pcp else 1.

(** [SlidingWindowSpec.max_admission_blocks_per_request] and its chunked-local
    counterpart; the other specs have no cap. *)
Definition spec_admission_cap (spec : KVCacheSpec) (max_in_flight_tokens max_model_len : Z) : option Z :=
  match kind spec with
  | SlidingWindow sliding_window extra_retained_tokens =>
      let num_tokens := Z.min (sliding_window - 1 + extra_retained_tokens + max_in_flight_tokens) max_model_len in
      Some (cdiv num_tokens (spec_block_size spec) + 1)
  | ChunkedLocalAttention attention_chunk_size =>
      let num_tokens := Z.min (attention_chunk_size + max_in_flight_tokens) max_model_len in
      Some (cdiv num_tokens (spec_block_size spec))
  | FullAttention | RSWA _ => None
  end.
Definition get_manager_for_kv_cache_spec (spec : KVCacheSpec) (max_in_flight_tokens max_model_len : Z)
    (dcp scheduler_block_size group : Z) (caching needs_zeroing : bool) : single :=
  init spec dcp scheduler_block_size group caching needs_zeroing
    (spec_admission_cap spec max_in_flight_tokens max_model_len).

(** [self.req_to_blocks[request_id]] and an update of that list in place. *)
Definition table (m : single) (request_id : string) : list nat := default [] (req_to_blocks m !! request_id).
Definition get_table (request_id : string) : M single (list nat) :=
  modify (fun m => set_tables (<[request_id := table m request_id]> (req_to_blocks m)) m) ;;
  gets (fun m => table m request_id).
Definition put_table (request_id : string) (blocks : list nat) : M single unit :=
  modify (fun m => set_tables (<[request_id := blocks]> (req_to_blocks m)) m).

(** ** Sizes *)

Definition get_num_evictable_blocks (p : BlockPool) (blocks : list nat) : Z :=
  zlen (filter (fun id => (ref_cnt (blk p id) =? 0) && negb (is_null (blk p id)) = true) blocks).

Definition has_partial_local_hit (m : single) (new_computed_blocks : list nat) (num_local_computed_tokens : Z) : bool :=
  (zlen new_computed_blocks >? 0) && negb (num_local_computed_tokens mod block_size m =? 0).

Definition get_num_skipped_tokens (m : single) (num_computed_tokens : Z) : Z :=
  match kind (kv_cache_spec m) with
  | FullAttention | RSWA _ => 0
  | SlidingWindow sliding_window extra_retained_tokens =>
      Z.max 0 (num_computed_tokens - sliding_window + 1 - extra_retained_tokens)
  | ChunkedLocalAttention attention_chunk_size =>
      num_computed_tokens / attention_chunk_size * attention_chunk_size
  end.

Definition get_num_blocks_to_allocate (request_id : string) (num_tokens : Z) (new_computed_blocks : list nat)
    (total_computed_tokens num_local_computed_tokens : Z) (apply_admission_cap : bool)
    (s : single * BlockPool) : outcome Z :=
  let '(m, p) := s in
  let num_required_blocks := cdiv num_tokens (block_size m) in
  let num_required_blocks := match apply_admission_cap, max_admission_blocks_per_request m with
                             | true, Some cap => Z.min num_required_blocks cap
                             | _, _ => num_required_blocks
                             end in
  let num_req_blocks := zlen (table m request_id) in
  match num_cached_block m !! request_id with
  | Some _ =>
      match new_computed_blocks with
      | [] => Ok (Z.max (num_required_blocks - num_req_blocks) 0)
      | _ => Raise AssertionError
      end
  | None =>
      let num_skipped_tokens := get_num_skipped_tokens m total_computed_tokens in
      let num_local_computed_blocks := zlen new_computed_blocks + num_req_blocks in
      let num_skipped_blocks := num_skipped_tokens / block_size m in
      let num_new_blocks := Z.max (num_required_blocks - Z.max num_skipped_blocks num_local_computed_blocks) 0 in
      let num_skipped_new_computed_blocks := Z.max 0 (num_skipped_blocks - num_req_blocks) in
      let num_evictable_blocks :=
        get_num_evictable_blocks p (py_from num_skipped_new_computed_blocks new_computed_blocks) in
      let num_new_blocks := if has_partial_local_hit m new_computed_blocks num_local_computed_tokens
                            then num_new_blocks + 1 else num_new_blocks in
      Ok (num_new_blocks + num_evictable_blocks)
  end.

(** ** Allocation *)

Definition add_local_computed_blocks (request_id : string) (new_computed_blocks : list nat)
    (num_local_computed_tokens num_external_computed_tokens : Z) : M (single * BlockPool) unit :=
  let! req_blocks := on_mgr (get_table request_id) in
  assert_ (zlen req_blocks =? 0) ;;
  let! m := on_mgr (gets (fun m => m)) in
  let num_total_computed_tokens := num_local_computed_tokens + num_external_computed_tokens in
  let num_skipped_blocks := get_num_skipped_tokens m num_total_computed_tokens / block_size m in
  let new_computed_blocks := if num_skipped_blocks >? 0 then py_from num_skipped_blocks new_computed_blocks
                             else new_computed_blocks in
  (if mgr_enable_caching m then on_pool (touch new_computed_blocks)
   else assert_ (zlen new_computed_blocks =? 0)) ;;
  let! null := on_pool (gets null_block) in
  let req_blocks := req_blocks ++ replicate (Z.to_nat num_skipped_blocks) null ++ new_computed_blocks in
  on_mgr (put_table request_id req_blocks) ;;
  on_mgr (modify (fun m => set_num_cached (<[request_id := zlen req_blocks]> (num_cached_block m)) m)) ;;
  if has_partial_local_hit m new_computed_blocks num_local_computed_tokens then
    let block_idx := num_local_computed_tokens / block_size m in
    let! last := lift (or_raise (py_get new_computed_blocks (-1)) IndexError) in
    on_mgr (modify (fun m => set_cow (<[request_id := (block_idx, last)]> (partial_hit_reqs m)) (pending_cow_copies m) m)) ;;
    on_mgr (modify (fun m => set_num_cached (<[request_id := block_idx]> (num_cached_block m)) m))
  else ret tt.

Definition allocate_external_computed_blocks (request_id : string)
    (num_local_computed_tokens num_external_computed_tokens : Z) (record_for_zeroing : bool) :
    M (single * BlockPool) unit :=
  let! m := on_mgr (gets (fun m => m)) in
  let num_total_computed_tokens := num_local_computed_tokens + num_external_computed_tokens in
  let num_skipped_tokens := get_num_skipped_tokens m num_total_computed_tokens in
  let num_external_computed_tokens :=
    if num_skipped_tokens >? 0
    then Z.min (num_total_computed_tokens - num_skipped_tokens) num_external_computed_tokens
    else num_external_computed_tokens in
  if num_external_computed_tokens <=? 0 then ret tt else
  let! req_blocks := on_mgr (get_table request_id) in
  let num_new_blocks := Z.max 0 (cdiv num_total_computed_tokens (block_size m) - zlen req_blocks) in
  let! allocated_blocks := on_pool (get_new_blocks use_int num_new_blocks) in
  on_mgr (put_table request_id (req_blocks ++ allocated_blocks)) ;;
  if record_new_block_ids m && record_for_zeroing
  then on_mgr (modify (fun m => set_new_ids (new_block_ids m ++ allocated_blocks) m))
  else ret tt.

Definition apply_cow (request_id : string) (block_idx : Z) (source_block cow_block : nat) :
    M (single * BlockPool) unit :=
  let! req_blocks := on_mgr (get_table request_id) in
  assert_ (block_idx <? zlen req_blocks) ;;
  let! at_idx := lift (or_raise (py_get req_blocks block_idx) IndexError) in
  assert_ (bool_decide (at_idx = source_block)) ;;
  let! source := on_pool (gets (fun p => blk p source_block)) in
  assert_ (negb (is_null source) && (ref_cnt source >? 0)) ;;
  let! req_blocks := lift (or_raise (py_set req_blocks block_idx cow_block) IndexError) in
  on_mgr (put_table request_id req_blocks) ;;
  on_mgr (modify (fun m => set_cow (partial_hit_reqs m) (pending_cow_copies m ++ [(source_block, cow_block)]) m)) ;;
  on_pool (modify (upd_blk (add_ref 1) cow_block)).

(** The redirection of a partial hit at the start of [allocate_new_blocks]. *)
Definition redirect_partial_hit (request_id : string) : M (single * BlockPool) (list nat) :=
  let! m := on_mgr (gets (fun m => m)) in
  match partial_hit_reqs m !! request_id with
  | None => ret []
  | Some (block_idx, source_block) =>
      on_mgr (modify (fun m => set_cow (delete request_id (partial_hit_reqs m)) (pending_cow_copies m) m)) ;;
      let! new := on_pool (get_new_blocks use_int 1) in
      let! cow_block := lift (or_raise (py_get new 0) IndexError) in
      apply_cow request_id block_idx source_block cow_block ;;
      on_mgr (modify (fun m => set_new_ids (new_block_ids m ++ [cow_block]) m)) ;;
      ret [cow_block]
  end.

Definition allocate_new_blocks (request_id : string) (num_tokens : Z) : M (single * BlockPool) (list nat) :=
  let! cow_blocks := redirect_partial_hit request_id in
  let! req_blocks := on_mgr (get_table request_id) in
  let! m := on_mgr (gets (fun m => m)) in
  let num_new_blocks := cdiv num_tokens (block_size m) - zlen req_blocks in
  if num_new_blocks <=? 0 then ret cow_blocks else
  let! new_blocks := on_pool (get_new_blocks use_int num_new_blocks) in
  on_mgr (put_table request_id (req_blocks ++ new_blocks)) ;;
  (if record_new_block_ids m then on_mgr (modify (fun m => set_new_ids (new_block_ids m ++ new_blocks) m)) else ret tt) ;;
  ret (cow_blocks ++ new_blocks).

Definition take_new_block_ids : M single (list nat) :=
  let! ids := gets new_block_ids in modify (set_new_ids []) ;; ret ids.
Definition take_pending_cow_copies : M single (list (nat * nat)) :=
  let! copies := gets pending_cow_copies in
  modify (fun m => set_cow (partial_hit_reqs m) [] m) ;; ret copies.

(** ** Freeing *)

Definition pop_blocks_for_free (request_id : string) : M single (list nat) :=
  let! req_blocks := gets (fun m => table m request_id) in
  modify (fun m => set_tables (delete request_id (req_to_blocks m)) m) ;;
  modify (fun m => set_num_cached (delete request_id (num_cached_block m)) m) ;;
  modify (fun m => set_cow (delete request_id (partial_hit_reqs m)) (pending_cow_copies m) m) ;;
  ret req_blocks.
Definition free (request_id : string) : M (single * BlockPool) unit :=
  let! req_blocks := on_mgr (pop_blocks_for_free request_id) in
  on_pool (free_own_blocks (reverse req_blocks)).

(** The loop of [_remove_blocks_in_range] over the indices, downwards: the new
    table and the blocks taken out of it. *)
Fixpoint null_out (null : nat) (idxs : list Z) (blocks freed : list nat) : outcome (list nat * list nat) :=
  match idxs with
  | [] => Ok (blocks, freed)
  | i :: idxs =>
      match py_get blocks i with
      | None => Raise IndexError
      | Some b =>
          if bool_decide (b = null) then Ok (blocks, freed) else
          match py_set blocks i null with
          | None => Raise IndexError
          | Some blocks => null_out null idxs blocks (freed ++ [b])
          end
      end
  end.

Definition remove_blocks_in_range (request_id : string) (first_block last_block : Z) : M (single * BlockPool) unit :=
  let! m := on_mgr (gets (fun m => m)) in
  match req_to_blocks m !! request_id with
  | None => ret tt
  | Some blocks =>
      if first_block >=? last_block then ret tt else
      let last_block := Z.min last_block (zlen blocks) in
      let! null := on_pool (gets null_block) in
      let! res := lift (null_out null (py_range_down (last_block - 1) (first_block - 1)) blocks []) in
      on_mgr (put_table request_id res.1) ;;
      match res.2 with [] => ret tt | freed => on_pool (free_own_blocks freed) end
  end.

Definition base_remove_skipped_blocks (request_id : string) (processed_computed_tokens : Z) :
    M (single * BlockPool) unit :=
  let! m := on_mgr (gets (fun m => m)) in
  let num_skipped_tokens := get_num_skipped_tokens m processed_computed_tokens in
  if num_skipped_tokens <=? 0 then ret tt else
  let! blocks := on_mgr (get_table request_id) in
  let num_skipped_blocks := num_skipped_tokens / block_size m in
  remove_blocks_in_range request_id 0 (Z.min num_skipped_blocks (zlen blocks)).
Definition remove_skipped_blocks (request_id : string) (processed_computed_tokens : Z) (num_prompt_tokens : option Z) :
    M (single * BlockPool) unit :=
  let! m := on_mgr (gets (fun m => m)) in
  match kind (kv_cache_spec m), num_prompt_tokens with
  | RSWA rswa_window, Some num_prompt_tokens =>
      let bs := block_size m in
      let first_gap_block := cdiv num_prompt_tokens bs in
      let window_start := Z.max num_prompt_tokens (processed_computed_tokens - rswa_window) in
      remove_blocks_in_range request_id first_gap_block (window_start / bs)
  | _, _ => base_remove_skipped_blocks request_id processed_computed_tokens
  end.

Fixpoint count_common (p : BlockPool) (n : Z) (blocks : list nat) : Z :=
  match blocks with
  | [] => 0
  | b :: blocks => if ref_cnt (blk p b) =? n then 1 + count_common p n blocks else 0
  end.
Definition get_num_common_prefix_blocks (running_request_id : string) : M (single * BlockPool) Z :=
  let! m := on_mgr (gets (fun m => m)) in
  match kind (kv_cache_spec m) with
  | FullAttention | RSWA _ =>
      let! blocks := on_mgr (get_table running_request_id) in
      let! m := on_mgr (gets (fun m => m)) in
      on_pool (gets (fun p => count_common p (Z.of_nat (size (req_to_blocks m))) blocks))
  | SlidingWindow _ _ | ChunkedLocalAttention _ => ret 0
  end.
End single.
End SingleType.
