(* ===== verification/TableSafety.v ===== *)
(** Ownership of blocks by the block tables
    ([vllm/v1/core/single_type_kv_cache_manager.py]): a manager holds one
    reference per entry of its tables and one per endpoint of a pending
    copy-on-write; every operation keeps the pool's counters in step with them. *)
From Stdlib Require Import ZArith Lia Strings.String.
From stdpp Require Import base numbers list gmap strings.
From S2P Require Import Prelude BlockQueue Request BlockHash HashMap BlockPool PoolOps PoolCache PoolSafety CacheHit.
From S2P Require Import SingleTypeManager.
Import Pool SingleType.
Open Scope Z_scope.
Local Arguments py_get : simpl never.
Local Arguments Z.of_nat : simpl never.

(** * References held by a manager *)

Definition owned_in (x : nat) (t : gmap string (list nat)) : Z :=
  map_fold (fun _ bs acc => occ x bs + acc) 0 t.
Definition cow_ends (copies : list (nat * nat)) : list nat := flat_map (fun c => [c.1; c.2]) copies.
Definition held (m : single) (x : nat) : Z :=
  owned_in x (req_to_blocks m) + occ x (cow_ends (pending_cow_copies m)).

Lemma owned_insert_new x t r bs :
  t !! r = None -> owned_in x (<[r := bs]> t) = occ x bs + owned_in x t.
Proof.
  intros H. unfold owned_in.
  apply (map_fold_insert_L (fun (_ : string) (bs : list nat) (acc : Z) => occ x bs + acc)); [intros; lia|done].
Qed.
Lemma owned_delete x t r : owned_in x (delete r t) = owned_in x t - occ x (default [] (t !! r)).
Proof.
  destruct (t !! r) as [bs|] eqn:E; simpl.
  - rewrite <- (insert_delete_id t r bs E) at 2. rewrite owned_insert_new by apply lookup_delete_eq. lia.
  - rewrite delete_id by done. rewrite occ_nil. lia.
Qed.
Lemma owned_insert x t r bs :
  owned_in x (<[r := bs]> t) = owned_in x t - occ x (default [] (t !! r)) + occ x bs.
Proof.
  rewrite <- insert_delete_eq, owned_insert_new by apply lookup_delete_eq.
  rewrite owned_delete. lia.
Qed.
Lemma owned_nonneg x t : 0 <= owned_in x t.
Proof.
  unfold owned_in. apply (map_fold_weak_ind (fun acc _ => 0 <= acc)); [lia|].
  intros r bs t' acc _ IH. pose proof (occ_nonneg x bs). lia.
Qed.
Lemma owned_table x m r : occ x (table m r) <= owned_in x (req_to_blocks m).
Proof.
  pose proof (owned_delete x (req_to_blocks m) r). pose proof (owned_nonneg x (delete r (req_to_blocks m))).
  unfold table. lia.
Qed.
Lemma held_table x m r : occ x (table m r) <= held m x.
Proof. pose proof (owned_table x m r). pose proof (occ_nonneg x (cow_ends (pending_cow_copies m))). unfold held. lia. Qed.
Lemma held_nonneg x m : 0 <= held m x.
Proof. pose proof (owned_nonneg x (req_to_blocks m)). pose proof (occ_nonneg x (cow_ends (pending_cow_copies m))). unfold held. lia. Qed.
Lemma cow_ends_snoc c a b : cow_ends (c ++ [(a, b)]) = cow_ends c ++ [a; b].
Proof. unfold cow_ends. by rewrite flat_map_app. Qed.
Lemma occ_reverse x bs : occ x (reverse bs) = occ x bs.
Proof. unfold occ. by rewrite (reverse_Permutation bs). Qed.

(** [others] counts the references of the other holders of the pool's blocks:
    the other groups and whoever took over popped blocks or pending copies. *)
Record owns (others : nat -> Z) (free : list nat) (s : single * BlockPool) : Prop := {
  o_pool : inv s.2 free;
  o_size : 0 < block_size s.1;
  o_others : forall x, 0 <= others x;
  o_refs : forall x, x <> 0%nat -> ref_cnt (blk s.2 x) = held s.1 x + others x;
  o_range : forall r x, x ∈ table s.1 r -> Z.of_nat x < num_gpu_blocks s.2;
  o_partial : forall r i b, partial_hit_reqs s.1 !! r = Some (i, b) ->
    0 <= i /\ b <> 0%nat /\ table s.1 r !! Z.to_nat i = Some b
}.

(** Blocks in use keep their hashes. *)
Definition keeps_hashes (p p' : BlockPool) : Prop :=
  forall x, x <> 0%nat -> 0 < ref_cnt (blk p x) -> hash_of p' x = hash_of p x.
Lemma keeps_hashes_self p : keeps_hashes p p.
Proof. by intros x _ _. Qed.
Lemma keeps_hashes_trans p1 p2 p3 :
  (forall x, x <> 0%nat -> 0 < ref_cnt (blk p1 x) -> 0 < ref_cnt (blk p2 x)) ->
  keeps_hashes p1 p2 -> keeps_hashes p2 p3 -> keeps_hashes p1 p3.
Proof. intros Hr H1 H2 x Hx0 Hx. rewrite H2; auto. Qed.
Lemma same_cache_hashes p p' : same_cache p p' -> keeps_hashes p p'.
Proof. intros [] x _ _. unfold hash_of. by f_equal. Qed.

(** New blocks carry no hash. *)
Definition unhashed (p : BlockPool) (bs : list nat) : Prop :=
  enable_caching p = true -> forall x, x ∈ bs -> block_hash (blk p x) = None.
Lemma unhashed_nil p : unhashed p [].
Proof. intros _ x Hx. by apply not_elem_of_nil in Hx. Qed.

(** The pool after a change of the references by [delta]. *)
Record moved (delta : nat -> Z) (free' : list nat) (p p' : BlockPool) : Prop := {
  mv_inv : inv p' free';
  mv_config : config p' = config p;
  mv_ref : forall x, x <> 0%nat -> ref_cnt (blk p' x) = ref_cnt (blk p x) + delta x;
  mv_hash : keeps_hashes p p'
}.

Lemma config_num p p' : config p' = config p -> num_gpu_blocks p' = num_gpu_blocks p.
Proof. unfold config. naive_solver. Qed.
Lemma config_null p p' : config p' = config p -> null_block p' = null_block p.
Proof. unfold config. naive_solver. Qed.

Lemma table_put (m : single) r bs r' :
  default [] ((<[r := bs]> (req_to_blocks m)) !! r') = if decide (r = r') then bs else table m r'.
Proof. unfold table. destruct (decide (r = r')) as [<-|]; [by rewrite lookup_insert_eq|by rewrite lookup_insert_ne]. Qed.

(** Two managers that agree on what the ownership invariant reads. *)
Definition same_tables (m m' : single) : Prop :=
  block_size m' = block_size m /\ (forall r, table m' r = table m r) /\
  (forall x, owned_in x (req_to_blocks m') = owned_in x (req_to_blocks m)) /\
  partial_hit_reqs m' = partial_hit_reqs m /\ pending_cow_copies m' = pending_cow_copies m.

Lemma same_tables_eq m m' :
  block_size m' = block_size m -> req_to_blocks m' = req_to_blocks m ->
  partial_hit_reqs m' = partial_hit_reqs m -> pending_cow_copies m' = pending_cow_copies m -> same_tables m m'.
Proof. intros ? E ? ?. unfold same_tables, table. rewrite E. done. Qed.

Lemma owns_same others free m m' p : same_tables m m' -> owns others free (m, p) -> owns others free (m', p).
Proof.
  intros (Eb & Et & Ew & Eh & Ec) []. simpl in *. split; simpl; try done.
  - by rewrite Eb.
  - intros x Hx. unfold held in *. rewrite Ew, Ec. auto.
  - intros r x. rewrite Et. apply o_range0.
  - intros r i b. rewrite Eh, Et. apply o_partial0.
Qed.

(** Replacing one table: the references move with it. *)
Lemma owns_put others free free' m p p' m' r bs :
  owns others free (m, p) ->
  moved (fun x => occ x bs - occ x (table m r)) free' p p' ->
  (forall x, x ∈ bs -> Z.of_nat x < num_gpu_blocks p) ->
  block_size m' = block_size m -> req_to_blocks m' = <[r := bs]> (req_to_blocks m) ->
  pending_cow_copies m' = pending_cow_copies m ->
  (forall r' i b, partial_hit_reqs m' !! r' = Some (i, b) ->
    if decide (r' = r) then 0 <= i /\ b <> 0%nat /\ bs !! Z.to_nat i = Some b
    else partial_hit_reqs m !! r' = Some (i, b)) ->
  owns others free' (m', p').
Proof.
  intros [] [] Hbs Eb Et Ec Hh. simpl in *.
  assert (forall r', table m' r' = if decide (r = r') then bs else table m r') as Etab.
  { intros r'. unfold table at 1. by rewrite Et, table_put. }
  split; simpl; try done.
  - by rewrite Eb.
  - intros x Hx. unfold held in *. rewrite mv_ref0, o_refs0, Et, Ec, owned_insert by done. unfold table. lia.
  - intros r' x. rewrite Etab, (config_num _ _ mv_config0). destruct (decide _); [apply Hbs|apply o_range0].
  - intros r' i b Hr. apply Hh in Hr. rewrite Etab.
    destruct (decide (r' = r)) as [->|]; [by rewrite decide_True|].
    rewrite decide_False by done. by apply o_partial0.
Qed.

(** * The pool's calls *)

Section pool_calls.
Context (use_int : bool).

Lemma occ_nodup x bs : NoDup bs -> occ x bs = if decide (x ∈ bs) then 1 else 0.
Proof.
  induction 1 as [|b bs Hb Hn IH]; [by rewrite occ_nil, decide_False by apply not_elem_of_nil|].
  rewrite occ_cons, IH. destruct (decide (b = x)) as [<-|Hbx].
  - by rewrite decide_False, decide_True by set_solver.
  - destruct (decide (x ∈ bs)); [by rewrite decide_True by set_solver|by rewrite decide_False by set_solver].
Qed.

Lemma free_count p free : inv p free -> get_num_free_blocks p = zlen free.
Proof. intros [[_ _ Hr _ _ _ _] _]. exact (FreeQueue.repr_num _ _ Hr). Qed.

Record fresh_blocks (p : BlockPool) (bs : list nat) : Prop := {
  fb_nodup : NoDup bs;
  fb_free : forall x, x ∈ bs -> x <> 0%nat /\ Z.of_nat x < num_gpu_blocks p /\ ref_cnt (blk p x) = 0
}.

Lemma get_new_moved p free n :
  inv p free -> 0 <= n <= zlen free ->
  wp (get_new_blocks use_int n) (fun bs p' => exists free', free = bs ++ free' /\ zlen bs = n /\
    fresh_blocks p bs /\ moved (fun x => occ x bs) free' p p' /\ unhashed p' bs) p.
Proof.
  intros Hp Hn. rewrite <- (free_count _ _ Hp) in Hn.
  destruct (take_free _ _ _ Hp Hn) as (taken & rest & -> & ->).
  eapply wp_mono; [by apply get_new_blocks_ok|]. intros bs p' [-> H]. exists rest.
  assert (fresh_blocks p taken) as Hfb.
  { destruct Hp as [[_ _ Hr Hf _ _ _] _]. split.
    - apply FreeQueue.repr_nodup in Hr. by apply NoDup_app in Hr as (? & _).
    - intros x Hx. assert (x ∈ taken ++ rest) as Hin by set_solver. apply Hf in Hin. unfold blk. tauto. }
  split_and!; [done|done|done| |].
  - split; [by eapply handed_inv|apply H| |].
    + intros x Hx. rewrite (h_ref _ _ _ _ H), occ_nodup by apply Hfb.
      destruct (decide (x ∈ taken)) as [Hin|]; [|lia].
      apply (fb_free _ _ Hfb) in Hin as (_ & _ & ->). done.
    + intros x _ Hx. apply (h_others _ _ _ _ H). intros Hin. apply (fb_free _ _ Hfb) in Hin as (_ & _ & E). lia.
  - intros Hc x Hx. rewrite (h_hash _ _ _ _ H), decide_True; [done|]. split; [|done].
    pose proof (h_config _ _ _ _ H) as E. unfold config in E. congruence.
Qed.

Lemma touch_moved p free bs :
  inv p free -> (forall x, x ∈ bs -> Z.of_nat x < num_gpu_blocks p) ->
  wp (touch bs) (fun _ p' => moved (fun x => occ x bs) (filter (fun y => y ∉ bs) free) p p') p.
Proof.
  intros Hp Hbs. eapply wp_mono; [by apply touch_ok|]. intros [] p' (Hi & Hs & Hr).
  split; [done|apply Hs| |by apply same_cache_hashes]. intros x _. apply Hr.
Qed.

Lemma free_moved p free bs :
  inv p free -> (forall x, x ∈ bs -> x <> 0%nat -> Z.of_nat x < num_gpu_blocks p /\ occ x bs <= ref_cnt (blk p x)) ->
  wp (free_own_blocks bs) (fun _ p' => exists free', moved (fun x => - occ x bs) free' p p') p.
Proof.
  intros Hp Hbs. eapply wp_mono; [by apply (free_own_blocks_ok p free)|].
  intros [] p' (first & last & Hi & Hf). eexists. split; [exact Hi|apply Hf| |apply same_cache_hashes, Hf].
  intros x _. rewrite (f_ref _ _ _ _ _ _ Hf). lia.
Qed.

Lemma add_ref_moved p free x :
  inv p free -> 0 < ref_cnt (blk p x) -> moved (fun y => occ y [x]) free p (upd_blk (add_ref 1) x p).
Proof.
  intros [[Hn Hz Hr Hf Hrc Hnul Hout] Hc] Hx.
  assert (forall y, ref_cnt (blk (upd_blk (add_ref 1) x p) y) = ref_cnt (blk p y) + occ y [x]) as E.
  { intros y. rewrite ref_upd, occ_cons, occ_nil. lia. }
  split; [|done|by auto|apply same_cache_hashes, same_cache_ref]. split; [|by apply cache_inv_ref].
  unfold blk in *. split; try done.
  - by apply repr_keep_links.
  - intros y. rewrite E, Hf, occ_cons, occ_nil. destruct (decide (x = y)) as [<-|]; [lia|].
    by rewrite !Z.add_0_r.
  - intros y Hy. rewrite E. pose proof (Hrc y Hy). pose proof (occ_nonneg y [x]). lia.
  - intros y. pose proof (s_null _ _ (same_cache_ref 1 x p) y) as H. unfold blk in H. by rewrite H.
  - intros y Hy. rewrite E, (Hout y Hy), occ_cons, occ_nil. destruct (decide (x = y)) as [<-|]; [|done]. rewrite (Hout x Hy) in Hx. lia.
Qed.

Lemma moved_trans d1 d2 f1 f2 p1 p2 p3 :
  (forall x, x <> 0%nat -> 0 < ref_cnt (blk p1 x) -> 0 < ref_cnt (blk p2 x)) ->
  moved d1 f1 p1 p2 -> moved d2 f2 p2 p3 -> moved (fun x => d1 x + d2 x) f2 p1 p3.
Proof.
  intros Hr [] []. split; [done|congruence| |by eapply keeps_hashes_trans]. intros x Hx. rewrite mv_ref1, mv_ref0 by done. lia.
Qed.
Lemma moved_ext d1 d2 f p p' : (forall x, x <> 0%nat -> d1 x = d2 x) -> moved d1 f p p' -> moved d2 f p p'.
Proof. intros E []. split; try done. intros x Hx. rewrite <- E by done. auto. Qed.
End pool_calls.

(** * The managers' operations *)

(** The configuration that caching reads. *)
Definition static (m : single) := (kv_cache_group_id m, cache_hit_alignment_tokens m, dcp_world_size m, use_eagle m).

(** What an operation on the request [r] leaves alone. *)
Record framed (r : string) (m m' : single) : Prop := {
  fr_spec : kv_cache_spec m' = kv_cache_spec m;
  fr_size : block_size m' = block_size m;
  fr_caching : mgr_enable_caching m' = mgr_enable_caching m;
  fr_cap : max_admission_blocks_per_request m' = max_admission_blocks_per_request m;
  fr_static : static m' = static m;
  fr_table : forall r', r' <> r -> table m' r' = table m r';
  fr_cached : forall r', r' <> r -> num_cached_block m' !! r' = num_cached_block m !! r';
  fr_partial : forall r', r' <> r -> partial_hit_reqs m' !! r' = partial_hit_reqs m !! r'
}.
Lemma framed_self r m : framed r m m.
Proof. by split. Qed.
#[export] Instance framed_refl r : Reflexive (framed r) := framed_self r.
#[export] Instance framed_trans r : Transitive (framed r).
Proof.
  intros m1 m2 m3 [] []. split; try congruence; intros r' Hr.
  - by rewrite fr_table1, fr_table0.
  - by rewrite fr_cached1, fr_cached0.
  - by rewrite fr_partial1, fr_partial0.
Qed.

Lemma framed_put r bs m m1 : framed r m m1 -> framed r m (set_tables (<[r := bs]> (req_to_blocks m1)) m1).
Proof.
  intros H. etrans; [exact H|]. split; try done.
  intros r' Hr. unfold table at 1. simpl. by rewrite table_put, decide_False.
Qed.
Lemma framed_cached r c m m1 : framed r m m1 -> framed r m (set_num_cached (<[r := c]> (num_cached_block m1)) m1).
Proof. intros H. etrans; [exact H|]. split; try done. intros r' Hr. simpl. by rewrite lookup_insert_ne. Qed.
Lemma framed_cow r h c m m1 : framed r m m1 -> framed r m (set_cow (<[r := h]> (partial_hit_reqs m1)) c m1).
Proof. intros H. etrans; [exact H|]. split; try done. intros r' Hr. simpl. by rewrite lookup_insert_ne. Qed.
Lemma framed_cow_done r c m m1 : framed r m m1 -> framed r m (set_cow (delete r (partial_hit_reqs m1)) c m1).
Proof. intros H. etrans; [exact H|]. split; try done. intros r' Hr. simpl. by rewrite lookup_delete_ne. Qed.
Lemma framed_copies r c m m1 : framed r m m1 -> framed r m (set_cow (partial_hit_reqs m1) c m1).
Proof. intros H. etrans; [exact H|]. by split. Qed.
Lemma framed_ids r ids m m1 : framed r m m1 -> framed r m (set_new_ids ids m1).
Proof. intros H. etrans; [exact H|]. by split. Qed.
Create HintDb frame.
#[export] Hint Resolve framed_put framed_cached framed_cow framed_cow_done framed_copies framed_ids framed_self : frame.

(** Reading a table creates it. *)
Definition opened (r : string) (m : single) : single := set_tables (<[r := table m r]> (req_to_blocks m)) m.
Lemma get_table_run r m : get_table r m = (Ok (table m r), opened r m).
Proof. unfold get_table, bind, modify, gets. f_equal. f_equal. unfold table at 1. simpl. by rewrite lookup_insert_eq. Qed.
Lemma wp_get_table r m (Q : list nat -> single -> Prop) : wp (get_table r) Q m <-> Q (table m r) (opened r m).
Proof. unfold wp. by rewrite get_table_run. Qed.
Lemma opened_same r m : same_tables m (opened r m).
Proof.
  split_and!; try done; intros x; [|simpl; rewrite owned_insert; unfold table; lia].
  unfold table at 1. simpl. rewrite table_put. by destruct (decide _) as [->|].
Qed.
Lemma opened_put r bs m : set_tables (<[r := bs]> (req_to_blocks (opened r m))) (opened r m)
  = set_tables (<[r := bs]> (req_to_blocks m)) m.
Proof. unfold opened, set_tables. simpl. by rewrite insert_insert_eq. Qed.
Lemma table_self (m : single) r bs : table (set_tables (<[r := bs]> (req_to_blocks m)) m) r = bs.
Proof. unfold table. simpl. by rewrite lookup_insert_eq. Qed.

(** Symbolic execution on a manager and its pool. *)
Ltac run := repeat (progress (unfold on_mgr, on_pool, put_table; autorewrite with py; rewrite ?wp_get_table; cbv beta; cbn [fst snd])).

(** Appending fresh blocks to the table of [r]. *)
Lemma owns_extend others free free' m p p' m' r bs :
  owns others free (m, p) -> moved (fun x => occ x bs) free' p p' ->
  (forall x, x ∈ bs -> Z.of_nat x < num_gpu_blocks p) ->
  block_size m' = block_size m -> req_to_blocks m' = <[r := table m r ++ bs]> (req_to_blocks m) ->
  pending_cow_copies m' = pending_cow_copies m -> partial_hit_reqs m' = partial_hit_reqs m ->
  owns others free' (m', p').
Proof.
  intros Ho [] Hbs Eb Et Ec Eh. apply (owns_put others free free' m p p' m' r (table m r ++ bs)); try done.
  - split; try done. intros x Hx. rewrite mv_ref0, occ_app by done. lia.
  - intros x [Hx|Hx]%elem_of_app; [by apply (o_range _ _ _ Ho r)|by apply Hbs].
  - intros r' i b. rewrite Eh. destruct (decide (r' = r)) as [->|]; [|done].
    intros (Hi & Hb & Hl)%(o_partial _ _ _ Ho). simpl in Hl. split_and!; [done|done|]. by apply lookup_app_l_Some.
Qed.

Section ops.
Context (use_int : bool).

(** ** Local hits *)

Definition skipped_blocks (m : single) (num_tokens : Z) : Z := get_num_skipped_tokens m num_tokens / block_size m.
Definition kept_hits (m : single) (blocks : list nat) (num_tokens : Z) : list nat :=
  drop (Z.to_nat (skipped_blocks m num_tokens)) blocks.

(** The hits handed to [add_local_computed_blocks]: blocks of the pool that
    cover [nl] tokens; only an aligned hit may contain null blocks. *)
Record hits_ok (m : single) (p : BlockPool) (blocks : list nat) (nl : Z) : Prop := {
  ht_range : forall x, x ∈ blocks -> Z.of_nat x < num_gpu_blocks p;
  ht_caching : mgr_enable_caching m = true \/ blocks = [];
  ht_nonneg : 0 <= nl;
  ht_cover : blocks <> [] -> nl mod block_size m <> 0 -> zlen blocks = nl / block_size m + 1 /\ 0%nat ∉ blocks
}.

Lemma py_from_drop (k : Z) (blocks : list nat) :
  (if k >? 0 then py_from k blocks else blocks) = drop (Z.to_nat k) blocks.
Proof.
  destruct (k >? 0) eqn:E; bools; [|by replace (Z.to_nat k) with 0%nat by lia].
  destruct (decide (k <= zlen blocks)); [by rewrite py_from_in by lia|].
  unfold py_from, slice_bound. rewrite (proj2 (Z.ltb_ge k 0)) by lia.
  rewrite !drop_ge; [done| |]; lia.
Qed.

Definition partial_hit (m : single) (kept : list nat) (nl : Z) : bool := has_partial_local_hit m kept nl.

Record local_added (r : string) (blocks : list nat) (nl ne : Z) (free : list nat) (m : single) (p : BlockPool)
    (s : single * BlockPool) : Prop := {
  la_frame : framed r m s.1;
  la_config : config s.2 = config p;
  la_refs : forall x, x <> 0%nat -> ref_cnt (blk s.2 x) = ref_cnt (blk p x) + occ x (kept_hits m blocks (nl + ne));
  la_table : table s.1 r = replicate (Z.to_nat (skipped_blocks m (nl + ne))) 0%nat ++ kept_hits m blocks (nl + ne);
  la_partial : is_Some (partial_hit_reqs s.1 !! r) <-> partial_hit m (kept_hits m blocks (nl + ne)) nl = true;
  la_index : forall i b, partial_hit_reqs s.1 !! r = Some (i, b) -> i = nl / block_size m;
  la_hash : keeps_hashes p s.2;
  la_cached : num_cached_block s.1 !! r =
    Some (if partial_hit m (kept_hits m blocks (nl + ne)) nl then nl / block_size m else zlen (table s.1 r))
}.

Lemma last_kept (m : single) (blocks : list nat) nl k :
  0 < block_size m -> 0 <= nl -> zlen blocks = nl / block_size m + 1 -> (k < length blocks)%nat ->
  exists b, last (drop k blocks) = Some b /\ b ∈ blocks /\
    (replicate k 0%nat ++ drop k blocks) !! Z.to_nat (nl / block_size m) = Some b.
Proof.
  intros Hb Hnl Hlen Hk. pose proof (Z.div_pos nl (block_size m) Hnl Hb).
  destruct (blocks !! (length blocks - 1)%nat) as [b|] eqn:E; [|apply lookup_ge_None in E; lia].
  exists b. split_and!; [|by eapply list_elem_of_lookup_2|].
  - rewrite last_lookup, lookup_drop, length_drop. by replace (k + _)%nat with (length blocks - 1)%nat by lia.
  - rewrite lookup_app_r, length_replicate, lookup_drop by (rewrite length_replicate; lia).
    by replace (k + _)%nat with (length blocks - 1)%nat by lia.
Qed.

Lemma occ_replicate_0 x n : x <> 0%nat -> occ x (replicate n 0%nat) = 0.
Proof. intros Hx. induction n as [|n IH]; [done|]. simpl replicate. rewrite occ_cons, decide_False by done. lia. Qed.

Lemma touch_if_moved (m : single) (m0 : single) p free blocks :
  inv p free -> (forall x, x ∈ blocks -> Z.of_nat x < num_gpu_blocks p) -> mgr_enable_caching m = true \/ blocks = [] ->
  wp (if mgr_enable_caching m then on_pool (touch blocks) else assert_ (zlen blocks =? 0))
    (fun _ s => s.1 = m0 /\ moved (fun x => occ x blocks) (filter (fun y => y ∉ blocks) free) p s.2) (m0, p).
Proof.
  intros Hp Hb Hc. destruct (mgr_enable_caching m); run.
  { eapply wp_mono; [by apply touch_moved|]. intros [] p' H. done. }
  destruct Hc as [Hc|Hc]; [done|]. subst blocks. split; [done|]. split; [done|].
  rewrite list_filter_id by (intros; apply not_elem_of_nil). split; [done|done| |apply keeps_hashes_self]. intros x _. rewrite occ_nil. lia.
Qed.

Lemma add_local_ok others free m p r blocks nl ne :
  owns others free (m, p) -> table m r = [] -> hits_ok m p blocks nl ->
  wp (add_local_computed_blocks r blocks nl ne) (fun _ s =>
    owns others (filter (fun y => y ∉ kept_hits m blocks (nl + ne)) free) s /\ local_added r blocks nl ne free m p s) (m, p).
Proof.
  intros Ho Ht [Hr Hc Hnl Hcov]. unfold add_local_computed_blocks. run. rewrite Ht. split; [done|]. run.
  change (get_num_skipped_tokens (opened r m) (nl + ne) / block_size (opened r m)) with (skipped_blocks m (nl + ne)).
  rewrite py_from_drop. fold (kept_hits m blocks (nl + ne)). set (kept := kept_hits m blocks (nl + ne)).
  assert (forall x, x ∈ kept -> x ∈ blocks) as Hk by (intros x (i & Hx)%list_elem_of_lookup; unfold kept, kept_hits in Hx; rewrite lookup_drop in Hx; by eapply list_elem_of_lookup_2).
  eapply wp_mono; [apply (touch_if_moved (opened r m) _ p free kept); [apply Ho|by eauto| ]|].
  { destruct Hc as [|Hc]; [by left|right]. unfold kept, kept_hits. by rewrite Hc, drop_nil. }
  intros [] [m1 p1] [E1 Hmv]. simpl in E1, Hmv. subst m1. run. rewrite (config_null _ _ (mv_config _ _ _ _ Hmv)).
  pose proof (qi_null _ _ _ _ (proj1 (o_pool _ _ _ Ho))) as Hz. simpl in Hz. rewrite Hz. simpl app. rewrite opened_put.
  change (has_partial_local_hit (opened r m) kept nl) with (partial_hit m kept nl).
  change (block_size (opened r m)) with (block_size m).
  set (tbl := replicate (Z.to_nat (skipped_blocks m (nl + ne))) 0%nat ++ kept).
  assert (moved (fun x => occ x tbl - occ x (table m r)) (filter (fun y => y ∉ kept) free) p p1) as Hmv'.
  { destruct Hmv. split; try done. intros x Hx. unfold tbl. rewrite mv_ref0, occ_app, occ_replicate_0, Ht, occ_nil by done. lia. }
  assert (forall x, x ∈ tbl -> Z.of_nat x < num_gpu_blocks p) as Hrange.
  { intros x [Hx|Hx]%elem_of_app; [|by eauto]. apply elem_of_replicate in Hx as [-> _]. exact (qi_pos _ _ _ _ (proj1 (o_pool _ _ _ Ho))). }
  destruct (partial_hit m kept nl) eqn:Ep; run; [|split].
  - unfold partial_hit, has_partial_local_hit in Ep. bools.
    assert ((Z.to_nat (skipped_blocks m (nl + ne)) < length blocks)%nat) as Hlt.
    { unfold kept, kept_hits in *. rewrite length_drop in *. lia. }
    destruct Hcov as [Hlen Hnn]; [intros ->; simpl in *; lia|done|].
    destruct (last_kept m blocks nl _ (o_size _ _ _ Ho) Hnl Hlen Hlt) as (b & Hlast & Hb & Hidx).
    exists b. split; [by rewrite py_get_last; unfold kept, kept_hits; rewrite Hlast|]. run. split.
    + eapply (owns_put others free _ m p p1 _ r tbl); try done. intros r' i b' Hp. cbn in Hp.
      destruct (decide (r' = r)) as [->|]; [|by rewrite lookup_insert_ne in Hp].
      rewrite lookup_insert_eq in Hp. simplify_eq. split_and!; [|set_solver|done].
      apply Z.div_pos; [done|apply Ho].
    + assert (partial_hit m kept nl = true) as Ep.
      { unfold partial_hit, has_partial_local_hit. apply andb_true_iff. rewrite negb_true_iff, Z.gtb_lt, Z.eqb_neq. lia. }
      split; cbn [fst snd]; [by eauto 20 with frame|apply Hmv|apply Hmv|apply table_self| | |apply Hmv|];
        fold kept; cbn [partial_hit_reqs num_cached_block set_num_cached set_cow]; rewrite lookup_insert_eq, ?Ep; [by eauto|naive_solver|done].
  - eapply (owns_put others free _ m p p1 _ r tbl); try done. intros r' i b Hp. simpl in Hp.
    destruct (decide (r' = r)) as [->|]; [|done]. apply (o_partial _ _ _ Ho) in Hp as (_ & _ & Hp). simpl in Hp.
    by rewrite Ht in Hp.
  - assert (forall h, partial_hit_reqs m !! r <> Some h) as Hno.
    { intros [i b] Hp. apply (o_partial _ _ _ Ho) in Hp as (_ & _ & Hp). simpl in Hp. by rewrite Ht in Hp. }
    split; cbn [fst snd]; [by eauto 20 with frame|apply Hmv|apply Hmv|apply table_self| | |apply Hmv|].
    + fold kept. rewrite Ep. split; [|done]. intros [h Hp]. by apply Hno in Hp.
    + intros i b Hp. by apply Hno in Hp.
    + fold kept. rewrite Ep. cbn. rewrite lookup_insert_eq. do 3 f_equal. symmetry. apply table_self.
Qed.
(** ** Fresh blocks *)

(** The blocks [bs] were appended to the table of [r]. *)
Record extended (r : string) (bs : list nat) (m : single) (p : BlockPool) (s : single * BlockPool) : Prop := {
  ex_frame : framed r m s.1;
  ex_config : config s.2 = config p;
  ex_fresh : fresh_blocks p bs;
  ex_table : table s.1 r = table m r ++ bs;
  ex_partial : partial_hit_reqs s.1 = partial_hit_reqs m;
  ex_cached : num_cached_block s.1 = num_cached_block m;
  ex_hash : keeps_hashes p s.2;
  ex_unhashed : unhashed s.2 bs
}.

Lemma extended_nil r m p : extended r [] m p (m, p).
Proof. split; try done; [split; [constructor|set_solver]|by rewrite app_nil_r|apply unhashed_nil]. Qed.

(** The common part of the allocating methods. *)
Lemma extend_ok others free free' m p p' m' r bs :
  owns others free (m, p) -> fresh_blocks p bs -> moved (fun x => occ x bs) free' p p' -> unhashed p' bs ->
  framed r m m' -> req_to_blocks m' = <[r := table m r ++ bs]> (req_to_blocks m) ->
  pending_cow_copies m' = pending_cow_copies m -> partial_hit_reqs m' = partial_hit_reqs m ->
  num_cached_block m' = num_cached_block m ->
  owns others free' (m', p') /\ extended r bs m p (m', p').
Proof.
  intros Ho Hf Hmv Hun Hfr Et Ec Eh En. split.
  - eapply (owns_extend others free free' m p p' m' r bs); try done; [|apply Hfr].
    intros x Hx. by apply (fb_free _ _ Hf).
  - split; try done; [apply Hmv| |apply Hmv]. unfold table at 1. cbn [fst]. by rewrite Et, lookup_insert_eq.
Qed.

Definition num_external_blocks (m : single) (r : string) (nl ne : Z) : Z :=
  Z.max 0 (cdiv (nl + ne) (block_size m) - zlen (table m r)).

Lemma allocate_external_ok others free m p r nl ne rec :
  owns others free (m, p) -> num_external_blocks m r nl ne <= zlen free ->
  wp (allocate_external_computed_blocks use_int r nl ne rec) (fun _ s => exists bs free',
    free = bs ++ free' /\ zlen bs <= num_external_blocks m r nl ne /\ owns others free' s /\ extended r bs m p s) (m, p).
Proof.
  intros Ho Hn. unfold allocate_external_computed_blocks. run. destruct (_ <=? 0); run.
  { exists [], free. split_and!; [done|unfold num_external_blocks; simpl; lia|done|apply extended_nil]. }
  fold (num_external_blocks m r nl ne).
  eapply wp_mono; [apply (get_new_moved use_int p free); [apply Ho|]|].
  { unfold num_external_blocks in *. lia. }
  intros bs p' (free' & Ef & En & Hf & Hmv & Hun). run. rewrite opened_put.
  destruct (_ && _); run; exists bs, free'; (split_and!; [done|lia|..]); eapply extend_ok; eauto 10 with frame.
Qed.

(** ** Copy-on-write *)

Definition cow_need (m : single) (r : string) : Z := if partial_hit_reqs m !! r then 1 else 0.

Record redirected (r : string) (bs : list nat) (m : single) (p : BlockPool) (s : single * BlockPool) : Prop := {
  rd_frame : framed r m s.1;
  rd_config : config s.2 = config p;
  rd_fresh : fresh_blocks p bs;
  rd_length : length (table s.1 r) = length (table m r);
  rd_same : forall i b, table m r !! i = Some b ->
    partial_hit_reqs m !! r <> Some (Z.of_nat i, b) -> table s.1 r !! i = Some b;
  rd_none : partial_hit_reqs m !! r = None -> table s.1 r = table m r /\ bs = [];
  rd_partial : partial_hit_reqs s.1 = delete r (partial_hit_reqs m);
  rd_cached : num_cached_block s.1 = num_cached_block m;
  rd_hash : keeps_hashes p s.2;
  rd_unhashed : unhashed s.2 bs;
  rd_refs : forall x, x <> 0%nat -> ref_cnt (blk p x) <= ref_cnt (blk s.2 x);
  rd_used : forall x, x ∈ bs -> 0 < ref_cnt (blk s.2 x);
  rd_entries : forall i x, table s.1 r !! i = Some x ->
    (table m r !! i = Some x /\ partial_hit_reqs m !! r <> Some (Z.of_nat i, x)) \/
    (x ∈ bs /\ exists b, partial_hit_reqs m !! r = Some (Z.of_nat i, b))
}.

Lemma occ_insert x (bs : list nat) i b c :
  bs !! i = Some b -> occ x (<[i := c]> bs) = occ x bs - occ x [b] + occ x [c].
Proof.
  intros H. rewrite insert_take_drop by (by eapply lookup_lt_Some).
  rewrite <- (take_drop_middle bs i b H) at 3.
  rewrite !occ_app, (occ_cons x c), (occ_cons x b (drop _ _)), !occ_cons, !occ_nil. lia.
Qed.

Lemma owns_cow others free free' m p p' r i b c (tbl := <[Z.to_nat i := c]> (table m r))
    (m' := set_cow (delete r (partial_hit_reqs m)) (pending_cow_copies m ++ [(b, c)])
             (set_tables (<[r := tbl]> (req_to_blocks m)) m)) :
  owns others free (m, p) -> table m r !! Z.to_nat i = Some b -> c <> 0%nat -> Z.of_nat c < num_gpu_blocks p ->
  moved (fun x => 2 * occ x [c]) free' p p' ->
  owns others free' (m', p').
Proof.
  intros [] Hb Hc Hr []. simpl in *.
  assert (forall r', table m' r' = if decide (r = r') then tbl else table m r') as Et.
  { intros r'. unfold table at 1. simpl. by rewrite table_put. }
  split; simpl; try done.
  - intros x Hx. unfold held in *. simpl. rewrite mv_ref0, o_refs0, owned_insert, cow_ends_snoc, occ_app by done.
    fold (table m r). unfold tbl. rewrite (occ_insert _ _ _ _ _ Hb), !occ_cons, occ_nil. lia.
  - intros r' x. rewrite Et, (config_num _ _ mv_config0). destruct (decide _); [|by apply o_range0].
    intros [j Hj]%list_elem_of_lookup. apply list_lookup_insert_Some in Hj as [(_ & <- & _)|[_ Hj]]; [done|].
    eapply (o_range0 r), list_elem_of_lookup_2, Hj.
  - intros r' j d. destruct (decide (r = r')) as [<-|]; [by rewrite lookup_delete_eq|].
    rewrite lookup_delete_ne, Et, decide_False by done. apply o_partial0.
Qed.

Lemma redirect_ok others free m p r :
  owns others free (m, p) -> cow_need m r <= zlen free ->
  wp (redirect_partial_hit use_int r) (fun bs s => exists free',
    free = bs ++ free' /\ zlen bs = cow_need m r /\ owns others free' s /\ redirected r bs m p s) (m, p).
Proof.
  intros Ho Hn. unfold redirect_partial_hit, cow_need in *. run.
  destruct (partial_hit_reqs m !! r) as [[i b]|] eqn:Ep; run.
  2: { exists free. split_and!; [done|done|done|]. split; try done; [split; [constructor|set_solver]|by simpl; rewrite delete_id|apply unhashed_nil|set_solver|].
    intros i x Hx. left. by rewrite Ep. }
  destruct (o_partial _ _ _ Ho _ _ _ Ep) as (Hi & Hb0 & Hb). simpl in Hb.
  eapply wp_mono; [apply (get_new_moved use_int p free); [apply Ho|lia]|].
  intros bs p1 (free' & Ef & En & Hf & Hmv & Hun). destruct bs as [|c [|]]; [done| |simpl in En; lia].
  destruct (fb_free _ _ Hf c) as (Hc0 & Hcr & Hc); [set_solver|].
  run. exists c. split; [done|]. unfold apply_cow. run.
  change (table (set_cow _ _ m) r) with (table m r).
  pose proof (lookup_lt_Some _ _ _ Hb) as Hlt.
  split; [lia|]. exists b. split; [by rewrite py_get_nonneg, Hb|]. run.
  split; [by apply bool_decide_eq_true|]. run.
  assert (1 <= occ b (table m r)) as Hocc.
  { assert (0 < occ b (table m r)); [|lia]. by eapply occ_pos, list_elem_of_lookup_2. }
  assert (0 < ref_cnt (blk p1 b)) as Href.
  { pose proof (held_table b m r). pose proof (o_others _ _ _ Ho b). pose proof (occ_nonneg b [c]).
    pose proof (o_refs _ _ _ Ho b Hb0) as E. simpl in E. rewrite (mv_ref _ _ _ _ Hmv), E by done. lia. }
  split. { pose proof (qi_is_null _ _ _ _ (proj1 (mv_inv _ _ _ _ Hmv)) b) as En'. fold (blk p1 b) in En'.
    rewrite En', bool_decide_false by done. apply Z.gtb_lt. lia. }
  run. exists (<[Z.to_nat i := c]> (table m r)). split; [by rewrite py_set_in by lia|]. run.
  assert (ref_cnt (blk p1 c) = 1) as Hc1 by (rewrite (mv_ref _ _ _ _ Hmv), Hc, occ_cons, decide_True, occ_nil by done; lia).
  assert (moved (fun x => occ x [c] + occ x [c]) free' p (upd_blk (add_ref 1) c p1)) as Hmv2.
  { eapply moved_trans; [|exact Hmv|apply add_ref_moved; [apply Hmv|lia]].
    intros x Hx Hx'. rewrite (mv_ref _ _ _ _ Hmv) by done. pose proof (occ_nonneg x [c]). lia. }
  exists free'. split_and!; [done|done| |].
  - eapply owns_same; [|apply (owns_cow others free free' m p _ r i b c Ho Hb Hc0 Hcr)].
    { apply same_tables_eq; try done. cbn. by rewrite insert_insert_eq. }
    eapply moved_ext; [|exact Hmv2]. intros x _. cbv beta. lia.
  - split; cbn [fst snd]; try done.
    + unfold opened. by eauto 20 with frame.
    + etrans; [|apply Hmv]. done.
    + change (length (table (set_tables (<[r := <[Z.to_nat i := c]> (table m r)]> (req_to_blocks (opened r m))) (opened r m)) r) = length (table m r)).
      by rewrite table_self, length_insert.
    + intros j d Hj Hne.
      change (table (set_tables (<[r := <[Z.to_nat i := c]> (table m r)]> (req_to_blocks (opened r m))) (opened r m)) r !! j = Some d).
      rewrite table_self, list_lookup_insert_ne; [done|]. intros <-.
      apply Hne. rewrite Ep. rewrite Hb in Hj. simplify_eq. by rewrite Z2Nat.id.
    + by rewrite Ep.
    + apply Hmv2.
    + intros Hca x ->%list_elem_of_singleton. rewrite blk_upd, decide_True by done. apply Hun; [done|by left].
    + intros x Hx. rewrite (mv_ref _ _ _ _ Hmv2) by done. pose proof (occ_nonneg x [c]). lia.
    + intros x ->%list_elem_of_singleton. rewrite ref_upd, decide_True by done. lia.
    + intros j d Hj.
      change (table (set_tables (<[r := <[Z.to_nat i := c]> (table m r)]> (req_to_blocks (opened r m))) (opened r m)) r !! j = Some d) in Hj.
      rewrite table_self in Hj. rewrite Ep. destruct (decide (j = Z.to_nat i)) as [->|Hji].
      * rewrite list_lookup_insert_eq in Hj by done. simplify_eq. right. split; [by left|].
        rewrite Z2Nat.id by done. by exists b.
      * rewrite list_lookup_insert_ne in Hj by done. left. split; [done|]. intros [= Hz _]. lia.
Qed.

(** Blocks in a table are in use, so none of them is handed out. *)
Lemma owned_in_use others free m p r x :
  owns others free (m, p) -> x ∈ table m r -> x <> 0%nat -> 0 < ref_cnt (blk p x).
Proof.
  intros Ho Hx Hx0. pose proof (o_refs _ _ _ Ho x Hx0) as E. simpl in E. rewrite E. pose proof (held_table x m r).
  pose proof (o_others _ _ _ Ho x). pose proof (proj2 (occ_pos x (table m r)) Hx). lia.
Qed.
Lemma fresh_not_owned others free m p r bs x :
  owns others free (m, p) -> fresh_blocks p bs -> x ∈ bs -> x ∉ table m r.
Proof.
  intros Ho Hf Hx Ht. destruct (fb_free _ _ Hf x Hx) as (Hx0 & _ & E). pose proof (owned_in_use _ _ _ _ _ _ Ho Ht Hx0). lia.
Qed.

(** ** Allocation up to a number of tokens *)

Definition new_need (m : single) (r : string) (num_tokens : Z) : Z :=
  cow_need m r + Z.max 0 (cdiv num_tokens (block_size m) - zlen (table m r)).

Record allocated (r : string) (num_tokens : Z) (bs : list nat) (m : single) (p : BlockPool) (s : single * BlockPool) :
    Prop := {
  al_frame : framed r m s.1;
  al_config : config s.2 = config p;
  al_fresh : fresh_blocks p bs;
  al_length : zlen (table s.1 r) = Z.max (zlen (table m r)) (cdiv num_tokens (block_size m));
  al_same : forall i b, table m r !! i = Some b ->
    partial_hit_reqs m !! r <> Some (Z.of_nat i, b) -> table s.1 r !! i = Some b;
  al_none : partial_hit_reqs m !! r = None -> table s.1 r = table m r ++ bs;
  al_partial : partial_hit_reqs s.1 = delete r (partial_hit_reqs m);
  al_cached : num_cached_block s.1 = num_cached_block m;
  al_hash : keeps_hashes p s.2;
  al_unhashed : unhashed s.2 bs;
  al_entries : forall i x, table s.1 r !! i = Some x ->
    (table m r !! i = Some x /\ partial_hit_reqs m !! r <> Some (Z.of_nat i, x)) \/ x ∈ bs;
  al_once : forall i j x, x ∈ bs -> table s.1 r !! i = Some x -> table s.1 r !! j = Some x -> i = j
}.

Lemma allocated_compose r nt bs bs' m p s1 s2 :
  redirected r bs m p s1 -> extended r bs' s1.1 s1.2 s2 -> fresh_blocks p (bs ++ bs') ->
  (forall x, x ∈ bs ++ bs' -> x ∉ table m r) ->
  zlen bs' = Z.max 0 (cdiv nt (block_size m) - zlen (table m r)) ->
  allocated r nt (bs ++ bs') m p s2.
Proof.
  intros [] [] Hf Hnew Hl. assert (NoDup (bs ++ bs')) as Hnd by apply Hf.
  assert (forall i x, table s2.1 r !! i = Some x -> x ∈ bs ++ bs' ->
    (x ∈ bs /\ exists b, partial_hit_reqs m !! r = Some (Z.of_nat i, b)) \/
    (x ∈ bs' /\ (length (table s1.1 r) <= i)%nat /\ bs' !! (i - length (table s1.1 r))%nat = Some x)) as Hpos.
  { intros i x Hi Hx. rewrite ex_table0 in Hi. apply lookup_app_Some in Hi as [Hi|[Hle Hi]].
    - apply rd_entries0 in Hi as [[Hi _]|Hi]; [|by left]. by apply list_elem_of_lookup_2, Hnew in Hi.
    - right. split_and!; [by eapply list_elem_of_lookup_2|done|done]. }
  split; try done.
  - by etrans.
  - congruence.
  - rewrite ex_table0, length_app, rd_length0. lia.
  - intros i b Hi Hne. rewrite ex_table0. apply lookup_app_l_Some. auto.
  - intros H. destruct (rd_none0 H) as [E ->]. rewrite ex_table0, E. done.
  - congruence.
  - congruence.
  - eapply keeps_hashes_trans; [|exact rd_hash0|exact ex_hash0]. intros x Hx Hx'. specialize (rd_refs0 x Hx). lia.
  - intros Hc x [Hx|Hx]%elem_of_app; [|by apply ex_unhashed0].
    assert (x <> 0%nat) as Hx0 by (apply (fb_free _ _ Hf); set_solver).
    pose proof (ex_hash0 x Hx0 (rd_used0 x Hx)) as E. unfold hash_of in E. injection E as -> _.
    apply rd_unhashed0; [|done]. unfold config in ex_config0. congruence.
  - intros i x Hi. rewrite ex_table0 in Hi. apply lookup_app_Some in Hi as [Hi|[_ Hi]].
    + apply rd_entries0 in Hi as [Hi|[Hi _]]; [by left|right; set_solver].
    + right. apply elem_of_app. right. by eapply list_elem_of_lookup_2.
  - intros i j x Hx Hi Hj. apply NoDup_app in Hnd as (_ & Hd & Hnd).
    destruct (Hpos i x Hi Hx) as [[Hbi (bi & Ei)]|(Hbi & Hli & Ei)], (Hpos j x Hj Hx) as [[Hbj (bj & Ej)]|(Hbj & Hlj & Ej)].
    + rewrite Ei in Ej. simplify_eq. lia.
    + by destruct (Hd x).
    + by destruct (Hd x).
    + pose proof (NoDup_lookup _ _ _ _ Hnd Ei Ej). lia.
Qed.

Lemma allocate_new_ok others free m p r nt :
  owns others free (m, p) -> new_need m r nt <= zlen free ->
  wp (allocate_new_blocks use_int r nt) (fun bs s => exists free',
    free = bs ++ free' /\ zlen bs = new_need m r nt /\ owns others free' s /\ allocated r nt bs m p s) (m, p).
Proof.
  intros Ho Hn. unfold allocate_new_blocks, new_need in *. run.
  assert (0 <= cow_need m r) as Hc by (unfold cow_need; by destruct (partial_hit_reqs m !! r)).
  eapply wp_mono; [apply (redirect_ok others free); [done|lia]|].
  intros cow [m1 p1] (free1 & -> & Ec & Ho1 & Hr). run. rewrite length_app in Hn. simpl in Ho1.
  assert (fresh_blocks p (cow ++ free1)) as Hf.
  { destruct Ho as [[[_ _ Hr' Hf _ _ _] _] _ _ _ _ _]. split; [by apply FreeQueue.repr_nodup in Hr'|].
    intros x Hx. apply Hf in Hx. unfold blk. tauto. }
  change (block_size (opened r m1)) with (block_size m1). pose proof (fr_size _ _ _ (rd_frame _ _ _ _ _ Hr)) as Eb.
  pose proof (rd_length _ _ _ _ _ Hr) as El. simpl in Eb, El. rewrite Eb, El.
  destruct (_ <=? 0) eqn:E; bools; run.
  - exists free1. split_and!; [done|lia|by eapply owns_same, Ho1; apply opened_same|].
    rewrite <- (app_nil_r cow). apply (allocated_compose r nt cow [] m p (m1, p1)); [done| |by rewrite app_nil_r; apply Hr| |simpl; lia].
    2: { intros x Hx. rewrite app_nil_r in Hx. eapply fresh_not_owned; [exact Ho|apply Hr|done]. }
    destruct (extended_nil r m1 p1). split; try done; [unfold opened; eauto with frame|].
    cbn [fst]. unfold opened. by rewrite table_self, app_nil_r.
  - eapply wp_mono; [apply (get_new_moved use_int p1 free1); [apply Ho1|lia]|].
    intros bs p2 (free2 & -> & En & Hf2 & Hmv & Hun). run. rewrite opened_put.
    assert (fresh_blocks p (cow ++ bs)) as Hf'.
    { destruct Hf as [Hnd Hfr]. rewrite app_assoc in Hnd, Hfr. split; [by apply NoDup_app in Hnd as [? _]|].
      intros x Hx. apply Hfr, elem_of_app. by left. }
    assert (forall m', framed r m1 m' -> req_to_blocks m' = <[r := table m1 r ++ bs]> (req_to_blocks m1) ->
      pending_cow_copies m' = pending_cow_copies m1 -> partial_hit_reqs m' = partial_hit_reqs m1 ->
      num_cached_block m' = num_cached_block m1 ->
      exists free', cow ++ bs ++ free2 = (cow ++ bs) ++ free' /\ zlen (cow ++ bs) = new_need m r nt /\
        owns others free' (m', p2) /\ allocated r nt (cow ++ bs) m p (m', p2)) as Hend.
    { intros m' Hfr Et Ep Eh Ecb. exists free2. unfold new_need. rewrite length_app.
      destruct (extend_ok others (bs ++ free2) free2 m1 p1 p2 m' r bs) as [Ho2 Hx]; try done.
      split_and!; [by rewrite app_assoc|lia|done|].
      apply (allocated_compose r nt cow bs m p (m1, p1)); try done; [|lia].
      intros x Hxx. eapply fresh_not_owned; [exact Ho|exact Hf'|done]. }
    destruct (record_new_block_ids _); run; apply Hend; try done; eauto 10 with frame.
Qed.

(** ** Freeing *)

Definition popped (r : string) (m : single) : single :=
  set_cow (delete r (partial_hit_reqs m)) (pending_cow_copies m)
    (set_num_cached (delete r (num_cached_block m)) (set_tables (delete r (req_to_blocks m)) m)).
Lemma pop_run r m : pop_blocks_for_free r m = (Ok (table m r), popped r m).
Proof. done. Qed.
Lemma table_popped r m r' : table (popped r m) r' = if decide (r = r') then [] else table m r'.
Proof.
  unfold table, popped. simpl. destruct (decide (r = r')) as [<-|]; [by rewrite lookup_delete_eq|by rewrite lookup_delete_ne].
Qed.
Lemma framed_popped r m : framed r m (popped r m).
Proof.
  split; try done; intros r' Hr; [by rewrite table_popped, decide_False|..]; simpl; by rewrite lookup_delete_ne.
Qed.

(** The popped references pass to whoever pops them. *)
Lemma pop_ok others free m p r :
  owns others free (m, p) -> owns (fun x => others x + occ x (table m r)) free (popped r m, p).
Proof.
  intros []. split; simpl in *; try done.
  - intros x. pose proof (occ_nonneg x (table m r)). specialize (o_others0 x). lia.
  - intros x Hx. rewrite o_refs0 by done. unfold held, popped. simpl. rewrite owned_delete. unfold table. lia.
  - intros r' x. rewrite table_popped. destruct (decide _); [set_solver|apply o_range0].
  - intros r' i b. rewrite table_popped. simpl. destruct (decide (r = r')) as [<-|].
    + by rewrite lookup_delete_eq.
    + rewrite lookup_delete_ne by done. apply o_partial0.
Qed.

(** Dropping references of other holders. *)
Lemma owns_drop others free m p p' bs free' :
  owns (fun x => others x + occ x bs) free (m, p) -> (forall x, 0 <= others x) ->
  moved (fun x => - occ x bs) free' p p' -> owns others free' (m, p').
Proof.
  intros [] Hn []. simpl in *. split; simpl; try done.
  - intros x Hx. rewrite mv_ref0, o_refs0 by done. lia.
  - intros r x. rewrite (config_num _ _ mv_config0). apply o_range0.
Qed.

Lemma drop_ok others free m p bs :
  owns (fun x => others x + occ x bs) free (m, p) -> (forall x, 0 <= others x) ->
  (forall x, x ∈ bs -> Z.of_nat x < num_gpu_blocks p) ->
  wp (free_own_blocks bs) (fun _ p' => exists free', moved (fun x => - occ x bs) free' p p') p.
Proof.
  intros Ho Hn Hr. apply (free_moved p free); [apply Ho|]. intros x Hx Hx0. split; [by apply Hr|].
  pose proof (o_refs _ _ _ Ho x Hx0) as E. simpl in E. rewrite E. pose proof (held_nonneg x m). specialize (Hn x). lia.
Qed.

Lemma free_request_ok others free m p r :
  owns others free (m, p) ->
  wp (SingleType.free r) (fun _ s => exists free', owns others free' s /\ s.1 = popped r m /\ config s.2 = config p /\
    keeps_hashes p s.2) (m, p).
Proof.
  intros Ho. unfold SingleType.free. run. eapply wp_of_run; [apply pop_run|]. run.
  assert (owns (fun x => others x + occ x (reverse (table m r))) free (popped r m, p)) as Ho'.
  { apply (pop_ok _ _ _ _ r) in Ho. destruct Ho. split; try done; intros x; rewrite occ_reverse; auto. }
  eapply wp_mono; [eapply drop_ok; [exact Ho'|apply Ho|]|].
  - intros x Hx. rewrite elem_of_reverse in Hx. exact (o_range _ _ _ Ho r x Hx).
  - intros [] p' [free' Hmv]. exists free'. split_and!; [|done|apply Hmv|apply Hmv]. eapply owns_drop; [exact Ho'|apply Ho|done].
Qed.

Lemma take_cow_ok others free m p :
  owns others free (m, p) ->
  owns (fun x => others x + occ x (cow_ends (pending_cow_copies m))) free (set_cow (partial_hit_reqs m) [] m, p).
Proof.
  intros []. split; simpl in *; try done.
  - intros x. pose proof (occ_nonneg x (cow_ends (pending_cow_copies m))). specialize (o_others0 x). lia.
  - intros x Hx. rewrite o_refs0 by done. unfold held. simpl. rewrite occ_nil. lia.
Qed.

(** ** Blocks outside the attention window *)

Lemma range_down_cons a b : b < a -> py_range_down a b = a :: py_range_down (a - 1) b.
Proof.
  intros H. unfold py_range_down, py_range.
  replace (a + 1 - (b + 1)) with (Z.of_nat (S (Z.to_nat (a - 1 - b)))) by lia.
  replace (a - 1 + 1 - (b + 1)) with (Z.of_nat (Z.to_nat (a - 1 - b))) by lia.
  rewrite seqZ_S, reverse_snoc. f_equal. lia.
Qed.
Lemma range_down_nil a b : a <= b -> py_range_down a b = [].
Proof. intros H. unfold py_range_down. by rewrite py_range_nil by lia. Qed.

(** The scan downwards from [n] stops at the first null block or at [f]. *)
Lemma null_out_ok (f : nat) d (blocks acc : list nat) (n := (f + d)%nat) :
  (n <= length blocks)%nat ->
  exists k, (f <= k <= n)%nat /\ (k = f \/ blocks !! (k - 1)%nat = Some 0%nat) /\ 0%nat ∉ drop k (take n blocks) /\
    null_out 0%nat (py_range_down (Z.of_nat n - 1) (Z.of_nat f - 1)) blocks acc =
      Ok (take k blocks ++ replicate (n - k) 0%nat ++ drop n blocks, acc ++ reverse (drop k (take n blocks))).
Proof.
  revert blocks acc. subst n. induction d as [|d IH]; intros blocks acc Hn.
  { exists f. rewrite Nat.add_0_r in *. rewrite range_down_nil by lia. rewrite Nat.sub_diag. simpl.
    rewrite drop_ge by (rewrite length_take; lia). rewrite take_drop, app_nil_r. split_and!; [lia|lia|by left|set_solver|done]. }
  rewrite range_down_cons by lia. simpl.
  destruct (blocks !! (f + d)%nat) as [b|] eqn:Eb; [|apply lookup_ge_None in Eb; lia].
  replace (Z.of_nat (f + S d) - 1) with (Z.of_nat (f + d)) by lia.
  rewrite py_get_nat, Eb. case_bool_decide as Hb.
  - exists (f + S d)%nat. rewrite Nat.sub_diag. simpl. rewrite drop_ge by (rewrite length_take; lia).
    rewrite take_drop, app_nil_r. split_and!; [lia|lia| |set_solver|done]. right. subst b. rewrite <- Eb. f_equal. lia.
  - rewrite py_set_in, Nat2Z.id by lia.
    destruct (IH (<[(f + d)%nat := 0%nat]> blocks) (acc ++ [b])) as (k & Hk & Hstop & Hnn & ->); [rewrite length_insert; lia|].
    assert (take k (<[(f + d)%nat := 0%nat]> blocks) = take k blocks) as Etk by (by rewrite take_insert_ge by lia).
    assert (take (f + d) (<[(f + d)%nat := 0%nat]> blocks) = take (f + d) blocks) as Etn by (by rewrite take_insert_ge by lia).
    assert (drop k (take (f + S d) blocks) = drop k (take (f + d) blocks) ++ [b]) as Ed.
    { rewrite Nat.add_succ_r, (take_S_r _ _ b Eb), drop_app_le; [done|rewrite length_take; lia]. }
    exists k. split_and!; [lia|lia| | |].
    + destruct Hstop as [|Hs]; [by left|]. destruct (decide (k = f)); [by left|right].
      rewrite list_lookup_insert_ne in Hs by lia. done.
    + rewrite Etn in Hnn. rewrite Ed. set_solver.
    + rewrite Etk, Etn, Ed, reverse_snoc, <- app_assoc. f_equal. f_equal. f_equal.
      rewrite (drop_S _ 0%nat) by (apply list_lookup_insert_eq; lia). rewrite drop_insert_lt by lia.
      replace (f + S d - k)%nat with ((f + d - k) + 1)%nat by lia. rewrite replicate_add, <- app_assoc. simpl.
      by rewrite Nat.add_succ_r.
Qed.

(** The table of [r] after its entries in [k, n) were nulled. *)
Record nulled (r : string) (f n : nat) (m : single) (p : BlockPool) (s : single * BlockPool) : Prop := {
  nu_frame : framed r m s.1;
  nu_config : config s.2 = config p;
  nu_cached : num_cached_block s.1 = num_cached_block m;
  nu_partial : partial_hit_reqs s.1 = partial_hit_reqs m;
  nu_hash : keeps_hashes p s.2;
  nu_table : exists k, (f <= k)%nat /\ (k = f \/ (k <= n)%nat /\ table m r !! (k - 1)%nat = Some 0%nat) /\
    table s.1 r = take k (table m r) ++ replicate (n - k) 0%nat ++ drop (k `max` n) (table m r)
}.

Lemma nulled_nothing r f n m p : (n <= f)%nat -> nulled r f n m p (m, p).
Proof.
  intros H. split; try done. exists f. split_and!; [lia|by left|].
  replace (n - f)%nat with 0%nat by lia. rewrite Nat.max_l by lia. simpl. by rewrite take_drop.
Qed.

Lemma occ_nulled x k n (blocks : list nat) :
  x <> 0%nat -> (k <= n)%nat ->
  occ x (take k blocks ++ replicate (n - k) 0%nat ++ drop n blocks) = occ x blocks - occ x (reverse (drop k (take n blocks))).
Proof.
  intros Hx Hk. rewrite occ_reverse, !occ_app, occ_replicate_0 by done.
  assert (occ x blocks = occ x (take n blocks) + occ x (drop n blocks)) as E1 by (by rewrite <- occ_app, take_drop).
  assert (occ x (take n blocks) = occ x (take k (take n blocks)) + occ x (drop k (take n blocks))) as E2
    by (by rewrite <- occ_app, take_drop).
  rewrite take_take, Nat.min_l in E2 by lia. lia.
Qed.

Lemma owns_release others free m p r (tbl freed : list nat) :
  owns others free (m, p) -> partial_hit_reqs m !! r = None ->
  (forall x, x <> 0%nat -> occ x (table m r) = occ x tbl + occ x freed) ->
  (forall x, x ∈ tbl -> x ∈ table m r \/ x = 0%nat) ->
  owns (fun x => others x + occ x freed) free (set_tables (<[r := tbl]> (req_to_blocks m)) m, p).
Proof.
  intros Ho Hp Hocc Hin. pose proof (qi_pos _ _ _ _ (proj1 (o_pool _ _ _ Ho))) as Hpos. destruct Ho.
  simpl in *. split; cbn [fst snd]; try done.
  - intros x. pose proof (occ_nonneg x freed). specialize (o_others0 x). lia.
  - intros x Hx. rewrite o_refs0 by done. unfold held. simpl. rewrite owned_insert. specialize (Hocc x Hx).
    unfold table in Hocc. lia.
  - intros r' x. unfold table. simpl. rewrite table_put. destruct (decide (r = r')) as [<-|]; [|apply o_range0].
    intros [Hx| ->]%Hin; [by eapply o_range0|done].
  - intros r' i b H. unfold table. simpl. rewrite table_put. destruct (decide (r = r')) as [<-|]; [|by apply o_partial0].
    simpl in H. congruence.
Qed.

Lemma remove_range_ok others free m p r (f l : nat) (n := (l `min` length (table m r))%nat) :
  owns others free (m, p) -> partial_hit_reqs m !! r = None ->
  wp (remove_blocks_in_range r (Z.of_nat f) (Z.of_nat l)) (fun _ s => exists free',
    owns others free' s /\ nulled r f n m p s) (m, p).
Proof.
  intros Ho Hpart. unfold remove_blocks_in_range. run.
  destruct (req_to_blocks m !! r) as [blocks|] eqn:Er; run.
  2: { exists free. split; [done|]. apply nulled_nothing. unfold n, table. rewrite Er. simpl. lia. }
  assert (table m r = blocks) as Et by (unfold table; by rewrite Er).
  destruct (_ >=? _) eqn:E; bools; run; [exists free; split; [done|]; apply nulled_nothing; lia|].
  pose proof (qi_null _ _ _ _ (proj1 (o_pool _ _ _ Ho))) as Hz. simpl in Hz. rewrite Hz.
  replace (Z.min (Z.of_nat l) (zlen blocks)) with (Z.of_nat n) by (unfold n; rewrite Et; lia).
  destruct (decide (n <= f)%nat) as [Hnf|Hnf].
  { rewrite range_down_nil by lia. simpl. exists (blocks, []). split; [done|]. run. exists free.
    assert (m = set_tables (<[r := blocks]> (req_to_blocks m)) m) as <-.
    { rewrite insert_id by done. by destruct m. }
    split; [done|by apply nulled_nothing]. }
  assert (n <= length blocks)%nat as Hn by (unfold n; rewrite Et; lia).
  destruct (null_out_ok f (n - f) blocks []) as (k & Hk & Hstop & Hnn & Eo); [lia|].
  replace (f + (n - f))%nat with n in Eo, Hk, Hnn by lia. rewrite Eo.
  set (freed := reverse (drop k (take n blocks))) in *. simpl in Eo |- *.
  exists (take k blocks ++ replicate (n - k) 0%nat ++ drop n blocks, freed). split; [done|]. run. cbn [fst snd].
  set (tbl := take k blocks ++ replicate (n - k) 0%nat ++ drop n blocks).
  set (m1 := set_tables (<[r := tbl]> (req_to_blocks m)) m).
  assert (forall x, x ∈ freed -> Z.of_nat x < num_gpu_blocks p) as Hfr.
  { intros x Hx. apply (o_range _ _ _ Ho r). cbn [fst]. rewrite Et. unfold freed in Hx. rewrite elem_of_reverse in Hx.
    apply list_elem_of_lookup in Hx as [j Hx]. rewrite lookup_drop in Hx. apply lookup_take_Some in Hx as [Hx _].
    by eapply list_elem_of_lookup_2. }
  assert (owns (fun x => others x + occ x freed) free (m1, p)) as Ho1.
  { apply owns_release; [done|done| |].
    - intros x Hx. rewrite Et. unfold tbl, freed. rewrite occ_nulled by lia. lia.
    - rewrite Et. unfold tbl. intros x [Hx|[Hx|Hx]%elem_of_app]%elem_of_app.
      + left. by eapply elem_of_take in Hx as (? & ? & _); eapply list_elem_of_lookup_2.
      + right. by apply elem_of_replicate in Hx as [-> _].
      + left. apply list_elem_of_lookup in Hx as [j Hx]. rewrite lookup_drop in Hx. by eapply list_elem_of_lookup_2. }
  assert (forall p', config p' = config p -> keeps_hashes p p' -> nulled r f n m p (m1, p')) as Hnul.
  { intros p' Hc Hh. split; cbn [fst snd]; try done; [unfold m1; by eauto with frame|].
    exists k. rewrite Et. split_and!; [lia| |].
    - destruct Hstop as [|Hs]; [by left|right; split; [lia|done]].
    - unfold m1. rewrite table_self, Nat.max_r by lia. done. }
  assert (wp (match freed with [] => ret tt | _ => free_own_blocks freed end) (fun _ p' => exists free', owns others free' (m1, p') /\ nulled r f n m p (m1, p')) p) as Hw.
  { assert (wp (free_own_blocks freed) (fun _ p' => exists free', moved (fun x => - occ x freed) free' p p') p) as Hw
      by (eapply drop_ok; [exact Ho1|apply Ho|done]).
    assert (wp (match freed with [] => ret tt | _ => free_own_blocks freed end)
      (fun _ p' => exists free', moved (fun x => - occ x freed) free' p p') p) as Hw'.
    { destruct freed; [|exact Hw]. run. exists free. split; [apply Ho|done| |apply keeps_hashes_self]. intros x _. rewrite occ_nil. lia. }
    eapply wp_mono; [exact Hw'|]. intros [] p' [free' Hmv]. exists free'. split; [|apply Hnul; apply Hmv].
    eapply owns_drop; [exact Ho1|apply Ho|done]. }
  destruct freed; run; exact Hw.
Qed.

Lemma remove_range_Z others free m p r f l :
  owns others free (m, p) -> partial_hit_reqs m !! r = None -> 0 <= f -> 0 <= l ->
  wp (remove_blocks_in_range r f l) (fun _ s => exists free',
    owns others free' s /\ nulled r (Z.to_nat f) (Z.to_nat l `min` length (table m r)) m p s) (m, p).
Proof.
  intros Ho Hp Hf Hl. rewrite <- (Z2Nat.id f), <- (Z2Nat.id l), !Nat2Z.id by done. by apply (remove_range_ok _ free).
Qed.

(** The range of table entries [remove_skipped_blocks] clears. *)
Definition removal_range (m : single) (processed : Z) (num_prompt_tokens : option Z) : Z * Z :=
  match kind (kv_cache_spec m), num_prompt_tokens with
  | RSWA w, Some np => (cdiv np (block_size m), Z.max np (processed - w) / block_size m)
  | _, _ => (0, get_num_skipped_tokens m processed / block_size m)
  end.

Record removal_args (m : single) (processed : Z) (num_prompt_tokens : option Z) : Prop := {
  ra_processed : 0 <= processed;
  ra_prompt : forall np, num_prompt_tokens = Some np -> 0 <= np;
  ra_chunk : forall c, kind (kv_cache_spec m) = ChunkedLocalAttention c -> 0 < c
}.

Lemma skipped_nonneg m processed np : removal_args m processed np -> 0 <= get_num_skipped_tokens m processed.
Proof.
  intros []. unfold get_num_skipped_tokens. destruct (kind _) eqn:E; try lia.
  pose proof (Z.div_pos processed attention_chunk_size ra_processed0 (ra_chunk0 _ eq_refl)).
  specialize (ra_chunk0 _ eq_refl). nia.
Qed.
Lemma cdiv_nonneg a b : 0 <= a -> 0 < b -> 0 <= cdiv a b.
Proof. intros Ha Hb. pose proof (cdiv_spec a b Hb). nia. Qed.

Lemma base_remove_ok others free m p r processed np (l := get_num_skipped_tokens m processed / block_size m) :
  owns others free (m, p) -> partial_hit_reqs m !! r = None -> removal_args m processed np ->
  wp (base_remove_skipped_blocks r processed) (fun _ s => exists free',
    owns others free' s /\ nulled r 0 (Z.to_nat l `min` length (table m r)) m p s) (m, p).
Proof.
  intros Ho Hp Ha. pose proof (skipped_nonneg _ _ _ Ha) as Hs. unfold base_remove_skipped_blocks. run.
  destruct (_ <=? 0) eqn:E; bools; run.
  { exists free. split; [done|]. apply nulled_nothing. subst l.
    replace (get_num_skipped_tokens m processed) with 0 by lia. rewrite Z.div_0_l; [done|].
    pose proof (o_size _ _ _ Ho). simpl in *. lia. }
  fold l. assert (0 <= l) as Hl by (apply Z.div_pos; [done|apply Ho]).
  eapply wp_mono; [apply (remove_range_Z others free); try done; [|lia]|].
  - eapply owns_same; [apply opened_same|done].
  - destruct (opened_same r m) as (_ & Et & _). rewrite Et.
    intros [] s (free' & Ho' & []). exists free'. split; [done|]. split; try done.
    + etrans; [|done]. unfold opened. eauto with frame.
    + destruct nu_table0 as (k & Hk & Hs' & Ek). exists k. rewrite Et in Hs', Ek.
      replace (Z.to_nat (Z.min l (zlen (table m r))) `min` length (table m r))%nat
        with (Z.to_nat l `min` length (table m r))%nat in * by lia. done.
Qed.

Lemma remove_skipped_ok others free m p r processed np (R := removal_range m processed np) :
  owns others free (m, p) -> partial_hit_reqs m !! r = None -> removal_args m processed np ->
  wp (remove_skipped_blocks r processed np) (fun _ s => exists free',
    owns others free' s /\ nulled r (Z.to_nat R.1) (Z.to_nat R.2 `min` length (table m r)) m p s) (m, p).
Proof.
  intros Ho Hp Ha. unfold remove_skipped_blocks, R, removal_range. run.
  destruct (kind (kv_cache_spec m)) eqn:Ek; try by eapply base_remove_ok.
  destruct np as [np|]; [|by eapply base_remove_ok].
  pose proof (ra_prompt _ _ _ Ha np eq_refl). pose proof (o_size _ _ _ Ho). simpl in *.
  apply (remove_range_Z others free); try done; [by apply cdiv_nonneg|apply Z.div_pos; lia].
Qed.

(** Reading the common prefix only creates the table. *)
Lemma common_prefix_ok others free m p r :
  owns others free (m, p) ->
  wp (get_num_common_prefix_blocks r) (fun _ s => owns others free s) (m, p).
Proof.
  intros Ho. unfold get_num_common_prefix_blocks. run.
  destruct (kind _); run; try done; (eapply owns_same; [apply opened_same|done]).
Qed.
End ops.
