(* ===== verification/TableReach.v ===== *)
(** What a single-type KV cache manager promises
    ([vllm/v1/core/single_type_kv_cache_manager.py]): in every reachable state
    its tables account for the references of the pool, calls within the contract
    return, and the blocks a request holds stay below the admission cap. *)
From Stdlib Require Import ZArith Lia Strings.String.
From stdpp Require Import base numbers list gmap strings.
From S2P Require Import Prelude BlockQueue Request BlockHash HashMap BlockPool PoolOps PoolCache PoolSafety CacheHit.
From S2P Require Import SingleTypeManager TableSafety.
Import Pool SingleType.
Open Scope Z_scope.
Local Arguments py_get : simpl never.
Local Arguments Z.of_nat : simpl never.

(** * Sequences of calls *)

Section reach.
Context (use_int : bool).

Inductive table_op :=
| TAddLocal (r : string) (blocks : list nat) (nl ne : Z)
| TAllocExternal (r : string) (nl ne : Z) (record_for_zeroing : bool)
| TAllocNew (r : string) (num_tokens : Z)
| TTakeIds
| TTakeCopies
| TPop (r : string)
| TFree (r : string)
| TRemoveSkipped (r : string) (processed : Z) (num_prompt_tokens : option Z)
| TCommonPrefix (r : string).

Definition run_table_op (o : table_op) : M (single * BlockPool) unit :=
  match o with
  | TAddLocal r blocks nl ne => add_local_computed_blocks r blocks nl ne
  | TAllocExternal r nl ne rec => allocate_external_computed_blocks use_int r nl ne rec
  | TAllocNew r nt => allocate_new_blocks use_int r nt ;; ret tt
  | TTakeIds => on_mgr take_new_block_ids ;; ret tt
  | TTakeCopies => on_mgr take_pending_cow_copies ;; ret tt
  | TPop r => on_mgr (pop_blocks_for_free r) ;; ret tt
  | TFree r => SingleType.free r
  | TRemoveSkipped r c np => remove_skipped_blocks r c np
  | TCommonPrefix r => get_num_common_prefix_blocks r ;; ret tt
  end.

(** The calling contract. *)
Definition table_op_ok (s : single * BlockPool) (o : table_op) : Prop :=
  match o with
  | TAddLocal r blocks nl ne => table s.1 r = [] /\ hits_ok s.1 s.2 blocks nl
  | TAllocExternal r nl ne _ => num_external_blocks s.1 r nl ne <= get_num_free_blocks s.2
  | TAllocNew r nt => new_need s.1 r nt <= get_num_free_blocks s.2
  | TRemoveSkipped r c np => partial_hit_reqs s.1 !! r = None /\ removal_args s.1 c np
  | TTakeIds | TTakeCopies | TPop _ | TFree _ | TCommonPrefix _ => True
  end.

(** References that leave the manager with the result of a call. *)
Definition handed_over (m : single) (o : table_op) : list nat :=
  match o with
  | TTakeCopies => cow_ends (pending_cow_copies m)
  | TPop r => table m r
  | _ => []
  end.

(** The other holders of references may change the pool as long as they take
    and drop references of their own. *)
Definition env_step (others others' : nat -> Z) (p p' : BlockPool) : Prop :=
  (exists free', moved (fun x => others' x - others x) free' p p') /\ forall x, 0 <= others' x.

Inductive table_reachable : (nat -> Z) -> single * BlockPool -> Prop :=
| tr_init p free spec dcp sbs group caching zeroing cap others :
    inv p free -> 0 < block_size (init spec dcp sbs group caching zeroing cap) ->
    (forall x, 0 <= others x) -> (forall x, x <> 0%nat -> ref_cnt (blk p x) = others x) ->
    table_reachable others (init spec dcp sbs group caching zeroing cap, p)
| tr_op others s o res s' :
    table_reachable others s -> table_op_ok s o -> run_table_op o s = (res, s') ->
    table_reachable (fun x => others x + occ x (handed_over s.1 o)) s'
| tr_env others others' m p p' :
    table_reachable others (m, p) -> env_step others others' p p' -> table_reachable others' (m, p').

Lemma owns_others_ext others others' free s :
  (forall x, others x = others' x) -> owns others free s -> owns others' free s.
Proof. intros E []. split; try done; intros x; rewrite <- E; auto. Qed.

Lemma owns_handed_nil others free s : owns others free s -> owns (fun x => others x + occ x []) free s.
Proof. apply owns_others_ext. intros x. rewrite occ_nil. lia. Qed.

Lemma owns_init p free spec dcp sbs group caching zeroing cap others
    (m := init spec dcp sbs group caching zeroing cap) :
  inv p free -> 0 < block_size m -> (forall x, 0 <= others x) ->
  (forall x, x <> 0%nat -> ref_cnt (blk p x) = others x) -> owns others free (m, p).
Proof. intros Hp Hb Hn Hr. split; simpl; try done. intros r x Hx. by apply not_elem_of_nil in Hx. Qed.

Lemma owns_env others others' free m p p' :
  owns others free (m, p) -> env_step others others' p p' -> exists free', owns others' free' (m, p').
Proof.
  intros [] [[free' Hmv] Hn]. exists free'. destruct Hmv. simpl in *. split; simpl; try done.
  - intros x Hx. rewrite mv_ref, o_refs by done. lia.
  - intros r x. rewrite (config_num _ _ mv_config). apply o_range.
Qed.

(** Every call within the contract returns and keeps the ownership. *)
Lemma table_op_keeps others free s o :
  owns others free s -> table_op_ok s o ->
  wp (run_table_op o) (fun _ s' => exists free', owns (fun x => others x + occ x (handed_over s.1 o)) free' s') s.
Proof.
  destruct s as [m p]. intros Ho Hok. pose proof (free_count _ _ (o_pool _ _ _ Ho)) as Ef. simpl in Ef.
  destruct o; simpl in *; wp_simpl; rewrite ?Ef in Hok.
  - destruct Hok as [Ht Hh]. eapply wp_mono; [by apply (add_local_ok others free)|]. intros [] s' [H _]. eexists; apply owns_handed_nil; exact H.
  - eapply wp_mono; [by apply (allocate_external_ok use_int others free)|].
    intros [] s' (bs & free' & _ & _ & H & _). eexists; apply owns_handed_nil; exact H.
  - eapply wp_mono; [by apply (allocate_new_ok use_int others free)|].
    intros bs s' (free' & _ & _ & H & _). wp_simpl. eexists; apply owns_handed_nil; exact H.
  - unfold on_mgr, take_new_block_ids. wp_simpl. exists free. apply owns_handed_nil.
    eapply owns_same; [|exact Ho]. by apply same_tables_eq.
  - unfold on_mgr, take_pending_cow_copies. wp_simpl. exists free. by apply take_cow_ok.
  - unfold on_mgr. wp_simpl. eapply wp_of_run; [apply pop_run|]. wp_simpl. exists free. by apply pop_ok.
  - eapply wp_mono; [by apply (free_request_ok others free)|]. intros [] s' (free' & H & _). eexists; apply owns_handed_nil; exact H.
  - destruct Hok as [Hp Ha]. eapply wp_mono; [by apply (remove_skipped_ok others free)|].
    intros [] s' (free' & H & _). eexists; apply owns_handed_nil; exact H.
  - eapply wp_mono; [by apply (common_prefix_ok others free)|]. intros n s' H. wp_simpl. eexists; apply owns_handed_nil; exact H.
Qed.

Lemma table_reachable_owns others s : table_reachable others s -> exists free, owns others free s.
Proof.
  induction 1 as [| others s o res s' _ [free Ho] Hok E| others others' m p p' _ [free Ho] He].
  - eexists. by apply owns_init.
  - pose proof (table_op_keeps _ _ _ _ Ho Hok) as H. unfold wp in H. rewrite E in H. by destruct res.
  - by eapply owns_env.
Qed.

Definition table_promise (others : nat -> Z) (s : single * BlockPool) : Prop :=
  (forall x, x <> 0%nat -> ref_cnt (blk s.2 x) = held s.1 x + others x) /\
  (exists free, inv s.2 free /\ forall r x, x ∈ table s.1 r -> x <> 0%nat -> x ∉ free) /\
  forall o, table_op_ok s o -> exists s', run_table_op o s = (Ok tt, s').

Lemma owns_promise others free s : owns others free s -> table_promise others s.
Proof.
  intros Ho. split_and!; [apply Ho| |].
  - exists free. split; [apply Ho|]. intros r x Hx Hx0 Hf.
    apply (qi_free _ _ _ _ (proj1 (o_pool _ _ _ Ho))) in Hf as [_ Hf]. fold (blk s.2 x) in Hf.
    rewrite (o_refs _ _ _ Ho) in Hf by done. pose proof (held_table x s.1 r). pose proof (o_others _ _ _ Ho x).
    apply occ_pos in Hx. lia.
  - intros o Hok. pose proof (table_op_keeps _ _ _ _ Ho Hok) as H. unfold wp in H.
    destruct (run_table_op o s) as [[[]|] s']; [by eexists|done].
Qed.

(** C8: block tables own their blocks.  In every state reachable by calls
    within the contract, interleaved with arbitrary steps of the other holders
    of the pool, the reference counter of each block is the number of its
    occurrences in the block tables and pending copies of the manager plus the
    references of the others; no block of a table is in the free list; and every
    call within the contract returns: no assertion fails, no index is out of
    range and the pool is never asked for more blocks than it has. *)
Theorem tables_own_blocks others s : table_reachable others s -> table_promise others s.
Proof. intros [free Ho]%table_reachable_owns. by eapply owns_promise. Qed.
End reach.

(** * Leaving the attention window *)

(** From position [f] on, the null blocks of a table precede the others. *)
Definition nulls_from (f : nat) (tbl : list nat) : Prop :=
  forall i j, (f <= i <= j)%nat -> tbl !! j = Some 0%nat -> tbl !! i = Some 0%nat.

Lemma take_nulls (tbl : list nat) f k :
  (f <= k)%nat -> (forall i, (f <= i < k)%nat -> tbl !! i = Some 0%nat) ->
  take k tbl = take f tbl ++ replicate (k - f) 0%nat.
Proof.
  induction k as [|k IH]; intros Hk H.
  - replace f with 0%nat by lia. done.
  - destruct (decide (f = S k)) as [->|]; [by rewrite Nat.sub_diag, app_nil_r|].
    rewrite (take_S_r _ _ 0%nat) by (apply H; lia). rewrite IH by (intros; try apply H; lia).
    rewrite Nat.sub_succ_l, <- app_assoc, replicate_S_end by lia. done.
Qed.

(** The scan clears its whole range although it stops at the first null. *)
Lemma nulled_exact r f n m p s :
  nulls_from f (table m r) -> (n <= length (table m r))%nat -> nulled r f n m p s ->
  table s.1 r = if decide (f <= n)%nat then take f (table m r) ++ replicate (n - f) 0%nat ++ drop n (table m r)
                else table m r.
Proof.
  intros Hn Hl [_ _ _ _ _ (k & Hk & Hstop & ->)]. case_decide as Hf.
  - assert (k <= n)%nat as Hkn by (destruct Hstop as [->|[? _]]; lia).
    rewrite (take_nulls _ f k), <- app_assoc; [|lia|].
    + f_equal. rewrite app_assoc, <- replicate_add, Nat.max_r by lia. by replace (k - f + (n - k))%nat with (n - f)%nat by lia.
    + intros i Hi. destruct Hstop as [->|[_ Hs]]; [lia|]. apply (Hn i (k - 1)%nat); [lia|done].
  - assert (k = f) as -> by (destruct Hstop as [|[? _]]; lia).
    replace (n - f)%nat with 0%nat by lia. rewrite Nat.max_l by lia. simpl. by rewrite take_drop.
Qed.

Lemma nulls_from_app f (tbl bs : list nat) : nulls_from f tbl -> 0%nat ∉ bs -> nulls_from f (tbl ++ bs).
Proof.
  intros Hn Hb i j Hi Hj. apply lookup_app_Some in Hj as [Hj|[Hj Hj']].
  - apply lookup_app_l_Some. by eapply Hn.
  - exfalso. apply Hb. by eapply list_elem_of_lookup_2.
Qed.

Lemma nulls_from_cleared n (tbl : list nat) :
  nulls_from 0 tbl -> (n <= length tbl)%nat -> nulls_from 0 (replicate n 0%nat ++ drop n tbl).
Proof.
  intros Hn Hl i j Hi Hj. destruct (decide (i < n)%nat) as [Hin|Hin].
  - by apply lookup_app_l_Some, lookup_replicate.
  - rewrite lookup_app_r, length_replicate, lookup_drop in * by (rewrite length_replicate; lia).
    apply (Hn _ (n + (j - n))%nat); [lia|done].
Qed.

(** The blocks of the pool a table holds. *)
Definition real_blocks (tbl : list nat) : Z := zlen (filter (fun x => x <> 0%nat) tbl).
Lemma real_blocks_cleared n (l : list nat) : real_blocks (replicate n 0%nat ++ l) <= zlen l.
Proof.
  unfold real_blocks. rewrite filter_app, length_app.
  assert (filter (fun x => x <> 0%nat) (replicate n 0%nat) = []) as ->.
  { induction n; [done|]. simpl replicate. by rewrite filter_cons_False by (intros H; by apply H). }
  pose proof (length_filter (fun x => x <> 0%nat) l). simpl. lia.
Qed.

(** ** The admission cap *)

Lemma cdiv_le a b c : 0 < c -> a <= b -> cdiv a c <= cdiv b c.
Proof. intros Hc Hab. pose proof (cdiv_spec a c Hc). pose proof (cdiv_spec b c Hc). nia. Qed.
Lemma cdiv_size a b c : 0 <= a -> 0 < b <= c -> cdiv a c <= cdiv a b.
Proof.
  intros Ha Hc. pose proof (cdiv_spec a b ltac:(lia)). pose proof (cdiv_spec a c ltac:(lia)).
  pose proof (cdiv_nonneg a b Ha ltac:(lia)). nia.
Qed.
Lemma cdiv_minus_floor a s c : 0 < c -> 0 <= s -> cdiv a c - s / c <= cdiv (a - s) c + 1.
Proof.
  intros Hc Hs. pose proof (cdiv_spec a c Hc). pose proof (cdiv_spec (a - s) c Hc).
  pose proof (Z.div_mod s c ltac:(lia)). pose proof (Z.mod_pos_bound s c Hc). nia.
Qed.
Lemma cdiv_minus_exact a s c : 0 < c -> s mod c = 0 -> cdiv a c - s / c <= cdiv (a - s) c.
Proof.
  intros Hc Hs. pose proof (cdiv_spec a c Hc). pose proof (cdiv_spec (a - s) c Hc).
  pose proof (Z.div_mod s c ltac:(lia)). nia.
Qed.

(** Attention types that recycle blocks; the chunk is a whole number of blocks. *)
Definition recycling (m : single) : Prop :=
  match kind (kv_cache_spec m) with
  | SlidingWindow w e => 1 <= w /\ 0 <= e
  | ChunkedLocalAttention c => 0 < c /\ c mod block_size m = 0
  | FullAttention | RSWA _ => False
  end.

Lemma recycling_skipped m c np :
  recycling m -> 0 <= c -> (forall n, np = Some n -> 0 <= n) ->
  removal_args m c np /\ removal_range m c np = (0, get_num_skipped_tokens m c / block_size m).
Proof.
  unfold recycling, removal_range. intros Hr Hc Hnp. split; [split; try done; intros c' E|];
    destruct (kind _); try done; naive_solver.
Qed.

Lemma skipped_below m c :
  recycling m -> 0 <= c -> 0 < block_size m -> 0 <= get_num_skipped_tokens m c / block_size m <= cdiv c (block_size m).
Proof.
  intros Hr Hc Hb. assert (0 <= get_num_skipped_tokens m c <= c) as Hs.
  { unfold recycling, get_num_skipped_tokens in *. destruct (kind _) as [|w e|ch|]; try done; [lia|].
    pose proof (Z.div_mod c ch ltac:(lia)). pose proof (Z.mod_pos_bound c ch ltac:(lia)).
    pose proof (Z.div_pos c ch Hc ltac:(lia)). nia. }
  split; [apply Z.div_pos; lia|]. pose proof (cdiv_spec c (block_size m) Hb).
  pose proof (Z.div_mod (get_num_skipped_tokens m c) (block_size m) ltac:(lia)).
  pose proof (Z.mod_pos_bound (get_num_skipped_tokens m c) (block_size m) Hb). nia.
Qed.

Lemma cap_bound m c nt F len cap :
  recycling m -> spec_admission_cap (kv_cache_spec m) F len = Some cap ->
  0 < spec_block_size (kv_cache_spec m) <= block_size m -> 0 <= c -> 0 <= F -> 0 <= nt <= Z.min (c + F) len ->
  Z.max 0 (cdiv nt (block_size m) - get_num_skipped_tokens m c / block_size m) <= cap.
Proof.
  unfold recycling, spec_admission_cap, get_num_skipped_tokens. intros Hr Hcap Hb Hc HF Hnt.
  assert (0 < block_size m) as Hb' by lia.
  assert (forall T, 0 <= T -> cdiv T (block_size m) <= cdiv T (spec_block_size (kv_cache_spec m))) as Hsz
    by (intros; apply cdiv_size; lia).
  destruct (kind _) as [|w e|ch|]; try done; injection Hcap as <-.
  - set (s := Z.max 0 (c - w + 1 - e)). set (T := Z.min (w - 1 + e + F) len).
    assert (0 <= T) as HT by lia. specialize (Hsz T HT).
    pose proof (cdiv_nonneg T (block_size m) HT Hb').
    pose proof (Z.div_pos s (block_size m) ltac:(lia) Hb').
    destruct (decide (nt <= T)) as [Hle|Hgt].
    + pose proof (cdiv_le nt T (block_size m) Hb' Hle). lia.
    + pose proof (cdiv_minus_floor nt s (block_size m) Hb' ltac:(lia)).
      pose proof (cdiv_le (nt - s) T (block_size m) Hb' ltac:(lia)). lia.
  - destruct Hr as [Hch Hmod]. set (s := c / ch * ch). set (T := Z.min (ch + F) len).
    pose proof (Z.div_mod c ch ltac:(lia)). pose proof (Z.mod_pos_bound c ch Hch). pose proof (Z.div_pos c ch Hc Hch).
    assert (c - ch < s <= c) as Hs by (unfold s; nia).
    assert (0 <= s) as Hs0 by (unfold s; nia).
    assert (0 <= T) as HT by lia. specialize (Hsz T HT). pose proof (cdiv_nonneg T (block_size m) HT Hb').
    assert (s mod block_size m = 0) as Hsm.
    { unfold s. rewrite Z.mul_mod, Hmod, Z.mul_0_r by lia. apply Z.mod_0_l. lia. }
    pose proof (Z.div_pos s (block_size m) Hs0 Hb').
    destruct (decide (nt <= T)) as [Hle|Hgt].
    + pose proof (cdiv_le nt T (block_size m) Hb' Hle). lia.
    + pose proof (cdiv_minus_exact nt s (block_size m) Hb' Hsm).
      pose proof (cdiv_le (nt - s) T (block_size m) Hb' ltac:(lia)). lia.
Qed.

(** A table in mid-request: nulls first, no longer than the tokens in flight need. *)
Record in_window (m : single) (r : string) (processed F len : Z) : Prop := {
  iw_nulls : nulls_from 0 (table m r);
  iw_length : zlen (table m r) <= cdiv (Z.min (processed + F) len) (block_size m);
  iw_covers : cdiv processed (block_size m) <= zlen (table m r);
  iw_partial : partial_hit_reqs m !! r = None
}.

(** The arguments of one step: blocks outside the window of the [processed]
    tokens are removed, then slots for [num_tokens] tokens are allocated. *)
Record window_step (m : single) (processed num_tokens F len cap : Z) : Prop := {
  ws_recycling : recycling m;
  ws_cap : spec_admission_cap (kv_cache_spec m) F len = Some cap;
  ws_size : 0 < spec_block_size (kv_cache_spec m) <= block_size m;
  ws_flight : 0 <= F;
  ws_processed : 0 <= processed <= len;
  ws_tokens : 0 <= num_tokens <= Z.min (processed + F) len
}.

Lemma removed_in_window others free m p r c nt F len cap (n := Z.to_nat (get_num_skipped_tokens m c / block_size m)) :
  owns others free (m, p) -> in_window m r c F len -> window_step m c nt F len cap ->
  wp (remove_skipped_blocks r c None) (fun _ s => exists free', owns others free' s /\ framed r m s.1 /\
    partial_hit_reqs s.1 !! r = None /\
    table s.1 r = replicate (n `min` length (table m r)) 0%nat ++ drop (n `min` length (table m r)) (table m r)) (m, p).
Proof.
  intros Ho [Hn Hl Hcov Hp] [Hr Hcap Hb HF Hc Hnt].
  destruct (recycling_skipped m c None Hr ltac:(lia) ltac:(done)) as [Ha ER].
  eapply wp_mono; [by apply (remove_skipped_ok others free m p r c None Ho Hp Ha)|].
  intros [] s (free' & Ho' & Hnu). exists free'. rewrite ER in Hnu. simpl in Hnu. fold n in Hnu.
  pose proof (nulled_exact r _ _ _ _ _ Hn (Nat.le_min_r _ _) Hnu) as E. rewrite decide_True in E by lia.
  rewrite Nat.sub_0_r in E. destruct Hnu. split_and!; [done|done|by rewrite nu_partial|exact E].
Qed.

(** C14: a request never holds more blocks than its admission cap.  For sliding
    windows and for chunked-local attention with whole-block chunks, one
    scheduling step (removal of the blocks outside the window of the processed
    tokens, then allocation of slots for at most [F] tokens in flight) leaves
    at most [max_admission_blocks_per_request] blocks of the pool in the table,
    gives every token a slot and re-establishes the conditions on the table for
    the next step. *)
Theorem window_blocks_bounded use_int others free m p r c nt F len cap :
  owns others free (m, p) -> in_window m r c F len -> window_step m c nt F len cap ->
  wp (remove_skipped_blocks r c None) (fun _ s1 =>
    new_need s1.1 r nt <= get_num_free_blocks s1.2 ->
    wp (allocate_new_blocks use_int r nt) (fun _ s2 =>
      real_blocks (table s2.1 r) <= cap /\ cdiv nt (block_size m) <= zlen (table s2.1 r) /\
      (exists free', owns others free' s2) /\ forall c', c <= c' <= Z.max c nt -> in_window s2.1 r c' F len) s1) (m, p).
Proof.
  intros Ho Hw Hs. eapply wp_mono; [by apply (removed_in_window others free m p r c nt F len cap)|].
  intros [] [m1 p1] (free1 & Ho1 & Hf1 & Hp1 & Et) Hneed. simpl in *.
  rewrite (free_count p1 free1 (o_pool _ _ _ Ho1)) in Hneed.
  eapply wp_mono; [by apply (allocate_new_ok use_int others free1)|].
  intros bs s2 (free2 & _ & _ & Ho2 & Ha). pose proof (al_none _ _ _ _ _ _ Ha Hp1) as E2.
  pose proof (al_length _ _ _ _ _ _ Ha) as El. rewrite (fr_size _ _ _ Hf1) in El.
  destruct Hs as [Hr Hcap Hb HF Hc Hnt]. destruct Hw as [Hn Hl Hcov Hp].
  set (n := (Z.to_nat (get_num_skipped_tokens m c / block_size m) `min` length (table m r))%nat) in *.
  assert (length (table m1 r) = length (table m r)) as El1.
  { rewrite Et, length_app, length_replicate, length_drop. lia. }
  assert (cdiv nt (block_size m) <= cdiv (Z.min (c + F) len) (block_size m)) as Hmono by (apply cdiv_le; lia).
  pose proof (skipped_below m c Hr ltac:(lia) ltac:(lia)) as Hskip.
  split_and!; [|lia|by eauto|].
  - rewrite E2, Et, <- app_assoc. etrans; [apply real_blocks_cleared|].
    pose proof (cap_bound m c (Z.min (c + F) len) F len cap Hr Hcap Hb ltac:(lia) HF ltac:(lia)) as Hcb.
    rewrite E2, Et, !length_app, length_replicate in El. rewrite length_app, length_drop in *. lia.
  - intros c' Hc'. split.
    + rewrite E2, Et. apply nulls_from_app; [apply nulls_from_cleared; [done|lia]|].
      intros H0. by apply (fb_free _ _ (al_fresh _ _ _ _ _ _ Ha)) in H0 as [? _].
    + rewrite El, (fr_size _ _ _ (al_frame _ _ _ _ _ _ Ha)), (fr_size _ _ _ Hf1), El1.
      pose proof (cdiv_le (Z.min (c + F) len) (Z.min (c' + F) len) (block_size m) ltac:(lia) ltac:(lia)). lia.
    + rewrite El, (fr_size _ _ _ (al_frame _ _ _ _ _ _ Ha)), (fr_size _ _ _ Hf1), El1.
      destruct (decide (c' <= nt)); [pose proof (cdiv_le c' nt (block_size m) ltac:(lia) ltac:(lia)); lia|].
      replace c' with c by lia. lia.
    + by rewrite (al_partial _ _ _ _ _ _ Ha), lookup_delete_eq.
Qed.

(** * Examples *)

Lemma reach_next use_int others s o :
  table_reachable use_int others s -> table_op_ok s o ->
  table_reachable use_int (fun x => others x + occ x (handed_over s.1 o)) (run_table_op use_int o s).2.
Proof. intros Hr Ho. destruct (run_table_op use_int o s) as [res s'] eqn:E. by eapply tr_op. Qed.

Definition table_pool : BlockPool :=
  match Pool.init 8 true 4 false false "GPU" with Ok p => p | Raise _ => demo_two end.
Lemma table_pool_ok : inv table_pool (seq 1 7) /\ forall x, ref_cnt (blk table_pool x) = 0.
Proof.
  destruct (pool_init_ok 8 true 4 false false "GPU" ltac:(lia)) as (p & E & Hp & _ & _ & Hr).
  unfold table_pool. rewrite E. split; [exact Hp|apply Hr].
Qed.

(** Request [a] holds two blocks; [b] hits them with a partial second block and
    redirects it to a private copy. *)
Definition demo_full : single := init (demo_spec 4 FullAttention) 1 4 0 true false None.
Definition demo_a := (run_table_op false (TAllocNew "a" 5) (demo_full, table_pool)).2.
Definition demo_hit_b := (run_table_op false (TAddLocal "b" [1; 2]%nat 6 0) demo_a).2.
Definition demo_cow := (run_table_op false (TAllocNew "b" 7) demo_hit_b).2.

Lemma demo_start : table_reachable false (fun _ => 0) (demo_full, table_pool).
Proof. eapply tr_init; [apply table_pool_ok|vm_compute; reflexivity|lia|]. intros x _. apply table_pool_ok. Qed.

Lemma demo_cow_reachable : exists others, table_reachable false others demo_cow /\ forall x, others x = 0.
Proof.
  eexists. split.
  - unfold demo_cow, demo_hit_b, demo_a. repeat eapply reach_next.
    + exact demo_start.
    + vm_compute. congruence.
    + split; [vm_compute; reflexivity|]. split; [|left; vm_compute; reflexivity|lia|].
      * intros x Hx. repeat (apply elem_of_cons in Hx as [->|Hx]; [vm_compute; reflexivity|]). by apply not_elem_of_nil in Hx.
      * intros _ _. split; [vm_compute; reflexivity|]. set_solver by lia.
    + vm_compute. congruence.
  - intros x. reflexivity.
Qed.

Lemma tables_own_blocks_witness :
  exists others, table_reachable false others demo_cow /\
  table demo_cow.1 "b" = [1; 3]%nat /\ pending_cow_copies demo_cow.1 = [(2, 3)]%nat /\ ref_cnt (blk demo_cow.2 3) = 2 /\
  table_promise false others demo_cow.
Proof.
  destruct demo_cow_reachable as (others & Hr & _). exists others.
  split; [exact Hr|]. split; [vm_compute; reflexivity|]. split; [vm_compute; reflexivity|].
  split; [vm_compute; reflexivity|]. apply (tables_own_blocks false others demo_cow Hr).
Defined.

(** While a copy is pending, its source counts as a block common to all
    requests although [b] does not have it. *)
Lemma pending_copy_counted_as_common :
  (get_num_common_prefix_blocks "a" demo_cow).1 = Ok 2 /\
  table demo_cow.1 "a" !! 1%nat = Some 2%nat /\ 2%nat ∉ table demo_cow.1 "b".
Proof.
  split; [vm_compute; reflexivity|]. split; [vm_compute; reflexivity|].
  assert (table demo_cow.1 "b" = [1; 3]%nat) as -> by (vm_compute; reflexivity). set_solver by lia.
Qed.

(** ** The admission cap *)

Definition demo_window : single :=
  get_manager_for_kv_cache_spec (demo_spec 4 (SlidingWindow 6 0)) 4 100 1 4 0 true false.

Lemma demo_window_state :
  owns (fun _ => 0) (seq 1 7) (demo_window, table_pool) /\ in_window demo_window "a" 0 4 100 /\
  window_step demo_window 0 4 4 100 4.
Proof.
  split_and!.
  - apply owns_init; [apply table_pool_ok|vm_compute; reflexivity|lia|]. intros x _. apply table_pool_ok.
  - split; [intros i j _ H; done|vm_compute; congruence|vm_compute; congruence|reflexivity].
  - split; try (vm_compute; congruence); try (vm_compute; split; congruence).
Qed.

Lemma window_blocks_bounded_witness :
  window_step demo_window 0 4 4 100 4 /\
  wp (remove_skipped_blocks "a" 0 None) (fun _ s1 => new_need s1.1 "a" 4 <= get_num_free_blocks s1.2 ->
    wp (allocate_new_blocks false "a" 4) (fun _ s2 => real_blocks (table s2.1 "a") <= 4) s1) (demo_window, table_pool).
Proof.
  destruct demo_window_state as (Ho & Hw & Hs). split; [exact Hs|].
  eapply wp_mono; [apply (window_blocks_bounded false _ _ _ _ _ _ _ _ _ _ Ho Hw Hs)|].
  intros [] s1 H Hn. eapply wp_mono; [exact (H Hn)|]. intros bs s2 H2. apply H2.
Defined.

(** A chunk that is not a whole number of blocks: one block more than the cap. *)
Definition demo_chunk : single :=
  get_manager_for_kv_cache_spec (demo_spec 4 (ChunkedLocalAttention 6)) 2 100 1 4 0 true false.
Definition chunk_step (c nt : Z) : M (single * BlockPool) unit :=
  run_table_op false (TRemoveSkipped "a" c None) ;; run_table_op false (TAllocNew "a" nt).
Definition demo_chunk_run := for_ [(0, 1); (1, 3); (3, 5); (5, 7); (7, 9); (9, 11); (11, 13)]
  (fun cn => chunk_step cn.1 cn.2) (demo_chunk, table_pool).

Lemma chunk_cap_too_small :
  max_admission_blocks_per_request demo_chunk = Some 2 /\ demo_chunk_run.1 = Ok tt /\
  table demo_chunk_run.2.1 "a" = [0; 2; 1; 3]%nat /\ real_blocks (table demo_chunk_run.2.1 "a") = 3.
Proof. split_and!; vm_compute; reflexivity. Qed.
