(* ===== verification/Coordinator.v ===== *)
(** The KV cache coordinator ([vllm/v1/core/kv_cache_coordinator.py]): the
    methods of [KVCacheCoordinator] that run every single-type manager on the
    shared block pool, and the admission check they rely on. *)
From Stdlib Require Import ZArith Lia Strings.String.
From stdpp Require Import base numbers list gmap strings.
From S2P Require Import Prelude BlockQueue Request BlockHash HashMap BlockPool PoolOps PoolCache PoolSafety CacheHit.
From S2P Require Import SingleTypeManager TableSafety TableReach.
Import Pool SingleType.
Open Scope Z_scope.
Local Arguments py_get : simpl never.
Local Arguments Z.of_nat : simpl never.

(** * The coordinator *)

Record KVCacheCoordinator := mkCoordinator {
  single_type_managers : list single;
  block_pool : BlockPool
}.

(** [for i, manager in enumerate(self.single_type_managers)] on managers that
    share the pool. *)
Fixpoint run_each {A} (f : Z -> M (single * BlockPool) A) (i : Z) (ms : list single) (p : BlockPool) :
    outcome (list A) * (list single * BlockPool) :=
  match ms with
  | [] => (Ok [], ([], p))
  | m :: ms =>
      match f i (m, p) with
      | (Raise e, (m', p')) => (Raise e, (m' :: ms, p'))
      | (Ok a, (m', p')) =>
          match run_each f (i + 1) ms p' with
          | (Ok l, (ms', p'')) => (Ok (a :: l), (m' :: ms', p''))
          | (Raise e, (ms', p'')) => (Raise e, (m' :: ms', p''))
          end
      end
  end.
Definition each_manager {A} (f : Z -> M (single * BlockPool) A) : M KVCacheCoordinator (list A) :=
  fun c => match run_each f 0 (single_type_managers c) (block_pool c) with
           | (o, (ms, p)) => (o, mkCoordinator ms p)
           end.

Module Coordinator.
Section coordinator.
Context (use_int : bool).

Fixpoint sum_blocks_to_allocate (request_id : string) (num_tokens : Z) (new_computed_blocks : list (list nat))
    (total_computed_tokens num_local_computed_tokens : Z) (apply_admission_cap : bool) (p : BlockPool)
    (i : Z) (ms : list single) : outcome Z :=
  match ms with
  | [] => Ok 0
  | m :: ms =>
      let? blocks := or_raise (py_get new_computed_blocks i) IndexError in
      let? n := SingleType.get_num_blocks_to_allocate request_id num_tokens blocks total_computed_tokens
                  num_local_computed_tokens apply_admission_cap (m, p) in
      let? rest := sum_blocks_to_allocate request_id num_tokens new_computed_blocks total_computed_tokens
                     num_local_computed_tokens apply_admission_cap p (i + 1) ms in
      Ok (n + rest)
  end.
Definition get_num_blocks_to_allocate (request_id : string) (num_tokens : Z) (new_computed_blocks : list (list nat))
    (total_computed_tokens num_local_computed_tokens : Z) (apply_admission_cap : bool) (c : KVCacheCoordinator) :
    outcome Z :=
  sum_blocks_to_allocate request_id num_tokens new_computed_blocks total_computed_tokens num_local_computed_tokens
    apply_admission_cap (block_pool c) 0 (single_type_managers c).

Definition allocate_new_computed_blocks (request_id : string) (new_computed_blocks : list (list nat))
    (num_local_computed_tokens num_external_computed_tokens : Z) (skip_zeroing_group_ids : list Z) :
    M KVCacheCoordinator unit :=
  let! running := gets (fun c =>
    existsb (fun m => bool_decide (is_Some (num_cached_block m !! request_id))) (single_type_managers c)) in
  if running then assert_ (forallb (fun blocks => zlen blocks =? 0) new_computed_blocks)
  else
    each_manager (fun i =>
      let! blocks := lift (or_raise (py_get new_computed_blocks i) IndexError) in
      add_local_computed_blocks request_id blocks num_local_computed_tokens num_external_computed_tokens) ;;
    if num_external_computed_tokens >? 0 then
      each_manager (fun i =>
        allocate_external_computed_blocks use_int request_id num_local_computed_tokens
          num_external_computed_tokens (negb (bool_decide (i ∈ skip_zeroing_group_ids)))) ;;
      ret tt
    else ret tt.

Definition allocate_new_blocks (request_id : string) (num_tokens : Z) : M KVCacheCoordinator (list (list nat)) :=
  each_manager (fun _ => SingleType.allocate_new_blocks use_int request_id num_tokens).

Definition free (request_id : string) : M KVCacheCoordinator unit :=
  each_manager (fun _ => SingleType.free request_id) ;; ret tt.
Definition pop_blocks_for_free (request_id : string) : M KVCacheCoordinator (list nat) :=
  let! popped := each_manager (fun _ => on_mgr (SingleType.pop_blocks_for_free request_id)) in
  ret (concat popped).
Definition get_num_common_prefix_blocks (running_request_id : string) : M KVCacheCoordinator (list Z) :=
  each_manager (fun _ => SingleType.get_num_common_prefix_blocks running_request_id).
Definition remove_skipped_blocks (request_id : string) (processed_computed_tokens : Z)
    (num_prompt_tokens : option Z) : M KVCacheCoordinator unit :=
  each_manager (fun _ => SingleType.remove_skipped_blocks request_id processed_computed_tokens num_prompt_tokens) ;;
  ret tt.
Definition get_blocks (request_id : string) (c : KVCacheCoordinator) : list (list nat) :=
  map (fun m => table m request_id) (single_type_managers c).
End coordinator.
End Coordinator.

(** * Ownership across the managers *)

Definition held_by (ms : list single) (x : nat) : Z := foldr (fun m acc => held m x + acc) 0 ms.
Lemma held_by_app ms1 ms2 x : held_by (ms1 ++ ms2) x = held_by ms1 x + held_by ms2 x.
Proof. induction ms1; simpl; lia. Qed.
Lemma held_by_nonneg ms x : 0 <= held_by ms x.
Proof. induction ms as [|m ms IH]; simpl; [lia|]. pose proof (held_nonneg x m). lia. Qed.

(** What the ownership invariant asks of one manager alone. *)
Record manager_ok (m : single) (p : BlockPool) : Prop := {
  mo_size : 0 < block_size m;
  mo_range : forall r x, x ∈ table m r -> Z.of_nat x < num_gpu_blocks p;
  mo_partial : forall r i b, partial_hit_reqs m !! r = Some (i, b) ->
    0 <= i /\ b <> 0%nat /\ table m r !! Z.to_nat i = Some b
}.
Record coord_owns (others : nat -> Z) (free : list nat) (ms : list single) (p : BlockPool) : Prop := {
  co_pool : inv p free;
  co_others : forall x, 0 <= others x;
  co_refs : forall x, x <> 0%nat -> ref_cnt (blk p x) = held_by ms x + others x;
  co_managers : forall m, m ∈ ms -> manager_ok m p
}.

(** Zooming in on one manager: the others are further holders. *)
Definition beside (others : nat -> Z) (ms1 ms2 : list single) (x : nat) : Z :=
  held_by ms1 x + held_by ms2 x + others x.

Lemma coord_focus others free ms1 m ms2 p :
  coord_owns others free (ms1 ++ m :: ms2) p -> owns (beside others ms1 ms2) free (m, p).
Proof.
  intros [Hp Ho Hr Hm]. destruct (Hm m ltac:(set_solver)). split; simpl; try done.
  - intros x. unfold beside. pose proof (held_by_nonneg ms1 x). pose proof (held_by_nonneg ms2 x). specialize (Ho x). lia.
  - intros x Hx. rewrite Hr, held_by_app by done. simpl. unfold beside. lia.
Qed.

Lemma coord_unfocus others free free' ms1 m ms2 p m' p' :
  coord_owns others free (ms1 ++ m :: ms2) p -> owns (beside others ms1 ms2) free' (m', p') ->
  config p' = config p -> coord_owns others free' (ms1 ++ m' :: ms2) p'.
Proof.
  intros [Hp Ho Hr Hm] [] Hc. simpl in *. split; try done.
  - intros x Hx. rewrite o_refs, held_by_app by done. simpl. unfold beside. lia.
  - intros k Hk. assert (k = m' \/ k ∈ ms1 ++ m :: ms2) as [->|Hk'] by set_solver; [by split|].
    destruct (Hm k Hk'). split; try done. intros r x. rewrite (config_num _ _ Hc). apply mo_range0.
Qed.

(** The rule for a loop over the managers. *)
Lemma run_each_ok {A} (f : Z -> M (single * BlockPool) A) (J : list single -> list A -> list single -> BlockPool -> Prop) :
  (forall done rs m todo p, J done rs (m :: todo) p ->
    wp (f (zlen done)) (fun a s => J (done ++ [s.1]) (rs ++ [a]) todo s.2) (m, p)) ->
  forall ms done rs p, J done rs ms p ->
  exists rs' ms' p', run_each f (zlen done) ms p = (Ok rs', (ms', p')) /\ J (done ++ ms') (rs ++ rs') [] p'.
Proof.
  intros Hstep ms. induction ms as [|m ms IH]; intros done rs p HJ; simpl.
  { exists [], [], p. rewrite !app_nil_r. done. }
  apply Hstep in HJ. unfold wp in HJ. destruct (f (zlen done) (m, p)) as [[a|e] [m' p']]; [|done]. simpl in HJ.
  destruct (IH _ _ _ HJ) as (rs' & ms' & p'' & E & HJ'). rewrite length_app, Nat2Z.inj_add in E. change (zlen [m']) with 1 in E.
  rewrite E. exists (a :: rs'), (m' :: ms'), p''. rewrite <- !app_assoc in HJ'. done.
Qed.

Lemma each_manager_ok {A} (f : Z -> M (single * BlockPool) A) (J : list single -> list A -> list single -> BlockPool -> Prop) c :
  (forall done rs m todo p, J done rs (m :: todo) p ->
    wp (f (zlen done)) (fun a s => J (done ++ [s.1]) (rs ++ [a]) todo s.2) (m, p)) ->
  J [] [] (single_type_managers c) (block_pool c) ->
  wp (each_manager f) (fun rs c' => J (single_type_managers c') rs [] (block_pool c')) c.
Proof.
  intros Hstep HJ. destruct (run_each_ok f J Hstep _ _ _ _ HJ) as (rs & ms & p & E & HJ').
  unfold wp, each_manager. change (zlen []) with 0 in E. rewrite E. done.
Qed.

(** * Admission *)

(** Attention types whose window never reaches past the computed tokens. *)
Definition spec_ok (m : single) : Prop :=
  match kind (kv_cache_spec m) with
  | SlidingWindow w e => 1 <= w /\ 0 <= e
  | ChunkedLocalAttention c => 0 < c
  | FullAttention | RSWA _ => True
  end.
Lemma skipped_blocks_bound m t :
  spec_ok m -> 0 <= t -> 0 < block_size m -> 0 <= skipped_blocks m t <= cdiv t (block_size m).
Proof.
  intros Hs Ht Hb. assert (0 <= get_num_skipped_tokens m t <= t) as Hk.
  { unfold spec_ok, get_num_skipped_tokens in *. destruct (kind _) as [|w e|ch|]; try lia.
    pose proof (Z.div_mod t ch ltac:(lia)). pose proof (Z.mod_pos_bound t ch ltac:(lia)).
    pose proof (Z.div_pos t ch Ht ltac:(lia)). nia. }
  unfold skipped_blocks. split; [apply Z.div_pos; lia|]. pose proof (cdiv_spec t (block_size m) Hb).
  pose proof (Z.div_mod (get_num_skipped_tokens m t) (block_size m) ltac:(lia)).
  pose proof (Z.mod_pos_bound (get_num_skipped_tokens m t) (block_size m) Hb). nia.
Qed.

Section admission.
Context (use_int : bool) (others : nat -> Z) (r : string) (nt nl ne : Z) (blocks : list (list nat)) (skip_zeroing : list Z).
Hypothesis tokens_ok : 0 <= nl /\ 0 <= ne /\ nl + ne <= nt.

(** A manager that does not know the request yet, with its hits. *)
Record fresh_with (p : BlockPool) (m : single) (b : list nat) : Prop := {
  fw_spec : spec_ok m;
  fw_table : table m r = [];
  fw_cached : num_cached_block m !! r = None;
  fw_hits : hits_ok m p b nl;
  fw_cover : zlen b <= cdiv nl (block_size m)
}.

(** The demand predicted for one manager and for all. *)
Definition predict1 (p : BlockPool) (m : single) (b : list nat) : Z :=
  Z.max (cdiv nt (block_size m) - Z.max (skipped_blocks m (nl + ne)) (zlen b)) 0
  + (if has_partial_local_hit m b nl then 1 else 0) + get_num_evictable_blocks p (kept_hits m b (nl + ne)).
Fixpoint predicted (p : BlockPool) (ms : list single) (bs : list (list nat)) : Z :=
  match ms, bs with
  | m :: ms, b :: bs => predict1 p m b + predicted p ms bs
  | _, _ => 0
  end.

Lemma predict1_ok p m b :
  0 < block_size m -> fresh_with p m b ->
  SingleType.get_num_blocks_to_allocate r nt b (nl + ne) nl false (m, p) = Ok (predict1 p m b).
Proof.
  intros Hb []. pose proof (skipped_blocks_bound m (nl + ne) fw_spec0 ltac:(lia) Hb) as Hs.
  unfold SingleType.get_num_blocks_to_allocate. rewrite fw_cached0, fw_table0. simpl length.
  fold (skipped_blocks m (nl + ne)). change (Z.of_nat 0) with 0. rewrite Z.add_0_r, Z.sub_0_r, (Z.max_r 0 (skipped_blocks m (nl + ne))) by lia.
  assert (py_from (skipped_blocks m (nl + ne)) b = kept_hits m b (nl + ne)) as ->.
  { unfold kept_hits. rewrite <- py_from_drop. destruct (_ >? 0) eqn:E; [done|]. bools.
    replace (skipped_blocks m (nl + ne)) with 0 by lia. by rewrite py_from_in by lia. }
  unfold predict1. destruct (has_partial_local_hit m b nl); f_equal; lia.
Qed.

Lemma sum_ok p ms bs bdone :
  blocks = bdone ++ bs -> (forall m, m ∈ ms -> 0 < block_size m) -> Forall2 (fresh_with p) ms bs ->
  Coordinator.sum_blocks_to_allocate r nt blocks (nl + ne) nl false p (zlen bdone) ms = Ok (predicted p ms bs).
Proof.
  intros E Hb Hf. revert bdone E. induction Hf as [|m b ms bs Hm Hf IH]; intros bdone E; [done|].
  cbn [Coordinator.sum_blocks_to_allocate predicted].
  rewrite py_get_nat, E, lookup_app_r, Nat.sub_diag by lia. cbn [or_raise lookup list_lookup obind].
  rewrite predict1_ok by (try done; apply Hb; set_solver).
  assert (zlen (bdone ++ [b]) = zlen bdone + 1) as <- by (rewrite length_app; simpl; lia).
  rewrite <- E, IH; [done|set_solver|]. by rewrite <- app_assoc.
Qed.

(** ** The free list after a touch *)

Lemma evictable_free p free x : inv p free -> x ∈ free <-> Z.of_nat x < num_gpu_blocks p /\
  (ref_cnt (blk p x) =? 0) && negb (is_null (blk p x)) = true.
Proof.
  intros [[_ _ _ Hf _ Hn _] _]. rewrite Hf. unfold blk. rewrite Hn, andb_true_iff, Z.eqb_eq, negb_true_iff, bool_decide_eq_false. tauto.
Qed.

Lemma free_after_touch p free kept :
  inv p free -> zlen free - get_num_evictable_blocks p kept <= zlen (filter (fun y => y ∉ kept) free).
Proof.
  intros Hp. pose proof (FreeQueue.repr_nodup _ _ (qi_repr _ _ _ _ (proj1 Hp))) as Hnd.
  assert (length (filter (fun y => y ∈ kept) free) + length (filter (fun y => y ∉ kept) free) = length free)%nat as Hl.
  { clear. induction free as [|x l IH]; [done|]. destruct (decide (x ∈ kept)).
    - rewrite filter_cons_True, (filter_cons_False (fun y => y ∉ kept)) by naive_solver. simpl. lia.
    - rewrite filter_cons_False, (filter_cons_True (fun y => y ∉ kept)) by naive_solver. simpl. lia. }
  assert (filter (fun y => y ∈ kept) free ⊆+
    filter (fun id => (ref_cnt (blk p id) =? 0) && negb (is_null (blk p id)) = true) kept) as Hsub.
  { apply NoDup_submseteq; [by apply NoDup_filter|]. intros x [Hk Hx]%list_elem_of_filter.
    apply list_elem_of_filter. split; [by apply (evictable_free p free)|done]. }
  apply submseteq_length in Hsub. unfold get_num_evictable_blocks. lia.
Qed.

Lemma evictable_mono p0 free0 p free kept :
  inv p0 free0 -> inv p free -> (forall x, x <> 0%nat -> ref_cnt (blk p0 x) <= ref_cnt (blk p x)) ->
  get_num_evictable_blocks p kept <= get_num_evictable_blocks p0 kept.
Proof.
  intros [[_ _ _ _ Hr0 Hn0 _] _] [[_ _ _ _ _ Hn _] _] Hle. unfold get_num_evictable_blocks.
  induction kept as [|x kept IH]; [done|].
  assert ((ref_cnt (blk p x) =? 0) && negb (is_null (blk p x)) = true ->
    (ref_cnt (blk p0 x) =? 0) && negb (is_null (blk p0 x)) = true) as H.
  { unfold blk in *. rewrite Hn, Hn0. intros [H1 H2]%andb_true_iff. bools. rewrite bool_decide_false by done.
    specialize (Hle x H2). specialize (Hr0 x H2). rewrite andb_true_iff, Z.eqb_eq. split; [lia|done]. }
  rewrite !filter_cons. repeat case_decide; simpl; try lia. by apply H in H0.
Qed.

(** ** The three passes over the managers *)

Definition sum_need (ms : list single) : Z := foldr (fun m acc => new_need m r nt + acc) 0 ms.
Lemma sum_need_app ms1 ms2 : sum_need (ms1 ++ ms2) = sum_need ms1 + sum_need ms2.
Proof. induction ms1; simpl; lia. Qed.
Lemma new_need_nonneg m : 0 <= new_need m r nt.
Proof. unfold new_need, cow_need. destruct (partial_hit_reqs m !! r); lia. Qed.
Lemma sum_need_nonneg ms : 0 <= sum_need ms.
Proof. induction ms as [|m ms IH]; simpl; [lia|]. pose proof (new_need_nonneg m). lia. Qed.

(** A manager that holds the hits of the request. *)
Record added (m : single) (b : list nat) : Prop := {
  ad_size : 0 < block_size m;
  ad_length : zlen (table m r) <= cdiv nt (block_size m);
  ad_index : forall i x, partial_hit_reqs m !! r = Some (i, x) -> i = nl / block_size m;
  ad_hits : forall j x, skipped_blocks m (nl + ne) <= Z.of_nat j -> b !! j = Some x -> table m r !! j = Some x
}.
(** A manager with slots for all tokens of the request. *)
Record finished (m : single) (b : list nat) : Prop := {
  fi_length : zlen (table m r) = cdiv nt (block_size m);
  fi_hits : forall j x, skipped_blocks m (nl + ne) <= Z.of_nat j < nl / block_size m -> b !! j = Some x ->
    table m r !! j = Some x;
  fi_partial : partial_hit_reqs m !! r = None
}.

Lemma skipped_framed m m' t : framed r m m' -> skipped_blocks m' t = skipped_blocks m t.
Proof. intros []. unfold skipped_blocks, get_num_skipped_tokens. by rewrite fr_spec, fr_size. Qed.

Lemma partial_kept m b t : partial_hit m (kept_hits m b t) nl = true -> has_partial_local_hit m b nl = true.
Proof.
  unfold partial_hit, has_partial_local_hit, kept_hits. rewrite length_drop, !andb_true_iff, !Z.gtb_lt. intros [? ?]. split; [lia|done].
Qed.

Lemma local_step p0 free0 free m b p s :
  inv p0 free0 -> (forall x, x <> 0%nat -> ref_cnt (blk p0 x) <= ref_cnt (blk p x)) -> inv p free ->
  0 < block_size m -> fresh_with p m b -> local_added r b nl ne free m p s ->
  added s.1 b /\ new_need s.1 r nt + zlen free - predict1 p0 m b <=
    zlen (filter (fun y => y ∉ kept_hits m b (nl + ne)) free).
Proof.
  intros Hp0 Hle Hp Hb [Hspec Ht Hc Hh Hcov] [Hf Hcfg Hrefs Etab Hpart Hidx _ _].
  pose proof (skipped_blocks_bound m (nl + ne) Hspec ltac:(lia) Hb) as Hs.
  assert (zlen (table s.1 r) = Z.max (skipped_blocks m (nl + ne)) (zlen b)) as El.
  { rewrite Etab, length_app, length_replicate. unfold kept_hits. rewrite length_drop. lia. }
  assert (cdiv nl (block_size m) <= cdiv nt (block_size m)) as H1 by (apply cdiv_le; lia).
  assert (cdiv (nl + ne) (block_size m) <= cdiv nt (block_size m)) as H2 by (apply cdiv_le; lia).
  split.
  - split; rewrite ?(fr_size _ _ _ Hf); [done|lia|exact Hidx|].
    intros j x. rewrite (skipped_framed _ _ _ Hf), Etab. intros Hj Hx.
    rewrite lookup_app_r, length_replicate by (rewrite length_replicate; lia). unfold kept_hits.
    rewrite lookup_drop. rewrite <- Hx. f_equal. lia.
  - pose proof (free_after_touch p free (kept_hits m b (nl + ne)) Hp).
    pose proof (evictable_mono p0 free0 p free (kept_hits m b (nl + ne)) Hp0 Hp Hle).
    assert (cow_need s.1 r <= if has_partial_local_hit m b nl then 1 else 0) as Hcow.
    { unfold cow_need. destruct (partial_hit_reqs s.1 !! r) eqn:E; [|destruct (has_partial_local_hit m b nl); lia].
      rewrite (partial_kept m b (nl + ne)); [lia|]. apply Hpart. by eexists. }
    unfold new_need, predict1. rewrite El, (fr_size _ _ _ Hf). lia.
Qed.

(** The hypotheses of an admission on a coordinator. *)
Record admissible (c : KVCacheCoordinator) : Prop := {
  am_owned : exists free, coord_owns others free (single_type_managers c) (block_pool c);
  am_fresh : Forall2 (fresh_with (block_pool c)) (single_type_managers c) blocks
}.

Lemma not_running c : admissible c ->
  existsb (fun m => bool_decide (is_Some (num_cached_block m !! r))) (single_type_managers c) = false.
Proof.
  intros [_ Hf]. induction Hf as [|m b ms bs Hm Hf IH]; [done|]. simpl. rewrite (fw_cached _ _ _ Hm), IH.
  by rewrite bool_decide_false by (intros [? ?]; done).
Qed.

(** What a client wants kept during the allocation: [Inv1] while the hits are
    added, [Inv2] while new blocks are taken. *)
Context (Inv1 Inv2 : list single -> BlockPool -> Prop).
Hypothesis Inv1_local : forall free ms1 m ms2 p b s,
  coord_owns others free (ms1 ++ m :: ms2) p -> Inv1 (ms1 ++ m :: ms2) p ->
  blocks !! length ms1 = Some b -> fresh_with p m b -> local_added r b nl ne free m p s ->
  Inv1 (ms1 ++ s.1 :: ms2) s.2.
Hypothesis Inv12 : forall ms p, Inv1 ms p -> Inv2 ms p.
Hypothesis Inv2_extended : forall free ms1 m ms2 p bs s,
  coord_owns others free (ms1 ++ m :: ms2) p -> Inv2 (ms1 ++ m :: ms2) p -> extended r bs m p s -> Inv2 (ms1 ++ s.1 :: ms2) s.2.
Hypothesis Inv2_allocated : forall free ms1 m ms2 p bs s,
  coord_owns others free (ms1 ++ m :: ms2) p -> Inv2 (ms1 ++ m :: ms2) p -> allocated r nt bs m p s -> Inv2 (ms1 ++ s.1 :: ms2) s.2.

(** First pass: [done] hold their hits, [todo] are still to be served. *)
Record pass1 (p0 : BlockPool) (done todo : list single) (p : BlockPool) : Prop := {
  p1_state : exists free bdone btodo, blocks = bdone ++ btodo /\ coord_owns others free (done ++ todo) p /\
    sum_need done + predicted p0 todo btodo <= zlen free /\
    Forall2 added done bdone /\ Forall2 (fresh_with p0) todo btodo;
  p1_config : config p = config p0;
  p1_refs : forall x, x <> 0%nat -> ref_cnt (blk p0 x) <= ref_cnt (blk p x);
  p1_inv : Inv1 (done ++ todo) p
}.

Lemma fresh_config p0 p m b : config p = config p0 -> fresh_with p0 m b -> fresh_with p m b.
Proof.
  intros Hc []. split; try done. destruct fw_hits0. split; try done.
  intros x Hx. rewrite (config_num _ _ Hc). auto.
Qed.

Lemma pass1_step p0 free0 done m todo p :
  inv p0 free0 -> pass1 p0 done (m :: todo) p ->
  wp (let! b := lift (or_raise (py_get blocks (zlen done)) IndexError) in add_local_computed_blocks r b nl ne)
    (fun _ s => pass1 p0 (done ++ [s.1]) todo s.2) (m, p).
Proof.
  intros Hp0 [(free & bdone & btodo & Eb & Ho & Hsum & Hd & Ht) Hc Hle HI].
  inversion Ht as [|? b ? bt Hm Ht']; subst. pose proof (Forall2_length _ _ _ Hd) as El. wp_simpl.
  exists b. split. { by rewrite py_get_nat, El, Eb, lookup_app_r, Nat.sub_diag by lia. }
  pose proof (fresh_config _ _ _ _ Hc Hm) as Hm'. pose proof (coord_focus _ _ _ _ _ _ Ho) as Hof.
  eapply wp_mono; [apply (add_local_ok _ free m p r b nl ne Hof); apply Hm'|]. intros [] s [Ho' Hla].
  pose proof (mo_size _ _ (co_managers _ _ _ _ Ho m ltac:(set_solver))) as Hb.
  destruct (local_step p0 free0 free m b p s Hp0 Hle (co_pool _ _ _ _ Ho) Hb Hm' Hla) as [Ha Hn].
  assert (Inv1 (done ++ s.1 :: todo) s.2) as HI'.
  { eapply Inv1_local; [exact Ho|exact HI| |exact Hm'|exact Hla]. by rewrite Eb, lookup_app_r, El, Nat.sub_diag by lia. }
  destruct s as [m' p']. destruct Hla as [_ Hcfg Hrefs _ _ _ _ _]. simpl in *. split.
  - exists (filter (fun y => y ∉ kept_hits m b (nl + ne)) free), (bdone ++ [b]), bt. rewrite <- !app_assoc. split_and!.
    + done.
    + by eapply coord_unfocus.
    + rewrite sum_need_app. simpl. lia.
    + by apply Forall2_app; [|constructor].
    + done.
  - congruence.
  - intros x Hx. rewrite Hrefs by done. specialize (Hle x Hx). pose proof (occ_nonneg x (kept_hits m b (nl + ne))). lia.
  - by rewrite <- app_assoc.
Qed.

(** Second pass: the blocks of external tokens come out of the same budget. *)
Definition pass2 (done todo : list single) (p : BlockPool) : Prop :=
  exists free, coord_owns others free (done ++ todo) p /\ sum_need (done ++ todo) <= zlen free /\
    Forall2 added (done ++ todo) blocks /\ Inv2 (done ++ todo) p.

Lemma extended_added m b bs p s : extended r bs m p s -> zlen bs <= num_external_blocks m r nl ne ->
  added m b -> added s.1 b /\ new_need s.1 r nt = new_need m r nt - zlen bs.
Proof.
  intros [Hf _ _ Et Ep _ _ _] Hl [Hs Hlen Hi Hh]. unfold num_external_blocks in Hl.
  pose proof (cdiv_le (nl + ne) nt (block_size m) Hs ltac:(lia)) as Hle. split.
  - split; rewrite ?(fr_size _ _ _ Hf); [done|rewrite Et, length_app; lia|by rewrite Ep|].
    intros j x. rewrite (skipped_framed _ _ _ Hf), Et. intros Hj Hx. apply lookup_app_l_Some. by apply Hh.
  - unfold new_need, cow_need. rewrite Ep, Et, length_app, (fr_size _ _ _ Hf). lia.
Qed.

Lemma pass2_step rec done m todo p :
  pass2 done (m :: todo) p ->
  wp (allocate_external_computed_blocks use_int r nl ne rec) (fun _ s => pass2 (done ++ [s.1]) todo s.2) (m, p).
Proof.
  intros (free & Ho & Hsum & Hd & HI). pose proof (coord_focus _ _ _ _ _ _ Ho) as Hof.
  rewrite sum_need_app in Hsum. simpl in Hsum.
  pose proof (sum_need_nonneg done). pose proof (sum_need_nonneg todo).
  apply Forall2_app_inv_l in Hd as (b1 & b2 & Hd1 & Hd2 & Eb). inversion Hd2 as [|? b ? bt Hm Hd3]; subst b2.
  assert (num_external_blocks m r nl ne <= new_need m r nt) as Hle.
  { pose proof (cdiv_le (nl + ne) nt (block_size m) (ad_size _ _ Hm) ltac:(lia)).
    unfold num_external_blocks, new_need, cow_need. destruct (partial_hit_reqs m !! r); lia. }
  eapply wp_mono; [apply (allocate_external_ok use_int _ free m p r nl ne rec Hof); lia|].
  intros [] [m' p'] (bs & free' & Ef & Hl & Ho' & Hx).
  destruct (extended_added m b bs p _ Hx Hl Hm) as [Ha Hn]. simpl in *. exists free'. rewrite <- !app_assoc. simpl. split_and!.
  - eapply coord_unfocus; [done|done|apply Hx].
  - rewrite sum_need_app. simpl. rewrite Ef, length_app in Hsum. lia.
  - rewrite Eb. apply Forall2_app; [done|by constructor].
  - by eapply (Inv2_extended _ _ _ _ _ _ (m', p')).
Qed.

(** Third pass: slots for the new tokens. *)
Definition pass3 (done todo : list single) (p : BlockPool) : Prop :=
  exists free bdone btodo, blocks = bdone ++ btodo /\ coord_owns others free (done ++ todo) p /\
    sum_need todo <= zlen free /\ Forall2 finished done bdone /\ Forall2 added todo btodo /\ Inv2 (done ++ todo) p.

Lemma pass3_step done m todo p :
  pass3 done (m :: todo) p ->
  wp (SingleType.allocate_new_blocks use_int r nt) (fun _ s => pass3 (done ++ [s.1]) todo s.2) (m, p).
Proof.
  intros (free & bdone & btodo & Eb & Ho & Hsum & Hd & Ht & HI). pose proof (coord_focus _ _ _ _ _ _ Ho) as Hof.
  inversion Ht as [|? b ? bt Hm Ht']; subst btodo. simpl in Hsum. pose proof (sum_need_nonneg todo).
  eapply wp_mono; [apply (allocate_new_ok use_int _ free m p r nt Hof); lia|].
  intros new [m' p'] (free' & Ef & Hl & Ho' & Ha). exists free', (bdone ++ [b]), bt. rewrite <- !app_assoc. simpl in *.
  rewrite Ef, length_app in Hsum. split_and!; [done| |lia| |done|].
  - eapply coord_unfocus; [done|done|apply Ha].
  - apply Forall2_app; [done|]. constructor; [|done]. destruct Ha, Hm. simpl in *. split.
    + rewrite (fr_size _ _ _ al_frame). lia.
    + intros j y. rewrite (skipped_framed _ _ _ al_frame), (fr_size _ _ _ al_frame). intros Hj Hy.
      apply al_same; [by apply ad_hits0; [lia|]|]. intros [=Hi]%ad_index0. lia.
    + rewrite al_partial. apply lookup_delete_eq.
  - by eapply (Inv2_allocated _ _ _ _ _ _ (m', p')).
Qed.

Lemma allocate_all_ok c : admissible c -> Inv1 (single_type_managers c) (block_pool c) ->
  predicted (block_pool c) (single_type_managers c) blocks <= get_num_free_blocks (block_pool c) ->
  wp (Coordinator.allocate_new_computed_blocks use_int r blocks nl ne skip_zeroing ;;
      Coordinator.allocate_new_blocks use_int r nt)
    (fun _ c' => pass3 (single_type_managers c') [] (block_pool c')) c.
Proof.
  intros Had HI Hle. pose proof (not_running c Had) as Hrun. destruct Had as [[free Ho] Hf].
  rewrite (free_count _ _ (co_pool _ _ _ _ Ho)) in Hle.
  unfold Coordinator.allocate_new_computed_blocks. wp_simpl. rewrite Hrun. wp_simpl.
  eapply wp_mono; [apply (each_manager_ok _ (fun d _ t p => pass1 (block_pool c) d t p))|].
  { intros done rs m todo p HJ. by eapply (pass1_step _ free), HJ; apply Ho. }
  { split; [|done|done|done]. exists free, [], blocks. by split_and!; [|apply Ho| |constructor|]. }
  intros rs1 c1 [(free1 & bd & bt & Eb & Ho1 & Hs1 & Hd1 & Ht1) _ _ HI1%Inv12]. inversion Ht1; subst bt.
  rewrite app_nil_r in Eb, Ho1, HI1. subst bd.
  simpl in Hs1. rewrite Z.add_0_r in Hs1. assert (pass2 [] (single_type_managers c1) (block_pool c1)) as Hp2 by (by exists free1).
  assert (forall c2, pass2 (single_type_managers c2) [] (block_pool c2) ->
    wp (Coordinator.allocate_new_blocks use_int r nt) (fun _ c' => pass3 (single_type_managers c') [] (block_pool c')) c2) as Hend.
  { intros c2 (free2 & Ho2 & Hs2 & Hd2 & HI2). rewrite app_nil_r in Ho2, Hs2, Hd2, HI2.
    apply (each_manager_ok _ (fun d _ t p => pass3 d t p)); [intros; by apply pass3_step|].
    exists free2, [], blocks. by split_and!; [| | |constructor| |]. }
  destruct (ne >? 0); wp_simpl.
  - eapply wp_mono; [apply (each_manager_ok _ (fun d _ t p => pass2 d t p)); [intros; by apply pass2_step|done]|].
    intros rs2 c2 H2. wp_simpl. by apply Hend.
  - apply Hend. destruct Hp2 as (f & ? & ? & ? & ?). exists f. by rewrite app_nil_r.
Qed.
End admission.

(** C7: an admitted request can be allocated.  For a request unknown to every
    manager, with prefix hits found in the pool, the coordinator computes the
    number of blocks to allocate without an exception; if that many blocks are
    free, the two-phase [allocate_new_computed_blocks] followed by
    [allocate_new_blocks] returns: no manager's allocation takes a hit of another
    one, the pool never runs out and no assertion fails.  Afterwards the
    counters still agree with the tables of all managers, every manager has
    exactly the slots for [nt] tokens, and the full hit blocks inside the window
    are in place. *)
Theorem admission_sufficient use_int others r nt nl ne blocks skip_zeroing c :
  0 <= nl /\ 0 <= ne /\ nl + ne <= nt -> admissible others r nl blocks c ->
  exists n, Coordinator.get_num_blocks_to_allocate r nt blocks (nl + ne) nl false c = Ok n /\
  (n <= get_num_free_blocks (block_pool c) ->
   wp (Coordinator.allocate_new_computed_blocks use_int r blocks nl ne skip_zeroing ;;
       Coordinator.allocate_new_blocks use_int r nt)
     (fun _ c' => (exists free, coord_owns others free (single_type_managers c') (block_pool c')) /\
        Forall2 (finished r nt nl ne) (single_type_managers c') blocks) c).
Proof.
  intros Htok Had. exists (predicted nt nl ne (block_pool c) (single_type_managers c) blocks). split.
  - apply (sum_ok r nt nl ne blocks Htok _ _ blocks []); [done| |apply Had].
    intros m Hm. destruct (am_owned _ _ _ _ _ Had) as [free Ho]. apply (co_managers _ _ _ _ Ho m Hm).
  - intros Hn. eapply wp_mono; [by apply (allocate_all_ok use_int others r nt nl ne blocks skip_zeroing Htok (fun _ _ => True) (fun _ _ => True))|].
    intros new c' (free & bd & bt & Eb & Ho & _ & Hd & Ht & _). inversion Ht; subst bt. rewrite app_nil_r in Eb, Ho. subst bd. by eauto.
Qed.

(** * The remaining methods *)

(** A method that keeps the ownership of each manager keeps the coordinator's. *)
Lemma each_keeps {A} (f : Z -> M (single * BlockPool) A) others free (P : single -> single -> Prop) c :
  (forall i others' free' m p, m ∈ single_type_managers c -> owns others' free' (m, p) -> wp (f i) (fun _ s =>
    exists free'', owns others' free'' s /\ config s.2 = config p /\ P m s.1) (m, p)) ->
  coord_owns others free (single_type_managers c) (block_pool c) ->
  wp (each_manager f) (fun _ c' => (exists free', coord_owns others free' (single_type_managers c') (block_pool c')) /\
    Forall2 P (single_type_managers c) (single_type_managers c')) c.
Proof.
  intros Hf Ho.
  set (J := fun (done : list single) (_ : list A) (todo : list single) (p : BlockPool) => exists free' before,
    single_type_managers c = before ++ todo /\ coord_owns others free' (done ++ todo) p /\ Forall2 P before done).
  eapply wp_mono; [apply (each_manager_ok f J)|].
  - intros done rs m todo p (free' & before & E & Ho' & Hd).
    assert (m ∈ single_type_managers c) as Hin by (rewrite E; set_solver).
    eapply wp_mono; [apply (Hf _ _ _ _ _ Hin (coord_focus _ _ _ _ _ _ Ho'))|].
    intros a [m' p'] (free'' & Ho'' & Hc & HP). exists free'', (before ++ [m]). rewrite <- !app_assoc. simpl in *. split_and!.
    + done.
    + by eapply coord_unfocus.
    + by apply Forall2_app; [|constructor].
  - exists free, []. split_and!; [done|exact Ho|constructor].
  - intros rs c' (free' & before & E & Ho' & Hd). rewrite app_nil_r in E, Ho'. subst before. eauto.
Qed.

Lemma coord_free_ok others free r c :
  coord_owns others free (single_type_managers c) (block_pool c) ->
  wp (Coordinator.free r) (fun _ c' => (exists free', coord_owns others free' (single_type_managers c') (block_pool c')) /\
    Forall2 (fun m m' => m' = popped r m) (single_type_managers c) (single_type_managers c')) c.
Proof.
  intros Ho. unfold Coordinator.free. wp_simpl. eapply wp_mono; [apply (each_keeps _ others free (fun m m' => m' = popped r m)); [|exact Ho]|].
  - intros i others' free' m p _ Hm. eapply wp_mono; [by apply (free_request_ok others' free')|].
    intros [] s (free'' & H & E & Hc & _). eauto.
  - intros rs c' H. wp_simpl. exact H.
Qed.

Lemma coord_remove_ok others free r processed np c :
  coord_owns others free (single_type_managers c) (block_pool c) ->
  (forall m, m ∈ single_type_managers c -> partial_hit_reqs m !! r = None /\ removal_args m processed np) ->
  wp (Coordinator.remove_skipped_blocks r processed np) (fun _ c' =>
    (exists free', coord_owns others free' (single_type_managers c') (block_pool c')) /\
    Forall2 (framed r) (single_type_managers c) (single_type_managers c')) c.
Proof.
  intros Ho Hm. unfold Coordinator.remove_skipped_blocks. wp_simpl.
  eapply wp_mono; [apply (each_keeps _ others free (framed r)); [|exact Ho]|].
  - intros i others' free' m p Hin Hown. destruct (Hm m Hin) as [Hp Ha].
    eapply wp_mono; [by apply (remove_skipped_ok others' free')|]. intros [] s (free'' & H & Hn).
    exists free''. split_and!; [done|apply Hn|apply Hn].
  - intros rs c' H. wp_simpl. exact H.
Qed.

(** * Example: a full-attention and a sliding-window group *)

Definition demo_groups : list single :=
  [init (demo_spec 4 FullAttention) 1 4 0 true false None;
   get_manager_for_kv_cache_spec (demo_spec 4 (SlidingWindow 4 0)) 4 100 1 4 1 true false].
Definition demo_coordinator : KVCacheCoordinator := mkCoordinator demo_groups table_pool.

Lemma demo_admissible : admissible (fun _ => 0) "a" 8 [[1; 2]; [0; 3]]%nat demo_coordinator.
Proof.
  destruct table_pool_ok as [Hp Hr].
  assert (forall b : list nat, Forall (fun x => (x < 8)%nat) b -> forall x, x ∈ b -> Z.of_nat x < num_gpu_blocks table_pool) as Hrange.
  { intros b Hb x Hx. change (num_gpu_blocks table_pool) with 8. rewrite Forall_forall in Hb. specialize (Hb x Hx). lia. }
  split.
  - exists (seq 1 7). split; [exact Hp|lia|intros x _; exact (Hr x)|].
    intros m Hm. simpl in Hm. repeat (apply elem_of_cons in Hm as [->|Hm]); [| |by apply not_elem_of_nil in Hm];
      (split; [vm_compute; reflexivity|intros r x Hx; by apply not_elem_of_nil in Hx|done]).
  - repeat constructor; try (vm_compute; congruence); try lia; try (by left);
      try (apply Hrange; repeat constructor; lia); exfalso; match goal with H : _ mod _ <> 0 |- _ => apply H; reflexivity end.
Qed.

Lemma admission_sufficient_witness :
  admissible (fun _ => 0) "a" 8 [[1; 2]; [0; 3]]%nat demo_coordinator /\
  Coordinator.get_num_blocks_to_allocate "a" 14 [[1; 2]; [0; 3]]%nat (8 + 2) 8 false demo_coordinator = Ok 7 /\
  wp (Coordinator.allocate_new_computed_blocks false "a" [[1; 2]; [0; 3]]%nat 8 2 [] ;;
      Coordinator.allocate_new_blocks false "a" 14)
    (fun _ c' => Forall2 (finished "a" 14 8 2) (single_type_managers c') [[1; 2]; [0; 3]]%nat) demo_coordinator.
Proof.
  assert (Coordinator.get_num_blocks_to_allocate "a" 14 [[1; 2]; [0; 3]]%nat (8 + 2) 8 false demo_coordinator = Ok 7) as E
    by (vm_compute; reflexivity).
  split; [exact demo_admissible|]. split; [exact E|].
  destruct (admission_sufficient false (fun _ => 0) "a" 14 8 2 [[1; 2]; [0; 3]]%nat [] demo_coordinator
    ltac:(lia) demo_admissible) as (n & En & Hw).
  rewrite E in En. injection En as <-.
  assert (7 <= get_num_free_blocks (block_pool demo_coordinator)) as H7 by (vm_compute; intros H; discriminate H).
  eapply wp_mono; [exact (Hw H7)|].
  intros new c' [_ H]. exact H.
Defined.
