(* ===== verification/PrivateTail.v ===== *)
(** The blocks a request is still filling.  From [num_cached_block] on, the
    entries of a block table belong to its request alone and carry no hash of a
    full block: the invariant under which the managers cache blocks without
    tripping an assertion.  The file shows that every operation on the block
    tables keeps it. *)
From Stdlib Require Import ZArith Lia Strings.String.
From stdpp Require Import base numbers list gmap strings.
From S2P Require Import Prelude BlockQueue Request BlockHash HashMap BlockPool PoolOps PoolCache PoolSafety CacheHit.
From S2P Require Import SingleTypeManager TableSafety TableReach Coordinator.
Import Pool SingleType.
Open Scope Z_scope.
Local Arguments py_get : simpl never.
Local Arguments Z.of_nat : simpl never.

Definition num_cached (m : single) (r : string) : Z := default 0 (num_cached_block m !! r).
(** Entry [i] of [r] is a partial hit whose copy is not allocated yet. *)
Definition redirecting (m : single) (r : string) (i : nat) : Prop :=
  exists b, partial_hit_reqs m !! r = Some (Z.of_nat i, b).
Definition slot (m : single) (r : string) (i x : nat) : Prop := table m r !! i = Some x /\ ~ redirecting m r i.
(** Block [x] is at position [i] of [r]'s table and not cached yet. *)
Definition filling (m : single) (r : string) (i x : nat) : Prop :=
  slot m r i x /\ x <> 0%nat /\ num_cached m r <= Z.of_nat i.

(** A block at position [i] may still receive the hash of its full prefix. *)
Definition fillable (p : BlockPool) (m : single) (i x : nat) : Prop :=
  promotable p x ((Z.of_nat i + 1) * block_size m) /\ (block_size m = hash_block_size p -> block_hash (blk p x) = None).

Record private (ms : list single) (p : BlockPool) : Prop := {
  pv_cached : forall k m r, ms !! k = Some m -> 0 <= num_cached m r;
  pv_once : forall k m r i x k' m' r' i', ms !! k = Some m -> filling m r i x ->
    ms !! k' = Some m' -> slot m' r' i' x -> k' = k /\ r' = r /\ i' = i;
  pv_hash : forall k m r i x, ms !! k = Some m -> filling m r i x -> enable_caching p = true -> fillable p m i x
}.

(** No request is filling the blocks of [xs]. *)
Definition untouched (ms : list single) (x : nat) : Prop :=
  forall k m r i, ms !! k = Some m -> ~ filling m r i x.

(** What an operation on the table of [r] may do: keep entries, append new
    blocks, or put hits into the cached part. *)
Record table_step (ms : list single) (r : string) (m : single) (p : BlockPool) (m' : single) (p' : BlockPool) : Prop := {
  ts_frame : framed r m m';
  ts_config : config p' = config p;
  ts_hash : keeps_hashes p p';
  ts_nonneg : 0 <= num_cached m' r;
  ts_entries : forall i x, x <> 0%nat -> slot m' r i x ->
    (slot m r i x /\ (num_cached m' r <= Z.of_nat i -> num_cached m r <= Z.of_nat i)) \/
    (ref_cnt (blk p x) = 0 /\ (enable_caching p' = true -> block_hash (blk p' x) = None) /\ forall j, slot m' r j x -> j = i) \/
    (Z.of_nat i < num_cached m' r /\ untouched ms x)
}.

Lemma slot_framed r m m' r' i x : framed r m m' -> r' <> r -> slot m' r' i x <-> slot m r' i x.
Proof. intros [] Hr. unfold slot, redirecting. by rewrite fr_table, fr_partial. Qed.
Lemma num_cached_framed r m m' r' : framed r m m' -> r' <> r -> num_cached m' r' = num_cached m r'.
Proof. intros [] Hr. unfold num_cached. by rewrite fr_cached. Qed.

Lemma slot_in_use others free ms p k m r i x :
  coord_owns others free ms p -> ms !! k = Some m -> slot m r i x -> x <> 0%nat -> 0 < ref_cnt (blk p x).
Proof.
  intros Ho Hk [Hx _] Hx0. apply list_elem_of_split_length in Hk as (ms1 & ms2 & -> & _).
  eapply owned_in_use; [exact (coord_focus _ _ _ _ _ _ Ho)|by eapply list_elem_of_lookup_2|done].
Qed.

Section step.
Context (others : nat -> Z) (free : list nat) (ms : list single) (k : nat) (m m' : single) (p p' : BlockPool) (r : string).
Hypothesis Ho : coord_owns others free ms p.
Hypothesis Hk : ms !! k = Some m.
Hypothesis Hpriv : private ms p.
Hypothesis Hstep : table_step ms r m p m' p'.
Abbreviation ms' := (<[k := m']> ms).

(** Where an entry of the new tables comes from. *)
Lemma slot_origin k1 n r1 i x :
  ms' !! k1 = Some n -> x <> 0%nat -> slot n r1 i x ->
  (exists n0, ms !! k1 = Some n0 /\ slot n0 r1 i x /\ (filling n r1 i x -> filling n0 r1 i x) /\ block_size n0 = block_size n) \/
  (k1 = k /\ r1 = r /\ n = m' /\ ref_cnt (blk p x) = 0 /\ (enable_caching p' = true -> block_hash (blk p' x) = None) /\
     forall j, slot m' r j x -> j = i) \/
  (k1 = k /\ r1 = r /\ n = m' /\ untouched ms x /\ ~ filling n r1 i x).
Proof.
  intros Hn Hx He. apply list_lookup_insert_Some in Hn as [(E1 & E2 & _)|[Hne Hn]]; [subst k1 n|left; by exists n].
  pose proof Hstep as [Hf _ _ _ Hent]. destruct (decide (r1 = r)) as [->|Hr].
  - destruct (Hent i x Hx He) as [[He0 Hc]|[Hfresh|[Hlt Hu]]].
    + left. exists m. split_and!; [done|done| |by destruct Hf]. intros (_ & _ & Hle). split_and!; [done|done|auto].
    + right; left. destruct Hfresh as (? & ? & ?). by split_and!.
    + right; right. split_and!; [done..|]. intros (_ & _ & Hle). lia.
  - left. exists m. rewrite (slot_framed r m m') in He by done. split_and!; [done|done| |by destruct Hf].
    intros (_ & _ & Hle). rewrite (num_cached_framed r m m') in Hle by done. by split_and!.
Qed.

Lemma insert_private : private ms' p'.
Proof.
  pose proof Hstep as [Hf Hcfg Hh Hnn _]. split.
  - intros k1 n r1 Hn. apply list_lookup_insert_Some in Hn as [(E1 & E2 & _)|[_ Hn]]; [subst k1 n|by eapply (pv_cached _ _ Hpriv)].
    destruct (decide (r1 = r)) as [->|Hr]; [done|]. rewrite (num_cached_framed r m m') by done. by eapply (pv_cached _ _ Hpriv).
  - intros k1 n1 r1 i1 x k2 n2 r2 i2 H1 Hfill H2 He2. pose proof Hfill as (He1 & Hx & _).
    destruct (slot_origin k1 n1 r1 i1 x H1 Hx He1) as [(o1 & L1 & E1 & F1 & _)|[(-> & -> & -> & Z1 & _ & U1)|(_ & _ & _ & _ & N)]]; [..|by destruct N].
    + destruct (slot_origin k2 n2 r2 i2 x H2 Hx He2) as [(o2 & L2 & E2 & _)|[(_ & _ & _ & Z2 & _)|(_ & _ & _ & U2 & _)]].
      * by apply (pv_once _ _ Hpriv k1 o1 r1 i1 x k2 o2 r2 i2); [|apply F1| |].
      * pose proof (slot_in_use _ _ _ _ _ _ _ _ _ Ho L1 E1 Hx). lia.
      * destruct (U2 _ _ _ _ L1 (F1 Hfill)).
    + destruct (slot_origin k2 n2 r2 i2 x H2 Hx He2) as [(o2 & L2 & E2 & _)|[(-> & -> & -> & _)|(-> & -> & -> & _)]].
      * pose proof (slot_in_use _ _ _ _ _ _ _ _ _ Ho L2 E2 Hx). lia.
      * by rewrite (U1 _ He2).
      * by rewrite (U1 _ He2).
  - intros k1 n1 r1 i1 x H1 Hfill Hc. pose proof Hfill as (He1 & Hx & _).
    assert (enable_caching p = true /\ hash_block_size p' = hash_block_size p) as [Hc0 Eh]
      by (unfold config in Hcfg; split; congruence).
    destruct (slot_origin k1 n1 r1 i1 x H1 Hx He1) as [(o1 & L1 & E1 & F1 & Eb)|[(_ & _ & _ & _ & Hn & _)|(_ & _ & _ & _ & N)]]; [..|by destruct N].
    + pose proof (pv_hash _ _ Hpriv k1 o1 r1 i1 x L1 (F1 Hfill) Hc0) as [Hp Hz].
      pose proof (Hh x Hx (slot_in_use _ _ _ _ _ _ _ _ _ Ho L1 E1 Hx)) as E. unfold hash_of in E. injection E as Ea Et.
      unfold fillable, promotable in *. rewrite Ea, Et, Eh, <- Eb. done.
    + split; [by left; apply Hn|by intros _; apply Hn].
Qed.
End step.

Lemma insert_middle {A} (l1 l2 : list A) x y : <[length l1 := y]> (l1 ++ x :: l2) = l1 ++ y :: l2.
Proof. rewrite insert_app_r_alt, Nat.sub_diag by lia. done. Qed.

Lemma private_step others free ms1 m ms2 m' p p' r :
  coord_owns others free (ms1 ++ m :: ms2) p -> private (ms1 ++ m :: ms2) p ->
  table_step (ms1 ++ m :: ms2) r m p m' p' -> private (ms1 ++ m' :: ms2) p'.
Proof.
  intros Ho Hp Hs. rewrite <- (insert_middle ms1 ms2 m m').
  eapply (insert_private others free _ (length ms1) m m' p p' r); [done|by apply list_lookup_middle|done|done].
Qed.

(** * The operations *)

Section ops.
Context (r : string).

(** The cached blocks of a hit are not being filled by anyone. *)
Definition shared_hits (ms : list single) (m : single) (b : list nat) (nl : Z) : Prop :=
  forall j x, b !! j = Some x -> x <> 0%nat -> Z.of_nat j < nl / block_size m -> untouched ms x.

Lemma untouched_kept ms m m' b nl : block_size m' = block_size m -> shared_hits ms m b nl -> shared_hits ms m' b nl.
Proof. intros E H j x. rewrite E. apply H. Qed.

(** The hits land in the cached part of the table. *)
Lemma local_entries others free m p b nl ne s i x :
  owns others free (m, p) -> spec_ok m -> 0 <= ne -> hits_ok m p b nl -> zlen b <= cdiv nl (block_size m) ->
  local_added r b nl ne free m p s -> x <> 0%nat -> slot s.1 r i x ->
  b !! i = Some x /\ Z.of_nat i < nl / block_size m /\ Z.of_nat i < num_cached s.1 r.
Proof.
  intros Ho Hsp Hne Hh Hcov [Hf Hc _ Et Hp Hi Hha Hca] Hx [He Hnr]. pose proof (o_size _ _ _ Ho) as Hb. cbn [fst snd] in *.
  pose proof (ht_nonneg _ _ _ _ Hh) as Hnl. pose proof (skipped_blocks_bound m (nl + ne) Hsp ltac:(lia) Hb) as Hsk.
  assert ((Z.to_nat (skipped_blocks m (nl + ne)) <= i)%nat /\ b !! i = Some x) as [Hge Hbi].
  { rewrite Et in He. apply lookup_app_Some in He as [[-> _]%lookup_replicate|[Hge He]]; [done|].
    rewrite length_replicate in *. split; [done|]. unfold kept_hits in He. rewrite lookup_drop in He. rewrite <- He. f_equal. lia. }
  pose proof (lookup_lt_Some _ _ _ Hbi) as Hlt. pose proof (lookup_lt_Some _ _ _ He) as Hlt'.
  assert (0 < zlen (kept_hits m b (nl + ne))) as Hk by (unfold kept_hits; rewrite length_drop; lia).
  split; [done|]. unfold num_cached. rewrite Hca. simpl. destruct (partial_hit m (kept_hits m b (nl + ne)) nl) eqn:Ep.
  - destruct (proj2 Hp eq_refl) as [[i0 b0] Hs0]. pose proof (Hi _ _ Hs0) as ->.
    unfold partial_hit, has_partial_local_hit in Ep. bools.
    destruct (ht_cover _ _ _ _ Hh) as [Hl _]; [by intros ->|done|].
    assert (Z.of_nat i <> nl / block_size m) as Hne'; [|lia]. intros E. apply Hnr. exists b0. by rewrite E.
  - split; [|lia]. unfold partial_hit, has_partial_local_hit in Ep.
    rewrite (proj2 (Z.gtb_lt _ _) Hk) in Ep. simpl in Ep. bools.
    assert (cdiv nl (block_size m) = nl / block_size m); [|lia].
    apply Z.div_exact in Ep; [|lia]. pose proof (cdiv_spec nl (block_size m) Hb). nia.
Qed.

Lemma local_step_private others ms free m p b nl ne s :
  owns others free (m, p) -> spec_ok m -> 0 <= ne -> hits_ok m p b nl -> zlen b <= cdiv nl (block_size m) ->
  shared_hits ms m b nl -> local_added r b nl ne free m p s -> table_step ms r m p s.1 s.2.
Proof.
  intros Ho Hsp Hne Hh Hcov Hsh Hla. pose proof Hla as [Hf Hc _ Et Hp Hi Hha Hca]. split; try done.
  { unfold num_cached. rewrite Hca. simpl. pose proof (Z.div_pos nl (block_size m) (ht_nonneg _ _ _ _ Hh) (o_size _ _ _ Ho)).
    case_match; lia. }
  intros i x Hx He. right; right. destruct (local_entries _ _ _ _ _ _ _ _ _ _ Ho Hsp Hne Hh Hcov Hla Hx He) as (Hb & Hlt & Hn).
  split; [done|by eapply Hsh].
Qed.

(** ... so nothing new is being filled. *)
Lemma local_untouched others free ms1 m ms2 p b nl ne s y :
  owns others free (m, p) -> spec_ok m -> 0 <= ne -> hits_ok m p b nl -> zlen b <= cdiv nl (block_size m) ->
  local_added r b nl ne free m p s -> untouched (ms1 ++ m :: ms2) y -> untouched (ms1 ++ s.1 :: ms2) y.
Proof.
  intros Ho Hsp Hne Hh Hcov Hla Hu k n r' i Hn Hfl. pose proof (la_frame _ _ _ _ _ _ _ _ Hla) as Hf.
  rewrite <- (insert_middle ms1 ms2 m) in Hn. apply list_lookup_insert_Some in Hn as [(E1 & E2 & _)|[_ Hn]]; [subst k n|by eapply Hu].
  destruct Hfl as (He & Hy & Hle). destruct (decide (r' = r)) as [->|Hr].
  - destruct (local_entries _ _ _ _ _ _ _ _ _ _ Ho Hsp Hne Hh Hcov Hla Hy He) as (_ & _ & Hlt). lia.
  - rewrite (slot_framed r m) in He by done. rewrite (num_cached_framed r m) in Hle by done.
    eapply (Hu (length ms1) m r' i); [by apply list_lookup_middle|done].
Qed.

Lemma extended_step_private others ms free m p bs s :
  owns others free (m, p) -> 0 <= num_cached m r -> extended r bs m p s -> table_step ms r m p s.1 s.2.
Proof.
  intros Ho Hnn [Hf Hc Hfr Et Ep En Hh Hu]. assert (num_cached s.1 r = num_cached m r) as Ecn by (unfold num_cached; by rewrite En).
  split; try done; [by rewrite Ecn|]. intros i x Hx [He Hnr]. unfold redirecting in Hnr. rewrite Ep in Hnr.
  rewrite Et in He. apply lookup_app_Some in He as [He|[Hge He]]; [left; split; [done|by rewrite Ecn]|].
  right; left. assert (x ∈ bs) as Hin by (by eapply list_elem_of_lookup_2).
  destruct (fb_free _ _ Hfr x Hin) as (_ & _ & Hz). split_and!; [done|by intros ?; apply Hu|].
  intros j [Hj _]. rewrite Et in Hj. apply lookup_app_Some in Hj as [Hj|[Hgj Hj]].
  - by destruct (fresh_not_owned _ _ _ _ r _ _ Ho Hfr Hin); eapply list_elem_of_lookup_2.
  - pose proof (NoDup_lookup _ _ _ _ (fb_nodup _ _ Hfr) He Hj). lia.
Qed.

Lemma allocated_step_private others ms free m p nt bs s :
  owns others free (m, p) -> 0 <= num_cached m r -> allocated r nt bs m p s -> table_step ms r m p s.1 s.2.
Proof.
  intros Ho Hnn [Hf Hc Hfr _ _ _ Ep En Hh Hu Hent Honce].
  assert (num_cached s.1 r = num_cached m r) as Ecn by (unfold num_cached; by rewrite En).
  split; try done; [by rewrite Ecn|]. intros i x Hx [He _]. destruct (Hent i x He) as [[Hi Hne]|Hin].
  - left. split; [|by rewrite Ecn]. split; [done|]. intros [b Hb]. apply Hne.
    destruct (o_partial _ _ _ Ho _ _ _ Hb) as (_ & _ & Hb'). cbn [fst snd] in Hb'. rewrite Nat2Z.id, Hi in Hb'. congruence.
  - right; left. destruct (fb_free _ _ Hfr x Hin) as (_ & _ & Hz). split_and!; [done|by intros ?; apply Hu|].
    intros j [Hj _]. by eapply Honce.
Qed.

Lemma nulled_slot f n m p s i x : nulled r f n m p s -> x <> 0%nat -> table s.1 r !! i = Some x -> table m r !! i = Some x.
Proof.
  intros [_ _ _ _ _ (k & Hk & Hs & E)] Hx. rewrite E. intros [H|[Hge H]]%lookup_app_Some; [by apply lookup_take_Some in H as [? _]|].
  apply lookup_app_Some in H as [[-> _]%lookup_replicate|[Hge2 H]]; [done|].
  rewrite length_replicate in *. rewrite lookup_drop in H. rewrite <- H. f_equal. rewrite length_take in *.
  destruct (decide (k <= length (table m r))%nat); [lia|]. apply lookup_lt_Some in H. lia.
Qed.

Lemma nulled_step_private ms f n m p s : 0 <= num_cached m r -> nulled r f n m p s -> table_step ms r m p s.1 s.2.
Proof.
  intros Hnn Hn. pose proof Hn as [Hf Hc En Ep Hh _].
  assert (num_cached s.1 r = num_cached m r) as Ecn by (unfold num_cached; by rewrite En).
  split; try done; [by rewrite Ecn|]. intros i x Hx [He Hnr]. unfold redirecting in Hnr. rewrite Ep in Hnr.
  left. split; [|by rewrite Ecn]. split; [by eapply nulled_slot|done].
Qed.

Lemma popped_step_private ms m p p' : config p' = config p -> keeps_hashes p p' -> table_step ms r m p (popped r m) p'.
Proof.
  intros Hc Hh. split; try done; [apply framed_popped|by unfold num_cached; cbn; rewrite lookup_delete_eq|].
  intros i x _ [He _]. by rewrite table_popped, decide_True in He.
Qed.
End ops.

(** * The coordinator *)

(** No partial hit waits for its copy. *)
Definition settled (ms : list single) : Prop := forall k m r, ms !! k = Some m -> partial_hit_reqs m !! r = None.

Record kv_inv (others : nat -> Z) (c : KVCacheCoordinator) : Prop := {
  ki_owned : exists free, coord_owns others free (single_type_managers c) (block_pool c);
  ki_private : private (single_type_managers c) (block_pool c);
  ki_settled : settled (single_type_managers c)
}.

Lemma framed_all_step r ms0 ms1 m ms2 m' :
  Forall2 (framed r) ms0 (ms1 ++ m :: ms2) -> framed r m m' -> Forall2 (framed r) ms0 (ms1 ++ m' :: ms2).
Proof.
  intros H Hf. apply Forall2_app_inv_r in H as (l1 & l2 & H1 & H2 & ->). inversion H2; subst.
  apply Forall2_app; [done|]. constructor; [by etrans|done].
Qed.

Lemma framed_all_refl r ms : Forall2 (framed r) ms ms.
Proof. apply Forall2_same_length_lookup_2; [done|]. intros i x y H1 H2. simplify_eq. apply framed_self. Qed.

Lemma settled_after r ms ms' :
  settled ms -> Forall2 (framed r) ms ms' -> (forall k m, ms' !! k = Some m -> partial_hit_reqs m !! r = None) -> settled ms'.
Proof.
  intros Hs Hf Hr k m r' Hm. destruct (decide (r' = r)) as [->|Hne]; [by eapply Hr|].
  destruct (Forall2_lookup_r _ _ _ _ _ Hf Hm) as (m0 & Hm0 & Hfr). rewrite (fr_partial _ _ _ Hfr) by done. by eapply Hs.
Qed.

Section admitted.
Context (use_int : bool) (others : nat -> Z) (r : string) (nt nl ne : Z) (blocks : list (list nat)) (skip_zeroing : list Z).
Hypothesis tokens_ok : 0 <= nl /\ 0 <= ne /\ nl + ne <= nt.
Context (c : KVCacheCoordinator).

Definition hits_shared (ms : list single) : Prop :=
  forall k m b, single_type_managers c !! k = Some m -> blocks !! k = Some b -> shared_hits ms m b nl.
Definition adding (ms : list single) (p : BlockPool) : Prop :=
  private ms p /\ (Forall2 (framed r) (single_type_managers c) ms /\ config p = config (block_pool c)) /\ hits_shared ms.
Definition taking (ms : list single) (p : BlockPool) : Prop :=
  private ms p /\ Forall2 (framed r) (single_type_managers c) ms /\ config p = config (block_pool c).

Lemma adding_local free ms1 m ms2 p b s :
  coord_owns others free (ms1 ++ m :: ms2) p -> adding (ms1 ++ m :: ms2) p ->
  blocks !! length ms1 = Some b -> fresh_with r nl p m b -> local_added r b nl ne free m p s ->
  adding (ms1 ++ s.1 :: ms2) s.2.
Proof.
  intros Ho (Hp & [Hf Hcfg] & Hs) Hb [Hsp _ _ Hh Hcov] Hla. pose proof (coord_focus _ _ _ _ _ _ Ho) as Hof.
  destruct (Forall2_lookup_r _ _ _ (length ms1) m Hf) as (m0 & Hm0 & Hfr); [by apply list_lookup_middle|].
  assert (shared_hits (ms1 ++ m :: ms2) m b nl) as Hsh.
  { eapply untouched_kept; [apply (fr_size _ _ _ Hfr)|by eapply Hs]. }
  destruct tokens_ok as (_ & Hne & _). split_and!.
  - eapply private_step; [exact Ho|exact Hp|]. by eapply local_step_private.
  - eapply framed_all_step; [exact Hf|apply Hla].
  - rewrite <- Hcfg. apply Hla.
  - intros k n b' Hn Hb' j x Hx Hx0 Hj. eapply local_untouched; [exact Hof|done..|exact Hla|]. by eapply Hs.
Qed.

Lemma taking_step free ms1 m ms2 p s :
  coord_owns others free (ms1 ++ m :: ms2) p -> taking (ms1 ++ m :: ms2) p ->
  (0 <= num_cached m r -> table_step (ms1 ++ m :: ms2) r m p s.1 s.2) -> taking (ms1 ++ s.1 :: ms2) s.2.
Proof.
  intros Ho (Hp & Hf & Hcfg) Hs. assert (0 <= num_cached m r) as Hn.
  { eapply (pv_cached _ _ Hp (length ms1)). by apply list_lookup_middle. }
  specialize (Hs Hn). split_and!; [by eapply private_step|eapply framed_all_step; [exact Hf|apply Hs]|].
  rewrite <- Hcfg. apply Hs.
Qed.

(** Admission keeps the invariant. *)
Lemma admitted_ok :
  kv_inv others c -> admissible others r nl blocks c -> hits_shared (single_type_managers c) ->
  predicted nt nl ne (block_pool c) (single_type_managers c) blocks <= get_num_free_blocks (block_pool c) ->
  wp (Coordinator.allocate_new_computed_blocks use_int r blocks nl ne skip_zeroing ;;
      Coordinator.allocate_new_blocks use_int r nt)
    (fun _ c' => kv_inv others c' /\ Forall2 (framed r) (single_type_managers c) (single_type_managers c') /\
       config (block_pool c') = config (block_pool c) /\ Forall2 (finished r nt nl ne) (single_type_managers c') blocks) c.
Proof.
  intros [_ Hp Hset] Had Hs Hle. eapply wp_mono; [apply (allocate_all_ok use_int others r nt nl ne blocks skip_zeroing tokens_ok adding taking)|].
  - intros. by eapply adding_local.
  - by intros ms p (? & [? ?] & _).
  - intros free ms1 m ms2 p bs s Ho HI Hx. eapply taking_step; [exact Ho|exact HI|]. intros Hn.
    eapply extended_step_private; [exact (coord_focus _ _ _ _ _ _ Ho)|done|done].
  - intros free ms1 m ms2 p bs s Ho HI Hx. eapply taking_step; [exact Ho|exact HI|]. intros Hn.
    eapply allocated_step_private; [exact (coord_focus _ _ _ _ _ _ Ho)|done|done].
  - exact Had.
  - split_and!; [done|apply framed_all_refl|done|done].
  - exact Hle.
  - intros new c' (free & bd & bt & Eb & Ho & _ & Hd & Ht & Hpv & Hf & Hcfg). inversion Ht; subst bt.
    rewrite app_nil_r in Eb, Ho, Hpv, Hf. subst bd. split_and!; [|done|done|done]. split; [by exists free|done|].
    eapply settled_after; [exact Hset|exact Hf|]. intros k m Hm.
    destruct (Forall2_lookup_l _ _ _ _ _ Hd Hm) as (b & _ & Hfin). apply Hfin.
Qed.
End admitted.

(** A method that runs every manager on one request. *)
Lemma each_private {A} (f : Z -> M (single * BlockPool) A) others r (P : single -> single -> Prop) c :
  (forall i others' free' m p, m ∈ single_type_managers c -> owns others' free' (m, p) -> 0 <= num_cached m r ->
    wp (f i) (fun _ s => exists free'', owns others' free'' s /\ P m s.1 /\ partial_hit_reqs s.1 !! r = None /\
      forall ms, table_step ms r m p s.1 s.2) (m, p)) ->
  kv_inv others c ->
  wp (each_manager f) (fun _ c' => kv_inv others c' /\ config (block_pool c') = config (block_pool c) /\
    Forall2 (framed r) (single_type_managers c) (single_type_managers c') /\
    Forall2 P (single_type_managers c) (single_type_managers c')) c.
Proof.
  intros Hf [(free & Ho) Hp Hs].
  set (J := fun (done : list single) (_ : list A) (todo : list single) (p : BlockPool) => exists free' before,
    single_type_managers c = before ++ todo /\ coord_owns others free' (done ++ todo) p /\ taking r c (done ++ todo) p /\
    config p = config (block_pool c) /\ Forall2 P before done /\ Forall (fun m => partial_hit_reqs m !! r = None) done).
  eapply wp_mono; [apply (each_manager_ok f J)|].
  - intros done rs m todo p (free' & before & E & Ho' & Ht & Hc & Hd & Hpt).
    assert (m ∈ single_type_managers c) as Hin by (rewrite E; set_solver).
    assert (0 <= num_cached m r) as Hn by (eapply (pv_cached _ _ (proj1 Ht) (length done)); by apply list_lookup_middle).
    eapply wp_mono; [apply (Hf _ _ _ _ _ Hin (coord_focus _ _ _ _ _ _ Ho') Hn)|].
    intros a [m' p'] (free'' & Ho'' & HP & Hpm & Hst). exists free'', (before ++ [m]). rewrite <- !app_assoc. simpl in *. split_and!.
    + done.
    + eapply coord_unfocus; [done|done|apply (ts_config _ _ _ _ _ _ (Hst []))].
    + by eapply (taking_step others r c free' done m todo p (m', p')).
    + rewrite <- Hc. apply (ts_config _ _ _ _ _ _ (Hst [])).
    + by apply Forall2_app; [|constructor].
    + apply Forall_app. by split; [|constructor].
  - exists free, []. by split_and!.
  - intros rs c' (free' & before & E & Ho' & (Hp' & Hf' & _) & Hc & Hd & Hpt). rewrite app_nil_r in E, Ho', Hp', Hf'. subst before.
    split_and!; try done. split; [by exists free'|done|]. eapply settled_after; [exact Hs|exact Hf'|].
    intros k m Hm. rewrite Forall_forall in Hpt. by apply Hpt, (list_elem_of_lookup_2 _ k).
Qed.

(** Entries may only have been cleared. *)
Record removed (r : string) (m m' : single) : Prop := {
  rm_length : length (table m' r) = length (table m r);
  rm_cached : num_cached_block m' = num_cached_block m;
  rm_table : forall i x, x <> 0%nat -> table m' r !! i = Some x -> table m r !! i = Some x
}.

Lemma remove_private others r processed np c :
  kv_inv others c -> (forall m, m ∈ single_type_managers c -> removal_args m processed np) ->
  wp (Coordinator.remove_skipped_blocks r processed np) (fun _ c' => kv_inv others c' /\
    config (block_pool c') = config (block_pool c) /\
    Forall2 (framed r) (single_type_managers c) (single_type_managers c') /\
    Forall2 (removed r) (single_type_managers c) (single_type_managers c')) c.
Proof.
  intros Hi Ha. unfold Coordinator.remove_skipped_blocks. wp_simpl.
  eapply wp_mono; [apply (each_private _ others r (removed r)); [|exact Hi]|].
  - intros i others' free' m p Hin Ho Hn.
    assert (partial_hit_reqs m !! r = None) as Hp.
    { apply list_elem_of_lookup in Hin as [k Hk]. by eapply (ki_settled _ _ Hi). }
    eapply wp_mono; [apply (remove_skipped_ok others' free' m p r processed np Ho Hp (Ha m Hin))|].
    intros [] s (free'' & Ho'' & Hnul). exists free''. split_and!; [done| |by rewrite (nu_partial _ _ _ _ _ _ Hnul)|].
    + split; [|apply Hnul|intros j x; by apply (nulled_slot _ _ _ _ _ _ _ _ Hnul)].
      destruct Hnul as [_ _ _ _ _ (k & Hk & Hs & E)]. rewrite E, !length_app, length_replicate, length_take, length_drop.
      destruct Hs as [->|[Hkn _]]; lia.
    + intros ms. by eapply nulled_step_private.
  - intros rs c' H. by wp_simpl.
Qed.

Lemma free_private others r c :
  kv_inv others c ->
  wp (Coordinator.free r) (fun _ c' => kv_inv others c' /\ config (block_pool c') = config (block_pool c) /\
    Forall2 (framed r) (single_type_managers c) (single_type_managers c') /\
    Forall2 (fun m m' => m' = popped r m) (single_type_managers c) (single_type_managers c')) c.
Proof.
  intros Hi. unfold Coordinator.free. wp_simpl. eapply wp_mono; [apply (each_private _ others r (fun m m' => m' = popped r m)); [|exact Hi]|].
  - intros i others' free' m p _ Ho Hn. eapply wp_mono; [by apply (free_request_ok others' free')|].
    intros [] s (free'' & H & E & Hc & Hh). exists free''. rewrite E. split_and!; [done|done|by cbn; rewrite lookup_delete_eq|].
    intros ms. by apply popped_step_private.
  - intros rs c' H. by wp_simpl.
Qed.

(** Slots for a request that already holds its computed tokens. *)
Lemma allocate_running_ok use_int others r nt c :
  kv_inv others c -> sum_need r nt (single_type_managers c) <= get_num_free_blocks (block_pool c) ->
  wp (Coordinator.allocate_new_blocks use_int r nt) (fun _ c' => kv_inv others c' /\
    config (block_pool c') = config (block_pool c) /\
    Forall2 (framed r) (single_type_managers c) (single_type_managers c') /\
    Forall2 (fun m m' => zlen (table m' r) = Z.max (zlen (table m r)) (cdiv nt (block_size m)))
      (single_type_managers c) (single_type_managers c')) c.
Proof.
  intros [(free & Ho) Hp Hs] Hle. rewrite (free_count _ _ (co_pool _ _ _ _ Ho)) in Hle.
  set (P := fun m m' => zlen (table m' r) = Z.max (zlen (table m r)) (cdiv nt (block_size m)) /\ partial_hit_reqs m' !! r = None).
  set (J := fun (done : list single) (_ : list (list nat)) (todo : list single) (p : BlockPool) => exists free' before,
    single_type_managers c = before ++ todo /\ coord_owns others free' (done ++ todo) p /\ taking r c (done ++ todo) p /\
    config p = config (block_pool c) /\ sum_need r nt todo <= zlen free' /\ Forall2 P before done).
  eapply wp_mono; [apply (each_manager_ok _ J)|].
  - intros done rs m todo p (free' & before & E & Ho' & Ht & Hc & Hsum & Hd). simpl in Hsum.
    pose proof (coord_focus _ _ _ _ _ _ Ho') as Hof. pose proof (sum_need_nonneg r nt todo).
    eapply wp_mono; [apply (allocate_new_ok use_int _ free' m p r nt Hof); lia|].
    intros new [m' p'] (free'' & Ef & Hl & Ho'' & Ha). exists free'', (before ++ [m]). rewrite <- !app_assoc. simpl in *.
    rewrite Ef, length_app in Hsum. split_and!; [done| | | |lia|].
    + eapply coord_unfocus; [done|done|apply Ha].
    + eapply (taking_step others r c free' done m todo p (m', p')); [done|done|]. intros Hn. by eapply allocated_step_private.
    + rewrite <- Hc. apply (al_config _ _ _ _ _ _ Ha).
    + apply Forall2_app; [done|]. constructor; [|done]. split; [apply (al_length _ _ _ _ _ _ Ha)|].
      pose proof (al_partial _ _ _ _ _ _ Ha) as Ep. cbn [fst] in Ep. rewrite Ep. apply lookup_delete_eq.
  - exists free, []. by split_and!.
  - intros rs c' (free' & before & E & Ho' & (Hp' & Hf' & _) & Hc & _ & Hd). rewrite app_nil_r in E, Ho', Hp', Hf'. subst before.
    split_and!; try done.
    + split; [by exists free'|done|]. eapply settled_after; [exact Hs|exact Hf'|]. intros k m Hm.
      destruct (Forall2_lookup_r _ _ _ _ _ Hd Hm) as (m0 & _ & _ & ?). done.
    + eapply Forall2_impl; [exact Hd|]. by intros m m' [? _].
Qed.
