(* ===== verification/HybridHit.v ===== *)
(** The prefix lookup of models with several attention types
    ([HybridKVCacheCoordinator] of [vllm/v1/core/kv_cache_coordinator.py]):
    groups with one spec are looked up together, and the hit length shrinks
    until every attention type accepts it. *)
From Stdlib Require Import ZArith Lia Strings.String.
From stdpp Require Import base numbers list gmap strings.
From S2P Require Import Prelude BlockQueue Request BlockHash HashMap BlockPool PoolOps PoolCache PoolSafety CacheHit.
From S2P Require Import SingleTypeManager TableSafety TableReach Coordinator.
Import Pool.
Open Scope Z_scope.
Local Arguments py_get : simpl never.
Local Arguments Z.of_nat : simpl never.

#[export] Instance spec_kind_eq_dec : EqDecision spec_kind.
Proof. solve_decision. Defined.
#[export] Instance KVCacheSpec_eq_dec : EqDecision KVCacheSpec.
Proof. solve_decision. Defined.

(** [isinstance(spec, FullAttentionSpec)]; it also selects the managers with
    [supports_fine_grained_hash_lookup]. *)
Definition is_full (spec : KVCacheSpec) : bool :=
  match kind spec with FullAttention | RSWA _ => true | SlidingWindow _ _ | ChunkedLocalAttention _ => false end.

Definition eagle_proof_margin (block_size hash_block_size : Z) (fine_grained_lookup : bool) : Z :=
  if fine_grained_lookup && (block_size >? hash_block_size) then hash_block_size else block_size.

(** The manager class is determined by the spec. *)
Record SpecGroup := mkGroup {
  spec : KVCacheSpec;
  group_ids : list nat;
  group_eagle : bool
}.

#[export] Instance SpecGroup_eq_dec : EqDecision SpecGroup.
Proof. solve_decision. Defined.

(** * Grouping *)

Module Hybrid.

(** The inner loop of [verify_and_split_kv_cache_groups]: join the first group
    with the same spec, or open a new one.  The modelled specs are all
    prefix-cacheable and share one pool. *)
Fixpoint join_group (s : KVCacheSpec) (i : nat) (use_eagle : bool) (groups : list SpecGroup) : list SpecGroup :=
  match groups with
  | [] => [mkGroup s [i] use_eagle]
  | g :: groups =>
      if bool_decide (spec g = s) then mkGroup (spec g) (group_ids g ++ [i]) (group_eagle g || use_eagle) :: groups
      else g :: join_group s i use_eagle groups
  end.
Fixpoint split_from (i : nat) (specs : list KVCacheSpec) (eagle_group_ids : gset nat) (groups : list SpecGroup) :
    list SpecGroup :=
  match specs with
  | [] => groups
  | s :: specs => split_from (S i) specs eagle_group_ids (join_group s i (bool_decide (i ∈ eagle_group_ids)) groups)
  end.
(** The stable sort puts full attention first. *)
Definition verify_and_split_kv_cache_groups (specs : list KVCacheSpec) (eagle_group_ids : gset nat) :
    outcome (list SpecGroup) :=
  match split_from 0 specs eagle_group_ids [] with
  | [] => Raise AssertionError
  | groups => Ok (filter (fun g => is_full (spec g) = true) groups ++ filter (fun g => is_full (spec g) = false) groups)
  end.

(** * The fixed point *)

Record lookup_state := mkLookup {
  curr_hit_length : Z;
  longest_hit_length : Z;
  hit_blocks_by_group : list (option (list nat));
  hit_length_by_group : list Z;
  eagle_verified : gset nat
}.
Definition set_curr (n : Z) (st : lookup_state) : lookup_state :=
  mkLookup n (longest_hit_length st) (hit_blocks_by_group st) (hit_length_by_group st) (eagle_verified st).

Section group.
Context (p : BlockPool) (cache_hit_alignment_tokens pcp_world_size : Z) (block_hashes : list bytes).

(** [manager_cls.find_longest_cache_hit] *)
Definition find_group (g : SpecGroup) (m : single) (max_length : Z) (drop_eagle_block : bool) :
    outcome (list (list nat) * Z) :=
  let ids := map Z.of_nat (group_ids g) in
  match kind (spec g) with
  | FullAttention | RSWA _ =>
      full_attention_hit p ids (Raw block_hashes) max_length (spec g) drop_eagle_block cache_hit_alignment_tokens
        (dcp_world_size m)
  | SlidingWindow _ _ =>
      sliding_window_hit p ids (Raw block_hashes) max_length (spec g) drop_eagle_block cache_hit_alignment_tokens
        (dcp_world_size m) pcp_world_size
  | ChunkedLocalAttention _ =>
      chunked_local_hit p ids (Raw block_hashes) max_length (spec g) drop_eagle_block cache_hit_alignment_tokens
        (dcp_world_size m) pcp_world_size
  end.

End group.

Section lookup.
Context (p : BlockPool) (managers : list single) (attention_groups : list SpecGroup)
  (cache_hit_alignment_tokens : Z) (enable_partial_hash_hits : bool) (pcp_world_size : Z) (block_hashes : list bytes).

(** [for group_id, blocks in zip(group_ids, hit_blocks)] *)
Fixpoint store_hits (ids : list nat) (hit_blocks : list (list nat)) (hit_length : Z)
    (blocks : list (option (list nat))) (lengths : list Z) : outcome (list (option (list nat)) * list Z) :=
  match ids, hit_blocks with
  | i :: ids, b :: hit_blocks =>
      let? blocks := or_raise (py_set blocks (Z.of_nat i) (Some b)) IndexError in
      let? lengths := or_raise (py_set lengths (Z.of_nat i) hit_length) IndexError in
      store_hits ids hit_blocks hit_length blocks lengths
  | _, _ => Ok (blocks, lengths)
  end.

(** The body of the loop over the attention groups. *)
Definition group_step (idx : nat) (g : SpecGroup) (st : lookup_state) : outcome lookup_state :=
  let? first_group_id := or_raise (py_get (group_ids g) 0) IndexError in
  let? m := or_raise (py_get managers (Z.of_nat first_group_id)) IndexError in
  let? cached_blocks := or_raise (py_get (hit_blocks_by_group st) (Z.of_nat first_group_id)) IndexError in
  if is_full (spec g) && bool_decide (is_Some cached_blocks) then
    let? n := or_raise (py_get (hit_length_by_group st) (Z.of_nat first_group_id)) IndexError in
    Ok (set_curr (Z.min (curr_hit_length st) n) st)
  else
    let drop_eagle_block := group_eagle g && negb (bool_decide (idx ∈ eagle_verified st)) in
    let max_length :=
      if drop_eagle_block then
        let eagle_margin := eagle_proof_margin (block_size m) (hash_block_size p)
                              (enable_partial_hash_hits && is_full (spec g)) in
        Z.min (curr_hit_length st + eagle_margin) (zlen block_hashes * hash_block_size p)
      else curr_hit_length st in
    let? found := find_group p cache_hit_alignment_tokens (SingleType.manager_pcp pcp_world_size m) block_hashes g m max_length
                    drop_eagle_block in
    let '(hit_blocks, new_hit_length) := found in
    let verified := if drop_eagle_block then {[ idx ]} ∪ eagle_verified st
                    else if new_hit_length <? curr_hit_length st then ∅ else eagle_verified st in
    let? stored := store_hits (group_ids g) hit_blocks new_hit_length (hit_blocks_by_group st) (hit_length_by_group st) in
    Ok (mkLookup new_hit_length (Z.max (longest_hit_length st) new_hit_length) stored.1 stored.2 verified).

Fixpoint group_pass (idx : nat) (groups : list SpecGroup) (st : lookup_state) : outcome lookup_state :=
  match groups with
  | [] => Ok st
  | g :: groups => let? st := group_step idx g st in group_pass (S idx) groups st
  end.

Definition is_simple_hybrid : bool :=
  match attention_groups with [g; _] => is_full (spec g) | _ => false end.

(** [while True]; every further round has a smaller [hit_length]. *)
Fixpoint hit_loop (fuel : nat) (hit_length : Z) (st : lookup_state) : outcome (Z * lookup_state) :=
  match fuel with
  | O => Raise OutOfFuel
  | S fuel =>
      let? st := group_pass 0 attention_groups (set_curr hit_length st) in
      if curr_hit_length st >=? hit_length then Ok (hit_length, st)
      else if is_simple_hybrid then Ok (curr_hit_length st, st)
      else hit_loop fuel (curr_hit_length st) st
  end.

(** [del blks[num_blocks:]] for the groups of one attention type. *)
Fixpoint truncate_ids (ids : list nat) (num_blocks : Z) (blocks : list (option (list nat))) :
    outcome (list (option (list nat))) :=
  match ids with
  | [] => Ok blocks
  | i :: ids =>
      let? b := or_raise (py_get blocks (Z.of_nat i)) IndexError in
      let? blocks := (match b with
                      | Some b => or_raise (py_set blocks (Z.of_nat i) (Some (py_upto num_blocks b))) IndexError
                      | None => Ok blocks
                      end) in
      truncate_ids ids num_blocks blocks
  end.
Fixpoint truncate_full (hit_length : Z) (groups : list SpecGroup) (blocks : list (option (list nat))) :
    outcome (list (option (list nat))) :=
  match groups with
  | [] => Ok blocks
  | g :: groups =>
      if is_full (spec g) then
        let? first_group_id := or_raise (py_get (group_ids g) 0) IndexError in
        let? m := or_raise (py_get managers (Z.of_nat first_group_id)) IndexError in
        let? blocks := truncate_ids (group_ids g) (cdiv hit_length (block_size m)) blocks in
        truncate_full hit_length groups blocks
      else truncate_full hit_length groups blocks
  end.

Definition find_longest_cache_hit (max_cache_hit_length : Z) : outcome (list (list nat) * Z * Z) :=
  let num_groups := length managers in
  let start := mkLookup max_cache_hit_length 0 (replicate num_groups None) (replicate num_groups 0) ∅ in
  let? found := hit_loop (S (Z.to_nat max_cache_hit_length)) max_cache_hit_length start in
  let '(hit_length, st) := found in
  let? blocks := truncate_full hit_length attention_groups (hit_blocks_by_group st) in
  Ok (map (default []) blocks, hit_length, longest_hit_length st - hit_length).
End lookup.
End Hybrid.

(** * Hits at a length *)

Section hits.
Context (p : BlockPool) (managers : list single) (al pcp : Z) (hs : list bytes).
Abbreviation hbs := (hash_block_size p).
Abbreviation ids g := (map Z.of_nat (group_ids g)).

(** The blocks an attention type needs to resume after [T] tokens. *)
Definition needed_from (s : KVCacheSpec) (bs T : Z) : Z :=
  match kind s with
  | FullAttention | RSWA _ => 0
  | SlidingWindow w _ => Z.max 0 (T / bs - cdiv (w - 1) bs)
  | ChunkedLocalAttention c => T / c * c / bs
  end.
Definition needed (g : SpecGroup) (bs T j : Z) : Prop := needed_from (spec g) bs T <= j < T / bs.

(** A group can resume after [T] tokens. *)
Record hit_at (g : SpecGroup) (bs T : Z) : Prop := {
  ha_nonneg : 0 <= T;
  ha_blocks : T mod bs = 0;
  ha_aligned : T mod al = 0;
  ha_covered : forall j, needed g bs T j -> covered p (ids g) hs hbs ((j + 1) * bs)
}.
(** ... with these rows of blocks, one block per member group. *)
Record rows_at (g : SpecGroup) (bs T : Z) (rows : list (list nat)) : Prop := {
  rw_length : zlen rows = T / bs;
  rw_cached : forall j, needed g bs T j -> exists row, rows !! Z.to_nat j = Some row /\ row_of p (ids g) hs ((j + 1) * bs) row
}.

Record group_ok (g : SpecGroup) (m : single) : Prop := {
  go_first : exists first rest, group_ids g = first :: rest /\ managers !! first = Some m;
  go_bound : forall i, i ∈ group_ids g -> (i < length managers)%nat;
  go_lookup : lookup_ok p (ids g);
  go_size : 0 < block_size m /\ block_size m mod hbs = 0 /\ al mod block_size m = 0;
  go_spec : match kind (spec g) with
            | FullAttention | RSWA _ => block_size m = group_block_size (spec g) (dcp_world_size m)
            | SlidingWindow w _ => block_size m = spec_block_size (spec g) /\ dcp_world_size m = 1 /\ pcp = 1 /\ 1 < w
            | ChunkedLocalAttention c => block_size m = spec_block_size (spec g) /\ dcp_world_size m = 1 /\ pcp = 1 /\
                0 < c /\ c mod block_size m = 0 /\ al = block_size m /\ group_eagle g = false
            end
}.

Hypothesis sizes_ok : 0 < hbs /\ 0 < al.

Lemma needed_nonneg g bs T j : 0 < bs -> 0 <= T -> (forall c, kind (spec g) = ChunkedLocalAttention c -> 0 < c) ->
  needed g bs T j -> 0 <= j.
Proof.
  intros Hb HT Hc [H _]. unfold needed_from in H. destruct (kind (spec g)) as [|w e|c|w] eqn:E; try lia.
  specialize (Hc _ eq_refl). pose proof (Z.div_pos T c HT Hc). etrans; [|exact H]. apply Z.div_pos; nia.
Qed.

Lemma rows_hit g bs T rows :
  0 <= T -> T mod bs = 0 -> T mod al = 0 -> rows_at g bs T rows -> hit_at g bs T.
Proof.
  intros HT Hb Ha [Hl Hc]. split; try done. intros j Hj. destruct (Hc j Hj) as (row & _ & h & Hh & Hr). by exists h, row.
Qed.

(** What a lookup of one group promises. *)
Definition found_ok (g : SpecGroup) (bs max_length : Z) (drop : bool) (rows : list (list nat)) (L : Z) : Prop :=
  0 <= L <= max_length /\ (drop = true -> L = 0 \/ L + bs <= max_length) /\ rows_at g bs L rows /\ hit_at g bs L /\
  (drop = false -> forall T, T <= max_length -> hit_at g bs T -> T <= L).

Lemma hashes_bound bs max_length :
  0 < bs -> bs mod hbs = 0 -> 0 <= max_length -> max_length / hbs <= zlen hs ->
  max_length / bs * (bs / hbs) <= zlen hs.
Proof.
  intros Hb Hm Hmax Hle. etrans; [|exact Hle]. apply Z.div_le_lower_bound; [lia|].
  pose proof (Z.mul_div_le max_length bs Hb). apply Z.div_exact in Hm; [|lia]. nia.
Qed.

Lemma find_sliding g m w e max_length drop :
  group_ok g m -> kind (spec g) = SlidingWindow w e -> 0 <= max_length -> max_length / hbs <= zlen hs ->
  exists rows L, sliding_window_hit p (ids g) (Raw hs) max_length (spec g) drop al (dcp_world_size m) pcp =
    Ok (by_group (length (ids g)) rows, L) /\ found_ok g (block_size m) max_length drop rows L.
Proof.
  intros [_ _ Hl (Hb & Hm & Hal) Hs] Hk Hmax Hh. rewrite Hk in Hs. destruct Hs as (Hbs & -> & Hp & Hw). rewrite Hp.
  set (bs := block_size m) in *.
  destruct (window_hit_ok p (ids g) hs bs al w max_length drop (spec g) e Hk Hbs) as (rows & E & Hle & Hend & Hali & Hrows & Hmx).
  { split; [done|lia|done|lia|done|]. split; [done|]. by apply hashes_bound. }
  exists rows, (zlen rows * bs). split; [exact E|].
  assert (zlen rows * bs / bs = zlen rows) as Ediv by (apply Z.div_mul; lia).
  assert (zlen rows * bs mod al = 0) as Eal.
  { destruct Hali as [->|]; [by apply Z.mod_mul; lia|done]. }
  assert (rows_at g bs (zlen rows * bs) rows) as Hr.
  { split; [by rewrite Ediv|]. intros j [Hj1 Hj2]. unfold needed_from in Hj1. rewrite Hk, Ediv in *. by apply Hrows. }
  split_and!; [nia|done| |done| |].
  - intros ->. destruct Hend as [Hz|Hend]; [left; rewrite Hz; lia|right; lia].
  - eapply rows_hit; [nia|by apply Z.mod_mul; lia|done|exact Hr].
  - intros -> T HT [HT0 HTb HTa HTc]. destruct (decide (T = 0)) as [->|]; [nia|].
    apply Z.div_exact in HTb as HTd; [|lia].
    assert (T / bs <= zlen rows); [|nia]. apply Hmx; [by left|]. split_and!; [nia|rewrite Z.add_0_r; apply Z.div_le_mono; lia| |].
    + right. by rewrite Z.mul_comm, <- HTd.
    + intros j Hj. apply HTc. unfold needed, needed_from. rewrite Hk. lia.
Qed.

Lemma find_chunked g m c max_length :
  group_ok g m -> kind (spec g) = ChunkedLocalAttention c -> 0 <= max_length -> max_length / hbs <= zlen hs ->
  exists rows L, chunked_local_hit p (ids g) (Raw hs) max_length (spec g) false al (dcp_world_size m) pcp =
    Ok (by_group (length (ids g)) rows, L) /\ found_ok g (block_size m) max_length false rows L.
Proof.
  intros [_ _ Hl (Hb & Hm & Hal) Hs] Hk Hmax Hh. rewrite Hk in Hs. destruct Hs as (Hbs & -> & -> & Hc & Hcm & Ea & _).
  rewrite Ea. set (bs := block_size m) in *.
  destruct (chunked_hit_ok p (ids g) hs bs c max_length (spec g) Hk Hbs Hc) as (rows & E & Hst & Hle & Hrows & Hstop).
  { split; [done|lia|done|lia|lia|]. split; [done|]. by apply hashes_bound. }
  set (start := (if max_length >? 0 then max_length / c * c else 0) / bs) in *.
  assert (start * bs = max_length / c * c) as Estart.
  { unfold start. destruct (max_length >? 0) eqn:E0; bools.
    - rewrite Z.mul_comm. symmetry. apply Z.div_exact; [lia|]. rewrite Z.mul_mod, Hcm, Z.mul_0_r by lia. apply Z.mod_0_l. lia.
    - replace max_length with 0 by lia. by rewrite !Z.div_0_l by lia. }
  pose proof (Z.mul_div_le max_length bs Hb) as Hmd.
  assert (forall T, max_length / c * c <= T <= max_length -> T / c = max_length / c) as Hsame.
  { intros T HT. apply Z.le_antisymm; [apply Z.div_le_mono; lia|]. apply Z.div_le_lower_bound; lia. }
  exists rows, (zlen rows * bs). split; [exact E|].
  assert (zlen rows * bs / bs = zlen rows) as Ediv by (apply Z.div_mul; lia).
  assert (needed_from (spec g) bs (zlen rows * bs) = start) as En.
  { unfold needed_from. rewrite Hk, Hsame by nia. rewrite <- Estart. apply Z.div_mul. lia. }
  assert (rows_at g bs (zlen rows * bs) rows) as Hr.
  { split; [by rewrite Ediv|]. intros j [Hj1 Hj2]. rewrite En in Hj1. rewrite Ediv in Hj2.
    destruct (rows !! Z.to_nat j) as [row|] eqn:Er; [|apply lookup_ge_None in Er; lia].
    exists row. split; [done|]. specialize (Hrows j row Er ltac:(lia)). by rewrite (proj2 (Z.ltb_ge _ _)) in Hrows by lia. }
  split_and!; [nia|nia|done|done| |].
  - eapply rows_hit; [nia|by apply Z.mod_mul; lia|rewrite Ea; by apply Z.mod_mul; lia|exact Hr].
  - intros _ T HT [HT0 HTb HTa HTc]. apply Z.div_exact in HTb as HTd; [|lia].
    destruct (Z.le_gt_cases T (zlen rows * bs)) as [|Hgt]; [done|exfalso].
    assert (zlen rows < T / bs) as Hlt by nia. assert (T / bs <= max_length / bs) by (apply Z.div_le_mono; lia).
    apply Hstop; [lia|]. apply HTc. split; [|done]. unfold needed_from. rewrite Hk, Hsame by nia.
    rewrite <- Estart, Z.div_mul by lia. lia.
Qed.

Lemma aligned_size bs : 0 < bs -> al mod bs = 0 -> Z.min al bs = bs.
Proof. intros Hb Hm. apply Z.div_exact in Hm as Hd; [|lia]. assert (0 < al / bs) by nia. nia. Qed.
Lemma aligned_mod bs T : 0 < bs -> al mod bs = 0 -> T mod al = 0 -> T mod bs = 0.
Proof.
  intros Hb Hm HT. apply Z.mod_divide in HT, Hm; [|lia..]. apply Z.mod_divide; [lia|]. by etrans.
Qed.

Lemma find_full g m max_length drop :
  group_ok g m -> is_full (spec g) = true -> 0 <= max_length ->
  exists rows L, full_attention_hit p (ids g) (Raw hs) max_length (spec g) drop al (dcp_world_size m) =
    Ok (by_group (length (ids g)) rows, L) /\ found_ok g (block_size m) max_length drop rows L.
Proof.
  intros [_ _ Hl (Hb & Hm & Hal) Hs] Hk Hmax. set (bs := block_size m) in *.
  assert (bs = group_block_size (spec g) (dcp_world_size m) /\ forall w e, kind (spec g) <> SlidingWindow w e) as [Hbs Hns].
  { unfold is_full in Hk. destruct (kind (spec g)); done. }
  pose proof (aligned_size bs Hb Hal) as Emin.
  assert (full_args_ok p (ids g) bs al max_length) as Hargs by (split; [done|lia|done|split; [lia|by left]|done]).
  destruct (full_search_ok p (ids g) hs bs max_length drop al Hargs) as (rows & B & HB & Hu & Hc & Hmx & Hlen & Hrow & E).
  rewrite Emin in *. set (R := if drop && (B >? 0) then B - bs else B) in *.
  destruct (cut_rows p (ids g) hs bs rows B al drop Hb ltac:(lia) (proj1 HB)) as [Hcl Hcr]; [by rewrite Emin|done|done|].
  rewrite Emin in *. fold R in Hcl, Hcr. set (L := R - R mod al) in *.
  apply Z.div_exact in Hu as Hud; [|lia].
  assert (0 <= R <= B) as HR.
  { unfold R. destruct (drop && (B >? 0)) eqn:Ed; [|lia]. bools. assert (0 < B / bs) by nia. nia. }
  assert (0 <= L <= R) as HL.
  { unfold L. pose proof (Z.mod_le R al ltac:(lia) ltac:(lia)). pose proof (Z.mod_pos_bound R al ltac:(lia)). lia. }
  assert (L mod al = 0) as HLa by (unfold L; rewrite Zminus_mod_idemp_r, Z.sub_diag; apply Z.mod_0_l; lia).
  pose proof (aligned_mod bs L Hb Hal HLa) as HLb. apply Z.div_exact in HLb as HLd; [|lia].
  assert (cdiv L bs = L / bs) as Ecd by (pose proof (cdiv_spec L bs Hb); nia).
  assert (needed_from (spec g) bs = fun _ => 0) as En by (unfold needed_from, is_full in *; destruct (kind (spec g)); done).
  assert (rows_at g bs L (py_upto (cdiv L bs) rows)) as Hr.
  { split; [by rewrite Hcl, Ecd|]. intros j [Hj1 Hj2]. rewrite En in Hj1.
    destruct (py_upto (cdiv L bs) rows !! Z.to_nat j) as [row|] eqn:Er; [|apply lookup_ge_None in Er; lia].
    exists row. split; [done|]. pose proof (Hcr _ _ Er) as Hrw. by rewrite Z2Nat.id, Z.min_l in Hrw by nia. }
  exists (py_upto (cdiv L bs) rows), L. split; [|split_and!; [lia|lia| |done| |]].
  - unfold full_attention_hit. fold (group_block_size (spec g) (dcp_world_size m)). rewrite <- Hbs, E. cbv zeta. rewrite <- by_group_trim.
    destruct (kind (spec g)) as [|w e|c|w]; try reflexivity. by destruct (Hns w e).
  - intros ->. unfold R in *. simpl in *. destruct (B >? 0) eqn:E0; bools; lia.
  - eapply rows_hit; [lia|done|done|exact Hr].
  - intros -> T HT [HT0 HTb HTa HTc]. assert (T <= B) as HTB.
    { apply Hmx; [lia|done|]. split; [|done]. intros i Hi Hle. apply HTc. split; [rewrite En; lia|].
      apply Z.div_exact in HTb; [|lia]. nia. }
    unfold L, R in *. simpl in *. pose proof (Z.div_mod B al ltac:(lia)). apply Z.div_exact in HTa; [|lia].
    assert (T / al <= B / al) by (apply Z.div_le_mono; lia). nia.
Qed.

(** Every attention type keeps the promise. *)
Lemma find_group_ok g m max_length drop :
  group_ok g m -> 0 <= max_length -> max_length / hbs <= zlen hs -> (drop = true -> group_eagle g = true) ->
  exists rows L, Hybrid.find_group p al pcp hs g m max_length drop = Ok (by_group (length (group_ids g)) rows, L) /\
    found_ok g (block_size m) max_length drop rows L.
Proof.
  intros Hg Hmax Hh Hd. unfold Hybrid.find_group. rewrite <- (length_map Z.of_nat (group_ids g)).
  destruct (kind (spec g)) as [|w e|c|w] eqn:Ek.
  - apply find_full; [done|unfold is_full; by rewrite Ek|done].
  - by eapply find_sliding.
  - destruct drop; [|by eapply find_chunked]. pose proof (go_spec _ _ Hg) as Hs. rewrite Ek in Hs.
    destruct Hs as (_ & _ & _ & _ & _ & _ & Hs). rewrite Hd in Hs by done. done.
  - apply find_full; [done|unfold is_full; by rewrite Ek|done].
Qed.
End hits.

(** Only the lookups of windows and chunks look at the PCP size. *)
Lemma group_ok_pcp p managers al q q' g m : group_ok p managers al q g m -> (is_full (spec g) = false -> q' = 1) -> group_ok p managers al q' g m.
Proof.
  intros [H1 H2 H3 H4 H5] Hq. split; try done. unfold is_full in Hq. destruct (kind (spec g)); try done; rewrite (Hq eq_refl); naive_solver.
Qed.


(** * The loop *)

Definition column (k : nat) (rows : list (list nat)) : list nat := map (fun row => row !!! k) rows.
Lemma by_group_column n rows k : (k < n)%nat -> by_group n rows !! k = Some (column k rows).
Proof. apply by_group_lookup. Qed.

Lemma store_hits_ok ids cols L blocks lengths :
  NoDup ids -> length cols = length ids -> length blocks = length lengths ->
  (forall i, i ∈ ids -> (i < length blocks)%nat) ->
  exists blocks' lengths', Hybrid.store_hits ids cols L blocks lengths = Ok (blocks', lengths') /\
    length blocks' = length blocks /\ length lengths' = length lengths /\
    (forall k i c, ids !! k = Some i -> cols !! k = Some c -> blocks' !! i = Some (Some c) /\ lengths' !! i = Some L) /\
    (forall i, i ∉ ids -> blocks' !! i = blocks !! i /\ lengths' !! i = lengths !! i).
Proof.
  intros Hnd. revert cols blocks lengths. induction Hnd as [|i ids Hi Hnd IH]; intros cols blocks lengths Hc Hl Hr.
  { exists blocks, lengths. destruct cols; [|done]. by split_and!. }
  destruct cols as [|c cols]; [done|]. cbn [Hybrid.store_hits]. assert (i < length blocks)%nat as Hib by (apply Hr; set_solver).
  rewrite !py_set_in, Nat2Z.id by lia. cbn [or_raise obind].
  destruct (IH cols (<[i := Some c]> blocks) (<[i := L]> lengths)) as (b' & l' & E & Hb' & Hl' & Hin & Hout).
  { simpl in Hc. lia. }
  { by rewrite !length_insert. }
  { intros j Hj. rewrite length_insert. apply Hr. set_solver. }
  rewrite length_insert in Hb'. rewrite length_insert in Hl'. exists b', l'. split_and!; [exact E|done|done| |].
  - intros [|k] j c' Hj Hc'; simpl in Hj, Hc'; [|by eapply Hin]. simplify_eq.
    destruct (Hout j Hi) as [-> ->]. by rewrite !list_lookup_insert_eq by lia.
  - intros j Hj. destruct (Hout j) as [-> ->]; [set_solver|]. by rewrite !list_lookup_insert_ne by set_solver.
Qed.

Lemma elem_of_ids (l : list (SpecGroup * single)) g m i :
  (g, m) ∈ l -> i ∈ group_ids g -> i ∈ concat (map group_ids l.*1).
Proof.
  intros Hg Hi. induction l as [|[h n] l IH]; simpl; [by apply not_elem_of_nil in Hg|]. apply elem_of_app.
  apply elem_of_cons in Hg as [Hg|Hg]; [left; by simplify_eq|right; by apply IH].
Qed.
Lemma nodup_around (l1 : list (SpecGroup * single)) g m l2 :
  NoDup (concat (map group_ids (l1 ++ (g, m) :: l2).*1)) ->
  NoDup (group_ids g) /\ forall g' m' i, (g', m') ∈ l1 \/ (g', m') ∈ l2 -> i ∈ group_ids g' -> i ∉ group_ids g.
Proof.
  rewrite fmap_app, map_app, concat_app. intros (_ & Hd1 & Hn)%NoDup_app. simpl in Hn, Hd1.
  apply NoDup_app in Hn as (Hn & Hd2 & _). split; [done|]. intros g' m' i [Hg'|Hg'] Hi Hi2.
  - apply (Hd1 i); [by eapply elem_of_ids|set_solver].
  - apply (Hd2 i Hi2). by eapply elem_of_ids.
Qed.

Section loop.
Context (p : BlockPool) (managers : list single) (al pcp : Z) (hs : list bytes) (gms : list (SpecGroup * single)) (max0 : Z).
Abbreviation hbs := (hash_block_size p).
Abbreviation groups := (gms.*1).

Hypothesis sizes_ok : 0 < hbs /\ 0 < al.
Hypothesis max_ok : 0 <= max0 /\ max0 / hbs <= zlen hs.
Hypothesis groups_ok : forall g m, (g, m) ∈ gms -> group_ok p managers al (SingleType.manager_pcp pcp m) g m.
Hypothesis ids_nodup : NoDup (concat (map group_ids groups)).

Definition stored (g : SpecGroup) (rows : list (list nat)) (L : Z) (st : Hybrid.lookup_state) : Prop :=
  forall k i, group_ids g !! k = Some i ->
    Hybrid.hit_blocks_by_group st !! i = Some (Some (column k rows)) /\ Hybrid.hit_length_by_group st !! i = Some L.
Definition unstored (g : SpecGroup) (st : Hybrid.lookup_state) : Prop :=
  forall i, i ∈ group_ids g -> Hybrid.hit_blocks_by_group st !! i = Some None.

(** Lengths every group accepts. *)
Definition common (T : Z) : Prop := T <= max0 /\ forall g m, (g, m) ∈ gms -> hit_at p al hs g (block_size m) T.
Definition no_eagle : Prop := forall g m, (g, m) ∈ gms -> group_eagle g = false.

(** The stored result of a group. *)
Record entry (g : SpecGroup) (m : single) (rows : list (list nat)) (L : Z) (st : Hybrid.lookup_state) : Prop := {
  en_stored : stored g rows L st;
  en_rows : rows_at p hs g (block_size m) L rows;
  en_hit : hit_at p al hs g (block_size m) L;
  en_longest : L <= Hybrid.longest_hit_length st;
  en_max : no_eagle -> is_full (spec g) = true -> forall T, common T -> T <= L
}.
Record tables_ok (st : Hybrid.lookup_state) : Prop := {
  to_blocks : length (Hybrid.hit_blocks_by_group st) = length managers;
  to_lengths : length (Hybrid.hit_length_by_group st) = length managers;
  to_entries : forall g m, (g, m) ∈ gms -> unstored g st \/ exists rows L, entry g m rows L st
}.

(** The state while [done] of [gms] have been visited in a round that started
    at [H]. *)
Record visiting (H : Z) (done : list (SpecGroup * single)) (st : Hybrid.lookup_state) : Prop := {
  vi_tables : tables_ok st;
  vi_range : 0 <= Hybrid.curr_hit_length st <= H;
  vi_aligned : Hybrid.curr_hit_length st mod al = 0 \/ (done = [] /\ forall g m, (g, m) ∈ gms -> unstored g st);
  vi_done : forall g m, (g, m) ∈ done -> exists rows L, entry g m rows L st /\ Hybrid.curr_hit_length st <= L /\
    (is_full (spec g) = false -> L <= H);
  vi_last : forall g m, last done = Some (g, m) -> is_full (spec g) = false ->
    exists rows, entry g m rows (Hybrid.curr_hit_length st) st;
  vi_common : no_eagle -> forall T, common T -> T <= Hybrid.curr_hit_length st
}.

Lemma group_disjoint g m g' m' i :
  (g, m) ∈ gms -> (g', m') ∈ gms -> i ∈ group_ids g -> i ∈ group_ids g' -> g = g' /\ m = m'.
Proof.
  intros [a Ha]%list_elem_of_lookup [b Hb]%list_elem_of_lookup Hi Hi'.
  destruct (decide (a = b)) as [->|Hab]; [rewrite Ha in Hb; naive_solver|exfalso]. clear groups_ok max_ok.
  revert a b Ha Hb Hab ids_nodup. induction gms as [|[g0 m0] l IH]; intros a b Ha Hb Hab Hnd; [done|].
  simpl in Hnd. apply NoDup_app in Hnd as (_ & Hd & Hnd).
  assert (forall c h n, l !! c = Some (h, n) -> i ∈ group_ids h -> i ∈ concat (map group_ids l.*1)) as Hin.
  { intros c h n Hc%list_elem_of_lookup_2 Hih. by eapply elem_of_ids. }
  destruct a as [|a], b as [|b]; [done| | |].
  - simpl in Ha. simplify_eq. by eapply (Hd i), Hin.
  - simpl in Hb. simplify_eq. by eapply (Hd i), Hin.
  - eapply (IH a b); [exact Ha|exact Hb|lia|done].
Qed.

(** An entry survives what happens to the other groups. *)
Lemma entry_frame g m rows L st st' :
  entry g m rows L st -> Hybrid.longest_hit_length st <= Hybrid.longest_hit_length st' ->
  (forall i, i ∈ group_ids g -> Hybrid.hit_blocks_by_group st' !! i = Hybrid.hit_blocks_by_group st !! i /\
     Hybrid.hit_length_by_group st' !! i = Hybrid.hit_length_by_group st !! i) -> entry g m rows L st'.
Proof.
  intros [] Hl Hi. split; try done; [|lia]. intros k i Hk.
  destruct (Hi i) as [-> ->]; [by eapply list_elem_of_lookup_2|]. by apply en_stored0.
Qed.

Lemma first_entry g m rows L st first rest :
  group_ids g = first :: rest -> entry g m rows L st ->
  Hybrid.hit_blocks_by_group st !! first = Some (Some (column 0 rows)) /\ Hybrid.hit_length_by_group st !! first = Some L.
Proof. intros E []. apply (en_stored0 0%nat). by rewrite E. Qed.

(** A full-attention group that was looked up before. *)
Lemma cached_group_step H done g m todo st rows L :
  gms = done ++ (g, m) :: todo -> entry g m rows L st -> is_full (spec g) = true -> visiting H done st ->
  visiting H (done ++ [(g, m)]) (Hybrid.set_curr (Z.min (Hybrid.curr_hit_length st) L) st).
Proof.
  intros Eg He Hf [Ht Hr Ha Hd Hl Hc].
  assert (forall n g' m' rows' L', entry g' m' rows' L' st -> entry g' m' rows' L' (Hybrid.set_curr n st)) as Hkeep.
  { intros n g' m' rows' L' He'. eapply entry_frame; [exact He'|done|done]. }
  assert ((g, m) ∈ gms) as Hin by (rewrite Eg; set_solver).
  pose proof (ha_nonneg _ _ _ _ _ _ (en_hit _ _ _ _ _ He)). pose proof (ha_aligned _ _ _ _ _ _ (en_hit _ _ _ _ _ He)) as HLa.
  assert (Hybrid.curr_hit_length st mod al = 0) as Hca.
  { destruct Ha as [|[_ Hun]]; [done|]. destruct (go_first _ _ _ _ _ _ (groups_ok _ _ Hin)) as (first & rest & Ef & _).
    destruct (first_entry _ _ _ _ _ _ _ Ef He) as [E _]. rewrite (Hun g m Hin first) in E by (rewrite Ef; set_solver). done. }
  split; simpl.
  - destruct Ht. split; try done. intros g' m' Hg'. destruct (to_entries0 g' m' Hg') as [|(rows' & L' & He')]; [by left|right].
    exists rows', L'. by apply Hkeep.
  - lia.
  - left. destruct (Z.min_spec (Hybrid.curr_hit_length st) L) as [[_ ->]|[_ ->]]; done.
  - intros g' m' [Hg'|Hg']%elem_of_app.
    + destruct (Hd g' m' Hg') as (rows' & L' & He' & Hle & Hn). exists rows', L'. split_and!; [by apply Hkeep|lia|done].
    + apply list_elem_of_singleton in Hg'. simplify_eq. exists rows, L. split_and!; [by apply Hkeep|lia|congruence].
  - intros g' m' Hlast Hnf. rewrite last_snoc in Hlast. simplify_eq. congruence.
  - intros Hne T HT. pose proof (Hc Hne T HT). pose proof (en_max _ _ _ _ _ He Hne Hf T HT). lia.
Qed.

(** A fresh lookup. *)
Lemma lookup_step H done g m todo st rows L max_length (drop : bool) verified blocks lengths :
  gms = done ++ (g, m) :: todo -> visiting H done st ->
  max_length <= Hybrid.curr_hit_length st + (if drop then block_size m else 0) ->
  (no_eagle -> drop = false /\ max_length = Hybrid.curr_hit_length st) ->
  found_ok p al hs g (block_size m) max_length drop rows L ->
  Hybrid.store_hits (group_ids g) (by_group (length (group_ids g)) rows) L (Hybrid.hit_blocks_by_group st)
    (Hybrid.hit_length_by_group st) = Ok (blocks, lengths) ->
  visiting H (done ++ [(g, m)])
    (Hybrid.mkLookup L (Z.max (Hybrid.longest_hit_length st) L) blocks lengths verified).
Proof.
  intros Eg [Ht Hr Ha Hd Hl Hc] Hmax Hne (HL & Hdrop & Hrows & Hhit & Hmx) Es.
  assert ((g, m) ∈ gms) as Hin by (rewrite Eg; set_solver). pose proof (groups_ok _ _ Hin) as Hg.
  assert (NoDup (group_ids g)) as Hnd by (rewrite Eg in ids_nodup; by apply nodup_around in ids_nodup as [? _]).
  destruct Ht as [Hlb Hll Hent].
  destruct (store_hits_ok (group_ids g) (by_group (length (group_ids g)) rows) L (Hybrid.hit_blocks_by_group st)
    (Hybrid.hit_length_by_group st) Hnd
    ltac:(by rewrite by_group_length) ltac:(congruence) ltac:(intros i Hi; rewrite Hlb; by apply (go_bound _ _ _ _ _ _ Hg)))
    as (b' & l' & E & Hb' & Hl' & Hst & Hout). rewrite Es in E. simplify_eq.
  set (st' := Hybrid.mkLookup L (Z.max (Hybrid.longest_hit_length st) L) b' l' verified).
  assert (L <= Hybrid.curr_hit_length st) as HLc by (destruct drop; [destruct (Hdrop eq_refl); lia|lia]).
  assert (no_eagle -> forall T, common T -> T <= L) as HT.
  { intros Hno T HT. destruct (Hne Hno) as [-> ->]. apply Hmx; [done|by apply Hc|apply HT, Hin]. }
  assert (entry g m rows L st') as He.
  { split; try done; [|simpl; lia|by intros Hno _; apply HT]. intros k i Hk. pose proof (lookup_lt_Some _ _ _ Hk).
    apply (Hst k i); [done|by apply by_group_column]. }
  assert (forall g' m' rows' L', (g', m') ∈ gms -> (g', m') <> (g, m) -> entry g' m' rows' L' st -> entry g' m' rows' L' st') as Hkeep.
  { intros g' m' rows' L' Hg' Hneq He'. eapply entry_frame; [exact He'|simpl; lia|]. intros i Hi. apply Hout.
    intros Hi2. apply Hneq. destruct (group_disjoint g' m' g m i Hg' Hin Hi Hi2). congruence. }
  split; try change (Hybrid.curr_hit_length st') with L.
  - split; [simpl; congruence|simpl; congruence|]. intros g' m' Hg'. destruct (decide (g' = g)) as [->|Hneq].
    + right. destruct (go_first _ _ _ _ _ _ Hg) as (first & rest & Ef & _).
      destruct (group_disjoint g m' g m first Hg' Hin) as [_ ->]; [rewrite Ef; set_solver..|]. by eauto.
    + destruct (Hent g' m' Hg') as [Hun|(rows' & L' & He')]; [left|right; exists rows', L'; apply Hkeep; congruence].
      intros i Hi. change (b' !! i = Some None). destruct (Hout i) as [-> _]; [|by apply Hun]. intros Hi2.
      destruct (group_disjoint g' m' g m i Hg' Hin Hi Hi2). congruence.
  - lia.
  - left. apply Hhit.
  - intros g' m' Hg'. assert ((g', m') ∈ gms) as Hin' by (rewrite Eg; set_solver). destruct (decide (g' = g)) as [->|Hneq].
    + destruct (go_first _ _ _ _ _ _ Hg) as (first & rest & Ef & _).
      destruct (group_disjoint g m' g m first Hin' Hin) as [_ ->]; [rewrite Ef; set_solver..|].
      exists rows, L. split_and!; [done|lia|lia].
    + apply elem_of_app in Hg' as [Hg'|Hg']; [|apply list_elem_of_singleton in Hg'; congruence].
      destruct (Hd g' m' Hg') as (rows' & L' & He' & Hle & Hn).
      exists rows', L'. split_and!; [|lia|done]. apply Hkeep; [done|congruence|done].
  - intros g' m' Hlast _. rewrite last_snoc in Hlast. simplify_eq. by exists rows.
  - exact HT.
Qed.

Abbreviation step := (Hybrid.group_step p managers al false pcp hs).
Abbreviation pass := (Hybrid.group_pass p managers al false pcp hs).

Lemma group_step_ok H idx done g m todo st :
  gms = done ++ (g, m) :: todo -> H <= max0 -> visiting H done st ->
  exists st', step idx g st = Ok st' /\ visiting H (done ++ [(g, m)]) st'.
Proof.
  intros Eg HH Hv. assert ((g, m) ∈ gms) as Hin by (rewrite Eg; set_solver). pose proof (groups_ok _ _ Hin) as Hg.
  destruct (go_first _ _ _ _ _ _ Hg) as (first & rest & Ef & Em).
  destruct (vi_tables _ _ _ Hv) as [Hlb Hll Hent]. pose proof (vi_range _ _ _ Hv) as Hr.
  pose proof (lookup_lt_Some _ _ _ Em) as Hlt. unfold Hybrid.group_step.
  assert (py_get (group_ids g) 0 = Some first) as -> by (by rewrite Ef).
  cbn [or_raise obind]. rewrite py_get_nat, Em. cbn [or_raise obind]. rewrite py_get_nat.
  destruct (Hybrid.hit_blocks_by_group st !! first) as [cached|] eqn:Ec; [|apply lookup_ge_None in Ec; lia]. cbn [or_raise obind].
  destruct (is_full (spec g) && bool_decide (is_Some cached)) eqn:Ecase.
  - bools. assert (exists rows L, entry g m rows L st) as (rows & L & He).
    { destruct (Hent g m Hin) as [Hun|]; [|done]. rewrite (Hun first) in Ec by (rewrite Ef; set_solver).
      simplify_eq. destruct (is_Some_None ltac:(eassumption)). }
    destruct (first_entry _ _ _ _ _ _ _ Ef He) as [_ El]. rewrite py_get_nat, El. cbn [or_raise obind].
    eexists. split; [done|]. by eapply cached_group_step.
  - set (d := group_eagle g && negb (bool_decide (idx ∈ Hybrid.eagle_verified st))).
    set (ml := if d then _ else _). destruct (go_size _ _ _ _ _ _ Hg) as (Hb & Hbm & Hba).
    assert (0 <= ml /\ ml / hbs <= zlen hs /\ ml <= Hybrid.curr_hit_length st + (if d then block_size m else 0)) as (Hm0 & Hmh & Hmc).
    { assert (Hybrid.curr_hit_length st / hbs <= zlen hs) as Hch.
      { etrans; [|apply max_ok]. apply Z.div_le_mono; lia. }
      unfold ml, Hybrid.curr_hit_length, eagle_proof_margin in *. simpl. destruct d; [|lia]. split_and!; [lia| |lia].
      etrans; [apply (Z.div_le_mono _ (zlen hs * hbs)); lia|]. rewrite Z.div_mul; lia. }
    destruct (find_group_ok p managers al (SingleType.manager_pcp pcp m) hs sizes_ok g m ml d Hg Hm0 Hmh) as (rows & L & -> & Hfound).
    { unfold d. intros Hd. bools. done. }
    cbn [obind]. assert (NoDup (group_ids g)) as Hnd by (rewrite Eg in ids_nodup; by apply nodup_around in ids_nodup as [? _]).
    destruct (store_hits_ok (group_ids g) (by_group (length (group_ids g)) rows) L (Hybrid.hit_blocks_by_group st)
      (Hybrid.hit_length_by_group st) Hnd ltac:(by rewrite by_group_length) ltac:(congruence)
      ltac:(intros i Hi; rewrite Hlb; by apply (go_bound _ _ _ _ _ _ Hg))) as (b' & l' & Es & _).
    rewrite Es. cbn [obind]. eexists. split; [done|]. eapply (lookup_step H done g m todo st rows L ml d); try done.
    intros Hno. unfold ml. assert (d = false) as -> by (unfold d; by rewrite (Hno g m Hin)). done.
Qed.

Lemma group_pass_ok H idx done todo st :
  gms = done ++ todo -> H <= max0 -> visiting H done st ->
  exists st', pass idx todo.*1 st = Ok st' /\ visiting H gms st'.
Proof.
  intros Eg HH. revert idx done st Eg. induction todo as [|[g m] todo IH]; intros idx done st Eg Hv.
  { rewrite app_nil_r in Eg. exists st. split; [done|]. by rewrite Eg. }
  destruct (group_step_ok H idx done g m todo st Eg HH Hv) as (st1 & E1 & Hv1). simpl. rewrite E1. cbn [obind].
  eapply IH; [|exact Hv1]. by rewrite <- app_assoc.
Qed.

(** Between two rounds. *)
Record converging (H : Z) (st : Hybrid.lookup_state) : Prop := {
  cv_tables : tables_ok st;
  cv_range : 0 <= H <= max0;
  cv_aligned : H mod al = 0 \/ forall g m, (g, m) ∈ gms -> unstored g st;
  cv_common : no_eagle -> forall T, common T -> T <= H
}.
(** The result of the loop: every group has a hit of at least [H] tokens, the
    groups that cannot be cut have exactly that. *)
Record converged (H : Z) (st : Hybrid.lookup_state) : Prop := {
  cd_tables : tables_ok st;
  cd_range : 0 <= H <= max0;
  cd_aligned : H mod al = 0;
  cd_entries : forall g m, (g, m) ∈ gms -> exists rows L, entry g m rows L st /\ H <= L /\ (is_full (spec g) = false -> L = H);
  cd_common : no_eagle -> forall T, common T -> T <= H
}.

Lemma start_pass H st : converging H st -> visiting H [] (Hybrid.set_curr H st).
Proof.
  intros [[Hb Hl He] Hr Ha Hc]. split; simpl; try done; try lia.
  - split; try done. intros g m Hg. destruct (He g m Hg) as [|(rows & L & Hen)]; [by left|right]. exists rows, L.
    eapply entry_frame; [exact Hen|done|done].
  - destruct Ha as [|Hu]; [by left|right]. done.
  - intros g m Hg. by apply not_elem_of_nil in Hg.
Qed.

Hypothesis some_group : gms <> [].

Lemma visiting_aligned H st : visiting H gms st -> Hybrid.curr_hit_length st mod al = 0.
Proof. intros Hv. by destruct (vi_aligned _ _ _ Hv) as [|[? _]]. Qed.

Lemma pass_done H st : H <= max0 -> visiting H gms st -> H <= Hybrid.curr_hit_length st -> converged H st.
Proof.
  intros HH Hv Hle. pose proof (visiting_aligned _ _ Hv). pose proof (vi_range _ _ _ Hv).
  assert (Hybrid.curr_hit_length st = H) as E by lia. destruct Hv. rewrite E in *. split; try done; [lia|].
  intros g m Hg. destruct (vi_done0 g m Hg) as (rows & L & He & HL & Hn). exists rows, L. split_and!; [done|done|].
  intros Hf. specialize (Hn Hf). lia.
Qed.

Lemma pass_simple H st : H <= max0 -> Hybrid.is_simple_hybrid groups = true -> visiting H gms st ->
  converged (Hybrid.curr_hit_length st) st.
Proof.
  intros HH Hs Hv. pose proof (visiting_aligned _ _ Hv). pose proof (vi_range _ _ _ Hv). destruct Hv.
  split; try done; [lia|]. intros g m Hg. destruct (vi_done0 g m Hg) as (rows & L & He & HL & _).
  destruct (is_full (spec g)) eqn:Hf; [exists rows, L; done|].
  assert (last gms = Some (g, m)) as Hlast.
  { unfold Hybrid.is_simple_hybrid in Hs. destruct gms as [|[g0 m0] [|[g1 m1] []]]; try done. simpl in Hs.
    apply elem_of_cons in Hg as [Hg|Hg]; [simplify_eq; congruence|]. apply list_elem_of_singleton in Hg. by simplify_eq. }
  destruct (vi_last0 g m Hlast Hf) as (rows' & He'). exists rows', (Hybrid.curr_hit_length st). split_and!; [done|lia|done].
Qed.

Lemma hit_loop_ok fuel H st :
  (Z.to_nat H < fuel)%nat -> converging H st ->
  exists H' st', Hybrid.hit_loop p managers groups al false pcp hs fuel H st = Ok (H', st') /\ converged H' st'.
Proof.
  revert H st. induction fuel as [|fuel IH]; intros H st Hf Hc; [lia|]. cbn [Hybrid.hit_loop].
  pose proof (cv_range _ _ Hc) as Hr.
  destruct (group_pass_ok H 0 [] gms _ eq_refl ltac:(lia) (start_pass H st Hc)) as (st1 & -> & Hv). cbn [obind].
  pose proof (visiting_aligned _ _ Hv) as Ha. pose proof (vi_range _ _ _ Hv) as Hr1.
  destruct (_ >=? _) eqn:E; bools; [exists H, st1; split; [done|]; by apply pass_done; [lia| |]|].
  destruct (Hybrid.is_simple_hybrid groups) eqn:Es; [eexists _, st1; split; [done|]; by apply (pass_simple H); [lia| |]|].
  apply IH; [lia|]. destruct Hv. split; [done|lia|by left|done].
Qed.

(** ** Cutting the full-attention groups *)

Lemma truncate_ids_ok n ids (blocks : list (option (list nat))) :
  NoDup ids -> (forall i, i ∈ ids -> (i < length blocks)%nat) ->
  exists blocks', Hybrid.truncate_ids ids n blocks = Ok blocks' /\ length blocks' = length blocks /\
    (forall i b, i ∈ ids -> blocks !! i = Some (Some b) -> blocks' !! i = Some (Some (py_upto n b))) /\
    (forall i, i ∉ ids -> blocks' !! i = blocks !! i).
Proof.
  intros Hnd. revert blocks. induction Hnd as [|i ids Hi Hnd IH]; intros blocks Hr.
  { exists blocks. split_and!; [done|done|intros i b Hi; by apply not_elem_of_nil in Hi|done]. }
  cbn [Hybrid.truncate_ids]. rewrite py_get_nat. assert (i < length blocks)%nat as Hib by (apply Hr; set_solver).
  destruct (blocks !! i) as [o|] eqn:Eo; [|apply lookup_ge_None in Eo; lia]. cbn [or_raise obind].
  set (cut := match o with Some b => <[i := Some (py_upto n b)]> blocks | None => blocks end).
  assert ((match o with Some b => or_raise (py_set blocks (Z.of_nat i) (Some (py_upto n b))) IndexError | None => Ok blocks end)
    = Ok cut) as -> by (destruct o; [rewrite py_set_in, Nat2Z.id by lia|]; done). cbn [obind].
  assert (length cut = length blocks) as Hlc by (unfold cut; destruct o; [by rewrite length_insert|done]).
  assert (forall j, j <> i -> cut !! j = blocks !! j) as Hother.
  { intros j Hj. unfold cut. destruct o; [|done]. by rewrite list_lookup_insert_ne by done. }
  destruct (IH cut) as (b' & E & Hl & Hin & Hout); [intros j Hj; rewrite Hlc; apply Hr; set_solver|].
  exists b'. split_and!; [exact E|congruence| |].
  - intros j b Hj Hb. destruct (decide (j = i)) as [->|Hji].
    + rewrite Hout by done. rewrite Hb in Eo. simplify_eq. unfold cut. by rewrite list_lookup_insert_eq.
    + apply Hin; [set_solver|]. by rewrite Hother.
  - intros j Hj. rewrite Hout by set_solver. apply Hother. set_solver.
Qed.

Lemma truncate_full_ok H done todo (blocks0 blocks : list (option (list nat))) :
  gms = done ++ todo -> length blocks = length managers -> length blocks0 = length managers ->
  (forall g m i, (g, m) ∈ todo -> i ∈ group_ids g -> blocks !! i = blocks0 !! i) ->
  exists blocks', Hybrid.truncate_full managers H todo.*1 blocks = Ok blocks' /\ length blocks' = length managers /\
    (forall g m i b, (g, m) ∈ todo -> i ∈ group_ids g -> blocks0 !! i = Some (Some b) ->
       blocks' !! i = Some (Some (if is_full (spec g) then py_upto (cdiv H (block_size m)) b else b))) /\
    (forall g m i, (g, m) ∈ done -> i ∈ group_ids g -> blocks' !! i = blocks !! i).
Proof.
  revert done blocks. induction todo as [|[g m] todo IH]; intros done blocks Eg Hl Hl0 Hsame.
  { exists blocks. split_and!; [done|done|intros g m i b Hg; by apply not_elem_of_nil in Hg|done]. }
  assert ((g, m) ∈ gms) as Hin by (rewrite Eg; set_solver). pose proof (groups_ok _ _ Hin) as Hg.
  destruct (go_first _ _ _ _ _ _ Hg) as (first & rest & Ef & Em).
  assert (NoDup (group_ids g) /\ forall g' m' i, (g', m') ∈ done \/ (g', m') ∈ todo -> i ∈ group_ids g' -> i ∉ group_ids g)
    as [Hnd Hdis] by (rewrite Eg in ids_nodup; by eapply nodup_around).
  assert (exists blocks1, (if is_full (spec g) then Hybrid.truncate_ids (group_ids g) (cdiv H (block_size m)) blocks else Ok blocks) = Ok blocks1 /\
    length blocks1 = length blocks /\
    (forall i b, i ∈ group_ids g -> blocks !! i = Some (Some b) ->
       blocks1 !! i = Some (Some (if is_full (spec g) then py_upto (cdiv H (block_size m)) b else b))) /\
    (forall i, i ∉ group_ids g -> blocks1 !! i = blocks !! i)) as (blocks1 & E1 & Hl1 & Hi1 & Ho1).
  { destruct (is_full (spec g)); [|by exists blocks]. apply truncate_ids_ok; [done|].
    intros i Hi. rewrite Hl. by apply (go_bound _ _ _ _ _ _ Hg). }
  destruct (IH (done ++ [(g, m)]) blocks1) as (b' & E & Hlb & Hin' & Hout').
  { by rewrite <- app_assoc. }
  { congruence. }
  { done. }
  { intros g' m' i Hg' Hi. rewrite Ho1 by (eapply Hdis; [by right|done]). apply (Hsame g' m'); [set_solver|done]. }
  exists b'. split_and!; [|done| |].
  - cbn [fmap list_fmap fst Hybrid.truncate_full]. destruct (is_full (spec g)); [|simplify_eq; exact E].
    assert (py_get (group_ids g) 0 = Some first) as -> by (by rewrite Ef).
    cbn [or_raise obind]. rewrite py_get_nat, Em. cbn [or_raise obind]. rewrite E1. exact E.
  - intros g' m' i b Hg' Hi Hb. apply elem_of_cons in Hg' as [Hg'|Hg'].
    + simplify_eq. rewrite (Hout' g m i) by set_solver. apply Hi1; [done|].
      rewrite (Hsame g m i); [done|set_solver|done].
    + by eapply Hin'.
  - intros g' m' i Hg' Hi. rewrite (Hout' g' m' i) by set_solver. apply Ho1. eapply Hdis; [by left|done].
Qed.

Lemma column_cut k n (rows : list (list nat)) : column k (py_upto n rows) = py_upto n (column k rows).
Proof. unfold column, py_upto, slice_bound. rewrite length_map. by rewrite firstn_map. Qed.

(** A full-attention hit can be cut at any aligned length. *)
Lemma cut_full g bs H L rows :
  0 < bs -> is_full (spec g) = true -> 0 <= H <= L -> H mod bs = 0 ->
  rows_at p hs g bs L rows -> rows_at p hs g bs H (py_upto (cdiv H bs) rows).
Proof.
  intros Hb Hf HH Hm [Hl Hc]. apply Z.div_exact in Hm as Hd; [|lia].
  assert (H / bs <= L / bs) by (apply Z.div_le_mono; lia).
  assert (cdiv H bs = H / bs) as -> by (pose proof (cdiv_spec H bs Hb); nia).
  assert (0 <= H / bs) by (apply Z.div_pos; lia).
  assert (forall T, needed_from (spec g) bs T = 0) as En by (unfold needed_from, is_full in *; destruct (kind (spec g)); done).
  unfold py_upto. rewrite slice_bound_in by lia. split; [rewrite length_take; lia|].
  intros j [Hj1 Hj2]. rewrite En in Hj1. destruct (Hc j) as (row & Hr & Hrow).
  { split; [rewrite En; lia|lia]. }
  exists row. split; [by rewrite lookup_take_lt by lia|done].
Qed.

(** The blocks returned for the groups of one attention type. *)
Definition group_result (blocks : list (list nat)) (H : Z) (g : SpecGroup) (m : single) : Prop :=
  hit_at p al hs g (block_size m) H /\
  exists rows, rows_at p hs g (block_size m) H rows /\
    forall k i, group_ids g !! k = Some i -> blocks !! i = Some (column k rows).

Lemma truncated_result H st blocks :
  converged H st ->
  (forall g m i b, (g, m) ∈ gms -> i ∈ group_ids g -> Hybrid.hit_blocks_by_group st !! i = Some (Some b) ->
     blocks !! i = Some (Some (if is_full (spec g) then py_upto (cdiv H (block_size m)) b else b))) ->
  forall g m, (g, m) ∈ gms -> group_result (map (default []) blocks) H g m.
Proof.
  intros [Ht Hr Ha He Hc] Hb g m Hg. destruct (He g m Hg) as (rows & L & Hen & HL & Hn).
  destruct (go_size _ _ _ _ _ _ (groups_ok _ _ Hg)) as (Hb0 & _ & Hba).
  assert (H mod block_size m = 0) as Hm by (eapply (aligned_mod p al sizes_ok); done).
  set (rows' := if is_full (spec g) then py_upto (cdiv H (block_size m)) rows else rows).
  assert (rows_at p hs g (block_size m) H rows') as Hrows.
  { unfold rows'. destruct (is_full (spec g)) eqn:Ef; [eapply cut_full; [done|done| |done|apply Hen]; lia|].
    rewrite <- (Hn eq_refl). apply Hen. }
  split; [by eapply rows_hit; [lia| | |exact Hrows]|]. exists rows'. split; [done|]. intros k i Hk.
  apply list_lookup_fmap_Some. exists (Some (column k rows')). split; [done|].
  destruct (en_stored _ _ _ _ _ Hen k i Hk) as [Hst _].
  rewrite (Hb g m i _ Hg) by (done || by eapply list_elem_of_lookup_2). unfold rows'. do 2 f_equal.
  destruct (is_full (spec g)); [by rewrite column_cut|done].
Qed.

Lemma start_converging : converging max0
  (Hybrid.mkLookup max0 0 (replicate (length managers) None) (replicate (length managers) 0) ∅).
Proof.
  assert (forall g m, (g, m) ∈ gms ->
    unstored g (Hybrid.mkLookup max0 0 (replicate (length managers) None) (replicate (length managers) 0) ∅)) as Hu.
  { intros g m Hg i Hi. simpl. apply lookup_replicate_2. by apply (go_bound _ _ _ _ _ _ (groups_ok _ _ Hg)). }
  split; [split; simpl; [by rewrite length_replicate..|by left; eauto]|lia|by right|by intros _ T [? _]].
  Unshelve. all: done.
Qed.

Lemma find_longest_ok :
  exists blocks H extra, Hybrid.find_longest_cache_hit p managers groups al false pcp hs max0 = Ok (blocks, H, extra) /\
    0 <= H <= max0 /\ 0 <= extra /\ (forall g m, (g, m) ∈ gms -> group_result blocks H g m) /\
    (no_eagle -> forall T, common T -> T <= H).
Proof.
  unfold Hybrid.find_longest_cache_hit.
  destruct (hit_loop_ok (S (Z.to_nat max0)) max0 _ ltac:(lia) start_converging) as (H & st & -> & Hc). cbn [obind].
  destruct (truncate_full_ok H [] gms (Hybrid.hit_blocks_by_group st) (Hybrid.hit_blocks_by_group st) eq_refl)
    as (blocks & -> & _ & Hin & _); [apply Hc..|done|]. cbn [obind].
  eexists _, H, _. split; [done|]. split_and!; [apply Hc|apply Hc| | |apply Hc].
  - assert (exists g m, (g, m) ∈ gms) as (g & m & Hg) by (destruct gms as [|[g m] l]; [done|]; exists g, m; by left).
    destruct (cd_entries _ _ Hc g m Hg) as (rows & L & He & HL & _).
    pose proof (en_longest _ _ _ _ _ He). lia.
  - by apply (truncated_result H st).
Qed.
End loop.

(** * The grouping of the KV cache groups *)

Section split.
Context (specs : list KVCacheSpec) (eagles : gset nat).

Record member_ok (g : SpecGroup) : Prop := {
  mb_ids : group_ids g <> [];
  mb_spec : forall i, i ∈ group_ids g -> specs !! i = Some (spec g);
  mb_eagle : group_eagle g = true -> exists i, i ∈ group_ids g /\ i ∈ eagles
}.

Lemma join_ids s i e groups :
  concat (map group_ids (Hybrid.join_group s i e groups)) ≡ₚ i :: concat (map group_ids groups).
Proof.
  induction groups as [|g groups IH]; simpl; [done|]. case_bool_decide; simpl.
  - rewrite <- app_assoc. symmetry. apply Permutation_middle.
  - rewrite IH. symmetry. apply Permutation_middle.
Qed.

Lemma join_members s i groups :
  specs !! i = Some s -> Forall member_ok groups ->
  Forall member_ok (Hybrid.join_group s i (bool_decide (i ∈ eagles)) groups).
Proof.
  intros Hi. induction 1 as [|g groups Hg Hgs IH]; simpl.
  - repeat constructor; simpl; [done| |].
    + intros j Hj. apply list_elem_of_singleton in Hj. by subst j.
    + intros He. apply bool_decide_eq_true in He. exists i. set_solver.
  - destruct (bool_decide (spec g = s)) eqn:Hs; bools; [|by constructor]. constructor; [|done]. destruct Hg as [Hn Hsp He]. split; simpl.
    + destruct (group_ids g); done.
    + intros j [Hj|Hj]%elem_of_app; [by apply Hsp|]. apply list_elem_of_singleton in Hj. congruence.
    + intros [Hb|Hb]%orb_true_iff; [destruct (He Hb) as (j & ? & ?); exists j; set_solver|].
      apply bool_decide_eq_true in Hb. exists i. set_solver.
Qed.

Lemma split_from_ok i rest groups :
  drop i specs = rest -> Forall member_ok groups -> concat (map group_ids groups) ≡ₚ seq 0 i -> (i <= length specs)%nat ->
  let groups' := Hybrid.split_from i rest eagles groups in
  Forall member_ok groups' /\ concat (map group_ids groups') ≡ₚ seq 0 (length specs).
Proof.
  revert i groups. induction rest as [|s rest IH]; intros i groups Hd Hm Hp Hle; simpl.
  - assert (i = length specs) as -> by (apply (f_equal length) in Hd; rewrite length_drop in Hd; simpl in Hd; lia). done.
  - assert (specs !! i = Some s) as Hs by (rewrite <- (Nat.add_0_r i), <- lookup_drop, Hd; done).
    apply IH; [|by apply join_members| |by apply lookup_lt_Some in Hs].
    + rewrite <- Nat.add_1_r, <- drop_drop, Hd. done.
    + rewrite join_ids, Hp. rewrite seq_S. simpl. apply Permutation_cons_append.
Qed.

Lemma full_first (groups : list SpecGroup) :
  filter (fun g => is_full (spec g) = true) groups ++ filter (fun g => is_full (spec g) = false) groups ≡ₚ groups.
Proof.
  induction groups as [|g groups IH]; [done|]. rewrite !filter_cons. destruct (is_full (spec g)) eqn:E.
  - rewrite decide_True, decide_False by congruence. simpl. by rewrite IH.
  - rewrite decide_False, decide_True by congruence. rewrite <- Permutation_middle. by rewrite IH.
Qed.

Lemma verify_and_split_ok :
  specs <> [] ->
  exists groups, Hybrid.verify_and_split_kv_cache_groups specs eagles = Ok groups /\ groups <> [] /\
    Forall member_ok groups /\ concat (map group_ids groups) ≡ₚ seq 0 (length specs).
Proof.
  intros Hne. unfold Hybrid.verify_and_split_kv_cache_groups.
  destruct (split_from_ok 0 specs [] eq_refl ltac:(constructor) ltac:(done) ltac:(lia)) as [Hm Hp].
  set (gs := Hybrid.split_from 0 specs eagles []) in *.
  assert (gs <> []) as Hgs.
  { intros E. rewrite E in Hp. simpl in Hp. apply Permutation_nil_l in Hp. destruct specs; [done|]. simpl in Hp. done. }
  pose proof (full_first gs) as Hperm. destruct gs as [|g gs'] eqn:E; [done|]. eexists. split; [done|]. split_and!.
  - intros E0. rewrite E0 in Hperm. by apply Permutation_nil_l in Hperm.
  - by rewrite Hperm.
  - by rewrite Hperm.
Qed.
End split.

(** * The lookup of a hybrid model *)

Section hybrid.
Context (p : BlockPool) (ms : list single) (eagles : gset nat) (al pcp : Z) (hs : list bytes) (max0 : Z).

(** A group is looked up with the configuration of its first member. *)
Definition leader (g : SpecGroup) (m : single) : Prop :=
  exists first rest, group_ids g = first :: rest /\ ms !! first = Some m.

Definition manager_fits (i : nat) (m : single) : Prop :=
  (0 < block_size m /\ block_size m mod hash_block_size p = 0 /\ al mod block_size m = 0) /\
  match kind (kv_cache_spec m) with
  | FullAttention | RSWA _ => block_size m = group_block_size (kv_cache_spec m) (dcp_world_size m)
  | SlidingWindow w _ => block_size m = spec_block_size (kv_cache_spec m) /\ dcp_world_size m = 1 /\ SingleType.manager_pcp pcp m = 1 /\ 1 < w
  | ChunkedLocalAttention c => block_size m = spec_block_size (kv_cache_spec m) /\ dcp_world_size m = 1 /\ SingleType.manager_pcp pcp m = 1 /\
      0 < c /\ c mod block_size m = 0 /\ al = block_size m /\ i ∉ eagles
  end.
(** The configuration of the coordinator and the arguments of a lookup; the
    hashes reach as far as the lookup. *)
Record hybrid_args : Prop := {
  hy_cache : cache_inv p;
  hy_sizes : 0 < hash_block_size p /\ 0 < al;
  hy_groups : ms <> [] /\ zlen ms <= 2 ^ 32;
  hy_managers : forall i m, ms !! i = Some m -> manager_fits i m;
  hy_max : 0 <= max0 /\ max0 / hash_block_size p <= zlen hs
}.

Lemma leaders groups :
  Forall (member_ok (map kv_cache_spec ms) eagles) groups ->
  exists gms, gms.*1 = groups /\ forall g m, (g, m) ∈ gms -> g ∈ groups /\ leader g m.
Proof.
  induction 1 as [|g groups Hg Hgs (gms & E & IH)]; [exists []; split; [done|]; intros g m Hg; by apply not_elem_of_nil in Hg|].
  destruct (group_ids g) as [|first rest] eqn:Ei; [by destruct (mb_ids _ _ _ Hg)|].
  pose proof (mb_spec _ _ _ Hg first ltac:(rewrite Ei; set_solver)) as Hs.
  apply list_lookup_fmap_Some in Hs as (m & _ & Hm). exists ((g, m) :: gms). split; [by rewrite <- E|].
  intros g' m' Hg'. apply elem_of_cons in Hg' as [Hg'|Hg'].
  - simplify_eq. split; [by left|]. by exists first, rest.
  - destruct (IH g' m' Hg'). split; [by right|done].
Qed.

Lemma leader_ok groups g m :
  hybrid_args -> Forall (member_ok (map kv_cache_spec ms) eagles) groups ->
  concat (map group_ids groups) ≡ₚ seq 0 (length ms) -> g ∈ groups -> leader g m -> group_ok p ms al (SingleType.manager_pcp pcp m) g m.
Proof.
  intros [Hc Hs [_ Hl] Hm _] Hmb Hp Hg Hlead. rewrite Forall_forall in Hmb. destruct (Hmb g Hg) as [Hne Hspec He].
  destruct Hlead as (first & rest & Ei & Em).
  assert (forall i, i ∈ group_ids g -> (i < length ms)%nat) as Hb.
  { intros i Hi. apply Hspec, lookup_lt_Some in Hi. by rewrite length_map in Hi. }
  assert (kv_cache_spec m = spec g) as Esp.
  { pose proof (Hspec first ltac:(rewrite Ei; set_solver)) as H. rewrite list_lookup_fmap, Em in H. simpl in H. congruence. }
  destruct (Hm first m Em) as [Hsz Hk]. rewrite Esp in Hk. split.
  - by exists first, rest.
  - done.
  - split; [done|rewrite Ei; done|]. intros z Hz. apply list_elem_of_fmap in Hz as (i & -> & Hi). specialize (Hb i Hi). lia.
  - done.
  - destruct (kind (spec g)) as [|w e|c|w] eqn:Ek; try done. destruct Hk as (? & ? & ? & ? & ? & ? & _). split_and!; try done.
    destruct (group_eagle g) eqn:Eg; [|done]. destruct (He eq_refl) as (i & Hi & Hie).
    pose proof (Hspec i Hi) as Hsi. apply list_lookup_fmap_Some in Hsi as (mi & Emi & Hmi).
    destruct (Hm i mi Hmi) as [_ Hki]. rewrite <- Emi, Ek in Hki. destruct Hki as (_ & _ & _ & _ & _ & _ & Hno). done.
Qed.

(** The fixed point exists and is the longest common hit. *)
Lemma hybrid_lookup_ok :
  hybrid_args ->
  exists groups blocks H extra,
    Hybrid.verify_and_split_kv_cache_groups (map kv_cache_spec ms) eagles = Ok groups /\
    Hybrid.find_longest_cache_hit p ms groups al false pcp hs max0 = Ok (blocks, H, extra) /\
    0 <= H <= max0 /\ 0 <= extra /\
    (forall i m, ms !! i = Some m -> exists g m', g ∈ groups /\ i ∈ group_ids g /\ spec g = kv_cache_spec m /\
       leader g m' /\ group_result p al hs blocks H g m') /\
    (eagles = ∅ -> forall T, T <= max0 ->
       (forall g m, g ∈ groups -> leader g m -> hit_at p al hs g (block_size m) T) -> T <= H).
Proof.
  intros Ha. destruct (verify_and_split_ok (map kv_cache_spec ms) eagles) as (groups & E & Hne & Hmb & Hperm).
  { destruct (hy_groups Ha) as [Hms _]. by destruct ms. }
  rewrite length_map in Hperm. destruct (leaders groups Hmb) as (gms & Eg & Hgms).
  assert (forall g m, (g, m) ∈ gms -> group_ok p ms al (SingleType.manager_pcp pcp m) g m) as Hok.
  { intros g m Hg. destruct (Hgms g m Hg). by eapply leader_ok. }
  assert (NoDup (concat (map group_ids gms.*1))) as Hnd by (rewrite Eg, Hperm; apply NoDup_seq).
  destruct (find_longest_ok p ms al pcp hs gms max0 (hy_sizes Ha) (hy_max Ha) Hok Hnd) as (blocks & H & extra & Ef & HH & Hx & Hres & Hmx).
  { intros ->. by rewrite <- Eg in Hne. }
  rewrite Eg in Ef. exists groups, blocks, H, extra. split_and!; try done; try lia.
  - intros i m Hi. assert (i ∈ concat (map group_ids groups)) as Hin.
    { rewrite Hperm, elem_of_seq. apply lookup_lt_Some in Hi. lia. }
    assert (exists g m', (g, m') ∈ gms /\ i ∈ group_ids g) as (g & m' & Hg & Hig).
    { rewrite <- Eg in Hin. clear - Hin. induction gms as [|[g m'] l IH]; simpl in Hin; [by apply not_elem_of_nil in Hin|].
      apply elem_of_app in Hin as [|Hin]; [exists g, m'; split; [by left|done]|].
      destruct (IH Hin) as (h & n & ? & ?). exists h, n. split; [by right|done]. }
    destruct (Hgms g m' Hg) as [Hgg Hl]. exists g, m'. split_and!; try done; [|by apply Hres].
    rewrite Forall_forall in Hmb. pose proof (mb_spec _ _ _ (Hmb g Hgg) i Hig) as Hs.
    rewrite list_lookup_fmap, Hi in Hs. simpl in Hs. congruence.
  - intros Hno T HT Hall. apply Hmx.
    + intros g m Hg. destruct (group_eagle g) eqn:Ee; [|done]. rewrite Forall_forall in Hmb.
      destruct (mb_eagle _ _ _ (Hmb g (proj1 (Hgms g m Hg))) Ee) as (i & _ & Hi). rewrite Hno in Hi. set_solver.
    + split; [done|]. intros g m Hg. destruct (Hgms g m Hg). by apply Hall.
Qed.

(** C11: hybrid lookup.  Take any number of groups of full, RSWA, sliding-window
    and chunked-local attention on a consistent pool, where every group's block
    size (scaled by its own context parallelism) is a multiple of the hash
    granularity and divides the alignment; windows are wider than one token;
    windows and chunks are not sharded by context parallelism; and a chunked-local
    group has no EAGLE, chunks of whole blocks and the alignment as its block
    size.  Sub-block hits are off: the coordinator only enables them for models
    with Mamba layers.  Then the fixed-point search returns within the number of
    rounds bounded by the maximal length; the returned length is one at which
    every group can resume, and every group gets exactly the cached blocks it
    needs there.  Without EAGLE no longer length would do: the result is the
    longest prefix on which all groups agree. *)
Theorem hybrid_longest_common_hit :
  hybrid_args ->
  exists groups blocks H extra,
    Hybrid.verify_and_split_kv_cache_groups (map kv_cache_spec ms) eagles = Ok groups /\
    Hybrid.find_longest_cache_hit p ms groups al false pcp hs max0 = Ok (blocks, H, extra) /\
    0 <= H <= max0 /\ 0 <= extra /\
    (forall i m, ms !! i = Some m -> exists g m', g ∈ groups /\ i ∈ group_ids g /\ spec g = kv_cache_spec m /\
       leader g m' /\ group_result p al hs blocks H g m') /\
    (eagles = ∅ -> forall T, T <= max0 ->
       (forall g m, g ∈ groups -> leader g m -> hit_at p al hs g (block_size m) T) -> T <= H).
Proof. exact hybrid_lookup_ok. Qed.
End hybrid.

(** A full-attention group and a sliding-window group on one pool; each has one
    block cached for the hash of the demo request. *)
Definition demo_hybrid_pool : BlockPool :=
  match demo_request with
  | Some r => (run_op false (fun b => b) (OCachePartial r 2%nat 2 1 4 false) demo_hit).2
  | None => demo_hit
  end.
Definition demo_hybrid_groups : list single :=
  [SingleType.init demo_full_spec 1 2 0 true false None;
   SingleType.init (demo_spec 2 (SlidingWindow 2 0)) 1 2 1 true false None].

Lemma demo_hybrid_args : hybrid_args demo_hybrid_pool demo_hybrid_groups ∅ 2 1 [demo_hash; [Byte.x02]] 5.
Proof.
  assert (cache_inv demo_hybrid_pool) as Hc.
  { destruct demo_request_ok as (r & Er & Hr & Hh). unfold demo_hybrid_pool. rewrite Er.
    destruct (run_op false (fun b => b) (OCachePartial r 2%nat 2 1 4 false) demo_hit) as [o p'] eqn:E.
    assert (reachable false (fun b => b) p') as Hreach.
    { eapply reach_step; [exact demo_hit_reachable| |exact E]. split; [exact Hr|]. rewrite Hh.
      split_and!; vm_compute; congruence. }
    destruct (pool_reachable_inv _ _ _ Hreach) as [free Hi]. apply Hi. }
  split; [exact Hc|vm_compute; split; reflexivity|split; [done|vm_compute; intros H; discriminate H]| |].
  - intros [|[|i]] m H; simplify_eq/=; (split; [split_and!; vm_compute; reflexivity|]); vm_compute; auto.
  - vm_compute. split; intros H; discriminate H.
Qed.

Lemma hybrid_longest_common_hit_witness :
  Hybrid.find_longest_cache_hit demo_hybrid_pool demo_hybrid_groups
    [mkGroup demo_full_spec [0%nat] false; mkGroup (demo_spec 2 (SlidingWindow 2 0)) [1%nat] false]
    2 false 1 [demo_hash; [Byte.x02]] 5 = Ok ([[1%nat]; [2%nat]], 2, 0) /\
  exists groups blocks H extra,
    Hybrid.verify_and_split_kv_cache_groups (map kv_cache_spec demo_hybrid_groups) ∅ = Ok groups /\
    Hybrid.find_longest_cache_hit demo_hybrid_pool demo_hybrid_groups groups 2 false 1 [demo_hash; [Byte.x02]] 5 =
      Ok (blocks, H, extra) /\ 0 <= H <= 5.
Proof.
  split; [vm_compute; reflexivity|].
  destruct (hybrid_longest_common_hit demo_hybrid_pool demo_hybrid_groups ∅ 2 1 [demo_hash; [Byte.x02]] 5 demo_hybrid_args)
    as (groups & blocks & H & extra & Es & Ef & HH & _).
  exists groups, blocks, H, extra. split; [exact Es|]. split; [exact Ef|exact HH].
Defined.
