(* ===== verification/FoundBlocks.v ===== *)
(** Every block a prefix lookup returns is the null block or registered in the
    index: a property of all lookups that does not depend on what they search
    for. *)
From Stdlib Require Import ZArith Lia Strings.String.
From stdpp Require Import base numbers list gmap strings.
From S2P Require Import Prelude BlockQueue Request BlockHash HashMap BlockPool PoolOps PoolCache PoolSafety CacheHit.
From S2P Require Import SingleTypeManager TableSafety TableReach Coordinator HybridHit.
Import Pool.
Open Scope Z_scope.
Local Arguments py_get : simpl never.
Local Arguments Z.of_nat : simpl never.

Section found.
Context (p : BlockPool) (Q : nat -> Prop).
Hypothesis Q_null : Q (null_block p).

Definition all_found (computed : list (list nat)) : Prop := Forall (Forall Q) computed.

Lemma found_append computed cached : all_found computed -> Forall Q cached -> all_found (append_each computed cached).
Proof.
  intros Hc. revert cached. induction Hc as [|l computed Hl Hc IH]; intros [|c cached] Hq; simpl; try by constructor.
  inversion Hq; subst. constructor; [|by apply IH]. apply Forall_app. by split; [|constructor].
Qed.
Lemma found_set i computed cached : all_found computed -> Forall Q cached -> all_found (set_each i computed cached).
Proof.
  intros Hc. revert cached. induction Hc as [|l computed Hl Hc IH]; intros [|c cached] Hq; simpl; try by constructor.
  inversion Hq; subst. constructor; [by apply Forall_insert|by apply IH].
Qed.
Lemma found_upto n l : Forall Q l -> Forall Q (py_upto n l).
Proof. apply Forall_take. Qed.
Lemma found_trim n computed : all_found computed -> all_found (map (py_upto n) computed).
Proof. intros H. apply Forall_map. eapply Forall_impl; [exact H|]. intros l. apply found_upto. Qed.
Lemma found_start {A} (gs : list A) n : all_found (map (fun _ => replicate n (null_block p)) gs).
Proof. apply Forall_map, Forall_forall. intros g _. by apply Forall_replicate. Qed.

Section lookup.
Context (gs : list Z).
(** The probes of the lookup return blocks that satisfy [Q]. *)
Hypothesis Q_probe : forall h cached, probe p gs h = Ok (Some cached) -> Forall Q cached.

Lemma full_run_found hashes computed res : full_run p gs hashes computed = Ok res -> all_found computed -> all_found res.
Proof.
  revert computed. induction hashes as [|h hashes IH]; intros computed E Hc; simpl in E; [by simplify_eq|].
  destruct (probe p gs h) as [[cached|]|] eqn:Ep; simplify_eq/=; [|done]. eapply IH; [exact E|]. by eapply found_append, Q_probe.
Qed.
Lemma boundaries_found hashes idxs i cached : probe_boundaries p gs hashes idxs = Ok (Some (i, cached)) -> Forall Q cached.
Proof.
  induction idxs as [|j idxs IH]; simpl; [done|]. destruct (or_raise (py_get hashes j) IndexError) as [h|]; [|done]. simpl.
  destruct (probe p gs h) as [[c|]|] eqn:Ep; simpl; [|done..]. intros [= <- <-]. by eapply Q_probe.
Qed.

Lemma full_hit_found hl max_length spec eagle al dcp blocks L :
  full_attention_hit p gs hl max_length spec eagle al dcp = Ok (blocks, L) -> all_found blocks.
Proof.
  unfold full_attention_hit. intros E. set (bs := if dcp >? 1 then spec_block_size spec * dcp else spec_block_size spec) in E.
  assert (full_attention_search p gs hl max_length bs eagle al = Ok (blocks, L)) as E' by (destruct (kind spec); done).
  clear E. unfold full_attention_search in E'. destruct (resolve_block_hashes _ _ _ _ _) as [hashes|]; [|done]. cbn [obind] in E'.
  match type of E' with context [obind ?a _] => destruct a as [full|]; [|done] end. cbn [obind] in E'.
  destruct (hl_from full 0) as [fl|]; [|done]. cbn [obind] in E'.
  destruct (full_run _ _ _ _) as [computed|] eqn:Er; [|done]. cbn [obind] in E'.
  assert (all_found computed) as Hc by (eapply full_run_found; [exact Er|]; by apply Forall_map, Forall_forall).
  destruct (first_len computed) as [nf|]; [|done]. cbn [obind] in E'.
  match type of E' with context [obind ?a _] => destruct a as [found|] eqn:Ef; [|done] end. cbn [obind] in E'.
  destruct found as [[i cached]|]; injection E' as <- _; apply found_trim; [|done].
  apply found_append; [done|]. destruct hashes as [hs|]; [|done]. destruct (_ && _); [|done]. by eapply boundaries_found.
Qed.

Lemma window_search_found hl bs al need drop idxs : forall computed n b res n',
  window_search p gs hl bs al need drop idxs computed n = Ok (b, res, n') -> all_found computed -> all_found res.
Proof.
  induction idxs as [|i idxs IH]; intros computed n b res n' E Hc; simpl in E; [by simplify_eq|].
  destruct (or_raise _ _) as [h|]; [|done]. simpl in E. destruct (probe p gs h) as [[cached|]|] eqn:Ep; simpl in E; [|by eapply IH|done].
  destruct (_ && _); [by eapply IH|]. assert (all_found (set_each i computed cached)) as Hs by (by eapply found_set, Q_probe).
  destruct (_ >=? _); [simplify_eq; by apply found_trim|by eapply IH].
Qed.
Lemma pop_found fuel bs al : forall computed res, pop_to_aligned fuel bs al computed = Ok res -> all_found computed -> all_found res.
Proof.
  induction fuel as [|fuel IH]; intros computed res E Hc; simpl in E; destruct (first_len computed) as [n|]; try done; simpl in E;
    destruct (_ && _); simplify_eq; try done. eapply IH; [exact E|by apply found_trim].
Qed.

Lemma window_hit_found hl max_length spec eagle al dcp pcp blocks L :
  sliding_window_hit p gs hl max_length spec eagle al dcp pcp = Ok (blocks, L) -> all_found blocks.
Proof.
  unfold sliding_window_hit. destruct (kind spec); try done. destruct (_ || _); [done|].
  destruct (resolve_block_hashes _ _ _ _ _) as [hashes|]; [|done]. cbn [obind].
  destruct (window_search _ _ _ _ _ _ _ _ _ _) as [[[found computed] n]|] eqn:Es; [|done]. cbn [obind].
  pose proof (window_search_found _ _ _ _ _ _ _ _ _ _ _ Es (found_start _ _)) as Hc.
  match goal with |- context [obind ?a _] => destruct a as [c1|] eqn:E1; [|done] end. cbn [obind].
  assert (all_found c1) as H1.
  { destruct found; [by simplify_eq|]. eapply pop_found; [exact E1|by apply found_trim]. }
  destruct (first_len c1) as [n1|]; [|done]. cbn [obind].
  match goal with |- context [obind ?a _] => destruct a as [c2|] eqn:E2; [|done] end. cbn [obind].
  destruct (first_len c2) as [n2|]; [|done]. intros [= <- _].
  destruct (eagle && _); [|by simplify_eq]. eapply pop_found; [exact E2|by apply found_trim].
Qed.

Lemma chunk_run_found hl idxs : forall computed res, chunk_run p gs hl idxs computed = Ok res -> all_found computed -> all_found res.
Proof.
  induction idxs as [|i idxs IH]; intros computed res E Hc; simpl in E; [by simplify_eq|].
  destruct (or_raise _ _) as [h|]; [|done]. simpl in E. destruct (probe p gs h) as [[cached|]|] eqn:Ep; simplify_eq/=; [|done].
  eapply IH; [exact E|]. by eapply found_append, Q_probe.
Qed.
Lemma chunked_hit_found hl max_length spec eagle al dcp pcp blocks L :
  chunked_local_hit p gs hl max_length spec eagle al dcp pcp = Ok (blocks, L) -> all_found blocks.
Proof.
  unfold chunked_local_hit. destruct (kind spec); try done. destruct (_ || _); [done|].
  destruct (resolve_block_hashes _ _ _ _ _) as [hashes|]; [|done]. cbn [obind].
  destruct (chunk_run _ _ _ _ _) as [c|] eqn:Ec; [|done]. cbn [obind]. destruct (first_len c) as [n|]; [|done]. intros [= <- _].
  eapply chunk_run_found; [exact Ec|apply found_start].
Qed.
End lookup.

(** ** All attention types of a hybrid model *)

Definition entry_found (o : option (list nat)) : Prop := match o with Some b => Forall Q b | None => True end.
Definition blocks_found (n : nat) (l : list (option (list nat))) : Prop := length l = n /\ Forall entry_found l.

Lemma py_set_found n (l l' : list (option (list nat))) i v :
  or_raise (py_set l i v) IndexError = Ok l' -> entry_found v -> blocks_found n l -> blocks_found n l'.
Proof.
  unfold py_set. destruct (_ || _); [done|]. intros [= <-] Hv [Hn Hl]. split; [by rewrite length_insert|by apply Forall_insert].
Qed.

Lemma store_found n ids : forall cols L blocks lengths res,
  Hybrid.store_hits ids cols L blocks lengths = Ok res -> all_found cols -> blocks_found n blocks -> blocks_found n res.1.
Proof.
  induction ids as [|i ids IH]; intros cols L blocks lengths res E Hc Hb; simpl in E; [by simplify_eq|].
  destruct cols as [|b cols]; [by simplify_eq|]. inversion Hc; subst.
  destruct (or_raise (py_set blocks _ _) _) as [b1|] eqn:E1; [|done]. cbn [obind] in E.
  destruct (or_raise (py_set lengths _ _) _) as [l1|]; [|done]. cbn [obind] in E.
  eapply IH; [exact E|done|]. by eapply py_set_found.
Qed.

Section hybrid.
Context (managers : list single) (groups : list SpecGroup) (al : Z) (partial : bool) (pcp : Z) (hs : list bytes) (n : nat).
Hypothesis Q_probe : forall g h cached, g ∈ groups -> probe p (map Z.of_nat (group_ids g)) h = Ok (Some cached) -> Forall Q cached.
Abbreviation state_found st := (blocks_found n (Hybrid.hit_blocks_by_group st)).

Lemma find_group_found q g m max_length drop res :
  g ∈ groups -> Hybrid.find_group p al q hs g m max_length drop = Ok res -> all_found res.1.
Proof.
  intros Hg. destruct res as [blocks L]. unfold Hybrid.find_group. pose proof (Q_probe g) as Hp.
  destruct (kind (spec g)); [apply full_hit_found|apply window_hit_found|apply chunked_hit_found|apply full_hit_found]; eauto.
Qed.

Lemma group_step_found idx g st st' :
  g ∈ groups -> Hybrid.group_step p managers al partial pcp hs idx g st = Ok st' -> state_found st -> state_found st'.
Proof.
  intros Hg E Hst. unfold Hybrid.group_step in E. destruct (or_raise (py_get (group_ids g) 0) _) as [f|]; [|done]. cbn [obind] in E.
  destruct (or_raise (py_get managers _) _) as [m|]; [|done]. cbn [obind] in E.
  destruct (or_raise (py_get (Hybrid.hit_blocks_by_group st) _) _) as [cb|]; [|done]. cbn [obind] in E.
  destruct (is_full (spec g) && _).
  { destruct (or_raise (py_get (Hybrid.hit_length_by_group st) _) _) as [len|]; [|done]. by simplify_eq/=. }
  match type of E with obind ?a _ = _ => destruct a as [[hb L]|] eqn:Ef; [|done] end. cbn [obind] in E.
  destruct (Hybrid.store_hits _ _ _ _ _) as [stored|] eqn:Es; [|done]. simplify_eq/=.
  eapply store_found; [exact Es|exact (find_group_found _ _ _ _ _ _ Hg Ef)|done].
Qed.

Lemma group_pass_found gs : forall idx st st',
  (forall g, g ∈ gs -> g ∈ groups) -> Hybrid.group_pass p managers al partial pcp hs idx gs st = Ok st' -> state_found st -> state_found st'.
Proof.
  induction gs as [|g gs IH]; intros idx st st' Hg E Hst; simpl in E; [by simplify_eq|].
  destruct (Hybrid.group_step _ _ _ _ _ _ _ _ _) as [st1|] eqn:E1; [|done]. cbn [obind] in E.
  eapply IH; [|exact E|]; [intros; apply Hg; by right|]. eapply group_step_found; [|exact E1|done]. apply Hg. by left.
Qed.

Lemma hit_loop_found fuel : forall H st H' st',
  Hybrid.hit_loop p managers groups al partial pcp hs fuel H st = Ok (H', st') -> state_found st -> state_found st'.
Proof.
  induction fuel as [|fuel IH]; intros H st H' st' E Hst; simpl in E; [done|].
  destruct (Hybrid.group_pass _ _ _ _ _ _ _ _ _) as [st1|] eqn:E1; [|done]. cbn [obind] in E.
  assert (state_found st1) as H1 by (eapply group_pass_found; [|exact E1|done]; done).
  destruct (_ >=? _); [by simplify_eq|]. destruct (Hybrid.is_simple_hybrid _); [by simplify_eq|]. by eapply IH.
Qed.

Lemma truncate_ids_found ids num : forall blocks res,
  Hybrid.truncate_ids ids num blocks = Ok res -> blocks_found n blocks -> blocks_found n res.
Proof.
  induction ids as [|i ids IH]; intros blocks res E Hb; simpl in E; [by simplify_eq|].
  destruct (or_raise (py_get blocks _) _) as [[b|]|] eqn:Eb; cbn [obind] in E; [|by eapply IH|done].
  destruct (or_raise (py_set _ _ _) _) as [b1|] eqn:E1; [|done]. cbn [obind] in E. eapply IH; [exact E|].
  eapply py_set_found; [exact E1| |done]. apply found_upto.
  unfold or_raise in Eb. destruct (py_get blocks _) as [o|] eqn:Ep; [|done]. simplify_eq.
  rewrite py_get_nat in Ep. destruct Hb as [_ Hb]. rewrite Forall_lookup in Hb. exact (Hb _ _ Ep).
Qed.
Lemma truncate_full_found H gs : forall blocks res,
  Hybrid.truncate_full managers H gs blocks = Ok res -> blocks_found n blocks -> blocks_found n res.
Proof.
  induction gs as [|g gs IH]; intros blocks res E Hb; simpl in E; [by simplify_eq|].
  destruct (is_full (spec g)); [|by eapply IH]. destruct (or_raise (py_get (group_ids g) 0) _) as [f|]; [|done]. cbn [obind] in E.
  destruct (or_raise (py_get managers _) _) as [m|]; [|done]. cbn [obind] in E.
  destruct (Hybrid.truncate_ids _ _ _) as [b1|] eqn:E1; [|done]. cbn [obind] in E. eapply IH; [exact E|]. by eapply truncate_ids_found.
Qed.

End hybrid.

Lemma hybrid_found managers groups al partial pcp hs max0 blocks H extra :
  (forall g h cached, g ∈ groups -> probe p (map Z.of_nat (group_ids g)) h = Ok (Some cached) -> Forall Q cached) ->
  Hybrid.find_longest_cache_hit p managers groups al partial pcp hs max0 = Ok (blocks, H, extra) ->
  all_found blocks /\ length blocks = length managers.
Proof.
  intros Hq. unfold Hybrid.find_longest_cache_hit. destruct (Hybrid.hit_loop _ _ _ _ _ _ _ _ _ _) as [[H1 st]|] eqn:El; [|done]. cbn [obind].
  destruct (Hybrid.truncate_full _ _ _ _) as [b|] eqn:Et; [|done]. intros [= <- _ _].
  assert (blocks_found (length managers) b) as [Hn Hb].
  { eapply truncate_full_found; [exact Et|]. eapply hit_loop_found; [exact Hq|exact El|].
    split; [apply length_replicate|by apply Forall_replicate]. }
  split; [|by rewrite length_map]. apply Forall_map. eapply Forall_impl; [exact Hb|]. intros [l|]; simpl; [done|constructor].
Qed.
End found.
