(* ===== verification/Retention.v ===== *)
(** Caching of a request's blocks by the single-type managers and the
    coordinator: the masks that keep only blocks a later request can resume
    from ([reachable_block_mask]), [cache_blocks] and the replay boundaries
    ([vllm/v1/core/single_type_kv_cache_manager.py],
    [vllm/v1/core/kv_cache_coordinator.py]). *)
From Stdlib Require Import ZArith Lia Strings.String.
From stdpp Require Import base numbers list gmap strings.
From S2P Require Import Prelude BlockQueue Request BlockHash HashMap BlockPool PoolOps PoolCache PoolSafety CacheHit.
From S2P Require Import SingleTypeManager TableSafety TableReach Coordinator.
Import Pool SingleType.
Open Scope Z_scope.
Local Arguments py_get : simpl never.
Local Arguments Z.of_nat : simpl never.
Local Arguments mask_bit : simpl never.

(** * Masks *)

Module Retention.

(** [for i in positions: if cond(i): mask[i - start_block] = True] *)
Fixpoint mark (start_block : Z) (cond : Z -> bool) (positions : list Z) (mask : list bool) : outcome (list bool) :=
  match positions with
  | [] => Ok mask
  | i :: positions =>
      let? mask := if cond i then or_raise (py_set mask (i - start_block) true) IndexError else Ok mask in
      mark start_block cond positions mask
  end.

(** Part (1): the tails of the segments.  [None] is the early return of
    [None]: every block is reachable. *)
Definition mark_segments (start_block end_block need shift per_segment : Z) (use_eagle : bool)
    (final_segment_end_block : option Z) (mask : list bool) : outcome (option (list bool)) :=
  if need >=? per_segment then Ok None else
  let? mask := mark start_block (fun i => (i >=? shift) && ((i - shift) mod per_segment >=? per_segment - need))
                 (py_range start_block end_block) mask in
  match final_segment_end_block, use_eagle with
  | Some final_segment_end_block, false =>
      let final_segment_size := final_segment_end_block mod per_segment in
      if final_segment_size =? 0 then Ok (Some mask) else
      let final_segment_start := final_segment_end_block - final_segment_size in
      let final_tail_start := Z.max final_segment_start (final_segment_end_block - need) in
      let final_tail_end := Z.min end_block final_segment_end_block in
      let? mask := mark start_block (fun _ => true) (py_range (Z.max start_block final_tail_start) final_tail_end) mask in
      Ok (Some mask)
  | _, _ => Ok (Some mask)
  end.

(** Part (2): the tails of the reachable boundaries. *)
Fixpoint mark_boundaries (start_block end_block need shift alignment_tokens block_size : Z) (boundaries : list Z)
    (mask : list bool) : outcome (list bool) :=
  match boundaries with
  | [] => Ok mask
  | boundary_tokens :: boundaries =>
      let aligned := boundary_tokens / alignment_tokens * alignment_tokens in
      let end_ := aligned / block_size + shift in
      let? mask := mark start_block (fun _ => true)
                     (py_range (Z.max start_block (end_ - need)) (Z.min end_block end_)) mask in
      mark_boundaries start_block end_block need shift alignment_tokens block_size boundaries mask
  end.

Definition window_block_mask (start_block end_block : Z) (alignment_tokens : option Z) (spec_block_size sliding_window : Z)
    (use_eagle : bool) (retention_interval : option Z) (reachable_boundaries : list Z) (dcp_world_size : Z)
    (final_segment_end_block : option Z) : outcome (option (list bool)) :=
  match alignment_tokens with
  | None => Ok None
  | Some alignment_tokens =>
      let block_size := spec_block_size * dcp_world_size in
      if negb (alignment_tokens mod block_size =? 0) then Ok None else
      let need := contiguous_blocks_for_hit sliding_window block_size use_eagle in
      let shift := if use_eagle then 1 else 0 in
      let mask := replicate (Z.to_nat (end_block - start_block)) false in
      let segment_tokens := match retention_interval with
                            | None => Some alignment_tokens
                            | Some r => if r =? 0 then None else Some r
                            end in
      let? mask := match segment_tokens with
                   | None => Ok (Some mask)
                   | Some segment_tokens =>
                       mark_segments start_block end_block need shift (segment_tokens / block_size) use_eagle
                         final_segment_end_block mask
                   end in
      match mask with
      | None => Ok None
      | Some mask =>
          let? mask := match retention_interval with
                       | None => Ok mask
                       | Some _ => mark_boundaries start_block end_block need shift alignment_tokens block_size
                                     reachable_boundaries mask
                       end in
          Ok (Some mask)
      end
  end.

(** The class of the manager decides; full and chunked-local attention keep the
    base policy. *)
Definition reachable_block_mask (spec : KVCacheSpec) (start_block end_block : Z) (alignment_tokens : option Z)
    (use_eagle : bool) (retention_interval : option Z) (reachable_boundaries : list Z) (dcp_world_size : Z)
    (final_segment_end_block : option Z) : outcome (option (list bool)) :=
  match kind spec with
  | SlidingWindow sliding_window _ =>
      window_block_mask start_block end_block alignment_tokens (spec_block_size spec) sliding_window use_eagle
        retention_interval reachable_boundaries dcp_world_size final_segment_end_block
  | FullAttention | RSWA _ | ChunkedLocalAttention _ => Ok None
  end.

(** * Caching *)

Section caching.
Context (use_int : bool) (sha256 : bytes -> bytes).

(** The methods run on the manager, its pool and the request. *)
Abbreviation St := (single * BlockPool * Request)%type.
Definition in_mgr {A} (f : M single A) : M St A := zoom (fun s => s.1.1) (fun m s => (m, s.1.2, s.2)) f.
Definition in_pool {A} (f : M (BlockPool * Request) A) : M St A :=
  zoom (fun s => (s.1.2, s.2)) (fun x s => (s.1.1, x.1, x.2)) f.

(** [SingleTypeKVCacheManager.cache_blocks].  Its early return for a spec with
    [prefix_cacheable = False] is taken only by specs that are not modelled: the
    four attention kinds leave the flag at its default, [True]. *)
Definition base_cache_blocks (num_tokens : Z) (retention_interval : option Z) (replay_boundaries : list Z) : M St unit :=
  let! s := gets (fun s => s) in
  let '(m, p, request) := s in
  let num_cached_blocks := default 0 (num_cached_block m !! request_id request) in
  let num_full_blocks := num_tokens / block_size m in
  if num_cached_blocks >=? num_full_blocks then ret tt else
  let reachable_boundaries :=
    replay_boundaries ++
    (if shared_prefix_boundary request =? 0 then [] else [shared_prefix_boundary request]) in
  let! block_mask := lift (reachable_block_mask (kv_cache_spec m) num_cached_blocks num_full_blocks
    (Some (cache_hit_alignment_tokens m)) (use_eagle m) retention_interval reachable_boundaries (dcp_world_size m) None) in
  let! blocks := in_mgr (get_table (request_id request)) in
  in_pool (Pool.cache_full_blocks use_int sha256 blocks num_cached_blocks num_full_blocks (block_size m)
    (kv_cache_group_id m) block_mask) ;;
  in_mgr (modify (fun m => set_num_cached (<[request_id request := num_full_blocks]> (num_cached_block m)) m)).

Definition cache_partial_tail_block (num_tokens : Z) : M St unit :=
  let! s := gets (fun s => s) in
  let '(m, p, request) := s in
  let hbs := hash_block_size p in
  let token_limit := if use_eagle m then num_prompt_tokens request else num_prompt_tokens request - 1 in
  let boundary_tokens := token_limit / hbs * hbs in
  if (boundary_tokens =? 0) || (boundary_tokens >? num_tokens) then ret tt else
  if boundary_tokens mod block_size m =? 0 then ret tt else
  let! blocks := in_mgr (get_table (request_id request)) in
  let block_idx := boundary_tokens / block_size m in
  if block_idx >=? zlen blocks then ret tt else
  let! block := lift (or_raise (py_get blocks block_idx) IndexError) in
  in_pool (Pool.cache_partial_block use_int sha256 block boundary_tokens (kv_cache_group_id m) (block_size m) false) ;;
  ret tt.

Definition cache_blocks (num_tokens : Z) (retention_interval : option Z) (replay_boundaries : list Z) : M St unit :=
  base_cache_blocks num_tokens retention_interval replay_boundaries ;;
  let! s := gets (fun s => s) in
  let '(m, p, _) := s in
  match kind (kv_cache_spec m) with
  | FullAttention | RSWA _ =>
      if block_size m =? hash_block_size p then ret tt else cache_partial_tail_block num_tokens
  | SlidingWindow _ _ | ChunkedLocalAttention _ => ret tt
  end.

(** ** The coordinator *)

Definition validate_prefix_cache_retention_interval (retention_interval : option Z) (scheduler_block_size : Z)
    (specs : list KVCacheSpec) : outcome unit :=
  match retention_interval with
  | None => Ok tt
  | Some r =>
      if negb (existsb (fun spec => match kind spec with SlidingWindow _ _ => true | _ => false end) specs) then
        if r =? 0 then Ok tt else Raise ValueError
      else if (r <? 0) || negb (r mod scheduler_block_size =? 0) then Raise ValueError
      else Ok tt
  end.

Definition get_replay_boundaries (eagle_group_ids : gset nat) (scheduler_block_size : Z) (request : Request) : list Z :=
  if bool_decide (eagle_group_ids = ∅) then [num_prompt_tokens request - 1] else
  let block := scheduler_block_size in
  let resend := Z.max ((num_prompt_tokens request - 1) / block * block - block) 0 in
  let extension := Z.max (num_prompt_tokens request / block * block - block) 0 in
  if resend =? extension then [resend]
  else [Z.min resend extension; Z.max resend extension].

Definition get_num_cacheable_tokens (num_reprefillable_tokens num_computed_tokens : Z) : Z :=
  Z.max 0 (num_computed_tokens - num_reprefillable_tokens).
Definition round_down (x y : Z) : Z := x / y * y.
Definition align_cacheable (enable_partial_hash_hits : bool) (scheduler_block_size num_tokens : Z) : Z :=
  if enable_partial_hash_hits then num_tokens else round_down num_tokens scheduler_block_size.
(** The override of [HybridKVCacheCoordinator]. *)
Definition hybrid_num_cacheable_tokens (enable_partial_hash_hits : bool)
    (scheduler_block_size num_reprefillable_tokens num_computed_tokens : Z) (m : single) : Z :=
  let align := align_cacheable enable_partial_hash_hits scheduler_block_size in
  let cached_num_computed_tokens := align num_computed_tokens in
  if use_eagle m && (cached_num_computed_tokens >? 0) then
    let num_finalized_computed_tokens := Z.max 0 (num_computed_tokens - num_reprefillable_tokens) in
    Z.min num_finalized_computed_tokens (align num_finalized_computed_tokens + block_size m)
  else cached_num_computed_tokens.

(** [cacheable] is the coordinator's [get_num_cacheable_tokens] for a manager. *)
Fixpoint cache_each (cacheable : single -> Z) (retention_interval : option Z) (boundaries : list Z)
    (ms : list single) (p : BlockPool) (r : Request) : outcome unit * (list single * BlockPool * Request) :=
  match ms with
  | [] => (Ok tt, ([], p, r))
  | m :: ms =>
      let '(o, (m', p', r')) := if mgr_enable_caching m then cache_blocks (cacheable m) retention_interval boundaries (m, p, r)
                                else (Ok tt, (m, p, r)) in
      match o with
      | Raise e => (Raise e, (m' :: ms, p', r'))
      | Ok _ => let '(o, (ms', p'', r'')) := cache_each cacheable retention_interval boundaries ms p' r' in
                (o, (m' :: ms', p'', r''))
      end
  end.
Definition coordinator_cache_blocks (eagle_group_ids : gset nat) (scheduler_block_size : Z) (cacheable : single -> Z)
    (retention_interval : option Z) : M (KVCacheCoordinator * Request) unit :=
  fun s => let boundaries := get_replay_boundaries eagle_group_ids scheduler_block_size s.2 in
           let '(o, (ms, p, r)) := cache_each cacheable retention_interval boundaries (single_type_managers s.1)
                                     (block_pool s.1) s.2 in
           (o, (mkCoordinator ms p, r)).
End caching.
End Retention.

(** * What the masks keep *)

Abbreviation bit mask start i := (mask_bit (Some mask) (i - start)).

Section marks.
Context (start_block : Z).

Lemma mark_ok cond positions mask :
  (forall i, i ∈ positions -> 0 <= i - start_block < zlen mask) ->
  exists mask', Retention.mark start_block cond positions mask = Ok mask' /\ length mask' = length mask /\
    forall i, start_block <= i ->
      bit mask' start_block i = true <-> bit mask start_block i = true \/ (i ∈ positions /\ cond i = true).
Proof.
  revert mask. induction positions as [|q qs IH]; intros mask Hin; simpl.
  - exists mask. split; [done|]. split; [done|]. intros i _. set_solver.
  - destruct (cond q) eqn:Ec; cbn [obind].
    + pose proof (Hin q ltac:(set_solver)) as Hq. rewrite py_set_in by lia. cbn [obind or_raise].
      destruct (IH (<[Z.to_nat (q - start_block) := true]> mask)) as (mask' & -> & Hl & Hb).
      { intros i Hi. rewrite length_insert. apply Hin. set_solver. }
      exists mask'. split; [done|]. rewrite length_insert in Hl. split; [done|]. intros i Hi. rewrite Hb by done.
      unfold mask_bit. destruct (decide (i = q)) as [->|Hne].
      * rewrite list_lookup_insert_eq by lia. simpl. split; [|intros _; by left]. intros _. right. split; [by left|done].
      * rewrite list_lookup_insert_ne by lia. set_solver.
    + destruct (IH mask) as (mask' & -> & Hl & Hb); [intros i Hi; apply Hin; set_solver|].
      exists mask'. split; [done|]. split; [done|]. intros i Hi. rewrite Hb by done.
      split; [|intros [?|[[->|?]%elem_of_cons ?]]; [by left|congruence|by right]].
      intros [?|[??]]; [by left|right]. split; [by right|done].
Qed.
End marks.

(** The run of [need] blocks a hit at block boundary [b] reads; with EAGLE
    ([shift = 1]) it ends one block later. *)
Definition tail (need shift b i : Z) : Prop := b + shift - need <= i < b + shift.
Definition segment_tail (per_segment need shift i : Z) : Prop := exists k, 1 <= k /\ tail need shift (k * per_segment) i.
Definition boundary_tail (al bs need shift : Z) (boundaries : list Z) (i : Z) : Prop :=
  exists t, t ∈ boundaries /\ tail need shift (t / al * al / bs) i.
(** The tail of an unfinished last segment. *)
Definition final_tail (per_segment need : Z) (use_eagle : bool) (final_end : option Z) (i : Z) : Prop :=
  exists e, final_end = Some e /\ use_eagle = false /\ e mod per_segment <> 0 /\
    Z.max (e - e mod per_segment) (e - need) <= i < e.

Section masks.
Context (start_block end_block need shift : Z).
Hypothesis range_ok : start_block <= end_block.
Hypothesis need_ok : 0 <= need.

Lemma segment_condition per i :
  need < per -> (i >=? shift) && ((i - shift) mod per >=? per - need) = true <-> segment_tail per need shift i.
Proof.
  intros Hp. unfold segment_tail, tail. pose proof (Z.div_mod (i - shift) per ltac:(lia)) as Hd.
  pose proof (Z.mod_pos_bound (i - shift) per ltac:(lia)) as Hm. rewrite andb_true_iff, !Z.geb_le. split.
  - intros [Hi Hr]. exists ((i - shift) / per + 1). split; [|nia].
    pose proof (Z.div_pos (i - shift) per ltac:(lia) ltac:(lia)). lia.
  - intros (k & Hk & Ht). assert ((i - shift) / per = k - 1) as E by (symmetry; apply (Z.div_unique _ _ _ (i - shift - (k - 1) * per)); nia).
    rewrite E in Hd. nia.
Qed.

Lemma mark_range_ok cond a b mask :
  start_block <= a -> b <= end_block -> zlen mask = end_block - start_block ->
  exists mask', Retention.mark start_block cond (py_range a b) mask = Ok mask' /\ length mask' = length mask /\
    forall i, start_block <= i ->
      bit mask' start_block i = true <-> bit mask start_block i = true \/ (a <= i < b /\ cond i = true).
Proof.
  intros Ha Hb Hl. destruct (mark_ok start_block cond (py_range a b) mask) as (mask' & E & Hl' & Hbit).
  { intros i Hi%elem_of_py_range. lia. }
  exists mask'. split; [done|]. split; [done|]. intros i Hi. by rewrite Hbit, elem_of_py_range.
Qed.

Lemma mark_segments_ok per use_eagle final_end mask :
  need < per -> zlen mask = end_block - start_block ->
  exists mask', Retention.mark_segments start_block end_block need shift per use_eagle final_end mask = Ok (Some mask') /\
    length mask' = length mask /\ forall i, start_block <= i < end_block ->
      bit mask' start_block i = true <->
      bit mask start_block i = true \/ segment_tail per need shift i \/ final_tail per need use_eagle final_end i.
Proof.
  intros Hp Hl. unfold Retention.mark_segments. destruct (need >=? per) eqn:E; bools; [lia|].
  destruct (mark_range_ok (fun i => (i >=? shift) && ((i - shift) mod per >=? per - need)) start_block end_block mask)
    as (m1 & -> & Hl1 & Hb1); [lia..|]. cbn [obind].
  assert (forall i, start_block <= i < end_block ->
    bit m1 start_block i = true <-> bit mask start_block i = true \/ segment_tail per need shift i) as Hseg.
  { intros i Hi. rewrite Hb1, segment_condition by lia. intuition lia. }
  destruct final_end as [e|]; [destruct use_eagle|].
  - exists m1. split; [done|]. split; [done|]. intros i Hi. rewrite Hseg by done.
    split; [intuition|]. intros [?|[?|(? & _ & ? & _)]]; [by left|by right|done].
  - destruct (e mod per =? 0) eqn:Ee; bools.
    + exists m1. split; [done|]. split; [done|]. intros i Hi. rewrite Hseg by done.
      split; [intuition|]. intros [?|[?|(? & ? & _ & ? & _)]]; [by left|by right|simplify_eq].
    + destruct (mark_range_ok (fun _ => true) (Z.max start_block (Z.max (e - e mod per) (e - need)))
        (Z.min end_block e) m1) as (m2 & -> & Hl2 & Hb2); [lia|lia|by rewrite Hl1|]. cbn [obind].
      exists m2. split; [done|]. split; [congruence|]. intros i Hi. rewrite Hb2, Hseg by lia. unfold final_tail.
      split; [|naive_solver lia]. intros [[?|?]|[? _]]; [by left|by right; left|]. right; right. exists e. split_and!; lia || done.
  - exists m1. split; [done|]. split; [done|]. intros i Hi. rewrite Hseg by done.
    split; [intuition|]. intros [?|[?|(? & ? & _)]]; [by left|by right|done].
Qed.

Lemma mark_boundaries_ok al bs boundaries mask :
  zlen mask = end_block - start_block ->
  exists mask', Retention.mark_boundaries start_block end_block need shift al bs boundaries mask = Ok mask' /\
    length mask' = length mask /\ forall i, start_block <= i < end_block ->
      bit mask' start_block i = true <-> bit mask start_block i = true \/ boundary_tail al bs need shift boundaries i.
Proof.
  revert mask. induction boundaries as [|t ts IH]; intros mask Hl; simpl.
  - exists mask. split; [done|]. split; [done|]. intros i Hi. unfold boundary_tail. set_solver.
  - destruct (mark_range_ok (fun _ => true) (Z.max start_block (t / al * al / bs + shift - need))
      (Z.min end_block (t / al * al / bs + shift)) mask) as (m1 & -> & Hl1 & Hb1); [lia|lia|done|]. cbn [obind].
    destruct (IH m1) as (m2 & -> & Hl2 & Hb2); [by rewrite Hl1|]. exists m2. split; [done|]. split; [congruence|].
    intros i Hi. rewrite Hb2, Hb1 by lia. unfold boundary_tail, tail. split.
    + intros [[?|[? _]]|(u & Hu & ?)]; [by left|right; exists t; split; [by left|lia]|right; exists u; split; [by right|done]].
    + intros [?|(u & [->|Hu]%elem_of_cons & ?)]; [by left; left|left; right; split; [lia|done]|right; by exists u].
Qed.
End masks.

Section policy.
Context (bs al window : Z) (eagle : bool) (retention : option Z) (boundaries : list Z) (final_end : option Z).
Abbreviation need := (contiguous_blocks_for_hit window bs eagle).
Abbreviation shift := (if eagle then 1 else 0).

(** The distance of the retained checkpoints, if there are any. *)
Definition segment_tokens : option Z :=
  match retention with None => Some al | Some r => if r =? 0 then None else Some r end.
(** The positions some allowed hit reads. *)
Definition reachable_position (i : Z) : Prop :=
  (exists seg, segment_tokens = Some seg /\
     (segment_tail (seg / bs) need shift i \/ final_tail (seg / bs) need eagle final_end i)) \/
  (retention <> None /\ boundary_tail al bs need shift boundaries i).

Record policy_ok : Prop := {
  pl_sizes : 0 < bs /\ 0 < al /\ al mod bs = 0;
  pl_window : 1 <= window;
  pl_interval : forall r, retention = Some r -> 0 <= r /\ r mod al = 0
}.

Lemma need_nonneg : 0 < bs -> 1 <= window -> 0 <= need.
Proof. intros Hb Hw. unfold contiguous_blocks_for_hit. pose proof (cdiv_spec (window - 1) bs Hb). destruct eagle; nia. Qed.

(** The mask is the reachable positions; it is only left out when the windows
    of neighbouring checkpoints touch. *)
Definition mask_exact (start_block end_block : Z) (mask : option (list bool)) : Prop :=
  match mask with
  | None => exists seg, segment_tokens = Some seg /\ seg / bs <= need
  | Some m => zlen m = end_block - start_block /\
      forall i, start_block <= i < end_block -> bit m start_block i = true <-> reachable_position i
  end.

Lemma window_mask_ok start_block end_block sbs dcp :
  policy_ok -> start_block <= end_block -> sbs * dcp = bs ->
  exists mask, Retention.window_block_mask start_block end_block (Some al) sbs window eagle retention boundaries dcp
    final_end = Ok mask /\ mask_exact start_block end_block mask.
Proof.
  intros [(Hb & Ha & Hab) Hw Hr] Hse Hbs. pose proof (need_nonneg Hb Hw) as Hn.
  unfold Retention.window_block_mask. rewrite Hbs, Hab. simpl. set (m0 := replicate _ false).
  assert (zlen m0 = end_block - start_block) as Hl0 by (unfold m0; rewrite length_replicate; lia).
  assert (forall i, bit m0 start_block i = true <-> False) as Hb0.
  { intros i. unfold mask_bit, m0. destruct (replicate _ _ !! _) eqn:E; [|done].
    apply lookup_replicate in E as [-> _]. done. }
  change (match retention with None => Some al | Some r => if r =? 0 then None else Some r end) with segment_tokens.
  assert (exists m1, (match segment_tokens with
    | None => Ok (Some m0)
    | Some seg => Retention.mark_segments start_block end_block need shift (seg / bs) eagle final_end m0
    end) = Ok m1 /\ match m1 with
      | None => exists seg, segment_tokens = Some seg /\ seg / bs <= need
      | Some m => zlen m = end_block - start_block /\ forall i, start_block <= i < end_block -> bit m start_block i = true <->
          exists seg, segment_tokens = Some seg /\
            (segment_tail (seg / bs) need shift i \/ final_tail (seg / bs) need eagle final_end i)
      end) as (m1 & -> & Hm1).
  { destruct segment_tokens as [seg|]; [|exists (Some m0); split; [done|]; split; [done|]; intros i _; rewrite Hb0; naive_solver].
    destruct (decide (need < seg / bs)) as [Hlt|].
    - destruct (mark_segments_ok start_block end_block need shift Hn (seg / bs) eagle final_end m0 Hlt Hl0)
        as (m1 & -> & Hl1 & Hb1). exists (Some m1). split; [done|]. split; [by rewrite Hl1|].
      intros i Hi. rewrite Hb1, Hb0 by done. naive_solver.
    - exists None. split; [|exists seg; split; [done|lia]]. unfold Retention.mark_segments.
      by rewrite (proj2 (Z.geb_le need (seg / bs))) by lia. }
  cbn [obind]. destruct m1 as [m1|]; [|by exists None]. destruct Hm1 as [Hl1 Hb1].
  destruct retention as [r|] eqn:Er; cbn [obind].
  - destruct (mark_boundaries_ok start_block end_block need shift Hse Hn al bs boundaries m1 Hl1) as (m2 & -> & Hl2 & Hb2).
    cbn [obind]. exists (Some m2). split; [done|]. split; [by rewrite Hl2|]. intros i Hi. rewrite Hb2, Hb1 by done.
    unfold reachable_position. rewrite Er. naive_solver.
  - exists (Some m1). split; [done|]. split; [done|]. intros i Hi. rewrite Hb1 by done. unfold reachable_position.
    rewrite Er. naive_solver.
Qed.
End policy.

(** C18: retention masks.  For a sliding-window spec with a window of at least one
    token, a given alignment that is a positive multiple of the block size (scaled
    by the context-parallel size), and a retention interval that is absent, zero or
    a positive multiple of the alignment (what the validation of the configuration
    accepts), the mask of [reachable_block_mask] is defined, has one entry per
    block, and keeps exactly the blocks that a hit at a retained checkpoint, at the
    end of the final segment or at a requested boundary reads; under these
    conditions no mask (every block is kept) is returned only when the runs of
    neighbouring checkpoints leave no gap. *)
Theorem retention_mask_exact spec window extra start_block end_block bs al eagle retention boundaries dcp final_end :
  kind spec = SlidingWindow window extra -> spec_block_size spec * dcp = bs -> start_block <= end_block ->
  policy_ok bs al window retention ->
  exists mask,
    Retention.reachable_block_mask spec start_block end_block (Some al) eagle retention boundaries dcp final_end = Ok mask /\
    mask_exact bs al window eagle retention boundaries final_end start_block end_block mask.
Proof.
  intros Hk Hbs Hse Hp. unfold Retention.reachable_block_mask. rewrite Hk. by apply window_mask_ok.
Qed.

(** * Retained prefixes are found again *)

(** The lengths at which a later request may resume: checkpoints and requested
    boundaries. *)
Definition resume_point (al : Z) (retention : option Z) (boundaries : list Z) (T : Z) : Prop :=
  0 < T /\
  ((exists seg, segment_tokens al retention = Some seg /\ T mod seg = 0) \/
   (retention <> None /\ exists t, t ∈ boundaries /\ T = t / al * al)).

Section resume.
Context (bs al window : Z) (retention : option Z) (boundaries : list Z).
Hypothesis Hp : policy_ok bs al window retention.
Abbreviation W := (cdiv (window - 1) bs).

Lemma segment_ok seg : segment_tokens al retention = Some seg -> 0 < seg /\ seg mod al = 0.
Proof.
  destruct Hp as [(Hb & Ha & Hab) _ Hr]. unfold segment_tokens. destruct retention as [r|].
  - destruct (r =? 0) eqn:E; [done|]. bools. intros [= <-]. specialize (Hr r eq_refl). split; [lia|tauto].
  - intros [= <-]. split; [done|]. by apply Z_mod_same_full.
Qed.

Lemma resume_aligned T : resume_point al retention boundaries T -> T mod al = 0 /\ T mod bs = 0.
Proof.
  destruct Hp as [(Hb & Ha & Hab) _ Hr]. intros [HT Hres].
  assert (T mod al = 0) as HTa.
  { destruct Hres as [(seg & Es & Hs)|(_ & t & _ & ->)]; [|by apply Z.mod_mul; lia].
    destruct (segment_ok seg Es) as [Hs0 Hsa]. apply Z.mod_divide; [lia|]. apply Z.mod_divide in Hs, Hsa; [|lia..].
    by etrans. }
  split; [done|]. apply Z.mod_divide in HTa, Hab; [|lia..]. apply Z.mod_divide; [lia|]. by etrans.
Qed.

Lemma resume_reachable T j :
  resume_point al retention boundaries T -> T / bs - W <= j < T / bs ->
  reachable_position bs al window false retention boundaries None j.
Proof.
  destruct Hp as [(Hb & Ha & Hab) _ Hr]. intros [HT [(seg & Es & Hs)|(Hn & t & Ht & ET)]] Hj.
  - left. exists seg. split; [done|]. left. destruct (segment_ok seg Es) as [Hs0 Hsa].
    assert (seg mod bs = 0) as Hsb.
    { apply Z.mod_divide in Hsa, Hab; [|lia..]. apply Z.mod_divide; [lia|]. by etrans. }
    apply Z.div_exact in Hs, Hsb; [|lia..]. exists (T / seg). split; [nia|].
    unfold tail, contiguous_blocks_for_hit. assert (T / bs = T / seg * (seg / bs)) as <-; [|lia].
    rewrite Hs at 1. rewrite Hsb at 1. rewrite <- Z.mul_assoc, Z.mul_comm, Z.div_mul; lia.
  - right. split; [done|]. exists t. split; [done|]. unfold tail, contiguous_blocks_for_hit. rewrite <- ET. lia.
Qed.

(** No reachable block is masked out. *)
Lemma exact_keeps start_block end_block mask j :
  mask_exact bs al window false retention boundaries None start_block end_block mask -> start_block <= j < end_block ->
  reachable_position bs al window false retention boundaries None j -> mask_bit mask (j - start_block) = true.
Proof. destruct mask as [m|]; [|done]. intros [_ H] Hj. by apply H. Qed.
End resume.

Section found.
Context (use_int : bool) (sha256 : bytes -> bytes).

Lemma boundary_prefix (hs : list bytes) (hbs bs j : Z) :
  0 < hbs -> bs mod hbs = 0 -> boundary_hash hs hbs bs j = prefix_hash hs hbs ((j + 1) * bs).
Proof.
  intros Hh Hm. unfold boundary_hash, prefix_hash. apply Z.div_exact in Hm; [|lia]. do 3 f_equal.
  rewrite Hm at 2. rewrite (Z.mul_comm hbs), Z.mul_assoc, Z.div_mul by lia. lia.
Qed.

(** A block that carries the hash of a prefix covers it. *)
Lemma carried_covered p g hs hbs t h y :
  cache_inv p -> 0 <= g < 2 ^ 32 -> prefix_hash hs hbs t = Some h -> block_hash (blk p y) = Some (h ++ be_bytes 4 g) ->
  covered p [g] hs hbs t.
Proof.
  intros Hc Hg Hh Hy. assert (lookup_ok p [g]) as Hl by (split; [done|done|intros g' ->%list_elem_of_singleton; done]).
  destruct (get_cached_ok p h [g] Hc) as (res & E & Hres); [intros g' ->%list_elem_of_singleton; done|].
  pose proof (probe_hit p [g] h Hl) as Hpr. unfold probe in Hpr. rewrite E in Hpr. injection Hpr as Hpr.
  destruct res as [[|b l]|]; [inversion Hres|by exists h, (b :: l)|]. destruct Hres as (g' & ->%list_elem_of_singleton & Hno).
  destruct (Hno y). apply (hi_index _ _ _ _ Hc). by left.
Qed.

(** Of the first [n] blocks of a request, those the policy retains are cached:
    some block of the pool has the key as its hash. *)
Definition retained (p : BlockPool) (g : Z) (hs : list bytes) (bs al window : Z) (retention : option Z) (boundaries : list Z)
    (n : Z) : Prop :=
  forall j, 0 <= j < n -> reachable_position bs al window false retention boundaries None j ->
    exists h y, boundary_hash hs (hash_block_size p) bs j = Some h /\ block_hash (blk p y) = Some (h ++ be_bytes 4 g).

(** The state in which a sliding-window manager caches blocks [c, f) of a
    request: the table holds the request's own blocks there, not yet cached. *)
Record window_caching (m : single) (p : BlockPool) (r : Request) (window extra c f : Z) (retention : option Z) : Prop := {
  wc_pool : exists free, inv p free;
  wc_request : request_ok sha256 r;
  wc_kind : kind (kv_cache_spec m) = SlidingWindow window extra;
  wc_config : dcp_world_size m = 1 /\ block_size m = spec_block_size (kv_cache_spec m) /\ use_eagle m = false /\ 1 < window;
  wc_policy : policy_ok (block_size m) (cache_hit_alignment_tokens m) window retention;
  wc_args : full_args p r (table m (request_id r)) c f (block_size m) (kv_cache_group_id m) None;
  wc_own : forall i x, c <= i < f -> py_get (table m (request_id r)) i = Some x -> x <> 0%nat /\ block_hash (blk p x) = None
}.

Lemma kept_own blocks c mask i x :
  py_get blocks i = Some x -> x <> 0%nat -> kept_at blocks c mask i = mask_bit mask (i - c).
Proof.
  intros Hx Hn. unfold kept_at. rewrite Hx. unfold kept. simpl. by rewrite bool_decide_eq_false_2.
Qed.

Lemma full_cached_hbs p r blocks c f bs g mask s :
  full_cached use_int sha256 p r blocks c f bs g mask s -> hash_block_size s.1 = hash_block_size p.
Proof. intros Hs. pose proof (k_config _ _ (fc_keeps _ _ _ _ _ _ _ _ _ _ _ Hs)) as Hc. unfold config in Hc. congruence. Qed.

(** Caching the next blocks keeps what was retained and adds theirs. *)
Lemma retained_step p r blocks c f bs al g window retention boundaries mask s :
  full_args p r blocks c f bs g None -> full_cached use_int sha256 p r blocks c f bs g mask s ->
  mask_exact bs al window false retention boundaries None c f mask ->
  (forall i x, c <= i < f -> py_get blocks i = Some x -> x <> 0%nat /\ block_hash (blk p x) = None) ->
  retained p g (block_hashes r) bs al window retention boundaries c ->
  retained s.1 g (block_hashes r) bs al window retention boundaries f.
Proof.
  intros Ha Hs Hm Hown Hbef j Hj Hr. rewrite (full_cached_hbs _ _ _ _ _ _ _ _ _ Hs).
  destruct Ha as [Hcf _ _ _ _ _ _ _]. destruct (decide (j < c)) as [Hlt|Hge].
  - destruct (Hbef j) as (h & y & Eh & Ey); [lia|done|]. exists h, y. split; [done|].
    rewrite (proj1 (fc_other _ _ _ _ _ _ _ _ _ _ _ Hs y
      ltac:(intros i Hi E; destruct (Hown i y Hi E); congruence))). done.
  - assert (is_Some (py_get blocks j)) as [x Hx].
    { rewrite py_get_nonneg by lia. apply lookup_lt_is_Some. lia. }
    destruct (fc_cached _ _ _ _ _ _ _ _ _ _ _ Hs j x) as (h & Eh & Ex & _); [lia|done| |by exists h, x].
    rewrite (kept_own blocks c mask j x Hx) by (apply (Hown j x); [lia|done]).
    eapply exact_keeps; [exact Hm|lia|done].
Qed.

Definition boundaries_of (r : Request) (replay : list Z) : list Z :=
  replay ++ if shared_prefix_boundary r =? 0 then [] else [shared_prefix_boundary r].

Lemma retained_resumes p g hs bs al window extra spec retention boundaries T f max_length :
  policy_ok bs al window retention -> kind spec = SlidingWindow window extra -> bs = spec_block_size spec ->
  window_args_ok p [g] hs bs al window max_length -> resume_point al retention boundaries T -> T <= f * bs -> T <= max_length ->
  retained p g hs bs al window retention boundaries f ->
  exists blocks L, sliding_window_hit p [g] (Raw hs) max_length spec false al 1 1 = Ok (blocks, L) /\ T <= L <= max_length.
Proof.
  intros Hpol Hk Hbs Hw HT Hf HTm Hcov.
  destruct (resume_aligned bs al window retention boundaries Hpol T HT) as [HTa HTb].
  destruct (window_hit_ok p [g] hs bs al window max_length false spec extra Hk Hbs Hw) as (rows & E & Hle & _ & _ & _ & Hmx).
  eexists _, _. split; [exact E|]. split; [|exact Hle]. pose proof Hpol as [(Hb & Ha & _) _ _].
  apply Z.div_exact in HTb as HTd; [|lia]. destruct HT as [HT0 HTr].
  assert (T / bs <= zlen rows); [|nia]. apply Hmx; [by left|]. split; [nia|]. split; [|split].
  - rewrite Z.add_0_r. apply Z.div_le_mono; lia.
  - right. by rewrite Z.mul_comm, <- HTd.
  - intros j Hj. pose proof Hw as [[Hc _ Hg] Hh [_ Hmod] _ _ _].
    destruct (Hcov j) as (h & y & Eh & Ey);
      [nia|eapply (resume_reachable bs al window retention boundaries Hpol T); [exact (conj HT0 HTr)|lia]|].
    rewrite boundary_prefix in Eh by done. eapply carried_covered; [done|apply Hg; by left|exact Eh|done].
Qed.

(** C16: sparse retention loses no promised hit.  Consider a sliding-window
    manager without EAGLE and without context parallelism, whose window is larger
    than one token, and a call of [cache_blocks] for blocks of a request that are
    its own and not cached yet.  If the blocks that the policy retains of the
    request's earlier blocks are cached before the call, then afterwards those of
    all its full blocks are; and in every consistent pool in which they are still
    cached, in particular the resulting one, a lookup of the same hashes finds a
    hit at least as long as each resume point it may use: every checkpoint of the
    retention interval, every replay boundary and the shared prefix junction. *)
Theorem retained_prefix_found m p r window extra num_tokens retention replay
    (c := default 0 (num_cached_block m !! request_id r)) (f := num_tokens / block_size m)
    (al := cache_hit_alignment_tokens m) (g := kv_cache_group_id m) (bs := block_size m) :
  window_caching m p r window extra c f retention ->
  retained p g (block_hashes r) bs al window retention (boundaries_of r replay) c ->
  wp (Retention.cache_blocks use_int sha256 num_tokens retention replay) (fun _ s =>
    num_cached_block s.1.1 !! request_id r = Some f /\
    cache_inv s.1.2 /\ hash_block_size s.1.2 = hash_block_size p /\
    retained s.1.2 g (block_hashes r) bs al window retention (boundaries_of r replay) f /\
    forall p' T max_length,
      cache_inv p' -> hash_block_size p' = hash_block_size p ->
      retained p' g (block_hashes r) bs al window retention (boundaries_of r replay) f ->
      resume_point al retention (boundaries_of r replay) T -> T <= f * bs -> T <= max_length ->
      max_length / bs * (bs / hash_block_size p) <= zlen (block_hashes r) ->
      exists blocks L, sliding_window_hit p' [g] (Raw (block_hashes r)) max_length (kv_cache_spec m) false al 1 1 =
        Ok (blocks, L) /\ T <= L <= max_length) (m, p, r).
Proof.
  intros [[free Hinv] [Hfeat Hmemo] Hk (Hd & Hbs & He & Hw) Hpol Ha Hown] Hbef. subst al g bs.
  pose proof Ha as [Hcf (Hh & Hb & Hmod) Hhash Hg _ Hblk Hdist Hprom].
  destruct (window_mask_ok (block_size m) (cache_hit_alignment_tokens m) window false retention (boundaries_of r replay)
    None c f (spec_block_size (kv_cache_spec m)) 1 Hpol) as (mask & Em & Hm); [lia|lia|].
  unfold Retention.cache_blocks, Retention.base_cache_blocks. wp_simpl. fold c f.
  destruct (c >=? f) eqn:Ecf; bools; [lia|]. wp_simpl. fold (boundaries_of r replay).
  exists mask. split; [unfold Retention.reachable_block_mask; by rewrite Hk, Hd, He|].
  unfold Retention.in_mgr, Retention.in_pool, get_table. wp_simpl. simpl.
  assert (table (set_tables (<[request_id r:=table m (request_id r)]> (req_to_blocks m)) m) (request_id r) =
    table m (request_id r)) as -> by (unfold table; simpl; by rewrite lookup_insert_eq).
  eapply wp_mono; [eapply (cache_full_blocks_ok use_int sha256); [exact Hinv|done|done|]|].
  { split; try done.
    - destruct mask; [apply Hm|done].
    - intros i x Hi Hx _. left. by apply (Hown i). }
  intros [] s Hs. wp_simpl. simpl. rewrite Hk. wp_simpl. simpl. split; [by rewrite lookup_insert_eq|].
  split; [apply Hs|]. split; [by eapply full_cached_hbs|].
  split; [by eapply retained_step|]. intros p' T max_length Hc' Eh' Hret HT HTf HTm Hhs.
  eapply (retained_resumes p'); [exact Hpol|exact Hk|exact Hbs| |exact HT|exact HTf|exact HTm|exact Hret].
  destruct HT as [HT0 _]. split; rewrite ?Eh'; [|done|done|by apply Hpol|done|lia].
  split; [done|done|intros g ->%list_elem_of_singleton; done].
Qed.
End found.

(** A validated configuration satisfies the policy's side condition. *)
Lemma validated_interval retention al specs spec window extra :
  Retention.validate_prefix_cache_retention_interval retention al specs = Ok tt ->
  spec ∈ specs -> kind spec = SlidingWindow window extra ->
  forall r, retention = Some r -> 0 <= r /\ r mod al = 0.
Proof.
  intros Hv Hin Hk r ->. simpl in Hv.
  assert (existsb (fun spec => match kind spec with SlidingWindow _ _ => true | _ => false end) specs = true) as E.
  { apply existsb_exists. exists spec. split; [by apply list_elem_of_In|]. by rewrite Hk. }
  rewrite E in Hv. simpl in Hv. destruct (r <? 0) eqn:E1, (r mod al =? 0) eqn:E2; try done. bools. lia.
Qed.

(** Without EAGLE a resend of the prompt can resume at the last aligned
    position before its last token, whatever the retention interval. *)
Lemma resend_resume al retention r :
  0 < al -> al < num_prompt_tokens r ->
  resume_point al retention (boundaries_of r (Retention.get_replay_boundaries ∅ al r)) ((num_prompt_tokens r - 1) / al * al).
Proof.
  intros Ha Hn. split.
  - assert (1 <= (num_prompt_tokens r - 1) / al) by (apply Z.div_le_lower_bound; lia). nia.
  - destruct retention as [x|]; [right|left; exists al; split; [done|by apply Z.mod_mul; lia]].
    split; [done|]. eexists. split; [|done]. unfold boundaries_of, Retention.get_replay_boundaries.
    rewrite bool_decide_eq_true_2 by done. set_solver.
Qed.

(** * Examples *)

Definition demo_retained (r : Request) : single :=
  set_tables {[ request_id r := [1; 2]%nat ]} (SingleType.init (demo_spec 2 (SlidingWindow 3 0)) 1 2 0 true false None).

Lemma retention_mask_exact_witness :
  Retention.reachable_block_mask (demo_spec 2 (SlidingWindow 3 0)) 0 4 (Some 4) false None [] 1 None =
    Ok (Some [false; true; false; true]) /\
  exists mask, Retention.reachable_block_mask (demo_spec 2 (SlidingWindow 3 0)) 0 4 (Some 4) false None [] 1 None = Ok mask /\
    mask_exact 2 4 3 false None [] None 0 4 mask.
Proof.
  split; [vm_compute; reflexivity|].
  apply (retention_mask_exact (demo_spec 2 (SlidingWindow 3 0)) 3 0 0 4 2 4 false None [] 1 None); [reflexivity|reflexivity|lia|].
  split; [split; [lia|split; [lia|reflexivity]]|lia|intros r H; discriminate H].
Defined.

Lemma demo_caching r :
  request_ok (fun b => b) r -> block_hashes r = [[Byte.x01]; [Byte.x01]] ->
  window_caching (fun b => b) (demo_retained r) demo_two r 3 0 0 2 (Some 0).
Proof.
  intros Hr Hh. assert (table (demo_retained r) (request_id r) = [1; 2]%nat) as Et.
  { unfold table, demo_retained. simpl. by rewrite lookup_singleton_eq. }
  split; rewrite ?Et.
  - exact (pool_reachable_inv _ _ _ demo_two_reachable).
  - exact Hr.
  - reflexivity.
  - split_and!; [reflexivity|reflexivity|reflexivity|lia].
  - split; [split; [reflexivity|split; reflexivity]|lia|]. intros x [= <-]. split; [lia|reflexivity].
  - exact (proj2 (demo_full_ok r Hr Hh)).
  - intros i x Hi. assert (i = 0 \/ i = 1) as [-> | ->] by lia; intros [= <-]; split; (discriminate || reflexivity).
Qed.

Lemma retained_prefix_found_witness :
  exists r, demo_request = Some r /\
  wp (Retention.cache_blocks false (fun b => b) 4 (Some 0) [3]) (fun _ s =>
    exists blocks L, sliding_window_hit s.1.2 [0] (Raw (block_hashes r)) 3 (demo_spec 2 (SlidingWindow 3 0)) false 2 1 1 =
      Ok (blocks, L) /\ 2 <= L <= 3) (demo_retained r, demo_two, r).
Proof.
  destruct demo_request_ok as (r & Er & Hr & Hh). exists r. split; [exact Er|].
  eapply wp_mono; [exact (retained_prefix_found false (fun b => b) (demo_retained r) demo_two r 3 0 4 (Some 0) [3]
    (demo_caching r Hr Hh) ltac:(intros j Hj; change (0 <= j < 0) in Hj; lia))|].
  intros [] s (_ & Hc & Ehb & Hret & Hf). apply (Hf s.1.2 2 3 Hc Ehb Hret); [|vm_compute; discriminate|lia|rewrite Hh; vm_compute; discriminate].
  split; [lia|]. right. split; [discriminate|]. exists 3. split; [left|reflexivity].
Defined.
