(* ===== verification/CacheSafety.v ===== *)
(** Caching a request's blocks in every group ([cache_blocks] of
    [vllm/v1/core/single_type_kv_cache_manager.py] and
    [vllm/v1/core/kv_cache_coordinator.py]) never trips an assertion: the blocks
    to be cached are those the request is still filling ([PrivateTail]). *)
From Stdlib Require Import ZArith Lia Strings.String.
From stdpp Require Import base numbers list gmap strings.
From S2P Require Import Prelude BlockQueue Request BlockHash HashMap BlockPool PoolOps PoolCache PoolSafety CacheHit.
From S2P Require Import SingleTypeManager TableSafety TableReach Coordinator PrivateTail HybridHit Retention.
Import Pool SingleType.
Open Scope Z_scope.
Local Arguments py_get : simpl never.
Local Arguments Z.of_nat : simpl never.
Local Arguments mask_bit : simpl never.

(** The configuration of manager [k]. *)
Record cache_conf (hbs : Z) (retention : option Z) (k : nat) (m : single) : Prop := {
  cc_group : kv_cache_group_id m = Z.of_nat k /\ Z.of_nat k < 2 ^ 32;
  cc_sizes : 0 < block_size m /\ block_size m mod hbs = 0;
  cc_window : forall w e, kind (kv_cache_spec m) = SlidingWindow w e ->
    block_size m = spec_block_size (kv_cache_spec m) * dcp_world_size m /\
    policy_ok (block_size m) (cache_hit_alignment_tokens m) w retention
}.
Lemma cache_conf_framed hbs retention k r m m' : framed r m m' -> cache_conf hbs retention k m -> cache_conf hbs retention k m'.
Proof.
  intros [Es Eb _ _ Est _ _ _] [Hg Hs Hw]. unfold static in Est. injection Est as Eg Ea Ed _.
  split; rewrite ?Eb, ?Eg, ?Es, ?Ed, ?Ea; done.
Qed.

(** The mask of a manager is defined and as long as the blocks to cache. *)
Lemma mask_length hbs retention k m c f boundaries :
  cache_conf hbs retention k m -> c <= f ->
  exists mask, Retention.reachable_block_mask (kv_cache_spec m) c f (Some (cache_hit_alignment_tokens m)) (use_eagle m)
    retention boundaries (dcp_world_size m) None = Ok mask /\ match mask with None => True | Some b => zlen b = f - c end.
Proof.
  intros Hc Hcf. unfold Retention.reachable_block_mask. destruct (kind (kv_cache_spec m)) as [|w e|ch|w] eqn:Ek; try by exists None.
  destruct (cc_window _ _ _ _ Hc w e Ek) as [Hb Hp].
  destruct (window_mask_ok (block_size m) (cache_hit_alignment_tokens m) w (use_eagle m) retention boundaries None c f
    (spec_block_size (kv_cache_spec m)) (dcp_world_size m) Hp Hcf (eq_sym Hb)) as (mask & -> & Hm).
  exists mask. split; [done|]. destruct mask; [apply Hm|done].
Qed.

Lemma owns_keeps others free m p p' :
  owns others free (m, p) -> keeps p p' -> cache_inv p' -> owns others free (m, p').
Proof.
  intros [] Hk Hc. simpl in *. split; simpl; try done.
  - by eapply keeps_inv.
  - intros x Hx. rewrite (k_ref _ _ Hk). auto.
  - intros r x. rewrite (config_num _ _ (k_config _ _ Hk)). apply o_range.
Qed.

(** A change of the pool's hashes and of [num_cached_block] that starts no new
    filling. *)
Lemma private_shrink ms ms' p p' :
  private ms p ->
  (forall k m' r i x, ms' !! k = Some m' -> slot m' r i x -> exists m, ms !! k = Some m /\ slot m r i x) ->
  (forall k m' r i x, ms' !! k = Some m' -> filling m' r i x -> exists m, ms !! k = Some m /\ filling m r i x) ->
  (forall k m' r, ms' !! k = Some m' -> 0 <= num_cached m' r) ->
  (forall k m' r i x, ms' !! k = Some m' -> filling m' r i x -> enable_caching p' = true -> fillable p' m' i x) ->
  private ms' p'.
Proof.
  intros [_ Ho _] He Hf Hn Hh. split; [done| |done].
  intros k m r i x k' m' r' i' Hk Hfl Hk' Hen. destruct (Hf _ _ _ _ _ Hk Hfl) as (m0 & H0 & Hfl0).
  destruct (He _ _ _ _ _ Hk' Hen) as (m1 & H1 & Hen1). by eapply (Ho k m0 r i x k' m1).
Qed.

Section caching.
Context (use_int : bool) (sha256 : bytes -> bytes) (others : nat -> Z) (free : list nat).
Context (ms1 ms2 : list single) (retention : option Z) (boundaries : list Z).

(** What a caching step on the manager between [ms1] and [ms2] leaves behind. *)
Record cached_step (m : single) (p : BlockPool) (r : Request) (s : single * BlockPool * Request) : Prop := {
  cs_owns : coord_owns others free (ms1 ++ s.1.1 :: ms2) s.1.2;
  cs_private : private (ms1 ++ s.1.1 :: ms2) s.1.2;
  cs_frame : framed (request_id r) m s.1.1;
  cs_partial : partial_hit_reqs s.1.1 = partial_hit_reqs m;
  cs_table : table s.1.1 (request_id r) = table m (request_id r);
  cs_config : config s.1.2 = config p;
  cs_request : memo_step sha256 r s.2
}.

Lemma cached_step_refl m p r : coord_owns others free (ms1 ++ m :: ms2) p -> private (ms1 ++ m :: ms2) p ->
  request_ok sha256 r -> cached_step m p r (m, p, r).
Proof. intros ?? [_ Hm]. split; try done. by apply memo_step_refl. Qed.

Lemma cached_step_trans m p r s s' :
  cached_step m p r s -> cached_step s.1.1 s.1.2 s.2 s' -> cached_step m p r s'.
Proof.
  intros [_ _ Hf1 Hp1 Ht1 Hc1 Hm1] [Ho Hp Hf2 Hp2 Ht2 Hc2 Hm2].
  assert (request_id s.2 = request_id r) as E by (destruct Hm1 as [[? ->] _]; done). rewrite E in *.
  split; try done; [by etrans|congruence..|by eapply memo_step_trans].
Qed.

(** The state in which a manager caches [nt] tokens of [r]. *)
Record cacheable (k : nat) (m : single) (p : BlockPool) (r : Request) (nt : Z) : Prop := {
  ca_index : k = length ms1;
  ca_owns : coord_owns others free (ms1 ++ m :: ms2) p;
  ca_private : private (ms1 ++ m :: ms2) p;
  ca_settled : partial_hit_reqs m !! request_id r = None;
  ca_conf : cache_conf (hash_block_size p) retention k m;
  ca_hbs : 0 < hash_block_size p;
  ca_caching : enable_caching p = true;
  ca_request : request_ok sha256 r;
  ca_hashed : nt / hash_block_size p <= zlen (block_hashes r);
  ca_slots : 0 <= nt <= zlen (table m (request_id r)) * block_size m
}.

(** The entries of the request itself. *)
Lemma own_slot m r i x : partial_hit_reqs m !! r = None -> 0 <= i ->
  py_get (table m r) i = Some x <-> slot m r (Z.to_nat i) x.
Proof.
  intros Hp Hi. rewrite py_get_nonneg by done. unfold slot, redirecting. rewrite Hp. split; [|tauto].
  intros H. split; [done|]. by intros [? ?].
Qed.

Lemma cacheable_args k m p r nt mask (c := num_cached m (request_id r)) (f := nt / block_size m) :
  cacheable k m p r nt -> c < f -> match mask with None => True | Some b => zlen b = f - c end ->
  full_args p r (table m (request_id r)) c f (block_size m) (kv_cache_group_id m) mask.
Proof.
  intros [Ek Ho Hp Hs [[Hg1 Hg2] [Hb Hbm] _] Hh Hen Hr Hhs Hsl] Hcf Hmask.
  assert ((ms1 ++ m :: ms2) !! k = Some m) as Hm by (rewrite Ek; by apply list_lookup_middle).
  assert (0 <= c) as Hc0 by (by eapply (pv_cached _ _ Hp)).
  pose proof (Z.mul_div_le nt (block_size m) Hb) as Hmul. fold f in Hmul. split; try done.
  - split; [lia|]. nia.
  - apply (hashes_bound p 1); try done. lia.
  - rewrite Hg1. lia.
  - intros i x Hi Hx. apply (mo_range _ _ (co_managers _ _ _ _ Ho m ltac:(set_solver)) (request_id r)).
    rewrite py_get_nonneg in Hx by lia. by eapply list_elem_of_lookup_2.
  - intros i j x Hi Hj Hx1 Hx2 Hx0. rewrite own_slot in Hx1, Hx2 by (done || lia).
    destruct (pv_once _ _ Hp k m (request_id r) (Z.to_nat i) x k m (request_id r) (Z.to_nat j)) as (_ & _ & E); try done; [|lia].
    split_and!; [done|done|]. fold c. lia.
  - intros i x Hi Hx Hkept. unfold kept_at, kept in Hkept. rewrite Hx in Hkept. simpl in Hkept. bools.
    rewrite own_slot in Hx by (done || lia).
    destruct (pv_hash _ _ Hp k m (request_id r) (Z.to_nat i) x Hm) as [Hpr _]; [split_and!; [done|done|fold c; lia]|done|].
    by rewrite Z2Nat.id in Hpr by lia.
Qed.

(** Only the hashes and the cached count of one manager changed. *)
Lemma recached_ok k m m' p p' r nt :
  cacheable k m p r nt -> keeps p p' -> cache_inv p' -> same_tables m m' -> framed (request_id r) m m' ->
  num_cached m (request_id r) <= num_cached m' (request_id r) ->
  (forall k0 m0 r0 i x, (ms1 ++ m' :: ms2) !! k0 = Some m0 -> filling m0 r0 i x -> fillable p' m0 i x) ->
  coord_owns others free (ms1 ++ m' :: ms2) p' /\ private (ms1 ++ m' :: ms2) p'.
Proof.
  intros [Ek Ho Hp Hs _ _ _ _ _ _] Hk Hc Hst Hf Hle Hh. split.
  { eapply coord_unfocus; [exact Ho| |apply Hk]. eapply owns_same; [exact Hst|].
    eapply owns_keeps; [exact (coord_focus _ _ _ _ _ _ Ho)|done|done]. }
  assert (forall r', num_cached m r' <= num_cached m' r') as Hle'.
  { intros r'. destruct (decide (r' = request_id r)) as [->|Hr]; [done|]. by rewrite (num_cached_framed _ _ _ _ Hf) by done. }
  assert (forall k0 m0, (ms1 ++ m' :: ms2) !! k0 = Some m0 -> exists n, (ms1 ++ m :: ms2) !! k0 = Some n /\
    (forall r0 i x, slot m0 r0 i x -> slot n r0 i x) /\ forall r0, num_cached n r0 <= num_cached m0 r0) as Hold.
  { intros k0 m0 Hm0. rewrite <- (insert_middle ms1 ms2 m) in Hm0.
    apply list_lookup_insert_Some in Hm0 as [(E1 & E2 & _)|[_ Hm0]]; [subst k0 m0|exists m0; split_and!; [done|done|lia]].
    exists m. split_and!; [by apply list_lookup_middle| |done]. intros r0 i x. destruct Hst as (_ & Et & _ & Eh & _).
    unfold slot, redirecting. by rewrite Et, Eh. }
  eapply private_shrink; [exact Hp|..].
  - intros k0 m0 r0 i x Hm0 Hx. destruct (Hold k0 m0 Hm0) as (n & Hn & Hsl & _). eauto.
  - intros k0 m0 r0 i x Hm0 (Hx & Hx0 & Hi). destruct (Hold k0 m0 Hm0) as (n & Hn & Hsl & Hnc). exists n.
    split; [done|]. specialize (Hnc r0). split_and!; [by apply Hsl|done|lia].
  - intros k0 m0 r0 Hm0. destruct (Hold k0 m0 Hm0) as (n & Hn & _ & Hnc). specialize (Hnc r0).
    pose proof (pv_cached _ _ Hp k0 n r0 Hn). lia.
  - intros k0 m0 r0 i x Hm0 Hx _. by eapply Hh.
Qed.

(** A filled block keeps its place: what is still being filled afterwards was
    before, and keeps its hash if the pool does. *)
Lemma refilled k m m' p p' r nt k0 m0 r0 i x :
  cacheable k m p r nt -> config p' = config p -> same_tables m m' -> framed (request_id r) m m' ->
  num_cached m (request_id r) <= num_cached m' (request_id r) ->
  (ms1 ++ m' :: ms2) !! k0 = Some m0 -> filling m0 r0 i x ->
  exists n, (ms1 ++ m :: ms2) !! k0 = Some n /\ filling n r0 i x /\ block_size m0 = block_size n /\
    (hash_of p' x = hash_of p x -> fillable p' m0 i x) /\
    (k0 = length ms1 -> m0 = m').
Proof.
  intros [Ek Ho Hp Hs _ _ Hen _ _ _] Hc Hst Hf Hle Hm0 Hfl.
  assert (exists n, (ms1 ++ m :: ms2) !! k0 = Some n /\ filling n r0 i x /\ block_size m0 = block_size n /\
    (k0 = length ms1 -> m0 = m')) as (n & Hn & Hfn & Eb & Em).
  { rewrite <- (insert_middle ms1 ms2 m) in Hm0.
    apply list_lookup_insert_Some in Hm0 as [(E1 & E2 & _)|[Hne Hm0]]; [subst k0 m0|exists m0; split_and!; done || congruence].
    exists m. split_and!; [by apply list_lookup_middle| |by destruct Hst|done]. destruct Hfl as ([Hx Hnr] & Hx0 & Hi).
    destruct Hst as (_ & Et & _ & Eh & _). unfold slot, redirecting in *. rewrite Et in Hx. rewrite Eh in Hnr. split_and!; try done.
    destruct (decide (r0 = request_id r)) as [->|Hr]; [lia|]. by rewrite (num_cached_framed _ _ _ _ Hf) in Hi by done. }
  exists n. split_and!; try done. intros E.
  pose proof (pv_hash _ _ Hp k0 n r0 i x Hn Hfn Hen) as [H1 H2].
  assert (hash_block_size p' = hash_block_size p) as Eh by (unfold config in Hc; congruence).
  unfold hash_of in E. injection E as Ea Et. unfold fillable, promotable in *. by rewrite Ea, Et, Eh, Eb.
Qed.

Lemma base_cached k m p r nt replay :
  cacheable k m p r nt ->
  wp (Retention.base_cache_blocks use_int sha256 nt retention replay) (fun _ => cached_step m p r) (m, p, r).
Proof.
  intros Hca. pose proof Hca as [Ek Ho Hp Hs Hconf Hh Hen [Hfe Hme] Hhs Hsl].
  unfold Retention.base_cache_blocks. wp_simpl. fold (num_cached m (request_id r)).
  set (c := num_cached m (request_id r)). set (f := nt / block_size m).
  destruct (c >=? f) eqn:Ecf; bools; wp_simpl; [by apply cached_step_refl|].
  destruct (mask_length (hash_block_size p) retention k m c f (replay ++ if shared_prefix_boundary r =? 0 then [] else [shared_prefix_boundary r]) Hconf ltac:(lia))
    as (mask & Em & Hm).
  exists mask. split; [exact Em|]. unfold Retention.in_mgr, Retention.in_pool. wp_simpl. rewrite wp_get_table. wp_simpl. cbn [fst snd].
  pose proof (cacheable_args k m p r nt mask Hca Ecf Hm) as Hargs. fold c f in Hargs.
  assert (0 <= c) as Hc0 by apply (fa_range _ _ _ _ _ _ _ _ Hargs).
  eapply wp_mono; [eapply (cache_full_blocks_ok use_int sha256); [exact (co_pool _ _ _ _ Ho)|done|done|exact Hargs]|].
  intros [] [p' r'] Hfc. cbn [fst snd] in *. wp_simpl. cbn [fst snd].
  set (m' := set_num_cached (<[request_id r := f]> (num_cached_block (opened (request_id r) m))) (opened (request_id r) m)).
  assert (num_cached m' (request_id r) = f) as En by (unfold num_cached, m'; cbn; by rewrite lookup_insert_eq).
  assert (same_tables m m') as Hst by exact (opened_same (request_id r) m).
  assert (framed (request_id r) m m') as Hf by (unfold m', opened; eauto with frame).
  assert (config p' = config p) as Hcfg by apply (k_config _ _ (fc_keeps _ _ _ _ _ _ _ _ _ _ _ Hfc)).
  destruct (recached_ok k m m' p p' r nt Hca (fc_keeps _ _ _ _ _ _ _ _ _ _ _ Hfc) (fc_inv _ _ _ _ _ _ _ _ _ _ _ Hfc) Hst Hf) as [Ho' Hp'].
  - rewrite En. fold c. lia.
  - intros k0 m0 r0 i x Hm0 Hfl.
    destruct (refilled k m m' p p' r nt k0 m0 r0 i x Hca Hcfg Hst Hf) as (n & Hn & Hfn & _ & Hback & Hsame); [rewrite En; fold c; lia|done|done|].
    apply Hback. unfold hash_of.
    assert (forall j, c <= j < f -> py_get (table m (request_id r)) j <> Some x) as Hout.
    { intros j Hj Hx. rewrite own_slot in Hx by (done || lia).
      destruct (pv_once _ _ Hp k0 n r0 i x (length ms1) m (request_id r) (Z.to_nat j) Hn Hfn) as (E1 & E2 & E3); [by apply list_lookup_middle|done|].
      symmetry in E1. specialize (Hsame E1). subst m0 r0. destruct Hfl as (_ & _ & Hi). rewrite En in Hi. lia. }
    destruct (fc_other _ _ _ _ _ _ _ _ _ _ _ Hfc x) as [E1 E2]; [intros j Hj Hx; by destruct (Hout j Hj)|].
    cbn [fst] in E1, E2. by rewrite E1, E2.
  - split; try done; [by destruct Hst as (_ & Et & _)|apply Hfc].
Qed.

(** The block of the partial tail got a hash of [n] tokens, short of its end. *)
Lemma tail_rehashed k m p r nt n p' r' (idx := n / block_size m) :
  cacheable k m p r nt -> block_size m <> hash_block_size p -> 0 <= n ->
  keeps p p' -> cache_inv p' -> memo_step sha256 r r' ->
  (forall y, hash_of p' y = hash_of p y \/
     (py_get (table m (request_id r)) idx = Some y /\ exists h, hash_of p' y = (Some h, Some n))) ->
  cached_step m p r (opened (request_id r) m, p', r').
Proof.
  intros Hca Hne Hn Hk Hc Hr Hy. pose proof Hca as [Ek Ho Hp Hs [_ [Hb _] _] _ _ _ _ _]. pose proof (Z.div_pos n _ Hn Hb) as Hi.
  pose proof (opened_same (request_id r) m) as Hst. pose proof (k_config _ _ Hk) as Hcfg.
  assert (framed (request_id r) m (opened (request_id r) m)) as Hf by (unfold opened; eauto with frame).
  destruct (recached_ok k m (opened (request_id r) m) p p' r nt Hca Hk Hc Hst Hf) as [Ho' Hp']; [done| |].
  2: { split; try done. by destruct Hst as (_ & Et & _). }
  intros k0 m0 r0 i x Hm0 Hfl.
  destruct (refilled k m _ p p' r nt k0 m0 r0 i x Hca Hcfg Hst Hf ltac:(done) Hm0 Hfl) as (n0 & Hn0 & Hfn & Eb & Hback & Hsame).
  destruct (Hy x) as [E|(Hx & h & E)]; [by apply Hback|]. rewrite own_slot in Hx by done.
  destruct (pv_once _ _ Hp k0 n0 r0 i x (length ms1) m (request_id r) (Z.to_nat idx) Hn0 Hfn) as (Ek0 & Er0 & Ei); [by apply list_lookup_middle|done|].
  symmetry in Ek0. specialize (Hsame Ek0). subst m0 i. unfold fillable, promotable. unfold hash_of in E. injection E as _ Et. split.
  - right. exists n. split; [done|]. rewrite Z2Nat.id by done. cbn [block_size opened set_tables].
    pose proof (Z.div_mod n (block_size m) ltac:(lia)). pose proof (Z.mod_pos_bound n (block_size m) Hb). unfold idx. nia.
  - intros Ebs. exfalso. apply Hne. cbn in Ebs. rewrite Ebs. unfold config in Hcfg. congruence.
Qed.

Lemma tail_cached k m p r nt :
  cacheable k m p r nt -> 1 <= num_prompt_tokens r -> block_size m <> hash_block_size p ->
  wp (Retention.cache_partial_tail_block use_int sha256 nt) (fun _ => cached_step m p r) (m, p, r).
Proof.
  intros Hca Hnp Hne. pose proof Hca as [Ek Ho Hp Hs [[Hg1 Hg2] [Hb Hbm] _] Hh Hen [Hfe Hme] Hhs Hsl].
  unfold Retention.cache_partial_tail_block. wp_simpl.
  set (limit := if use_eagle m then num_prompt_tokens r else num_prompt_tokens r - 1).
  set (n := limit / hash_block_size p * hash_block_size p).
  assert (0 <= n) as Hn by (assert (0 <= limit) by (unfold limit; destruct (use_eagle m); lia); pose proof (Z.div_pos limit _ ltac:(done) Hh); nia).
  destruct ((n =? 0) || (n >? nt)) eqn:E0; bools; wp_simpl; [by apply cached_step_refl|].
  destruct (n mod block_size m =? 0) eqn:E1; bools; wp_simpl; [by apply cached_step_refl|].
  unfold Retention.in_mgr. wp_simpl. rewrite wp_get_table. wp_simpl. cbn [fst snd]. pose proof (Z.div_pos n _ Hn Hb) as Hi.
  assert (cached_step m p r (opened (request_id r) m, p, r)) as Hsame.
  { eapply (tail_rehashed k m p r nt n); try done; [apply (co_pool _ _ _ _ Ho)|by apply memo_step_refl|]. intros y. by left. }
  destruct (n / block_size m >=? zlen (table m (request_id r))) eqn:E2; bools; wp_simpl; [done|].
  destruct (lookup_lt_is_Some_2 (table m (request_id r)) (Z.to_nat (n / block_size m))) as [x Hx]; [lia|].
  exists x. split; [by rewrite py_get_nonneg, Hx|]. unfold Retention.in_pool. wp_simpl. cbn [fst snd].
  assert (Z.of_nat x < num_gpu_blocks p) as Hxr.
  { apply (mo_range _ _ (co_managers _ _ _ _ Ho m ltac:(set_solver)) (request_id r)). by eapply list_elem_of_lookup_2. }
  assert (n mod hash_block_size p = 0) as Hnm by (apply Z.mod_mul; lia).
  eapply wp_mono; [eapply (cache_partial_block_ok use_int sha256 p r free); try done; [apply (co_pool _ _ _ _ Ho)|lia| |]|].
  - etrans; [|exact Hhs]. apply Z.div_le_mono; lia.
  - cbn. rewrite Hg1. lia.
  - intros res [p' r']. cbn [fst snd]. destruct (decide (x = 0%nat)) as [->|Hx0]; [intros [_ [= -> ->]]; by wp_simpl|].
    intros (h & _ & _ & Hi' & Hk & Hr & _ & _ & _ & Hy). wp_simpl. cbn [fst snd].
    eapply (tail_rehashed k m p r nt n); try done; [apply Hi'|].
    intros y. destruct (Hy y) as [|[-> E]]; [by left|]. right. split; [by rewrite py_get_nonneg, Hx|]. eauto.
Qed.

(** The whole [cache_blocks] of one manager. *)
Lemma cacheable_step k m p r nt s : cacheable k m p r nt -> cached_step m p r s -> cacheable k s.1.1 s.1.2 s.2 nt.
Proof.
  intros [Ek Ho Hp Hs Hconf Hh Hen [Hfe Hme] Hhs Hsl] [Ho' Hp' Hf Hpt Et Hc Hr]. pose proof Hr as [[memo Er] Hm'].
  assert (hash_block_size s.1.2 = hash_block_size p /\ enable_caching s.1.2 = enable_caching p) as [E1 E2] by (unfold config in Hc; split; congruence).
  rewrite Er in *. split; rewrite ?E1, ?E2; try done; cbn [request_id block_hashes set_prompt_embeds_per_block_hashes].
  - by rewrite Hpt.
  - by eapply cache_conf_framed.
  - rewrite Et, (fr_size _ _ _ Hf). done.
Qed.

Lemma manager_cached k m p r nt replay :
  cacheable k m p r nt -> 1 <= num_prompt_tokens r ->
  wp (Retention.cache_blocks use_int sha256 nt retention replay) (fun _ => cached_step m p r) (m, p, r).
Proof.
  intros Hca Hnp. unfold Retention.cache_blocks. wp_simpl. eapply wp_mono; [by apply (base_cached k)|].
  intros [] [[m1 p1] r1] Hs. pose proof (cacheable_step _ _ _ _ _ _ Hca Hs) as Hca1. wp_simpl. cbn [fst snd] in *.
  assert (num_prompt_tokens r1 = num_prompt_tokens r) as Enp by (destruct (cs_request _ _ _ _ Hs) as [[memo E] _]; cbn in E; by rewrite E).
  destruct (kind (kv_cache_spec m1)); wp_simpl; try done;
    (destruct (block_size m1 =? hash_block_size p1) eqn:E; bools; wp_simpl; [done|]);
    (eapply wp_mono; [apply (tail_cached k); [done|lia|done]|]; intros [] s' Hs'; by eapply cached_step_trans).
Qed.
End caching.

(** * Every group *)

Section coordinator.
Context (use_int : bool) (sha256 : bytes -> bytes) (others : nat -> Z) (free : list nat).
Context (retention : option Z) (replay : list Z) (cacheable_tokens : single -> Z).

(** Managers before and after a call that only caches. *)
Record recached (id : string) (m m' : single) : Prop := {
  rc_frame : framed id m m';
  rc_partial : partial_hit_reqs m' = partial_hit_reqs m;
  rc_table : table m' id = table m id
}.

(** The part of the contract of [cache_blocks] that concerns manager [k]. *)
Record caching_args (p : BlockPool) (r : Request) (k : nat) (m : single) : Prop := {
  cg_conf : mgr_enable_caching m = true -> cache_conf (hash_block_size p) retention k m;
  cg_caching : mgr_enable_caching m = true -> enable_caching p = true;
  cg_settled : partial_hit_reqs m !! request_id r = None;
  cg_hashed : cacheable_tokens m / hash_block_size p <= zlen (block_hashes r);
  cg_slots : 0 <= cacheable_tokens m <= zlen (table m (request_id r)) * block_size m
}.
Lemma caching_args_config p p' r memo k m : config p' = config p ->
  caching_args p r k m -> caching_args p' (set_prompt_embeds_per_block_hashes memo r) k m.
Proof.
  intros Hc []. assert (hash_block_size p' = hash_block_size p /\ enable_caching p' = enable_caching p) as [E1 E2]
    by (unfold config in Hc; split; congruence). split; rewrite ?E1, ?E2; done.
Qed.

Lemma cache_each_ok todo : forall before p r,
  coord_owns others free (before ++ todo) p -> private (before ++ todo) p ->
  (forall i m, todo !! i = Some m -> caching_args p r (length before + i) m) ->
  0 < hash_block_size p -> request_ok sha256 r -> 1 <= num_prompt_tokens r ->
  exists ms' p' r', Retention.cache_each use_int sha256 cacheable_tokens retention replay todo p r = (Ok tt, (ms', p', r')) /\
    coord_owns others free (before ++ ms') p' /\ private (before ++ ms') p' /\
    Forall2 (recached (request_id r)) todo ms' /\ config p' = config p /\ memo_step sha256 r r'.
Proof.
  induction todo as [|m todo IH]; intros before p r Ho Hp Hargs Hh Hr Hnp.
  { exists [], p, r. split_and!; try done. apply memo_step_refl, Hr. }
  cbn [Retention.cache_each].
  assert (exists m' p' r', (if mgr_enable_caching m then Retention.cache_blocks use_int sha256 (cacheable_tokens m) retention replay (m, p, r)
      else (Ok tt, (m, p, r))) = (Ok tt, (m', p', r')) /\ cached_step sha256 others free before todo m p r (m', p', r')) as (m' & p' & r' & E & Hs).
  { destruct (mgr_enable_caching m) eqn:Em; [|exists m, p, r; split; [done|by apply cached_step_refl]].
    destruct (Hargs 0%nat m eq_refl) as [Hc He Hs Hhs Hsl]. rewrite Nat.add_0_r in Hc.
    assert (cacheable sha256 others free before todo retention (length before) m p r (cacheable_tokens m)) as Hca by (split; auto).
    pose proof (manager_cached use_int sha256 others free before todo retention _ m p r _ replay Hca Hnp) as Hw.
    apply wp_run in Hw as ([] & [[m' p'] r'] & E & Hst). eauto. }
  rewrite E. destruct Hs as [Ho' Hp' Hf Hpt Et Hcfg Hmemo]. cbn [fst snd] in *. pose proof Hmemo as [[memo Er] Hmo].
  destruct (IH (before ++ [m']) p' r') as (ms' & p'' & r'' & E' & Ho'' & Hp'' & Hrc & Hcfg' & Hmemo'); rewrite <- ?app_assoc; try done.
  - intros i n Hi. rewrite Er. eapply caching_args_config; [exact Hcfg|]. specialize (Hargs (S i) n Hi).
    rewrite length_app. simpl. by replace (length before + 1 + i)%nat with (length before + S i)%nat by lia.
  - assert (hash_block_size p' = hash_block_size p) as -> by (unfold config in Hcfg; congruence). done.
  - rewrite Er. split; [apply Hr|by rewrite Er in Hmo].
  - by rewrite Er.
  - rewrite E'. exists (m' :: ms'), p'', r''. rewrite <- app_assoc in Ho'', Hp''. rewrite Er in Hrc. split_and!; try done.
    + by constructor.
    + congruence.
    + by eapply memo_step_trans.
Qed.
End coordinator.

(** [cache_blocks] of the coordinator returns and keeps the invariant. *)
Lemma coordinator_cached use_int sha256 others eagles sbs retention cacheable_tokens c r :
  kv_inv others c ->
  (forall k m, single_type_managers c !! k = Some m -> caching_args retention cacheable_tokens (block_pool c) r k m) ->
  0 < hash_block_size (block_pool c) -> request_ok sha256 r -> 1 <= num_prompt_tokens r ->
  wp (Retention.coordinator_cache_blocks use_int sha256 eagles sbs cacheable_tokens retention) (fun _ s =>
    kv_inv others s.1 /\ config (block_pool s.1) = config (block_pool c) /\
    Forall2 (recached (request_id r)) (single_type_managers c) (single_type_managers s.1) /\ memo_step sha256 r s.2) (c, r).
Proof.
  intros [(free & Ho) Hp Hs] Hargs Hh Hr Hnp.
  destruct (cache_each_ok use_int sha256 others free retention (Retention.get_replay_boundaries eagles sbs r) cacheable_tokens
    (single_type_managers c) [] (block_pool c) r Ho Hp Hargs Hh Hr Hnp) as (ms' & p' & r' & E & Ho' & Hp' & Hrc & Hc & Hm).
  unfold wp, Retention.coordinator_cache_blocks. cbn [fst snd]. rewrite E. cbn [fst snd single_type_managers block_pool].
  split_and!; try done. split; [by exists free|done|]. intros k m r0 Hk.
  destruct (Forall2_lookup_r _ _ _ _ _ Hrc Hk) as (m0 & Hm0 & [_ Ept _]). rewrite Ept. by eapply Hs.
Qed.
