(* ===== verification/KVCacheManager.v ===== *)
(** The KV cache manager ([vllm/v1/core/kv_cache_manager.py]): the interface
    between the scheduler and the coordinator, with the lookup of computed
    blocks, [allocate_slots] and the bookkeeping around them. *)
From Stdlib Require Import ZArith Lia Strings.String.
From stdpp Require Import base numbers list gmap strings.
From S2P Require Import Prelude BlockQueue Request BlockHash HashMap BlockPool PoolOps PoolCache PoolSafety CacheHit.
From S2P Require Import SingleTypeManager TableSafety TableReach Coordinator PrivateTail HybridHit Retention CacheSafety.
Import Pool SingleType.
Open Scope Z_scope.
Local Arguments py_get : simpl never.
Local Arguments Z.of_nat : simpl never.

(** * Data *)

(** [EmptyBlocks] is the shared object [self.empty_kv_cache_blocks]:
    [allocate_slots] compares with it by identity. *)
Inductive KVCacheBlocks :=
| EmptyBlocks
| Blocks (blocks : list (list nat)).

(** [BaseCacheStats] and [PrefixCacheStats]; [hits_by_source] is only written by
    connectors. *)
Record PrefixCacheStats := mkStats {
  stats_reset : bool;
  requests : Z;
  queries : Z;
  hits : Z;
  preempted_requests : Z;
  preempted_queries : Z;
  preempted_hits : Z
}.
Definition new_stats : PrefixCacheStats := mkStats false 0 0 0 0 0 0.
Definition record (num_tokens num_hits : Z) (preempted : bool) (s : PrefixCacheStats) : PrefixCacheStats :=
  if preempted then
    mkStats (stats_reset s) (requests s) (queries s) (hits s)
      (preempted_requests s + 1) (preempted_queries s + num_tokens) (preempted_hits s + num_hits)
  else
    mkStats (stats_reset s) (requests s + 1) (queries s + num_tokens) (hits s + num_hits)
      (preempted_requests s) (preempted_queries s) (preempted_hits s).

(** The coordinator class [get_kv_cache_coordinator] chooses. *)
Inductive coordinator_kind :=
| NoPrefixCache
| Unitary
| HybridCoordinator (attention_groups : list SpecGroup).

(** [retained_hit_group_ids] is empty: no modelled manager has
    [retains_longer_hit]. *)
Record KVCacheManager := mkManager {
  max_model_len : Z;
  kvm_enable_caching : bool;
  log_stats : bool;
  prefix_cache_stats : option PrefixCacheStats;
  coordinator_class : coordinator_kind;
  coordinator : KVCacheCoordinator;
  watermark_blocks : Z;
  kvm_scheduler_block_size : Z;
  eagle_group_ids : gset nat;
  num_reprefillable_tokens : Z;
  retention_interval : option Z;
  pcp_world_size : Z
}.
Definition set_coordinator (c : KVCacheCoordinator) (m : KVCacheManager) : KVCacheManager :=
  mkManager (max_model_len m) (kvm_enable_caching m) (log_stats m) (prefix_cache_stats m) (coordinator_class m) c
    (watermark_blocks m) (kvm_scheduler_block_size m) (eagle_group_ids m) (num_reprefillable_tokens m)
    (retention_interval m) (pcp_world_size m).
Definition set_stats (s : option PrefixCacheStats) (m : KVCacheManager) : KVCacheManager :=
  mkManager (max_model_len m) (kvm_enable_caching m) (log_stats m) s (coordinator_class m) (coordinator m)
    (watermark_blocks m) (kvm_scheduler_block_size m) (eagle_group_ids m) (num_reprefillable_tokens m)
    (retention_interval m) (pcp_world_size m).

Inductive KVCacheSpecKind :=
| FULL_ATTENTION | MLA_ATTENTION | SLIDING_WINDOW | SLIDING_WINDOW_MLA | MAMBA | CHUNKED_LOCAL_ATTENTION
| SINK_FULL_ATTENTION | ENCODER_ONLY_ATTENTION | CROSS_ATTENTION | UNKNOWN.
(** On the modelled specs. *)
Definition get_kv_cache_spec_kind (spec : KVCacheSpec) : KVCacheSpecKind :=
  match kind spec with
  | FullAttention | RSWA _ => FULL_ATTENTION
  | ChunkedLocalAttention _ => CHUNKED_LOCAL_ATTENTION
  | SlidingWindow _ _ => SLIDING_WINDOW
  end.
Definition get_kv_cache_spec_sliding_window (spec : KVCacheSpec) : option Z :=
  match kind spec with SlidingWindow w _ => Some w | _ => None end.

(** * Block lists *)

Module KVBlocks.

Definition blocks_of (num_groups : nat) (b : KVCacheBlocks) : list (list nat) :=
  match b with EmptyBlocks => replicate num_groups [] | Blocks blocks => blocks end.

(** [__add__]: [zip] stops at the shorter tuple. *)
Definition add (a b : list (list nat)) : list (list nat) := zip_with app a b.

Fixpoint select_groups (blocks : list (list nat)) (group_ids : list Z) : outcome (list (list nat)) :=
  match group_ids with
  | [] => Ok []
  | i :: group_ids =>
      let? b := or_raise (py_get blocks i) IndexError in
      let? rest := select_groups blocks group_ids in
      Ok (b :: rest)
  end.
(** Block ids are the blocks themselves here. *)
Definition get_block_ids (blocks : list (list nat)) (allow_none : bool) (group_ids : option (list Z)) :
    outcome (option (list (list nat))) :=
  let? groups := match group_ids with None => Ok blocks | Some ids => select_groups blocks ids end in
  if allow_none && forallb (fun group => zlen group =? 0) groups then Ok None else Ok (Some groups).

Definition get_unhashed_block_ids (p : BlockPool) (blocks : list (list nat)) : outcome (list nat) :=
  match blocks with
  | [group] => Ok (filter (fun b => bool_decide (block_hash (blk p b) = None) = true) group)
  | _ => Raise AssertionError
  end.
Definition get_unhashed_block_ids_all_groups (p : BlockPool) (blocks : list (list nat)) : list (list nat) :=
  map (filter (fun b => bool_decide (block_hash (blk p b) = None) && negb (is_null (blk p b)) = true)) blocks.
Definition new_empty (blocks : list (list nat)) : KVCacheBlocks := Blocks (replicate (length blocks) []).

(** [KVCacheBlocks(blocks) if any(blocks) else self.empty_kv_cache_blocks] *)
Definition create_kv_cache_blocks (blocks : list (list nat)) : KVCacheBlocks :=
  if existsb (fun b => negb (zlen b =? 0)) blocks then Blocks blocks else EmptyBlocks.
End KVBlocks.

(** * The manager *)

Module KVManager.
Section manager.
Context (use_int : bool) (sha256 : bytes -> bytes).

(** The methods run on the manager and the request. *)
Abbreviation St := (KVCacheManager * Request)%type.
Definition on_coordinator {A} (f : M KVCacheCoordinator A) : M St A :=
  zoom (fun s => coordinator s.1) (fun c s => (set_coordinator c s.1, s.2)) f.
Definition on_block_pool {A} (f : M BlockPool A) : M KVCacheManager A :=
  zoom (fun m => block_pool (coordinator m))
    (fun p m => set_coordinator (mkCoordinator (single_type_managers (coordinator m)) p) m) f.

Definition num_kv_cache_groups (m : KVCacheManager) : nat := length (single_type_managers (coordinator m)).

Definition make_prefix_cache_stats : M KVCacheManager (option PrefixCacheStats) :=
  let! enabled := gets log_stats in
  if negb enabled then ret None else
  let! stats := gets prefix_cache_stats in
  modify (set_stats (Some new_stats)) ;;
  ret stats.

Definition prefix_cache_lookup_enabled (m : KVCacheManager) (request : Request) : bool :=
  kvm_enable_caching m && negb (skip_reading_prefix_cache request).

Definition record_prefix_cache_stats (request : Request) (num_hits : Z) : M KVCacheManager unit :=
  let! m := gets (fun m => m) in
  if negb (log_stats m) || negb (prefix_cache_lookup_enabled m request) then ret tt else
  match prefix_cache_stats m with
  | None => raise AssertionError
  | Some s => modify (set_stats (Some (record (num_tokens request) num_hits (num_preemptions request >? 0) s)))
  end.

(** [coordinator.find_longest_cache_hit]: [UnitaryKVCacheCoordinator] looks up its
    only group; fine-grained hits of hybrid models need Mamba layers. *)
Definition find_longest_cache_hit (m : KVCacheManager) (block_hashes : list bytes) (max_cache_hit_length : Z) :
    outcome (list (list nat) * Z * Z) :=
  let c := coordinator m in
  match coordinator_class m with
  | NoPrefixCache => Ok (replicate (num_kv_cache_groups m) [], 0, 0)
  | Unitary =>
      let? mgr := or_raise (py_get (single_type_managers c) 0) IndexError in
      let? found := Hybrid.find_group (block_pool c) (block_size mgr) (pcp_world_size m) block_hashes
                      (mkGroup (kv_cache_spec mgr) [0%nat] (bool_decide (0%nat ∈ eagle_group_ids m))) mgr
                      max_cache_hit_length (bool_decide (0%nat ∈ eagle_group_ids m)) in
      Ok (found.1, found.2, 0)
  | HybridCoordinator groups =>
      Hybrid.find_longest_cache_hit (block_pool c) (single_type_managers c) groups (kvm_scheduler_block_size m) false
        (pcp_world_size m) block_hashes max_cache_hit_length
  end.

(** [coordinator.emit_cached_block_events]: one event per group with hits. *)
Fixpoint emit_groups (specs : list KVCacheSpec) (group_idx : Z) (computed_blocks : list (list nat)) :
    M (BlockPool * Request) unit :=
  match specs, computed_blocks with
  | spec :: specs, group_blocks :: computed_blocks =>
      (if zlen group_blocks =? 0 then ret tt
       else emit_cached_block_events use_int sha256 (zlen group_blocks) (spec_block_size spec) group_idx) ;;
      emit_groups specs (group_idx + 1) computed_blocks
  | _, _ => ret tt
  end.
Definition on_pool_and_request {A} (f : M (BlockPool * Request) A) : M St A :=
  zoom (fun s => (block_pool (coordinator s.1), s.2))
    (fun x s => (set_coordinator (mkCoordinator (single_type_managers (coordinator s.1)) x.1) s.1, x.2)) f.

Definition get_computed_blocks : M St (KVCacheBlocks * Z * Z) :=
  let! s := gets (fun s => s) in
  let '(m, request) := s in
  if negb (prefix_cache_lookup_enabled m request) then ret (EmptyBlocks, 0, 0) else
  let max_cache_hit_length := num_tokens request - 1 in
  let! found := lift (find_longest_cache_hit m (block_hashes request) max_cache_hit_length) in
  let '(computed_blocks, num_new_computed_tokens, num_uncached) := found in
  (if (num_new_computed_tokens >? 0) && enable_kv_cache_events (block_pool (coordinator m)) &&
      bool_decide (default "incremental"%string (kv_cache_report_mode request) = "full"%string)
   then on_pool_and_request (emit_groups (map kv_cache_spec (single_type_managers (coordinator m))) 0 computed_blocks)
   else ret tt) ;;
  let shared_prefix_boundary := if num_uncached =? 0 then 0 else num_new_computed_tokens + num_uncached in
  ret (KVBlocks.create_kv_cache_blocks computed_blocks, num_new_computed_tokens, shared_prefix_boundary).

(** No modelled spec is a Mamba spec, so local hits never diverge. *)
Definition get_computed_blocks_for_connector : M St (KVCacheBlocks * Z * Z * bool) :=
  let! computed := get_computed_blocks in ret (computed, false).

(** [coordinator.get_num_cacheable_tokens] *)
Definition cacheable_tokens (m : KVCacheManager) (num_computed_tokens : Z) (mgr : single) : Z :=
  match coordinator_class m with
  | NoPrefixCache | Unitary => Retention.get_num_cacheable_tokens (num_reprefillable_tokens m) num_computed_tokens
  | HybridCoordinator _ =>
      Retention.hybrid_num_cacheable_tokens false (kvm_scheduler_block_size m) (num_reprefillable_tokens m)
        num_computed_tokens mgr
  end.
Definition coordinator_cache_blocks (num_computed_tokens : Z) : M St unit :=
  let! m := gets fst in
  zoom (fun s => (coordinator s.1, s.2)) (fun x s => (set_coordinator x.1 s.1, x.2))
    (Retention.coordinator_cache_blocks use_int sha256 (eagle_group_ids m) (kvm_scheduler_block_size m)
       (cacheable_tokens m num_computed_tokens) (retention_interval m)).
Definition cache_blocks (num_computed_tokens : Z) : M St unit :=
  let! m := gets fst in
  if kvm_enable_caching m then coordinator_cache_blocks num_computed_tokens else ret tt.

(** ** Slots *)

(** [num_encoder_tokens] is only read by cross-attention managers. *)
Definition allocate_slots (num_new_tokens num_new_computed_tokens : Z) (new_computed_blocks : option KVCacheBlocks)
    (num_lookahead_tokens num_external_computed_tokens : Z) (delay_cache_blocks full_sequence_must_fit : bool)
    (reserved_blocks : Z) (has_scheduled_reqs : bool) (skip_zeroing_group_ids : list Z) : M St (option KVCacheBlocks) :=
  let! s := gets (fun s => s) in
  let '(m, request) := s in
  if (num_new_tokens =? 0) && (num_external_computed_tokens =? 0) && (num_new_computed_tokens =? 0) then raise ValueError else
  let new_computed := default EmptyBlocks new_computed_blocks in
  let new_computed_block_list := KVBlocks.blocks_of (num_kv_cache_groups m) new_computed in
  let num_local_computed_tokens := num_computed_tokens request + num_new_computed_tokens in
  let total_computed_tokens := Z.min (num_local_computed_tokens + num_external_computed_tokens) (max_model_len m) in
  let watermark_blocks :=
    if has_scheduled_reqs && (bool_decide (status request = WAITING) || bool_decide (status request = PREEMPTED))
    then watermark_blocks m else 0 in
  let! fits :=
    if full_sequence_must_fit then
      let full_num_tokens := Z.min (num_tokens request) (max_model_len m) in
      let! num_blocks_to_allocate := lift (Coordinator.get_num_blocks_to_allocate (request_id request) full_num_tokens
        new_computed_block_list total_computed_tokens num_local_computed_tokens true (coordinator m)) in
      let required_blocks := num_blocks_to_allocate + watermark_blocks in
      ret (negb (required_blocks >? get_num_free_blocks (block_pool (coordinator m))))
    else ret true in
  if negb fits then ret None else
  let num_tokens_main_model := total_computed_tokens + num_new_tokens in
  let num_tokens_need_slot := Z.min (num_tokens_main_model + num_lookahead_tokens) (max_model_len m) in
  on_coordinator (Coordinator.remove_skipped_blocks (request_id request)
    (Z.max 0 (total_computed_tokens - num_in_flight_tokens request)) (Some (num_prompt_tokens request))) ;;
  let! c := gets (fun s => coordinator s.1) in
  let! num_blocks_to_allocate := lift (Coordinator.get_num_blocks_to_allocate (request_id request) num_tokens_need_slot
    new_computed_block_list (num_local_computed_tokens + num_external_computed_tokens) num_local_computed_tokens false c) in
  let available_blocks := get_num_free_blocks (block_pool c) - reserved_blocks in
  let required_blocks := num_blocks_to_allocate + watermark_blocks in
  if required_blocks >? available_blocks then ret None else
  (if match new_computed with EmptyBlocks => false | Blocks _ => true end || (num_external_computed_tokens >? 0)
   then on_coordinator (Coordinator.allocate_new_computed_blocks use_int (request_id request) new_computed_block_list
          num_local_computed_tokens num_external_computed_tokens skip_zeroing_group_ids)
   else ret tt) ;;
  let! new_blocks := on_coordinator (Coordinator.allocate_new_blocks use_int (request_id request) num_tokens_need_slot) in
  if delay_cache_blocks then ret (Some (KVBlocks.create_kv_cache_blocks new_blocks)) else
  coordinator_cache_blocks (Z.min (total_computed_tokens + num_new_tokens) (num_tokens request)) ;;
  ret (Some (KVBlocks.create_kv_cache_blocks new_blocks)).

Definition free (request_id : string) : M KVCacheManager unit :=
  zoom coordinator set_coordinator (Coordinator.free request_id).
Definition remove_skipped_blocks (request_id : string) (processed_computed_tokens : Z) (num_prompt_tokens : option Z) :
    M KVCacheManager unit :=
  zoom coordinator set_coordinator (Coordinator.remove_skipped_blocks request_id processed_computed_tokens num_prompt_tokens).
Definition pop_blocks_for_free (request_id : string) : M KVCacheManager (list nat) :=
  zoom coordinator set_coordinator (Coordinator.pop_blocks_for_free request_id).
(** A set of block ids, in its iteration order. *)
Definition evict_blocks (block_ids : list Z) : M KVCacheManager unit := on_block_pool (Pool.evict_blocks use_int block_ids).
(** All modelled managers share one pool. *)
Definition reset_prefix_cache : M KVCacheManager bool :=
  let! ok := on_block_pool Pool.reset_prefix_cache in
  if negb ok then ret false else
  let! m := gets (fun m => m) in
  (if log_stats m then
     match prefix_cache_stats m with
     | None => raise AssertionError
     | Some s => modify (set_stats (Some (mkStats true (requests s) (queries s) (hits s) (preempted_requests s)
                                            (preempted_queries s) (preempted_hits s))))
     end
   else ret tt) ;;
  ret true.
Definition get_num_common_prefix_blocks (running_request_id : string) : M KVCacheManager (list Z) :=
  let! m := gets (fun m => m) in
  match coordinator_class m with
  | NoPrefixCache => ret (replicate (num_kv_cache_groups m) 0)
  | _ => zoom coordinator set_coordinator (Coordinator.get_num_common_prefix_blocks running_request_id)
  end.

(** Events with the kind and window of their group. *)
Definition annotate (m : KVCacheManager) (e : KVCacheEvent) : KVCacheEvent * option (KVCacheSpecKind * option Z) :=
  (e, match e with
      | BlockStored _ _ _ _ _ _ _ _ group_idx _ =>
          if (group_idx <? 0) || (group_idx >=? Z.of_nat (num_kv_cache_groups m)) then None
          else mgr ← single_type_managers (coordinator m) !! Z.to_nat group_idx;
               Some (get_kv_cache_spec_kind (kv_cache_spec mgr), get_kv_cache_spec_sliding_window (kv_cache_spec mgr))
      | _ => None
      end).
Definition take_events : M KVCacheManager (list (KVCacheEvent * option (KVCacheSpecKind * option Z))) :=
  let! m := gets (fun m => m) in
  let! events := on_block_pool Pool.take_events in
  ret (map (annotate m) events).

Definition get_blocks (m : KVCacheManager) (request_id : string) : list (list nat) :=
  KVBlocks.blocks_of (num_kv_cache_groups m)
    (KVBlocks.create_kv_cache_blocks (Coordinator.get_blocks request_id (coordinator m))).
Definition get_block_ids (m : KVCacheManager) (request_id : string) : list (list nat) := get_blocks m request_id.
(** The modelled specs are all attention specs. *)
Definition get_block_ids_for_computed_tokens (m : KVCacheManager) (request_id : string) (num_computed_tokens : Z) :
    list (list nat) :=
  zip_with (fun mgr ids => py_upto (cdiv num_computed_tokens (spec_block_size (kv_cache_spec mgr))) ids)
    (single_type_managers (coordinator m)) (get_block_ids m request_id).

(** The modelled specs are all prefix-cacheable. *)
Definition group_cached_tokens (p : BlockPool) (blocks : list nat) : Z :=
  foldl (fun acc b => Z.max acc (default 0 (block_hash_num_tokens (blk p b)))) 0 blocks.
Definition estimate_cached_tokens (m : KVCacheManager) (request : Request) : Z :=
  default 0 (foldl (fun cached blocks =>
      let n := group_cached_tokens (block_pool (coordinator m)) blocks in
      Some (match cached with None => n | Some c => Z.min c n end))
    None (take (num_kv_cache_groups m) (get_blocks m (request_id request)))).

Fixpoint truncate_groups (managers : list single) (blocks : list (list nat)) (num_computed_tokens : Z) :
    outcome (list (list nat)) :=
  match managers, blocks with
  | [], [] => Ok []
  | mgr :: managers, group_blocks :: blocks =>
      if negb (num_computed_tokens mod block_size mgr =? 0) then Raise AssertionError else
      let num_blocks := num_computed_tokens / block_size mgr in
      if num_blocks >? zlen group_blocks then Raise AssertionError else
      let? rest := truncate_groups managers blocks num_computed_tokens in
      Ok (py_upto num_blocks group_blocks :: rest)
  | _, _ => Raise ValueError
  end.
Definition truncate_computed_blocks (m : KVCacheManager) (blocks : KVCacheBlocks) (num_computed_tokens : Z) :
    outcome KVCacheBlocks :=
  let? truncated := truncate_groups (single_type_managers (coordinator m))
                      (KVBlocks.blocks_of (num_kv_cache_groups m) blocks) num_computed_tokens in
  Ok (KVBlocks.create_kv_cache_blocks truncated).

Definition take_new_block_ids : M KVCacheManager (list nat) :=
  let! ids := zoom coordinator set_coordinator (each_manager (fun _ => on_mgr SingleType.take_new_block_ids)) in
  ret (concat ids).
Definition record_blocks_for_zeroing (request_id : string) (start_token : Z) : M KVCacheManager unit :=
  zoom coordinator set_coordinator (each_manager (fun _ =>
    let! mgr := on_mgr (gets (fun m => m)) in
    if record_new_block_ids mgr then
      assert_ (start_token mod block_size mgr =? 0) ;;
      let start_idx := start_token / block_size mgr in
      let! blocks := on_mgr (get_table request_id) in
      on_mgr (modify (fun m => set_new_ids (new_block_ids m ++ py_from start_idx blocks) m))
    else ret tt)) ;; ret tt.
(** The copies, as pairs of source and destination, and their retained ends. *)
Definition take_kv_cache_block_copies : M KVCacheManager (list (nat * nat) * list nat) :=
  let! pending := zoom coordinator set_coordinator (each_manager (fun _ => on_mgr take_pending_cow_copies)) in
  let copies := concat pending in
  ret (copies, cow_ends copies).
End manager.
End KVManager.

(** * Construction *)

(** The fields of [KVCacheGroupSpec] and of its spec the manager reads;
    [requires_block_zeroing] is a property of the spec. *)
Record KVCacheGroupSpec := mkCacheGroup {
  cg_spec : KVCacheSpec;
  is_eagle_group : bool;
  requires_block_zeroing : bool
}.
Definition dcp_sharded (g : KVCacheGroupSpec) : bool := spec_dcp_sharded (cg_spec g).
Record KVCacheConfig := mkCacheConfig {
  num_blocks : Z;
  kv_cache_groups : list KVCacheGroupSpec;
  prefix_cache_retention_interval : option Z;
  needs_kv_cache_zeroing : bool
}.
Definition set_use_eagle (b : bool) (m : single) : single :=
  mkSingle (kv_cache_spec m) (dcp_world_size m) (block_size m) (mgr_enable_caching m) (kv_cache_group_id m)
    (cache_hit_alignment_tokens m) (max_admission_blocks_per_request m) (record_new_block_ids m) b
    (new_block_ids m) (req_to_blocks m) (num_cached_block m) (partial_hit_reqs m) (pending_cow_copies m).

Module KVInit.
Section init.
Context (kv_cache_config : KVCacheConfig) (max_model_len max_in_flight_tokens : Z) (eagle enable_caching events : bool)
  (dcp pcp scheduler_block_size hash_block_size : Z) (metrics : bool) (num_prefill_lookahead : Z).
Abbreviation groups := (kv_cache_groups kv_cache_config).

Definition eagle_group_ids : gset nat :=
  let ids := list_to_set (filter (fun i => match groups !! i with Some g => is_eagle_group g | None => false end = true)
                            (seq 0 (length groups))) in
  if eagle && bool_decide (ids = (∅ : gset nat)) then list_to_set (seq 0 (length groups)) else ids.

Definition group_manager (i : nat) (g : KVCacheGroupSpec) : single :=
  get_manager_for_kv_cache_spec (cg_spec g) max_in_flight_tokens max_model_len dcp scheduler_block_size
    (Z.of_nat i) enable_caching (needs_kv_cache_zeroing kv_cache_config && requires_block_zeroing g).

(** [KVCacheCoordinator.__init__], for positive block sizes. *)
Definition coordinator_init : outcome KVCacheCoordinator :=
  if negb ((scheduler_block_size mod hash_block_size =? 0) &&
           forallb (fun g => scheduler_block_size mod spec_block_size (cg_spec g) =? 0) groups)
  then Raise AssertionError else
  let? block_pool := Pool.init (num_blocks kv_cache_config) enable_caching hash_block_size events metrics "GPU" in
  if enable_caching && negb (bool_decide (eagle_group_ids = ∅)) && (scheduler_block_size <? num_prefill_lookahead)
  then Raise ValueError else
  let managers := imap group_manager groups in
  let? _ := Retention.validate_prefix_cache_retention_interval (prefix_cache_retention_interval kv_cache_config)
              scheduler_block_size (map cg_spec groups) in
  Ok (mkCoordinator managers block_pool).

Definition unitary_init : outcome KVCacheCoordinator :=
  let? c := coordinator_init in
  let? mgr := or_raise (py_get (single_type_managers c) 0) IndexError in
  if negb (negb enable_caching || (hash_block_size =? block_size mgr)) then Raise AssertionError else
  if negb (zlen groups =? 1) then Raise AssertionError else
  Ok (mkCoordinator (alter (set_use_eagle (bool_decide (0%nat ∈ eagle_group_ids))) 0%nat (single_type_managers c))
        (block_pool c)).

(** The managers of the groups that EAGLE applies to. *)
Definition mark_eagle (attention_groups : list SpecGroup) (managers : list single) : list single :=
  foldl (fun managers g =>
    if group_eagle g then foldl (fun managers gid => alter (set_use_eagle true) gid managers) managers (group_ids g)
    else managers) managers attention_groups.
Definition hybrid_init : outcome (KVCacheCoordinator * list SpecGroup) :=
  let? c := coordinator_init in
  if negb (forallb (fun mgr => block_size mgr mod hash_block_size =? 0) (single_type_managers c)) then Raise AssertionError else
  if negb (forallb (fun g => (negb (pcp >? 1) && negb (dcp >? 1)) || is_full (cg_spec g) || negb (dcp_sharded g)) groups)
  then Raise AssertionError else
  let? attention_groups := Hybrid.verify_and_split_kv_cache_groups (map cg_spec groups) eagle_group_ids in
  Ok (mkCoordinator (mark_eagle attention_groups (single_type_managers c)) (block_pool c), attention_groups).

Definition get_kv_cache_coordinator : outcome (KVCacheCoordinator * coordinator_kind) :=
  if negb enable_caching then
    let? c := coordinator_init in Ok (c, NoPrefixCache)
  else if zlen groups =? 1 then
    let? c := unitary_init in Ok (c, Unitary)
  else
    let? x := hybrid_init in Ok (x.1, HybridCoordinator x.2).

(** [watermark_blocks] is [int(watermark * num_blocks)] for a watermark that is
    not negative. *)
Definition init (log_stats : bool) (watermark_blocks : Z) : outcome KVCacheManager :=
  let? x := get_kv_cache_coordinator in
  Ok (mkManager max_model_len enable_caching log_stats (if log_stats then Some new_stats else None) x.2 x.1
        watermark_blocks scheduler_block_size eagle_group_ids (Z.max 0 (num_prefill_lookahead - 1))
        (prefix_cache_retention_interval kv_cache_config) pcp).
End init.
End KVInit.
