(* ===== verification/KVManagerSafety.v ===== *)
(** [allocate_slots] of the KV cache manager ([vllm/v1/core/kv_cache_manager.py])
    within its calling contract: it returns, reports exactly the lack of blocks,
    and keeps the invariant of all groups; and the states a scheduler can reach. *)
From Stdlib Require Import ZArith Lia Strings.String.
From stdpp Require Import base numbers list gmap strings.
From S2P Require Import Prelude BlockQueue Request BlockHash HashMap BlockPool PoolOps PoolCache PoolSafety CacheHit.
From S2P Require Import SingleTypeManager TableSafety TableReach Coordinator PrivateTail HybridHit Retention CacheSafety KVCacheManager.
Import Pool SingleType.
Open Scope Z_scope.
Local Arguments py_get : simpl never.
Local Arguments Z.of_nat : simpl never.

Abbreviation managers m := (single_type_managers (coordinator m)).
Abbreviation pool m := (block_pool (coordinator m)).

(** * The number of blocks to allocate *)

Section demand.
Context (r : string) (nt : Z).

(** A request that the managers know gets no new hits. *)
Lemma demand_defined blocks total nl cap p ms : forall i,
  (forall k m, ms !! k = Some m -> exists b, blocks !! (i + k)%nat = Some b /\ (num_cached_block m !! r = None \/ b = [])) ->
  exists n, Coordinator.sum_blocks_to_allocate r nt blocks total nl cap p (Z.of_nat i) ms = Ok n.
Proof.
  induction ms as [|m ms IH]; intros i Hb; [by eexists|]. cbn [Coordinator.sum_blocks_to_allocate].
  destruct (Hb 0%nat m eq_refl) as (b & E & Hm). rewrite Nat.add_0_r in E. rewrite py_get_nat, E. cbn [or_raise obind].
  destruct (IH (S i)) as [rest Er]. { intros k n Hk. specialize (Hb (S k) n Hk). by rewrite Nat.add_succ_comm. }
  replace (Z.of_nat i + 1) with (Z.of_nat (S i)) by lia. rewrite Er.
  unfold SingleType.get_num_blocks_to_allocate. destruct (num_cached_block m !! r); [|by eexists].
  destruct Hm as [Hm| ->]; [done|by eexists].
Qed.

(** The demand of a request whose tables hold its computed tokens. *)
Lemma running_demand1 total m p :
  0 < block_size m -> spec_ok m -> 0 <= total <= zlen (table m r) * block_size m -> partial_hit_reqs m !! r = None ->
  SingleType.get_num_blocks_to_allocate r nt [] total total false (m, p) = Ok (new_need m r nt).
Proof.
  intros Hb Hs Ht Hp. unfold SingleType.get_num_blocks_to_allocate, new_need, cow_need. rewrite Hp.
  destruct (num_cached_block m !! r); [f_equal; lia|]. change (has_partial_local_hit m [] total) with false. cbn [length].
  pose proof (skipped_blocks_bound m total Hs ltac:(lia) Hb) as [_ Hk]. unfold skipped_blocks in Hk.
  assert (cdiv total (block_size m) <= zlen (table m r)).
  { pose proof (cdiv_spec total (block_size m) Hb). nia. }
  assert (get_num_evictable_blocks p (py_from (Z.max 0 (get_num_skipped_tokens m total / block_size m - zlen (table m r))) []) = 0) as ->.
  { unfold py_from. by rewrite drop_nil. }
  f_equal. lia.
Qed.

Lemma running_demand total n p ms : forall i, (i + length ms <= n)%nat ->
  (forall m, m ∈ ms -> 0 < block_size m /\ spec_ok m /\ 0 <= total <= zlen (table m r) * block_size m /\ partial_hit_reqs m !! r = None) ->
  Coordinator.sum_blocks_to_allocate r nt (replicate n []) total total false p (Z.of_nat i) ms = Ok (sum_need r nt ms).
Proof.
  induction ms as [|m ms IH]; intros i Hn Hm; [done|]. cbn [Coordinator.sum_blocks_to_allocate sum_need foldr length] in *.
  rewrite py_get_nat, (lookup_replicate_2 n []) by lia. cbn [or_raise obind].
  destruct (Hm m) as (Hb & Hs & Ht & Hp); [by left|]. rewrite running_demand1 by done. cbn [obind].
  replace (Z.of_nat i + 1) with (Z.of_nat (S i)) by lia. rewrite IH; [done|lia|]. intros m' Hm'. apply Hm. by right.
Qed.
End demand.

(** * Contract *)

Record kvm_ok (others : nat -> Z) (m : KVCacheManager) : Prop := {
  km_inv : kv_inv others (coordinator m);
  km_conf : forall k g, managers m !! k = Some g -> spec_ok g /\ mgr_enable_caching g = enable_caching (pool m) /\
    (mgr_enable_caching g = true -> cache_conf (hash_block_size (pool m)) (retention_interval m) k g);
  km_sizes : 0 < hash_block_size (pool m) /\ 0 < kvm_scheduler_block_size m;
  km_bounds : 0 <= watermark_blocks m /\ 0 <= num_reprefillable_tokens m
}.

Section contract.
Context (sha256 : bytes -> bytes) (m : KVCacheManager) (r : Request).

(** The request: hashed, within the model length. *)
Record request_fits : Prop := {
  rf_ok : request_ok sha256 r;
  rf_prompt : 1 <= num_prompt_tokens r;
  rf_length : num_tokens r <= max_model_len m;
  rf_hashed : num_tokens r / hash_block_size (pool m) <= zlen (block_hashes r)
}.

(** A request that holds slots for its computed tokens (a running request, or a
    new one without hits). *)
Definition holds_computed (new_computed : KVCacheBlocks) (nnc ne : Z) : Prop :=
  new_computed = EmptyBlocks /\ nnc = 0 /\ ne = 0 /\
  forall g, g ∈ managers m -> num_computed_tokens r <= zlen (table g (request_id r)) * block_size g.
(** A new request with hits in the pool that no other request is filling. *)
Definition admits (new_computed : KVCacheBlocks) (nnc ne : Z) : Prop :=
  (match new_computed with EmptyBlocks => false | Blocks _ => true end || (ne >? 0)) = true /\
  num_computed_tokens r = 0 /\
  Forall2 (fresh_with (request_id r) nnc (pool m)) (managers m) (KVBlocks.blocks_of (length (managers m)) new_computed) /\
  hits_shared nnc (KVBlocks.blocks_of (length (managers m)) new_computed) (coordinator m) (managers m).

Record slots_args (nn nnc nla ne : Z) (new_computed : KVCacheBlocks) (reserved : Z) : Prop := {
  sa_request : request_fits;
  sa_tokens : 0 <= nn /\ 0 <= nnc /\ 0 <= nla /\ 0 <= ne /\ 0 <= num_computed_tokens r;
  sa_some : nn <> 0 \/ nnc <> 0 \/ ne <> 0;
  sa_length : num_computed_tokens r + nnc + ne <= max_model_len m;
  sa_reserved : 0 <= reserved;
  sa_blocks : holds_computed new_computed nnc ne \/ admits new_computed nnc ne
}.
End contract.

(** * Stages *)

Lemma framed_elem r ms ms' g' : Forall2 (framed r) ms ms' -> g' ∈ ms' -> exists g, g ∈ ms /\ framed r g g'.
Proof.
  intros Hf (k & Hk)%list_elem_of_lookup. destruct (Forall2_lookup_r _ _ _ _ _ Hf Hk) as (g & Hg & H).
  exists g. split; [by eapply list_elem_of_lookup_2|done].
Qed.

Lemma spec_ok_framed r g g' : framed r g g' -> spec_ok g -> spec_ok g'.
Proof. intros Hf. unfold spec_ok. by rewrite (fr_spec _ _ _ Hf). Qed.

(** The configuration survives every operation on one request. *)
Lemma kvm_ok_step others m r c :
  kvm_ok others m -> kv_inv others c -> config (block_pool c) = config (pool m) ->
  Forall2 (framed r) (managers m) (single_type_managers c) -> kvm_ok others (set_coordinator c m).
Proof.
  intros [_ Hc Hs Hb] Hi Hcfg Hf. assert (hash_block_size (block_pool c) = hash_block_size (pool m) /\
    enable_caching (block_pool c) = enable_caching (pool m)) as [E1 E2] by (unfold config in Hcfg; split; congruence).
  split; cbn [coordinator set_coordinator retention_interval kvm_scheduler_block_size watermark_blocks num_reprefillable_tokens]; rewrite ?E1, ?E2; try done.
  intros k g' Hk. destruct (Forall2_lookup_r _ _ _ _ _ Hf Hk) as (g & Hg & Hfr). destruct (Hc k g Hg) as (Hsp & He & Hcc).
  rewrite (fr_caching _ _ _ Hfr). split_and!; [by eapply spec_ok_framed|done|]. intros Hen. eapply cache_conf_framed; [exact Hfr|auto].
Qed.

Lemma kvm_sizes others m g : kvm_ok others m -> g ∈ managers m -> 0 < block_size g.
Proof.
  intros [[(free & Ho) _ _] _ _ _] Hg. apply (mo_size _ _ (co_managers _ _ _ _ Ho g Hg)).
Qed.

(** Removing skipped blocks leaves the contract of the allocation intact. *)
Lemma untouched_removed r ms ms' x :
  settled ms -> settled ms' -> Forall2 (framed r) ms ms' -> Forall2 (removed r) ms ms' -> untouched ms x -> untouched ms' x.
Proof.
  intros Hs Hs' Hf Hr Hu k g' r' i Hk ([Hx Hnr] & Hx0 & Hi).
  destruct (Forall2_lookup_r _ _ _ _ _ Hf Hk) as (g & Hg & Hfr). destruct (Forall2_lookup_r _ _ _ _ _ Hr Hk) as (g2 & Hg2 & [_ Hrc Hrt]). simplify_eq.
  apply (Hu k g r' i Hg). destruct (decide (r' = r)) as [->|Hne].
  - split_and!; [|done|].
    + split; [by apply Hrt|]. intros [b Hb]. by rewrite (Hs k g r Hg) in Hb.
    + unfold num_cached in *. by rewrite <- Hrc.
  - split_and!; [|done|].
    + by apply (slot_framed r g g').
    + by rewrite <- (num_cached_framed r g g' r' Hfr Hne).
Qed.

Lemma fresh_removed r nl p p' g g' b :
  framed r g g' -> removed r g g' -> config p' = config p -> fresh_with r nl p g b -> fresh_with r nl p' g' b.
Proof.
  intros Hf [Hl Hc _] Hcfg [Hs Ht Hn [H1 H2 H3 H4] Hcov]. split.
  - by eapply spec_ok_framed.
  - apply nil_length_inv. by rewrite Hl, Ht.
  - by rewrite Hc.
  - split; rewrite ?(fr_size _ _ _ Hf), ?(fr_caching _ _ _ Hf), ?(config_num _ _ Hcfg); done.
  - by rewrite (fr_size _ _ _ Hf).
Qed.

Section stages.
Context (use_int : bool) (sha256 : bytes -> bytes) (others : nat -> Z) (r : Request) (nn nnc nla ne : Z)
  (new_computed : KVCacheBlocks) (reserved : Z).
Abbreviation id := (request_id r).

Lemma args_removed m c :
  kvm_ok others m -> kv_inv others c -> slots_args sha256 m r nn nnc nla ne new_computed reserved ->
  config (block_pool c) = config (pool m) ->
  Forall2 (framed id) (managers m) (single_type_managers c) -> Forall2 (removed id) (managers m) (single_type_managers c) ->
  slots_args sha256 (set_coordinator c m) r nn nnc nla ne new_computed reserved.
Proof.
  intros Hm Hc [[Hr1 Hr2 Hr3 Hr4] Ht Hs Hl Hrs Hb] Hcfg Hf Hrm.
  assert (hash_block_size (block_pool c) = hash_block_size (pool m)) as Eh by (unfold config in Hcfg; congruence).
  pose proof (Forall2_length _ _ _ Hf) as El. split; try done.
  { split; try done. cbn. by rewrite Eh. }
  destruct Hb as [(E1 & E2 & E3 & Hcov)|(E1 & E2 & Hfr & Hsh)]; [left|right].
  - split_and!; try done. intros g' (k & Hk)%list_elem_of_lookup. cbn in Hk.
    destruct (Forall2_lookup_r _ _ _ _ _ Hf Hk) as (g & Hg & Hfr). destruct (Forall2_lookup_r _ _ _ _ _ Hrm Hk) as (g2 & Hg2 & Hr). assert (g2 = g) as -> by congruence.
    rewrite (rm_length _ _ _ Hr), (fr_size _ _ _ Hfr). apply Hcov. by eapply list_elem_of_lookup_2.
  - unfold admits. cbn [coordinator set_coordinator]. rewrite <- El. split_and!; try done.
    + apply Forall2_same_length_lookup_2; [pose proof (Forall2_length _ _ _ Hfr); congruence|]. intros k g' b Hk Hbk.
      destruct (Forall2_lookup_r _ _ _ _ _ Hf Hk) as (g & Hg & Hg'). destruct (Forall2_lookup_r _ _ _ _ _ Hrm Hk) as (g2 & Hg2 & Hr). assert (g2 = g) as -> by congruence.
      eapply fresh_removed; [done|done|exact Hcfg|]. by eapply (Forall2_lookup_lr _ _ _ _ _ _ Hfr).
    + intros k g' b Hk Hbk j x Hx Hx0 Hj. eapply untouched_removed; [exact (ki_settled _ _ (km_inv _ _ Hm))|exact (ki_settled _ _ Hc)|done|done|].
      destruct (Forall2_lookup_r _ _ _ _ _ Hf Hk) as (g & Hg & Hg'). rewrite (fr_size _ _ _ Hg') in Hj. by eapply Hsh.
Qed.

Abbreviation need_slot m := (Z.min (num_computed_tokens r + nnc + ne + nn + nla) (max_model_len m)).
Abbreviation block_list m := (KVBlocks.blocks_of (length (managers m)) new_computed).
Abbreviation total := (num_computed_tokens r + nnc + ne).

(** The demand is always defined; [demand] is the one the allocation must meet. *)
Lemma demand_ok m nt t nl cap :
  slots_args sha256 m r nn nnc nla ne new_computed reserved ->
  exists n, Coordinator.get_num_blocks_to_allocate id nt (block_list m) t nl cap (coordinator m) = Ok n.
Proof.
  intros [_ _ _ _ _ Hb]. apply (demand_defined id nt _ _ _ _ _ _ 0%nat). intros k g Hg. simpl.
  destruct Hb as [(-> & _)|(_ & _ & Hf & _)].
  - exists []. split; [|by right]. apply lookup_replicate_2. by apply lookup_lt_Some in Hg.
  - destruct (Forall2_lookup_l _ _ _ _ _ Hf Hg) as (b & Hb & Hfr). exists b. split; [done|]. left. apply Hfr.
Qed.

(** Enough free blocks suffice for the allocation. *)
Lemma slots_allocated m n skip_zeroing :
  kvm_ok others m -> slots_args sha256 m r nn nnc nla ne new_computed reserved ->
  Coordinator.get_num_blocks_to_allocate id (need_slot m) (block_list m) total (num_computed_tokens r + nnc) false (coordinator m) = Ok n ->
  n <= get_num_free_blocks (pool m) ->
  wp ((if match new_computed with EmptyBlocks => false | Blocks _ => true end || (ne >? 0)
       then Coordinator.allocate_new_computed_blocks use_int id (block_list m) (num_computed_tokens r + nnc) ne skip_zeroing
       else ret tt) ;; Coordinator.allocate_new_blocks use_int id (need_slot m))
    (fun _ c => kv_inv others c /\ config (block_pool c) = config (pool m) /\
       Forall2 (framed id) (managers m) (single_type_managers c) /\
       forall g, g ∈ single_type_managers c -> need_slot m <= zlen (table g id) * block_size g) (coordinator m).
Proof.
  intros Hm [_ Ht _ Hl _ Hb] En Hn. pose proof (km_inv _ _ Hm) as Hi.
  destruct Hb as [(E1 & E2 & E3 & Hcov)|(E1 & E2 & Hfr & Hsh)].
  - rewrite E1, E2, E3, !Z.add_0_r in *. cbn [orb]. change (0 >? 0) with false. cbv iota. wp_simpl.
    assert (n = sum_need id (Z.min (num_computed_tokens r + nn + nla) (max_model_len m)) (managers m)) as Es.
    { unfold Coordinator.get_num_blocks_to_allocate in En. cbn [KVBlocks.blocks_of] in En.
      assert (Ok n = Ok (sum_need id (Z.min (num_computed_tokens r + nn + nla) (max_model_len m)) (managers m))) as [= ->]; [|done].
      rewrite <- En. apply (running_demand id _ _ _ _ _ 0%nat); [done|]. intros g Hg.
      apply list_elem_of_lookup in Hg as Hk. destruct Hk as [k Hk].
      split_and!; [by eapply kvm_sizes|by apply (km_conf _ _ Hm k)|lia|by apply Hcov|by eapply (ki_settled _ _ Hi)]. }
    eapply wp_mono; [apply (allocate_running_ok use_int others); [done|by rewrite <- Es]|].
    intros new c (Hi' & Hc & Hf & Hlen). split_and!; try done. intros g' (k & Hk)%list_elem_of_lookup.
    destruct (Forall2_lookup_r _ _ _ _ _ Hf Hk) as (g & Hg & Hfr). destruct (Forall2_lookup_r _ _ _ _ _ Hlen Hk) as (g2 & Hg2 & Hr).
    assert (g2 = g) as -> by congruence. rewrite Hr, (fr_size _ _ _ Hfr).
    assert (0 < block_size g) as Hb by (eapply kvm_sizes; [done|by eapply list_elem_of_lookup_2]).
    pose proof (cdiv_spec (Z.min (num_computed_tokens r + nn + nla) (max_model_len m)) (block_size g) Hb). nia.
  - rewrite E1. rewrite E2, !Z.add_0_l in *. set (nt := Z.min (nnc + ne + nn + nla) (max_model_len m)) in *.
    assert (0 <= nnc /\ 0 <= ne /\ nnc + ne <= nt) as Htok by (unfold nt; lia).
    assert (admissible others id nnc (block_list m) (coordinator m)) as Had by (split; [apply Hi|done]).
    assert (n = predicted nt nnc ne (pool m) (managers m) (block_list m)) as Ep.
    { assert (Ok n = Ok (predicted nt nnc ne (pool m) (managers m) (block_list m))) as [= ->]; [|done]. rewrite <- En.
      apply (sum_ok id nt nnc ne (block_list m) Htok _ _ _ []); [done| |done]. intros g Hg. by eapply kvm_sizes. }
    eapply wp_mono; [apply (admitted_ok use_int others id nt nnc ne (block_list m) skip_zeroing Htok); [done|done|done|by rewrite <- Ep]|].
    intros new c (Hi' & Hf & Hc & Hfin). split_and!; try done. intros g' (k & Hk)%list_elem_of_lookup.
    destruct (Forall2_lookup_l _ _ _ _ _ Hfin Hk) as (b & _ & Hg'). rewrite (fi_length _ _ _ _ _ _ Hg').
    destruct (Forall2_lookup_r _ _ _ _ _ Hf Hk) as (g & Hg & Hfr2).
    assert (0 < block_size g') as Hb by (rewrite (fr_size _ _ _ Hfr2); eapply kvm_sizes; [done|by eapply list_elem_of_lookup_2]).
    pose proof (cdiv_spec nt (block_size g') Hb). nia.
Qed.

(** Caching what is final among the tokens with slots. *)
Lemma cacheable_bound m n g : kvm_ok others m -> 0 < block_size g -> 0 <= n -> 0 <= KVManager.cacheable_tokens m n g <= n.
Proof.
  intros [_ _ [_ Hs] [_ Hrp]] Hb Hn. unfold KVManager.cacheable_tokens, Retention.get_num_cacheable_tokens.
  assert (forall x, 0 <= x -> 0 <= Retention.round_down x (kvm_scheduler_block_size m) <= x) as Hr.
  { intros x Hx. unfold Retention.round_down. pose proof (Z.mul_div_le x _ Hs). pose proof (Z.div_pos x _ Hx Hs). nia. }
  destruct (coordinator_class m); [lia|lia|]. unfold Retention.hybrid_num_cacheable_tokens, Retention.align_cacheable.
  pose proof (Hr n Hn). pose proof (Hr (Z.max 0 (n - num_reprefillable_tokens m)) ltac:(lia)). destruct (use_eagle g && _); lia.
Qed.

Lemma slots_cached m n :
  kvm_ok others m -> request_fits sha256 m r -> 0 <= n <= num_tokens r ->
  (forall g, g ∈ managers m -> n <= zlen (table g id) * block_size g) ->
  wp (KVManager.coordinator_cache_blocks use_int sha256 n) (fun _ s => exists c, s.1 = set_coordinator c m /\
    kv_inv others c /\ config (block_pool c) = config (pool m) /\
    Forall2 (recached id) (managers m) (single_type_managers c) /\ memo_step sha256 r s.2) (m, r).
Proof.
  intros Hm [Hr Hnp Hlen Hhs] Hn Hsl. unfold KVManager.coordinator_cache_blocks. wp_simpl. cbn [fst snd].
  eapply wp_mono; [apply (coordinator_cached use_int sha256 others); [apply Hm| |apply Hm|done|done]|].
  - intros k g Hg. destruct (km_conf _ _ Hm k g Hg) as (_ & He & Hcc). assert (g ∈ managers m) as Hin by (by eapply list_elem_of_lookup_2).
    assert (0 < block_size g) as Hb by (by eapply kvm_sizes). pose proof (cacheable_bound m n g Hm Hb ltac:(lia)) as Hcb.
    split; try done.
    + intros Hen. congruence.
    + by eapply (ki_settled _ _ (km_inv _ _ Hm)).
    + etrans; [|exact Hhs]. apply Z.div_le_mono; [apply Hm|lia].
    + specialize (Hsl g Hin). lia.
  - intros [] [c r'] (Hi & Hc & Hrc & Hmemo). exists c. by split_and!.
Qed.
End stages.

(** * [allocate_slots] *)

Section slots.
Context (use_int : bool) (sha256 : bytes -> bytes) (others : nat -> Z) (r : Request) (nn nnc nla ne : Z)
  (blocks : option KVCacheBlocks) (delay full : bool) (reserved : Z) (scheduled : bool) (skip_zeroing : list Z).
Abbreviation id := (request_id r).
Abbreviation new_computed := (default EmptyBlocks blocks).

Definition watermark (m : KVCacheManager) : Z :=
  if scheduled && (bool_decide (status r = WAITING) || bool_decide (status r = PREEMPTED)) then watermark_blocks m else 0.

(** The two tests for free blocks that may turn the request away. *)
Definition full_too_large (m : KVCacheManager) : Prop :=
  full = true /\ exists n, Coordinator.get_num_blocks_to_allocate id (Z.min (num_tokens r) (max_model_len m))
    (KVBlocks.blocks_of (length (managers m)) new_computed) (num_computed_tokens r + nnc + ne) (num_computed_tokens r + nnc)
    true (coordinator m) = Ok n /\ get_num_free_blocks (pool m) < n + watermark m.
Definition step_too_large (m : KVCacheManager) : Prop :=
  exists n, Coordinator.get_num_blocks_to_allocate id (Z.min (num_computed_tokens r + nnc + ne + nn + nla) (max_model_len m))
    (KVBlocks.blocks_of (length (managers m)) new_computed) (num_computed_tokens r + nnc + ne) (num_computed_tokens r + nnc)
    false (coordinator m) = Ok n /\ get_num_free_blocks (pool m) - reserved < n + watermark m.

Record slots_result (m : KVCacheManager) (res : option KVCacheBlocks) (s : KVCacheManager * Request) : Prop := {
  sr_ok : kvm_ok others s.1;
  sr_config : exists c, s.1 = set_coordinator c m /\ config (block_pool c) = config (pool m);
  sr_frame : Forall2 (framed id) (managers m) (managers s.1);
  sr_memo : memo_step sha256 r s.2;
  sr_result : match res with
    | Some _ => forall g, g ∈ managers s.1 ->
        Z.min (num_computed_tokens r + nnc + ne + nn + nla) (max_model_len m) <= zlen (table g id) * block_size g
    | None => (s.1 = m /\ full_too_large m) \/
        (step_too_large s.1 /\ Forall2 (removed id) (managers m) (managers s.1))
    end
}.

Abbreviation need_slot m := (Z.min (num_computed_tokens r + nnc + ne + nn + nla) (max_model_len m)).
Abbreviation block_list m := (KVBlocks.blocks_of (length (managers m)) new_computed).
Definition commit (new_blocks : list (list nat)) : M (KVCacheManager * Request) (option KVCacheBlocks) :=
  if delay then ret (Some (KVBlocks.create_kv_cache_blocks new_blocks)) else
  KVManager.coordinator_cache_blocks use_int sha256 (Z.min (num_computed_tokens r + nnc + ne + nn) (num_tokens r)) ;;
  ret (Some (KVBlocks.create_kv_cache_blocks new_blocks)).

(** With slots for all tokens, the final ones are cached. *)
Lemma slots_committed m c new_blocks :
  kvm_ok others m -> slots_args sha256 m r nn nnc nla ne new_computed reserved ->
  kv_inv others c -> config (block_pool c) = config (pool m) -> Forall2 (framed id) (managers m) (single_type_managers c) ->
  (forall g, g ∈ single_type_managers c -> need_slot m <= zlen (table g id) * block_size g) ->
  wp (commit new_blocks) (fun res s => is_Some res /\ slots_result m res s) (set_coordinator c m, r).
Proof.
  intros Hm Ha Hi Hc Hf Hlen. pose proof (kvm_ok_step others m id c Hm Hi Hc Hf) as Hm'. unfold commit.
  pose proof (sa_request _ _ _ _ _ _ _ _ _ Ha) as Hr. pose proof (sa_tokens _ _ _ _ _ _ _ _ _ Ha) as Ht.
  destruct delay; wp_simpl; [split; [done|]; split; try done; [by exists c|apply memo_step_refl, Hr]|].
  eapply wp_mono; [apply (slots_cached use_int sha256 others r (set_coordinator c m)); [done| | |]|].
  - destruct Hr as [H1 H2 H3 H4]. split; try done. cbn. by replace (hash_block_size (block_pool c)) with (hash_block_size (pool m)) by (unfold config in Hc; congruence).
  - unfold num_tokens. lia.
  - intros g Hg. specialize (Hlen g Hg). pose proof (rf_length _ _ _ Hr). lia.
  - intros [] [m2 r2] (c2 & E & Hi2 & Hc2 & Hrc & Hmemo). cbn [fst snd] in E, Hmemo. subst m2. wp_simpl.
    assert (Forall2 (framed id) (single_type_managers c) (single_type_managers c2)) as Hf2 by (eapply Forall2_impl; [exact Hrc|by intros ?? []]).
    split; [done|]. split; cbn [fst snd]; try done; [by eapply (kvm_ok_step others (set_coordinator c m) id c2)|exists c2; split; [done|by etrans; [exact Hc2|exact Hc]]|by etrans|].
    intros g' (k & Hk)%list_elem_of_lookup. destruct (Forall2_lookup_r _ _ _ _ _ Hrc Hk) as (g & Hg & [Hfg _ Et]).
    rewrite Et, (fr_size _ _ _ Hfg). apply Hlen. by eapply list_elem_of_lookup_2.
Qed.

(** The allocation once enough blocks are free. *)
Lemma slots_after_check m n :
  kvm_ok others m -> slots_args sha256 m r nn nnc nla ne new_computed reserved ->
  Coordinator.get_num_blocks_to_allocate id (need_slot m) (block_list m) (num_computed_tokens r + nnc + ne)
    (num_computed_tokens r + nnc) false (coordinator m) = Ok n -> n <= get_num_free_blocks (pool m) ->
  wp (let! _ := (if match new_computed with EmptyBlocks => false | Blocks _ => true end || (ne >? 0)
        then KVManager.on_coordinator (Coordinator.allocate_new_computed_blocks use_int id (block_list m)
               (num_computed_tokens r + nnc) ne skip_zeroing)
        else ret tt) in
      let! new_blocks := KVManager.on_coordinator (Coordinator.allocate_new_blocks use_int id (need_slot m)) in
      commit new_blocks) (fun res s => is_Some res /\ slots_result m res s) (m, r).
Proof.
  intros Hm Ha En Hn.
  pose proof (slots_allocated use_int sha256 others r nn nnc nla ne new_computed reserved m n skip_zeroing Hm Ha En Hn) as Hw.
  unfold KVManager.on_coordinator. destruct (_ || (ne >? 0)); autorewrite with py in Hw |- *; cbn [fst snd] in *.
  - eapply wp_mono; [exact Hw|]. intros [] c1 Hw1. wp_simpl. cbn [fst snd coordinator set_coordinator] in *.
    eapply wp_mono; [exact Hw1|]. intros new c (Hi & Hc & Hf & Hlen). by apply (slots_committed m c).
  - eapply wp_mono; [exact Hw|]. intros new c (Hi & Hc & Hf & Hlen). by apply (slots_committed m c).
Qed.

(** Everything after the full-sequence gate. *)
Lemma slots_after_gate m :
  kvm_ok others m -> slots_args sha256 m r nn nnc nla ne new_computed reserved ->
  wp (KVManager.on_coordinator (Coordinator.remove_skipped_blocks id
        (Z.max 0 (num_computed_tokens r + nnc + ne - num_in_flight_tokens r)) (Some (num_prompt_tokens r))) ;;
      let! c := gets (fun s => coordinator s.1) in
      let! num_blocks := lift (Coordinator.get_num_blocks_to_allocate id (need_slot m) (block_list m)
        (num_computed_tokens r + nnc + ne) (num_computed_tokens r + nnc) false c) in
      if num_blocks + watermark m >? get_num_free_blocks (block_pool c) - reserved then ret None else
      let! _ := (if match new_computed with EmptyBlocks => false | Blocks _ => true end || (ne >? 0)
        then KVManager.on_coordinator (Coordinator.allocate_new_computed_blocks use_int id (block_list m)
               (num_computed_tokens r + nnc) ne skip_zeroing)
        else ret tt) in
      let! new_blocks := KVManager.on_coordinator (Coordinator.allocate_new_blocks use_int id (need_slot m)) in
      commit new_blocks) (slots_result m) (m, r).
Proof.
  intros Hm Ha. unfold KVManager.on_coordinator at 1. wp_simpl. cbn [fst snd]. pose proof (sa_request _ _ _ _ _ _ _ _ _ Ha) as Hr.
  eapply wp_mono; [apply (remove_private others id); [apply Hm|]|].
  { intros g (k & Hg)%list_elem_of_lookup. split; [lia|intros ? [= <-]; pose proof (rf_prompt _ _ _ Hr); lia|].
    intros ch Hch. destruct (km_conf _ _ Hm k g Hg) as [Hs _]. unfold spec_ok in Hs. by rewrite Hch in Hs. }
  intros [] c (Hi & Hc & Hf & Hrm). set (m1 := set_coordinator c m). wp_simpl. cbn [fst snd].
  assert (kvm_ok others m1) as Hm1 by (by eapply kvm_ok_step).
  assert (slots_args sha256 m1 r nn nnc nla ne new_computed reserved) as Ha1 by (by eapply args_removed).
  assert (block_list m = block_list m1) as El by (unfold m1; cbn [coordinator set_coordinator]; by rewrite (Forall2_length _ _ _ Hf)).
  rewrite El. change (max_model_len m) with (max_model_len m1). change (watermark m) with (watermark m1).
  destruct (demand_ok sha256 r nn nnc nla ne new_computed reserved m1 (need_slot m1) (num_computed_tokens r + nnc + ne)
    (num_computed_tokens r + nnc) false Ha1) as [n En]. exists n. split; [exact En|].
  destruct (_ >? _) eqn:E; bools; wp_simpl.
  - split; cbn [fst snd]; [done|by exists c|done|apply memo_step_refl, Hr|]. right. split; [|done]. exists n. split; [exact En|exact E].
  - assert (n <= get_num_free_blocks (pool m1)) as Hn.
    { pose proof (sa_reserved _ _ _ _ _ _ _ _ _ Ha). pose proof (proj1 (km_bounds _ _ Hm1)).
      assert (0 <= watermark m1) by (unfold watermark; destruct (scheduled && _); lia).
      lia. }
    pose proof (slots_after_check m1 n Hm1 Ha1 En Hn) as Hw. rewrite wp_bind in Hw. eapply wp_mono; [exact Hw|].
    intros [] s Hs. rewrite wp_bind in Hs |- *. eapply wp_mono; [exact Hs|]. intros new s' Hs'. eapply wp_mono; [exact Hs'|].
    intros res s'' ([b ->] & [H1 (c' & E' & Hc') H2 H3 H4]). split; try done; [|by etrans]. exists c'. by rewrite Hc'.
Qed.

Lemma slots_ok m :
  kvm_ok others m -> slots_args sha256 m r nn nnc nla ne new_computed reserved ->
  wp (KVManager.allocate_slots use_int sha256 nn nnc blocks nla ne delay full reserved scheduled skip_zeroing)
    (slots_result m) (m, r).
Proof.
  intros Hm Ha. pose proof (slots_after_gate m Hm Ha) as Hgate. pose proof Ha as [Hr Ht Hsome Hl _ _].
  unfold KVManager.allocate_slots. rewrite wp_bind, wp_gets.
  destruct ((nn =? 0) && (ne =? 0) && (nnc =? 0)) eqn:E0; [bools; lia|].
  rewrite (Z.min_l (num_computed_tokens r + nnc + ne)) by lia. unfold KVManager.num_kv_cache_groups. fold (watermark m).
  destruct full eqn:Ef; [|rewrite wp_bind, wp_ret; exact Hgate].
  destruct (demand_ok sha256 r nn nnc nla ne new_computed reserved m (Z.min (num_tokens r) (max_model_len m))
    (num_computed_tokens r + nnc + ne) (num_computed_tokens r + nnc) true Ha) as [n En].
  rewrite wp_bind, wp_bind, wp_lift. exists n. split; [exact En|]. rewrite wp_ret.
  destruct (n + watermark m >? get_num_free_blocks (pool m)) eqn:Eg; bools; cbn [negb]; [|exact Hgate].
  rewrite wp_ret. split; cbn [fst snd]; [done|by exists (coordinator m); destruct m|done|apply memo_step_refl, Hr|]. left. split; [done|]. split; [done|]. eauto.
Qed.
End slots.
