(* ===== verification/KVManagerReach.v ===== *)
(** The KV cache manager over time: a lookup's hits satisfy the contract of
    [allocate_slots], and every state a scheduler reaches through the manager's
    methods is safe ([vllm/v1/core/kv_cache_manager.py]). *)
From Stdlib Require Import ZArith Lia Strings.String.
From stdpp Require Import base numbers list gmap strings.
From S2P Require Import Prelude BlockQueue Request BlockHash HashMap BlockPool PoolOps PoolCache PoolSafety CacheHit.
From S2P Require Import SingleTypeManager TableSafety TableReach Coordinator PrivateTail HybridHit FoundBlocks Retention CacheSafety.
From S2P Require Import KVCacheManager KVManagerSafety.
Import Pool SingleType.
Open Scope Z_scope.
Local Arguments py_get : simpl never.
Local Arguments Z.of_nat : simpl never.

(** * Lookups *)

Definition hit_alignment (m : KVCacheManager) : Z :=
  match coordinator_class m with
  | NoPrefixCache | Unitary => hash_block_size (pool m)
  | HybridCoordinator _ => kvm_scheduler_block_size m
  end.

(** The configurations in which all groups hash at their own block size:
    every single-group model, and hybrid models with one block size. *)
Record lookup_conf (m : KVCacheManager) : Prop := {
  lc_class : match coordinator_class m with
    | NoPrefixCache => kvm_enable_caching m = false
    | Unitary => length (managers m) = 1%nat
    | HybridCoordinator groups =>
        Hybrid.verify_and_split_kv_cache_groups (map kv_cache_spec (managers m)) (eagle_group_ids m) = Ok groups
    end;
  lc_groups : managers m <> [] /\ zlen (managers m) <= 2 ^ 32;
  lc_sizes : 0 < hash_block_size (pool m) /\ 0 < hit_alignment m;
  lc_fits : forall i g, managers m !! i = Some g ->
    manager_fits (pool m) (eagle_group_ids m) (hit_alignment m) (pcp_world_size m) i g;
  lc_block_size : forall i g, managers m !! i = Some g -> block_size g = hash_block_size (pool m);
  lc_caching : forall i g, managers m !! i = Some g -> mgr_enable_caching g = kvm_enable_caching m;
  lc_pcp : coordinator_class m = Unitary -> forall g, g ∈ managers m -> is_full (kv_cache_spec g) = false -> pcp_world_size m = 1
}.

(** A registered block, or the null block. *)
Definition registered (p : BlockPool) (x : nat) : Prop := x = null_block p \/ exists key, holds p key x.

Record found_hits (m : KVCacheManager) (max : Z) (blocks : list (list nat)) (H : Z) : Prop := {
  fh_length : length blocks = length (managers m);
  fh_range : 0 <= H <= max;
  fh_aligned : H mod hash_block_size (pool m) = 0;
  fh_each : forall k g b, managers m !! k = Some g -> blocks !! k = Some b -> zlen b = H / block_size g;
  fh_registered : Forall (Forall (registered (pool m))) blocks
}.

Lemma probe_registered p gs h cached :
  cache_inv p -> (forall g, g ∈ gs -> 0 <= g < 2 ^ 32) -> probe p gs h = Ok (Some cached) -> Forall (registered p) cached.
Proof.
  intros Hc Hg. unfold probe. destruct (get_cached_ok p h gs Hc Hg) as (res & -> & Hres). cbn [obind].
  destruct res as [[|b l]|]; intros [= <-]. apply Forall_forall. intros x Hx. right.
  apply list_elem_of_lookup in Hx as [i Hi]. destruct (Forall2_lookup_r _ _ _ _ _ Hres Hi) as (g & _ & Hh). eauto.
Qed.

Section lookup.
Context (m : KVCacheManager) (hs : list bytes) (max0 : Z).
Hypothesis conf : lookup_conf m.
Hypothesis pool_ok : cache_inv (pool m).
Hypothesis hashed : 0 <= max0 /\ max0 / hash_block_size (pool m) <= zlen hs.

Lemma lookup_args : hybrid_args (pool m) (managers m) (eagle_group_ids m) (hit_alignment m) (pcp_world_size m) hs max0.
Proof. destruct conf. split; done. Qed.

Lemma unitary_found :
  coordinator_class m = Unitary ->
  exists blocks H, KVManager.find_longest_cache_hit m hs max0 = Ok (blocks, H, 0) /\ found_hits m max0 blocks H.
Proof.
  intros Ec. pose proof (lc_class _ conf) as Hlen. rewrite Ec in Hlen. destruct (managers m) as [|g [|]] eqn:Em; try done.
  pose proof lookup_args as Ha. pose proof (lc_block_size _ conf 0%nat g) as Eb. rewrite Em in Ha, Eb. specialize (Eb eq_refl).
  assert (hit_alignment m = hash_block_size (pool m)) as Eal by (unfold hit_alignment; by rewrite Ec).
  set (eagle := bool_decide (0%nat ∈ eagle_group_ids m)). set (sg := mkGroup (kv_cache_spec g) [0%nat] eagle).
  assert (group_ok (pool m) [g] (hit_alignment m) (pcp_world_size m) sg g) as Hg.
  { apply (group_ok_pcp _ _ _ (SingleType.manager_pcp (pcp_world_size m) g)).
    2: { cbn. apply (lc_pcp _ conf Ec). rewrite Em. by left. }
    eapply (leader_ok (pool m) [g] (eagle_group_ids m) (hit_alignment m) (pcp_world_size m) hs max0 [sg] sg g); [done| |done|by left|].
    - constructor; [|done]. split; [done|by intros i ->%list_elem_of_singleton|]. intros He. exists 0%nat.
      split; [by left|]. by apply bool_decide_eq_true in He.
    - by exists 0%nat, []. }
  destruct (find_group_ok (pool m) [g] (hit_alignment m) (pcp_world_size m) hs (lc_sizes _ conf) sg g max0 eagle Hg)
    as (rows & L & E & HL & _ & Hr & Hh & _); [apply hashed|apply hashed|done|].
  exists (by_group 1 rows), L. split.
  - unfold KVManager.find_longest_cache_hit. rewrite Ec, Em. cbn [or_raise py_get]. change (py_get [g] 0) with (Some g). cbn [or_raise obind].
    rewrite Eb, <- Eal. fold eagle sg. by rewrite E.
  - split; [by rewrite by_group_length, Em|done| | |].
    + rewrite <- Eb. apply Hh.
    + intros [|k] g' b Hg' Hb; rewrite Em in Hg'; simplify_eq/=. rewrite length_map. by rewrite (rw_length _ _ _ _ _ _ Hr).
    + change (all_found (registered (pool m)) (by_group (length (group_ids sg)) rows, L).1).
      eapply (find_group_found (pool m) (registered (pool m)) (or_introl eq_refl) [sg] (hit_alignment m) hs); [|by left|exact E].
      intros g0 h cached ->%list_elem_of_singleton. apply probe_registered; [done|]. intros z ->%list_elem_of_singleton. lia.
Qed.

Lemma hybrid_hits_found groups :
  coordinator_class m = HybridCoordinator groups ->
  exists blocks H extra, KVManager.find_longest_cache_hit m hs max0 = Ok (blocks, H, extra) /\ found_hits m max0 blocks H.
Proof.
  intros Ec. pose proof (lc_class _ conf) as Hsplit. rewrite Ec in Hsplit.
  assert (hit_alignment m = kvm_scheduler_block_size m) as Eal by (unfold hit_alignment; by rewrite Ec).
  destruct (hybrid_lookup_ok _ _ _ _ _ _ _ lookup_args) as (groups' & blocks & H & extra & Es & Ef & HH & _ & Hres & _).
  rewrite Hsplit in Es. injection Es as <-. rewrite Eal in Ef.
  assert (forall g h cached, g ∈ groups -> probe (pool m) (map Z.of_nat (group_ids g)) h = Ok (Some cached) -> Forall (registered (pool m)) cached) as Hpr.
  { intros g h cached Hg. apply probe_registered; [done|]. intros z (i & -> & Hi)%list_elem_of_fmap.
    destruct (verify_and_split_ok (map kv_cache_spec (managers m)) (eagle_group_ids m)) as (gs & Es & _ & Hmb & _).
    { destruct (lc_groups _ conf) as [Hne _]. by destruct (managers m). }
    rewrite Hsplit in Es. injection Es as <-. rewrite Forall_forall in Hmb.
    pose proof (mb_spec _ _ _ (Hmb g Hg) i Hi) as Hl. apply lookup_lt_Some in Hl. rewrite length_map in Hl.
    pose proof (proj2 (lc_groups _ conf)). lia. }
  destruct (hybrid_found (pool m) (registered (pool m)) (or_introl eq_refl) _ _ _ _ _ _ _ _ _ _ Hpr Ef) as [Hall Hlen].
  exists blocks, H, extra. split; [unfold KVManager.find_longest_cache_hit; by rewrite Ec|].
  assert (forall k g, managers m !! k = Some g -> H mod block_size g = 0 /\
    forall b, blocks !! k = Some b -> zlen b = H / block_size g) as Heach.
  { intros k g Hk. destruct (Hres k g Hk) as (sg & g' & _ & Hin & _ & (f & rest & _ & Hf) & Hh & rows & Hrows & Hcol).
    pose proof (lc_block_size _ conf k g Hk). pose proof (lc_block_size _ conf f g' Hf). split; [destruct Hh; congruence|].
    intros b Hb. apply list_elem_of_lookup in Hin as [j Hj]. rewrite (Hcol j k Hj) in Hb. simplify_eq. unfold column.
    rewrite length_map, (rw_length _ _ _ _ _ _ Hrows). congruence. }
  split; try done.
  - destruct (lc_groups _ conf) as [Hne _]. destruct (managers m) as [|g l] eqn:Em; [done|].
    rewrite <- (lc_block_size _ conf 0%nat g) by (by rewrite Em). by apply (Heach 0%nat g).
  - intros k g b Hk Hb. by apply (Heach k g).
Qed.
End lookup.

(** * Events for reused blocks *)

Section emission.
Context (use_int : bool) (sha256 : bytes -> bytes).

Lemma cached_event_step_ok p r r' hs bs i ch ks j :
  0 <= bs -> 0 <= i < zlen hs -> features_ok (mm_features r) -> memo_step sha256 r r' -> passed (mm_features r) j (i * bs) ->
  wp (cached_event_step use_int sha256 (Raw hs) bs (ch, ks, j) i) (fun acc s => s.1 = p /\ memo_step sha256 r s.2 /\
    passed (mm_features r) acc.2 ((i + 1) * bs)) (p, r').
Proof.
  intros Hbs Hi Hf Hs Hp. unfold cached_event_step. wp_simpl. cbn [hl_get].
  destruct (lookup_lt_is_Some_2 hs (Z.to_nat i)) as [h Eh]; [lia|]. exists h.
  split; [by rewrite py_get_nonneg, Eh by lia|]. wp_simpl. cbn [snd]. pose proof Hs as [[mm ->] Hmemo].
  eapply wp_mono; [by apply (generate_keys_ok sha256); [..|lia|]|].
  intros kk r2 (_ & Hp' & Hs'). wp_simpl. cbn [fst snd]. split_and!; [done| |].
  - eapply memo_step_trans; [exact Hs|exact Hs'].
  - by replace ((i + 1) * bs) with (i * bs + bs) by lia.
Qed.

(** Only the event queue and the memo change. *)
Definition announced (p p' : BlockPool) : Prop := exists q, p' = set_kv_events q p.
Lemma announced_refl p : announced p p.
Proof. exists (kv_event_queue p). by destruct p. Qed.
Lemma announced_trans p1 p2 p3 : announced p1 p2 -> announced p2 p3 -> announced p1 p3.
Proof. intros [q ->] [q' ->]. by exists q'. Qed.

Lemma emit_cached_ok p r bs n g :
  bs = hash_block_size p -> 0 < bs -> 0 <= n <= zlen (block_hashes r) -> request_ok sha256 r ->
  wp (emit_cached_block_events use_int sha256 n bs g) (fun _ s => announced p s.1 /\ memo_step sha256 r s.2) (p, r).
Proof.
  intros -> Hbs Hn [Hf Hm]. unfold emit_cached_block_events. wp_simpl. cbn [fst snd].
  pose proof (conj (announced_refl p) (memo_step_refl _ _ Hm)) as H0.
  destruct (negb (enable_kv_cache_events p) || (n =? 0)); wp_simpl; [done|]. cbn [fst snd].
  unfold resolve_block_hashes. rewrite Z.eqb_refl. eexists; split; [done|]. wp_simpl. cbn [fst snd].
  apply (wp_fold _ _ _ (fun done_ todo acc s => s.1 = p /\ memo_step sha256 r s.2 /\
    forall i, i ∈ todo -> passed (mm_features r) acc.2 (i * hash_block_size p))).
  - split_and!; [done|by apply memo_step_refl|]. intros i _. split; [cbn; lia|]. intros k f _ Hk. cbn in Hk. lia.
  - intros done_ i todo [[ch ks] j] [p' r'] E (Hp & Hs & Hpass). simpl in *. subst p'.
    assert (i ∈ py_range 0 n) as Hi by (rewrite E; set_solver). apply elem_of_py_range in Hi.
    eapply wp_mono; [apply (cached_event_step_ok p r r'); try done; [lia|lia|apply Hpass; by left]|].
    intros acc s (H1 & H2 & H3). split_and!; try done. intros k Hk. eapply passed_mono; [exact H3|].
    assert (i + 1 <= k); [|nia]. by apply (py_range_later 0 n done_ i todo).
  - intros [[ch ks] j] [p' r'] (H1 & H2 & _). simpl in *. subst p'.
    destruct ch; wp_simpl; cbn [fst snd]; [split; [apply announced_refl|done]|]. split; [by eexists|done].
Qed.

Lemma emit_groups_ok specs : forall i blocks p r,
  0 < hash_block_size p -> Forall (fun spec => spec_block_size spec = hash_block_size p) specs ->
  Forall (fun b => zlen b <= zlen (block_hashes r)) blocks -> request_ok sha256 r ->
  wp (KVManager.emit_groups use_int sha256 specs i blocks) (fun _ s => announced p s.1 /\ memo_step sha256 r s.2) (p, r).
Proof.
  induction specs as [|spec specs IH]; intros i blocks p r Hp Hs Hb Hr; cbn [KVManager.emit_groups].
  { wp_simpl. split; [apply announced_refl|apply memo_step_refl, Hr]. }
  destruct blocks as [|b blocks]; [wp_simpl; split; [apply announced_refl|apply memo_step_refl, Hr]|].
  apply Forall_cons in Hs as [E Hs]. apply Forall_cons in Hb as [Hlb Hb]. wp_simpl.
  assert (forall p1 r1, announced p p1 -> memo_step sha256 r r1 ->
    wp (KVManager.emit_groups use_int sha256 specs (i + 1) blocks) (fun _ s => announced p s.1 /\ memo_step sha256 r s.2) (p1, r1)) as Hrest.
  { intros p1 r1 [q ->] Hm. pose proof Hm as [[mm ->] Hmo]. eapply wp_mono; [apply IH; try done|].
    - split; [apply Hr|done].
    - intros [] s [H1 H2]. split; [eapply announced_trans; [by eexists|done]|]. eapply memo_step_trans; [exact Hm|exact H2]. }
  destruct (zlen b =? 0); wp_simpl; [apply Hrest; [apply announced_refl|apply memo_step_refl, Hr]|].
  eapply wp_mono; [apply (emit_cached_ok p r); [done|by rewrite E|lia|done]|].
  intros [] [p1 r1] [H1 H2]. by apply Hrest.
Qed.
End emission.

(** * New requests *)

(** A request that no group knows. *)
Record startable (m : KVCacheManager) (r : Request) : Prop := {
  st_computed : num_computed_tokens r = 0;
  st_tokens : 1 <= num_tokens r;
  st_tables : forall g, g ∈ managers m -> table g (request_id r) = [] /\ num_cached_block g !! request_id r = None
}.

Lemma blocks_of_create n blocks :
  length blocks = n -> KVBlocks.blocks_of n (KVBlocks.create_kv_cache_blocks blocks) = blocks.
Proof.
  intros <-. unfold KVBlocks.create_kv_cache_blocks. destruct (existsb _ blocks) eqn:E; [done|]. cbn [KVBlocks.blocks_of].
  induction blocks as [|b blocks IH]; [done|]. cbn [existsb length replicate] in *. apply orb_false_iff in E as [E1 E2].
  rewrite IH by done. destruct b; [done|]. bools. cbn in E1. lia.
Qed.

Lemma create_empty blocks b :
  KVBlocks.create_kv_cache_blocks blocks = EmptyBlocks -> b ∈ blocks -> b = [].
Proof.
  unfold KVBlocks.create_kv_cache_blocks. destruct (existsb _ blocks) eqn:E; [done|]. intros _ Hb.
  destruct b; [done|]. apply not_true_iff_false in E. destruct E. apply existsb_exists. eexists. split; [by apply list_elem_of_In|].
  rewrite negb_true_iff, Z.eqb_neq. cbn [length]. lia.
Qed.

Section admitting.
Context (sha256 : bytes -> bytes) (others : nat -> Z) (m : KVCacheManager) (r : Request).
Hypothesis ok : kvm_ok others m.
Hypothesis conf : lookup_conf m.
Hypothesis start : startable m r.

Lemma kvm_pool_inv : exists free, inv (pool m) free.
Proof. destruct (ki_owned _ _ (km_inv _ _ ok)) as [free Ho]. exists free. apply Ho. Qed.

Lemma registered_zero x : registered (pool m) x -> x <> 0%nat -> exists key, holds (pool m) key x.
Proof. destruct kvm_pool_inv as [free [Hq _]]. intros [->|H]; [by rewrite (qi_null _ _ _ _ Hq)|done]. Qed.

(** Nobody fills a registered block. *)
Lemma registered_untouched x :
  kvm_enable_caching m = true -> registered (pool m) x -> x <> 0%nat -> untouched (managers m) x.
Proof.
  intros He Hx Hx0 k g r' i Hk Hf. destruct (registered_zero x Hx Hx0) as [key Hh]. destruct kvm_pool_inv as [free [_ Hc]].
  destruct (km_conf _ _ ok k g Hk) as (_ & Ee & _). rewrite (lc_caching _ conf k g Hk), He in Ee.
  destruct (pv_hash _ _ (ki_private _ _ (km_inv _ _ ok)) k g r' i x Hk Hf) as [_ Hn]; [done|].
  eapply (no_hash_not_held sha256); [exact Hc| |exact Hh]. apply Hn. by eapply (lc_block_size _ conf).
Qed.

Lemma registered_range x : registered (pool m) x -> Z.of_nat x < num_gpu_blocks (pool m).
Proof.
  intros Hx. destruct kvm_pool_inv as [free [Hq Hc]]. destruct (decide (x = 0%nat)) as [->|Hx0]; [pose proof (qi_pos _ _ _ _ Hq); lia|].
  destruct (registered_zero x Hx Hx0) as [key Hh]. apply (hi_range _ _ _ _ Hc). intros Hn. by eapply (no_hash_not_held sha256); [exact Hc|exact Hn|exact Hh].
Qed.

Section found.
Context (blocks : list (list nat)) (H max : Z).
Hypothesis found : found_hits m max blocks H.
Hypothesis cached : kvm_enable_caching m = true \/ H = 0.

Lemma found_cover k g b : managers m !! k = Some g -> blocks !! k = Some b -> zlen b = H / block_size g /\ H mod block_size g = 0.
Proof.
  intros Hk Hb. split; [by eapply (fh_each _ _ _ _ found)|]. rewrite (lc_block_size _ conf k g Hk). apply found.
Qed.

Lemma found_fresh : Forall2 (fresh_with (request_id r) H (pool m)) (managers m) blocks.
Proof.
  apply Forall2_same_length_lookup_2; [symmetry; apply found|]. intros k g b Hk Hb.
  destruct (found_cover k g b Hk Hb) as [El Em]. assert (g ∈ managers m) as Hg by (by eapply list_elem_of_lookup_2).
  assert (0 < block_size g) as Hbs by (by eapply kvm_sizes).
  destruct (st_tables _ _ start g Hg) as [Et En]. split; [by apply (km_conf _ _ ok k)|done|done| |].
  - split; [| |apply found|].
    + intros x Hx. apply registered_range. pose proof (fh_registered _ _ _ _ found) as Hr. rewrite Forall_forall in Hr.
      specialize (Hr b (list_elem_of_lookup_2 _ _ _ Hb)). rewrite Forall_forall in Hr. by apply Hr.
    + destruct cached as [Hc| ->]; [left; by rewrite (lc_caching _ conf k g Hk)|right]. rewrite Zdiv_0_l in El. by apply nil_length_inv; lia.
    + done.
  - rewrite El. pose proof (cdiv_spec H (block_size g) Hbs). pose proof (Z.mul_div_le H _ Hbs). nia.
Qed.

Lemma found_shared : hits_shared H blocks (coordinator m) (managers m).
Proof.
  intros k g b Hk Hb j x Hx Hx0 Hj. destruct cached as [Hc| ->]; [|rewrite Zdiv_0_l in Hj; lia].
  apply registered_untouched; [done| |done]. pose proof (fh_registered _ _ _ _ found) as Hr. rewrite Forall_forall in Hr.
  specialize (Hr b (list_elem_of_lookup_2 _ _ _ Hb)). rewrite Forall_forall in Hr. apply Hr. by eapply list_elem_of_lookup_2.
Qed.

(** A lookup's hits meet the contract of [allocate_slots]. *)
Lemma found_args nn nla ne reserved :
  request_fits sha256 m r -> 0 <= nn /\ 0 <= nla /\ 0 <= ne -> nn <> 0 \/ ne <> 0 -> H + ne <= max_model_len m -> 0 <= reserved ->
  slots_args sha256 m r nn H nla ne (KVBlocks.create_kv_cache_blocks blocks) reserved.
Proof.
  intros Hr Ht Hs Hl Hres. pose proof (st_computed _ _ start) as Ec. pose proof (proj1 (fh_range _ _ _ _ found)) as HH.
  split; [done|lia|lia|lia|done|].
  destruct (match KVBlocks.create_kv_cache_blocks blocks with EmptyBlocks => false | Blocks _ => true end || (ne >? 0)) eqn:E; [right|left].
  - unfold admits. rewrite blocks_of_create by apply found. split_and!; [done|done|apply found_fresh|apply found_shared].
  - apply orb_false_iff in E as [E1 E2]. bools. destruct (KVBlocks.create_kv_cache_blocks blocks) eqn:Eb; [|done].
    split_and!; [done| |lia|].
    + destruct (lc_groups _ conf) as [Hne _].
      destruct (lookup_lt_is_Some_2 (managers m) 0%nat) as [g Hg]; [by destruct (managers m); [|cbn; lia]|].
      destruct (lookup_lt_is_Some_2 blocks 0%nat) as [b Hb]; [rewrite (fh_length _ _ _ _ found); by eapply lookup_lt_Some|].
      destruct (found_cover 0%nat g b Hg Hb) as [Elen Emod].
      rewrite (create_empty _ b Eb) in Elen by (by eapply list_elem_of_lookup_2).
      assert (0 < block_size g) as Hbs by (eapply kvm_sizes; [exact ok|by eapply list_elem_of_lookup_2]).
      apply Z.div_exact in Emod; [|lia]. cbn in Elen. nia.
    + intros g Hg. rewrite Ec. assert (0 < block_size g) by (by eapply kvm_sizes). nia.
Qed.
End found.
End admitting.

(** The manager with another event queue. *)
Definition with_events (q : list KVCacheEvent) (m : KVCacheManager) : KVCacheManager :=
  set_coordinator (mkCoordinator (managers m) (set_kv_events q (pool m))) m.

Lemma with_events_same m : m = with_events (kv_event_queue (pool m)) m.
Proof. unfold with_events, set_coordinator. destruct m as [? ? ? ? ? [ms p] ? ? ? ? ? ?]. by destruct p. Qed.
Lemma kvm_ok_events others q m : kvm_ok others m -> kvm_ok others (with_events q m).
Proof.
  intros [[[free [H1 H2 H3 H4]] [H5 H6 H7] H8] Hc Hs Hb]. split; [|exact Hc|exact Hs|exact Hb].
  split; [exists free; split; [exact H1|exact H2|exact H3|]|split; [exact H5|exact H6|exact H7]|exact H8].
  intros g Hg. destruct (H4 g Hg) as [M1 M2 M3]. split; [exact M1|exact M2|exact M3].
Qed.
Lemma lookup_conf_events q m : lookup_conf m -> lookup_conf (with_events q m).
Proof. intros [H1 H2 H3 H4 H5 H6 H7]. split; [exact H1|exact H2|exact H3|exact H4|exact H5|exact H6|exact H7]. Qed.
Lemma found_hits_events q m max blocks H : found_hits m max blocks H -> found_hits (with_events q m) max blocks H.
Proof. intros [H1 H2 H3 H4 H5]. split; [exact H1|exact H2|exact H3|exact H4|exact H5]. Qed.
Lemma startable_memo sha256 q m r r' : memo_step sha256 r r' -> startable m r -> startable (with_events q m) r'.
Proof. intros [[mm ->] _] [H1 H2 H3]. split; [exact H1|exact H2|exact H3]. Qed.
Lemma fits_memo sha256 q m r r' : memo_step sha256 r r' -> request_fits sha256 m r -> request_fits sha256 (with_events q m) r'.
Proof. intros [[mm ->] Hm] [[Hf _] H2 H3 H4]. split; [by split|exact H2|exact H3|exact H4]. Qed.

Section computed.
Context (use_int : bool) (sha256 : bytes -> bytes) (others : nat -> Z) (m : KVCacheManager) (r : Request).
Hypothesis ok : kvm_ok others m.
Hypothesis conf : lookup_conf m.
Hypothesis fits : request_fits sha256 m r.
Hypothesis start : startable m r.

(** Reused blocks are reported at the block size of the spec. *)
Definition reports_full : bool :=
  enable_kv_cache_events (pool m) && bool_decide (default "incremental"%string (kv_cache_report_mode r) = "full"%string).
Hypothesis reported : reports_full = true -> Forall (fun g => spec_block_size (kv_cache_spec g) = hash_block_size (pool m)) (managers m).

Lemma lookup_found :
  kvm_enable_caching m = true ->
  exists blocks H extra, KVManager.find_longest_cache_hit m (block_hashes r) (num_tokens r - 1) = Ok (blocks, H, extra) /\
    found_hits m (num_tokens r - 1) blocks H.
Proof.
  intros He. destruct (kvm_pool_inv others m ok) as [free [_ Hc]]. pose proof (st_tokens _ _ start) as Ht.
  assert (0 <= num_tokens r - 1 /\ (num_tokens r - 1) / hash_block_size (pool m) <= zlen (block_hashes r)) as Hh.
  { split; [lia|]. etrans; [|apply fits]. apply Z.div_le_mono; [apply ok|lia]. }
  pose proof (lc_class _ conf) as Hcl. destruct (coordinator_class m) as [| |groups] eqn:Ec; [congruence| |].
  - destruct (unitary_found m _ _ conf Hc Hh Ec) as (blocks & H & E & Hf). eauto.
  - by eapply hybrid_hits_found.
Qed.

Lemma no_hits : found_hits m (num_tokens r - 1) (replicate (length (managers m)) []) 0.
Proof.
  pose proof (st_tokens _ _ start). split; [apply length_replicate|lia|apply Zmod_0_l| |by apply Forall_replicate].
  intros k g b _ [-> _]%lookup_replicate. by rewrite Zdiv_0_l.
Qed.

Lemma found_within blocks H :
  found_hits m (num_tokens r - 1) blocks H -> Forall (fun b => zlen b <= zlen (block_hashes r)) blocks.
Proof.
  intros Hf. apply Forall_lookup_2. intros k b Hb.
  destruct (lookup_lt_is_Some_2 (managers m) k) as [g Hg]; [rewrite <- (fh_length _ _ _ _ Hf); by eapply lookup_lt_Some|].
  rewrite (fh_each _ _ _ _ Hf k g b Hg Hb), (lc_block_size _ conf k g Hg). etrans; [|apply fits].
  apply Z.div_le_mono; [apply ok|]. pose proof (fh_range _ _ _ _ Hf). lia.
Qed.

Lemma computed_ok :
  wp (KVManager.get_computed_blocks use_int sha256) (fun res s => exists blocks H boundary q,
    res = (KVBlocks.create_kv_cache_blocks blocks, H, boundary) /\ s.1 = with_events q m /\ memo_step sha256 r s.2 /\
    found_hits m (num_tokens r - 1) blocks H /\ (kvm_enable_caching m = true \/ H = 0)) (m, r).
Proof.
  pose proof (with_events_same m) as Em.
  pose proof (memo_step_refl _ _ (proj2 (rf_ok _ _ _ fits))) as Hm0.
  unfold KVManager.get_computed_blocks. wp_simpl. destruct (KVManager.prefix_cache_lookup_enabled m r) eqn:El; cbn [negb].
  - unfold KVManager.prefix_cache_lookup_enabled in El. apply andb_true_iff in El as [He _]. destruct (lookup_found He) as (blocks & H & extra & Ef & Hf).
    wp_simpl. exists (blocks, H, extra). split; [exact Ef|]. cbv beta iota zeta. wp_simpl.
    destruct ((H >? 0) && _ && _) eqn:Er; wp_simpl.
    + apply andb_true_iff in Er as [[_ Er1]%andb_true_iff Er2].
      assert (reports_full = true) as Hrf by (unfold reports_full; by rewrite Er1, Er2).
      unfold KVManager.on_pool_and_request. wp_simpl. cbn [fst snd].
      eapply wp_mono; [apply emit_groups_ok; [apply ok| |by eapply found_within|apply fits]|].
      { apply Forall_fmap. eapply Forall_impl; [by apply reported|done]. }
      intros [] [p' r'] [[q ->] Hm]. wp_simpl. cbn [fst snd] in *. exists blocks, H; eexists; exists q. by split_and!; [| | | |left].
    + exists blocks, H; eexists; exists (kv_event_queue (pool m)). cbn [fst snd]. by split_and!; [| | | |left].
  - wp_simpl. exists (replicate (length (managers m)) []), 0, 0, (kv_event_queue (pool m)). cbn [fst snd].
    split_and!; [|done|done|apply no_hits|by right]. f_equal. f_equal. symmetry.
    unfold KVBlocks.create_kv_cache_blocks. destruct (existsb _ _) eqn:E; [|done].
    apply existsb_exists in E as (b & Hb%list_elem_of_In & E). apply elem_of_replicate in Hb as [-> _]. done.
Qed.
End computed.

(** * Scheduling a new request *)

(** The scheduler's treatment of a waiting request: look up the computed blocks,
    then ask for slots for the tokens it chose. *)
Definition schedule_new (use_int : bool) (sha256 : bytes -> bytes) (new_tokens external_tokens : Z -> Z) (nla : Z)
    (delay full : bool) (reserved : Z) (scheduled : bool) (skip_zeroing : list Z) :
    M (KVCacheManager * Request) (KVCacheBlocks * Z * option KVCacheBlocks) :=
  let! found := KVManager.get_computed_blocks use_int sha256 in
  let '(blocks, n, _) := found in
  let! res := KVManager.allocate_slots use_int sha256 (new_tokens n) n (Some blocks) nla (external_tokens n) delay full
                reserved scheduled skip_zeroing in
  ret (blocks, n, res).

Record new_args (m : KVCacheManager) (r : Request) (new_tokens external_tokens : Z -> Z) (nla reserved : Z) : Prop := {
  na_start : startable m r;
  na_report : reports_full m r = true ->
    Forall (fun g => spec_block_size (kv_cache_spec g) = hash_block_size (pool m)) (managers m);
  na_tokens : forall n, 0 <= n < num_tokens r -> 0 <= new_tokens n /\ 0 <= external_tokens n /\
    0 < new_tokens n + external_tokens n /\ n + external_tokens n <= max_model_len m;
  na_bounds : 0 <= nla /\ 0 <= reserved
}.

Lemma schedule_new_ok use_int sha256 others m r nn ne nla delay full reserved scheduled skip :
  kvm_ok others m -> lookup_conf m -> request_fits sha256 m r -> new_args m r nn ne nla reserved ->
  wp (schedule_new use_int sha256 nn ne nla delay full reserved scheduled skip) (fun out s => exists q r1,
    let '(blocks, n, res) := out in 0 <= n < num_tokens r /\ memo_step sha256 r r1 /\
    slots_result sha256 others r1 (nn n) n nla (ne n) (Some blocks) full reserved scheduled (with_events q m) res s) (m, r).
Proof.
  intros Hm Hc Hr [Hs Hrep Ht Hb]. unfold schedule_new. wp_simpl.
  eapply wp_mono; [by apply (computed_ok use_int sha256 others)|].
  intros out [m1 r1] (blocks & H & boundary & q & -> & Em & Hmemo & Hf & Hcached). cbn [fst snd] in Em, Hmemo. subst m1. wp_simpl.
  pose proof (fh_range _ _ _ _ Hf) as HH. destruct (Ht H) as (T1 & T2 & T3 & T4); [lia|].
  eapply wp_mono; [apply (slots_ok use_int sha256 others r1)|].
  - by apply kvm_ok_events.
  - cbn [default from_option id]. eapply (found_args sha256 others (with_events q m)); [by apply kvm_ok_events|by apply lookup_conf_events| |by eapply found_hits_events|done| | | | |];
      [by eapply startable_memo|by eapply fits_memo|lia|lia|exact T4|lia].
  - intros res s Hres. wp_simpl. exists q, r1. split_and!; [lia|lia|done|exact Hres].
Qed.
