(* ===== verification/KVManagerInit.v ===== *)
(** The construction of a KV cache manager ([vllm/v1/core/kv_cache_manager.py])
    establishes its invariant; how the calls keep it. *)
From Stdlib Require Import ZArith Lia Strings.String.
From stdpp Require Import base numbers list gmap strings.
From S2P Require Import Prelude BlockQueue Request BlockHash HashMap BlockPool PoolOps PoolCache PoolSafety CacheHit.
From S2P Require Import SingleTypeManager TableSafety TableReach Coordinator PrivateTail HybridHit FoundBlocks Retention CacheSafety.
From S2P Require Import KVCacheManager KVManagerSafety KVManagerReach.
Import Pool SingleType.
Open Scope Z_scope.
Local Arguments py_get : simpl never.
Local Arguments Z.of_nat : simpl never.

(** * Construction *)

(** A manager that holds nothing. *)
Record blank (m : single) : Prop := {
  bl_tables : req_to_blocks m = ∅;
  bl_cached : num_cached_block m = ∅;
  bl_partial : partial_hit_reqs m = ∅;
  bl_cow : pending_cow_copies m = []
}.
Lemma blank_table m r : blank m -> table m r = [].
Proof. intros [E _ _ _]. unfold table. by rewrite E. Qed.

Lemma blank_held ms x : (forall m, m ∈ ms -> blank m) -> held_by ms x = 0.
Proof.
  induction ms as [|m ms IH]; intros Hb; [done|]. cbn [held_by foldr]. change (foldr _ 0 ms) with (held_by ms x).
  rewrite IH by (intros m' Hm'; apply Hb; by right). destruct (Hb m) as [E1 _ _ E2]; [by left|]. unfold held. by rewrite E1, E2.
Qed.
Lemma blank_inv ms p free :
  inv p free -> (forall x, ref_cnt (blk p x) = 0) -> Forall (fun m => blank m /\ 0 < block_size m) ms ->
  kv_inv (fun _ => 0) (mkCoordinator ms p).
Proof.
  intros Hp Hr Hb. rewrite Forall_forall in Hb.
  assert (forall k m, ms !! k = Some m -> blank m) as Hk by (intros k m Hk; by apply Hb, (list_elem_of_lookup_2 _ k)).
  split.
  - exists free. split; [done|lia| |].
    + intros x _. by rewrite Hr, blank_held by (intros m Hm; by apply Hb).
    + intros m Hm. destruct (Hb m Hm) as [Hbl Hs]. split; [done| |].
      * intros r x. rewrite blank_table by done. intros Hx. by apply not_elem_of_nil in Hx.
      * intros r i b. by rewrite (bl_partial _ Hbl), lookup_empty.
  - split.
    + intros k m r Hm. unfold num_cached. by rewrite (bl_cached _ (Hk _ _ Hm)), lookup_empty.
    + intros k m r i x ?? ?? Hm [[Hx _] _]. rewrite blank_table in Hx by eauto. done.
    + intros k m r i x Hm [[Hx _] _]. rewrite blank_table in Hx by eauto. done.
  - intros k m r Hm. by rewrite (bl_partial _ (Hk _ _ Hm)), lookup_empty.
Qed.

(** With statistics switched on there is an object to record them in. *)
Definition logs_stats (m : KVCacheManager) : Prop := log_stats m = true -> is_Some (prefix_cache_stats m).

Section construction.
Context (cfg : KVCacheConfig) (max_model_len max_in_flight_tokens : Z) (eagle caching events : bool)
  (dcp pcp bs : Z) (metrics : bool) (num_prefill_lookahead : Z) (log_stats : bool) (watermark : Z).
Abbreviation groups := (kv_cache_groups cfg).
Abbreviation eagles := (KVInit.eagle_group_ids cfg eagle).

Definition group_dcp (g : KVCacheGroupSpec) : Z := if dcp_sharded g then dcp else 1.
(** A single group is looked up with the coordinator's own PCP size. *)
Definition group_pcp (g : KVCacheGroupSpec) : Z := if dcp_sharded g || (zlen groups =? 1) then pcp else 1.

(** A configuration in which every group has the effective block size [bs];
    then [resolve_kv_cache_block_sizes] makes [bs] the scheduler's block size and
    the hash granularity. *)
Record config_fits : Prop := {
  cf_blocks : 0 < num_blocks cfg;
  cf_size : 0 < bs;
  cf_groups : groups <> [] /\ zlen groups <= 2 ^ 32;
  cf_group : forall g, g ∈ groups -> 0 < spec_block_size (cg_spec g) /\ 0 < group_dcp g /\
    bs = spec_block_size (cg_spec g) * group_dcp g;
  cf_kind : forall k g, groups !! k = Some g ->
    match kind (cg_spec g) with
    | FullAttention | RSWA _ => True
    | SlidingWindow w e => 1 < w /\ 0 <= e /\ group_dcp g = 1 /\ group_pcp g = 1
    | ChunkedLocalAttention c => 0 < c /\ c mod bs = 0 /\ group_dcp g = 1 /\ group_pcp g = 1 /\ k ∉ eagles
    end;
  cf_retention : Retention.validate_prefix_cache_retention_interval (prefix_cache_retention_interval cfg) bs (map cg_spec groups) = Ok tt;
  cf_lookahead : caching = true -> eagles <> ∅ -> num_prefill_lookahead <= bs;
  cf_watermark : 0 <= watermark
}.
Hypothesis fits : config_fits.

Abbreviation new_manager := (KVInit.group_manager cfg max_model_len max_in_flight_tokens caching dcp bs).
(** The managers differ from the freshly made ones in the EAGLE flag only. *)
Definition made (ms : list single) : Prop :=
  length ms = length groups /\
  forall k m, ms !! k = Some m -> exists g b, groups !! k = Some g /\ m = set_use_eagle b (new_manager k g).

Lemma made_new : made (imap new_manager groups).
Proof.
  split; [by rewrite length_imap|]. intros k m. rewrite list_lookup_imap. intros (g & Hg & ->)%fmap_Some_1.
  exists g, false. by split.
Qed.
Lemma made_alter b i ms : made ms -> made (alter (set_use_eagle b) i ms).
Proof.
  intros [Hl Hm]. split; [by rewrite length_alter|]. intros k m Hk. destruct (decide (i = k)) as [->|Hne].
  - rewrite list_lookup_alter_eq in Hk. apply fmap_Some_1 in Hk as (m0 & Hk & ->). destruct (Hm k m0 Hk) as (g & b0 & Hg & ->). by exists g, b.
  - rewrite list_lookup_alter_ne in Hk by done. by apply Hm.
Qed.
Lemma made_marked ags : forall ms, made ms -> made (KVInit.mark_eagle ags ms).
Proof.
  induction ags as [|g ags IH]; intros ms Hm; [done|]. unfold KVInit.mark_eagle. cbn [foldl]. apply IH. destruct (group_eagle g); [|done].
  generalize (group_ids g) as ids. intros ids. revert ms Hm. induction ids as [|i ids IHi]; intros ms Hm; [done|]. cbn [foldl]. by apply IHi, made_alter.
Qed.

Lemma made_size ms k m : made ms -> ms !! k = Some m -> block_size m = bs.
Proof.
  intros [_ Hm] Hk. destruct (Hm k m Hk) as (g & b & Hg & ->). symmetry. apply fits. by eapply list_elem_of_lookup_2.
Qed.
Lemma made_blank ms : made ms -> Forall (fun m => blank m /\ 0 < block_size m) ms.
Proof.
  intros Hm. apply Forall_lookup_2. intros k m Hk. rewrite (made_size ms k m Hm Hk). split; [|apply fits].
  destruct (proj2 Hm k m Hk) as (g & b & Hg & ->). done.
Qed.
Lemma made_specs ms : made ms -> map kv_cache_spec ms = map cg_spec groups.
Proof.
  intros [Hl Hm]. apply list_eq. intros k. change (map ?f ?l) with (f <$> l). rewrite !list_lookup_fmap. destruct (ms !! k) as [m|] eqn:E.
  - destruct (Hm k m E) as (g & b & -> & ->). done.
  - apply lookup_ge_None in E. rewrite (proj2 (lookup_ge_None groups k)) by lia. done.
Qed.

(** A pool as its constructor leaves it. *)
Record new_pool (p : BlockPool) : Prop := {
  np_inv : exists free, inv p free;
  np_config : config p = (num_blocks cfg, "GPU"%string, caching, bs, 0%nat, events);
  np_refs : forall x, ref_cnt (blk p x) = 0
}.
Abbreviation manager_of class ms p := (mkManager max_model_len caching log_stats (if log_stats then Some new_stats else None)
  class (mkCoordinator ms p) watermark bs eagles (Z.max 0 (num_prefill_lookahead - 1)) (prefix_cache_retention_interval cfg) pcp).

Lemma new_pool_size p : new_pool p -> hash_block_size p = bs /\ enable_caching p = caching.
Proof. intros [_ Hc _]. unfold config in Hc. split; congruence. Qed.

Lemma made_kvm class ms p : made ms -> new_pool p -> kvm_ok (fun _ => 0) (manager_of class ms p).
Proof.
  intros Hm Hp. destruct (new_pool_size p Hp) as [Eh Ec]. destruct Hp as [[free Hi] _ Hr]. pose proof (cf_size fits) as Hbs. split; cbn.
  - by eapply blank_inv, made_blank.
  - intros k m Hk. destruct (proj2 Hm k m Hk) as (g & b & Hg & E). pose proof (made_size ms k m Hm Hk) as Es.
    pose proof (cf_kind fits k g Hg) as Hkind. pose proof (cf_group fits g (list_elem_of_lookup_2 _ _ _ Hg)) as (Hs1 & _ & Hs2).
    assert (kv_cache_spec m = cg_spec g) as Esp by (by rewrite E). assert (dcp_world_size m = group_dcp g) as Edc by (by rewrite E). split_and!.
    + unfold spec_ok. rewrite Esp. destruct (kind (cg_spec g)); [done|lia|lia|done].
    + rewrite Ec. by rewrite E.
    + intros _. split.
      * split; [by rewrite E|]. apply lookup_lt_Some in Hg. pose proof (proj2 (cf_groups fits)). lia.
      * rewrite Es, Eh. split; [done|apply Z_mod_same_full].
      * intros w e Hw. rewrite Esp in *. rewrite Hw in Hkind. rewrite Es, Edc. split; [done|].
        assert (cache_hit_alignment_tokens m = bs) as -> by (by rewrite E). split; [by rewrite Z_mod_same_full|lia|].
        eapply validated_interval; [apply fits| |exact Hw]. apply list_elem_of_In, in_map, list_elem_of_In. by eapply list_elem_of_lookup_2.
  - by rewrite Eh.
  - pose proof (cf_watermark fits). lia.
Qed.

Lemma made_lookup class ms p :
  made ms -> new_pool p ->
  match class with
  | NoPrefixCache => caching = false
  | Unitary => length groups = 1%nat
  | HybridCoordinator ags => Hybrid.verify_and_split_kv_cache_groups (map cg_spec groups) eagles = Ok ags
  end -> lookup_conf (manager_of class ms p).
Proof.
  intros Hm Hp Hclass. destruct (new_pool_size p Hp) as [Eh Ec]. pose proof (cf_size fits) as Hbs.
  assert (hit_alignment (manager_of class ms p) = bs) as Eal by (unfold hit_alignment; by destruct class). split; rewrite ?Eal; cbn.
  - destruct class; [done|by rewrite (proj1 Hm)|by rewrite made_specs].
  - destruct (cf_groups fits) as [Hne Hle]. rewrite (proj1 Hm). split; [|done]. intros ->. by destruct Hm as [Hl _], groups.
  - by rewrite Eh.
  - intros k m Hk. destruct (proj2 Hm k m Hk) as (g & b & Hg & E). pose proof (made_size ms k m Hm Hk) as Es.
    pose proof (cf_kind fits k g Hg) as Hkind. pose proof (cf_group fits g (list_elem_of_lookup_2 _ _ _ Hg)) as (Hs1 & Hs3 & Hs2).
    assert (kv_cache_spec m = cg_spec g) as Esp by (by rewrite E). assert (dcp_world_size m = group_dcp g) as Edc by (by rewrite E).
    assert (bs = group_block_size (cg_spec g) (group_dcp g)) as Egs by (unfold group_block_size; destruct (_ >? 1) eqn:E1; bools; nia).
    assert (group_pcp g = 1 -> manager_pcp pcp m = 1) as Hpcp
      by (unfold group_pcp, manager_pcp, dcp_sharded; rewrite Esp; by destruct (spec_dcp_sharded (cg_spec g))).
    split; [rewrite Es, Eh, Z_mod_same_full; done|]. rewrite Esp, Es, Edc.
    destruct (kind (cg_spec g)); [done| | |done]; split_and!; try apply Hpcp; try apply Hkind; nia.
  - intros k m Hk. rewrite Eh. by eapply made_size.
  - intros k m Hk. destruct (proj2 Hm k m Hk) as (g & b & Hg & ->). done.
  - intros -> m (k & Hk)%list_elem_of_lookup. destruct (proj2 Hm k m Hk) as (g & b & Hg & E). assert (kv_cache_spec m = cg_spec g) as -> by (by rewrite E).
    pose proof (cf_kind fits k g Hg) as Hkind. unfold is_full. assert (group_pcp g = pcp) as Epcp by (unfold group_pcp; by rewrite Hclass, orb_true_r).
    rewrite Epcp in Hkind. destruct (kind (cg_spec g)); try done; intros _; apply Hkind.
Qed.

Lemma coordinator_init_ok :
  exists p, KVInit.coordinator_init cfg max_model_len max_in_flight_tokens eagle caching events dcp bs bs metrics num_prefill_lookahead =
    Ok (mkCoordinator (imap new_manager groups) p) /\ new_pool p.
Proof.
  destruct (pool_init_ok (num_blocks cfg) caching bs events metrics "GPU") as (p & Ep & Hi & Hc & _ & Hx); [apply fits|].
  exists p. split; [|split; [by eexists|done|apply Hx]]. unfold KVInit.coordinator_init. rewrite Z_mod_same_full.
  assert (forallb (fun g => bs mod spec_block_size (cg_spec g) =? 0) groups = true) as ->.
  { apply forallb_forall. intros g Hg%list_elem_of_In. destruct (cf_group fits g Hg) as (? & ? & ->). apply Z.eqb_eq. rewrite Z.mul_comm. by apply Z_mod_mult. }
  cbn [andb negb Z.eqb]. rewrite Ep. cbn [obind].
  destruct (caching && _ && _) eqn:E.
  { apply andb_true_iff in E as [[E1 E2]%andb_true_iff E3]. bools. pose proof (cf_lookahead fits E1 E2). lia. }
  by rewrite (cf_retention fits).
Qed.

(** What construction fixes. *)
Record shaped (m : KVCacheManager) : Prop := {
  sh_len : KVCacheManager.max_model_len m = max_model_len;
  sh_hash : hash_block_size (pool m) = bs;
  sh_events : enable_kv_cache_events (pool m) = events;
  sh_specs : map kv_cache_spec (managers m) = map cg_spec groups
}.
Lemma made_shaped class ms p : made ms -> new_pool p -> shaped (manager_of class ms p).
Proof. intros Hm [_ Hc _]. unfold config in Hc. split; cbn; [done|congruence|congruence|by apply made_specs]. Qed.

(** Construction succeeds and establishes the invariant. *)
Lemma manager_init_ok :
  exists m, KVInit.init cfg max_model_len max_in_flight_tokens eagle caching events dcp pcp bs bs metrics num_prefill_lookahead
      log_stats watermark = Ok m /\ kvm_ok (fun _ => 0) m /\ lookup_conf m /\ Forall blank (managers m) /\ logs_stats m /\ shaped m.
Proof.
  destruct coordinator_init_ok as (p & Ec & Hp). pose proof made_new as Hnew.
  assert (forall class ms, made ms -> match class with
    | NoPrefixCache => caching = false
    | Unitary => length groups = 1%nat
    | HybridCoordinator ags => Hybrid.verify_and_split_kv_cache_groups (map cg_spec groups) eagles = Ok ags
    end -> exists m, Ok (manager_of class ms p) = Ok m /\ kvm_ok (fun _ => 0) m /\ lookup_conf m /\ Forall blank (managers m) /\ logs_stats m /\ shaped m) as Hdone.
  { intros class ms Hm Hcl. eexists. split; [done|]. split_and!; [by apply made_kvm|by apply made_lookup| | |by apply made_shaped].
    - eapply Forall_impl; [by apply made_blank|]. by intros ? [].
    - unfold logs_stats. cbn. by intros ->. }
  unfold KVInit.init, KVInit.get_kv_cache_coordinator. destruct (negb caching) eqn:Eca.
  { apply negb_true_iff in Eca. rewrite Ec. by apply Hdone. }
  destruct (zlen groups =? 1) eqn:El; bools.
  - unfold KVInit.unitary_init. rewrite Ec. cbn [obind single_type_managers].
    destruct (imap new_manager groups) as [|m0 l0] eqn:Em; [exfalso; destruct Hnew as [Hl _]; cbn [length] in Hl; lia|].
    change (py_get (m0 :: l0) 0) with (Some m0). cbn [or_raise obind].
    rewrite (made_size (m0 :: l0) 0%nat m0 Hnew eq_refl), Z.eqb_refl, orb_true_r. cbn [negb]. rewrite (proj2 (Z.eqb_eq _ _) El). cbn [negb obind].
    apply (Hdone Unitary); [by apply made_alter|cbv iota; lia].
  - unfold KVInit.hybrid_init. rewrite Ec. cbn [obind single_type_managers].
    assert (forallb (fun mgr => block_size mgr mod bs =? 0) (imap new_manager groups) = true) as ->.
    { apply forallb_forall. intros m (k & Hk)%list_elem_of_In%list_elem_of_lookup. rewrite (made_size _ _ _ Hnew Hk). by rewrite Z_mod_same_full. }
    assert (forallb (fun g => (negb (pcp >? 1) && negb (dcp >? 1)) || is_full (cg_spec g) || negb (dcp_sharded g)) groups = true) as ->.
    { apply forallb_forall. intros g (k & Hk)%list_elem_of_In%list_elem_of_lookup. pose proof (cf_kind fits k g Hk) as Hkind.
      unfold group_dcp, group_pcp, is_full in *. destruct (kind (cg_spec g)); rewrite ?orb_true_r; try done;
        (destruct (dcp_sharded g) eqn:Ed; [|by rewrite orb_true_r]; cbn [orb] in Hkind; replace pcp with 1 by lia; by replace dcp with 1 by lia). }
    cbn [negb]. destruct (verify_and_split_ok (map cg_spec groups) eagles) as (ags & Es & _).
    { intros E. apply map_eq_nil in E. by destruct (cf_groups fits). }
    rewrite Es. cbn [obind]. apply (Hdone (HybridCoordinator ags)); [by apply made_marked|done].
Qed.
End construction.

(** * Calls *)

Lemma lookup_conf_step m r c :
  lookup_conf m -> config (block_pool c) = config (pool m) -> Forall2 (framed r) (managers m) (single_type_managers c) ->
  lookup_conf (set_coordinator c m).
Proof.
  intros [H1 H2 H3 H4 H5 H6 H7] Hc Hf. assert (hash_block_size (block_pool c) = hash_block_size (pool m)) as Eh by (unfold config in Hc; congruence).
  assert (hit_alignment (set_coordinator c m) = hit_alignment m) as Ea by (unfold hit_alignment; cbn; by rewrite Eh).
  pose proof (Forall2_length _ _ _ Hf) as El.
  assert (map kv_cache_spec (single_type_managers c) = map kv_cache_spec (managers m)) as Es.
  { clear -Hf. induction Hf as [|g g' l l' Hg _ IH]; [done|]. cbn [map]. by rewrite IH, (fr_spec _ _ _ Hg). }
  split; rewrite ?Ea; cbn [coordinator set_coordinator coordinator_class kvm_enable_caching eagle_group_ids pcp_world_size]; rewrite ?Eh, <- ?El, ?Es; try done.
  - split; [|apply H2]. intros E0. rewrite E0 in El. destruct H2 as [Hne _]. by destruct (managers m).
  - intros k g' Hk. destruct (Forall2_lookup_r _ _ _ _ _ Hf Hk) as (g & Hg & [E1 E2 _ _ E3 _ _ _]).
    unfold static in E3. injection E3 as _ _ E3 _. specialize (H4 k g Hg). unfold manager_fits, manager_pcp in *. by rewrite E1, E2, E3, Eh.
  - intros k g' Hk. destruct (Forall2_lookup_r _ _ _ _ _ Hf Hk) as (g & Hg & Hfr). rewrite (fr_size _ _ _ Hfr). by eapply H5.
  - intros k g' Hk. destruct (Forall2_lookup_r _ _ _ _ _ Hf Hk) as (g & Hg & Hfr). rewrite (fr_caching _ _ _ Hfr). by eapply H6.
  - intros Hu g' (k & Hk)%list_elem_of_lookup. destruct (Forall2_lookup_r _ _ _ _ _ Hf Hk) as (g & Hg & Hfr). rewrite (fr_spec _ _ _ Hfr).
    apply (H7 Hu). by eapply list_elem_of_lookup_2.
Qed.

(** Dropping hashes leaves the managers' invariant intact. *)
Lemma kvm_ok_unhashed others m p' :
  kvm_ok others m -> (exists free, inv p' free) -> keeps (pool m) p' ->
  (forall x, block_hash (blk p' x) = None \/ hash_of p' x = hash_of (pool m) x) ->
  kvm_ok others (set_coordinator (mkCoordinator (managers m) p') m).
Proof.
  intros [[(free & Ho) [P1 P2 P3] Hs] Hc Hz Hb] [free' Hi] [Kc _ Kr _] Hh.
  assert (hash_block_size p' = hash_block_size (pool m) /\ enable_caching p' = enable_caching (pool m)) as [Eh Ee] by (unfold config in Kc; split; congruence).
  split; cbn [coordinator set_coordinator block_pool single_type_managers retention_interval]; rewrite ?Eh, ?Ee; try done.
  split; [|split; [done|done|]|done].
  - exists free'. destruct Ho as [_ O2 O3 O4]. split; [done|done| |].
    + intros x Hx. rewrite Kr. by apply O3.
    + intros g Hg. destruct (O4 g Hg) as [M1 M2 M3]. split; [done| |done]. intros r x Hx. cbn [block_pool]. rewrite (config_num _ _ Kc). by eapply M2.
  - intros k g r i x Hk Hf. cbn [block_pool]. rewrite Ee. intros He. destruct (P3 k g r i x Hk Hf He) as [Hp Hn]. unfold fillable, promotable in *. rewrite Eh.
    destruct (Hh x) as [E|E]; [split; [by left|done]|]. unfold hash_of in E. injection E as E1 E2. by rewrite E1, E2.
Qed.
Lemma lookup_conf_pool m p' : config p' = config (pool m) -> lookup_conf m -> lookup_conf (set_coordinator (mkCoordinator (managers m) p') m).
Proof. intros Hc Hl. apply (lookup_conf_step m "r"%string (mkCoordinator (managers m) p') Hl Hc). apply Forall_Forall2_diag. by apply Forall_forall. Qed.

(** * Safe managers *)

Section safe.
Context (use_int : bool) (sha256 : bytes -> bytes).

Record safe (m : KVCacheManager) : Prop := {
  sf_ok : kvm_ok (fun _ => 0) m;
  sf_conf : lookup_conf m;
  sf_stats : logs_stats m
}.

Lemma safe_coordinator m r c :
  safe m -> kvm_ok (fun _ => 0) (set_coordinator c m) -> config (block_pool c) = config (pool m) ->
  Forall2 (framed r) (managers m) (single_type_managers c) -> safe (set_coordinator c m).
Proof. intros [_ Hl Hs] Hk Hc Hf. split; [done|by eapply lookup_conf_step|exact Hs]. Qed.

Lemma safe_events m q : safe m -> safe (with_events q m).
Proof. intros [H1 H2 H3]. split; [by apply kvm_ok_events|by apply lookup_conf_events|exact H3]. Qed.

Lemma safe_slots r nn nnc nla ne blocks full reserved scheduled m res s :
  safe m -> slots_result sha256 (fun _ => 0) r nn nnc nla ne blocks full reserved scheduled m res s -> safe s.1.
Proof. intros Hm [Hk (c & E & Hc) Hf _ _]. rewrite E in *. by eapply safe_coordinator. Qed.

Lemma safe_unhashed m p' :
  safe m -> (exists free, inv p' free) -> keeps (pool m) p' ->
  (forall x, block_hash (blk p' x) = None \/ hash_of p' x = hash_of (pool m) x) ->
  safe (set_coordinator (mkCoordinator (managers m) p') m).
Proof.
  intros [H1 H2 H3] Hi Hk Hh. split; [by apply kvm_ok_unhashed|apply lookup_conf_pool; [apply Hk|done]|exact H3].
Qed.

Lemma safe_stats m s : is_Some s -> safe m -> safe (set_stats s m).
Proof.
  intros Hs [[H1 H2 H3 H4] [L1 L2 L3 L4 L5 L6] _].
  split; [by split|by split|by intros _].
Qed.

Lemma evicted_safe m ids :
  safe m -> (forall x, x ∈ ids -> Z.of_nat x < num_gpu_blocks (pool m)) ->
  wp (KVManager.evict_blocks use_int (map Z.of_nat ids)) (fun _ => safe) m.
Proof.
  intros Hm Hids. unfold KVManager.evict_blocks, KVManager.on_block_pool. wp_simpl.
  destruct (kvm_pool_inv _ m (sf_ok _ Hm)) as [free Hi].
  eapply wp_mono; [by apply (evict_blocks_ok use_int _ free)|]. intros [] p' (Hi' & Hk & Hh & _ & Ho).
  apply safe_unhashed; [done|by eexists|done|]. intros x. destruct (decide (x ∈ ids)) as [Hx|Hx]; [left|right].
  - by rewrite Hh, decide_True.
  - unfold hash_of. by rewrite Ho.
Qed.

Lemma reset_safe m : safe m -> wp (KVManager.reset_prefix_cache ;; ret tt) (fun _ => safe) m.
Proof.
  intros Hm. unfold KVManager.reset_prefix_cache, KVManager.on_block_pool. wp_simpl.
  destruct (kvm_pool_inv _ m (sf_ok _ Hm)) as [free Hi]. eapply wp_mono; [by apply (reset_ok _ free)|].
  intros ok p' H. set (m1 := set_coordinator _ m).
  assert (safe m1) as Hm1.
  { destruct ok; [destruct H as (_ & Hi' & Hk & _ & Hh)|destruct H as [-> _]].
    - apply safe_unhashed; [done|by eexists|done|]. intros x. by left.
    - apply safe_unhashed; [done|by eexists|done|]. intros x. by right. }
  destruct ok; cbn [negb]; wp_simpl; [|done].
  destruct (log_stats m1) eqn:El; wp_simpl; [|done]. destruct (sf_stats _ Hm1 El) as [st ->]. wp_simpl.
  by apply safe_stats.
Qed.
End safe.
