(* ===== verification/KVManagerCalls.v ===== *)
(** Calls of the KV cache manager ([vllm/v1/core/kv_cache_manager.py]) that read the
    block tables or drain pending data: statistics, common prefixes, new block
    ids, copies and the release of their blocks. *)
From Stdlib Require Import ZArith Lia Strings.String.
From stdpp Require Import base numbers list gmap strings.
From S2P Require Import Prelude BlockQueue Request BlockHash HashMap BlockPool PoolOps PoolCache PoolSafety CacheHit.
From S2P Require Import SingleTypeManager TableSafety TableReach Coordinator PrivateTail HybridHit FoundBlocks Retention CacheSafety.
From S2P Require Import KVCacheManager KVManagerSafety KVManagerReach KVManagerInit.
Import Pool SingleType.
Open Scope Z_scope.
Local Arguments py_get : simpl never.
Local Arguments Z.of_nat : simpl never.

(** * Copies and their retained blocks *)

(** Taking the pending copies hands their blocks over; freeing those gives the
    references back. *)
Definition cleared (m : single) : single := set_cow (partial_hit_reqs m) [] m.

Lemma take_copies_run ms p : forall i, run_each (fun _ => on_mgr take_pending_cow_copies) i ms p =
  (Ok (map pending_cow_copies ms), (map cleared ms, p)).
Proof. induction ms as [|m ms IH]; intros i; [done|]. cbn [run_each map]. cbn. by rewrite IH. Qed.

Lemma held_cleared ms x : held_by ms x = held_by (map cleared ms) x + occ x (cow_ends (concat (map pending_cow_copies ms))).
Proof.
  induction ms as [|m ms IH]; [done|]. cbn [map concat held_by foldr]. change (foldr _ 0 ms) with (held_by ms x).
  change (foldr _ 0 (map cleared ms)) with (held_by (map cleared ms) x). rewrite IH.
  unfold cow_ends. rewrite flat_map_app, occ_app. unfold held. cbn. rewrite occ_nil. unfold cow_ends. lia.
Qed.

Lemma private_cleared ms p p' : private ms p -> config p' = config p ->
  (forall k m r i x, ms !! k = Some m -> filling m r i x -> hash_of p' x = hash_of p x) -> private (map cleared ms) p'.
Proof.
  intros [P1 P2 P3] Hc Hh. assert (forall k m', map cleared ms !! k = Some m' -> exists m, ms !! k = Some m /\ m' = cleared m) as Hl.
  { intros k m'. change (map cleared ms) with (cleared <$> ms). rewrite list_lookup_fmap. intros (m & ? & ->)%fmap_Some_1. eauto. }
  assert (hash_block_size p' = hash_block_size p /\ enable_caching p' = enable_caching p) as [Eh Ee] by (unfold config in Hc; split; congruence).
  split.
  - intros k m' r (m & Hk & ->)%Hl. by apply (P1 k m r).
  - intros k m' r i x k2 m2' r2 i2 (m & Hk & ->)%Hl Hf (m2 & Hk2 & ->)%Hl Hs. by apply (P2 k m r i x k2 m2 r2 i2).
  - intros k m' r i x (m & Hk & ->)%Hl Hf. rewrite Ee. intros He. pose proof (Hh k m r i x Hk Hf) as E. unfold hash_of in E. injection E as E1 E2.
    destruct (P3 k m r i x Hk Hf He) as [Q1 Q2]. unfold fillable, promotable in *. rewrite Eh, E1, E2. done.
Qed.

(** The managers after the copies are taken, over a pool with their ends freed. *)
Lemma cleared_inv ms p free free' p' :
  coord_owns (fun _ => 0) free ms p -> private ms p -> settled ms ->
  moved (fun x => - occ x (cow_ends (concat (map pending_cow_copies ms)))) free' p p' ->
  kv_inv (fun _ => 0) (mkCoordinator (map cleared ms) p').
Proof.
  intros Ho Hp Hs [M1 M2 M3 M4]. pose proof Ho as [O1 O2 O3 O4]. split; cbn.
  - exists free'. split; [done|done| |].
    + intros x Hx. rewrite (M3 x Hx), (O3 x Hx), held_cleared. lia.
    + intros m' Hm'. apply list_elem_of_fmap in Hm' as (m & -> & Hm). destruct (O4 m Hm) as [A1 A2 A3]. split; [done| |done].
      intros r x Hx. rewrite (config_num _ _ M2). by apply (A2 r x).
  - eapply private_cleared; [done|done|]. intros k m r i x Hk (Hsl & Hx0 & _). apply M4; [done|]. by eapply slot_in_use.
  - intros k m' r. change (map cleared ms) with (cleared <$> ms). rewrite list_lookup_fmap. intros (m & Hk & ->)%fmap_Some_1. by apply (Hs k m r).
Qed.
Lemma free_ends ms p free : coord_owns (fun _ => 0) free ms p ->
  wp (free_own_blocks (cow_ends (concat (map pending_cow_copies ms)))) (fun _ p' => exists free',
    moved (fun x => - occ x (cow_ends (concat (map pending_cow_copies ms)))) free' p p') p.
Proof.
  intros [O1 O2 O3 O4]. set (ends := cow_ends _). apply (free_moved p free); [done|]. intros x Hx Hx0.
  assert (occ x ends <= ref_cnt (blk p x)) as Hle.
  { rewrite (O3 x Hx0), held_cleared. fold ends. pose proof (held_by_nonneg (map cleared ms) x). lia. }
  split; [|done]. pose proof (proj2 (occ_pos x ends) Hx). destruct O1 as [Hq _].
  destruct (Z.lt_ge_cases (Z.of_nat x) (num_gpu_blocks p)) as [|Hge]; [done|]. pose proof (qi_out _ _ _ _ Hq x Hge) as E0. unfold blk in *. lia.
Qed.

Lemma cleared_framed ms : Forall2 (framed "") ms (map cleared ms).
Proof. induction ms as [|m ms IH]; [constructor|]. cbn. by constructor. Qed.

(** The step takes the copies and releases the blocks they retain. *)
Definition release_copies : M KVCacheManager unit :=
  let! copied := KVManager.take_kv_cache_block_copies in
  match copied.1 with [] => ret tt | _ => KVManager.on_block_pool (free_own_blocks copied.2) end.

Lemma release_ok m : safe m ->
  wp release_copies (fun _ m' => exists p', m' = set_coordinator (mkCoordinator (map cleared (managers m)) p') m /\ safe m' /\ config p' = config (pool m)) m.
Proof.
  intros Hm. unfold release_copies, KVManager.take_kv_cache_block_copies.
  pose proof (km_inv _ _ (sf_ok _ Hm)) as [(free & Ho) Hp Hs]. pose proof (free_ends _ _ _ Ho) as Hfree.
  assert (forall p' free', moved (fun x => - occ x (cow_ends (concat (map pending_cow_copies (managers m))))) free' (pool m) p' ->
    safe (set_coordinator (mkCoordinator (map cleared (managers m)) p') m) /\ config p' = config (pool m)) as Hend.
  { intros p' free' Hmv. pose proof (mv_config _ _ _ _ Hmv) as Hc. pose proof (cleared_inv _ _ _ _ _ Ho Hp Hs Hmv) as Hi.
    pose proof (cleared_framed (managers m)) as Hf. split; [|done].
    eapply safe_coordinator; [done|eapply kvm_ok_step; [apply Hm|done|done|exact Hf]|done|exact Hf]. }
  assert (wp (zoom coordinator set_coordinator (each_manager (fun _ => on_mgr take_pending_cow_copies)))
    (fun rs m1 => rs = map pending_cow_copies (managers m) /\ m1 = set_coordinator (mkCoordinator (map cleared (managers m)) (pool m)) m) m) as Htake.
  { unfold wp, zoom, each_manager. by rewrite take_copies_run. }
  rewrite !wp_bind. eapply wp_mono; [exact Htake|]. intros rs m1 (-> & ->). rewrite wp_ret. cbn [fst snd]. clear Htake.
  set (copies := concat _) in *. destruct copies as [|c cs].
  - rewrite wp_ret. exists (pool m). split; [done|]. apply (Hend _ free). split; [apply Ho|done| |apply keeps_hashes_self]. intros x _. cbn. rewrite occ_nil. lia.
  - unfold KVManager.on_block_pool. rewrite wp_zoom. cbn. eapply wp_mono; [exact Hfree|]. intros [] p' (free' & Hmv). exists p'. split; [done|]. by apply (Hend p' free').
Qed.

(** * Reading calls *)

(** A call that reads the tables or drains other fields. *)
Definition same_entries (m m' : single) : Prop :=
  (forall r, table m' r = table m r) /\ num_cached_block m' = num_cached_block m /\ partial_hit_reqs m' = partial_hit_reqs m /\
  kv_cache_spec m' = kv_cache_spec m /\ block_size m' = block_size m /\ mgr_enable_caching m' = mgr_enable_caching m /\
  max_admission_blocks_per_request m' = max_admission_blocks_per_request m /\ static m' = static m.

Lemma same_entries_step ms r m m' p : same_entries m m' -> 0 <= num_cached m r -> framed r m m' /\ table_step ms r m p m' p.
Proof.
  intros (E1 & E2 & E3 & E4 & E5 & E6 & E7 & E8) Hn.
  assert (framed r m m') as Hf by (split; try done; intros r' _; rewrite ?E2, ?E3; done). split; [done|].
  split; [done|done|apply keeps_hashes_self|by unfold num_cached in *; rewrite E2|].
  intros i x Hx [Hs Hr]. left. unfold slot, redirecting, num_cached in *. rewrite E1 in Hs. rewrite E3 in Hr. rewrite E2. done.
Qed.

Lemma opened_entries r m : same_entries m (set_tables (<[r := table m r]> (req_to_blocks m)) m).
Proof.
  split_and!; try done. intros r'. unfold table at 1. cbn. rewrite table_put. by destruct (decide (r = r')) as [<-|].
Qed.

(** What a reading call leaves. *)
Definition read_only (m m' : KVCacheManager) : Prop := exists c, m' = set_coordinator c m /\ safe m' /\
  config (block_pool c) = config (pool m) /\ Forall2 (framed "") (managers m) (managers m') /\ Forall2 same_entries (managers m) (managers m').
Lemma each_reading {A} (f : Z -> M (single * BlockPool) A) m :
  (forall i others free g p, owns others free (g, p) -> wp (f i) (fun _ s => s.2 = p /\ owns others free s /\ same_entries g s.1) (g, p)) ->
  safe m -> wp (zoom coordinator set_coordinator (each_manager f)) (fun _ m' => read_only m m') m.
Proof.
  intros Hf Hm. wp_simpl. eapply wp_mono; [eapply (each_private f (fun _ => 0) "" same_entries); [|apply Hm]|].
  - intros i others free g p Hg Ho Hn. eapply wp_mono; [by apply (Hf i others free g p)|]. intros a [g' p'] (E & Ho' & Hse). cbn [fst snd] in *. subst p'.
    exists free. split_and!; [done|done| |].
    + pose proof Hse as (_ & _ & E3 & _). rewrite E3. apply list_elem_of_lookup in Hg as (k & Hk).
      by apply (ki_settled _ _ (km_inv _ _ (sf_ok _ Hm)) k g).
    + intros ms. by apply same_entries_step.
  - intros rs c (Hi & Hc & Hfr & Hse). exists c. split_and!; try done.
    eapply safe_coordinator; [done|eapply kvm_ok_step; [apply Hm|done|done|done]|done|done].
Qed.

Lemma common_prefix_reads m id : safe m -> wp (KVManager.get_num_common_prefix_blocks id) (fun _ m' => m' = m \/ read_only m m') m.
Proof.
  intros Hm. unfold KVManager.get_num_common_prefix_blocks. wp_simpl. unfold Coordinator.get_num_common_prefix_blocks.
  assert (wp (zoom coordinator set_coordinator (each_manager (fun _ => SingleType.get_num_common_prefix_blocks id))) (fun _ m' => m' = m \/ read_only m m') m) as Hread.
  { eapply wp_mono; [apply each_reading; [|done]|by right].
    intros _ others free g p Ho. pose proof (common_prefix_ok others free g p id Ho) as Hown. unfold wp in *.
    unfold SingleType.get_num_common_prefix_blocks in *. cbn in *. destruct (kind (kv_cache_spec g)); cbn in *; split_and!; try done; apply opened_entries. }
  destruct (coordinator_class m); [wp_simpl; by left|exact Hread|exact Hread].
Qed.

Lemma new_ids_read m : safe m -> wp KVManager.take_new_block_ids (fun _ m' => read_only m m') m.
Proof.
  intros Hm. unfold KVManager.take_new_block_ids. rewrite wp_bind. eapply wp_mono; [apply each_reading; [|done]|by intros rs m' H; wp_simpl].
  intros _ others free g p Ho. unfold on_mgr, SingleType.take_new_block_ids. wp_simpl. cbn [fst snd]. split_and!; try done.
  eapply owns_same; [|exact Ho]. by apply same_tables_eq.
Qed.

Lemma stats_recorded m r n : safe m ->
  wp (KVManager.record_prefix_cache_stats r n) (fun _ m' => m' = m \/ exists st, m' = set_stats st m /\ safe m') m.
Proof.
  intros Hm. unfold KVManager.record_prefix_cache_stats. wp_simpl. destruct (_ || _) eqn:E; wp_simpl; [by left|].
  apply orb_false_iff in E as [El _]. apply negb_false_iff in El. destruct (sf_stats _ Hm El) as [st ->]. wp_simpl.
  right. eexists. split; [done|]. by apply safe_stats.
Qed.
