(* ===== verification/KVManagerTrace.v ===== *)
(** The life of a KV cache manager ([vllm/v1/core/kv_cache_manager.py]): every
    sequence of the scheduler's calls after its construction keeps the
    invariant. *)
From Stdlib Require Import ZArith Lia Strings.String.
From stdpp Require Import base numbers list gmap strings.
From S2P Require Import Prelude BlockQueue Request BlockHash HashMap BlockPool PoolOps PoolCache PoolSafety CacheHit.
From S2P Require Import SingleTypeManager TableSafety TableReach Coordinator PrivateTail HybridHit FoundBlocks Retention CacheSafety.
From S2P Require Import KVCacheManager KVManagerSafety KVManagerReach KVManagerInit KVManagerCalls.
Import Pool SingleType.
Open Scope Z_scope.
Local Arguments py_get : simpl never.
Local Arguments Z.of_nat : simpl never.

(** * Calls *)

(** The calls of the scheduler; those on a request run on the manager and the
    request. *)
Inductive kvm_op :=
| KNew (r : Request) (new_tokens external_tokens : Z -> Z) (nla : Z) (delay full : bool) (reserved : Z) (scheduled : bool) (skip_zeroing : list Z)
| KRunning (r : Request) (nn nla : Z) (delay full : bool) (reserved : Z) (scheduled : bool)
| KCacheBlocks (r : Request) (n : Z)
| KFree (r : string)
| KRemoveSkipped (r : string) (processed : Z) (num_prompt_tokens : option Z)
| KEvict (ids : list nat)
| KReset
| KTakeEvents
| KMakeStats
| KRecordStats (r : Request) (num_hits : Z)
| KCommonPrefix (r : string)
| KTakeNewIds
| KReleaseCopies.

Definition with_request {A} (r : Request) (f : M (KVCacheManager * Request) A) : M KVCacheManager unit :=
  fun m => match f (m, r) with
           | (Ok _, s) => (Ok tt, s.1)
           | (Raise e, s) => (Raise e, s.1)
           end.
Lemma wp_drop_request {A} r (f : M (KVCacheManager * Request) A) Q m :
  wp (with_request r f) Q m <-> wp f (fun _ s => Q tt s.1) (m, r).
Proof. unfold wp, with_request. by destruct (f (m, r)) as [[]]. Qed.

Section trace.
Context (use_int : bool) (sha256 : bytes -> bytes).

Definition run_kvm_op (o : kvm_op) : M KVCacheManager unit :=
  match o with
  | KNew r nn ne nla delay full reserved scheduled skip =>
      with_request r (schedule_new use_int sha256 nn ne nla delay full reserved scheduled skip)
  | KRunning r nn nla delay full reserved scheduled =>
      with_request r (KVManager.allocate_slots use_int sha256 nn 0 None nla 0 delay full reserved scheduled [])
  | KCacheBlocks r n => with_request r (KVManager.cache_blocks use_int sha256 n)
  | KFree r => KVManager.free r
  | KRemoveSkipped r processed np => KVManager.remove_skipped_blocks r processed np
  | KEvict ids => KVManager.evict_blocks use_int (map Z.of_nat ids)
  | KReset => KVManager.reset_prefix_cache ;; ret tt
  | KTakeEvents => KVManager.take_events ;; ret tt
  | KMakeStats => KVManager.make_prefix_cache_stats ;; ret tt
  | KRecordStats r num_hits => KVManager.record_prefix_cache_stats r num_hits
  | KCommonPrefix r => KVManager.get_num_common_prefix_blocks r ;; ret tt
  | KTakeNewIds => KVManager.take_new_block_ids ;; ret tt
  | KReleaseCopies => release_copies
  end.

(** The calling contract. *)
Definition kvm_op_ok (m : KVCacheManager) (o : kvm_op) : Prop :=
  match o with
  | KNew r nn ne nla _ _ reserved _ _ => request_fits sha256 m r /\ new_args m r nn ne nla reserved
  | KRunning r nn nla _ _ reserved _ => slots_args sha256 m r nn 0 nla 0 EmptyBlocks reserved
  | KCacheBlocks r n => request_fits sha256 m r /\ 0 <= n <= num_tokens r /\
      forall g, g ∈ managers m -> n <= zlen (table g (request_id r)) * block_size g
  | KRemoveSkipped r processed np => 0 <= processed /\ forall n, np = Some n -> 0 <= n
  | KEvict ids => forall x, x ∈ ids -> Z.of_nat x < num_gpu_blocks (pool m)
  | _ => True
  end.

(** Every call within the contract returns and keeps the manager safe. *)
Lemma kvm_op_safe m o : safe m -> kvm_op_ok m o -> wp (run_kvm_op o) (fun _ => safe) m.
Proof.
  intros Hm Hok. pose proof (sf_ok _ Hm) as Hk. destruct o as [r nn ne nla delay full reserved scheduled skip|r nn nla delay full reserved scheduled|r n|r|r processed np|ids| | | |r n|r| |];
    cbn [run_kvm_op kvm_op_ok] in *.
  - destruct Hok as [Hf Ha]. rewrite wp_drop_request.
    eapply wp_mono; [apply (schedule_new_ok use_int sha256 (fun _ => 0)); [done|apply Hm|done|done]|].
    intros [[blocks n] res] s (q & r1 & _ & _ & Hres). eapply safe_slots; [|exact Hres]. by apply safe_events.
  - rewrite wp_drop_request. eapply wp_mono; [by apply (slots_ok use_int sha256 (fun _ => 0))|]. intros res s. by apply safe_slots.
  - destruct Hok as (Hf & Hn & Hs). rewrite wp_drop_request. unfold KVManager.cache_blocks. wp_simpl. cbn [fst].
    destruct (kvm_enable_caching m); wp_simpl; [|done].
    eapply wp_mono; [by apply (slots_cached use_int sha256 (fun _ => 0) r m n)|].
    intros [] [m1 r1] (c & E & Hi & Hc & Hrc & _). cbn [fst] in E |- *. subst m1.
    assert (Forall2 (framed (request_id r)) (managers m) (single_type_managers c)) as Hfr by (eapply Forall2_impl; [exact Hrc|by intros ?? []]).
    eapply safe_coordinator; [done|by eapply kvm_ok_step|done|done].
  - unfold KVManager.free. wp_simpl. eapply wp_mono; [by apply (free_private (fun _ => 0)), Hk|].
    intros [] c (Hi & Hc & Hf & _). eapply safe_coordinator; [done|by eapply kvm_ok_step|done|done].
  - unfold KVManager.remove_skipped_blocks. wp_simpl. destruct Hok as [Hp Hn].
    eapply wp_mono; [apply (remove_private (fun _ => 0)); [apply Hk|]|].
    { intros g (k & Hg)%list_elem_of_lookup. split; [done|done|]. intros ch Hch. destruct (km_conf _ _ Hk k g Hg) as [Hs _].
      unfold spec_ok in Hs. by rewrite Hch in Hs. }
    intros [] c (Hi & Hc & Hf & _). eapply safe_coordinator; [done|by eapply kvm_ok_step|done|done].
  - by apply evicted_safe.
  - by apply reset_safe.
  - unfold KVManager.take_events, KVManager.on_block_pool, Pool.take_events. wp_simpl.
    destruct (enable_kv_cache_events (pool m)); cbn [negb]; wp_simpl; [by apply safe_events|].
    assert (set_coordinator (mkCoordinator (managers m) (pool m)) m = m) as -> by (destruct m as [? ? ? ? ? [] ? ? ? ? ? ?]; done). done.
  - unfold KVManager.make_prefix_cache_stats. wp_simpl. destruct (log_stats m); cbn [negb]; wp_simpl; [|done]. by apply safe_stats.
  - eapply wp_mono; [by apply stats_recorded|]. by intros [] m' [->|(st & _ & ?)].
  - rewrite wp_bind. eapply wp_mono; [by apply common_prefix_reads|]. intros rs m' [->|(c & _ & ? & _)]; by rewrite wp_ret.
  - rewrite wp_bind. eapply wp_mono; [by apply new_ids_read|]. intros rs m' (c & _ & ? & _). by rewrite wp_ret.
  - eapply wp_mono; [by apply release_ok|]. by intros [] m' (p' & _ & ? & _).
Qed.

(** The states the scheduler reaches from a new manager. *)
Inductive kvm_reachable : KVCacheManager -> Prop :=
| kr_init cfg max_model_len max_in_flight eagle caching events dcp pcp bs metrics lookahead log_stats watermark m :
    config_fits cfg eagle caching dcp pcp bs lookahead watermark ->
    KVInit.init cfg max_model_len max_in_flight eagle caching events dcp pcp bs bs metrics lookahead log_stats watermark = Ok m ->
    kvm_reachable m
| kr_step m o res m' :
    kvm_reachable m -> kvm_op_ok m o -> run_kvm_op o m = (res, m') -> kvm_reachable m'.

Lemma kvm_reachable_safe m : kvm_reachable m -> safe m.
Proof.
  induction 1 as [cfg mml mif eagle caching events dcp pcp bs metrics lookahead stats watermark m Hfit E|m o res m' _ IH Hok E].
  - destruct (manager_init_ok cfg mml mif eagle caching events dcp pcp bs metrics lookahead stats watermark Hfit) as (m' & E' & H1 & H2 & _ & H3 & _).
    assert (m' = m) as -> by congruence. by split.
  - pose proof (kvm_op_safe m o IH Hok) as Hw. unfold wp in Hw. rewrite E in Hw. by destruct res.
Qed.

(** C1: no leak, no sharing of blocks being filled, no exception.  Consider KV
    cache managers whose groups (full attention, RSWA, sliding window wider than a
    token, chunked-local attention with chunks of whole blocks and no EAGLE; the
    last two not sharded by context parallelism) all have, after the scaling by
    context parallelism, one block size that is also the scheduler's and the
    hash granularity; hybrid models with several block sizes, and with them hits
    inside a block, are outside this theorem.  The retention interval passes its
    validation, the watermark is nonnegative, and with EAGLE and caching the
    prefill lookahead is at most one block.  In every state that is reached from
    the construction by the calls below, the reference count of each block is the
    number of block-table entries and pending copies that hold it, a block that a
    request is still filling occurs in no other position of any table, and each
    call within its contract returns without raising an exception.  The calls are:
    lookup and admission of a new request, slots for a running request, caching,
    freeing, removal of skipped blocks, eviction, reset, events, statistics,
    common prefix, new block ids, and the taking and release of block copies.
    Frees that are deferred ([pop_blocks_for_free], used with a KV connector or
    overlapping batches) are not among them. *)
Theorem kv_manager_safe (m : KVCacheManager) :
  kvm_reachable m ->
  (forall x, x <> 0%nat -> ref_cnt (blk (pool m) x) = held_by (managers m) x) /\
  (forall k g r i x k' g' r' i', managers m !! k = Some g -> filling g r i x ->
     managers m !! k' = Some g' -> slot g' r' i' x -> k' = k /\ r' = r /\ i' = i) /\
  (forall o, kvm_op_ok m o -> exists m', run_kvm_op o m = (Ok tt, m')).
Proof.
  intros Hm%kvm_reachable_safe. destruct (km_inv _ _ (sf_ok _ Hm)) as [(free & Ho) Hp _]. split_and!.
  - intros x Hx. rewrite (co_refs _ _ _ _ Ho x Hx). lia.
  - apply (pv_once _ _ Hp).
  - intros o Hok. pose proof (kvm_op_safe m o Hm Hok) as Hw. unfold wp in Hw.
    destruct (run_kvm_op o m) as [[[]|] m'] eqn:E; [by exists m'|done].
Qed.

(** C2: a new request gets its slots or the blocks are short.  On a manager that
    is reachable as in [kv_manager_safe] (so all groups have one block size, the scheduler's and
    that of the hashes), for a request that no group knows, with its block hashes
    up to date, within the model length, and, if it asks for full cache reports
    while events are on, with groups whose unscaled block size is the hashed one
    (the case that
    [full_report_rejects_dcp] shows to fail is excluded): looking up its computed blocks
    and passing them to [allocate_slots] finds [n < num_tokens] hit tokens and then
    either leaves every group with slots for all computed, new and lookahead
    tokens (up to the model length), or returns [None] because the demand of
    [get_num_blocks_to_allocate] with the watermark exceeds the free blocks that
    are not reserved; the tables of other requests are unchanged in both cases
    and the invariant of the manager is kept. *)
Theorem new_request_slots (m : KVCacheManager) (r : Request) nn ne nla delay full reserved scheduled skip :
  kvm_reachable m -> request_fits sha256 m r -> new_args m r nn ne nla reserved ->
  wp (schedule_new use_int sha256 nn ne nla delay full reserved scheduled skip) (fun out s =>
    let '(blocks, n, res) := out in 0 <= n < num_tokens r /\
    kvm_ok (fun _ => 0) s.1 /\ Forall2 (framed (request_id r)) (managers m) (managers s.1) /\
    match res with
    | Some _ => forall g, g ∈ managers s.1 ->
        Z.min (n + ne n + nn n + nla) (max_model_len m) <= zlen (table g (request_id r)) * block_size g
    | None => (exists q, full_too_large r n (ne n) (Some blocks) full scheduled (with_events q m)) \/
        step_too_large r (nn n) n nla (ne n) (Some blocks) reserved scheduled s.1
    end) (m, r).
Proof.
  intros Hm%kvm_reachable_safe Hr Ha. pose proof (st_computed _ _ (na_start _ _ _ _ _ _ Ha)) as E0.
  eapply wp_mono; [apply (schedule_new_ok use_int sha256 (fun _ => 0)); [apply Hm|apply Hm|done|done]|].
  intros [[blocks n] res] s (q & r1 & Hn & [[mm ->] _] & [H1 _ H2 _ H3]). split_and!; [lia|lia|done|exact H2|].
  destruct res as [b|].
  - intros g Hg. specialize (H3 g Hg). cbn in H3. rewrite E0 in H3. exact H3.
  - destruct H3 as [[_ H3]|[H3 _]]; [left; exists q|right]; exact H3.
Qed.
End trace.

(** * Reports of reused blocks under context parallelism *)

Lemma emit_rejects use_int sha256 p r n bs g :
  enable_kv_cache_events p = true -> n <> 0 -> bs mod hash_block_size p <> 0 ->
  emit_cached_block_events use_int sha256 n bs g (p, r) = (Raise AssertionError, (p, r)).
Proof.
  intros Ev Hn Hm. unfold emit_cached_block_events, Pool.on_pool, zoom, bind, gets. cbn [fst snd].
  rewrite Ev, (proj2 (Z.eqb_neq _ _) Hn). cbn [negb orb]. unfold on_request, zoom. cbn [fst snd]. unfold resolve_block_hashes.
  destruct (bs =? hash_block_size p) eqn:E1; [bools; rewrite E1, Z_mod_same_full in Hm; done|].
  by rewrite (proj2 (Z.eqb_neq _ _) Hm).
Qed.

(** C40: with a single group whose spec block size is not a multiple of the hash
    granularity (decode context parallelism multiplies the latter), a request in
    report mode "full" that hits the cache makes [get_computed_blocks] fail: the
    events are emitted at the spec's block size, which [resolve_block_hashes]
    rejects with an assertion. *)
Theorem full_report_rejects_dcp use_int sha256 (m : KVCacheManager) (r : Request) g b H :
  managers m = [g] -> KVManager.prefix_cache_lookup_enabled m r = true ->
  reports_full m r = true -> KVManager.find_longest_cache_hit m (block_hashes r) (num_tokens r - 1) = Ok ([b], H, 0) ->
  0 < H -> b <> [] -> spec_block_size (kv_cache_spec g) mod hash_block_size (pool m) <> 0 ->
  (KVManager.get_computed_blocks use_int sha256 (m, r)).1 = Raise AssertionError.
Proof.
  intros Em El [Ev Ef]%andb_true_iff Eh HH Hb Hmod. unfold KVManager.get_computed_blocks, bind, gets. cbn [fst snd].
  rewrite El, Eh. cbn [negb lift]. rewrite Ev, Ef, (proj2 (Z.gtb_lt _ _) HH), Em. cbn [andb map KVManager.emit_groups].
  unfold KVManager.on_pool_and_request, zoom, bind. cbn [fst snd]. destruct (zlen b =? 0) eqn:E0; [bools; by destruct b|].
  rewrite emit_rejects by (try done; by apply Z.eqb_neq). done.
Qed.

(** * Examples *)

Definition demo_kv_args (id : string) (mode : string) : RequestArgs :=
  mkArgs id (Some [7; 8; 9; 10; 11])
    (Some (mkSampling (Some 16) 0 (Some 0) None None None None (Some {["kv_cache_report_mode"%string := mode]}))) None
    0 0 None None None None None 0 false None None false 0.
Definition demo_kv_request (id mode : string) : outcome Request := new_request (demo_kv_args id mode) sample_hasher.

(** A full-attention and a sliding-window group with blocks of two tokens. *)
Definition demo_kv_config : KVCacheConfig :=
  mkCacheConfig 10 [mkCacheGroup (demo_spec 2 FullAttention) false true;
                    mkCacheGroup (demo_spec 2 (SlidingWindow 4 0)) false true] None false.
Definition demo_kv_manager : outcome KVCacheManager :=
  KVInit.init demo_kv_config 16 16 false true true 1 1 2 2 false 0 true 0.
Definition omap_ok {A B} (f : A -> B) (o : outcome A) : option B := match o with Ok a => Some (f a) | Raise _ => None end.
Definition demo_kv_op (r : Request) : kvm_op := KNew r (fun n => 5 - n) (fun _ => 0) 0 false true 0 false [].

Lemma demo_kv_config_fits : config_fits demo_kv_config false true 1 1 2 0 0.
Proof.
  split; try done; try lia.
  - intros g Hg. repeat (apply elem_of_cons in Hg as [->|Hg]); [done|done|by apply not_elem_of_nil in Hg].
  - intros [|[|k]] g Hg; simplify_eq/=; done.
Qed.

Lemma demo_kv_ready :
  exists m r, demo_kv_manager = Ok m /\ demo_kv_request "a" "full" = Ok r /\ kvm_reachable false (fun b => b) m /\
    kvm_op_ok (fun b => b) m (demo_kv_op r).
Proof.
  destruct (manager_init_ok demo_kv_config 16 16 false true true 1 1 2 false 0 true 0 demo_kv_config_fits) as (m & E & _ & _ & Hb & _).
  destruct (demo_kv_request "a" "full") as [r|] eqn:Er; [|by vm_compute in Er].
  assert (demo_kv_manager = Ok m) as E2 by (unfold demo_kv_manager; exact E).
  exists m, r. split; [exact E2|]. split; [done|]. split; [by eapply kr_init; [exact demo_kv_config_fits|exact E]|].
  rewrite Forall_forall in Hb.
  assert (omap_ok (fun m => (max_model_len m, hash_block_size (pool m), map (fun g => spec_block_size (kv_cache_spec g)) (managers m)))
    demo_kv_manager = Some (16, 2, [2; 2])) as F by (vm_compute; reflexivity).
  assert (omap_ok (fun r => (mm_features r, prompt_embeds r, num_prompt_tokens r, num_tokens r, zlen (block_hashes r), num_computed_tokens r))
    (demo_kv_request "a" "full") = Some ([], None, 5, 5, 2, 0)) as G by (vm_compute; reflexivity).
  rewrite E2 in F. rewrite Er in G. cbn [omap_ok] in F, G. injection F as F1 F2 F3. injection G as G1 G2 G3 G4 G5 G6.
  split.
  - split; [|by rewrite G3|by rewrite G4, F1|by rewrite G4, F2, G5].
    unfold request_ok, features_ok, memo_ok. rewrite G1, G2. split; [|done]. split; [by intros f Hf%not_elem_of_nil|by intros [|i] [|j]].
  - split; [split; [done|by rewrite G4|]| | |done].
    + intros g Hg. specialize (Hb g Hg). split; [by apply blank_table|]. by rewrite (bl_cached _ Hb), lookup_empty.
    + intros _. rewrite F2. destruct (managers m) as [|g1 [|g2 [|]]]; try discriminate F3. injection F3 as E1 E3. by repeat constructor.
    + intros n Hn. rewrite G4 in Hn. rewrite F1. lia.
Qed.

Lemma kv_manager_safe_witness :
  exists m r, demo_kv_manager = Ok m /\ demo_kv_request "a" "full" = Ok r /\
    exists m', run_kvm_op false (fun b => b) (demo_kv_op r) m = (Ok tt, m').
Proof.
  destruct demo_kv_ready as (m & r & Em & Er & Hm & Hok). exists m, r. split; [exact Em|]. split; [exact Er|].
  destruct (kv_manager_safe false (fun b => b) m Hm) as (_ & _ & Hrun). exact (Hrun (demo_kv_op r) Hok).
Defined.

Lemma new_request_slots_witness :
  exists m r, demo_kv_manager = Ok m /\ demo_kv_request "a" "full" = Ok r /\
    wp (schedule_new false (fun b => b) (fun n => 5 - n) (fun _ => 0) 0 false true 0 false []) (fun out s =>
      match out.2 with
      | Some _ => forall g, g ∈ managers s.1 -> 5 <= zlen (table g "a") * block_size g
      | None => True
      end) (m, r).
Proof.
  destruct demo_kv_ready as (m & r & Em & Er & Hm & Hf & Ha). exists m, r. split; [exact Em|]. split; [exact Er|].
  assert (max_model_len m = 16 /\ request_id r = "a"%string) as [El Ei].
  { assert (omap_ok max_model_len demo_kv_manager = Some 16) as F by (vm_compute; reflexivity).
    assert (omap_ok request_id (demo_kv_request "a" "full") = Some "a"%string) as G by (vm_compute; reflexivity).
    rewrite Em in F. rewrite Er in G. cbn [omap_ok] in F, G. split; congruence. }
  eapply wp_mono; [exact (new_request_slots false (fun b => b) m r (fun n => 5 - n) (fun _ => 0) 0 false true 0 false [] Hm Hf Ha)|].
  intros [[blocks n] res] s (_ & _ & _ & H). cbn [snd]. destruct res; [|done]. intros g Hg. specialize (H g Hg). rewrite El, Ei in H. lia.
Defined.

(** Two ranks of context parallelism: blocks of one token per rank. *)
Definition demo_dcp_manager : outcome KVCacheManager :=
  KVInit.init (mkCacheConfig 10 [mkCacheGroup (demo_spec 1 FullAttention) false true] None false) 16 16 false true true 2 1 2 2
    false 0 true 0.
(** Request "a" has filled the cache; request "b" arrives. *)
Definition demo_dcp_state : outcome (KVCacheManager * Request) :=
  let? m := demo_dcp_manager in
  let? a := demo_kv_request "a" "incremental" in
  let? b := demo_kv_request "b" "full" in
  match run_kvm_op false (fun b => b) (demo_kv_op a) m with
  | (Ok _, m') => Ok (m', b)
  | (Raise e, _) => Raise e
  end.
Definition demo_dcp_facts (x : outcome (KVCacheManager * Request)) :
    option (list Z * bool * bool * outcome (list (list nat) * Z * Z) * Z) :=
  match x with
  | Ok (m, r) => Some (map (fun g => spec_block_size (kv_cache_spec g)) (managers m), KVManager.prefix_cache_lookup_enabled m r,
                       reports_full m r, KVManager.find_longest_cache_hit m (block_hashes r) (num_tokens r - 1),
                       hash_block_size (pool m))
  | Raise _ => None
  end.
Lemma full_report_rejects_dcp_witness :
  exists m r, demo_dcp_state = Ok (m, r) /\ (KVManager.get_computed_blocks false (fun b => b) (m, r)).1 = Raise AssertionError.
Proof.
  assert (demo_dcp_facts demo_dcp_state = Some ([1], true, true, Ok ([[1; 2]%nat], 4, 0), 2)) as F by (vm_compute; reflexivity).
  destruct demo_dcp_state as [[m r]|]; [|discriminate F]. exists m, r. split; [reflexivity|].
  cbn [demo_dcp_facts] in F. injection F as F1 F2 F3 F4 F5. destruct (managers m) as [|g [|]] eqn:Em; [discriminate F1| |discriminate F1].
  injection F1 as F1. apply (full_report_rejects_dcp false (fun b => b) m r g [1; 2]%nat 4 Em F2 F3 F4); [lia|done|].
  rewrite F1, F5. done.
Defined.
