(* ===== verification/Scheduler.v ===== *)
(** The scheduler ([vllm/v1/core/sched/scheduler.py]): its state, the scheduling
    step with preemption, and the entry and exit of requests.  The model is the
    scheduler of a model without KV, encoder or auxiliary connectors, LoRA,
    Mamba layers or replay windows, and of requests without encoder inputs or
    streaming sessions, where no free is deferred behind a batch in flight
    ([defer_block_free] is off); the branches for these are left out.  The queues and the KV cache manager are
    reached through classes. *)
From Stdlib Require Import ZArith Lia Strings.String.
From stdpp Require Import base numbers list gmap strings.
From S2P Require Import Prelude Request RequestQueue BlockPool KVCacheManager.
Open Scope Z_scope.
Local Arguments py_get : simpl never.
Local Arguments Z.of_nat : simpl never.

(** * The KV cache manager as the scheduler sees it *)

(** The calls of the step and of the update; [kv_allocate_slots] has the arguments the scheduler
    passes: new tokens, new computed tokens and their blocks, lookahead tokens,
    [full_sequence_must_fit] and [has_scheduled_reqs]. *)
Class KVOps (K : Type) := {
  kv_get_computed_blocks : M (K * Request) (KVCacheBlocks * Z * Z);
  kv_allocate_slots : Z -> Z -> option KVCacheBlocks -> Z -> bool -> bool -> M (K * Request) (option KVCacheBlocks);
  kv_free : string -> M K unit;
  kv_record_prefix_cache_stats : Request -> Z -> M K unit;
  kv_get_blocks : K -> string -> KVCacheBlocks;
  kv_block_ids : K -> KVCacheBlocks -> list (list nat);
  kv_num_groups : K -> nat;
  kv_get_num_common_prefix_blocks : string -> M K (list Z);
  kv_take_new_block_ids : M K (list nat);
  kv_take_block_copies : M K (list (nat * nat) * list nat);
  kv_free_blocks : list nat -> M K unit;
  kv_estimate_cached_tokens : K -> Request -> Z;
  kv_take_events : M K (list (KVCacheEvent * option (KVCacheSpecKind * option Z)))
}.

(** * State *)

Inductive PauseState := UNPAUSED | PAUSED_NEW | PAUSED_ALL.
#[export] Instance PauseState_eq_dec : EqDecision PauseState.
Proof. solve_decision. Defined.

(** The configuration the step reads. [draft_slots] is
    [max_num_new_slots_for_drafting], or 0 without speculation. *)
Record SchedulerConfig := mkSchedConfig {
  policy : SchedulingPolicy;
  max_num_running_reqs : Z;
  max_num_active_reqs : Z;
  max_num_scheduled_tokens : Z;
  max_num_batched_tokens : Z;
  long_prefill_token_threshold : Z;
  adaptive_long_prefill_threshold : bool;
  enable_chunked_prefill : bool;
  is_mm_encoder_only : bool;
  sched_max_model_len : Z;
  num_sampled_tokens_per_step : Z;
  draft_slots : Z;
  num_spec_tokens : Z;
  dynamic_sd_lookup : option (list Z);
  num_lookahead_tokens : Z;
  num_prefill_lookahead : Z;
  scheduler_reserve_full_isl : bool;
  sched_needs_zeroing : bool;
  sched_log_stats : bool;
  use_pp : bool;
  async_scheduling : bool;
  use_v2_model_runner : bool
}.

(** Requests are objects in [requests]; lists and sets of requests hold their
    ids.  The queues hold the object as it was when it was queued: the fields
    they read do not change while a request is queued.  [prefill_stats] holds
    the requests whose statistics object has not been taken. *)
Record Scheduler (Q K : Type) := mkScheduler {
  current_step : Z;
  requests : gmap string Request;
  running : list string;
  waiting : Q;
  kv_holding_waiting : Q;
  deferred_waiting : gset string;
  inflight_prefills : gset string;
  finished_req_ids : gset string;
  reset_preempted_req_ids : gset string;
  prev_step_scheduled_req_ids : gset string;
  grammar_compile_error_reqs : gset string;
  prefill_stats : gset string;
  num_waiting_for_streaming_input : Z;
  pause_state : PauseState;
  prefill_capacity_bound : bool;
  kv_cache_manager : K
}.
Arguments mkScheduler {Q K}.
Arguments current_step {Q K}.
Arguments requests {Q K}.
Arguments running {Q K}.
Arguments waiting {Q K}.
Arguments kv_holding_waiting {Q K}.
Arguments deferred_waiting {Q K}.
Arguments inflight_prefills {Q K}.
Arguments finished_req_ids {Q K}.
Arguments reset_preempted_req_ids {Q K}.
Arguments prev_step_scheduled_req_ids {Q K}.
Arguments grammar_compile_error_reqs {Q K}.
Arguments prefill_stats {Q K}.
Arguments num_waiting_for_streaming_input {Q K}.
Arguments pause_state {Q K}.
Arguments prefill_capacity_bound {Q K}.
Arguments kv_cache_manager {Q K}.

Section setters.
Context {Q K : Type}.
Abbreviation S := (Scheduler Q K).
Definition set_requests (v : gmap string Request) (s : S) : S :=
  mkScheduler (current_step s) v (running s) (waiting s) (kv_holding_waiting s) (deferred_waiting s) (inflight_prefills s)
    (finished_req_ids s) (reset_preempted_req_ids s) (prev_step_scheduled_req_ids s) (grammar_compile_error_reqs s)
    (prefill_stats s) (num_waiting_for_streaming_input s) (pause_state s) (prefill_capacity_bound s) (kv_cache_manager s).
Definition set_running (v : list string) (s : S) : S :=
  mkScheduler (current_step s) (requests s) v (waiting s) (kv_holding_waiting s) (deferred_waiting s) (inflight_prefills s)
    (finished_req_ids s) (reset_preempted_req_ids s) (prev_step_scheduled_req_ids s) (grammar_compile_error_reqs s)
    (prefill_stats s) (num_waiting_for_streaming_input s) (pause_state s) (prefill_capacity_bound s) (kv_cache_manager s).
Definition set_waiting (v : Q) (s : S) : S :=
  mkScheduler (current_step s) (requests s) (running s) v (kv_holding_waiting s) (deferred_waiting s) (inflight_prefills s)
    (finished_req_ids s) (reset_preempted_req_ids s) (prev_step_scheduled_req_ids s) (grammar_compile_error_reqs s)
    (prefill_stats s) (num_waiting_for_streaming_input s) (pause_state s) (prefill_capacity_bound s) (kv_cache_manager s).
Definition set_kv_holding (v : Q) (s : S) : S :=
  mkScheduler (current_step s) (requests s) (running s) (waiting s) v (deferred_waiting s) (inflight_prefills s)
    (finished_req_ids s) (reset_preempted_req_ids s) (prev_step_scheduled_req_ids s) (grammar_compile_error_reqs s)
    (prefill_stats s) (num_waiting_for_streaming_input s) (pause_state s) (prefill_capacity_bound s) (kv_cache_manager s).
Definition set_deferred (v : gset string) (s : S) : S :=
  mkScheduler (current_step s) (requests s) (running s) (waiting s) (kv_holding_waiting s) v (inflight_prefills s)
    (finished_req_ids s) (reset_preempted_req_ids s) (prev_step_scheduled_req_ids s) (grammar_compile_error_reqs s)
    (prefill_stats s) (num_waiting_for_streaming_input s) (pause_state s) (prefill_capacity_bound s) (kv_cache_manager s).
Definition set_inflight (v : gset string) (s : S) : S :=
  mkScheduler (current_step s) (requests s) (running s) (waiting s) (kv_holding_waiting s) (deferred_waiting s) v
    (finished_req_ids s) (reset_preempted_req_ids s) (prev_step_scheduled_req_ids s) (grammar_compile_error_reqs s)
    (prefill_stats s) (num_waiting_for_streaming_input s) (pause_state s) (prefill_capacity_bound s) (kv_cache_manager s).
(** The id sets that only the step's output carries. *)
Definition set_ids (finished preempted prev grammar_errors : gset string) (s : S) : S :=
  mkScheduler (current_step s) (requests s) (running s) (waiting s) (kv_holding_waiting s) (deferred_waiting s) (inflight_prefills s)
    finished preempted prev grammar_errors
    (prefill_stats s) (num_waiting_for_streaming_input s) (pause_state s) (prefill_capacity_bound s) (kv_cache_manager s).
Definition set_counts (step streaming : Z) (stats : gset string) (pause : PauseState) (bound : bool) (s : S) : S :=
  mkScheduler step (requests s) (running s) (waiting s) (kv_holding_waiting s) (deferred_waiting s) (inflight_prefills s)
    (finished_req_ids s) (reset_preempted_req_ids s) (prev_step_scheduled_req_ids s) (grammar_compile_error_reqs s)
    stats streaming pause bound (kv_cache_manager s).
Definition set_kv (v : K) (s : S) : S :=
  mkScheduler (current_step s) (requests s) (running s) (waiting s) (kv_holding_waiting s) (deferred_waiting s) (inflight_prefills s)
    (finished_req_ids s) (reset_preempted_req_ids s) (prev_step_scheduled_req_ids s) (grammar_compile_error_reqs s)
    (prefill_stats s) (num_waiting_for_streaming_input s) (pause_state s) (prefill_capacity_bound s) v.
End setters.

(** The fields of a request the scheduler assigns. *)
Definition set_schedule (st : RequestStatus) (spec : list Z) (computed placeholders in_flight stale : Z) (drop chunk : bool)
    (boundary preemptions : Z) (r : Request) : Request :=
  mkRequest (request_id r) (client_index r) (priority r) (sampling_params r) (pooling_params r) (lora_request r)
    (structured_output_request r) (arrival_time r) (obj_id r) st (events r) (stop_reason r) (kv_transfer_params r)
    (ec_transfer_params r) (kv_cache_report_mode r) (max_tokens r) (prompt_token_ids r) (prompt_embeds r)
    (prompt_is_token_ids r) (prompt_embeds_per_block_hashes r) (num_prompt_tokens r) (output_token_ids r) (all_token_ids r)
    placeholders stale drop in_flight (next_decode_eligible_step r) (last_sched_seq r) spec computed (cache_salt r)
    (mm_features r) (session_id r) chunk boundary (replay_start r) (num_nans_in_logits r) preemptions (block_hashes r)
    (skip_reading_prefix_cache r) (resumable r) (streaming_queue r) (abort_immediately r).

Definition set_resumable (v : bool) (r : Request) : Request :=
  mkRequest (request_id r) (client_index r) (priority r) (sampling_params r) (pooling_params r) (lora_request r)
    (structured_output_request r) (arrival_time r) (obj_id r) (status r) (events r) (stop_reason r) (kv_transfer_params r)
    (ec_transfer_params r) (kv_cache_report_mode r) (max_tokens r) (prompt_token_ids r) (prompt_embeds r)
    (prompt_is_token_ids r) (prompt_embeds_per_block_hashes r) (num_prompt_tokens r) (output_token_ids r) (all_token_ids r)
    (num_output_placeholders r) (num_stale_output_tokens r) (drop_stale_output r) (num_in_flight_tokens r)
    (next_decode_eligible_step r) (last_sched_seq r) (spec_token_ids r) (num_computed_tokens r) (cache_salt r)
    (mm_features r) (session_id r) (is_prefill_chunk r) (shared_prefix_boundary r) (replay_start r) (num_nans_in_logits r)
    (num_preemptions r) (block_hashes r) (skip_reading_prefix_cache r) v (streaming_queue r) (abort_immediately r).

(** The local variables of [schedule]; dicts in insertion order where they are
    iterated over. *)
Record StepState := mkStep {
  scheduled_new_reqs : list string;
  scheduled_resumed_reqs : list string;
  scheduled_running_reqs : list string;
  preempted_reqs : list string;
  req_to_new_blocks : gmap string KVCacheBlocks;
  num_scheduled_tokens : list (string * Z);
  token_budget : Z;
  input_budget : Z;
  scheduled_spec_decode_tokens : gmap string (list Z);
  prefill_scheduled : bool;
  step_skipped_waiting : list Request;
  step_skipped_kv_holding : list Request
}.

Record CachedRequestData := mkCached {
  req_ids : list string;
  resumed_req_ids : gset string;
  new_token_ids : list (list Z);
  cached_all_token_ids : gmap string (list Z);
  new_block_ids : list (option (list (list nat)));
  cached_num_computed_tokens : list Z;
  cached_num_output_tokens : list Z
}.
(** The fields of [NewRequestData] that depend on the step; [request] is the
    request they are copied from. *)
Record NewRequestData := mkNewData {
  new_request_of : Request;
  new_req_block_ids : list (list nat);
  prefill_token_ids : option (list Z)
}.
Record SchedulerOutput := mkOutput {
  out_new_reqs : list NewRequestData;
  out_cached_reqs : CachedRequestData;
  out_num_scheduled_tokens : list (string * Z);
  out_total_num_scheduled_tokens : Z;
  out_spec_decode_tokens : gmap string (list Z);
  out_num_common_prefix_blocks : list Z;
  out_preempted_req_ids : gset string;
  out_finished_req_ids : gset string;
  out_new_block_ids_to_zero : option (list nat);
  out_block_copies : option (list (nat * nat));
  out_num_spec_tokens_to_schedule : Z;
  out_has_structured_output_requests : bool
}.

Definition dict_sum (d : list (string * Z)) : Z := foldr (fun kv acc => kv.2 + acc) 0 d.
Definition dict_pop (id : string) (d : list (string * Z)) : outcome (Z * list (string * Z)) :=
  match list_find (fun kv => kv.1 = id) d with
  | Some (i, kv) => Ok (kv.2, delete i d)
  | None => Raise KeyError
  end.
Fixpoint index_of (id : string) (l : list string) : option nat :=
  match l with
  | [] => None
  | x :: l => if String.eqb x id then Some 0%nat else S <$> index_of id l
  end.

Module Sched.
Section scheduler.
Context {Q K : Type} `{!RequestQueue Q} `{!KVOps K} (cfg : SchedulerConfig).
Abbreviation S := (Scheduler Q K).
Abbreviation St := (Scheduler Q K * StepState)%type.

(** ** Access to the parts *)

Definition on_sched {A} (f : M S A) : M St A := zoom fst (fun x s => (x, s.2)) f.
Definition on_step {A} (f : M StepState A) : M St A := zoom snd (fun x s => (s.1, x)) f.
Definition on_waiting {A} (f : M Q A) : M S A := zoom waiting set_waiting f.
Definition on_kv_holding {A} (f : M Q A) : M S A := zoom kv_holding_waiting set_kv_holding f.
Definition on_kv {A} (f : M K A) : M S A := zoom kv_cache_manager set_kv f.
Definition the_request (id : string) : M S Request :=
  let! m := gets requests in lift (or_raise (m !! id) KeyError).
Definition update_request (id : string) (f : Request -> Request) : M S unit :=
  modify (fun s => set_requests (alter f id (requests s)) s).
(** A call of the manager with the request object as an argument. *)
Definition on_kv_request {A} (id : string) (f : M (K * Request) A) : M S A :=
  fun s => match requests s !! id with
           | None => (Raise KeyError, s)
           | Some r => let '(o, x) := f (kv_cache_manager s, r) in
                       (o, set_kv x.1 (set_requests (<[id := x.2]> (requests s)) s))
           end.

Definition get_request_counts (s : S) : Z * Z :=
  (zlen (running s), Z.of_nat (queue_len (waiting s)) + Z.of_nat (queue_len (kv_holding_waiting s))).

Definition is_blocked_waiting_status (st : RequestStatus) : bool :=
  bool_decide (st = WAITING_FOR_STRUCTURED_OUTPUT_GRAMMAR) || bool_decide (st = WAITING_FOR_REMOTE_KVS) ||
  bool_decide (st = WAITING_FOR_STREAMING_REQ).
Definition holds_kv_blocks (r : Request) : bool :=
  (num_computed_tokens r >? 0) || bool_decide (status r = WAITING_FOR_REMOTE_KVS).

Definition reserve_prefill_lookahead (r : Request) (num_computed num_new_tokens : Z) : Z :=
  let remaining := num_tokens r - num_computed - num_new_tokens in
  let n := if (0 <? remaining) && (remaining <? num_prefill_lookahead cfg)
           then num_new_tokens - (num_prefill_lookahead cfg - remaining) else num_new_tokens in
  Z.max n 0.

(** ** Preemption *)

(** [request] after [_preempt_request], without a connector. *)
Definition preempted (r : Request) : Request :=
  set_schedule PREEMPTED [] 0 0 (num_in_flight_tokens r) (num_in_flight_tokens r)
    (drop_stale_output r && (num_stale_output_tokens r >? 0)) (is_prefill_chunk r) (shared_prefix_boundary r)
    (num_preemptions r + 1) r.
Definition preempt_request (id : string) (timestamp : Z) : M S unit :=
  let! r := the_request id in
  assert_ (bool_decide (status r = RUNNING)) ;;
  on_kv (kv_free id) ;;
  modify (fun s => set_inflight (inflight_prefills s ∖ {[id]}) s) ;;
  update_request id preempted ;;
  (if sched_log_stats cfg
   then update_request id (fun r => set_events (events r ++ [mkEvent PREEMPTED_EVENT timestamp]) r) else ret tt) ;;
  let! r := the_request id in
  on_waiting (prepend_request r) ;;
  modify (fun s => set_ids (finished_req_ids s) (reset_preempted_req_ids s ∪ {[id]}) (prev_step_scheduled_req_ids s)
                     (grammar_compile_error_reqs s) s).

(** [max(self.running, key=lambda r: (r.priority, r.arrival_time))]: the first
    of the largest. *)
Definition key_lt (a b : Request) : bool :=
  (priority a <? priority b) || ((priority a =? priority b) && (arrival_time a <? arrival_time b)).
Fixpoint max_by_key (best : string * Request) (ids : list string) (reqs : gmap string Request) : outcome string :=
  match ids with
  | [] => Ok best.1
  | id :: ids =>
      let? r := or_raise (reqs !! id) KeyError in
      max_by_key (if key_lt best.2 r then (id, r) else best) ids reqs
  end.
Definition lowest_priority (s : S) : outcome string :=
  match running s with
  | [] => Raise ValueError
  | id :: ids => let? r := or_raise (requests s !! id) KeyError in max_by_key (id, r) ids (requests s)
  end.

(** A request that was scheduled in this step gives its budget back. *)
Definition unschedule (id : string) : M StepState unit :=
  let! l := gets (fun l => l) in
  if bool_decide (id ∈ scheduled_running_reqs l) then
    let! popped := lift (dict_pop id (num_scheduled_tokens l)) in
    let '(restored, num_scheduled) := popped in
    modify (fun l => mkStep (scheduled_new_reqs l) (scheduled_resumed_reqs l)
      (filter (fun x => x <> id) (scheduled_running_reqs l)) (preempted_reqs l) (delete id (req_to_new_blocks l)) num_scheduled
      (token_budget l + restored) (input_budget l + restored + draft_slots cfg)
      (delete id (scheduled_spec_decode_tokens l)) (prefill_scheduled l) (step_skipped_waiting l) (step_skipped_kv_holding l))
  else ret tt.

(** Takes the victim off the running list; returns it and the request index. *)
Definition pop_victim (req_index : nat) : M St (string * nat) :=
  let! s := gets fst in
  match policy cfg with
  | PRIORITY =>
      let! victim := lift (lowest_priority s) in
      let! victim_index := lift (or_raise (index_of victim (running s)) ValueError) in
      on_sched (modify (set_running (delete victim_index (running s)))) ;;
      on_step (unschedule victim) ;;
      ret (victim, if (victim_index <? req_index)%nat then (req_index - 1)%nat else req_index)
  | FCFS =>
      let! victim := lift (or_raise (last (running s)) IndexError) in
      on_sched (modify (set_running (removelast (running s)))) ;;
      ret (victim, req_index)
  end.

(** The [while True] loop: allocate, or preempt and try again. *)
Fixpoint allocate_or_preempt (fuel : nat) (id : string) (num_new_tokens : Z) (timestamp : Z) (req_index : nat) :
    M St (option KVCacheBlocks * nat) :=
  match fuel with
  | O => raise OutOfFuel
  | Datatypes.S fuel =>
      let! new_blocks := on_sched (on_kv_request id
        (kv_allocate_slots num_new_tokens 0 None (num_lookahead_tokens cfg) false true)) in
      match new_blocks with
      | Some _ => ret (new_blocks, req_index)
      | None =>
          let! popped := pop_victim req_index in
          let '(victim, req_index) := popped in
          on_sched (preempt_request victim timestamp) ;;
          on_step (modify (fun l => mkStep (scheduled_new_reqs l) (scheduled_resumed_reqs l) (scheduled_running_reqs l)
            (preempted_reqs l ++ [victim]) (req_to_new_blocks l) (num_scheduled_tokens l) (token_budget l) (input_budget l)
            (scheduled_spec_decode_tokens l) (prefill_scheduled l) (step_skipped_waiting l) (step_skipped_kv_holding l))) ;;
          if String.eqb victim id then ret (None, req_index)
          else allocate_or_preempt fuel id num_new_tokens timestamp req_index
      end
  end.

(** ** Running requests *)

(** The tokens of a running request in this step, before the allocation. *)
Definition running_tokens (r : Request) (threshold token_budget input_budget : Z) : Z :=
  let n := num_tokens_with_spec r + num_output_placeholders r - num_computed_tokens r in
  let n := if (0 <? threshold) && (threshold <? n) then threshold else n in
  let n := Z.min (Z.min n token_budget) (input_budget - draft_slots cfg) in
  let n := Z.min n (sched_max_model_len cfg - num_computed_tokens r - num_sampled_tokens_per_step cfg) in
  reserve_prefill_lookahead r (num_computed_tokens r) n.

(** The request has produced all its tokens, waits for its turn in the pipeline,
    or is a deferred prefill. *)
Definition skip_running (r : Request) (current_step : Z) (defer_prefills : bool) : bool :=
  ((num_output_placeholders r >? 0) &&
   (num_computed_tokens r + 2 - num_output_placeholders r >=? num_prompt_tokens r + max_tokens r)) ||
  (current_step <? next_decode_eligible_step r) ||
  (defer_prefills && is_prefill_chunk r).

(** The drafts that fit behind the request's own tokens. *)
Definition scheduled_drafts (r : Request) (num_new_tokens : Z) : option (list Z) :=
  let n := num_new_tokens + num_computed_tokens r - num_tokens r - num_output_placeholders r in
  match spec_token_ids r with
  | [] => None
  | ids => if n >? 0 then Some (if zlen ids >? n then py_upto n ids else ids) else None
  end.
Definition schedule_running (id : string) (r : Request) (new_blocks : KVCacheBlocks) (num_new_tokens : Z) : M St unit :=
  on_step (modify (fun l => mkStep (scheduled_new_reqs l) (scheduled_resumed_reqs l) (scheduled_running_reqs l ++ [id])
    (preempted_reqs l) (<[id := new_blocks]> (req_to_new_blocks l)) (num_scheduled_tokens l ++ [(id, num_new_tokens)])
    (token_budget l - num_new_tokens) (input_budget l - (num_new_tokens + draft_slots cfg))
    (match scheduled_drafts r num_new_tokens with
     | Some ids => <[id := ids]> (scheduled_spec_decode_tokens l)
     | None => scheduled_spec_decode_tokens l
     end) (prefill_scheduled l || is_prefill_chunk r) (step_skipped_waiting l) (step_skipped_kv_holding l))) ;;
  on_sched (update_request id (set_spec_token_ids [])).

Fixpoint running_loop (fuel : nat) (threshold : Z) (defer_prefills : bool) (timestamp : Z) (req_index : nat) : M St unit :=
  match fuel with
  | O => raise OutOfFuel
  | Datatypes.S fuel =>
      let! x := gets (fun x => x) in
      let '(s, l) := x in
      match running s !! req_index with
      | None => ret tt
      | Some id =>
          if negb (token_budget l >? 0) || (input_budget l <=? draft_slots cfg) then ret tt else
          let! r := on_sched (the_request id) in
          let num_new_tokens := running_tokens r threshold (token_budget l) (input_budget l) in
          if skip_running r (current_step s) defer_prefills || (num_new_tokens =? 0)
          then running_loop fuel threshold defer_prefills timestamp (Datatypes.S req_index) else
          let! allocated := allocate_or_preempt (Datatypes.S (length (running s))) id num_new_tokens timestamp req_index in
          match allocated with
          | (None, _) => ret tt
          | (Some new_blocks, req_index) =>
              let! r := on_sched (the_request id) in
              schedule_running id r new_blocks num_new_tokens ;;
              running_loop fuel threshold defer_prefills timestamp (Datatypes.S req_index)
          end
      end
  end.

(** ** Waiting requests *)

(** [grammar]: the state of a request's compiled grammar: none yet, ready, or
    failed. *)
Context (grammar : string -> option bool).

(** Whether the request may be scheduled now; without a connector no transfer
    ever finishes. *)
Definition handle_blocked_waiting_request (id : string) : M S bool :=
  let! r := the_request id in
  match status r with
  | WAITING_FOR_REMOTE_KVS => ret false
  | WAITING_FOR_STRUCTURED_OUTPUT_GRAMMAR =>
      match structured_output_request r, grammar id with
      | None, _ | _, None => ret false
      | Some _, Some false =>
          modify (fun s => set_ids (finished_req_ids s) (reset_preempted_req_ids s) (prev_step_scheduled_req_ids s)
                             (grammar_compile_error_reqs s ∪ {[id]}) s) ;;
          ret false
      | Some _, Some true => update_request id (set_status WAITING) ;; ret true
      end
  | WAITING_FOR_STREAMING_REQ =>
      assert_ (match streaming_queue r with None | Some [] => true | _ => false end) ;; ret false
  | _ => ret true
  end.

(** [skip_request(request_queue)] *)
Definition skip_request (from_kv_holding : bool) : M St unit :=
  let! queued := on_sched (if from_kv_holding then on_kv_holding pop_request else on_waiting pop_request) in
  let id := request_id queued in
  on_sched (modify (fun s => set_deferred (deferred_waiting s ∪ {[id]}) s)) ;;
  let! r := on_sched (the_request id) in
  on_step (modify (fun l => mkStep (scheduled_new_reqs l) (scheduled_resumed_reqs l) (scheduled_running_reqs l)
    (preempted_reqs l) (req_to_new_blocks l) (num_scheduled_tokens l) (token_budget l) (input_budget l)
    (scheduled_spec_decode_tokens l) (prefill_scheduled l)
    (if holds_kv_blocks r then step_skipped_waiting l else r :: step_skipped_waiting l)
    (if holds_kv_blocks r then r :: step_skipped_kv_holding l else step_skipped_kv_holding l))).

(** The tokens of a waiting request: whether a new decode is padded with draft
    rows, and their number; [None] stops the loop. *)
Definition waiting_tokens (r : Request) (num_computed threshold : Z) (l : StepState) : outcome (option (bool * Z)) :=
  let request_token_budget := Z.min (token_budget l) (input_budget l - draft_slots cfg) in
  let n := num_tokens r - num_computed in
  let padded := 1 + num_spec_tokens cfg in
  let pad := (num_spec_tokens cfg >? 0) && bool_decide (dynamic_sd_lookup cfg = None) &&
    (num_sampled_tokens_per_step cfg >? 0) && (n =? 1) && negb (prefill_scheduled l) &&
    (negb (zlen (scheduled_running_reqs l) =? 0) || (num_computed >? 0)) &&
    (num_computed + padded + num_sampled_tokens_per_step cfg <=? sched_max_model_len cfg) in
  if pad && (padded >? request_token_budget) then Ok None else
  let n := if pad then padded else n in
  let n := if (0 <? threshold) && (threshold <? n) then threshold else n in
  if negb (enable_chunked_prefill cfg) && (n >? request_token_budget) && negb (is_mm_encoder_only cfg) then Ok None else
  let n := Z.min n request_token_budget in
  if negb (n >? 0) then Raise AssertionError else
  let n := reserve_prefill_lookahead r num_computed n in
  if n =? 0 then Ok None else Ok (Some (pad, n)).

(** A new request, or one that is resumed after a preemption. *)
Definition classify (id : string) (st : RequestStatus) : M StepState unit :=
  match st with
  | WAITING => modify (fun l => mkStep (scheduled_new_reqs l ++ [id]) (scheduled_resumed_reqs l)
      (scheduled_running_reqs l) (preempted_reqs l) (req_to_new_blocks l) (num_scheduled_tokens l) (token_budget l)
      (input_budget l) (scheduled_spec_decode_tokens l) (prefill_scheduled l) (step_skipped_waiting l) (step_skipped_kv_holding l))
  | PREEMPTED => modify (fun l => mkStep (scheduled_new_reqs l) (scheduled_resumed_reqs l ++ [id])
      (scheduled_running_reqs l) (preempted_reqs l) (req_to_new_blocks l) (num_scheduled_tokens l) (token_budget l)
      (input_budget l) (scheduled_spec_decode_tokens l) (prefill_scheduled l) (step_skipped_waiting l) (step_skipped_kv_holding l))
  | _ => raise RuntimeError
  end.
Definition grant (id : string) (blocks : KVCacheBlocks) (num_new_tokens : Z) : M StepState unit :=
  modify (fun l => mkStep (scheduled_new_reqs l) (scheduled_resumed_reqs l) (scheduled_running_reqs l)
    (preempted_reqs l) (<[id := blocks]> (req_to_new_blocks l)) (num_scheduled_tokens l ++ [(id, num_new_tokens)])
    (token_budget l - num_new_tokens) (input_budget l - (num_new_tokens + draft_slots cfg)) (scheduled_spec_decode_tokens l)
    (prefill_scheduled l) (step_skipped_waiting l) (step_skipped_kv_holding l)).
(** The draft rows of a padded decode. *)
Definition pad_drafts (id : string) (num_new_tokens : Z) (pad : bool) : M StepState unit :=
  if pad then
    assert_ (num_new_tokens =? 1 + num_spec_tokens cfg) ;;
    modify (fun l => mkStep (scheduled_new_reqs l) (scheduled_resumed_reqs l) (scheduled_running_reqs l)
      (preempted_reqs l) (req_to_new_blocks l) (num_scheduled_tokens l) (token_budget l) (input_budget l)
      (<[id := replicate (Z.to_nat (num_spec_tokens cfg)) (-1)]> (scheduled_spec_decode_tokens l)) (prefill_scheduled l)
      (step_skipped_waiting l) (step_skipped_kv_holding l))
  else ret tt.

(** The tail of an iteration, once the slots are allocated. *)
Definition admit_waiting (from_kv_holding : bool) (timestamp : Z) (id : string) (num_computed num_new_tokens : Z) (pad : bool) : M St unit :=
  on_sched (if from_kv_holding then on_kv_holding pop_request else on_waiting pop_request) ;;
  on_sched (modify (fun s => set_running (running s ++ [id]) (set_deferred (deferred_waiting s ∖ {[id]}) s))) ;;
  (if sched_log_stats cfg
   then on_sched (update_request id (fun r => set_events (events r ++ [mkEvent SCHEDULED timestamp]) r)) else ret tt) ;;
  let! r := on_sched (the_request id) in
  on_step (classify id (status r)) ;;
  let! s := gets fst in
  on_step (grant id (kv_get_blocks (kv_cache_manager s) id) num_new_tokens) ;;
  on_sched (update_request id (fun r => set_num_computed_tokens num_computed (set_status RUNNING r))) ;;
  on_step (pad_drafts id num_new_tokens pad) ;;
  on_sched (modify (fun s => if num_computed + num_new_tokens <? num_tokens r
                             then set_inflight (inflight_prefills s ∪ {[id]}) s else s)).

(** The computed tokens of a waiting request: a lookup for one without computed
    tokens. *)
Definition waiting_computed (id : string) (r : Request) : M S (KVCacheBlocks * Z * Z) :=
  if num_computed_tokens r =? 0 then
    let! found := on_kv_request id kv_get_computed_blocks in
    let '(blocks, num_local, boundary) := found in
    update_request id (fun r => set_schedule (status r) (spec_token_ids r) (num_computed_tokens r) (num_output_placeholders r)
      (num_in_flight_tokens r) (num_stale_output_tokens r) (drop_stale_output r) (is_prefill_chunk r) boundary
      (num_preemptions r) r) ;;
    assert_ (num_local <=? num_tokens r) ;;
    let! stats := gets prefill_stats in
    (if bool_decide (id ∈ stats) && (num_preemptions r <=? 0) then assert_ (num_local <=? num_prompt_tokens r) else ret tt) ;;
    ret (blocks, num_local, num_local)
  else ret (EmptyBlocks, 0, num_computed_tokens r).

Fixpoint waiting_loop (fuel : nat) (threshold : Z) (defer_prefills : bool) (timestamp : Z) : M St unit :=
  match fuel with
  | O => raise OutOfFuel
  | Datatypes.S fuel =>
      let! x := gets (fun x => x) in
      let '(s, l) := x in
      if negb (token_budget l >? 0) then ret tt else
      let from_kv_holding := negb (queue_len (kv_holding_waiting s) =? 0)%nat in
      if negb from_kv_holding && negb (bool_decide (pause_state s = UNPAUSED) && negb (queue_len (waiting s) =? 0)%nat)
      then ret tt else
      if input_budget l <=? draft_slots cfg then ret tt else
      if zlen (running s) + num_waiting_for_streaming_input s >=? max_num_active_reqs cfg then ret tt else
      let! queued := on_sched (if from_kv_holding then on_kv_holding peek_request else on_waiting peek_request) in
      let id := request_id queued in
      let! ready := on_sched (handle_blocked_waiting_request id) in
      if negb ready then skip_request from_kv_holding ;; waiting_loop fuel threshold defer_prefills timestamp else
      let! r := on_sched (the_request id) in
      if negb (num_stale_output_tokens r =? 0) && negb (drop_stale_output r)
      then skip_request from_kv_holding ;; waiting_loop fuel threshold defer_prefills timestamp else
      let! computed := on_sched (waiting_computed id r) in
      let '(new_computed_blocks, num_local, num_computed) := computed in
      if defer_prefills && (num_computed <? num_tokens r - 1) then ret tt else
      let! tokens := lift (waiting_tokens r num_computed threshold l) in
      match tokens with
      | None => ret tt
      | Some (pad, num_new_tokens) =>
          let! new_blocks := on_sched (on_kv_request id (kv_allocate_slots num_new_tokens num_local (Some new_computed_blocks)
            (num_lookahead_tokens cfg) (scheduler_reserve_full_isl cfg) (negb (zlen (running s) =? 0)))) in
          match new_blocks with
          | None => ret tt
          | Some _ =>
              (if num_computed_tokens r =? 0 then
                 on_sched (let! r := the_request id in on_kv (kv_record_prefix_cache_stats r num_local))
               else ret tt) ;;
              admit_waiting from_kv_holding timestamp id num_computed num_new_tokens pad ;;
              waiting_loop fuel threshold defer_prefills timestamp
          end
      end
  end.

(** Requests skipped in this pass go ahead of the others. *)
Definition requeue_skipped : M St unit :=
  let! l := gets snd in
  (match step_skipped_kv_holding l with [] => ret tt | _ => on_sched (on_kv_holding (prepend_requests (step_skipped_kv_holding l))) end) ;;
  (match step_skipped_waiting l with [] => ret tt | _ => on_sched (on_waiting (prepend_requests (step_skipped_waiting l))) end).
Definition schedule_waiting (threshold : Z) (defer_prefills : bool) (timestamp : Z) : M St unit :=
  let! s := gets fst in
  waiting_loop (Datatypes.S (queue_len (waiting s) + queue_len (kv_holding_waiting s))) threshold defer_prefills timestamp ;;
  requeue_skipped ;;
  (if defer_prefills then ret tt else
   on_sched (modify (fun s => set_counts (current_step s) (num_waiting_for_streaming_input s) (prefill_stats s) (pause_state s)
     ((get_request_counts s).2 >? Z.of_nat (size (deferred_waiting s))) s))).

(** ** The step *)

Definition effective_threshold (num_eligible_reqs : Z) : Z :=
  let t := if num_eligible_reqs >? 1 then long_prefill_token_threshold cfg else 0 in
  if (t >? 0) && adaptive_long_prefill_threshold cfg then Z.max t (max_num_batched_tokens cfg / num_eligible_reqs) else t.

Definition new_step (s : S) : StepState :=
  mkStep [] [] [] [] ∅ [] (if bool_decide (pause_state s = PAUSED_ALL) then 0 else max_num_scheduled_tokens cfg)
    (max_num_batched_tokens cfg) ∅ false [] [].

(** The two phases and the final checks. *)
Definition schedule_requests (throttle_prefills : bool) (timestamp : Z) : M St unit :=
  let! s := gets fst in
  let defer_prefills := throttle_prefills && negb (prefill_capacity_bound s) &&
    existsb (fun id => match requests s !! id with Some r => negb (is_prefill_chunk r) | None => false end) (running s) in
  let counts := get_request_counts s in
  let threshold := effective_threshold (counts.1 + counts.2) in
  running_loop (Datatypes.S (length (running s))) threshold defer_prefills timestamp 0 ;;
  let! x := gets (fun x => x) in
  (if (zlen (preempted_reqs x.2) =? 0) && negb (bool_decide (pause_state x.1 = PAUSED_ALL))
   then schedule_waiting threshold defer_prefills timestamp else ret tt) ;;
  let! x := gets (fun x => x) in
  let '(s, l) := x in
  assert_ (dict_sum (num_scheduled_tokens l) <=? max_num_scheduled_tokens cfg) ;;
  assert_ (token_budget l >=? 0) ;;
  assert_ (input_budget l >=? 0) ;;
  assert_ (zlen (running s) <=? max_num_running_reqs cfg) ;;
  assert_ (zlen (scheduled_new_reqs l) + zlen (scheduled_resumed_reqs l) + zlen (scheduled_running_reqs l) <=? zlen (running s)).

(** ** Output *)

Definition block_ids_or_none (k : K) (blocks : KVCacheBlocks) : option (list (list nat)) :=
  let ids := kv_block_ids k blocks in
  if forallb (fun group => zlen group =? 0) ids then None else Some ids.

Definition make_cached_request_data (s : S) (l : StepState) (resumed : list string) : outcome CachedRequestData :=
  let all := map (fun id => (id, false)) (scheduled_running_reqs l) ++ map (fun id => (id, true)) resumed in
  foldl (fun acc x =>
      let? d := acc in
      let '(id, is_resumed) := x in
      let? r := or_raise (requests s !! id) KeyError in
      let? n := or_raise (snd <$> (snd <$> list_find (fun kv => kv.1 = id) (num_scheduled_tokens l))) KeyError in
      let? blocks := or_raise (req_to_new_blocks l !! id) KeyError in
      let num_tokens := n - zlen (default [] (scheduled_spec_decode_tokens l !! id)) in
      Ok (mkCached (req_ids d ++ [id]) (if is_resumed : bool then resumed_req_ids d ∪ {[id]} else resumed_req_ids d)
            (if use_pp cfg && negb (async_scheduling cfg)
             then new_token_ids d ++ [py_slice (num_computed_tokens r) (num_computed_tokens r + num_tokens) (all_token_ids r)]
             else new_token_ids d)
            (if negb (use_v2_model_runner cfg) && negb (bool_decide (id ∈ prev_step_scheduled_req_ids s))
             then <[id := all_token_ids r]> (cached_all_token_ids d) else cached_all_token_ids d)
            (new_block_ids d ++ [block_ids_or_none (kv_cache_manager s) blocks])
            (cached_num_computed_tokens d ++ [num_computed_tokens r])
            (cached_num_output_tokens d ++ [num_output_tokens r + num_output_placeholders r])))
    (Ok (mkCached [] ∅ [] ∅ [] [] [])) all.

Definition new_request_data (s : S) (l : StepState) (ids : list string) : outcome (list NewRequestData) :=
  foldr (fun id acc =>
      let? r := or_raise (requests s !! id) KeyError in
      let? blocks := or_raise (req_to_new_blocks l !! id) KeyError in
      let? rest := acc in
      Ok (mkNewData r (kv_block_ids (kv_cache_manager s) blocks)
            (if use_v2_model_runner cfg then Some (all_token_ids r) else None) :: rest)) (Ok []) ids.

(** [Scheduler._update_after_schedule]; returns whether a scheduled request
    uses structured output. *)
Definition advance (n : Z) (r : Request) : Request :=
  set_schedule (status r) (spec_token_ids r) (num_computed_tokens r + n) (num_output_placeholders r)
    (num_in_flight_tokens r + n) (num_stale_output_tokens r) (drop_stale_output r)
    (num_computed_tokens r + n <? num_tokens r + num_output_placeholders r) (shared_prefix_boundary r) (num_preemptions r) r.
Definition update_after_schedule (scheduled : list (string * Z)) : M S bool :=
  let! structured := fold_ scheduled false (fun acc kv =>
    let! _ := the_request kv.1 in
    update_request kv.1 (advance kv.2) ;;
    let! r := the_request kv.1 in
    (if is_prefill_chunk r then ret tt else modify (fun s => set_inflight (inflight_prefills s ∖ {[kv.1]}) s)) ;;
    ret (acc || (use_structured_output r && negb (is_prefill_chunk r)))) in
  modify (fun s => set_ids ∅ ∅ (prev_step_scheduled_req_ids s) (grammar_compile_error_reqs s) s) ;;
  ret structured.

Definition schedule (throttle_prefills : bool) (timestamp : Z) : M S SchedulerOutput :=
  modify (fun s => set_counts (current_step s + 1) (num_waiting_for_streaming_input s) (prefill_stats s) (pause_state s)
                     (prefill_capacity_bound s) s) ;;
  let! l := (fun s => match schedule_requests throttle_prefills timestamp (s, new_step s) with
                      | (Ok _, (s', l)) => (Ok l, s')
                      | (Raise e, (s', _)) => (Raise e, s')
                      end) in
  let! s := gets (fun s => s) in
  let! num_common_prefix_blocks := match running s with
    | [] => ret (replicate (kv_num_groups (kv_cache_manager s)) 0)
    | id :: _ => on_kv (kv_get_num_common_prefix_blocks id)
    end in
  let! s := gets (fun s => s) in
  let new_ids := if use_v2_model_runner cfg then scheduled_new_reqs l ++ scheduled_resumed_reqs l else scheduled_new_reqs l in
  let resumed := if use_v2_model_runner cfg then [] else scheduled_resumed_reqs l in
  let! new_reqs_data := lift (new_request_data s l new_ids) in
  let! cached_reqs_data := lift (make_cached_request_data s l resumed) in
  (if use_v2_model_runner cfg then ret tt
   else modify (fun s => set_ids (finished_req_ids s) (reset_preempted_req_ids s) (list_to_set (num_scheduled_tokens l).*1)
                           (grammar_compile_error_reqs s) s)) ;;
  let! copied := on_kv kv_take_block_copies in
  (match copied.1 with [] => ret tt | _ => on_kv (kv_free_blocks copied.2) end) ;;
  let! spec_tokens := lift (match dynamic_sd_lookup cfg, num_scheduled_tokens l with
    | Some lookup, _ :: _ => or_raise (py_get lookup (zlen (num_scheduled_tokens l))) IndexError
    | _, _ => Ok (num_spec_tokens cfg)
    end) in
  let! s := gets (fun s => s) in
  let! new_ids_to_zero := on_kv kv_take_new_block_ids in
  let! structured := update_after_schedule (num_scheduled_tokens l) in
  ret (mkOutput new_reqs_data cached_reqs_data (num_scheduled_tokens l) (dict_sum (num_scheduled_tokens l))
         (scheduled_spec_decode_tokens l) num_common_prefix_blocks (reset_preempted_req_ids s) (finished_req_ids s)
         (if sched_needs_zeroing cfg then match new_ids_to_zero with [] => None | ids => Some ids end else None)
         (match copied.1 with [] => None | copies => Some copies end) spec_tokens structured).

(** ** Construction *)

Definition new_scheduler (kv_cache_manager : K) : S :=
  mkScheduler 0 ∅ [] empty_queue empty_queue ∅ ∅ ∅ ∅ ∅ ∅ ∅ 0 UNPAUSED false kv_cache_manager.

(** ** Arrival *)

Definition enqueue_waiting_request (r : Request) : M S unit :=
  modify (fun s => if is_blocked_waiting_status (status r) then set_deferred (deferred_waiting s ∪ {[request_id r]}) s else s) ;;
  if holds_kv_blocks r then on_kv_holding (add_request r) else on_waiting (add_request r).
(** [add_request] for an id that is not known. *)
Definition add_new_request (r : Request) (timestamp : Z) : M S unit :=
  enqueue_waiting_request r ;;
  modify (fun s => set_counts (current_step s) (num_waiting_for_streaming_input s) (prefill_stats s ∪ {[request_id r]})
                     (pause_state s) (prefill_capacity_bound s) (set_requests (<[request_id r := r]> (requests s)) s)) ;;
  if sched_log_stats cfg then update_request (request_id r) (fun r => set_events (events r ++ [mkEvent QUEUED timestamp]) r)
  else ret tt.
End scheduler.
End Sched.
