(* ===== verification/SchedulerSafety.v ===== *)
(** The scheduling step ([vllm/v1/core/sched/scheduler.py]) over any queue and
    any KV cache manager that keep their promises: it returns without tripping
    an assertion, stays within its budgets, gives every scheduled request slots
    for its tokens, and neither loses nor duplicates a request. *)
From Stdlib Require Import ZArith Lia Strings.String.
From stdpp Require Import base numbers list gmap strings.
From S2P Require Import Prelude Request RequestQueue KVCacheManager Scheduler.
Open Scope Z_scope.
Local Arguments py_get : simpl never.
Local Arguments Z.of_nat : simpl never.

(** * What the KV cache manager promises *)

Definition memo_only (r r' : Request) : Prop := exists m, r' = set_prompt_embeds_per_block_hashes m r.

(** What a request is besides its scheduling state. *)
Definition profile (r : Request) :=
  (sampling_params r, pooling_params r, lora_request r, cache_salt r, resumable r, output_token_ids r, max_tokens r).
Definition content (r : Request) :=
  (request_id r, all_token_ids r, block_hashes r, num_prompt_tokens r, mm_features r, prompt_embeds r,
   prompt_embeds_per_block_hashes r, kv_cache_report_mode r, profile r).
(** A request of the modelled kind: it samples tokens, is not a streaming
    session and has no encoder inputs. *)
Record served (r : Request) : Prop := {
  sv_sampling : is_Some (sampling_params r);
  sv_pooling : pooling_params r = None;
  sv_resumable : resumable r = false;
  sv_encoder : mm_features r = []
}.

(** [kv_covers k id n]: [id] has slots for [n] tokens in every group;
    [kv_fresh k id]: no group knows [id]; [kv_hits k id b n]: [b] are blocks of
    the pool with the first [n] tokens of [id]. *)
Class KVLaws (K : Type) `{!KVOps K} (max_len : Z) := {
  kv_ok : K -> Prop;
  kv_covers : K -> string -> Z -> Prop;
  kv_fresh : K -> string -> Prop;
  kv_fits : Request -> Prop;
  kv_hits : K -> string -> KVCacheBlocks -> Z -> Prop;
  kv_frame (id : string) (k k' : K) : Prop := forall id', id' <> id ->
    (forall n, kv_covers k id' n -> kv_covers k' id' n) /\ (kv_fresh k id' -> kv_fresh k' id');
  kv_same (k k' : K) : Prop := forall id,
    (forall n, kv_covers k id n -> kv_covers k' id n) /\ (kv_fresh k id -> kv_fresh k' id);
  kv_covers_le k id n n' : kv_covers k id n -> n' <= n -> kv_covers k id n';
  kv_fits_content r r' : content r' = content r -> kv_fits r -> kv_fits r';
  kv_fits_tokens r : kv_fits r -> 1 <= num_prompt_tokens r /\ num_tokens r <= max_len;
  law_running k r nn b nla full scheduled :
    kv_ok k -> kv_fits r -> b = None \/ b = Some EmptyBlocks -> 0 <= num_computed_tokens r <= max_len ->
    kv_covers k (request_id r) (num_computed_tokens r) -> 0 < nn -> 0 <= nla ->
    wp (kv_allocate_slots nn 0 b nla full scheduled) (fun res s => kv_ok s.1 /\ kv_fits s.2 /\ memo_only r s.2 /\
      kv_frame (request_id r) k s.1 /\
      kv_covers s.1 (request_id r) (match res with
        | Some _ => Z.min (num_computed_tokens r + nn) max_len
        | None => num_computed_tokens r
        end)) (k, r);
  law_computed k r :
    kv_ok k -> kv_fits r -> num_computed_tokens r = 0 -> 1 <= num_tokens r -> kv_fresh k (request_id r) ->
    wp kv_get_computed_blocks (fun res s => kv_ok s.1 /\ kv_fits s.2 /\ memo_only r s.2 /\ kv_same k s.1 /\
      0 <= res.1.2 < num_tokens r /\ kv_hits s.1 (request_id r) res.1.1 res.1.2) (k, r);
  law_new k r b n nn nla full scheduled :
    kv_ok k -> kv_fits r -> num_computed_tokens r = 0 -> 1 <= num_tokens r -> kv_fresh k (request_id r) ->
    kv_hits k (request_id r) b n -> 0 <= n < num_tokens r -> 0 < nn -> 0 <= nla ->
    wp (kv_allocate_slots nn n (Some b) nla full scheduled) (fun res s => kv_ok s.1 /\ kv_fits s.2 /\ memo_only r s.2 /\
      kv_frame (request_id r) k s.1 /\
      match res with
      | Some _ => kv_covers s.1 (request_id r) (Z.min (n + nn) max_len)
      | None => kv_fresh s.1 (request_id r)
      end) (k, r);
  law_free k id : kv_ok k -> wp (kv_free id) (fun _ k' => kv_ok k' /\ kv_frame id k k' /\ kv_fresh k' id) k;
  law_stats k r n : kv_ok k -> wp (kv_record_prefix_cache_stats r n) (fun _ k' => kv_ok k' /\ kv_same k k') k;
  law_common k id : kv_ok k -> wp (kv_get_num_common_prefix_blocks id) (fun _ k' => kv_ok k' /\ kv_same k k') k;
  law_new_ids k : kv_ok k -> wp kv_take_new_block_ids (fun _ k' => kv_ok k' /\ kv_same k k') k;
  law_copies k : kv_ok k ->
    wp (let! copied := kv_take_block_copies in
        match copied.1 with [] => ret tt | _ => kv_free_blocks copied.2 end) (fun _ k' => kv_ok k' /\ kv_same k k') k;
  law_estimate k r : 0 <= kv_estimate_cached_tokens k r;
  law_events k : kv_ok k -> wp kv_take_events (fun _ k' => kv_ok k' /\ kv_same k k') k
}.

(** * Invariant *)

Section invariant.
Context {Q K : Type} `{!RequestQueue Q, !RequestQueueLaws Q} `{!KVOps K} (cfg : SchedulerConfig)
  `{!KVLaws K (sched_max_model_len cfg)} (fl : string -> Z * Z).
Abbreviation S := (Scheduler Q K).
Abbreviation St := (Scheduler Q K * StepState)%type.
Abbreviation max_len := (sched_max_model_len cfg).
Abbreviation kv s := (kv_cache_manager s).
Abbreviation covers := (kv_covers (max_len := max_len)).
Abbreviation fresh_in := (kv_fresh (max_len := max_len)).
Abbreviation fits := (kv_fits (max_len := max_len)).
Abbreviation good := (kv_ok (max_len := max_len)).
Abbreviation frame := (kv_frame (max_len := max_len)).
Abbreviation same := (kv_same (max_len := max_len)).

(** [fl]: the tokens each request had in flight before the step, and has now.
    Stale tokens are tokens of an earlier step that are still in flight; without
    asynchronous scheduling there are no placeholders. *)
Definition ledger (r : Request) := (num_in_flight_tokens r, num_stale_output_tokens r, num_output_placeholders r).
Record in_order (r : Request) : Prop := {
  io_flight : num_in_flight_tokens r = (fl (request_id r)).2;
  io_stale : 0 <= num_stale_output_tokens r <= (fl (request_id r)).1;
  io_placeholders : num_output_placeholders r = 0;
  io_served : served r;
  io_limit : num_output_tokens r < max_tokens r
}.
Lemma in_order_content r r' : content r' = content r -> ledger r' = ledger r -> in_order r -> in_order r'.
Proof.
  unfold content, profile, ledger. intros [= E1 E2 E3 E4 E5 E6 E7 E8 E9 E10 E11 E12 E13 E14 E15] [= F1 F2 F3] [H1 H2 H3 [H4 H5 H6 H7] H8].
  split; [by rewrite F1, E1|by rewrite F2, E1|by rewrite F3| |unfold num_output_tokens in *; by rewrite E14, E15]. split; by rewrite ?E5, ?E9, ?E10, ?E13.
Qed.

Record running_ok (k : K) (r : Request) : Prop := {
  rn_status : status r = RUNNING;
  rn_fits : fits r;
  rn_tokens : 1 <= num_tokens r;
  rn_preemptions : 0 <= num_preemptions r;
  rn_range : 0 <= num_computed_tokens r <= max_len;
  rn_covers : covers k (request_id r) (num_computed_tokens r);
  rn_order : in_order r
}.
(** A waiting request without computed tokens is unknown to the manager; one
    that keeps its blocks has slots for its computed tokens. *)
Record waiting_ok (k : K) (r : Request) : Prop := {
  wt_status : status r ∈ [WAITING; PREEMPTED; WAITING_FOR_STRUCTURED_OUTPUT_GRAMMAR];
  wt_fits : fits r;
  wt_tokens : 1 <= num_tokens r;
  wt_preemptions : 0 <= num_preemptions r;
  wt_place : (num_computed_tokens r = 0 /\ fresh_in k (request_id r) /\
                (num_preemptions r <= 0 -> num_tokens r <= num_prompt_tokens r)) \/
             (0 < num_computed_tokens r < num_tokens r /\ covers k (request_id r) (num_computed_tokens r));
  wt_order : in_order r
}.

(** The scheduler's requests and the identity of their objects. *)
Context (P : list string) (obj : string -> Z).
Hypothesis P_nodup : NoDup P.
Hypothesis obj_inj : forall a b, a ∈ P -> b ∈ P -> obj a = obj b -> a = b.

Definition queued (lw lk : list Request) (l : StepState) : list Request :=
  lw ++ lk ++ step_skipped_waiting l ++ step_skipped_kv_holding l.
Definition queued_ok (s : S) (q : Request) : Prop :=
  obj_id q = obj (request_id q) /\ forall r, requests s !! request_id q = Some r -> waiting_ok (kv s) r.

(** [out]: running requests that have left the list of running requests and are
    not queued yet. *)
Record inv (out : list string) (s : S) (l : StepState) : Prop := {
  iv_kv : good (kv s);
  iv_known : forall id, id ∈ P -> exists r, requests s !! id = Some r /\ request_id r = id /\ obj_id r = obj id;
  iv_running : forall id r, id ∈ running s ++ out -> requests s !! id = Some r -> running_ok (kv s) r;
  iv_queues : exists lw lk, queue_ok (waiting s) /\ queue_iter (waiting s) = Ok lw /\
    queue_ok (kv_holding_waiting s) /\ queue_iter (kv_holding_waiting s) = Ok lk /\
    (running s ++ out) ++ map request_id (queued lw lk l) ≡ₚ P /\ Forall (queued_ok s) (queued lw lk l);
  iv_others : forall id, id ∉ P -> fresh_in (kv s) id;
  iv_domain : forall id, is_Some (requests s !! id) -> id ∈ P
}.

(** What has been scheduled so far. *)
Record scheduled (s : S) (l : StepState) : Prop := {
  sc_keys : NoDup (num_scheduled_tokens l).*1;
  sc_each : forall id n, (id, n) ∈ num_scheduled_tokens l -> id ∈ running s /\ 0 < n /\
    forall r, requests s !! id = Some r -> covers (kv s) id (num_computed_tokens r + n) /\ num_computed_tokens r + n <= max_len;
  sc_parts : (num_scheduled_tokens l).*1 ≡ₚ scheduled_running_reqs l ++ scheduled_new_reqs l ++ scheduled_resumed_reqs l;
  sc_blocks : forall id, id ∈ (num_scheduled_tokens l).*1 -> is_Some (req_to_new_blocks l !! id);
  sc_budget : 0 <= token_budget l /\ token_budget l + dict_sum (num_scheduled_tokens l) <= max_num_scheduled_tokens cfg;
  sc_input : 0 <= input_budget l;
  sc_drafts : forall id d, scheduled_spec_decode_tokens l !! id = Some d -> exists n, (id, n) ∈ num_scheduled_tokens l /\
    forall r, requests s !! id = Some r -> zlen d <= num_computed_tokens r + n
}.

Lemma inv_member out s l id : inv out s l -> id ∈ running s ++ out -> id ∈ P.
Proof. intros [_ _ _ (lw & lk & _ & _ & _ & _ & Hp & _) _ _] Hid. rewrite <- Hp. apply elem_of_app. by left. Qed.
Lemma inv_lookup out s l id : inv out s l -> id ∈ P -> exists r, requests s !! id = Some r /\ request_id r = id /\ obj_id r = obj id.
Proof. intros H. apply (iv_known _ _ _ H). Qed.
Lemma inv_queued_in out (s : S) l lw lk q :
  (running s ++ out) ++ map request_id (queued lw lk l) ≡ₚ P -> q ∈ queued lw lk l -> request_id q ∈ P /\ request_id q ∉ running s ++ out.
Proof.
  intros Hp Hq. pose proof P_nodup as Hnd. rewrite <- Hp in Hnd. apply NoDup_app in Hnd as (_ & Hd & _).
  assert (request_id q ∈ map request_id (queued lw lk l)) as Hin by (apply list_elem_of_In, in_map; by apply list_elem_of_In).
  split; [rewrite <- Hp; apply elem_of_app; by right|]. intros Hr. by apply (Hd _ Hr).
Qed.

Lemma running_ok_frame id k k' r : request_id r <> id -> frame id k k' -> running_ok k r -> running_ok k' r.
Proof. intros Hne Hf []. destruct (Hf _ Hne). split; auto. Qed.
Lemma waiting_ok_frame id k k' r : request_id r <> id -> frame id k k' -> waiting_ok k r -> waiting_ok k' r.
Proof.
  intros Hne Hf []. destruct (Hf _ Hne) as [Hc Hfr]. split; try done.
  destruct wt_place0 as [(? & ? & ?)|[? ?]]; [left; auto|right; auto].
Qed.
Lemma same_frame id k k' : same k k' -> frame id k k'.
Proof. intros H id' _. apply H. Qed.
Lemma running_ok_same k k' r : same k k' -> running_ok k r -> running_ok k' r.
Proof. intros Hf []. destruct (Hf (request_id r)). split; auto. Qed.
Lemma waiting_ok_same k k' r : same k k' -> waiting_ok k r -> waiting_ok k' r.
Proof.
  intros Hf []. destruct (Hf (request_id r)) as [Hc Hfr]. split; try done.
  destruct wt_place0 as [(? & ? & ?)|[? ?]]; [left; auto|right; auto].
Qed.

End invariant.

(** * How the invariant changes *)

(** Every request keeps its place; the objects and the manager may change. *)
Lemma inv_objects {Q K : Type} `{!RequestQueue Q, !RequestQueueLaws Q} `{!KVOps K} (cfg : SchedulerConfig)
    `{!KVLaws K (sched_max_model_len cfg)} (fl fl' : string -> Z * Z) (P : list string) (obj : string -> Z) out (s s' : Scheduler Q K) l :
  NoDup P -> inv cfg fl P obj out s l -> running s' = running s -> waiting s' = waiting s -> kv_holding_waiting s' = kv_holding_waiting s ->
  kv_ok (max_len := sched_max_model_len cfg) (kv_cache_manager s') ->
  (forall id, is_Some (requests s' !! id) -> is_Some (requests s !! id)) ->
  (forall id, id ∉ P -> kv_fresh (max_len := sched_max_model_len cfg) (kv_cache_manager s) id ->
    kv_fresh (max_len := sched_max_model_len cfg) (kv_cache_manager s') id) ->
  (forall id r, id ∈ P -> requests s !! id = Some r -> request_id r = id -> exists r', requests s' !! id = Some r' /\ request_id r' = id /\
    obj_id r' = obj_id r /\
    (id ∈ running s ++ out -> running_ok cfg fl (kv_cache_manager s) r -> running_ok cfg fl' (kv_cache_manager s') r') /\
    (id ∉ running s ++ out -> waiting_ok cfg fl (kv_cache_manager s) r -> waiting_ok cfg fl' (kv_cache_manager s') r')) ->
  inv cfg fl' P obj out s' l.
Proof.
  intros Hnd [Hk Hkn Hr (lw & lk & Q1 & Q2 & Q3 & Q4 & Hp & Hq) Hoth Hdom] Erun Ew Ekh Hk' Hreq Hfr Hobj. split.
  - done.
  - intros id Hid. destruct (Hkn id Hid) as (r & E & Ei & Eo). destruct (Hobj id r Hid E Ei) as (r' & E' & Ei' & Eo' & _).
    exists r'. split_and!; congruence.
  - rewrite Erun. intros id r' Hin E'. assert (id ∈ P) as Hid by (rewrite <- Hp; set_solver). destruct (Hkn id Hid) as (r & E & Ei & Eo).
    destruct (Hobj id r Hid E Ei) as (r0 & E0 & _ & _ & Hrun & _). assert (r0 = r') as -> by congruence. apply Hrun; [done|by apply (Hr id)].
  - exists lw, lk. rewrite Ew, Ekh, Erun. split_and!; try done. rewrite Forall_forall in Hq |- *. intros q Hin.
    destruct (Hq q Hin) as [Ho Hw]. split; [done|]. intros r' E'. destruct (inv_queued_in P Hnd out s l lw lk q Hp Hin) as [Hid Hn].
    destruct (Hkn _ Hid) as (r & E & Ei & _). destruct (Hobj _ r Hid E Ei) as (r0 & E0 & _ & _ & _ & Hwait).
    assert (r0 = r') as -> by congruence. apply Hwait; [done|by apply Hw].
  - auto.
  - auto.
Qed.

Section safety.
Context {Q K : Type} `{!RequestQueue Q, !RequestQueueLaws Q} `{!KVOps K} (cfg : SchedulerConfig)
  `{!KVLaws K (sched_max_model_len cfg)} (fl : string -> Z * Z) (P : list string) (obj : string -> Z).
Hypothesis P_nodup : NoDup P.
Hypothesis obj_inj : forall a b, a ∈ P -> b ∈ P -> obj a = obj b -> a = b.
(** Nothing of this step is in flight yet. *)
Hypothesis fl_settled : forall id, 0 <= (fl id).2 <= (fl id).1.
Abbreviation S := (Scheduler Q K).
Abbreviation St := (Scheduler Q K * StepState)%type.
Abbreviation max_len := (sched_max_model_len cfg).
Abbreviation kv s := (kv_cache_manager s).
Abbreviation covers := (kv_covers (max_len := max_len)).
Abbreviation fresh_in := (kv_fresh (max_len := max_len)).
Abbreviation fits := (kv_fits (max_len := max_len)).
Abbreviation good := (kv_ok (max_len := max_len)).
Abbreviation frame := (kv_frame (max_len := max_len)).
Abbreviation same := (kv_same (max_len := max_len)).
Abbreviation in_order := (in_order fl).
Abbreviation running_ok := (running_ok cfg fl).
Abbreviation waiting_ok := (waiting_ok cfg fl).
Abbreviation inv := (inv cfg fl P obj).
Abbreviation scheduled := (scheduled cfg).
Abbreviation inv_member := (inv_member cfg fl P obj).
Abbreviation inv_lookup := (inv_lookup cfg fl P obj).
Abbreviation inv_queued_in := (inv_queued_in P P_nodup).
Abbreviation iv_running := (iv_running cfg fl P obj).
Abbreviation iv_queues := (iv_queues cfg fl P obj).
Abbreviation rn_range := (rn_range cfg fl).
Abbreviation rn_status := (rn_status cfg fl).
Abbreviation running_ok_frame := (running_ok_frame cfg fl).
Abbreviation waiting_ok_frame := (waiting_ok_frame cfg fl).

(** One request object and the manager change. *)
Definition touch (id : string) (k' : K) (r' : Request) (s : S) : S := set_kv k' (set_requests (<[id := r']> (requests s)) s).
Lemma inv_touch out s l id r k' r' :
  inv out s l -> id ∈ P -> requests s !! id = Some r -> good k' -> frame id (kv s) k' ->
  request_id r' = id -> obj_id r' = obj_id r ->
  (id ∈ running s ++ out -> running_ok k' r') -> (id ∉ running s ++ out -> waiting_ok k' r') ->
  inv out (touch id k' r' s) l.
Proof.
  intros Hi HP Hid Hk' Hf Ei Eo Hrun Hwait. eapply (inv_objects cfg fl fl); [done|done|done|done|done|done| | |]; cbn.
  - intros id' Hs'. destruct (decide (id' = id)) as [->|Hne]; [by eexists|]. by rewrite lookup_insert_ne in Hs' by done.
  - intros id' Hn Hfr. assert (id' <> id) as Hne by congruence. by apply (Hf id' Hne).
  - intros id' r0 _ E Ei0. destruct (decide (id' = id)) as [->|Hne].
    + exists r'. rewrite lookup_insert_eq. split_and!; try done; [congruence|auto|auto].
    + exists r0. rewrite lookup_insert_ne by done. split_and!; try done; intros _; [apply (running_ok_frame id)|apply (waiting_ok_frame id)]; by rewrite ?Ei0.
Qed.

Lemma scheduled_touch s l id r k' r' :
  scheduled s l -> requests s !! id = Some r -> frame id (kv s) k' -> id ∉ (num_scheduled_tokens l).*1 ->
  scheduled (touch id k' r' s) l.
Proof.
  intros [H1 H2 H3 H4 H5 H6 H7] Hid Hf Hn.
  assert (forall id' n, (id', n) ∈ num_scheduled_tokens l -> id' <> id) as Hne
    by (intros id' n Hin ->; apply Hn, list_elem_of_fmap; by exists (id, n)).
  split; try done; cbn.
  - intros id' n Hin. destruct (H2 id' n Hin) as (R1 & R2 & R3). specialize (Hne id' n Hin). split_and!; [done|done|].
    rewrite lookup_insert_ne by done. intros r0 E. destruct (R3 r0 E) as [Hc Hl]. split; [|done]. by apply (Hf id' Hne).
  - intros id' d E. destruct (H7 id' d E) as (n & Hin & Hle). exists n. split; [done|].
    rewrite lookup_insert_ne by (specialize (Hne id' n Hin); congruence). done.
Qed.

Lemma wp_on_kv_request {A} id (f : M (K * Request) A) Qp (s : S) r :
  requests s !! id = Some r -> wp (Sched.on_kv_request id f) Qp s <-> wp f (fun a x => Qp a (touch id x.1 x.2 s)) (kv s, r).
Proof. intros E. unfold wp, Sched.on_kv_request. rewrite E. by destruct (f (kv s, r)) as [[]]. Qed.

Lemma alter_some (f : Request -> Request) id (m : gmap string Request) r : m !! id = Some r -> alter f id m = <[id := f r]> m.
Proof.
  intros E. apply map_eq. intros i. destruct (decide (i = id)) as [->|Hne].
  - by rewrite lookup_alter_eq, E, lookup_insert_eq.
  - by rewrite lookup_alter_ne, lookup_insert_ne by done.
Qed.

Lemma wp_the_request id (Qp : Request -> S -> Prop) s r : requests s !! id = Some r -> Qp r s -> wp (Sched.the_request id) Qp s.
Proof. intros E H. unfold Sched.the_request. wp_simpl. rewrite E. by exists r. Qed.

(** ** Memo updates and contents *)

Lemma memo_fields r r' : memo_only r r' ->
  request_id r' = request_id r /\ obj_id r' = obj_id r /\ num_computed_tokens r' = num_computed_tokens r /\
  num_tokens r' = num_tokens r /\ status r' = status r /\ num_preemptions r' = num_preemptions r /\
  num_prompt_tokens r' = num_prompt_tokens r.
Proof. by intros [m ->]. Qed.
Lemma memo_in_order r r' : memo_only r r' -> in_order r -> in_order r'.
Proof. by intros [m ->] [? ? ? [] ?]. Qed.

Lemma memo_running_ok k k' r r' :
  memo_only r r' -> fits r' -> covers k' (request_id r) (num_computed_tokens r) -> running_ok k r -> running_ok k' r'.
Proof.
  intros Hm Hf Hc []. destruct (memo_fields r r' Hm) as (E1 & E2 & E3 & E4 & E5 & E6 & E7).
  split; rewrite ?E1, ?E2, ?E3, ?E4, ?E5, ?E6; try done. by eapply memo_in_order.
Qed.

(** ** Slots for a running request *)

Lemma running_slots_ok s l id r nn b :
  0 <= num_lookahead_tokens cfg -> inv [] s l -> scheduled s l -> id ∈ running s -> id ∉ (num_scheduled_tokens l).*1 ->
  requests s !! id = Some r -> b = None -> 0 < nn -> num_computed_tokens r + nn <= max_len ->
  wp (Sched.on_kv_request id (kv_allocate_slots nn 0 b (num_lookahead_tokens cfg) false true)) (fun res s' =>
    exists k' r', s' = touch id k' r' s /\ memo_only r r' /\ inv [] s' l /\ scheduled s' l /\
      (is_Some res -> covers k' id (num_computed_tokens r + nn))) s.
Proof.
  intros Hnla Hi Hs Hrun Hnk Hr -> Hnn Hle. rewrite (wp_on_kv_request _ _ _ _ r) by done.
  assert (id ∈ P) as HP by (eapply (inv_member []); [done|by rewrite app_nil_r]).
  destruct (inv_lookup _ _ _ id Hi HP) as (r0 & E0 & Ei & Eo). assert (r0 = r) as -> by congruence.
  assert (running_ok (kv s) r) as Hro by (eapply (iv_running _ _ _ Hi); [by rewrite app_nil_r|done]).
  pose proof (rn_range _ _ Hro) as Hrange.
  eapply wp_mono; [apply (law_running (max_len := max_len)); [apply Hi|apply Hro|by left|apply Hro|apply Hro|done|done]|].
  intros res [k' r'] (Hk & Hf & Hm & Hfr & Hc). cbn [fst snd] in *. rewrite Ei in *. exists k', r'.
  destruct (memo_fields r r' Hm) as (E1 & E2 & E3 & E4 & E5 & E6 & E7).
  assert (covers k' id (num_computed_tokens r)) as Hc0 by (destruct res; [eapply kv_covers_le; [exact Hc|lia]|done]).
  split_and!; [done|done| | |].
  - eapply inv_touch; [done|done|done|done|done|congruence|congruence| |].
    + intros _. eapply memo_running_ok; [done|done|by rewrite Ei|done].
    + intros Hn. destruct Hn. by rewrite app_nil_r.
  - by eapply scheduled_touch.
  - intros [? ->]. eapply kv_covers_le; [exact Hc|lia].
Qed.

(** ** Preemption *)

Lemma preempted_waiting k k' r r' :
  content r' = content r -> status r' = PREEMPTED -> num_computed_tokens r' = 0 -> num_preemptions r' = num_preemptions r + 1 ->
  ledger r' = (num_in_flight_tokens r, num_in_flight_tokens r, 0) -> fresh_in k' (request_id r) -> running_ok k r -> waiting_ok k' r'.
Proof.
  intros Hc Hst Hn Hp Hl Hf []. pose proof Hc as Hc'. unfold content in Hc'. injection Hc' as E1 E2 E3 E4 E5 E6 E7 E8 E9 E10 E11 E12 E13 E14 E15.
  assert (num_tokens r' = num_tokens r) as Et by (unfold num_tokens; by rewrite E2). split.
  - rewrite Hst. set_solver.
  - by eapply kv_fits_content.
  - by rewrite Et.
  - lia.
  - left. split_and!; [done|by rewrite E1|lia].
  - destruct rn_order0 as [O1 O2 O3 [S1 S2 S3 S4] O5]. unfold ledger in Hl. injection Hl as L1 L2 L3.
    pose proof (fl_settled (request_id r)).
    split; [by rewrite L1, E1|rewrite L2, E1; lia|done| |unfold num_output_tokens in *; by rewrite E14, E15]. split; by rewrite ?E5, ?E9, ?E10, ?E13.
Qed.

Definition logged (t : EngineCoreEventType) (ts : Z) (r : Request) : Request :=
  if sched_log_stats cfg then set_events (events r ++ [mkEvent t ts]) r else r.
Lemma wp_log_event id t ts (Qp : unit -> S -> Prop) s r :
  requests s !! id = Some r -> Qp tt (set_requests (<[id := logged t ts r]> (requests s)) s) ->
  wp (if sched_log_stats cfg then Sched.update_request id (fun r => set_events (events r ++ [mkEvent t ts]) r) else ret tt) Qp s.
Proof.
  intros E. unfold logged, Sched.update_request. destruct (sched_log_stats cfg); intros H; wp_simpl.
  - by rewrite (alter_some _ id _ r).
  - rewrite insert_id in H by done. by destruct s.
Qed.

(** A request that leaves the running ones for a queue. *)
Lemma inv_prepend v s l k' r' r q' :
  inv [v] s l -> requests s !! v = Some r -> good k' -> frame v (kv s) k' -> content r' = content r -> obj_id r' = obj_id r ->
  waiting_ok k' r' -> (forall lw, queue_iter (waiting s) = Ok lw -> exists l1 l2, lw = l1 ++ l2 /\ queue_iter q' = Ok (l1 ++ r' :: l2)) ->
  queue_ok q' -> inv [] (set_waiting q' (touch v k' r' s)) l.
Proof.
  intros Hi Er Hk Hf Hc Eo Hw Hit Hq'. assert (v ∈ P) as HP by (eapply inv_member; [done|set_solver]).
  destruct (inv_lookup _ _ _ v Hi HP) as (r0 & E0 & Ei & Eo0). assert (r0 = r) as -> by congruence.
  assert (request_id r' = v) as Eid by (unfold content in Hc; congruence).
  assert (waiting_ok k' r') as Hw' by done.
  pose proof Hi as [I1 I2 I3 (lw & lk & Q1 & Q2 & Q3 & Q4 & Hp & Hq) Hoth Hdom]. destruct (Hit lw Q2) as (l1 & l2 & -> & Hit').
  assert (v ∉ running s) as Hnr.
  { pose proof P_nodup as Hnd. rewrite <- Hp in Hnd. apply NoDup_app in Hnd as (Hnd & _ & _). apply NoDup_app in Hnd as (_ & Hd & _).
    intros Hin. apply (Hd v Hin). set_solver. }
  split; cbn; try done.
  - intros id Hid. destruct (decide (id = v)) as [->|Hne].
    + exists r'. rewrite lookup_insert_eq. split_and!; [done|done|congruence].
    + rewrite lookup_insert_ne by done. by apply I2.
  - rewrite app_nil_r. intros id r0 Hin E. assert (id <> v) as Hne by congruence.
    rewrite lookup_insert_ne in E by done. assert (id ∈ P) as HidP by (rewrite <- Hp; set_solver).
    destruct (I2 id HidP) as (r1 & E1' & Ei1 & _). assert (r1 = r0) as -> by congruence.
    eapply (running_ok_frame v (kv s)); [congruence|done|]. apply (I3 id); [set_solver|done].
  - exists (l1 ++ r' :: l2), lk. split_and!; try done.
    + rewrite app_nil_r, <- Hp. unfold queued. rewrite !map_app. cbn [map]. rewrite Eid. solve_Permutation.
    + rewrite Forall_forall in Hq |- *. intros q Hin.
      assert (q = r' \/ q ∈ queued (l1 ++ l2) lk l) as [->|Hin'] by (unfold queued in *; set_solver).
      * split; [rewrite Eid; congruence|]. cbn. rewrite Eid, lookup_insert_eq. by intros r0 [= <-].
      * destruct (Hq q Hin') as [Ho Hwq]. split; [done|]. destruct (inv_queued_in [v] s l _ lk q Hp Hin') as [HqP Hqn].
        assert (request_id q <> v) as Hne by (intros E; apply Hqn; rewrite E; set_solver). cbn. rewrite lookup_insert_ne by done.
        intros r0 E. destruct (I2 _ HqP) as (r1 & E1' & Ei1 & _). assert (r1 = r0) as -> by congruence.
        eapply (waiting_ok_frame v (kv s)); [congruence|done|by apply Hwq].
  - intros id Hn. assert (id <> v) as Hne by congruence. by apply (Hf id Hne), Hoth.
  - intros id Hs'. destruct (decide (id = v)) as [->|Hne]; [done|]. rewrite lookup_insert_ne in Hs' by done. by apply Hdom.
Qed.

Lemma queue_fresh out s l lw lk r : inv out s l -> queue_iter (waiting s) = Ok lw -> queue_iter (kv_holding_waiting s) = Ok lk ->
  request_id r ∈ running s ++ out -> obj_id r = obj (request_id r) -> fresh r lw /\ fresh r lk.
Proof.
  intros Hi E1 E2 Hr Ho. assert (request_id r ∈ P) as HP by (by eapply inv_member).
  pose proof Hi as [_ _ _ (lw' & lk' & _ & E1' & _ & E2' & Hp & Hq) _ _]. rewrite E1 in E1'. rewrite E2 in E2'. injection E1' as <-. injection E2' as <-.
  rewrite Forall_forall in Hq.
  assert (forall q, q ∈ queued lw lk l -> obj_id q <> obj_id r) as Hne.
  { intros q Hin E. destruct (inv_queued_in out s l lw lk q Hp Hin) as [HqP Hqn]. destruct (Hq q Hin) as [Hoq _].
    apply Hqn. rewrite (obj_inj (request_id q) (request_id r) HqP HP); [done|congruence]. }
  split; intros (q & Eq & Hin)%list_elem_of_fmap; apply (Hne q); try done; unfold queued; set_solver.
Qed.

Definition same_status (s s' : S) : Prop :=
  pause_state s' = pause_state s /\ num_waiting_for_streaming_input s' = num_waiting_for_streaming_input s.

Lemma preempt_ok v ts s l :
  inv [v] s l ->
  wp (Sched.preempt_request cfg v ts) (fun _ s' => inv [] s' l /\ running s' = running s /\ same_status s s' /\
    (forall id r, id <> v -> requests s !! id = Some r -> requests s' !! id = Some r) /\
    (v ∉ (num_scheduled_tokens l).*1 -> scheduled s l -> scheduled s' l)) s.
Proof.
  intros Hi. assert (v ∈ running s ++ [v]) as Hv by set_solver. assert (v ∈ P) as HP by (by eapply inv_member).
  destruct (inv_lookup _ _ _ v Hi HP) as (r & Er & Ei & Eo). pose proof (iv_running _ _ _ Hi v r Hv Er) as Hro.
  unfold Sched.preempt_request. wp_simpl. eapply wp_the_request; [done|]. wp_simpl.
  split; [by rewrite (rn_status _ _ Hro)|]. unfold Sched.on_kv. wp_simpl.
  eapply wp_mono; [apply law_free, Hi|]. intros [] k' (Hk & Hf & Hfr). wp_simpl. unfold Sched.update_request at 1. wp_simpl. cbn.
  rewrite (alter_some _ v _ r Er). eapply wp_log_event; [apply lookup_insert_eq|]. cbn. rewrite insert_insert_eq.
  set (r' := logged PREEMPTED_EVENT ts (Sched.preempted r)).
  assert (content r' = content r /\ obj_id r' = obj_id r /\ status r' = PREEMPTED /\ num_computed_tokens r' = 0 /\
    num_preemptions r' = num_preemptions r + 1 /\ ledger r' = (num_in_flight_tokens r, num_in_flight_tokens r, 0)) as (C1 & C2 & C3 & C4 & C5 & C6) by (unfold r', logged; by destruct (sched_log_stats cfg)).
  wp_simpl. eapply wp_the_request; [apply lookup_insert_eq|]. unfold Sched.on_waiting. wp_simpl. cbn.
  destruct (iv_queues _ _ _ Hi) as (lw & lk & Q1 & Q2 & Q3 & Q4 & _).
  destruct (queue_fresh [v] s l lw lk r Hi Q2 Q4) as [Hfresh _]; [by rewrite Ei|congruence|].
  assert (fresh r' lw) as Hfresh' by (unfold fresh in *; by rewrite C2).
  destruct (law_prepend _ _ r' Q1 Q2 Hfresh') as (q' & l1 & l2 & Eq & Hq' & El & Hit).
  eapply wp_of_run; [exact Eq|]. wp_simpl.
  assert (waiting_ok k' r') as Hw by (eapply (preempted_waiting (kv s)); [done..|by rewrite Ei|done]).
  assert (inv [] (set_waiting q' (touch v k' r' s)) l) as Hi'.
  { eapply inv_prepend; try done. intros lw' E'. exists l1, l2. split; [congruence|done]. }
  split_and!; try done.
  - destruct Hi' as [J1 J2 J3 J4 J5 J6]. split; [exact J1|exact J2|exact J3|exact J4|exact J5|exact J6].
  - intros id r0 Hne E. cbn. by rewrite lookup_insert_ne.
  - intros Hnk Hs. destruct (scheduled_touch s l v r k' r' Hs Er Hf Hnk) as [H1 H2 H3 H4 H5 H6 H7].
    split; [exact H1|exact H2|exact H3|exact H4|exact H5|exact H6|exact H7].
Qed.

(** ** The victim *)

Lemma index_of_ok v (l : list string) : v ∈ l -> exists i, index_of v l = Some i /\ l !! i = Some v.
Proof.
  induction l as [|x l IH]; intros Hv; [by apply not_elem_of_nil in Hv|]. cbn. destruct (String.eqb_spec x v) as [->|Hne].
  - by exists 0%nat.
  - apply elem_of_cons in Hv as [->|Hv]; [done|]. destruct (IH Hv) as (i & -> & Hi). by exists (Datatypes.S i).
Qed.

Lemma max_by_key_ok reqs ids : forall best, (forall id, id ∈ ids -> is_Some (reqs !! id)) ->
  exists v, Sched.max_by_key best ids reqs = Ok v /\ (v = best.1 \/ v ∈ ids).
Proof.
  induction ids as [|id ids IH]; intros best Hk; [eexists; split; [done|by left]|]. cbn.
  destruct (Hk id) as [r ->]; [by left|]. cbn [or_raise obind].
  destruct (IH (if Sched.key_lt best.2 r then (id, r) else best)) as (v & -> & Hv); [intros x Hx; apply Hk; by right|].
  exists v. split; [done|]. destruct (Sched.key_lt best.2 r); destruct Hv as [->|Hv]; cbn; set_solver.
Qed.
Lemma lowest_priority_ok out s l : inv out s l -> running s <> [] -> exists v, Sched.lowest_priority s = Ok v /\ v ∈ running s.
Proof.
  intros Hi Hne. unfold Sched.lowest_priority. destruct (running s) as [|id ids] eqn:E; [done|].
  assert (forall x, x ∈ id :: ids -> is_Some (requests s !! x)) as Hk.
  { intros x Hx. destruct (inv_lookup _ _ _ x Hi) as (r & -> & _); [|done]. eapply inv_member; [done|]. rewrite E. set_solver. }
  destruct (Hk id) as [r ->]; [by left|]. cbn [or_raise obind].
  destruct (max_by_key_ok (requests s) ids (id, r)) as (v & -> & Hv); [intros x Hx; apply Hk; by right|].
  exists v. split; [done|]. destruct Hv as [->|Hv]; cbn; set_solver.
Qed.

(** The first phase: only running requests have been scheduled, all of them
    before the current position. *)
Record first_phase (i : nat) (s : S) (l : StepState) : Prop := {
  ph_new : scheduled_new_reqs l = [] /\ scheduled_resumed_reqs l = [];
  ph_front : forall x, x ∈ (num_scheduled_tokens l).*1 -> x ∈ take i (running s)
}.

Lemma filter_all {A} (Pr : A -> Prop) `{!forall x, Decision (Pr x)} (l : list A) : Forall Pr l -> filter Pr l = l.
Proof. induction 1 as [|x l Hx _ IH]; [done|]. by rewrite filter_cons_True, IH. Qed.

Lemma dict_pop_ok id (d : list (string * Z)) :
  id ∈ d.*1 -> exists n i, dict_pop id d = Ok (n, delete i d) /\ d !! i = Some (id, n) /\ dict_sum (delete i d) = dict_sum d - n.
Proof.
  intros (kv & E & Hin)%list_elem_of_fmap. unfold dict_pop.
  destruct (list_find_elem_of (fun kv => kv.1 = id) d kv Hin (eq_sym E)) as [[i kv'] Hf]. rewrite Hf.
  apply list_find_Some in Hf as (Hi & E' & _). exists kv'.2, i. destruct kv' as [x n]. cbn in *. subst x. split_and!; [done|done|].
  clear -Hi. revert i Hi. induction d as [|y d IH]; intros [|i] Hi; simplify_eq/=; [lia|]. rewrite (IH i Hi). lia.
Qed.

(** What giving a request's budget back does to the step. *)
Record unscheduled (v : string) (l l' : StepState) : Prop := {
  us_new : scheduled_new_reqs l' = scheduled_new_reqs l /\ scheduled_resumed_reqs l' = scheduled_resumed_reqs l;
  us_skipped : step_skipped_waiting l' = step_skipped_waiting l /\ step_skipped_kv_holding l' = step_skipped_kv_holding l;
  us_tokens : num_scheduled_tokens l' = filter (fun kv => kv.1 <> v) (num_scheduled_tokens l);
  us_running : scheduled_running_reqs l' = filter (fun x => x <> v) (scheduled_running_reqs l);
  us_drafts : forall id d, scheduled_spec_decode_tokens l' !! id = Some d -> id <> v /\ scheduled_spec_decode_tokens l !! id = Some d;
  us_blocks : forall id, id <> v -> req_to_new_blocks l' !! id = req_to_new_blocks l !! id;
  us_budget : token_budget l' + dict_sum (num_scheduled_tokens l') = token_budget l + dict_sum (num_scheduled_tokens l) /\
    token_budget l <= token_budget l' /\ input_budget l <= input_budget l'
}.

Lemma filter_keys (v : string) (d : list (string * Z)) : (filter (fun kv => kv.1 <> v) d).*1 = filter (fun x => x <> v) d.*1.
Proof.
  induction d as [|[k n] d IH]; [done|]. rewrite fmap_cons. cbn [fst]. destruct (decide (k = v)) as [->|Hne].
  - rewrite !filter_cons_False by (intros Hn; by apply Hn). done.
  - rewrite !filter_cons_True by done. rewrite fmap_cons. cbn [fst]. by rewrite IH.
Qed.
Lemma filter_unkeyed (v : string) (d : list (string * Z)) : v ∉ d.*1 -> filter (fun kv => kv.1 <> v) d = d.
Proof. intros Hv. apply filter_all. apply Forall_forall. intros kv Hin E. apply Hv. apply list_elem_of_fmap. by exists kv. Qed.

Lemma unschedule_ok v s l i :
  0 <= draft_slots cfg -> scheduled s l -> first_phase i s l -> wp (Sched.unschedule cfg v) (fun _ l' => unscheduled v l l') l.
Proof.
  intros Hd [H1 H2 H3 H4 H5 H6 H7] [[E1 E2] _]. rewrite E1, E2, !app_nil_r in H3. unfold Sched.unschedule. wp_simpl.
  assert (v ∈ scheduled_running_reqs l <-> v ∈ (num_scheduled_tokens l).*1) as Hiff by (by rewrite H3).
  destruct (bool_decide _) eqn:E; bools; wp_simpl.
  - destruct (dict_pop_ok v (num_scheduled_tokens l)) as (n & j & Ep & Hj & Esum); [by apply Hiff|].
    exists (n, delete j (num_scheduled_tokens l)). split; [done|]. wp_simpl.
    assert (delete j (num_scheduled_tokens l) = filter (fun kv => kv.1 <> v) (num_scheduled_tokens l)) as Ef.
    { clear -H1 Hj. revert j Hj. induction (num_scheduled_tokens l) as [|[k m] d IH]; intros j Hj; [done|].
      cbn in H1. apply NoDup_cons in H1 as [Hk H1]. destruct j as [|j]; simplify_eq/=.
      - rewrite filter_cons_False by (by intros []). symmetry. by apply filter_unkeyed.
      - assert (k <> v) by (intros ->; apply Hk, list_elem_of_fmap; exists (v, n); split; [done|by eapply list_elem_of_lookup_2]).
        rewrite filter_cons_True by done. f_equal. by apply IH. }
    assert (0 < n) as Hn by (apply (H2 v n); by eapply list_elem_of_lookup_2).
    split; try done.
    + cbn. intros id d E'. apply lookup_delete_Some in E' as [? ?]. done.
    + intros id Hne. cbn. by rewrite lookup_delete_ne.
    + cbn [num_scheduled_tokens token_budget input_budget]. rewrite Esum. lia.
  - assert (v ∉ (num_scheduled_tokens l).*1) as Hv by (rewrite <- Hiff; done).
    split; try done; [by rewrite filter_unkeyed| |].
    + symmetry. apply filter_all. apply Forall_forall. by intros x Hx ->.
    + intros id d E'. split; [|done]. intros ->. destruct (H7 v d E') as (n & Hin & _). apply Hv, list_elem_of_fmap. by exists (v, n).
Qed.

(** Deleting an entry of the list moves the position of the others. *)
Definition index_after (vi i : nat) : nat := if (vi <? i)%nat then (i - 1)%nat else i.
Lemma lookup_moved {A} (l : list A) vi i : i <> vi -> delete vi l !! index_after vi i = l !! i.
Proof.
  intros Hne. unfold index_after. rewrite list_lookup_delete. destruct (Nat.ltb_spec vi i); case_decide; try lia; [|done].
  by replace (Datatypes.S (i - 1))%nat with i by lia.
Qed.
Lemma take_moved {A} (l : list A) vi i v x : l !! vi = Some v -> x <> v -> x ∈ take i l -> x ∈ take (index_after vi i) (delete vi l).
Proof.
  intros Hv Hne (j & Hj)%list_elem_of_lookup. apply lookup_take_Some in Hj as [Hj Hlt].
  assert (j <> vi) by congruence. apply list_elem_of_lookup. exists (index_after vi j). apply lookup_take_Some. split; [by rewrite lookup_moved|].
  unfold index_after. destruct (Nat.ltb_spec vi j), (Nat.ltb_spec vi i); lia.
Qed.
Lemma removelast_delete {A} (l : list A) v : last l = Some v -> l !! (length l - 1)%nat = Some v /\ removelast l = delete (length l - 1)%nat l.
Proof.
  intros (l' & ->)%last_Some. rewrite removelast_last, length_app. cbn. replace (length l' + 1 - 1)%nat with (length l') by lia.
  split; [by rewrite lookup_app_r, Nat.sub_diag by lia|]. rewrite delete_middle. by rewrite app_nil_r.
Qed.

Lemma inv_leave vi v s l l' : inv [] s l -> running s !! vi = Some v ->
  step_skipped_waiting l' = step_skipped_waiting l -> step_skipped_kv_holding l' = step_skipped_kv_holding l ->
  inv [v] (set_running (delete vi (running s)) s) l'.
Proof.
  intros [I1 I2 I3 (lw & lk & Q1 & Q2 & Q3 & Q4 & Hp & Hq) Hoth Hdom] Hv E1 E2.
  assert (running s ++ [] ≡ₚ delete vi (running s) ++ [v]) as Hpr by (rewrite app_nil_r; rewrite (delete_Permutation _ _ _ Hv) at 1; solve_Permutation).
  split; cbn; try done.
  - intros id r Hin. apply I3. by rewrite Hpr.
  - exists lw, lk. split_and!; try done.
    + unfold queued. rewrite E1, E2, <- Hp, Hpr. done.
    + unfold queued. by rewrite E1, E2.
Qed.

Lemma inv_running_nodup s l : inv [] s l -> NoDup (running s).
Proof.
  intros [_ _ _ (lw & lk & _ & _ & _ & _ & Hp & _) _ _]. pose proof P_nodup as Hnd. rewrite <- Hp, app_nil_r in Hnd.
  by apply NoDup_app in Hnd as (? & _).
Qed.

(** Once the victim's tokens are given back, its departure leaves the rest of
    the step as it was. *)
Lemma scheduled_leave vi v i s l l' :
  scheduled s l -> first_phase i s l -> running s !! vi = Some v -> unscheduled v l l' ->
  scheduled (set_running (delete vi (running s)) s) l' /\ first_phase (index_after vi i) (set_running (delete vi (running s)) s) l' /\
  v ∉ (num_scheduled_tokens l').*1.
Proof.
  intros [H1 H2 H3 H4 H5 H6 H7] [[N1 N2] Hfr] Hv [[U1 U2] _ Ut Ur Ud Ub (Us & Ul & Ui)].
  assert ((num_scheduled_tokens l').*1 = filter (fun x => x <> v) (num_scheduled_tokens l).*1) as Ek by (by rewrite Ut, filter_keys).
  assert (forall x, x ∈ (num_scheduled_tokens l').*1 <-> x <> v /\ x ∈ (num_scheduled_tokens l).*1) as Hin
    by (intros x; by rewrite Ek, list_elem_of_filter).
  split_and!.
  - split; cbn.
    + rewrite Ek. by apply NoDup_filter.
    + rewrite Ut. intros id n [Hne Hid]%list_elem_of_filter. destruct (H2 id n Hid) as (R1 & R2 & R3). split_and!; [|done|done].
      rewrite (delete_Permutation _ _ _ Hv) in R1. by apply elem_of_cons in R1 as [->|].
    + rewrite Ek, Ur, U1, U2, N1, N2. rewrite N1, N2, !app_nil_r in H3. by rewrite !app_nil_r, H3.
    + intros id [Hne Hid]%Hin. rewrite Ub by done. by apply H4.
    + lia.
    + lia.
    + intros id d E. destruct (Ud id d E) as [Hne E']. destruct (H7 id d E') as (n & Hin' & Hle). exists n. split; [|done].
      rewrite Ut. by apply list_elem_of_filter.
  - split; [by rewrite U1, U2|]. intros x [Hne Hx]%Hin. cbn. eapply take_moved; eauto.
  - rewrite Hin. by intros [].
Qed.

Lemma unscheduled_refl v i s l : scheduled s l -> first_phase i s l -> v ∉ (num_scheduled_tokens l).*1 -> unscheduled v l l.
Proof.
  intros [_ _ H3 _ _ _ H7] [[E1 E2] _] Hv. rewrite E1, E2, !app_nil_r in H3. split; try done; [by rewrite filter_unkeyed| |].
  - symmetry. apply filter_all. apply Forall_forall. intros x Hx ->. apply Hv. by rewrite H3.
  - intros id d E'. split; [|done]. intros ->. destruct (H7 v d E') as (n & Hin & _). apply Hv, list_elem_of_fmap. by exists (v, n).
Qed.

(** What taking the victim off the list guarantees. *)
Definition victim_popped (i : nat) (s : S) (l : StepState) (res : string * nat) (s' : S) (l' : StepState) : Prop :=
  exists vi, running s !! vi = Some res.1 /\ res.2 = index_after vi i /\ s' = set_running (delete vi (running s)) s /\
    unscheduled res.1 l l'.

Lemma pop_victim_ok i id s l :
  0 <= draft_slots cfg -> inv [] s l -> scheduled s l -> first_phase i s l -> running s !! i = Some id ->
  wp (Sched.pop_victim cfg i) (fun res x => victim_popped i s l res x.1 x.2) (s, l).
Proof.
  intros Hd Hi Hs Hph Hid. assert (running s <> []) as Hne by (intros E; by rewrite E in Hid).
  unfold Sched.pop_victim. wp_simpl. cbn [fst snd]. destruct (policy cfg); wp_simpl.
  - destruct (last (running s)) as [v|] eqn:El; [|by apply last_None in El]. exists v. split; [done|].
    destruct (removelast_delete _ _ El) as [Hv Er]. unfold Sched.on_sched. wp_simpl. cbn [fst snd].
    apply lookup_lt_Some in Hid as Hlt. exists (length (running s) - 1)%nat. cbn [fst snd]. split_and!; [done| |by rewrite Er|].
    + unfold index_after. destruct (Nat.ltb_spec (length (running s) - 1) i); [lia|done].
    + eapply unscheduled_refl; [done|done|]. intros Hk. apply (ph_front _ _ _ Hph) in Hk.
      apply list_elem_of_lookup in Hk as (j & Hj). apply lookup_take_Some in Hj as [Hj Hji].
      pose proof (NoDup_lookup _ _ _ _ (inv_running_nodup s l Hi) Hj Hv). lia.
  - destruct (lowest_priority_ok [] s l Hi Hne) as (v & Ev & Hv). exists v. split; [done|].
    destruct (index_of_ok v _ Hv) as (vi & Evi & Hvi). wp_simpl. exists vi. rewrite Evi. split; [done|]. unfold Sched.on_sched, Sched.on_step. wp_simpl. cbn [fst snd].
    eapply wp_mono; [by eapply unschedule_ok|]. intros [] l' Hu. wp_simpl. by exists vi.
Qed.

Lemma memo_trans r r' r'' : memo_only r r' -> memo_only r' r'' -> memo_only r r''.
Proof. intros [m ->] [m' ->]. by exists m'. Qed.

(** The state between two actions of the first phase. *)
Definition phase1 (i : nat) (s : S) (l : StepState) : Prop := inv [] s l /\ scheduled s l /\ first_phase i s l.

(** How an action of the first phase changes it. *)
Record step1 (i i' : nat) (s : S) (l : StepState) (s' : S) (l' : StepState) : Prop := {
  s1_phase : phase1 i' s' l';
  s1_status : same_status s s';
  s1_length : (length (running s') <= length (running s))%nat;
  s1_left : (length (running s') - i' <= length (running s) - i)%nat;
  s1_budget : token_budget l <= token_budget l' /\ input_budget l <= input_budget l';
  s1_skipped : step_skipped_waiting l' = step_skipped_waiting l /\ step_skipped_kv_holding l' = step_skipped_kv_holding l
}.
Lemma step1_trans i1 i2 i3 s1 s2 s3 l1 l2 l3 : step1 i1 i2 s1 l1 s2 l2 -> step1 i2 i3 s2 l2 s3 l3 -> step1 i1 i3 s1 l1 s3 l3.
Proof.
  intros [_ [A2 A2'] A3 A4 A5 [A6 A6']] [B1 [B2 B2'] B3 B4 B5 [B6 B6']].
  split; [done|split; congruence|lia|lia|lia|split; congruence].
Qed.

Lemma not_yet_scheduled i id s l : phase1 i s l -> running s !! i = Some id -> id ∉ (num_scheduled_tokens l).*1.
Proof.
  intros (Hi & _ & Hph) Hid Hk. apply (ph_front _ _ _ Hph) in Hk. apply list_elem_of_lookup in Hk as (j & Hj).
  apply lookup_take_Some in Hj as [Hj Hji]. pose proof (NoDup_lookup _ _ _ _ (inv_running_nodup s l Hi) Hj Hid). lia.
Qed.

(** A victim leaves the batch and is queued. *)
Definition preempt_victim (ts : Z) (i : nat) : M St (string * nat) :=
  let! popped := Sched.pop_victim cfg i in
  Sched.on_sched (Sched.preempt_request cfg popped.1 ts) ;;
  Sched.on_step (modify (fun l => mkStep (scheduled_new_reqs l) (scheduled_resumed_reqs l) (scheduled_running_reqs l)
            (preempted_reqs l ++ [popped.1]) (req_to_new_blocks l) (num_scheduled_tokens l) (token_budget l) (input_budget l)
            (scheduled_spec_decode_tokens l) (prefill_scheduled l) (step_skipped_waiting l) (step_skipped_kv_holding l))) ;;
  ret popped.
Lemma preempt_victim_ok ts i id s l :
  0 <= draft_slots cfg -> phase1 i s l -> running s !! i = Some id ->
  wp (preempt_victim ts i) (fun res x => step1 i res.2 s l x.1 x.2 /\ (length (running x.1) < length (running s))%nat /\
    (res.1 <> id -> running x.1 !! res.2 = Some id /\ requests x.1 !! id = requests s !! id)) (s, l).
Proof.
  intros Hd Hph Hid. pose proof Hph as (Hi & Hs & Hf). unfold preempt_victim. wp_simpl.
  eapply wp_mono; [by eapply pop_victim_ok|]. intros [v i'] [s1 l1] (vi & Hv & Ei & Es & Hu). cbn [fst snd] in *. subst i' s1.
  unfold Sched.on_sched, Sched.on_step. wp_simpl. cbn [fst snd].
  destruct (scheduled_leave vi v i s l l1 Hs Hf Hv Hu) as (Hs1 & Hf1 & Hk1).
  eapply wp_mono; [eapply (preempt_ok v ts _ l1), inv_leave; [done|done|apply Hu|apply Hu]|].
  intros [] s2 (Hi2 & Er & Hst & Hoth & Hs2). specialize (Hs2 Hk1 Hs1). wp_simpl. cbn [fst snd]. cbn in Er.
  apply lookup_lt_Some in Hid as Hlt. apply lookup_lt_Some in Hv as Hvlt.
  assert (length (delete vi (running s)) = length (running s) - 1)%nat as Hlen by (by apply length_delete).
  assert (length (running s2) - index_after vi i <= length (running s) - i)%nat as Hleft
    by (rewrite Er, Hlen; unfold index_after; destruct (Nat.ltb_spec vi i); lia).
  split_and!.
  - split; [|done|rewrite Er; lia|done|apply Hu|apply Hu]. split_and!.
    + destruct Hi2 as [J1 J2 J3 J4 J5 J6]. split; [exact J1|exact J2|exact J3|exact J4|exact J5|exact J6].
    + destruct Hs2 as [J1 J2 J3 J4 J5 J6 J7]. split; [exact J1|exact J2|exact J3|exact J4|exact J5|exact J6|exact J7].
    + destruct Hf1 as [J1 J2]. split; [exact J1|]. rewrite Er. exact J2.
  - rewrite Er. lia.
  - intros Hne. rewrite Er, lookup_moved by congruence. split; [done|].
    destruct (inv_lookup [] s l id Hi) as (r & E & _); [apply (inv_member [] s l id Hi); rewrite app_nil_r; by eapply list_elem_of_lookup_2|].
    rewrite E. by apply Hoth.
Qed.

Lemma allocate_or_preempt_ok nn ts id fuel : 0 <= draft_slots cfg -> 0 <= num_lookahead_tokens cfg -> 0 < nn -> forall i s l r,
  (length (running s) < fuel)%nat -> phase1 i s l -> running s !! i = Some id -> requests s !! id = Some r ->
  num_computed_tokens r + nn <= max_len ->
  wp (Sched.allocate_or_preempt cfg fuel id nn ts i) (fun res x => step1 i res.2 s l x.1 x.2 /\
    (is_Some res.1 -> running x.1 !! res.2 = Some id /\ exists r', requests x.1 !! id = Some r' /\ memo_only r r' /\
      covers (kv x.1) id (num_computed_tokens r + nn))) (s, l).
Proof.
  intros Hd Hnla Hnn. induction fuel as [|fuel IH]; intros i s l r Hfuel Hph Hid Hr Hle; [lia|].
  pose proof (not_yet_scheduled i id s l Hph Hid) as Hnk. pose proof Hph as (Hi & Hs & Hf). cbn. wp_simpl. unfold Sched.on_sched at 1. wp_simpl. cbn [fst snd].
  eapply wp_mono; [eapply running_slots_ok; try done; by eapply list_elem_of_lookup_2|].
  intros res s1 (k' & r' & -> & Hm & Hi1 & Hs1 & Hcov). cbn [fst snd].
  assert (step1 i i s l (touch id k' r' s) l) as Hst1 by (split; try done; split_and!; try done; destruct Hf; by split).
  destruct res as [b|]; wp_simpl.
  { split; [done|]. intros _. split; [done|]. exists r'. cbn. rewrite lookup_insert_eq. split_and!; [done|done|by apply Hcov]. }
  assert (wp (preempt_victim ts i) (fun popped x => wp (if String.eqb popped.1 id then ret (None, popped.2)
      else Sched.allocate_or_preempt cfg fuel id nn ts popped.2) (fun res y => step1 i res.2 s l y.1 y.2 /\
    (is_Some res.1 -> running y.1 !! res.2 = Some id /\ exists r'', requests y.1 !! id = Some r'' /\ memo_only r r'' /\
      covers (kv y.1) id (num_computed_tokens r + nn))) x) (touch id k' r' s, l)) as Hgoal.
  2: { revert Hgoal. unfold preempt_victim. wp_simpl. intros Hgoal. eapply wp_mono; [exact Hgoal|]. intros [v i'] x. wp_simpl. done. }
  eapply wp_mono; [by eapply preempt_victim_ok; [done|apply Hst1|]|]. intros [v i'] [s2 l2] (Hst2 & Hlen & Hkeep). cbn [fst snd] in *.
  pose proof (step1_trans _ _ _ _ _ _ _ _ _ Hst1 Hst2) as Hst12. destruct (String.eqb_spec v id) as [->|Hne]; wp_simpl.
  { split; [done|]. by intros [? [=]]. }
  destruct (Hkeep Hne) as [Hid2 Er2]. cbn in Er2, Hlen. rewrite lookup_insert_eq in Er2.
  destruct (memo_fields r r' Hm) as (_ & _ & E3 & _).
  eapply wp_mono; [eapply (IH i' s2 l2 r'); [lia|apply Hst2|done|done|by rewrite E3]|].
  intros res [s3 l3] (Hst3 & Hres). cbn [fst snd] in *. split; [by eapply step1_trans|]. intros Hsome.
  destruct (Hres Hsome) as (Hid3 & r3 & Er3 & Hm3 & Hc3). split; [done|]. exists r3. rewrite E3 in Hc3. split_and!; [done|by eapply memo_trans|done].
Qed.

(** ** The tokens of a running request *)

Lemma reserve_bounds r c n : 0 <= Sched.reserve_prefill_lookahead cfg r c n <= Z.max n 0.
Proof. unfold Sched.reserve_prefill_lookahead. case_match; bools; lia. Qed.
Lemma running_tokens_bounds r threshold tb ib :
  0 <= num_sampled_tokens_per_step cfg -> 0 < tb -> draft_slots cfg < ib -> 0 <= num_computed_tokens r <= max_len ->
  let n := Sched.running_tokens cfg r threshold tb ib in
  0 <= n <= tb /\ n + draft_slots cfg <= ib /\ num_computed_tokens r + n <= max_len.
Proof.
  intros Hn Ht Hi Hr n. subst n. unfold Sched.running_tokens. set (m := Z.min (Z.min _ _) _).
  pose proof (reserve_bounds r (num_computed_tokens r) m). lia.
Qed.

Lemma running_ok_content k r r' :
  content r' = content r -> status r' = status r -> num_computed_tokens r' = num_computed_tokens r ->
  num_preemptions r' = num_preemptions r -> ledger r' = ledger r -> running_ok k r -> running_ok k r'.
Proof.
  intros Hc Hst Hn Hp Hl []. pose proof Hc as Hc'. unfold content in Hc'. injection Hc' as E1 E2 E3 E4 E5 E6 E7 E8 E9 E10 E11 E12 E13 E14 E15.
  split; rewrite ?Hst, ?Hn, ?Hp, ?E1; try done; [by eapply kv_fits_content| |by eapply in_order_content]. unfold num_tokens in *. by rewrite E2.
Qed.
Lemma dict_sum_app d d' : dict_sum (d ++ d') = dict_sum d + dict_sum d'.
Proof. induction d as [|x d IH]; [done|]. unfold dict_sum in *. cbn. rewrite IH. lia. Qed.

(** An entry is added to what has been scheduled. *)
Record entry_added (id : string) (nc n : Z) (l l' : StepState) : Prop := {
  ea_tokens : num_scheduled_tokens l' = num_scheduled_tokens l ++ [(id, n)];
  ea_budget : token_budget l' = token_budget l - n;
  ea_input : input_budget l' = input_budget l - (n + draft_slots cfg);
  ea_blocks : exists b, req_to_new_blocks l' = <[id := b]> (req_to_new_blocks l);
  ea_parts : scheduled_running_reqs l' ++ scheduled_new_reqs l' ++ scheduled_resumed_reqs l' ≡ₚ
    id :: scheduled_running_reqs l ++ scheduled_new_reqs l ++ scheduled_resumed_reqs l;
  ea_drafts : forall id' d, scheduled_spec_decode_tokens l' !! id' = Some d ->
    scheduled_spec_decode_tokens l !! id' = Some d \/ (id' = id /\ zlen d <= nc + n)
}.
Lemma scheduled_entry id n r (s : S) l l' :
  scheduled s l -> entry_added id (num_computed_tokens r) n l l' -> id ∈ running s -> id ∉ (num_scheduled_tokens l).*1 -> 0 < n ->
  requests s !! id = Some r -> covers (kv s) id (num_computed_tokens r + n) -> num_computed_tokens r + n <= max_len ->
  n <= token_budget l -> n + draft_slots cfg <= input_budget l -> scheduled s l'.
Proof using Type.
  clear dependent P. clear dependent fl. clear dependent obj.
  intros [H1 H2 H3 H4 H5 H6 H7] [A1 A2 A3 [b A4] A5 A6] Hrun Hnk Hn Hr Hc Hm Ht Hin.
  assert ((num_scheduled_tokens l').*1 = (num_scheduled_tokens l).*1 ++ [id]) as Ek by (by rewrite A1, fmap_app).
  split.
  - rewrite Ek. apply NoDup_app. split_and!; [done|set_solver|apply NoDup_singleton].
  - rewrite A1. intros id' n' [Hin'|Hin']%elem_of_app; [by apply H2|]. apply list_elem_of_singleton in Hin' as [= -> ->].
    split_and!; [done|done|]. intros r' E. assert (r' = r) as -> by congruence. done.
  - rewrite Ek, A5, <- H3. solve_Permutation.
  - intros id'. rewrite Ek, A4. intros Hid. destruct (decide (id' = id)) as [->|Hne]; [rewrite lookup_insert_eq; by eexists|].
    rewrite lookup_insert_ne by done. apply H4. set_solver.
  - rewrite A1, A2, dict_sum_app. cbn. lia.
  - rewrite A3. lia.
  - rewrite A1. intros id' d E. destruct (A6 id' d E) as [E'|[-> Hd]].
    + destruct (H7 id' d E') as (n' & Hin' & Hle). exists n'. split; [set_solver|done].
    + exists n. split; [set_solver|]. intros r' Er. by assert (r' = r) as -> by congruence.
Qed.

Lemma drafts_bound r n d : num_output_placeholders r = 0 -> 0 <= num_computed_tokens r + n ->
  Sched.scheduled_drafts r n = Some d -> zlen d <= num_computed_tokens r + n.
Proof.
  unfold Sched.scheduled_drafts. intros Hp Hn E. assert (0 <= num_tokens r) by (unfold num_tokens; lia).
  destruct (spec_token_ids r) as [|x ids]; [done|]. case_match; [|done]. bools. case_match; bools; simplify_eq; [|lia].
  unfold py_upto, slice_bound. rewrite length_take. case_match; bools; lia.
Qed.

Lemma schedule_running_ok id r b nn i s l :
  phase1 i s l -> running s !! i = Some id -> requests s !! id = Some r -> covers (kv s) id (num_computed_tokens r + nn) ->
  num_computed_tokens r + nn <= max_len -> 0 < nn <= token_budget l -> nn + draft_slots cfg <= input_budget l ->
  wp (Sched.schedule_running cfg id r b nn) (fun _ x => phase1 (Datatypes.S i) x.1 x.2 /\ same_status s x.1 /\
    running x.1 = running s /\ step_skipped_waiting x.2 = step_skipped_waiting l /\ step_skipped_kv_holding x.2 = step_skipped_kv_holding l) (s, l).
Proof.
  intros Hph Hid Hr Hc Hm Hn Hin. pose proof (not_yet_scheduled i id s l Hph Hid) as Hnk. destruct Hph as (Hi & Hs & Hf).
  assert (id ∈ running s) as Hrun by (by eapply list_elem_of_lookup_2).
  assert (id ∈ P) as HP by (apply (inv_member [] s l id Hi); by rewrite app_nil_r).
  unfold Sched.schedule_running, Sched.on_step, Sched.on_sched, Sched.update_request. wp_simpl. cbn [fst snd]. rewrite (alter_some _ id _ r Hr).
  set (r' := set_spec_token_ids [] r). set (l' := mkStep _ _ _ _ _ _ _ _ _ _ _ _).
  destruct (inv_lookup [] s l id Hi HP) as (r0 & E0 & Ei & Eo). assert (r0 = r) as -> by congruence.
  assert (inv [] (touch id (kv s) r' s) l) as Hi'.
  { eapply inv_touch; try done; [apply Hi| |].
    - intros _. eapply running_ok_content; [..|eapply (iv_running _ _ _ Hi id); [by rewrite app_nil_r|done]]; done.
    - intros Hn'. destruct Hn'. by rewrite app_nil_r. }
  assert (scheduled (touch id (kv s) r' s) l) as Hs'.
  { by eapply scheduled_touch. }
  split_and!; try done. split_and!.
  - destruct Hi' as [J1 J2 J3 J4 J5 J6]. split; [exact J1|exact J2|exact J3|exact J4|exact J5|exact J6].
  - assert (entry_added id (num_computed_tokens r') nn l l') as Ha.
    { split; try done; [by eexists|cbn; solve_Permutation|]. cbn. intros id' d. destruct (Sched.scheduled_drafts r nn) as [ids|] eqn:Ed; [|by left].
      intros [[<- <-]|[_ E]]%lookup_insert_Some; [|by left]. right. split; [done|].
      assert (running_ok (kv s) r) as [_ _ _ _ Hra _ Hor] by (eapply (iv_running _ _ _ Hi id); [by rewrite app_nil_r|done]).
      eapply drafts_bound; [apply Hor|lia|done]. }
    destruct (scheduled_entry id nn r' _ l l' Hs' Ha Hrun Hnk) as [J1 J2 J3 J4 J5 J6 J7]; try lia; [apply lookup_insert_eq|done|done|].
    split; [exact J1|exact J2|exact J3|exact J4|exact J5|exact J6|exact J7].
  - destruct Hf as [J1 J2]. split; [exact J1|]. cbn. rewrite fmap_app. intros x [Hx|Hx]%elem_of_app.
    + apply J2 in Hx. rewrite (take_S_r _ _ _ Hid). set_solver.
    + cbn in Hx. apply list_elem_of_singleton in Hx as ->. rewrite (take_S_r _ _ _ Hid). set_solver.
Qed.

(** ** The first phase *)

(** What the loop keeps: the requests, the step's account of them, and the
    limits on the batch. *)
Definition phase1_end (s : S) (l : StepState) (s' : S) (l' : StepState) : Prop :=
  (exists i, phase1 i s' l') /\ same_status s s' /\ (length (running s') <= length (running s))%nat /\
  step_skipped_waiting l' = step_skipped_waiting l /\ step_skipped_kv_holding l' = step_skipped_kv_holding l.

Lemma first_phase_mono i j s l : (i <= j)%nat -> first_phase i s l -> first_phase j s l.
Proof.
  intros Hle [H1 H2]. split; [done|]. intros x Hx. apply H2 in Hx. apply list_elem_of_lookup in Hx as (k & Hk).
  apply lookup_take_Some in Hk as [Hk Hlt]. apply list_elem_of_lookup. exists k. apply lookup_take_Some. split; [done|lia].
Qed.

Local Opaque Sched.schedule_running.
Lemma running_loop_ok fuel threshold defer ts :
  0 <= draft_slots cfg -> 0 <= num_lookahead_tokens cfg -> 0 <= num_sampled_tokens_per_step cfg -> forall i s l,
  (length (running s) - i < fuel)%nat -> phase1 i s l ->
  wp (Sched.running_loop cfg fuel threshold defer ts i) (fun _ x => phase1_end s l x.1 x.2) (s, l).
Proof.
  intros Hd Hnla Hsam. induction fuel as [|fuel IH]; intros i s l Hfuel Hph; [lia|]. cbn [Sched.running_loop]. wp_simpl.
  assert (phase1_end s l s l) as Hend by (split_and!; [by exists i|done..]).
  destruct (running s !! i) as [id|] eqn:Hid; [|by wp_simpl]. apply lookup_lt_Some in Hid as Hlt.
  destruct (negb _ || _) eqn:Eb; [by wp_simpl|]. bools. pose proof Hph as (Hi & Hs & Hf).
  assert (id ∈ running s) as Hrun by (by eapply list_elem_of_lookup_2).
  assert (id ∈ P) as HP by (apply (inv_member [] s l id Hi); by rewrite app_nil_r).
  destruct (inv_lookup [] s l id Hi HP) as (r & Er & Ei & Eo). unfold Sched.on_sched at 1. wp_simpl. cbn [fst snd].
  eapply wp_the_request; [done|]. cbn [fst snd].
  assert (running_ok (kv s) r) as Hro by (eapply (iv_running _ _ _ Hi id); [by rewrite app_nil_r|done]).
  pose proof (running_tokens_bounds r threshold (token_budget l) (input_budget l) Hsam ltac:(lia) ltac:(lia) (rn_range _ _ Hro)) as (B1 & B2 & B3).
  destruct (Sched.skip_running _ _ _ || _) eqn:Esk.
  { apply IH; [lia|]. split_and!; [done|done|]. eapply first_phase_mono; [|done]. lia. }
  apply orb_false_iff in Esk as [_ En]. apply Z.eqb_neq in En. set (nn := Sched.running_tokens _ _ _ _ _) in *. wp_simpl.
  eapply wp_mono; [eapply (allocate_or_preempt_ok nn ts id _ Hd Hnla ltac:(lia) i s l r); try done; lia|].
  intros [[b|] i'] [s1 l1] (Hst & Hsome); cbn [fst snd] in *; wp_simpl; [|destruct Hst; split_and!; [by exists i'|done..|apply s1_skipped0|apply s1_skipped0]].
  destruct Hsome as (Hid1 & r1 & Er1 & Hm1 & Hc1); [by eexists|]. destruct (memo_fields r r1 Hm1) as (_ & _ & E3 & _).
  unfold Sched.on_sched at 1. wp_simpl. cbn [fst snd]. eapply wp_the_request; [done|]. cbn [fst snd].
  destruct Hst as [Hph1 Hst1 Hlen1 Hleft1 Hbud1 Hsk1]. apply wp_bind.
  eapply wp_mono; [eapply (schedule_running_ok id r1 b nn i' s1 l1); rewrite ?E3; try done; lia|].
  intros [] [s2 l2] (Hph2 & Hst2 & Er2 & Hw2 & Hk2). cbn [fst snd] in *. apply lookup_lt_Some in Hid1 as Hlt1.
  eapply wp_mono; [apply (IH (Datatypes.S i') s2 l2); [rewrite Er2; lia|done]|].
  intros [] [s3 l3] ((i3 & Hph3) & [Hst3 Hst3'] & Hlen3 & Hw3 & Hk3). cbn [fst snd] in *.
  destruct Hst1, Hst2, Hsk1. split_and!; [by exists i3|split; congruence|rewrite Er2 in Hlen3; lia|congruence|congruence].
Qed.

End safety.
