(* ===== verification/SchedulerPreempt.v ===== *)
(** Preemption ([vllm/v1/core/sched/scheduler.py]): which request leaves the
    running list when blocks run out. *)
From Stdlib Require Import ZArith Lia Strings.String.
From stdpp Require Import base numbers list gmap strings.
From S2P Require Import Prelude Request RequestQueue KVCacheManager Scheduler SchedulerSafety.
Open Scope Z_scope.

(** * The order of the victims *)

Lemma key_lt_true a b : Sched.key_lt a b = true <-> priority a < priority b \/ (priority a = priority b /\ arrival_time a < arrival_time b).
Proof. unfold Sched.key_lt. rewrite orb_true_iff, andb_true_iff, !Z.ltb_lt, Z.eqb_eq. done. Qed.
Lemma key_lt_irrefl a : Sched.key_lt a a = false.
Proof. apply not_true_iff_false. rewrite key_lt_true. lia. Qed.
Lemma key_lt_asym a b : Sched.key_lt a b = true -> Sched.key_lt b a = false.
Proof. rewrite <- not_true_iff_false, !key_lt_true. lia. Qed.
Lemma key_le_lt a b c : Sched.key_lt b a = false -> Sched.key_lt b c = true -> Sched.key_lt a c = true.
Proof. rewrite <- not_true_iff_false, !key_lt_true. lia. Qed.

(** [r], at position [i] of [ids], is the first of the largest. *)
Record first_largest (reqs : gmap string Request) (ids : list string) (i : nat) (r : Request) : Prop := {
  fm_none : forall j id r', ids !! j = Some id -> reqs !! id = Some r' -> Sched.key_lt r r' = false;
  fm_first : forall j id r', (j < i)%nat -> ids !! j = Some id -> reqs !! id = Some r' -> Sched.key_lt r' r = true
}.

Lemma max_by_key_first reqs ids : forall best done i,
  (forall id, id ∈ ids -> is_Some (reqs !! id)) -> done !! i = Some best.1 -> reqs !! best.1 = Some best.2 -> first_largest reqs done i best.2 ->
  exists v j r, Sched.max_by_key best ids reqs = Ok v /\ (done ++ ids) !! j = Some v /\ reqs !! v = Some r /\ first_largest reqs (done ++ ids) j r.
Proof.
  induction ids as [|id ids IH]; intros best done i Hk Hi Hb Hf.
  - rewrite app_nil_r. exists best.1, i, best.2. done.
  - cbn [Sched.max_by_key]. destruct (Hk id) as [r Er]; [by left|]. rewrite Er. cbn [or_raise obind].
    replace (done ++ id :: ids) with ((done ++ [id]) ++ ids) by (by rewrite <- app_assoc).
    assert (forall x, x ∈ ids -> is_Some (reqs !! x)) as Hk' by (intros x Hx; apply Hk; by right). pose proof (lookup_lt_Some _ _ _ Hi) as Hlt.
    assert (forall j x r', (done ++ [id]) !! j = Some x -> reqs !! x = Some r' -> done !! j = Some x \/ j = length done /\ r' = r) as Hsnoc.
    { intros j x r' [?|[? Hx]]%lookup_app_Some Ex; [by left|]. apply list_lookup_singleton_Some in Hx as [? <-]. right. split; [lia|congruence]. }
    destruct Hf as [Hn Hf]. destruct (Sched.key_lt best.2 r) eqn:El.
    + apply (IH (id, r) (done ++ [id]) (length done)); [done|by rewrite list_lookup_middle|done|]. cbn [snd]. split.
      * intros j x r' Hx Ex. destruct (Hsnoc j x r' Hx Ex) as [Hd|[_ ->]]; [|apply key_lt_irrefl].
        apply key_lt_asym, (key_le_lt _ best.2); [by eapply Hn|done].
      * intros j x r' Hj Hx Ex. destruct (Hsnoc j x r' Hx Ex) as [Hd|[? _]]; [|lia]. apply (key_le_lt _ best.2); [by eapply Hn|done].
    + apply (IH best (done ++ [id]) i); [done|by rewrite lookup_app_l|done|]. split.
      * intros j x r' Hx Ex. destruct (Hsnoc j x r' Hx Ex) as [Hd|[_ ->]]; [by eapply Hn|done].
      * intros j x r' Hj Hx Ex. destruct (Hsnoc j x r' Hx Ex) as [Hd|[-> _]]; [by eapply Hf|lia].
Qed.

(** * The victim *)

Section victim.
Context {Q K : Type} `{!RequestQueue Q} `{!KVOps K} (cfg : SchedulerConfig).
Abbreviation S := (Scheduler Q K).

Lemma lowest_priority_first (s : S) : running s <> [] -> (forall id, id ∈ running s -> is_Some (requests s !! id)) ->
  exists v i r, Sched.lowest_priority s = Ok v /\ running s !! i = Some v /\ requests s !! v = Some r /\ first_largest (requests s) (running s) i r.
Proof.
  intros Hne Hk. unfold Sched.lowest_priority. destruct (running s) as [|id ids]; [done|]. destruct (Hk id) as [r Er]; [by left|].
  rewrite Er. cbn [or_raise obind]. apply (max_by_key_first (requests s) ids (id, r) [id] 0%nat); try done; [intros x Hx; apply Hk; by right|].
  cbn. split; [|lia]. intros [|j] x r' Hx Ex; simplify_eq/=. apply key_lt_irrefl.
Qed.

(** The tokens that [id] was given in this step. *)
Definition given (l : StepState) (id : string) : Z :=
  if bool_decide (id ∈ scheduled_running_reqs l) then match dict_pop id (num_scheduled_tokens l) with Ok (n, _) => n | Raise _ => 0 end else 0.

Lemma unschedule_budget v (l : StepState) : (forall id, id ∈ scheduled_running_reqs l -> id ∈ (num_scheduled_tokens l).*1) ->
  wp (Sched.unschedule cfg v) (fun _ l' => token_budget l' = token_budget l + given l v /\ v ∉ scheduled_running_reqs l') l.
Proof.
  intros Hk. unfold Sched.unschedule, given. wp_simpl. destruct (bool_decide _) eqn:E; bools; wp_simpl.
  - destruct (dict_pop_ok v (num_scheduled_tokens l)) as (n & j & Ep & _); [by apply Hk|]. rewrite Ep. eexists. split; [done|]. wp_simpl. cbn.
    split; [done|]. by intros [? _]%list_elem_of_filter.
  - split; [lia|done].
Qed.

(** When a running request gets no slots, the victim is the last request of the
    running list under FCFS and, under the priority policy, the running request
    with the largest (priority, arrival time), the first such on the list; exactly
    that entry leaves the running list, the order of the others is unchanged, and
    under the priority policy the tokens the victim had been given in this step
    return to the token budget. *)
Theorem victim_has_lowest_priority (i : nat) (s : S) (l : StepState) :
  running s <> [] -> NoDup (running s) -> (forall id, id ∈ running s -> is_Some (requests s !! id)) ->
  (forall id, id ∈ scheduled_running_reqs l -> id ∈ (num_scheduled_tokens l).*1) ->
  wp (Sched.pop_victim cfg i) (fun res x => exists vi r, running s !! vi = Some res.1 /\ requests s !! res.1 = Some r /\
    x.1 = set_running (delete vi (running s)) s /\
    match policy cfg with
    | FCFS => Datatypes.S vi = length (running s) /\ x.2 = l
    | PRIORITY =>
        (forall j id r', running s !! j = Some id -> requests s !! id = Some r' ->
           priority r' < priority r \/ (priority r' = priority r /\ arrival_time r' < arrival_time r) \/
           ((vi <= j)%nat /\ priority r' = priority r /\ arrival_time r' = arrival_time r)) /\
        token_budget x.2 = token_budget l + given l res.1 /\ res.1 ∉ scheduled_running_reqs x.2
    end) (s, l).
Proof.
  intros Hne Hnd Hk Hs. unfold Sched.pop_victim, Sched.on_sched, Sched.on_step. wp_simpl. cbn [fst snd]. destruct (policy cfg); wp_simpl.
  - destruct (last (running s)) as [v|] eqn:El; [|by apply last_None in El]. exists v. split; [done|]. destruct (removelast_delete _ _ El) as [Hv Er].
    destruct (Hk v) as [r Hr]; [by eapply list_elem_of_lookup_2|]. wp_simpl. cbn [fst snd]. exists (length (running s) - 1)%nat, r.
    apply lookup_lt_Some in Hv as Hlt. rewrite Er. split_and!; try done. lia.
  - destruct (lowest_priority_first s Hne Hk) as (v & vi & r & Ev & Hv & Hr & [Hn Hf]). exists v. split; [done|].
    destruct (index_of_ok v (running s)) as (vi' & Evi & Hvi); [by eapply list_elem_of_lookup_2|].
    assert (vi' = vi) as -> by (by eapply NoDup_lookup). wp_simpl. exists vi. rewrite Evi. split; [done|]. wp_simpl. cbn [fst snd].
    eapply wp_mono; [by apply unschedule_budget|]. intros [] l' Hl'. wp_simpl. cbn [fst snd]. exists vi, r. split_and!; try apply Hl'; try done.
    intros j id r' Hj Er. specialize (Hn j id r' Hj Er). apply not_true_iff_false in Hn. rewrite key_lt_true in Hn.
    destruct (Nat.lt_ge_cases j vi) as [Hlt|Hge]; [|lia]. specialize (Hf j id r' Hlt Hj Er). rewrite key_lt_true in Hf. lia.
Qed.
End victim.

