(* ===== verification/SchedulerWaiting.v ===== *)
(** The second phase of the scheduling step ([vllm/v1/core/sched/scheduler.py]):
    the waiting requests that are skipped, admitted or left for a later step. *)
From Stdlib Require Import ZArith Lia Strings.String.
From stdpp Require Import base numbers list gmap strings.
From S2P Require Import Prelude Request RequestQueue KVCacheManager Scheduler SchedulerSafety.
Open Scope Z_scope.
Local Arguments py_get : simpl never.
Local Arguments Z.of_nat : simpl never.

Section waiting.
Context {Q K : Type} `{!RequestQueue Q, !RequestQueueLaws Q} `{!KVOps K} (cfg : SchedulerConfig)
  `{!KVLaws K (sched_max_model_len cfg)} (grammar : string -> option bool) (fl : string -> Z * Z) (P : list string) (obj : string -> Z).
Hypothesis P_nodup : NoDup P.
Hypothesis obj_inj : forall a b, a ∈ P -> b ∈ P -> obj a = obj b -> a = b.
Abbreviation S := (Scheduler Q K).
Abbreviation St := (Scheduler Q K * StepState)%type.
Abbreviation max_len := (sched_max_model_len cfg).
Abbreviation kv s := (kv_cache_manager s).
Abbreviation covers := (kv_covers (max_len := max_len)).
Abbreviation fresh_in := (kv_fresh (max_len := max_len)).
Abbreviation fits := (kv_fits (max_len := max_len)).
Abbreviation good := (kv_ok (max_len := max_len)).
Abbreviation frame := (kv_frame (max_len := max_len)).
Abbreviation same := (kv_same (max_len := max_len)).
Abbreviation inv := (inv cfg fl P obj).
Abbreviation scheduled := (scheduled cfg).
Abbreviation waiting_ok := (waiting_ok cfg fl).
Abbreviation running_ok := (running_ok cfg fl).

(** ** The queues *)

Definition queues (s : S) (lw lk : list Request) : Prop :=
  queue_ok (waiting s) /\ queue_iter (waiting s) = Ok lw /\ queue_ok (kv_holding_waiting s) /\ queue_iter (kv_holding_waiting s) = Ok lk.
(** The queue the loop takes the next request from, and what is left of both. *)
Definition source (b : bool) (lw lk : list Request) : list Request := if b then lk else lw.
Definition rest_w (b : bool) (rest lw : list Request) : list Request := if b then lw else rest.
Definition rest_k (b : bool) (rest lk : list Request) : list Request := if b then rest else lk.
Definition set_queue (b : bool) (q : Q) (s : S) : S := if b then set_kv_holding q s else set_waiting q s.

Lemma inv_queues_of s l : inv [] s l -> exists lw lk, queues s lw lk.
Proof. intros [_ _ _ (lw & lk & ? & ? & ? & ? & _) _ _]. by exists lw, lk. Qed.
Lemma queues_len s lw lk : queues s lw lk -> queue_len (waiting s) = length lw /\ queue_len (kv_holding_waiting s) = length lk.
Proof.
  intros (Q1 & Q2 & Q3 & Q4). destruct (law_iter _ Q1) as (a & Ea & _ & ->). destruct (law_iter _ Q3) as (b & Eb & _ & ->).
  split; congruence.
Qed.
Lemma queues_perm s l lw lk : inv [] s l -> queues s lw lk ->
  running s ++ map request_id (queued lw lk l) ≡ₚ P /\ Forall (queued_ok cfg fl obj s) (queued lw lk l).
Proof.
  intros [_ _ _ (lw' & lk' & _ & E1 & _ & E2 & Hp & Hq) _ _] (_ & F1 & _ & F2). rewrite app_nil_r in Hp.
  rewrite E1 in F1. rewrite E2 in F2. injection F1 as <-. injection F2 as <-. done.
Qed.

Lemma peek_ok b lw lk q rest (Qp : Request -> S -> Prop) s : queues s lw lk -> source b lw lk = q :: rest -> Qp q s ->
  wp (if b then Sched.on_kv_holding peek_request else Sched.on_waiting peek_request) Qp s.
Proof.
  intros (Q1 & Q2 & Q3 & Q4) Hs HQ. destruct b; cbn in Hs; subst; unfold Sched.on_kv_holding, Sched.on_waiting; wp_simpl.
  - eapply wp_of_run; [exact (law_peek _ Q3 _ Q4)|by destruct s].
  - eapply wp_of_run; [exact (law_peek _ Q1 _ Q2)|by destruct s].
Qed.
Lemma source_pop_ok b lw lk q rest s : queues s lw lk -> source b lw lk = q :: rest ->
  wp (if b then Sched.on_kv_holding pop_request else Sched.on_waiting pop_request) (fun a s' => a = q /\
    exists qu, s' = set_queue b qu s /\ queues s' (rest_w b rest lw) (rest_k b rest lk)) s.
Proof.
  intros (Q1 & Q2 & Q3 & Q4) Hs. destruct b; cbn in Hs; subst; unfold Sched.on_kv_holding, Sched.on_waiting; wp_simpl.
  - destruct (law_pop _ _ _ Q3 Q4) as (qu & E & H1 & H2). eapply wp_of_run; [exact E|]. split; [done|]. by exists qu.
  - destruct (law_pop _ _ _ Q1 Q2) as (qu & E & H1 & H2). eapply wp_of_run; [exact E|]. split; [done|]. by exists qu.
Qed.
Lemma queued_source b lw lk l q rest : source b lw lk = q :: rest -> queued lw lk l ≡ₚ q :: queued (rest_w b rest lw) (rest_k b rest lk) l.
Proof. destruct b; cbn; intros ->; unfold queued; solve_Permutation. Qed.

(** ** Changes of the invariant *)

(** The queues are rearranged. *)
Lemma inv_rearranged s l s' l' lw lk lw' lk' :
  inv [] s l -> queues s lw lk -> kv s' = kv s -> requests s' = requests s -> running s' = running s -> queues s' lw' lk' ->
  map request_id (queued lw' lk' l') ≡ₚ map request_id (queued lw lk l) ->
  (forall q, q ∈ queued lw' lk' l' -> obj_id q = obj (request_id q)) -> inv [] s' l'.
Proof.
  intros Hi Hq Ek Er Erun Hq' Hp Ho. destruct (queues_perm s l lw lk Hi Hq) as [Hp0 Hf]. pose proof Hi as [I1 I2 I3 _ Hoth Hdom].
  split; rewrite ?Ek, ?Er, ?Erun; try done. exists lw', lk'. destruct Hq' as (? & ? & ? & ?). split_and!; try done.
  - by rewrite app_nil_r, Hp.
  - rewrite Forall_forall in Hf |- *. intros q Hin. split; [by apply Ho|]. rewrite Ek, Er. intros r E.
    assert (request_id q ∈ map request_id (queued lw lk l)) as Hid
      by (rewrite <- Hp; apply list_elem_of_In, in_map; by apply list_elem_of_In).
    apply list_elem_of_fmap in Hid as (q0 & Eq & Hin0). apply (Hf q0 Hin0). by rewrite <- Eq.
Qed.

(** A queued request joins the batch. *)
Lemma inv_admit id k' r' s l s' l' lw lk q X lw' lk' :
  inv [] s l -> queues s lw lk -> queued lw lk l ≡ₚ q :: X -> request_id q = id -> good k' -> frame id (kv s) k' ->
  kv s' = k' -> requests s' = <[id := r']> (requests s) -> request_id r' = id -> obj_id r' = obj id -> running_ok k' r' ->
  running s' = running s ++ [id] -> queues s' lw' lk' -> queued lw' lk' l' ≡ₚ X -> inv [] s' l'.
Proof.
  intros Hi Hq HX Eid Hk Hf Ek Er Er1 Er2 Hro Erun Hq' HX'. destruct (queues_perm s l lw lk Hi Hq) as [Hp0 Hfa]. pose proof Hi as [I1 I2 I3 _ Hoth Hdom].
  rewrite app_nil_r in I3. pose proof Hp0 as Hnd. rewrite HX in Hp0, Hfa. cbn [map] in Hp0. rewrite Eid in Hp0.
  assert (NoDup (id :: running s ++ map request_id X)) as Hn by (rewrite Permutation_middle, Hp0; exact P_nodup).
  apply NoDup_cons in Hn as [Hnid _]. apply Forall_cons in Hfa as [_ Hfa].
  split; rewrite ?Ek, ?Er, ?Erun, ?app_nil_r; try done.
  - intros id' Hid'. destruct (decide (id' = id)) as [->|Hne]; [exists r'; by rewrite lookup_insert_eq|].
    rewrite lookup_insert_ne by done. by apply I2.
  - intros id' r [Hin|Hin]%elem_of_app E.
    + assert (id' <> id) as Hne by (intros ->; apply Hnid; set_solver). rewrite lookup_insert_ne in E by done.
      destruct (I2 id') as (r1 & E1 & Ei1 & _); [rewrite <- Hp0; set_solver|]. assert (r1 = r) as -> by congruence.
      eapply (running_ok_frame cfg fl id (kv s)); [congruence|done|by eapply I3].
    + apply list_elem_of_singleton in Hin as ->. rewrite lookup_insert_eq in E. by injection E as <-.
  - exists lw', lk'. destruct Hq' as (? & ? & ? & ?). split_and!; try done.
    + rewrite HX', <- Hp0. rewrite <- app_assoc. done.
    + rewrite HX'. rewrite Forall_forall in Hfa |- *. intros q' Hin. destruct (Hfa q' Hin) as [Ho Hw]. split; [done|].
      assert (request_id q' ∈ map request_id X) as Hin' by (apply list_elem_of_In, in_map; by apply list_elem_of_In).
      assert (request_id q' <> id) as Hne by (intros E; apply Hnid; rewrite <- E; set_solver).
      rewrite Ek, Er, lookup_insert_ne by done. intros r E. destruct (I2 (request_id q')) as (r1 & E1 & Ei1 & _); [rewrite <- Hp0; set_solver|].
      assert (r1 = r) as -> by congruence. eapply (waiting_ok_frame cfg fl id (kv s)); [congruence|done|by apply Hw].
  - intros id' Hn'. assert (id' <> id) as Hne by (intros ->; apply Hn'; rewrite <- Hp0; set_solver). by apply (Hf id' Hne), Hoth.
  - intros id' Hs'. destruct (decide (id' = id)) as [->|Hne]; [rewrite <- Hp0; set_solver|]. rewrite lookup_insert_ne in Hs' by done. by apply Hdom.
Qed.

Lemma scheduled_admit id k' r' (s : S) l (s' : S) :
  scheduled s l -> id ∉ running s -> frame id (kv s) k' -> kv s' = k' -> requests s' = <[id := r']> (requests s) ->
  running s' = running s ++ [id] -> scheduled s' l.
Proof.
  intros [H1 H2 H3 H4 H5 H6 H7] Hn Hf Ek Er Erun.
  assert (forall id' n, (id', n) ∈ num_scheduled_tokens l -> id' <> id) as Hne by (intros id' n Hin ->; by apply Hn, (H2 id n)).
  split; try done; rewrite ?Erun, ?Er, ?Ek.
  - intros id' n Hin. destruct (H2 id' n Hin) as (R1 & R2 & R3). specialize (Hne id' n Hin). split_and!; [set_solver|done|].
    rewrite lookup_insert_ne by done. intros r E. destruct (R3 r E). split; [|done]. by apply (Hf id' Hne).
  - intros id' d E. destruct (H7 id' d E) as (n & Hin & Hle). exists n. split; [done|].
    rewrite lookup_insert_ne by (specialize (Hne id' n Hin); congruence). done.
Qed.

(** ** The next request *)

(** [id] is queued and its object is [r]. *)
Record head_ok (s : S) (id : string) (r : Request) : Prop := {
  hd_lookup : requests s !! id = Some r;
  hd_id : request_id r = id;
  hd_obj : obj_id r = obj id;
  hd_waiting : waiting_ok (kv s) r;
  hd_known : id ∈ P;
  hd_queued : id ∉ running s
}.
Lemma head_request b lw lk q rest s l : inv [] s l -> queues s lw lk -> source b lw lk = q :: rest ->
  obj_id q = obj (request_id q) /\ exists r, head_ok s (request_id q) r.
Proof.
  intros Hi Hq Hs. destruct (queues_perm s l lw lk Hi Hq) as [Hp Hf]. pose proof (queued_source b lw lk l q rest Hs) as HX.
  assert (q ∈ queued lw lk l) as Hin by (rewrite HX; by left). rewrite Forall_forall in Hf. destruct (Hf q Hin) as [Ho Hw]. split; [done|].
  destruct (inv_queued_in P P_nodup [] s l lw lk q) as [HP Hn]; [by rewrite app_nil_r|done|]. rewrite app_nil_r in Hn.
  destruct (inv_lookup cfg fl P obj [] s l _ Hi HP) as (r & E & Ei & Eo). exists r. split; try done. by apply Hw.
Qed.

(** The queues and the batch stay as they are. *)
Definition quiet (s s' : S) : Prop :=
  running s' = running s /\ waiting s' = waiting s /\ kv_holding_waiting s' = kv_holding_waiting s /\ same_status s s'.
Lemma quiet_queues s s' lw lk : quiet s s' -> queues s lw lk -> queues s' lw lk.
Proof. intros (_ & E1 & E2 & _). unfold queues. by rewrite E1, E2. Qed.
Lemma quiet_trans s1 s2 s3 : quiet s1 s2 -> quiet s2 s3 -> quiet s1 s3.
Proof. unfold quiet, same_status. intuition congruence. Qed.

Lemma waiting_ok_content k r r' :
  content r' = content r -> num_computed_tokens r' = num_computed_tokens r -> num_preemptions r' = num_preemptions r ->
  ledger r' = ledger r -> status r' ∈ [WAITING; PREEMPTED; WAITING_FOR_STRUCTURED_OUTPUT_GRAMMAR] -> waiting_ok k r -> waiting_ok k r'.
Proof.
  intros Hc Hn Hp Hl Hst []. pose proof Hc as Hc'. unfold content in Hc'. injection Hc' as E1 E2 E3 E4 E5 E6 E7 E8 E9 E10 E11 E12 E13 E14 E15.
  split; rewrite ?Hn, ?Hp, ?E1, ?E4; try done; [by eapply kv_fits_content| | |by eapply in_order_content]; unfold num_tokens in *; by rewrite E2.
Qed.

(** The object of a queued request and the manager change. *)
Lemma touch_queued s l id r k' r' : inv [] s l -> scheduled s l -> head_ok s id r -> good k' -> frame id (kv s) k' ->
  request_id r' = id -> obj_id r' = obj_id r -> waiting_ok k' r' ->
  inv [] (touch id k' r' s) l /\ scheduled (touch id k' r' s) l /\ quiet s (touch id k' r' s) /\ head_ok (touch id k' r' s) id r'.
Proof.
  intros Hi Hs [H1 H2 H3 H4 H5 H6] Hk Hf E1 E2 Hw. split_and!; try done.
  - eapply inv_touch; try done. rewrite app_nil_r. by intros ?.
  - eapply scheduled_touch; [done..|]. intros ([x n] & -> & Hin)%list_elem_of_fmap. apply H6. by apply (sc_each _ _ _ Hs x n).
  - split; cbn; try done; [apply lookup_insert_eq|congruence].
Qed.

Definition startable (r : Request) : Prop := status r = WAITING \/ status r = PREEMPTED.
Lemma handle_blocked_ok id r s l : inv [] s l -> scheduled s l -> head_ok s id r ->
  wp (Sched.handle_blocked_waiting_request grammar id) (fun ready s' => inv [] s' l /\ scheduled s' l /\ quiet s s' /\
    exists r', head_ok s' id r' /\ (ready = true -> startable r')) s.
Proof.
  intros Hi Hs Hh. unfold Sched.handle_blocked_waiting_request. wp_simpl. eapply wp_the_request; [apply Hh|].
  pose proof (wt_status _ _ _ _ (hd_waiting _ _ _ Hh)) as Hst. destruct (status r) eqn:E; try (exfalso; set_solver); wp_simpl;
    try (split_and!; try done; exists r; split; [done|intros _; unfold startable; rewrite E; auto]).
  destruct (structured_output_request r), (grammar id) as [[]|]; wp_simpl; try (split_and!; try done; by exists r).
  - unfold Sched.update_request. wp_simpl. rewrite (alter_some _ id _ r (hd_lookup _ _ _ Hh)).
    destruct (touch_queued s l id r (kv s) (set_status WAITING r) Hi Hs Hh) as (J1 & J2 & J3 & J4); try done; [apply Hi|apply Hh| |].
    + eapply waiting_ok_content; [..|apply Hh]; try done. cbn. set_solver.
    + split_and!; [exact J1|exact J2|exact J3|]. exists (set_status WAITING r). split; [exact J4|]. intros _. by left.
  - split_and!; [destruct Hi as [A1 A2 A3 A4 A5 A6]; split; [exact A1|exact A2|exact A3|exact A4|exact A5|exact A6]| |done|].
    + destruct Hs as [A1 A2 A3 A4 A5 A6 A7]. split; [exact A1|exact A2|exact A3|exact A4|exact A5|exact A6|exact A7].
    + exists r. split; [|done]. destruct Hh. by split.
Qed.

(** ** A skipped request *)

Lemma skip_ok b lw lk q rest s l : inv [] s l -> scheduled s l -> queues s lw lk -> source b lw lk = q :: rest ->
  wp (Sched.skip_request b) (fun _ x => inv [] x.1 x.2 /\ scheduled x.1 x.2 /\ running x.1 = running s /\ same_status s x.1 /\
    queues x.1 (rest_w b rest lw) (rest_k b rest lk)) (s, l).
Proof.
  intros Hi Hs Hq Hsrc. destruct (head_request b lw lk q rest s l Hi Hq Hsrc) as (Eo & r & [H1 H2 H3 H4 H5 H6]).
  unfold Sched.skip_request, Sched.on_sched, Sched.on_step. wp_simpl. cbn [fst snd].
  eapply wp_mono; [by eapply source_pop_ok|]. intros a s1 (-> & qu & -> & Hq1). cbn [fst snd]. wp_simpl. cbn [fst snd].
  set (s2 := set_deferred _ _).
  assert (kv s2 = kv s /\ requests s2 = requests s /\ running s2 = running s /\ same_status s s2 /\ queues s2 (rest_w b rest lw) (rest_k b rest lk))
    as (E1 & E2 & E3 & E4 & Hq2) by (unfold s2, queues in *; by destruct b).
  eapply wp_the_request; [by rewrite E2|]. wp_simpl. cbn [fst snd]. set (l2 := mkStep _ _ _ _ _ _ _ _ _ _ _ _).
  pose proof (queued_source b lw lk l q rest Hsrc) as HX. destruct (queues_perm s l lw lk Hi Hq) as [_ Hf].
  assert (queued (rest_w b rest lw) (rest_k b rest lk) l2 ≡ₚ r :: queued (rest_w b rest lw) (rest_k b rest lk) l) as HX2
    by (unfold queued, l2; destruct (Sched.holds_kv_blocks r); cbn; solve_Permutation).
  split_and!; [|destruct Hs as [A1 A2 A3 A4 A5 A6 A7]; split; try done; by rewrite ?E1, ?E2, ?E3|done|done|done].
  eapply (inv_rearranged s l s2 _ lw lk); try done.
  - rewrite HX2, HX. cbn [map]. by rewrite H2.
  - intros q'. rewrite HX2. intros [->|Hin]%elem_of_cons; [congruence|]. rewrite Forall_forall in Hf. apply (Hf q'). rewrite HX. by right.
Qed.

(** ** The computed tokens *)

Lemma memo_waiting_ok k k' r r' : memo_only r r' -> fits r' ->
  (num_computed_tokens r = 0 /\ fresh_in k' (request_id r)) \/
  (0 < num_computed_tokens r < num_tokens r /\ covers k' (request_id r) (num_computed_tokens r)) ->
  waiting_ok k r -> waiting_ok k' r'.
Proof.
  intros Hm Hf Hpl []. destruct (memo_fields r r' Hm) as (E1 & E2 & E3 & E4 & E5 & E6 & E7).
  split; rewrite ?E1, ?E3, ?E4, ?E5, ?E6, ?E7; try done; [|by eapply memo_in_order].
  destruct Hpl as [[? ?]|?]; [left|by right]. split_and!; try done. destruct wt_place as [(_ & _ & ?)|[? _]]; [done|lia].
Qed.

(** Where the blocks of a waiting request come from: the cache, or the request
    itself. *)
Definition computed_from (k : K) (id : string) (r : Request) (blocks : KVCacheBlocks) (local computed : Z) : Prop :=
  (num_computed_tokens r = 0 /\ computed = local /\ kv_hits (max_len := max_len) k id blocks local) \/
  (0 < num_computed_tokens r /\ computed = num_computed_tokens r /\ blocks = EmptyBlocks /\ local = 0).

Lemma waiting_computed_ok id r s l : inv [] s l -> scheduled s l -> head_ok s id r ->
  wp (Sched.waiting_computed id r) (fun res s' => inv [] s' l /\ scheduled s' l /\ quiet s s' /\
    0 <= res.2 < num_tokens r /\ exists r', head_ok s' id r' /\ status r' = status r /\ num_tokens r' = num_tokens r /\
      num_computed_tokens r' = num_computed_tokens r /\ computed_from (kv s') id r' res.1.1 res.1.2 res.2) s.
Proof.
  intros Hi Hs Hh. pose proof Hh as [H1 H2 H3 H4 H5 H6]. pose proof H4 as [W1 W2 W3 W4 W5 W6]. unfold Sched.waiting_computed.
  destruct (Z.eqb_spec (num_computed_tokens r) 0) as [E0|E0]; wp_simpl.
  2: { destruct W5 as [[? _]|[? _]]; [lia|]. split_and!; try done; try (cbn; lia). exists r. split_and!; try done. right. cbn. split_and!; try done. lia. }
  destruct W5 as [(_ & Hfr & Hpr)|[? _]]; [|lia].
  rewrite (wp_on_kv_request _ _ _ _ r) by done. eapply wp_mono; [apply (law_computed (max_len := max_len)); [apply Hi|done..]|].
  intros [[blocks local] boundary] [k' r'] (Hk & Hf & Hm & Hsame & Hloc & Hhit). cbn [fst snd] in *. wp_simpl.
  destruct (memo_fields r r' Hm) as (E1 & E2 & E3 & E4 & E5 & E6 & E7).
  unfold Sched.update_request. wp_simpl. set (g := fun r => set_schedule _ _ _ _ _ _ _ _ _ _ r). cbn [requests touch set_kv set_requests].
  rewrite (alter_some _ id _ r') by apply lookup_insert_eq. rewrite insert_insert_eq. set (r2 := g r').
  assert (content r2 = content r' /\ status r2 = status r' /\ num_computed_tokens r2 = num_computed_tokens r' /\
    num_preemptions r2 = num_preemptions r' /\ obj_id r2 = obj_id r' /\ num_tokens r2 = num_tokens r' /\ request_id r2 = request_id r') as (C1 & C2 & C3 & C4 & C5 & C6 & C7) by done.
  assert (waiting_ok k' r2) as Hw2.
  { eapply waiting_ok_content; [done|done|done|done| |]; [by rewrite C2, E5|]. eapply (memo_waiting_ok (kv s)); [done|done| |done].
    left. split; [done|]. by apply (Hsame (request_id r)). }
  destruct (touch_queued s l id r k' r2 Hi Hs Hh) as (J1 & J2 & J3 & J4); try exact Hk; [by apply same_frame|congruence|congruence|done|].
  split; [lia|]. set (s2 := set_requests _ _).
  assert (wp (if bool_decide (id ∈ prefill_stats s2) && (num_preemptions r <=? 0) then assert_ (local <=? num_prompt_tokens r) else ret tt)
    (fun _ s' => s' = s2) s2) as Hassert.
  { destruct (_ && _) eqn:Eb; wp_simpl; [|done]. bools. split; [|done]. apply Z.leb_le. specialize (Hpr ltac:(lia)). lia. }
  eapply wp_mono; [exact Hassert|]. intros [] s3 ->. wp_simpl. cbn [fst snd].
  split_and!; [exact J1|exact J2|exact J3|lia|lia|]. exists r2. split_and!; [exact J4|congruence|congruence|congruence|].
  left. split_and!; [cbn in *; lia|done|]. by rewrite <- H2.
Qed.

(** ** The number of tokens *)

(** A padded decode is not cut by the threshold for long prefills. *)
Definition pad_uncut (threshold : Z) : Prop := threshold <= 0 \/ num_spec_tokens cfg < threshold.

Lemma waiting_tokens_ok r nc threshold l : pad_uncut threshold -> 0 <= num_sampled_tokens_per_step cfg ->
  0 < token_budget l -> draft_slots cfg < input_budget l -> 0 <= nc < num_tokens r -> num_tokens r <= max_len ->
  exists res, Sched.waiting_tokens cfg r nc threshold l = Ok res /\ forall pad n, res = Some (pad, n) ->
    0 < n <= token_budget l /\ n + draft_slots cfg <= input_budget l /\ nc + n <= max_len /\
    (pad = true -> n = 1 + num_spec_tokens cfg).
Proof.
  intros Hpu Hsam Ht Hin Hnc Hmax. unfold Sched.waiting_tokens. set (budget := Z.min _ _).
  match goal with |- context [if ?p && _ then _ else _] => destruct p eqn:Epad end; cbn [andb].
  - bools. destruct (_ >? budget) eqn:Eb; [by eexists|]. bools.
    assert (((0 <? threshold) && (threshold <? 1 + num_spec_tokens cfg)) = false) as -> by (destruct Hpu; lia).
    case_match; [by eexists|]. assert (negb (Z.min (1 + num_spec_tokens cfg) budget >? 0) = false) as -> by lia.
    replace (Z.min (1 + num_spec_tokens cfg) budget) with (1 + num_spec_tokens cfg) by lia.
    assert (Sched.reserve_prefill_lookahead cfg r nc (1 + num_spec_tokens cfg) = 1 + num_spec_tokens cfg) as ->
      by (unfold Sched.reserve_prefill_lookahead; case_match; bools; lia).
    assert ((1 + num_spec_tokens cfg =? 0) = false) as -> by lia. eexists. split; [done|]. intros pad n [= <- <-]. lia.
  - set (n0 := if (0 <? threshold) && _ then _ else _).
    assert (0 < n0 <= num_tokens r - nc) as Hn0 by (unfold n0; case_match; bools; lia).
    case_match; [by eexists|]. assert (negb (Z.min n0 budget >? 0) = false) as -> by lia.
    pose proof (reserve_bounds cfg r nc (Z.min n0 budget)). set (m := Sched.reserve_prefill_lookahead _ _ _ _) in *.
    destruct (Z.eqb_spec m 0) as [|Hm0]; [exists None; split; [done|by intros ? ? [=]]|].
    eexists. split; [done|]. intros pad n [= <- <-]. split_and!; [lia..|done].
Qed.

(** ** Slots *)

Lemma waiting_slots_ok id r s l nn local blocks nc full has :
  inv [] s l -> head_ok s id r -> computed_from (kv s) id r blocks local nc -> 0 <= nc < num_tokens r -> 0 < nn ->
  nc + nn <= max_len -> 0 <= num_lookahead_tokens cfg ->
  wp (Sched.on_kv_request id (kv_allocate_slots nn local (Some blocks) (num_lookahead_tokens cfg) full has)) (fun res s' =>
    exists k' r', s' = touch id k' r' s /\ memo_only r r' /\ fits r' /\ good k' /\ frame id (kv s) k' /\
      match res with Some _ => covers k' id (nc + nn) | None => waiting_ok k' r' end) s.
Proof.
  intros Hi [H1 H2 H3 H4 H5 H6] Hfrom Hnc Hnn Hmax Hnla. rewrite (wp_on_kv_request _ _ _ _ r) by done. pose proof H4 as [W1 W2 W3 W4 W5 W6].
  destruct Hfrom as [(E0 & -> & Hhit)|(E0 & -> & -> & ->)].
  - destruct W5 as [(_ & Hfr & _)|[? _]]; [|lia].
    eapply wp_mono; [apply (law_new (max_len := max_len)); [apply Hi|done|done|done|done|by rewrite H2|lia|done|done]|].
    intros res [k' r'] (Hk & Hf & Hm & Hframe & Hres). cbn [fst snd] in *. rewrite H2 in *. exists k', r'. split_and!; try done.
    destruct res; [by replace (local + nn) with (Z.min (local + nn) max_len) by lia|].
    eapply (memo_waiting_ok (kv s)); [done|done| |done]. left. by rewrite H2.
  - destruct W5 as [[? _]|[Hr Hc]]; [lia|]. pose proof (kv_fits_tokens _ W2) as [_ Hmt].
    eapply wp_mono; [apply (law_running (max_len := max_len)); [apply Hi|done|by right|lia|done|done|done]|].
    intros res [k' r'] (Hk & Hf & Hm & Hframe & Hres). cbn [fst snd] in *. rewrite H2 in *. exists k', r'. split_and!; try done.
    destruct res; [by replace (num_computed_tokens r + nn) with (Z.min (num_computed_tokens r + nn) max_len) by lia|].
    eapply (memo_waiting_ok (kv s)); [done|done| |done]. right. by rewrite H2.
Qed.

(** ** Admission *)

(** The object of an admitted request. *)
Definition admitted (ts nc : Z) (r : Request) : Request := set_num_computed_tokens nc (set_status RUNNING (logged cfg SCHEDULED ts r)).
Lemma admitted_fields ts nc r : content (admitted ts nc r) = content r /\ obj_id (admitted ts nc r) = obj_id r /\
  status (admitted ts nc r) = RUNNING /\ num_computed_tokens (admitted ts nc r) = nc /\
  num_preemptions (admitted ts nc r) = num_preemptions r /\ num_tokens (admitted ts nc r) = num_tokens r /\
  request_id (admitted ts nc r) = request_id r /\ ledger (admitted ts nc r) = ledger r.
Proof. unfold admitted, logged. by destruct (sched_log_stats cfg). Qed.

(** The slots of [id] are allocated; it is still queued. *)
Record slots_allocated (id : string) (s s1 : S) (r1 : Request) (n : Z) : Prop := {
  sa_requests : requests s1 = <[id := r1]> (requests s);
  sa_quiet : quiet s s1;
  sa_kv : good (kv s1);
  sa_frame : frame id (kv s) (kv s1);
  sa_id : request_id r1 = id;
  sa_obj : obj_id r1 = obj id;
  sa_fits : fits r1;
  sa_status : startable r1;
  sa_tokens : 1 <= num_tokens r1;
  sa_preemptions : 0 <= num_preemptions r1;
  sa_covers : covers (kv s1) id n;
  sa_order : in_order fl r1
}.

Lemma admission_ok b lw lk q rest s l s1 r1 nc nn ts s' l' :
  inv [] s l -> scheduled s l -> queues s lw lk -> source b lw lk = q :: rest -> slots_allocated (request_id q) s s1 r1 (nc + nn) ->
  0 <= nc -> nc + nn <= max_len -> 0 < nn <= token_budget l -> nn + draft_slots cfg <= input_budget l ->
  kv s' = kv s1 -> requests s' = <[request_id q := admitted ts nc r1]> (requests s) -> running s' = running s ++ [request_id q] ->
  queues s' (rest_w b rest lw) (rest_k b rest lk) -> entry_added cfg (request_id q) nc nn l l' ->
  step_skipped_waiting l' = step_skipped_waiting l -> step_skipped_kv_holding l' = step_skipped_kv_holding l ->
  inv [] s' l' /\ scheduled s' l'.
Proof.
  intros Hi Hs Hq Hsrc [A1 A2 A3 A4 A5 A6 A7 A8 A9 A10 A11 A12] Hnc Hmax Hnn Hin Ek Er Erun Hq' Ha Ew Ekh.
  destruct (head_request b lw lk q rest s l Hi Hq Hsrc) as (Eo & r & Hh). set (id := request_id q) in *.
  destruct (admitted_fields ts nc r1) as (F1 & F2 & F3 & F4 & F5 & F6 & F7 & F8).
  assert (frame id (kv s) (kv s')) as Hf by (by rewrite Ek). split.
  - eapply (inv_admit id (kv s') (admitted ts nc r1) s l s' l' lw lk q _ (rest_w b rest lw) (rest_k b rest lk) Hi Hq (queued_source b lw lk l q rest Hsrc)); try done.
    + by rewrite Ek.
    + congruence.
    + congruence.
    + rewrite Ek. split; rewrite ?F3, ?F4, ?F5, ?F6, ?F7; try done; [by eapply kv_fits_content|lia| |by eapply in_order_content].
      rewrite A5. eapply kv_covers_le; [exact A11|lia].
    + unfold queued. by rewrite Ew, Ekh.
  - assert (scheduled s' l) as Hs' by (eapply scheduled_admit; try done; apply Hh).
    eapply (scheduled_entry cfg id nn (admitted ts nc r1)); try done; try lia.
    + rewrite Erun. set_solver.
    + intros (kv0 & Ekv & Hin')%list_elem_of_fmap. destruct kv0 as [x m]. cbn in Ekv. subst x.
      apply (hd_queued _ _ _ Hh). by apply (sc_each _ _ _ Hs id m).
    + rewrite Er. apply lookup_insert_eq.
    + rewrite F4, Ek. done.
Qed.

Lemma wp_log_in_step id t ts (Qp : unit -> St -> Prop) s l r :
  requests s !! id = Some r -> Qp tt (set_requests (<[id := logged cfg t ts r]> (requests s)) s, l) ->
  wp (if sched_log_stats cfg
      then Sched.on_sched (Sched.update_request id (fun r => set_events (events r ++ [mkEvent t ts]) r)) else ret tt) Qp (s, l).
Proof.
  intros E H. pose proof (wp_log_event cfg id t ts (fun a s' => Qp a (s', l)) s r E H) as Hw.
  unfold Sched.on_sched. destruct (sched_log_stats cfg); [|done]. by apply wp_zoom.
Qed.

(** The parts of the step that admission goes through. *)
Definition parts (l : StepState) : list string := scheduled_running_reqs l ++ scheduled_new_reqs l ++ scheduled_resumed_reqs l.
Definition account (l : StepState) :=
  (num_scheduled_tokens l, token_budget l, input_budget l, req_to_new_blocks l, step_skipped_waiting l, step_skipped_kv_holding l).
Abbreviation drafts := scheduled_spec_decode_tokens.
Lemma classify_ok id r l : startable r -> wp (Sched.classify id (status r)) (fun _ l' => account l' = account l /\ parts l' ≡ₚ id :: parts l /\ drafts l' = drafts l) l.
Proof. intros [-> | ->]; cbn; wp_simpl; (split_and!; [done| |done]); unfold parts; cbn; solve_Permutation. Qed.
Lemma grant_ok id b n l : wp (Sched.grant cfg id b n) (fun _ l' => parts l' = parts l /\ drafts l' = drafts l /\ account l' =
  (num_scheduled_tokens l ++ [(id, n)], token_budget l - n, input_budget l - (n + draft_slots cfg), <[id := b]> (req_to_new_blocks l),
   step_skipped_waiting l, step_skipped_kv_holding l)) l.
Proof. done. Qed.
Lemma pad_ok id n pad l : (pad = true -> n = 1 + num_spec_tokens cfg) ->
  wp (Sched.pad_drafts cfg id n pad) (fun _ l' => parts l' = parts l /\ account l' = account l /\
    (drafts l' = drafts l \/ exists d, drafts l' = <[id := d]> (drafts l) /\ zlen d <= Z.max n 0)) l.
Proof.
  intros Hp. unfold Sched.pad_drafts. destruct pad; wp_simpl; [|by auto]. split; [by apply Z.eqb_eq, Hp|]. split_and!; try done.
  right. eexists. split; [done|]. rewrite length_replicate. specialize (Hp eq_refl). lia.
Qed.

Lemma admit_ok b lw lk q rest s l s1 r1 nc nn pad ts :
  inv [] s l -> scheduled s l -> queues s lw lk -> source b lw lk = q :: rest -> slots_allocated (request_id q) s s1 r1 (nc + nn) ->
  0 <= nc -> nc + nn <= max_len -> 0 < nn <= token_budget l -> nn + draft_slots cfg <= input_budget l ->
  (pad = true -> nn = 1 + num_spec_tokens cfg) ->
  wp (Sched.admit_waiting cfg b ts (request_id q) nc nn pad) (fun _ x => inv [] x.1 x.2 /\ scheduled x.1 x.2 /\
    running x.1 = running s ++ [request_id q] /\ same_status s x.1 /\ queues x.1 (rest_w b rest lw) (rest_k b rest lk)) (s1, l).
Proof.
  intros Hi Hs Hq Hsrc Hsa Hnc Hmax Hnn Hin Hpad. set (id := request_id q) in *. pose proof Hsa as [A1 A2 A3 A4 A5 A6 A7 A8 A9 A10 A11 A12].
  assert (requests s1 !! id = Some r1) as Hlk by (rewrite A1; apply lookup_insert_eq).
  unfold Sched.admit_waiting. wp_simpl. unfold Sched.on_sched at 1. wp_simpl. cbn [fst snd].
  eapply wp_mono; [eapply source_pop_ok; [by eapply quiet_queues|done]|]. intros a s2 (-> & qu & -> & Hq2). cbn [fst snd].
  unfold Sched.on_sched at 1. wp_simpl. cbn [fst snd]. set (s3 := set_running _ _).
  assert (kv s3 = kv s1 /\ requests s3 = requests s1 /\ running s3 = running s1 ++ [id] /\ same_status s1 s3 /\
    queues s3 (rest_w b rest lw) (rest_k b rest lk)) as (E1 & E2 & E3 & E4 & Hq3) by (unfold s3, queues in *; by destruct b).
  assert (forall s' l', kv s' = kv s3 -> requests s' = <[id := admitted ts nc r1]> (requests s1) -> quiet s3 s' -> entry_added cfg id nc nn l l' ->
    step_skipped_waiting l' = step_skipped_waiting l -> step_skipped_kv_holding l' = step_skipped_kv_holding l ->
    inv [] s' l' /\ scheduled s' l' /\ running s' = running s ++ [id] /\ same_status s s' /\ queues s' (rest_w b rest lw) (rest_k b rest lk)) as Hfin.
  { intros s' l' F1 F2 F3 F4 F5 F6. pose proof A2 as (G1 & _ & _ & G4). pose proof F3 as (F31 & _ & _ & F34).
    assert (queues s' (rest_w b rest lw) (rest_k b rest lk)) as Hq' by (by eapply quiet_queues).
    assert (running s' = running s ++ [id]) as Erun by (rewrite F31, E3; congruence).
    assert (inv [] s' l' /\ scheduled s' l') as []; [|split_and!; try done; unfold same_status in *; intuition congruence].
    eapply (admission_ok b lw lk q rest s l s1 r1 nc nn ts); try done; [by rewrite F1, E1|]. by rewrite F2, A1, insert_insert_eq. }
  clearbody s3. eapply wp_log_in_step; [by rewrite E2|]. rewrite E2. unfold Sched.on_sched, Sched.on_step. rewrite !wp_bind, !wp_zoom. cbn [fst snd].
  eapply wp_the_request; [apply lookup_insert_eq|]. cbn [fst snd].
  assert (startable (logged cfg SCHEDULED ts r1)) as Hst by (unfold startable, logged in *; by destruct (sched_log_stats cfg)).
  rewrite wp_bind, wp_zoom. eapply wp_mono; [by apply classify_ok|]. intros [] l1 (L1 & L1' & D1). cbn [fst snd].
  rewrite wp_bind, wp_gets, wp_bind, wp_zoom. eapply wp_mono; [apply grant_ok|]. intros [] l2 (L2 & D2 & L2'). cbn [fst snd].
  rewrite wp_bind, wp_zoom. unfold Sched.update_request. rewrite wp_modify. cbn [fst snd requests set_requests].
  rewrite (alter_some _ id _ (logged cfg SCHEDULED ts r1)) by apply lookup_insert_eq. rewrite insert_insert_eq.
  rewrite wp_bind, wp_zoom. eapply wp_mono; [by apply pad_ok|]. intros [] l3 (L3 & L3' & D3). cbn [fst snd].
  rewrite wp_zoom, wp_modify. unfold account in *. cbn [fst snd] in *. injection L1 as M1 M2 M3 M4 M5 M6.
  rewrite M1, M2, M3, M4, M5, M6 in L2'. rewrite L2' in L3'. injection L3' as N1 N2 N3 N4 N5 N6.
  apply Hfin; try (by case_match); try done. split; try done; [by eexists| |].
  - fold (parts l3) (parts l). by rewrite L3, L2, L1'.
  - intros id' d. destruct D3 as [->|(d0 & -> & Hd0)]; rewrite D2, D1; [by left|]. intros [[<- <-]|[_ E]]%lookup_insert_Some; [|by left].
    right. split; [done|lia].
Qed.

(** ** The loop *)

Context (threshold : Z).
Hypothesis pad_whole : pad_uncut threshold.
Hypothesis draft_slots_nonneg : 0 <= draft_slots cfg.
Hypothesis lookahead_nonneg : 0 <= num_lookahead_tokens cfg.
Hypothesis sampled_nonneg : 0 <= num_sampled_tokens_per_step cfg.

(** The invariant of the second phase. *)
Record phase2 (s : S) (l : StepState) : Prop := {
  p2_inv : inv [] s l;
  p2_scheduled : scheduled s l;
  p2_streaming : 0 <= num_waiting_for_streaming_input s;
  p2_running : zlen (running s) <= max_num_running_reqs cfg
}.
Lemma phase2_quiet s l s' l' : phase2 s l -> inv [] s' l' -> scheduled s' l' -> running s' = running s -> same_status s s' -> phase2 s' l'.
Proof. intros [_ _ H3 H4] Hi Hs Er [_ Es]. split; [done|done|by rewrite Es|by rewrite Er]. Qed.

(** The manager records the lookup of a request that is about to be admitted. *)
Lemma record_ok id s s1 r1 n (c : bool) local l : slots_allocated id s s1 r1 n ->
  wp (if c then Sched.on_sched (let! r := Sched.the_request id in Sched.on_kv (kv_record_prefix_cache_stats r local)) else ret tt)
    (fun _ x => x.2 = l /\ slots_allocated id s x.1 r1 n) (s1, l).
Proof.
  intros Hsa. pose proof Hsa as [A1 A2 A3 A4 A5 A6 A7 A8 A9 A10 A11 A12]. destruct c; wp_simpl; [|done].
  unfold Sched.on_sched. wp_simpl. cbn [fst snd]. eapply wp_the_request; [rewrite A1; apply lookup_insert_eq|]. unfold Sched.on_kv. wp_simpl. cbn [fst snd].
  eapply wp_mono; [by apply (law_stats (max_len := max_len))|]. intros [] k2 (Hk & Hsame). split; [done|]. split; try done.
  - intros id' Hne. destruct (A4 id' Hne), (Hsame id'). split; auto.
  - by apply Hsame.
Qed.

Lemma allocated_slots id s l r s1 k' r1 n : head_ok s id r -> startable r -> s1 = touch id k' r1 s -> memo_only r r1 -> fits r1 -> good k' ->
  frame id (kv s) k' -> covers k' id n -> inv [] s l -> slots_allocated id s s1 r1 n.
Proof.
  intros [H1 H2 H3 H4 H5 H6] Hst -> Hm Hf Hk Hfr Hc Hi. destruct (memo_fields r r1 Hm) as (E1 & E2 & E3 & E4 & E5 & E6 & E7).
  split; try done; try congruence.
  - unfold startable. by rewrite E5.
  - rewrite E4. apply H4.
  - rewrite E6. apply H4.
  - eapply memo_in_order; [done|apply H4].
Qed.

Hypothesis active_le : max_num_active_reqs cfg <= max_num_running_reqs cfg.
Local Opaque Sched.admit_waiting Sched.skip_request Sched.waiting_computed Sched.handle_blocked_waiting_request.

Lemma waiting_loop_ok defer ts fuel : forall s l lw lk, queues s lw lk -> (length lw + length lk < fuel)%nat -> phase2 s l ->
  wp (Sched.waiting_loop cfg grammar fuel threshold defer ts) (fun _ x => phase2 x.1 x.2) (s, l).
Proof.
  induction fuel as [|fuel IH]; intros s l lw lk Hq Hfuel Hp; [lia|]. cbn [Sched.waiting_loop]. rewrite wp_bind, wp_gets. cbn beta iota.
  destruct (queues_len s lw lk Hq) as [-> ->]. destruct (negb (token_budget l >? 0)) eqn:Eb; [by wp_simpl|].
  set (b := negb (length lk =? 0)%nat). destruct (negb b && _) eqn:En; [by wp_simpl|].
  destruct (input_budget l <=? draft_slots cfg) eqn:Ei; [by wp_simpl|].
  destruct (_ >=? max_num_active_reqs cfg) eqn:Ea; [by wp_simpl|].
  assert (exists q rest, source b lw lk = q :: rest) as (q & rest & Hsrc).
  { unfold b in *. destruct lk as [|x lk]; [|by exists x, lk]. destruct lw as [|x lw]; [|by exists x, lw].
    cbn in En. by rewrite andb_false_r in En. }
  assert (length (rest_w b rest lw) + length (rest_k b rest lk) < fuel)%nat as Hfuel'
    by (clear -Hsrc Hfuel; clearbody b; destruct b; cbn in *; subst; cbn in *; lia).
  bools. pose proof Hp as [Hi Hs Hst Hrun]. destruct (head_request b lw lk q rest s l Hi Hq Hsrc) as (Eo & r & Hh).
  rewrite wp_bind. unfold Sched.on_sched at 1. rewrite wp_zoom. cbn [fst snd]. eapply peek_ok; [done|done|]. cbn [fst snd].
  rewrite wp_bind. unfold Sched.on_sched at 1. rewrite wp_zoom. cbn [fst snd].
  eapply wp_mono; [by eapply handle_blocked_ok|]. intros ready s1 (Hi1 & Hs1 & Hqt1 & r1 & Hh1 & Hready). cbn [fst snd].
  pose proof (quiet_queues _ _ _ _ Hqt1 Hq) as Hq1.
  assert (phase2 s1 l) as Hp1 by (eapply phase2_quiet; [exact Hp|done|done|apply Hqt1|apply Hqt1]).
  assert (wp (Sched.skip_request b ;; Sched.waiting_loop cfg grammar fuel threshold defer ts) (fun _ x => phase2 x.1 x.2) (s1, l)) as Hskip.
  { apply wp_bind. eapply wp_mono; [by eapply skip_ok|]. intros [] [s2 l2] (Hi2 & Hs2 & Er2 & Hst2 & Hq2). cbn [fst snd] in *.
    eapply IH; [exact Hq2|done|]. by eapply phase2_quiet. }
  destruct ready; cbn [negb]; [|exact Hskip]. specialize (Hready eq_refl).
  rewrite wp_bind. unfold Sched.on_sched at 1. rewrite wp_zoom. cbn [fst snd]. eapply wp_the_request; [apply Hh1|]. cbn [fst snd].
  destruct (negb (num_stale_output_tokens r1 =? 0) && _); [exact Hskip|].
  rewrite wp_bind. unfold Sched.on_sched at 1. rewrite wp_zoom. cbn [fst snd].
  eapply wp_mono; [by eapply waiting_computed_ok|].
  intros [[blocks local] nc] s2 (Hi2 & Hs2 & Hqt2 & Hnc & r2 & Hh2 & St2 & Nt2 & Nc2 & Hfrom). cbn [fst snd] in *.
  pose proof (quiet_queues _ _ _ _ Hqt2 Hq1) as Hq2.
  assert (phase2 s2 l) as Hp2 by (eapply phase2_quiet; [exact Hp1|done|done|apply Hqt2|apply Hqt2]).
  destruct (defer && _); [by wp_simpl|].
  pose proof (kv_fits_tokens _ (wt_fits _ _ _ _ (hd_waiting _ _ _ Hh1))) as [_ Hmt].
  destruct (waiting_tokens_ok r1 nc threshold l pad_whole sampled_nonneg ltac:(lia) ltac:(lia) Hnc Hmt) as (res & Eres & Hres).
  rewrite wp_bind, wp_lift. exists res. split; [exact Eres|]. destruct res as [[pad nn]|]; [|by wp_simpl].
  destruct (Hres pad nn eq_refl) as (B1 & B2 & B3 & B4).
  rewrite wp_bind. unfold Sched.on_sched at 1. rewrite wp_zoom. cbn [fst snd].
  eapply wp_mono; [eapply (waiting_slots_ok _ r2 s2 l nn local blocks nc); try done; lia|].
  intros res s3 (k3 & r3 & Es3 & Hm3 & Hf3 & Hk3 & Hfr3 & Hout). cbn [fst snd].
  destruct res as [nb|]; wp_simpl; cbn [fst snd].
  2: { subst s3. destruct (memo_fields r2 r3 Hm3) as (E1 & E2 & _). pose proof Hh2 as [H21 H22 H23 _ _ _].
    destruct (touch_queued s2 l _ r2 k3 r3 Hi2 Hs2 Hh2 Hk3 Hfr3) as (J1 & J2 & J3 & _); [congruence|congruence|done|].
    eapply phase2_quiet; [exact Hp2|exact J1|exact J2|apply J3|apply J3]. }
  assert (slots_allocated (request_id q) s2 s3 r3 (nc + nn)) as Hsa.
  { eapply (allocated_slots _ s2 l r2); try done. unfold startable. by rewrite St2. }
  eapply wp_mono; [by eapply record_ok|]. intros [] [s4 l4] (El4 & Hsa4). cbn [fst snd] in *. subst l4. apply wp_bind.
  eapply wp_mono; [eapply (admit_ok b lw lk q rest s2 l s4 r3 nc nn pad ts); try done; lia|].
  intros [] [s5 l5] (Hi5 & Hs5 & Er5 & Hst5 & Hq5). cbn [fst snd] in *. eapply IH; [exact Hq5|done|].
  destruct Hp2 as [_ _ Hst2 Hrun2]. destruct Hst5 as [_ Es5]. destruct Hqt1 as (Q1 & _ & _ & _ & Q1'), Hqt2 as (Q2 & _ & _ & _ & Q2').
  split; [done|done|by rewrite Es5|]. rewrite Er5, length_app, Q2, Q1. cbn [length]. lia.
Qed.

(** ** Requests that were skipped *)

Definition no_skips (l : StepState) : Prop := step_skipped_waiting l = [] /\ step_skipped_kv_holding l = [].

Lemma queued_nodup s l lw lk : inv [] s l -> queues s lw lk -> distinct (queued lw lk l).
Proof.
  intros Hi Hq. destruct (queues_perm s l lw lk Hi Hq) as [Hp Hf]. unfold distinct.
  assert (map obj_id (queued lw lk l) = map obj (map request_id (queued lw lk l))) as ->.
  { rewrite map_map. apply map_ext_in. intros q Hin. rewrite Forall_forall in Hf. by apply (Hf q), list_elem_of_In. }
  assert (NoDup (map request_id (queued lw lk l))) as Hn by (pose proof P_nodup as H; rewrite <- Hp in H; by apply NoDup_app in H as (_ & _ & ?)).
  assert (forall x, x ∈ map request_id (queued lw lk l) -> x ∈ P) as Hin by (intros x Hx; rewrite <- Hp; set_solver).
  clear -Hn Hin obj_inj. induction (map request_id (queued lw lk l)) as [|x xs IH]; [by constructor|]. apply NoDup_cons in Hn as [Hx Hn].
  cbn. apply NoDup_cons. split; [|apply IH; [done|intros y Hy; apply Hin; by right]].
  intros (y & E & Hy)%list_elem_of_fmap. apply Hx. rewrite (obj_inj x y); [done|apply Hin; by left|apply Hin; by right|done].
Qed.

(** A queue with the requests [rs] put in front. *)
Lemma prepend_all_ok q l0 rs : queue_ok q -> queue_iter q = Ok l0 -> distinct (rs ++ l0) ->
  wp (match rs with [] => ret tt | _ => prepend_requests rs end) (fun _ q' => queue_ok q' /\ exists l', queue_iter q' = Ok l' /\ l' ≡ₚ rs ++ l0) q.
Proof.
  intros Hq Hit Hd. destruct rs as [|r rs]; wp_simpl; [split; [done|by exists l0]|].
  destruct (law_prepend_all q l0 (r :: rs) Hq Hit Hd) as (q' & l' & E & Hq' & Hit' & Hp & _).
  eapply wp_of_run; [exact E|]. split; [done|]. by exists l'.
Qed.

Lemma wp_requeue_waiting rs (Qp : unit -> St -> Prop) x :
  wp (Sched.on_sched (Sched.on_waiting (match rs with [] => ret tt | _ => prepend_requests rs end))) Qp x ->
  wp (match rs with [] => ret tt | _ => Sched.on_sched (Sched.on_waiting (prepend_requests rs)) end) Qp x.
Proof. destruct rs, x as [s l]; [destruct s|]; intros H; exact H. Qed.
Lemma wp_requeue_holding rs (Qp : unit -> St -> Prop) x :
  wp (Sched.on_sched (Sched.on_kv_holding (match rs with [] => ret tt | _ => prepend_requests rs end))) Qp x ->
  wp (match rs with [] => ret tt | _ => Sched.on_sched (Sched.on_kv_holding (prepend_requests rs)) end) Qp x.
Proof. destruct rs, x as [s l]; [destruct s|]; intros H; exact H. Qed.

Lemma requeue_ok s l : phase2 s l ->
  wp Sched.requeue_skipped (fun _ x => x.2 = l /\ scheduled x.1 l /\ running x.1 = running s /\ same_status s x.1 /\
    forall l0, no_skips l0 -> inv [] x.1 l0) (s, l).
Proof.
  intros [Hi Hs _ _]. destruct (inv_queues_of s l Hi) as (lw & lk & Hq). pose proof Hq as (Q1 & Q2 & Q3 & Q4).
  pose proof (queued_nodup s l lw lk Hi Hq) as Hd. destruct (queues_perm s l lw lk Hi Hq) as [_ Hf].
  assert (forall a c, (exists X, queued lw lk l ≡ₚ (a ++ c) ++ X) -> distinct (a ++ c)) as Hsub.
  { intros a c [X HX]. unfold distinct in *. rewrite HX, map_app in Hd. by apply NoDup_app in Hd as (? & _). }
  unfold Sched.requeue_skipped. rewrite wp_bind, wp_gets. cbn [snd]. rewrite wp_bind.
  apply wp_requeue_holding. unfold Sched.on_sched at 1, Sched.on_kv_holding. wp_simpl. cbn [fst snd].
    eapply wp_mono; [eapply (prepend_all_ok _ _ (step_skipped_kv_holding l)); [done|done|apply Hsub; exists (lw ++ step_skipped_waiting l); unfold queued; solve_Permutation]|].
    intros [] qk (Hqk & lk' & Hitk & Hpk). apply wp_requeue_waiting. unfold Sched.on_sched, Sched.on_waiting. wp_simpl. cbn [fst snd].
    eapply wp_mono; [eapply (prepend_all_ok _ _ (step_skipped_waiting l)); [done|done|apply Hsub; exists (lk ++ step_skipped_kv_holding l); unfold queued; solve_Permutation]|].
    intros [] qw (Hqw & lw' & Hitw & Hpw). cbn [fst snd]. split_and!; try done.
    - destruct Hs as [A1 A2 A3 A4 A5 A6 A7]. split; [exact A1|exact A2|exact A3|exact A4|exact A5|exact A6|exact A7].
    - intros l0 [N1 N2]. assert (queued lw' lk' l0 ≡ₚ queued lw lk l) as HX.
      { unfold queued. rewrite N1, N2, Hpk, Hpw. solve_Permutation. }
      eapply (inv_rearranged s l _ l0 lw lk lw' lk'); try done; [by rewrite HX|]. intros q. rewrite HX. intros Hin.
      rewrite Forall_forall in Hf. by apply (Hf q).
Qed.

Lemma schedule_waiting_ok defer ts s l : phase2 s l ->
  wp (Sched.schedule_waiting cfg grammar threshold defer ts) (fun _ x => scheduled x.1 x.2 /\
    zlen (running x.1) <= max_num_running_reqs cfg /\ 0 <= num_waiting_for_streaming_input x.1 /\ forall l0, no_skips l0 -> inv [] x.1 l0) (s, l).
Proof.
  intros Hp. destruct (inv_queues_of s l (p2_inv _ _ Hp)) as (lw & lk & Hq). unfold Sched.schedule_waiting. rewrite wp_bind, wp_gets. cbn [fst].
  rewrite wp_bind. eapply wp_mono; [eapply waiting_loop_ok; [exact Hq| |done]|].
  { destruct (queues_len s lw lk Hq) as [-> ->]. lia. }
  intros [] [s1 l1] Hp1. cbn [fst snd] in *. rewrite wp_bind. eapply wp_mono; [by apply requeue_ok|].
  intros [] [s2 l2] (El & Hs2 & Er & [_ Est] & Hi2). cbn [fst snd] in *. subst l2. pose proof (p2_running _ _ Hp1) as Hrun. rewrite <- Er in Hrun.
  pose proof (p2_streaming _ _ Hp1) as Hstr. rewrite <- Est in Hstr.
  destruct defer; unfold Sched.on_sched; wp_simpl; cbn [fst snd]; [done|]. split_and!; [|done|done|].
  - destruct Hs2 as [A1 A2 A3 A4 A5 A6 A7]. split; [exact A1|exact A2|exact A3|exact A4|exact A5|exact A6|exact A7].
  - intros l0 H0. destruct (Hi2 l0 H0) as [A1 A2 A3 A4 A5 A6]. split; [exact A1|exact A2|exact A3|exact A4|exact A5|exact A6].
Qed.
End waiting.
