(* ===== verification/SchedulerStep.v ===== *)
(** The whole scheduling step ([Scheduler.schedule] of
    [vllm/v1/core/sched/scheduler.py]): both phases, the final checks, the
    output and the update of the scheduled requests. *)
From Stdlib Require Import ZArith Lia Strings.String.
From stdpp Require Import base numbers list gmap strings.
From S2P Require Import Prelude Request RequestQueue BlockHash KVCacheManager Scheduler SchedulerSafety SchedulerWaiting.
Open Scope Z_scope.
Local Arguments py_get : simpl never.
Local Arguments Z.of_nat : simpl never.

(** The configurations the step is verified for: nonnegative budgets, a batch
    limit within the runner's slots, a draft table for every batch size, and no
    threshold that would cut a padded decode. *)
Record sched_config_ok (cfg : SchedulerConfig) : Prop := {
  sco_running : 0 <= max_num_running_reqs cfg;
  sco_tokens : 0 <= max_num_scheduled_tokens cfg;
  sco_batched : 0 <= max_num_batched_tokens cfg;
  sco_drafts : 0 <= draft_slots cfg;
  sco_lookahead : 0 <= num_lookahead_tokens cfg;
  sco_sampled : 0 <= num_sampled_tokens_per_step cfg;
  sco_active : max_num_active_reqs cfg <= max_num_running_reqs cfg;
  sco_threshold : long_prefill_token_threshold cfg <= 0 \/ num_spec_tokens cfg < long_prefill_token_threshold cfg;
  sco_lookup : forall lookup, dynamic_sd_lookup cfg = Some lookup -> max_num_running_reqs cfg < zlen lookup
}.

(** * Scheduled requests advance *)

Section advance.
Context {K : Type} `{!KVOps K} (cfg : SchedulerConfig) `{!KVLaws K (sched_max_model_len cfg)} (fl : string -> Z * Z).
Abbreviation max_len := (sched_max_model_len cfg).
Abbreviation covers := (kv_covers (max_len := max_len)).

Definition advanced (d : list (string * Z)) (m : gmap string Request) : gmap string Request :=
  foldl (fun m kv => alter (Sched.advance kv.2) kv.1 m) m d.
Lemma advanced_other d id m : id ∉ d.*1 -> advanced d m !! id = m !! id.
Proof.
  revert m. induction d as [|[x n] d IH]; intros m Hn; [done|]. cbn in *. apply not_elem_of_cons in Hn as [Hne Hn].
  unfold advanced in *. cbn. rewrite IH by done. by apply lookup_alter_ne.
Qed.
Lemma advanced_one d id n m : NoDup d.*1 -> (id, n) ∈ d -> advanced d m !! id = Sched.advance n <$> m !! id.
Proof.
  revert m. induction d as [|[x n'] d IH]; intros m Hd Hin; [by apply not_elem_of_nil in Hin|]. cbn in Hd. apply NoDup_cons in Hd as [Hx Hd].
  unfold advanced in *. cbn. apply elem_of_cons in Hin as [[= <- <-]|Hin].
  - fold (advanced d (alter (Sched.advance n) id m)). rewrite advanced_other by done. apply lookup_alter_eq.
  - assert (x <> id) as Hne by (intros ->; apply Hx, list_elem_of_fmap; by exists (id, n)). rewrite IH by done. by rewrite lookup_alter_ne.
Qed.

(** The tokens in flight once the tokens of [d] are. *)
Definition flown (d : list (string * Z)) (id : string) : Z * Z := ((fl id).1, (fl id).2 + dict_sum (filter (fun kv => kv.1 = id) d)).
Lemma flown_other d id : id ∉ d.*1 -> flown d id = fl id.
Proof.
  intros Hn. unfold flown. replace (filter (fun kv => kv.1 = id) d) with (@nil (string * Z)); [cbn; rewrite Z.add_0_r; by destruct (fl id)|].
  symmetry. apply filter_none. intros kv Hin E. apply Hn, list_elem_of_fmap. by exists kv.
Qed.
Lemma flown_one d id n : NoDup d.*1 -> (id, n) ∈ d -> flown d id = ((fl id).1, (fl id).2 + n).
Proof.
  unfold flown. intros Hd (d1 & d2 & ->)%list_elem_of_split. rewrite fmap_app in Hd. apply NoDup_app in Hd as (_ & Hx & Hd).
  cbn in Hx, Hd. apply NoDup_cons in Hd as [Hn2 _]. assert (id ∉ d1.*1) as Hn1 by (intros Hin; apply (Hx id Hin); set_solver).
  assert (forall d' : list (string * Z), id ∉ d'.*1 -> filter (fun kv => kv.1 = id) d' = []) as Hnil
    by (intros d' Hd'; apply filter_none; intros kv Hin E; apply Hd', list_elem_of_fmap; by exists kv).
  rewrite filter_app, filter_cons_True, (Hnil d1 Hn1), (Hnil d2 Hn2) by done. cbn. f_equal. lia.
Qed.

Lemma advance_running_ok d k r n : running_ok cfg fl k r -> 0 < n -> flown d (request_id r) = ((fl (request_id r)).1, (fl (request_id r)).2 + n) ->
  covers k (request_id r) (num_computed_tokens r + n) -> num_computed_tokens r + n <= max_len -> running_ok cfg (flown d) k (Sched.advance n r).
Proof.
  intros [] Hn Hf Hc Hm. split; try done; [by eapply (kv_fits_content r)|cbn; lia|]. destruct rn_order as [O1 O2 O3 [S1 S2 S3 S4] O5].
  split; change (request_id (Sched.advance n r)) with (request_id r); rewrite ?Hf; cbn; [by rewrite O1|done|done|by split|done].
Qed.
Lemma in_order_agree fl1 fl2 r : fl2 (request_id r) = fl1 (request_id r) -> in_order fl1 r -> in_order fl2 r.
Proof. intros E [H1 H2 H3 H4 H5]. split; try done; by rewrite E. Qed.
Lemma running_ok_agree fl1 fl2 k r : fl2 (request_id r) = fl1 (request_id r) -> running_ok cfg fl1 k r -> running_ok cfg fl2 k r.
Proof. intros E []. split; try done. by eapply in_order_agree. Qed.
Lemma waiting_ok_agree fl1 fl2 k r : fl2 (request_id r) = fl1 (request_id r) -> waiting_ok cfg fl1 k r -> waiting_ok cfg fl2 k r.
Proof. intros E []. split; try done. by eapply in_order_agree. Qed.

End advance.

Section step.
Context {Q K : Type} `{!RequestQueue Q, !RequestQueueLaws Q} `{!KVOps K} (cfg : SchedulerConfig)
  `{!KVLaws K (sched_max_model_len cfg)} (grammar : string -> option bool) (fl : string -> Z * Z) (P : list string) (obj : string -> Z).
Hypothesis P_nodup : NoDup P.
Hypothesis obj_inj : forall a b, a ∈ P -> b ∈ P -> obj a = obj b -> a = b.
Hypothesis fl_settled : forall id, 0 <= (fl id).2 <= (fl id).1.
Hypothesis config_ok : sched_config_ok cfg.
Abbreviation S := (Scheduler Q K).
Abbreviation St := (Scheduler Q K * StepState)%type.
Abbreviation max_len := (sched_max_model_len cfg).
Abbreviation kv s := (kv_cache_manager s).
Abbreviation covers := (kv_covers (max_len := max_len)).
Abbreviation same := (kv_same (max_len := max_len)).
Abbreviation inv := (inv cfg fl P obj).
Abbreviation scheduled := (scheduled cfg).
Abbreviation flown := (flown fl).

(** The state between two steps. *)
Record sched_ok (fl : string -> Z * Z) (s : S) : Prop := {
  so_inv : SchedulerSafety.inv cfg fl P obj [] s (Sched.new_step cfg s);
  so_streaming : 0 <= num_waiting_for_streaming_input s;
  so_running : zlen (running s) <= max_num_running_reqs cfg
}.

Lemma inv_no_skips s l l0 : no_skips l -> no_skips l0 -> inv [] s l -> inv [] s l0.
Proof.
  intros [E1 E2] [F1 F2] [A1 A2 A3 (lw & lk & Q1 & Q2 & Q3 & Q4 & Hp & Hq) Hoth Hdom]. split; try done. exists lw, lk.
  unfold queued in *. rewrite E1, E2 in *. rewrite F1, F2. done.
Qed.
Lemma effective_uncut n : pad_uncut cfg (Sched.effective_threshold cfg n).
Proof.
  pose proof (sco_threshold _ config_ok). unfold pad_uncut, Sched.effective_threshold.
  destruct (n >? 1); [|by left]. case_match; bools; lia.
Qed.

(** ** The two phases *)

Lemma start_ok s : sched_ok fl s -> phase1 cfg fl P obj 0 s (Sched.new_step cfg s).
Proof.
  intros [Hi _ _]. pose proof (sco_tokens _ config_ok). pose proof (sco_batched _ config_ok). split_and!; [done| |].
  - split; cbn; try done; [by constructor|set_solver|set_solver|case_match; lia].
  - split; [done|]. cbn. set_solver.
Qed.

Lemma scheduled_length (s : S) l : scheduled s l -> (length (num_scheduled_tokens l) <= length (running s))%nat.
Proof.
  intros [H1 H2 _ _ _ _]. rewrite <- (length_fmap fst). apply submseteq_length, NoDup_submseteq; [done|].
  intros x ([y n] & -> & Hin)%list_elem_of_fmap. by apply (H2 y n).
Qed.

Lemma schedule_requests_ok throttle ts s : sched_ok fl s ->
  wp (Sched.schedule_requests cfg grammar throttle ts) (fun _ x => scheduled x.1 x.2 /\
    zlen (running x.1) <= max_num_running_reqs cfg /\ 0 <= num_waiting_for_streaming_input x.1 /\
    forall l0, no_skips l0 -> inv [] x.1 l0) (s, Sched.new_step cfg s).
Proof.
  intros Hs. pose proof config_ok as [C1 C2 C3 C4 C5 C6 C7 C8]. unfold Sched.schedule_requests. rewrite wp_bind, wp_gets. cbn [fst].
  rewrite wp_bind. eapply wp_mono; [eapply (running_loop_ok cfg fl P obj P_nodup obj_inj fl_settled); try done; [lia|by apply start_ok]|].
  intros [] [s1 l1] ((i & Hi1 & Hs1 & Hf1) & Hst1 & Hlen1 & Hw1 & Hk1). cbn [fst snd] in *.
  assert (no_skips l1) as Hns by done. pose proof (so_running _ _ Hs) as Hrun. pose proof (so_streaming _ _ Hs) as Hstr.
  assert (zlen (running s1) <= max_num_running_reqs cfg) as Hrun1 by lia.
  rewrite wp_bind, wp_gets, wp_bind. cbn [fst snd].
  assert (forall m : M St unit, wp m (fun _ x => scheduled x.1 x.2 /\ zlen (running x.1) <= max_num_running_reqs cfg /\
    0 <= num_waiting_for_streaming_input x.1 /\ forall l0, no_skips l0 -> inv [] x.1 l0) (s1, l1) ->
    wp m (fun _ => wp (let! x := gets (fun x => x) in let '(s, l) := x in
      assert_ (dict_sum (num_scheduled_tokens l) <=? max_num_scheduled_tokens cfg) ;; assert_ (token_budget l >=? 0) ;;
      assert_ (input_budget l >=? 0) ;; assert_ (zlen (running s) <=? max_num_running_reqs cfg) ;;
      assert_ (zlen (scheduled_new_reqs l) + zlen (scheduled_resumed_reqs l) + zlen (scheduled_running_reqs l) <=? zlen (running s)))
    (fun _ x => scheduled x.1 x.2 /\ zlen (running x.1) <= max_num_running_reqs cfg /\
      0 <= num_waiting_for_streaming_input x.1 /\ forall l0, no_skips l0 -> inv [] x.1 l0)) (s1, l1)) as Hend.
  { intros m Hm. eapply wp_mono; [exact Hm|]. intros [] [s2 l2] (Hs2 & Hr2 & Hn2 & Hi2). cbn [fst snd] in *.
    pose proof (sc_budget _ _ _ Hs2) as Hb. pose proof (sc_input _ _ _ Hs2) as Hin. pose proof (scheduled_length s2 l2 Hs2) as Hl.
    pose proof (Permutation_length (sc_parts _ _ _ Hs2)) as Hpl. rewrite length_fmap, !length_app in Hpl.
    wp_simpl. split_and!; try done; try lia. }
  apply Hend. destruct (_ && _); [|wp_simpl; cbn [fst snd]; split_and!; try done; [by rewrite (proj2 Hst1)|intros l0 H0; by apply (inv_no_skips s1 l1)]].
  destruct Hst1 as [Hps1 Hstr1].
  eapply wp_mono; [eapply (schedule_waiting_ok cfg grammar fl P obj P_nodup obj_inj); try done; [apply effective_uncut|]|].
  - split; [done|done|by rewrite Hstr1|done].
  - by intros [] [s2 l2] (A1 & A2 & A3 & A4).
Qed.

(** ** The output *)

Lemma scheduled_known s l id : scheduled s l -> inv [] s (Sched.new_step cfg s) -> id ∈ (num_scheduled_tokens l).*1 ->
  is_Some (requests s !! id) /\ is_Some (req_to_new_blocks l !! id).
Proof.
  intros Hs Hi Hin. split; [|by apply (sc_blocks _ _ _ Hs)]. apply list_elem_of_fmap in Hin as ([x n] & -> & Hin). cbn.
  destruct (inv_lookup cfg fl P obj [] s _ x Hi) as (r & -> & _); [|by eexists].
  apply (inv_member cfg fl P obj [] s _ x Hi). rewrite app_nil_r. by apply (sc_each _ _ _ Hs x n).
Qed.

Lemma cached_data_ok s l resumed : scheduled s l -> inv [] s (Sched.new_step cfg s) ->
  (forall id, id ∈ scheduled_running_reqs l ++ resumed -> id ∈ (num_scheduled_tokens l).*1) ->
  exists d, Sched.make_cached_request_data cfg s l resumed = Ok d /\ req_ids d = scheduled_running_reqs l ++ resumed.
Proof.
  intros Hs Hi Hall. unfold Sched.make_cached_request_data.
  set (all := map (fun id => (id, false)) (scheduled_running_reqs l) ++ map (fun id => (id, true)) resumed).
  assert (all.*1 = scheduled_running_reqs l ++ resumed) as Eall.
  { unfold all. rewrite fmap_app. f_equal; rewrite <- list_fmap_compose; apply list_fmap_id. }
  assert (Forall (fun x => x.1 ∈ (num_scheduled_tokens l).*1) all) as Hf.
  { apply Forall_forall. intros x Hx. apply Hall. rewrite <- Eall. apply list_elem_of_fmap. by exists x. }
  rewrite <- Eall. clearbody all. clear Hall Eall. set (d0 := mkCached [] ∅ [] ∅ [] [] []). change (all.*1) with (req_ids d0 ++ all.*1).
  clearbody d0. revert d0. induction Hf as [|[id b] all Hid _ IH]; intros d0; [exists d0; split; [done|]; cbn; by rewrite app_nil_r|].
  cbn [foldl fst] in *. destruct (scheduled_known s l id Hs Hi Hid) as [[r Er] [bl Ebl]]. cbn [obind]. rewrite Er, Ebl. cbn [or_raise obind].
  apply list_elem_of_fmap in Hid as (kv0 & Ekv & Hin).
  destruct (list_find_elem_of (fun kv => kv.1 = id) _ kv0 Hin (eq_sym Ekv)) as [[i kv1] Ef]. rewrite Ef. cbn [fmap option_fmap option_map or_raise obind snd].
  match goal with |- exists d, foldl _ (Ok ?d1) _ = _ /\ _ => destruct (IH d1) as (d & -> & Ed) end. exists d. split; [done|].
  rewrite Ed. cbn. by rewrite <- app_assoc.
Qed.
Lemma new_data_ok s l ids : scheduled s l -> inv [] s (Sched.new_step cfg s) -> (forall id, id ∈ ids -> id ∈ (num_scheduled_tokens l).*1) ->
  exists d, Sched.new_request_data cfg s l ids = Ok d /\ map (fun x => Some (new_request_of x)) d = map (fun id => requests s !! id) ids.
Proof.
  intros Hs Hi. induction ids as [|id ids IH]; intros Hall; [by exists []|]. destruct IH as (d & Ed & Em); [set_solver|].
  destruct (scheduled_known s l id Hs Hi) as [[r Er] [bl Ebl]]; [set_solver|]. unfold Sched.new_request_data in *. cbn [foldr]. rewrite Ed, Er, Ebl.
  cbn [or_raise obind]. eexists. split; [done|]. cbn. by rewrite Em, Er.
Qed.

(** ** The scheduled requests advance *)

Lemma advance_ok d (s : S) : NoDup d.*1 -> (forall id, id ∈ d.*1 -> is_Some (requests s !! id)) ->
  wp (Sched.update_after_schedule d) (fun _ (s' : S) => running s' = running s /\ waiting s' = waiting s /\ kv_holding_waiting s' = kv_holding_waiting s /\
    kv s' = kv s /\ num_waiting_for_streaming_input s' = num_waiting_for_streaming_input s /\ requests s' = advanced d (requests s)) s.
Proof.
  intros Hd Hkn. unfold Sched.update_after_schedule. wp_simpl.
  eapply (wp_fold _ _ _ (fun done todo _ (s' : S) => running s' = running s /\ waiting s' = waiting s /\
    kv_holding_waiting s' = kv_holding_waiting s /\ kv s' = kv s /\
    num_waiting_for_streaming_input s' = num_waiting_for_streaming_input s /\ requests s' = advanced done (requests s))); [done| |by wp_simpl].
  intros done [id n] todo b s' Ed (Er & Ew & Ekh & Ek & Es & Em). cbn [fst snd].
  assert (id ∉ done.*1) as Hnd.
  { rewrite Ed, fmap_app in Hd. apply NoDup_app in Hd as (_ & Hd & _). intros Hx. apply (Hd id Hx). cbn. set_solver. }
  destruct (Hkn id) as [r Hr]; [rewrite Ed, fmap_app; cbn; set_solver|].
  assert (requests s' !! id = Some r) as Hr' by (by rewrite Em, advanced_other). wp_simpl. eapply wp_the_request; [done|]. wp_simpl.
  unfold Sched.update_request. wp_simpl. rewrite (alter_some _ id _ r Hr'). eapply wp_the_request; [apply lookup_insert_eq|].
  assert (<[id := Sched.advance n r]> (requests s') = advanced (done ++ [(id, n)]) (requests s)) as Em2.
  { unfold advanced. rewrite foldl_app. fold (advanced done (requests s)). rewrite <- Em. cbn. by rewrite (alter_some _ id _ r). }
  destruct (is_prefill_chunk _); wp_simpl; by split_and!.
Qed.

Lemma update_after_ok s l : scheduled s l -> inv [] s (Sched.new_step cfg s) ->
  wp (Sched.update_after_schedule (num_scheduled_tokens l)) (fun _ s' =>
    SchedulerSafety.inv cfg (flown (num_scheduled_tokens l)) P obj [] s' (Sched.new_step cfg s') /\ running s' = running s /\
    kv s' = kv s /\ num_waiting_for_streaming_input s' = num_waiting_for_streaming_input s /\
    requests s' = advanced (num_scheduled_tokens l) (requests s)) s.
Proof.
  intros [H1 H2 _ _ _ _ _] Hi.
  assert (forall id n, (id, n) ∈ num_scheduled_tokens l -> id ∈ P) as HP.
  { intros id n Hin. apply (inv_member cfg fl P obj [] s _ id Hi). rewrite app_nil_r. by apply (H2 id n). }
  eapply wp_mono; [apply advance_ok; [done|]|].
  { intros id ([x n] & -> & Hin)%list_elem_of_fmap. cbn. destruct (inv_lookup cfg fl P obj [] s _ x Hi (HP x n Hin)) as (r & -> & _). by eexists. }
  intros b s' (Er & Ew & Ekh & Ek & Es & Em). split_and!; try done. 
  assert (SchedulerSafety.inv cfg (flown (num_scheduled_tokens l)) P obj [] s' (Sched.new_step cfg s)) as [A1 A2 A3 A4 A5 A6];
    [|split; [exact A1|exact A2|exact A3|exact A4|exact A5|exact A6]].
  eapply (inv_objects cfg fl); try done; [rewrite Ek; apply Hi| |by rewrite Ek|].
  { rewrite Em. intros id [r' E]. destruct (decide (id ∈ (num_scheduled_tokens l).*1)) as [Hin|Hn]; [|rewrite advanced_other in E by done; by eexists].
    apply list_elem_of_fmap in Hin as ([x n] & -> & Hin). cbn in *. rewrite (advanced_one _ x n) in E by done. by apply fmap_Some in E as (? & -> & _). } rewrite Ek, Em, app_nil_r. intros id r Hid E Ei.
  destruct (decide (id ∈ (num_scheduled_tokens l).*1)) as [Hin|Hn].
  - apply list_elem_of_fmap in Hin as ([x n] & -> & Hin). cbn [fst] in *. destruct (H2 x n Hin) as (Hrun & Hn & Hcov). destruct (Hcov r E) as [Hc Hm].
    exists (Sched.advance n r). rewrite (advanced_one _ x n), E by done. split_and!; try done. intros _ Hro.
    apply (advance_running_ok cfg fl); [done|done|rewrite Ei; by apply flown_one|by rewrite Ei|done].
  - exists r. rewrite advanced_other by done. split_and!; try done; intros _.
    + apply running_ok_agree. rewrite Ei. by apply flown_other.
    + apply waiting_ok_agree. rewrite Ei. by apply flown_other.
Qed.

(** ** The step *)

Lemma inv_same_kv s l k' : inv [] s l -> kv_ok (max_len := max_len) k' -> same (kv s) k' -> inv [] (set_kv k' s) l.
Proof.
  intros [A1 A2 A3 (lw & lk & Q1 & Q2 & Q3 & Q4 & Hp & Hq) Hoth Hdom] Hk Hsame. split; try done.
  - intros id r Hin E. eapply (running_ok_same cfg fl (kv s)); [done|by eapply A3].
  - exists lw, lk. split_and!; try done. eapply Forall_impl; [exact Hq|]. intros q [Ho Hw]. split; [done|]. intros r E.
    eapply (waiting_ok_same cfg fl (kv s)); [done|by apply Hw].
  - intros id Hn. by apply Hsame, Hoth.
Qed.
Lemma scheduled_same_kv (s : S) l k' : scheduled s l -> same (kv s) k' -> scheduled (set_kv k' s) l.
Proof.
  intros [H1 H2 H3 H4 H5 H6 H7] Hsame. split; try done. intros id n Hin. destruct (H2 id n Hin) as (R1 & R2 & R3). split_and!; try done.
  intros r E. destruct (R3 r E). split; [|done]. by apply Hsame.
Qed.

(** What a step guarantees of its output [out] and the state [s'] it leaves. *)
Record step_result (out : SchedulerOutput) (s' : S) : Prop := {
  sr_ok : sched_ok (flown (out_num_scheduled_tokens out)) s';
  sr_total : out_total_num_scheduled_tokens out = dict_sum (out_num_scheduled_tokens out) /\
    out_total_num_scheduled_tokens out <= max_num_scheduled_tokens cfg;
  sr_each : forall id n, (id, n) ∈ out_num_scheduled_tokens out -> 0 < n /\ id ∈ running s' /\
    exists r, requests s' !! id = Some r /\ n <= num_computed_tokens r <= max_len /\ covers (kv s') id (num_computed_tokens r);
  sr_drafts : forall id d, out_spec_decode_tokens out !! id = Some d -> exists n r,
    (id, n) ∈ out_num_scheduled_tokens out /\ requests s' !! id = Some r /\ zlen d <= num_computed_tokens r;
  sr_reported : NoDup (out_num_scheduled_tokens out).*1 /\
    (out_num_scheduled_tokens out).*1 ≡ₚ map (fun x => request_id (new_request_of x)) (out_new_reqs out) ++ req_ids (out_cached_reqs out)
}.

Definition new_ids (l : StepState) : list string :=
  if use_v2_model_runner cfg then scheduled_new_reqs l ++ scheduled_resumed_reqs l else scheduled_new_reqs l.
Definition resumed_ids (l : StepState) : list string := if use_v2_model_runner cfg then [] else scheduled_resumed_reqs l.

(** The output reports every scheduled request once. *)
Lemma output_ok s l : scheduled s l -> inv [] s (Sched.new_step cfg s) -> exists new cached,
  Sched.new_request_data cfg s l (new_ids l) = Ok new /\ Sched.make_cached_request_data cfg s l (resumed_ids l) = Ok cached /\
  (num_scheduled_tokens l).*1 ≡ₚ map (fun x => request_id (new_request_of x)) new ++ req_ids cached.
Proof.
  intros Hs Hi. assert ((num_scheduled_tokens l).*1 ≡ₚ new_ids l ++ scheduled_running_reqs l ++ resumed_ids l) as Hp.
  { rewrite (sc_parts _ _ _ Hs). unfold new_ids, resumed_ids. destruct (use_v2_model_runner cfg); solve_Permutation. }
  destruct (new_data_ok s l (new_ids l) Hs Hi) as (new & En & Em); [intros id Hid; rewrite Hp; set_solver|].
  destruct (cached_data_ok s l (resumed_ids l) Hs Hi) as (cached & Ec & Er); [intros id Hid; rewrite Hp; set_solver|].
  exists new, cached. split_and!; try done. rewrite Er, Hp. f_equiv. apply reflexive_eq.
  assert (forall id, id ∈ new_ids l -> id ∈ P) as HP.
  { intros id Hid. assert (id ∈ (num_scheduled_tokens l).*1) as Hk by (rewrite Hp; set_solver).
    apply list_elem_of_fmap in Hk as ([x n] & -> & Hin). apply (inv_member cfg fl P obj [] s _ _ Hi). rewrite app_nil_r. by apply (sc_each _ _ _ Hs x n). }
  clear -Em HP Hi. revert new Em. induction (new_ids l) as [|id ids IH]; intros [|x new] Em; try done. cbn in *. injection Em as E1 E2.
  destruct (inv_lookup cfg fl P obj [] s _ id Hi) as (r & Hr & Ei & _); [apply HP; by left|]. f_equal; [congruence|]. apply IH; [set_solver|done].
Qed.

(** What is left of the step after the phases. *)
Lemma finish_ok s l out s' :
  scheduled s l -> inv [] s (Sched.new_step cfg s) -> zlen (running s) <= max_num_running_reqs cfg -> 0 <= num_waiting_for_streaming_input s ->
  SchedulerSafety.inv cfg (flown (num_scheduled_tokens l)) P obj [] s' (Sched.new_step cfg s') -> running s' = running s -> kv s' = kv s ->
  num_waiting_for_streaming_input s' = num_waiting_for_streaming_input s ->
  requests s' = advanced (num_scheduled_tokens l) (requests s) -> out_num_scheduled_tokens out = num_scheduled_tokens l ->
  out_spec_decode_tokens out = scheduled_spec_decode_tokens l ->
  out_total_num_scheduled_tokens out = dict_sum (num_scheduled_tokens l) ->
  (num_scheduled_tokens l).*1 ≡ₚ map (fun x => request_id (new_request_of x)) (out_new_reqs out) ++ req_ids (out_cached_reqs out) ->
  step_result out s'.
Proof.
  intros [H1 H2 _ _ H5 _ H7] Hi Hrun Hstr Hi' Er Ek Es Em Eo Esp Et Hp.
  assert (forall id n, (id, n) ∈ num_scheduled_tokens l -> exists r, requests s !! id = Some r /\
    requests s' !! id = Some (Sched.advance n r)) as Hadv.
  { intros id n Hin. destruct (inv_lookup cfg fl P obj [] s _ id Hi) as (r & Hr & _);
      [apply (inv_member cfg fl P obj [] s _ id Hi); rewrite app_nil_r; by apply (H2 id n)|].
    exists r. split; [done|]. by rewrite Em, (advanced_one _ id n), Hr by done. }
  split.
  - rewrite Eo. split; [done|by rewrite Es|by rewrite Er].
  - rewrite Eo, Et. split; [done|lia].
  - rewrite Eo. intros id n Hin. destruct (H2 id n Hin) as (R1 & R2 & R3). rewrite Er, Ek. split_and!; [done|done|].
    destruct (Hadv id n Hin) as (r & Hr & Hr'). destruct (R3 r Hr) as [Hc Hm]. exists (Sched.advance n r). split; [done|]. cbn.
    assert (0 <= num_computed_tokens r) by (eapply (iv_running _ _ _ _ _ _ _ Hi id); [by rewrite app_nil_r|done]). split; [lia|done].
  - rewrite Eo, Esp. intros id d E. destruct (H7 id d E) as (n & Hin & Hle). destruct (Hadv id n Hin) as (r & Hr & Hr').
    exists n, (Sched.advance n r). split_and!; try done. cbn. by apply Hle.
  - by rewrite Eo.
Qed.

Lemma copies_ok k : kv_ok (max_len := max_len) k ->
  wp kv_take_block_copies (fun copied k1 => wp (match copied.1 with [] => ret tt | _ => kv_free_blocks copied.2 end)
    (fun _ k2 => kv_ok (max_len := max_len) k2 /\ same k k2) k1) k.
Proof. intros Hk. pose proof (law_copies (max_len := max_len) k Hk) as H. by rewrite wp_bind in H. Qed.
Lemma same_trans k1 k2 k3 : same k1 k2 -> same k2 k3 -> same k1 k3.
Proof. intros A B id. destruct (A id), (B id). split; auto. Qed.

Lemma run_phases throttle ts s : sched_ok fl s ->
  wp (fun s => match Sched.schedule_requests cfg grammar throttle ts (s, Sched.new_step cfg s) with
      | (Ok _, (s', l)) => (Ok l, s')
      | (Raise e, (s', _)) => (Raise e, s')
      end) (fun l s' => scheduled s' l /\ zlen (running s') <= max_num_running_reqs cfg /\ 0 <= num_waiting_for_streaming_input s' /\
    inv [] s' (Sched.new_step cfg s')) s.
Proof.
  intros Hs. pose proof (schedule_requests_ok throttle ts s Hs) as H. unfold wp in *.
  destruct (Sched.schedule_requests cfg grammar throttle ts (s, Sched.new_step cfg s)) as [[[]|] [s1 l1]]; [|done].
  cbn in H. destruct H as (A1 & A2 & A3 & A4). split_and!; try done. by apply A4.
Qed.

Lemma spec_tokens_ok (s : S) l : scheduled s l -> zlen (running s) <= max_num_running_reqs cfg -> exists n,
  match dynamic_sd_lookup cfg, num_scheduled_tokens l with
  | Some lookup, _ :: _ => or_raise (py_get lookup (zlen (num_scheduled_tokens l))) IndexError
  | _, _ => Ok (num_spec_tokens cfg)
  end = Ok n.
Proof.
  intros Hs Hrun. pose proof (scheduled_length s l Hs) as Hl. destruct (dynamic_sd_lookup cfg) as [lookup|] eqn:E; [|by eexists].
  pose proof (sco_lookup _ config_ok lookup E) as Hlen. destruct (num_scheduled_tokens l) as [|x d]; [by eexists|].
  rewrite py_get_nat. destruct (lookup_lt_is_Some_2 lookup (length (x :: d))) as [n En]; [lia|]. exists n. by rewrite En.
Qed.

Lemma step_ok throttle ts s : sched_ok fl s -> wp (Sched.schedule cfg grammar throttle ts) step_result s.
Proof.
  intros Hs. unfold Sched.schedule. rewrite wp_bind, wp_modify, wp_bind. eapply wp_mono; [apply run_phases|].
  { destruct Hs as [[A1 A2 A3 A4 A5 A6] B C]. split; [split; [exact A1|exact A2|exact A3|exact A4|exact A5|exact A6]|exact B|exact C]. }
  intros l s1 (Hs1 & Hrun1 & Hstr1 & Hi1). rewrite wp_bind, wp_gets, wp_bind.
  assert (wp (match running s1 with [] => ret (replicate (kv_num_groups (kv s1)) 0) | id :: _ => Sched.on_kv (kv_get_num_common_prefix_blocks id) end)
    (fun _ s2 => exists k2, s2 = set_kv k2 s1 /\ kv_ok (max_len := max_len) k2 /\ same (kv s1) k2) s1) as Hcommon.
  { destruct (running s1); [wp_simpl; exists (kv s1); split_and!; [by destruct s1|apply Hi1|done]|]. unfold Sched.on_kv. wp_simpl.
    eapply wp_mono; [apply (law_common (max_len := max_len)), Hi1|]. intros res k2 []. by exists k2. }
  eapply wp_mono; [exact Hcommon|]. intros common s2 (k2 & -> & Hk2 & Hsame2). rewrite wp_bind, wp_gets, wp_bind, wp_lift.
  set (s2 := set_kv k2 s1). assert (scheduled s2 l) as Hs2 by (by apply scheduled_same_kv).
  assert (inv [] s2 (Sched.new_step cfg s2)) as Hi2 by (by apply inv_same_kv).
  destruct (output_ok s2 l Hs2 Hi2) as (new & cached & En & Ec & Hp). exists new. split; [exact En|]. rewrite wp_bind, wp_lift.
  exists cached. split; [exact Ec|]. rewrite wp_bind.
  assert (forall m : M S unit, m = (if use_v2_model_runner cfg then ret tt else modify (fun s => set_ids (finished_req_ids s)
      (reset_preempted_req_ids s) (list_to_set (num_scheduled_tokens l).*1) (grammar_compile_error_reqs s) s)) ->
    wp m (fun _ s3 => requests s3 = requests s2 /\ running s3 = running s2 /\ kv s3 = kv s2 /\ scheduled s3 l /\
      num_waiting_for_streaming_input s3 = num_waiting_for_streaming_input s2 /\ inv [] s3 (Sched.new_step cfg s3)) s2) as Hids.
  { intros m ->. destruct (use_v2_model_runner cfg); wp_simpl; split_and!; try done.
    - destruct Hs2 as [A1 A2 A3 A4 A5 A6 A7]. split; [exact A1|exact A2|exact A3|exact A4|exact A5|exact A6|exact A7].
    - destruct Hi2 as [A1 A2 A3 A4 A5 A6]. split; [exact A1|exact A2|exact A3|exact A4|exact A5|exact A6]. }
  eapply wp_mono; [apply Hids; reflexivity|]. intros [] s3 (E31 & E32 & E33 & Hs3 & E34 & Hi3). clear Hids Hcommon.
  rewrite wp_bind. unfold Sched.on_kv at 1. rewrite wp_zoom. eapply wp_mono; [apply copies_ok, Hi3|].
  intros copied k3 Hcop. rewrite wp_bind.
  assert (wp (match copied.1 with [] => ret tt | _ => Sched.on_kv (kv_free_blocks copied.2) end)
    (fun _ s4 => exists k4, s4 = set_kv k4 s3 /\ kv_ok (max_len := max_len) k4 /\ same (kv s3) k4) (set_kv k3 s3)) as Hfree.
  { destruct copied as [[|c cs] ends]; cbn [fst snd] in *; [apply wp_ret in Hcop; apply wp_ret; by exists k3|].
    unfold Sched.on_kv. apply wp_zoom. eapply wp_mono; [exact Hcop|]. intros [] k4 []. by exists k4. }
  eapply wp_mono; [exact Hfree|]. intros [] s4 (k4 & -> & Hk4 & Hsame4). clear Hfree. rewrite wp_bind, wp_lift.
  destruct (spec_tokens_ok s2 l Hs2 Hrun1) as [spec Espec]. exists spec. split; [exact Espec|].
  rewrite wp_bind, wp_gets, wp_bind. unfold Sched.on_kv at 1. rewrite wp_zoom.
  eapply wp_mono; [by apply (law_new_ids (max_len := max_len))|]. intros zero k5 (Hk5 & Hsame5). rewrite wp_bind.
  set (s5 := set_kv k5 _). assert (same (kv s3) k5) as Hsame35 by (by eapply same_trans).
  assert (scheduled s5 l) as Hs5 by (by apply (scheduled_same_kv s3)).
  assert (inv [] s5 (Sched.new_step cfg s5)) as Hi5 by (by apply (inv_same_kv s3)).
  eapply wp_mono; [by apply update_after_ok|]. intros structured s6 (Hi6 & Er6 & Ek6 & Es6 & Em6). rewrite wp_ret.
  eapply (finish_ok s5 l); try done; cbn [running num_waiting_for_streaming_input s5 set_kv]; [by rewrite E32|by rewrite E34].
Qed.

End step.
