(* ===== verification/SchedulerUpdate.v ===== *)
(** Results of a model step and the end of requests
    ([Scheduler.update_from_output], [Scheduler.finish_requests] and
    [Scheduler.update_draft_token_ids] of [vllm/v1/core/sched/scheduler.py]),
    and the engine's step around them ([vllm/v1/engine/core.py]).  As for the
    scheduling step there are no connectors, encoder inputs, streaming sessions or
    deferred frees; statistics, logprobs, sampling masks and the per-client sets of
    finished ids are only passed on by the code and are left out. *)
From Stdlib Require Import ZArith Lia Strings.String.
From stdpp Require Import base numbers list gmap strings.
From S2P Require Import Prelude Request RequestQueue StopCheck BlockPool KVCacheManager Scheduler.
Open Scope Z_scope.
Local Arguments py_get : simpl never.
Local Arguments Z.of_nat : simpl never.

(** What the model runner reports; pooled vectors are bytes.  The two sets are
    the requests with prompt logprobs. *)
Record ModelRunnerOutput := mkModelOutput {
  req_id_to_index : gmap string Z;
  sampled_token_ids : list (list Z);
  pooler_output : option (list (option bytes));
  prompt_logprobs_dict : gset string;
  prompt_token_id_logprobs_dict : gset string
}.

(** [prefill_stats]: the estimate of cached tokens they are finalized with. *)
Record EngineCoreOutput := mkCoreOutput {
  o_request_id : string;
  o_new_token_ids : list Z;
  o_finish_reason : option FinishReason;
  o_stop_reason : option (Z + string);
  o_events : option (list EngineCoreEvent);
  o_pooling_output : option bytes;
  o_prefill_stats : option Z
}.

(** The local variables of [update_from_output]. *)
Record UpdateState := mkUpdate {
  outputs : gmap Z (list EngineCoreOutput);
  stopped_running_reqs : gset string;
  stopped_preempted_reqs : list Request
}.
Definition emit_output (client : Z) (o : EngineCoreOutput) (u : UpdateState) : UpdateState :=
  mkUpdate (<[client := default [] (outputs u !! client) ++ [o]]> (outputs u)) (stopped_running_reqs u) (stopped_preempted_reqs u).

Module Update.
Section update.
Context {Q K : Type} `{!RequestQueue Q} `{!KVOps K} (cfg : SchedulerConfig).
(** [accept_tokens]: whether the grammar of a request accepts its new tokens;
    [validate_tokens]: the drafts it would accept. *)
Context (hasher : block_hasher_t) (accept_tokens : Request -> list Z -> bool) (validate_tokens : Request -> list Z -> list Z).
Abbreviation S := (Scheduler Q K).
Abbreviation Us := (Scheduler Q K * UpdateState)%type.

Definition on_sched {A} (f : M S A) : M Us A := zoom fst (fun x s => (x, s.2)) f.
Definition on_update {A} (f : M UpdateState A) : M Us A := zoom snd (fun x s => (s.1, x)) f.
Definition on_request {A} (id : string) (f : M Request A) : M S A :=
  fun s => match requests s !! id with
           | None => (Raise KeyError, s)
           | Some r => let '(o, r') := f r in (o, set_requests (<[id := r']> (requests s)) s)
           end.

(** ** The end of a request *)

Definition free_blocks (r : Request) : M S unit :=
  assert_ (is_finished r) ;;
  Sched.on_kv (kv_free (request_id r)) ;;
  let! m := gets requests in
  let! _ := lift (or_raise (m !! request_id r) KeyError) in
  modify (fun s => set_requests (delete (request_id r) (requests s)) s).
Definition free_request (r : Request) : M S unit :=
  assert_ (is_finished r) ;;
  modify (fun s => set_inflight (inflight_prefills s ∖ {[request_id r]}) s) ;;
  modify (fun s => set_ids (finished_req_ids s ∪ {[request_id r]}) (reset_preempted_req_ids s) (prev_step_scheduled_req_ids s)
                     (grammar_compile_error_reqs s) s) ;;
  free_blocks r.

(** Takes requests off the running list and the queues. *)
Definition leave_running (ids : gset string) : M S unit :=
  let! l := zoom running set_running (remove_all ids) in
  modify (set_running l).
Definition leave_queues (rs : list Request) : M S unit :=
  match rs with
  | [] => ret tt
  | _ =>
      Sched.on_waiting (remove_requests rs) ;;
      Sched.on_kv_holding (remove_requests rs) ;;
      modify (fun s => set_deferred (deferred_waiting s ∖ list_to_set (map request_id rs)) s)
  end.

(** The requests of [ids] that can still be finished. *)
Definition valid_requests (ids : list string) (m : gmap string Request) : list Request :=
  omap (fun id => match m !! id with Some r => if is_finished r then None else Some r | None => None end) ids.
(** The ids are made a set; its order of iteration is that of the list. *)
Definition finish_requests (request_ids : list string) (finished_status : RequestStatus) : M S (list Request) :=
  assert_ (status_is_finished finished_status) ;;
  let! m := gets requests in
  let valid := valid_requests (remove_dups request_ids) m in
  let running_to_remove := filter (fun r => status r = RUNNING) valid in
  let waiting_to_remove := filter (fun r => status r <> RUNNING) valid in
  let streaming := filter (fun r => status r = WAITING_FOR_STREAMING_REQ) valid in
  modify (fun s => set_counts (current_step s) (num_waiting_for_streaming_input s - zlen streaming) (prefill_stats s)
                     (pause_state s) (prefill_capacity_bound s) s) ;;
  leave_running (list_to_set (map request_id running_to_remove)) ;;
  leave_queues waiting_to_remove ;;
  let finished := map (set_status finished_status) valid in
  for_ finished free_request ;;
  ret finished.

(** ** Tokens *)

(** [_update_request_with_output]: the tokens up to the one the request stops
    at. *)
Fixpoint append_until_stop (kept new_token_ids : list Z) : M Request (list Z * bool) :=
  match new_token_ids with
  | [] => ret (kept, false)
  | t :: rest =>
      append_output_token_ids hasher [t] ;;
      let! stopped := check_stop (sched_max_model_len cfg) in
      if stopped : bool then ret (kept ++ [t], true) else append_until_stop (kept ++ [t]) rest
  end.
Definition update_request_with_output (new_token_ids : list Z) : M Request (list Z * bool) := append_until_stop [] new_token_ids.

(** The tokens of a step have arrived. *)
Definition landed (n : Z) (r : Request) : Request :=
  set_schedule (status r) (spec_token_ids r) (num_computed_tokens r) (num_output_placeholders r) (num_in_flight_tokens r - n)
    (if num_stale_output_tokens r >? 0 then num_stale_output_tokens r - n else num_stale_output_tokens r) (drop_stale_output r)
    (is_prefill_chunk r) (shared_prefix_boundary r) (num_preemptions r) r.
(** Rejected drafts are not computed tokens. *)
Definition roll_back (num_rejected : Z) (r : Request) : Request :=
  set_schedule (status r) (spec_token_ids r)
    (if num_computed_tokens r >? 0 then num_computed_tokens r - num_rejected else num_computed_tokens r)
    (if num_output_placeholders r >? 0 then num_output_placeholders r - num_rejected else num_output_placeholders r)
    (num_in_flight_tokens r) (num_stale_output_tokens r) (drop_stale_output r) (is_prefill_chunk r) (shared_prefix_boundary r)
    (num_preemptions r) r.
Definition num_rejected (drafts generated : list Z) : Z :=
  zlen drafts - Z.max (zlen generated - num_sampled_tokens_per_step cfg) 0.
Definition reject_drafts (id : string) (drafts : option (list Z)) (generated : list Z) (stale : bool) : M S unit :=
  match drafts with
  | None | Some [] => ret tt
  | Some ids =>
      if (negb (zlen generated =? 0) || (num_sampled_tokens_per_step cfg =? 0)) && negb stale
      then Sched.update_request id (roll_back (num_rejected ids generated)) else ret tt
  end.

(** New tokens, or the other reasons to stop. *)
Definition consume (id : string) (generated : list Z) (pooled : option bytes) : M S (list Z * bool) :=
  let! r := Sched.the_request id in
  match generated with
  | _ :: _ => on_request id (update_request_with_output generated)
  | [] =>
      if (bool_decide (is_Some (pooling_params r)) && bool_decide (is_Some pooled)) ||
         (is_mm_encoder_only cfg && (num_computed_tokens r >=? num_prompt_tokens r))
      then Sched.update_request id (set_status FINISHED_STOPPED) ;; ret ([], true)
      else ret ([], false)
  end.
Definition check_grammar (id : string) (new_token_ids : list Z) (stopped : bool) : M S bool :=
  let! r := Sched.the_request id in
  if negb (zlen new_token_ids =? 0) && negb (accept_tokens r new_token_ids)
  then Sched.update_request id (fun r => set_resumable false (set_status FINISHED_ERROR r)) ;; ret true
  else ret stopped.

Definition take_prefill_stats (id : string) : M S (option Z) :=
  let! s := gets (fun s => s) in
  if bool_decide (id ∈ prefill_stats s) then
    let! r := Sched.the_request id in
    modify (fun s => set_counts (current_step s) (num_waiting_for_streaming_input s) (prefill_stats s ∖ {[id]}) (pause_state s)
                       (prefill_capacity_bound s) s) ;;
    let cached := kv_estimate_cached_tokens (kv_cache_manager s) r in
    assert_ (cached >=? 0) ;;
    ret (Some cached)
  else ret None.

(** A stopped request is freed; one that was not running leaves the queues after
    the loop. *)
Definition stop_request (r : Request) (status_before_stop : RequestStatus) : M Us unit :=
  on_sched (free_request r) ;;
  on_update (modify (fun u =>
    if bool_decide (status_before_stop = RUNNING)
    then mkUpdate (outputs u) (stopped_running_reqs u ∪ {[request_id r]}) (stopped_preempted_reqs u)
    else mkUpdate (outputs u) (stopped_running_reqs u) (stopped_preempted_reqs u ++ [r]))).

(** The request object outlives its entry in [requests]; [take_events] empties
    its list of events. *)
Definition emit_request (r : Request) (new_token_ids : list Z) (stopped : bool) (pooled : option bytes) (stats : option Z) : M Us unit :=
  on_sched (Sched.update_request (request_id r) (set_events [])) ;;
  on_update (modify (emit_output (client_index r) (mkCoreOutput (request_id r) new_token_ids
    (if stopped then get_finished_reason r else None) (stop_reason r)
    (match events r with [] => None | evs => Some evs end) pooled stats))).

(** One iteration of the loop over the scheduled requests. *)
Definition process_output (out : SchedulerOutput) (mo : ModelRunnerOutput) (id : string) (n : Z) : M Us unit :=
  assert_ (n >? 0) ;;
  let! s := gets fst in
  match requests s !! id with
  | None => ret tt
  | Some r =>
      let output_is_stale := num_stale_output_tokens r >? 0 in
      on_sched (Sched.update_request id (landed n)) ;;
      (if output_is_stale then assert_ (num_stale_output_tokens r - n >=? 0) else ret tt) ;;
      if is_finished r || (output_is_stale && drop_stale_output r) then ret tt else
      let! req_index := lift (or_raise (req_id_to_index mo !! id) KeyError) in
      let! generated := lift (match sampled_token_ids mo with
                              | [] => Ok []
                              | _ => or_raise (py_get (sampled_token_ids mo) req_index) IndexError
                              end) in
      on_sched (reject_drafts id (out_spec_decode_tokens out !! id) generated output_is_stale) ;;
      let! pooled := lift (match pooler_output mo with
                           | None | Some [] => Ok None
                           | Some pooled => or_raise (py_get pooled req_index) IndexError
                           end) in
      let! consumed := on_sched (consume id generated pooled) in
      let '(new_token_ids, stopped) := consumed in
      let! stopped := on_sched (check_grammar id new_token_ids stopped) in
      if negb (zlen new_token_ids =? 0) || bool_decide (is_Some pooled) || stopped then
        let! stats := on_sched (take_prefill_stats id) in
        let! r' := on_sched (Sched.the_request id) in
        (if stopped then stop_request r' (status r) else ret tt) ;;
        emit_request r' new_token_ids stopped pooled stats
      else
        assert_ (negb (bool_decide (id ∈ prompt_logprobs_dict mo))) ;;
        assert_ (negb (bool_decide (id ∈ prompt_token_id_logprobs_dict mo)))
  end.

(** ** The update *)

(** Requests whose grammar failed to compile. *)
Definition finish_errors : M Us unit :=
  let! s := gets fst in
  let error_req_ids := grammar_compile_error_reqs s in
  on_sched (modify (fun s => set_ids (finished_req_ids s) (reset_preempted_req_ids s) (prev_step_scheduled_req_ids s) ∅ s)) ;;
  if decide (error_req_ids = ∅) then ret tt else
  let! error_reqs := on_sched (finish_requests (elements error_req_ids) FINISHED_ERROR) in
  on_update (for_ error_reqs (fun r => modify (emit_output (client_index r) (mkCoreOutput (request_id r) [] (get_finished_reason r)
    None (match events r with [] => None | evs => Some evs end) None None)))).

Definition update_loop (out : SchedulerOutput) (mo : ModelRunnerOutput) : M Us unit :=
  for_ (out_num_scheduled_tokens out) (fun kv => process_output out mo kv.1 kv.2) ;;
  let! u := gets snd in
  on_sched (leave_running (stopped_running_reqs u)) ;;
  on_sched (leave_queues (stopped_preempted_reqs u)) ;;
  finish_errors ;;
  let! _ := on_sched (Sched.on_kv kv_take_events) in
  ret tt.
Definition update_from_output (out : SchedulerOutput) (mo : ModelRunnerOutput) : M S (gmap Z (list EngineCoreOutput)) :=
  fun s => match update_loop out mo (s, mkUpdate ∅ ∅ []) with
           | (Ok _, (s', u)) => (Ok (outputs u), s')
           | (Raise e, (s', _)) => (Raise e, s')
           end.

(** ** Drafts *)

Definition update_draft_token_ids (drafts : list (string * list Z)) : M S unit :=
  for_ drafts (fun d =>
    let! m := gets requests in
    match m !! d.1 with
    | None => ret tt
    | Some r =>
        if is_finished r then ret tt
        else if is_prefill_chunk r then
          match spec_token_ids r with [] => ret tt | _ => Sched.update_request d.1 (set_spec_token_ids []) end
        else Sched.update_request d.1 (set_spec_token_ids (validate_tokens r d.2))
    end).

(** ** What the engine asks *)

Definition get_num_unfinished_requests (s : S) : Z :=
  if bool_decide (pause_state s = PAUSED_ALL) then 0 else
  let '(num_running, num_waiting) := Sched.get_request_counts s in
  let num_waiting := if bool_decide (pause_state s = PAUSED_NEW) then Z.of_nat (queue_len (kv_holding_waiting s)) else num_waiting in
  num_waiting - num_waiting_for_streaming_input s + num_running.
Definition has_finished_requests (s : S) : bool := negb (bool_decide (finished_req_ids s = ∅)).
Definition set_pause_state (p : PauseState) : M S unit :=
  modify (fun s => set_counts (current_step s) (num_waiting_for_streaming_input s) (prefill_stats s) p (prefill_capacity_bound s) s).
Definition has_requests (s : S) : bool := (get_num_unfinished_requests s >? 0) || has_finished_requests s.
End update.
End Update.

(** * The engine *)

Module Engine.
Section engine.
Context {Q K : Type} `{!RequestQueue Q} `{!KVOps K} (cfg : SchedulerConfig).
Context (hasher : block_hasher_t) (grammar : string -> option bool) (accept_tokens : Request -> list Z -> bool)
  (validate_tokens : Request -> list Z -> list Z).
Abbreviation S := (Scheduler Q K).

Definition abort_requests (request_ids : list string) : M S (list Request) :=
  Update.finish_requests request_ids FINISHED_ABORTED.
(** [add_request] for an id that is not known and a request that samples. *)
Definition add_request (r : Request) (timestamp : Z) : M S unit :=
  Sched.add_new_request cfg r timestamp ;;
  if abort_immediately r then abort_requests [request_id r] ;; ret tt else ret tt.

(** [step]: [model] runs the batch; [aborts] arrived meanwhile. *)
Definition step (model : SchedulerOutput -> ModelRunnerOutput) (aborts : list string) (timestamp : Z) :
    M S (gmap Z (list EngineCoreOutput) * bool) :=
  let! s := gets (fun s => s) in
  if negb (Update.has_requests s) then ret (∅, false) else
  let! scheduler_output := Sched.schedule cfg grammar false timestamp in
  let model_output := model scheduler_output in
  (match aborts with [] => ret tt | _ => abort_requests aborts ;; ret tt end) ;;
  let! outputs := Update.update_from_output cfg hasher accept_tokens scheduler_output model_output in
  ret (outputs, out_total_num_scheduled_tokens scheduler_output >? 0).
(** [post_step], with the drafts the executor returns, if any. *)
Definition post_step (drafts : option (list (string * list Z))) (model_executed : bool) : M S unit :=
  if negb (async_scheduling cfg) && model_executed then
    match drafts with
    | Some d => Update.update_draft_token_ids validate_tokens d
    | None => ret tt
    end
  else ret tt.
End engine.
End Engine.
