(* ===== verification/SchedulerFinish.v ===== *)
(** Requests that leave the scheduler
    ([vllm/v1/core/sched/scheduler.py]): finished and aborted requests give
    their blocks back and are forgotten; the others are left as they were. *)
From Stdlib Require Import ZArith Lia Strings.String.
From stdpp Require Import base numbers list gmap strings.
From S2P Require Import Prelude Request RequestQueue StopCheck BlockHash KVCacheManager Scheduler SchedulerSafety SchedulerWaiting SchedulerStep SchedulerUpdate.
Open Scope Z_scope.
Local Arguments py_get : simpl never.
Local Arguments Z.of_nat : simpl never.

Lemma filter_ext_in {A} (P1 P2 : A -> Prop) `{!forall x, Decision (P1 x), !forall x, Decision (P2 x)} (l : list A) :
  (forall x, x ∈ l -> P1 x <-> P2 x) -> filter P1 l = filter P2 l.
Proof.
  induction l as [|x l IH]; intros Heq; [done|]. rewrite !filter_cons. pose proof (Heq x ltac:(by left)).
  rewrite IH by (intros y Hy; apply Heq; by right). destruct (decide (P1 x)), (decide (P2 x)); tauto.
Qed.

(** The requests of a list that are not in [gone]. *)
Abbreviation without gone P := (filter (fun x => x ∉ (gone : gset string)) P).
Lemma without_union (g1 g2 : gset string) (P : list string) : without g2 (without g1 P) = without (g1 ∪ g2) P.
Proof. rewrite list_filter_filter. apply filter_ext_in. intros x _. set_solver. Qed.

Section finish.
Context {Q K : Type} `{!RequestQueue Q, !RequestQueueLaws Q} `{!KVOps K} (cfg : SchedulerConfig)
  `{!KVLaws K (sched_max_model_len cfg)} (obj : string -> Z).
Abbreviation S := (Scheduler Q K).
Abbreviation max_len := (sched_max_model_len cfg).
Abbreviation kv s := (kv_cache_manager s).
Abbreviation covers := (kv_covers (max_len := max_len)).
Abbreviation fresh_in := (kv_fresh (max_len := max_len)).
Abbreviation good := (kv_ok (max_len := max_len)).

(** ** A group of requests leaves *)

Definition stays (gone : gset string) (q : Request) : Prop := request_id q ∉ gone.
#[local] Instance stays_dec gone q : Decision (stays gone q).
Proof. unfold stays. apply _. Defined.

(** What the manager keeps when the requests [gone] give their blocks back. *)
Definition kv_drops (gone : gset string) (k k' : K) : Prop :=
  good k' /\ (forall id, id ∉ gone -> (forall n, covers k id n -> covers k' id n) /\ (fresh_in k id -> fresh_in k' id)) /\
  (forall id, id ∈ gone -> fresh_in k' id).

Record dropped (gone : gset string) (s s' : S) : Prop := {
  dr_running : running s' = filter (fun id => id ∉ gone) (running s);
  dr_queues : forall lw lk, queues s lw lk -> queues s' (filter (stays gone) lw) (filter (stays gone) lk);
  dr_requests : forall id, requests s' !! id = if decide (id ∈ gone) then None else requests s !! id;
  dr_kv : kv_drops gone (kv s) (kv s')
}.

Lemma map_filter_ids gone (l : list Request) : map request_id (filter (stays gone) l) = filter (fun id => id ∉ gone) (map request_id l).
Proof.
  induction l as [|q l IH]; [done|]. cbn [map]. destruct (decide (request_id q ∈ gone)) as [Hin|Hin].
  - rewrite !filter_cons_False; [done| |]; unfold stays; tauto.
  - rewrite !filter_cons_True by done. cbn. by rewrite IH.
Qed.

Lemma inv_dropped fl P gone s s' l : inv cfg fl P obj [] s l -> no_skips l -> dropped gone s s' ->
  inv cfg fl (filter (fun id => id ∉ gone) P) obj [] s' l.
Proof.
  intros [A1 A2 A3 (lw & lk & Q1 & Q2 & Q3 & Q4 & Hp & Hq) A5 A6] [N1 N2] [D1 D2 D3 (K1 & K2 & K3)].
  rewrite app_nil_r in *. unfold queued in *. rewrite N1, N2, !app_nil_r in *.
  destruct (D2 lw lk) as (R1 & R2 & R3 & R4); [done|]. split.
  - done.
  - intros id [Hn Hid]%list_elem_of_filter. destruct (A2 id Hid) as (r & E & Ei & Eo). exists r. by rewrite D3, decide_False by done.
  - rewrite D1, app_nil_r. intros id r [Hn Hid]%list_elem_of_filter. rewrite D3, decide_False by done. intros E.
    destruct (A2 id) as (r0 & E0 & Ei & _); [rewrite <- Hp; set_solver|]. assert (r0 = r) as -> by congruence.
    pose proof (A3 id r Hid E) as []. destruct (K2 id Hn). split; try done. rewrite Ei in *. auto.
  - exists (filter (stays gone) lw), (filter (stays gone) lk). unfold queued. rewrite N1, N2, !app_nil_r. split_and!; try done.
    + rewrite D1, <- filter_app, map_filter_ids, <- filter_app. by rewrite Hp.
    + rewrite <- filter_app. rewrite Forall_forall in Hq |- *. intros q [Hn Hin]%list_elem_of_filter. destruct (Hq q Hin) as [Ho Hw]. split; [done|].
      unfold stays in Hn. rewrite D3, decide_False by done. intros r E. destruct (A2 (request_id q)) as (r0 & E0 & Ei & _).
      { rewrite <- Hp. apply elem_of_app. right. apply list_elem_of_fmap. by exists q. }
      assert (r0 = r) as -> by congruence. pose proof (Hw r E) as []. destruct (K2 _ Hn) as [Kc Kf]. split; try done. rewrite Ei in *.
      destruct wt_place as [(? & ? & ?)|[? ?]]; [left|right]; auto.
  - intros id Hn. destruct (decide (id ∈ gone)) as [Hin|Hin]; [by apply K3|]. apply K2; [done|]. apply A5. intros Hid. apply Hn. by apply list_elem_of_filter.
  - intros id. rewrite D3. case_decide; [by intros []|]. intros Hs. apply list_elem_of_filter. auto.
Qed.

(** The scheduler's requests: distinct ids of distinct objects. *)
Definition population (P : list string) : Prop := NoDup P /\ forall a b, a ∈ P -> b ∈ P -> obj a = obj b -> a = b.
Lemma population_filter P (gone : gset string) : population P -> population (filter (fun id => id ∉ gone) P).
Proof.
  intros [H1 H2]. split; [by apply NoDup_filter|]. intros a b [_ Ha]%list_elem_of_filter [_ Hb]%list_elem_of_filter. auto.
Qed.

(** ** The parts of a departure *)

(** The state besides the requests, the queues and the manager. *)
Definition sidelines (s : S) := (num_waiting_for_streaming_input s, pause_state s).
Definition kept_queues (s s' : S) : Prop := waiting s' = waiting s /\ kv_holding_waiting s' = kv_holding_waiting s.

Lemma request_freed_ok (r : Request) s : is_finished r = true -> is_Some (requests s !! request_id r) -> good (kv s) ->
  wp (Update.free_request r) (fun _ s' => running s' = running s /\ kept_queues s s' /\ sidelines s' = sidelines s /\
    requests s' = delete (request_id r) (requests s) /\ kv_drops {[request_id r]} (kv s) (kv s')) s.
Proof.
  intros Hf [r0 E] Hk. unfold Update.free_request, Update.free_blocks, Sched.on_kv. wp_simpl. split; [done|]. split; [done|]. cbn.
  eapply wp_mono; [by apply (law_free (max_len := max_len))|]. intros [] k' (Hk' & Hfr & Hnew). wp_simpl. cbn. rewrite E. exists r0. split; [done|].
  wp_simpl. cbn. split_and!; try done. split_and!; [done| |by intros id ->%elem_of_singleton]. intros id Hid. apply Hfr. set_solver.
Qed.

Lemma leave_running_ok (ids : gset string) (s : S) : NoDup (running s) ->
  wp (Update.leave_running ids) (fun _ s' => s' = set_running (filter (fun id => id ∉ ids) (running s)) s) s.
Proof.
  intros Hnd. unfold Update.leave_running. rewrite wp_bind, wp_zoom. destruct (remove_all_filters (running s) ids Hnd) as (l' & E & _).
  eapply wp_of_run; [exact E|]. by rewrite wp_modify.
Qed.

Lemma filter_objects P rs (l : list Request) : population P ->
  Forall (fun q => obj_id q = obj (request_id q) /\ request_id q ∈ P) rs ->
  Forall (fun q => obj_id q = obj (request_id q) /\ request_id q ∈ P) l ->
  filter (not_among rs) l = filter (stays (list_to_set (map request_id rs))) l.
Proof.
  intros [_ Hinj] Hrs. rewrite Forall_forall in Hrs. induction 1 as [|q l [Eo Hq] _ IH]; [done|].
  assert (not_among rs q <-> stays (list_to_set (map request_id rs)) q) as Hiff.
  { rewrite not_among_in. unfold stays. rewrite elem_of_list_to_set. split; intros Hn Hin; apply Hn; apply list_elem_of_fmap in Hin as (x & E & Hx);
      destruct (Hrs x Hx) as [Ex HxP]; apply list_elem_of_fmap; exists x; (split; [|done]).
    - by rewrite Eo, Ex, E.
    - apply Hinj; [done|done|congruence]. }
  rewrite !filter_cons. destruct (decide (not_among rs q)), (decide (stays _ q)); try tauto; by rewrite IH.
Qed.

Lemma leave_queues_ok P rs (s : S) lw lk : population P -> queues s lw lk ->
  Forall (fun q => obj_id q = obj (request_id q) /\ request_id q ∈ P) rs ->
  Forall (fun q => obj_id q = obj (request_id q) /\ request_id q ∈ P) (lw ++ lk) ->
  wp (Update.leave_queues rs) (fun _ s' => running s' = running s /\ sidelines s' = sidelines s /\ requests s' = requests s /\
    kv s' = kv s /\ queues s' (filter (stays (list_to_set (map request_id rs))) lw) (filter (stays (list_to_set (map request_id rs))) lk)) s.
Proof.
  intros HP (Q1 & Q2 & Q3 & Q4) Hrs [Hw Hk]%Forall_app. unfold Update.leave_queues. set (gone := list_to_set _ : gset string).
  assert (filter (not_among rs) lw = filter (stays gone) lw /\ filter (not_among rs) lk = filter (stays gone) lk) as [E1 E2]
    by (split; by eapply filter_objects).
  destruct (law_remove_all _ _ rs Q1 Q2) as (qw & Ew & Hqw & Iw). destruct (law_remove_all _ _ rs Q3 Q4) as (qk & Ek & Hqk & Ik).
  rewrite E1 in Iw. rewrite E2 in Ik. destruct rs as [|r rs].
  - wp_simpl. assert (forall l, filter (stays gone) l = l) as Hid by (intros l; apply list_filter_id; intros q _; unfold stays, gone; set_solver).
    rewrite !Hid. by split_and!.
  - unfold Sched.on_waiting, Sched.on_kv_holding. rewrite wp_bind, wp_zoom. eapply wp_of_run; [exact Ew|].
    rewrite wp_bind, wp_zoom. cbn. eapply wp_of_run; [exact Ek|]. by split_and!.
Qed.

Abbreviation ids_of rs := (list_to_set (map request_id rs) : gset string).
Lemma drops_more gone id k k1 k2 : kv_drops gone k k1 -> kv_drops {[id]} k1 k2 -> kv_drops (gone ∪ {[id]}) k k2.
Proof.
  intros (A1 & A2 & A3) (B1 & B2 & B3). split_and!; [done| |].
  - intros x Hx. destruct (A2 x) as [A2' A2'']; [set_solver|]. destruct (B2 x) as [B2' B2'']; [set_solver|]. split; auto.
  - intros x [Hx|Hx]%elem_of_union; [|by apply B3]. destruct (decide (x = id)) as [->|Hne]; [apply B3; set_solver|]. apply B2; [set_solver|]. by apply A3.
Qed.

Lemma free_all_ok rs (s : S) : NoDup (map request_id rs) -> Forall (fun r => is_finished r = true /\ is_Some (requests s !! request_id r)) rs ->
  good (kv s) ->
  wp (for_ rs Update.free_request) (fun _ s' => running s' = running s /\ kept_queues s s' /\ sidelines s' = sidelines s /\
    (forall id, requests s' !! id = if decide (id ∈ ids_of rs) then None else requests s !! id) /\ kv_drops (ids_of rs) (kv s) (kv s')) s.
Proof.
  intros Hnd Hrs Hk. rewrite Forall_forall in Hrs.
  eapply (wp_for _ _ (fun done todo s' => running s' = running s /\ kept_queues s s' /\ sidelines s' = sidelines s /\
    (forall id, requests s' !! id = if decide (id ∈ ids_of done) then None else requests s !! id) /\ kv_drops (ids_of done) (kv s) (kv s'))); [| |done].
  - split_and!; try done; split_and!; try done; set_solver.
  - intros done r todo s1 Ers (E1 & [E2 E2'] & E3 & E4 & Hd). destruct (Hrs r) as [Hf Hs]; [rewrite Ers; set_solver|].
    assert (request_id r ∉ ids_of done) as Hn.
    { rewrite Ers, map_app in Hnd. apply NoDup_app in Hnd as (_ & Hx & _). rewrite elem_of_list_to_set. intros Hin. apply (Hx _ Hin). cbn. set_solver. }
    eapply wp_mono; [apply request_freed_ok; [done|by rewrite E4, decide_False by done|apply Hd]|].
    intros [] s2 (F1 & [F2 F2'] & F3 & F4 & Hd'). rewrite map_app, list_to_set_app_L. cbn [map list_to_set]. rewrite union_empty_r_L.
    split_and!; try congruence; [split; congruence| |by eapply drops_more].
    intros id. rewrite F4. destruct (decide (id = request_id r)) as [->|Hne].
    + rewrite lookup_delete_eq, decide_True by set_solver. done.
    + rewrite lookup_delete_ne by done. rewrite E4. destruct (decide (id ∈ ids_of done)); [by rewrite decide_True by set_solver|].
      by rewrite decide_False by set_solver.
Qed.

(** ** [finish_requests] *)

(** The requests of the scheduler are not finished, and each is where its status
    says. *)
Lemma request_place fl P s l id r : inv cfg fl P obj [] s l -> no_skips l -> requests s !! id = Some r ->
  request_id r = id /\ obj_id r = obj id /\ id ∈ P /\ is_finished r = false /\ status r <> WAITING_FOR_STREAMING_REQ /\
  (status r = RUNNING <-> id ∈ running s).
Proof.
  intros [A1 A2 A3 (lw & lk & Q1 & Q2 & Q3 & Q4 & Hp & Hq) A5 A6] [N1 N2] E. assert (id ∈ P) as HP by (apply A6; by eexists).
  destruct (A2 id HP) as (r0 & E0 & Ei & Eo). assert (r0 = r) as -> by congruence. unfold queued in *. rewrite N1, N2, !app_nil_r in *.
  destruct (decide (id ∈ running s)) as [Hrun|Hrun].
  - pose proof (rn_status _ _ _ _ (A3 id r Hrun E)) as Est. split_and!; try done; [unfold is_finished; by rewrite Est|by rewrite Est].
  - assert (id ∈ map request_id (lw ++ lk)) as Hin by (rewrite <- Hp in HP; set_solver).
    apply list_elem_of_fmap in Hin as (q & Eq & Hin). rewrite Forall_forall in Hq. destruct (Hq q Hin) as [_ Hw]. rewrite <- Eq in Hw.
    pose proof (wt_status _ _ _ _ (Hw r E)) as Hst. rewrite !elem_of_cons, elem_of_nil in Hst. unfold is_finished.
    destruct Hst as [-> | [-> | [-> | []]]]; by split_and!.
Qed.
Lemma inv_request fl P s l id r : inv cfg fl P obj [] s l -> no_skips l -> requests s !! id = Some r ->
  running_ok cfg fl (kv s) r \/ waiting_ok cfg fl (kv s) r.
Proof.
  intros [A1 A2 A3 (lw & lk & Q1 & Q2 & Q3 & Q4 & Hp & Hq) A5 A6] [N1 N2] E. assert (id ∈ P) as HP by (apply A6; by eexists).
  unfold queued in *. rewrite N1, N2, !app_nil_r in *. rewrite <- Hp in HP. apply elem_of_app in HP as [HP|HP]; [left; by eapply A3|right].
  apply list_elem_of_fmap in HP as (q & -> & Hin). rewrite Forall_forall in Hq. by apply (Hq q Hin).
Qed.

Lemma valid_ok fl P s l ids : inv cfg fl P obj [] s l -> no_skips l ->
  Forall (fun r => requests s !! request_id r = Some r) (Update.valid_requests ids (requests s)) /\
  map request_id (Update.valid_requests ids (requests s)) = filter (fun id => is_Some (requests s !! id)) ids.
Proof.
  intros Hi Hn. induction ids as [|id ids [IH1 IH2]]; [by split|]. unfold Update.valid_requests in *. cbn [omap list_omap]. destruct (requests s !! id) as [r|] eqn:E.
  - destruct (request_place fl P s l id r Hi Hn E) as (Ei & _ & _ & -> & _). rewrite filter_cons_True by (rewrite E; by eexists). cbn [map].
    split; [constructor; [by rewrite Ei|done]|]. by rewrite Ei, IH2.
  - rewrite filter_cons_False by (rewrite E; by intros []). by split.
Qed.

Lemma member_valid fl P s l ids id : inv cfg fl P obj [] s l -> no_skips l -> id ∈ P ->
  id ∈ ids <-> id ∈ map request_id (Update.valid_requests (remove_dups ids) (requests s)).
Proof.
  intros Hi Hn HP. destruct (valid_ok fl P s l (remove_dups ids) Hi Hn) as [_ ->]. rewrite list_elem_of_filter, elem_of_remove_dups.
  destruct (inv_lookup cfg fl P obj [] s l id Hi HP) as (r & -> & _). split; [by intros|by intros []].
Qed.

Lemma finish_dropped fl P s l ids st : population P -> inv cfg fl P obj [] s l -> no_skips l -> status_is_finished st = true ->
  wp (Update.finish_requests ids st) (fun rs s' => dropped (list_to_set ids) s s' /\ sidelines s' = sidelines s /\
    (forall id, id ∈ ids -> id ∈ P -> exists r, r ∈ rs /\ request_id r = id /\ status r = st) /\
    forall r, r ∈ rs -> (request_id r ∈ ids /\ request_id r ∈ P) /\ status r = st) s.
Proof.
  intros HP Hi Hn Hst. destruct (valid_ok fl P s l (remove_dups ids) Hi Hn) as [Hv Hids]. rewrite Forall_forall in Hv.
  pose proof (fun id => member_valid fl P s l ids id Hi Hn) as Hmem. pose proof (fun id r => request_place fl P s l id r Hi Hn) as Hplace.
  unfold Update.finish_requests. wp_simpl. split; [done|]. set (valid := Update.valid_requests (remove_dups ids) (requests s)) in *.
  assert (filter (fun r => status r = WAITING_FOR_STREAMING_REQ) valid = []) as ->.
  { apply BlockHash.filter_none. intros r Hr E. destruct (Hplace _ r (Hv r Hr)) as (_ & _ & _ & _ & ? & _). done. }
  assert (NoDup (map request_id valid)) as Hnd by (rewrite Hids; apply NoDup_filter, NoDup_remove_dups).
  assert (exists lw lk, queues s lw lk) as (lw & lk & Hq) by (eapply inv_queues_of; exact Hi).
  destruct (queues_perm cfg fl P obj s l lw lk Hi Hq) as [Hp Hqs]. unfold queued in Hp, Hqs. destruct Hn as [N1 N2]. rewrite N1, N2, !app_nil_r in *.
  rewrite Forall_forall in Hqs.
  assert (NoDup (running s ++ map request_id (lw ++ lk))) as Hnp by (rewrite Hp; apply HP). apply NoDup_app in Hnp as (Hnr & Hdis & _).
  eapply wp_mono; [by apply leave_running_ok|]. intros [] s1 ->. wp_simpl.
  eapply wp_mono; [apply (leave_queues_ok P _ _ lw lk HP); [exact Hq| |]|].
  { apply Forall_forall. intros r [_ Hr]%list_elem_of_filter. destruct (Hplace _ r (Hv r Hr)) as (_ & ? & ? & _). done. }
  { apply Forall_forall. intros q Hin. split; [by apply (Hqs q)|]. rewrite <- Hp. apply elem_of_app. right. apply list_elem_of_fmap. by exists q. }
  intros [] s2 (E1 & E2 & E3 & E4 & Hq2). cbn in E1, E2, E3, E4. wp_simpl.
  assert (map request_id (map (set_status st) valid) = map request_id valid) as Eids by (rewrite map_map; done).
  eapply wp_mono; [apply (free_all_ok (map (set_status st) valid) s2)|].
  { by rewrite Eids. }
  { apply Forall_forall. intros r' (r & -> & Hr)%list_elem_of_fmap. split; [exact Hst|]. cbn. rewrite E3, (Hv r Hr). by eexists. }
  { rewrite E4. apply Hi. }
  intros [] s3 (F1 & [F2 F2'] & F3 & F4 & Hd). rewrite Eids in *. wp_simpl. rewrite E4 in Hd. split_and!; [|rewrite F3, E2; unfold sidelines; cbn; f_equal; lia| |].
  2: { intros id Hid HidP. apply (Hmem id HidP), list_elem_of_fmap in Hid as (r & -> & Hr). exists (set_status st r). split_and!; try done.
    apply list_elem_of_fmap. by exists r. }
  2: { intros r' (r & -> & Hr)%list_elem_of_fmap. split; [|done]. cbn. destruct (Hplace _ r (Hv r Hr)) as (_ & _ & HidP & _). split; [|done].
    apply (Hmem _ HidP), list_elem_of_fmap. by exists r. }
  assert (forall id, id ∈ P -> id ∈ (list_to_set ids : gset string) <-> id ∈ ids_of valid) as Hset
    by (intros id Hid; rewrite !elem_of_list_to_set; by apply Hmem).
  split.
  - rewrite F1, E1. apply filter_ext_in. intros id Hid. assert (id ∈ P) as HidP by (rewrite <- Hp; set_solver).
    assert (id ∈ (list_to_set ids : gset string) <-> id ∈ ids_of (filter (fun r => status r = RUNNING) valid)) as Hiff; [|tauto].
    rewrite (Hset id HidP), !elem_of_list_to_set. split.
    + intros (r & -> & Hr)%list_elem_of_fmap. apply list_elem_of_fmap. exists r. split; [done|]. apply list_elem_of_filter. split; [|done].
      by apply (Hplace _ r (Hv r Hr)).
    + intros (r & -> & Hr)%list_elem_of_fmap. apply list_elem_of_filter in Hr as [_ Hr]. apply list_elem_of_fmap. by exists r.
  - intros lw' lk' Hq'.
    assert (lw' = lw /\ lk' = lk) as [-> ->] by (destruct Hq as (_ & ? & _ & ?), Hq' as (_ & ? & _ & ?); split; congruence).
    assert (forall q, q ∈ lw ++ lk -> stays (list_to_set ids) q <-> stays (ids_of (filter (fun r => status r <> RUNNING) valid)) q) as Hst'.
    { intros q Hin. assert (request_id q ∈ map request_id (lw ++ lk)) as Hin' by (apply list_elem_of_fmap; by exists q).
      assert (request_id q ∈ P) as HqP by (rewrite <- Hp; set_solver). unfold stays. rewrite (Hset _ HqP), !elem_of_list_to_set.
      split; intros Hx (r & E & Hr)%list_elem_of_fmap; apply Hx; apply list_elem_of_fmap; exists r; (split; [done|]).
      - by apply list_elem_of_filter in Hr as [_ ?].
      - apply list_elem_of_filter. split; [|done]. destruct (Hplace _ r (Hv r Hr)) as (_ & _ & _ & _ & _ & Hrn). rewrite Hrn, <- E.
        intros Hrun. by apply (Hdis _ Hrun). }
    unfold queues. rewrite F2, F2'. rewrite (filter_ext_in _ (stays (ids_of (filter (fun r => status r <> RUNNING) valid))) lw), (filter_ext_in _ (stays (ids_of (filter (fun r => status r <> RUNNING) valid))) lk);
      [exact Hq2|intros q Hin; apply Hst'; set_solver|intros q Hin; apply Hst'; set_solver].
  - intros id. rewrite F4, E3. destruct (requests s !! id) as [r|] eqn:E; [|by repeat case_decide].
    destruct (Hplace id r E) as (_ & _ & HidP & _). specialize (Hset id HidP). repeat case_decide; tauto.
  - destruct Hd as (D1 & D2 & D3). split_and!; [done| |].
    + intros id Hid. destruct (decide (id ∈ P)) as [HidP|HidP]; [apply D2; by rewrite <- Hset|]. apply D2.
      intros Hin. apply elem_of_list_to_set in Hin. apply HidP. apply list_elem_of_fmap in Hin as (r & -> & Hr). by apply (Hplace _ r (Hv r Hr)).
    + intros id Hid. destruct (decide (id ∈ P)) as [HidP|HidP]; [apply D3; by rewrite <- Hset|].
      apply D2; [|by apply (iv_others _ _ _ _ _ _ _ Hi)]. intros Hin. apply elem_of_list_to_set in Hin. apply HidP.
      apply list_elem_of_fmap in Hin as (r & -> & Hr). by apply (Hplace _ r (Hv r Hr)).
Qed.
Lemma finish_requests_ok fl P s l ids st : population P -> inv cfg fl P obj [] s l -> no_skips l -> status_is_finished st = true ->
  wp (Update.finish_requests ids st) (fun rs s' => dropped (list_to_set ids) s s' /\ sidelines s' = sidelines s /\
    inv cfg fl (filter (fun id => id ∉ (list_to_set ids : gset string)) P) obj [] s' l /\
    (forall id, id ∈ ids -> id ∈ P -> exists r, r ∈ rs /\ request_id r = id /\ status r = st) /\
    forall r, r ∈ rs -> (request_id r ∈ ids /\ request_id r ∈ P) /\ status r = st) s.
Proof.
  intros HP Hi Hn Hst. eapply wp_mono; [by eapply finish_dropped|]. intros rs s' (Hd & Es & Hrs & Hrs'). do 4 (split; [try done; by eapply inv_dropped|]); done.
Qed.
End finish.
