(* ===== verification/SchedulerResult.v ===== *)
(** The results of a model step ([Scheduler.update_from_output] of
    [vllm/v1/core/sched/scheduler.py]): appended tokens, rejected drafts, and
    requests that stop. *)
From Stdlib Require Import ZArith Lia Strings.String.
From stdpp Require Import base numbers list gmap strings.
From S2P Require Import Prelude Request RequestQueue StopCheck KVCacheManager Scheduler SchedulerSafety SchedulerWaiting SchedulerStep SchedulerUpdate SchedulerFinish.
Open Scope Z_scope.
Local Arguments py_get : simpl never.
Local Arguments Z.of_nat : simpl never.

(** ** Tokens *)

(** Only the tokens, the hashes and the memo change. *)
Definition appended (ts : list Z) (r r' : Request) : Prop :=
  exists hs m, r' = set_block_hashes hs (set_prompt_embeds_per_block_hashes m
    (set_all_token_ids (all_token_ids r ++ ts) (set_output_token_ids (output_token_ids r ++ ts) r))).
Lemma appended_trans ts ts' r r1 r2 : appended ts r r1 -> appended ts' r1 r2 -> appended (ts ++ ts') r r2.
Proof. intros (hs & m & ->) (hs' & m' & ->). exists hs', m'. cbn. by rewrite !app_assoc. Qed.
Lemma appended_nil r : appended [] r r.
Proof. exists (block_hashes r), (prompt_embeds_per_block_hashes r). rewrite !app_nil_r. by destruct r. Qed.

Section tokens.
Context (max_len : Z) (fits : Request -> Prop) (hasher : block_hasher_t).
Hypothesis hasher_keeps : forall r t, fits r ->
  wp (append_output_token_ids hasher [t]) (fun _ r' => appended [t] r r' /\ (num_tokens r' <= max_len -> fits r')) r.

Lemma check_stop_ok r ts t : served r -> output_token_ids r = ts ++ [t] ->
  wp (check_stop max_len) (fun stopped r' => if stopped : bool
    then exists st reason, r' = set_stop_reason reason (set_status st r) /\ status_is_finished st = true
    else r' = r /\ num_tokens r < max_len /\ num_output_tokens r < max_tokens r) r.
Proof.
  intros [[sp Hsp] Hpp _ _] Hout. pose proof (check_stop_decides r sp ts t max_len Hpp Hsp Hout) as E.
  unfold wp. rewrite E. unfold stop_spec. clear E.
  destruct (bool_decide (eos_token_id sp = _)); [by eexists _, _|]. destruct (bool_decide (t ∈ _)); [by eexists _, _|].
  destruct (decide (_ \/ _)); [by eexists _, _|]. destruct (decide (_ /\ _)); [by eexists _, _|]. split_and!; [done|lia|lia].
Qed.

(** What the loop over the new tokens leaves: all of them appended, or the
    request stopped behind one of them. *)
Definition absorbed (ts : list Z) (r : Request) (kept : list Z) (stopped : bool) (r' : Request) : Prop :=
  if stopped then exists r1 st reason, kept `prefix_of` ts /\ appended kept r r1 /\ r' = set_stop_reason reason (set_status st r1) /\
    status_is_finished st = true
  else kept = ts /\ appended ts r r' /\ fits r' /\ (ts <> [] -> num_output_tokens r' < max_tokens r').

Context (cfg : SchedulerConfig).
Hypothesis cfg_len : sched_max_model_len cfg = max_len.
Lemma append_until_stop_ok ts : forall kept r, fits r -> served r ->
  wp (Update.append_until_stop cfg hasher kept ts) (fun res r' => exists new, res.1 = kept ++ new /\ absorbed ts r new res.2 r') r.
Proof.
  induction ts as [|t ts IH]; intros kept r Hf Hs; cbn [Update.append_until_stop].
  { wp_simpl. exists []. rewrite app_nil_r. split; [done|]. split_and!; try done. apply appended_nil. }
  rewrite wp_bind. eapply wp_mono; [by apply hasher_keeps|]. intros [] r1 [Ha Hf1]. pose proof Ha as (hs & m & Er1).
  assert (served r1) as Hs1 by (subst r1; by destruct Hs).
  assert (output_token_ids r1 = output_token_ids r ++ [t]) as Hout by (by subst r1).
  rewrite wp_bind, cfg_len. eapply wp_mono; [by eapply check_stop_ok|]. intros [] r2 Hr2; wp_simpl.
  - destruct Hr2 as (st & reason & -> & Hst). exists [t]. split; [done|]. exists r1, st, reason. split_and!; try done. by exists ts.
  - destruct Hr2 as (-> & Hlen & Hmax). eapply wp_mono; [apply IH; [apply Hf1; lia|done]|].
    intros [kept' stopped] r' (new & E & Habs). cbn [fst snd] in *. exists (t :: new). split; [by rewrite E, <- app_assoc|].
    destruct stopped; cbn in *.
    + destruct Habs as (r3 & st & reason & Hpre & Ha3 & -> & Hst). exists r3, st, reason. split_and!; try done; [by apply prefix_cons|].
      by apply (appended_trans [t] new r r1).
    + destruct Habs as (-> & Ha3 & Hf3 & Hlt). split_and!; [done|by apply (appended_trans [t] ts r r1)|done|].
      intros _. destruct ts; [|by apply Hlt]. destruct Ha3 as (? & ? & ->). unfold num_output_tokens in *. cbn. by rewrite app_nil_r.
Qed.
Lemma update_request_with_output_ok ts r : fits r -> served r ->
  wp (Update.update_request_with_output cfg hasher ts) (fun res r' => absorbed ts r res.1 res.2 r') r.
Proof.
  intros Hf Hs. eapply wp_mono; [by apply append_until_stop_ok|]. intros [kept stopped] r' (new & E & H). cbn in *. by subst.
Qed.
End tokens.

(** ** What the model runner promises *)

(** The tokens reported for [id]. *)
Definition generated_for (mo : ModelRunnerOutput) (id : string) : list Z :=
  match sampled_token_ids mo with
  | [] => []
  | _ => default [] (i ← req_id_to_index mo !! id; py_get (sampled_token_ids mo) i)
  end.
(** Every scheduled request has a row; no more drafts are accepted than were
    scheduled; logprobs of a prompt come with its first token. *)
Record model_ok (cfg : SchedulerConfig) (out : SchedulerOutput) (mo : ModelRunnerOutput) : Prop := {
  mo_row : forall id, id ∈ (out_num_scheduled_tokens out).*1 -> exists i, req_id_to_index mo !! id = Some i /\
    (sampled_token_ids mo <> [] -> is_Some (py_get (sampled_token_ids mo) i)) /\
    (forall rows, pooler_output mo = Some rows -> rows <> [] -> is_Some (py_get rows i));
  mo_accepted : forall id d, out_spec_decode_tokens out !! id = Some d -> d <> [] ->
    zlen (generated_for mo id) <= num_sampled_tokens_per_step cfg + zlen d;
  mo_logprobs : forall id, id ∈ prompt_logprobs_dict mo \/ id ∈ prompt_token_id_logprobs_dict mo -> generated_for mo id <> []
}.

Section result.
Context {Q K : Type} `{!RequestQueue Q, !RequestQueueLaws Q} `{!KVOps K} (cfg : SchedulerConfig)
  `{!KVLaws K (sched_max_model_len cfg)} (obj : string -> Z) (hasher : block_hasher_t) (accept : Request -> list Z -> bool).
Abbreviation S := (Scheduler Q K).
Abbreviation Us := (Scheduler Q K * UpdateState)%type.
Abbreviation max_len := (sched_max_model_len cfg).
Abbreviation kv s := (kv_cache_manager s).
Abbreviation covers := (kv_covers (max_len := max_len)).
Abbreviation fits := (kv_fits (max_len := max_len)).
Hypothesis hasher_keeps : forall r t, fits r ->
  wp (append_output_token_ids hasher [t]) (fun _ r' => appended [t] r r' /\ (num_tokens r' <= max_len -> fits r')) r.

(** ** Reports *)

(** The outputs say that [id] has finished. *)
Definition reported (outs : gmap Z (list EngineCoreOutput)) (id : string) : Prop :=
  exists client o, o ∈ default [] (outs !! client) /\ o_request_id o = id /\ is_Some (o_finish_reason o).
Definition reports_stopped (u : UpdateState) : Prop := forall id, reported (outputs u) id <-> id ∈ stopped_running_reqs u.
Lemma reported_emit c o u id : reported (outputs (emit_output c o u)) id <->
  reported (outputs u) id \/ (o_request_id o = id /\ is_Some (o_finish_reason o)).
Proof.
  unfold reported. cbn. split.
  - intros (c' & o' & Hin & Ho). destruct (decide (c' = c)) as [->|Hne]; [|rewrite lookup_insert_ne in Hin by done; left; by exists c', o'].
    rewrite lookup_insert_eq in Hin. cbn in Hin. apply elem_of_app in Hin as [Hin|Hin]; [left; by exists c, o'|]. apply list_elem_of_singleton in Hin as ->. by right.
  - intros [(c' & o' & Hin & Ho)|Ho].
    + exists c', o'. split; [|done]. destruct (decide (c' = c)) as [->|Hne]; [rewrite lookup_insert_eq; cbn; set_solver|by rewrite lookup_insert_ne].
    + exists c, o. rewrite lookup_insert_eq. cbn. split; [set_solver|done].
Qed.
Lemma finished_reason r : is_finished r = true -> is_Some (get_finished_reason r).
Proof. unfold is_finished, get_finished_reason. destruct (status r); cbn; intros E; first [discriminate E|by eexists]. Qed.

(** ** One request object changes *)

Record only (id : string) (r' : Request) (s s' : S) : Prop := {
  on_running : running s' = running s;
  on_queues : kept_queues s s';
  on_kv : kv s' = kv s;
  on_side : sidelines s' = sidelines s;
  on_requests : requests s' = <[id := r']> (requests s)
}.
Lemma only_refl id r s : requests s !! id = Some r -> only id r s s.
Proof. intros E. split; try done. by rewrite insert_id. Qed.
Lemma only_trans id r1 r2 s s1 s2 : only id r1 s s1 -> only id r2 s1 s2 -> only id r2 s s2.
Proof.
  intros [A1 [A2 A2'] A3 A4 A5] [B1 [B2 B2'] B3 B4 B5]. split; try congruence; [split; congruence|]. by rewrite B5, A5, insert_insert_eq.
Qed.
Lemma only_lookup id r s s' : only id r s s' -> requests s' !! id = Some r.
Proof. intros []. rewrite on_requests0. apply lookup_insert_eq. Qed.
Lemma wp_update_only id f (s : S) r : requests s !! id = Some r -> wp (Sched.update_request id f) (fun _ s' => only id (f r) s s') s.
Proof. intros E. unfold Sched.update_request. rewrite wp_modify. split; try done. cbn. by apply alter_some. Qed.
Lemma wp_on_known_request {A} id (f : M Request A) (Qp : A -> S -> Prop) s r : requests s !! id = Some r ->
  wp (Update.on_request id f) Qp s <-> wp f (fun a r' => Qp a (set_requests (<[id := r']> (requests s)) s)) r.
Proof. intros E. unfold wp, Update.on_request. rewrite E. by destruct (f r) as [[]]. Qed.

(** The request [r] as it stands in the update: running, with the slots of its
    computed tokens. *)
Record current (k : K) (r : Request) : Prop := {
  cu_status : status r = RUNNING;
  cu_fits : fits r;
  cu_tokens : 1 <= num_tokens r;
  cu_preemptions : 0 <= num_preemptions r;
  cu_range : 0 <= num_computed_tokens r <= max_len;
  cu_covers : covers k (request_id r) (num_computed_tokens r);
  cu_ledger : ledger r = (0, 0, 0);
  cu_served : served r;
  cu_limit : num_output_tokens r < max_tokens r
}.
Definition same_id (r r' : Request) : Prop := request_id r' = request_id r /\ obj_id r' = obj_id r.

Definition none : string -> Z * Z := fun _ => (0, 0).
Lemma current_running fl k r : fl (request_id r) = (0, 0) -> current k r -> running_ok cfg fl k r.
Proof. intros E [H1 H2 H3 H4 H5 H6 H7 H8 H9]. unfold ledger in H7. injection H7 as L1 L2 L3. split; try done. split; rewrite ?E; cbn; try done; lia. Qed.
Lemma landed_current fl n k r : fl (request_id r) = (0, n) -> running_ok cfg fl k r -> current k (Update.landed n r) /\ num_stale_output_tokens r = 0.
Proof.
  intros E [H1 H2 H3 H4 H5 H6 [O1 O2 O3 O4 O5]]. rewrite E in O1, O2. cbn in O1, O2. assert (num_stale_output_tokens r = 0) as Est by lia.
  split; [|done]. split; try done; [by eapply (kv_fits_content r)| |by destruct O4]. unfold ledger, Update.landed. cbn. rewrite Est. cbn. f_equal; [f_equal|]; lia.
Qed.

(** ** Rejected drafts *)

Lemma roll_back_current n k r : 0 <= n <= num_computed_tokens r -> current k r -> current k (Update.roll_back n r).
Proof.
  intros Hn [H1 H2 H3 H4 H5 H6 H7 H8 H9]. unfold ledger in H7. injection H7 as L1 L2 L3.
  assert (num_computed_tokens (Update.roll_back n r) = num_computed_tokens r - n) as Ec by (cbn; case_match; bools; lia).
  split; try done.
  - by eapply (kv_fits_content r).
  - rewrite Ec. lia.
  - rewrite Ec. eapply kv_covers_le; [exact H6|lia].
  - unfold ledger. cbn. rewrite L1, L2, L3. done.
  - by destruct H8.
Qed.
Lemma reject_drafts_ok id d g (s : S) r : requests s !! id = Some r -> request_id r = id -> current (kv s) r ->
  0 <= num_sampled_tokens_per_step cfg ->
  (forall d', d = Some d' -> d' <> [] -> zlen d' <= num_computed_tokens r /\ zlen g <= num_sampled_tokens_per_step cfg + zlen d') ->
  wp (Update.reject_drafts cfg id d g false) (fun _ s' => exists r', only id r' s s' /\ same_id r r' /\ current (kv s) r') s.
Proof.
  intros E Ei Hc Hns Hd. unfold Update.reject_drafts. destruct d as [[|x d]|]; try (wp_simpl; exists r; split_and!; try done; by apply only_refl).
  destruct (_ && _); [|wp_simpl; exists r; split_and!; try done; by apply only_refl].
  destruct (Hd _ eq_refl) as [H1 H2]; [done|].
  eapply wp_mono; [by apply wp_update_only|]. intros [] s' Ho. exists (Update.roll_back (Update.num_rejected cfg (x :: d) g) r). split_and!; try done.
  apply roll_back_current; [|done]. unfold Update.num_rejected. lia.
Qed.

(** ** New tokens *)

(** What the update makes of the request [r]: it goes on, or it has stopped. *)
Definition verdict (k : K) (r : Request) (stopped : bool) (r' : Request) : Prop :=
  same_id r r' /\ if stopped then is_finished r' = true else current k r'.

Lemma appended_current ts k r r' : appended ts r r' -> fits r' -> (ts <> [] -> num_output_tokens r' < max_tokens r') -> current k r -> current k r'.
Proof.
  intros (hs & m & ->) Hf Hlim [H1 H2 H3 H4 H5 H6 H7 H8 H9]. split; try done; [|by destruct H8|].
  - unfold num_tokens in *. cbn. rewrite length_app. lia.
  - destruct ts; [|by apply Hlim]. unfold num_output_tokens in *. cbn. by rewrite app_nil_r.
Qed.
Lemma absorbed_verdict ts k r kept stopped r' : absorbed fits ts r kept stopped r' -> current k r -> verdict k r stopped r'.
Proof.
  unfold absorbed. destruct stopped; [intros (r1 & st & reason & _ & (hs & m & ->) & -> & Hst) _; by split|].
  intros (_ & Ha & Hf & Hlim) Hc. split; [by destruct Ha as (? & ? & ->)|by eapply appended_current].
Qed.

Lemma consume_ok id g pooled (s : S) r : requests s !! id = Some r -> request_id r = id -> current (kv s) r ->
  wp (Update.consume cfg hasher id g pooled) (fun res s' => exists r', only id r' s s' /\ verdict (kv s) r res.2 r' /\
    (res.2 = false -> res.1 = g)) s.
Proof.
  intros E Ei Hc. unfold Update.consume. rewrite wp_bind. eapply wp_the_request; [exact E|]. destruct g as [|t g].
  - destruct (_ || _); wp_simpl; [|exists r; split_and!; try done; by apply only_refl].
    eapply wp_mono; [by apply wp_update_only|]. intros [] s' Ho. exists (set_status FINISHED_STOPPED r). by split_and!.
  - rewrite (wp_on_known_request _ _ _ _ r) by done.
    eapply wp_mono; [eapply (update_request_with_output_ok max_len fits); [done|done|apply Hc|apply Hc]|]. intros [kept stopped] r' Ha. cbn [fst snd] in *.
    exists r'. split_and!; [done|by eapply absorbed_verdict|]. intros ->. by destruct Ha.
Qed.

Lemma check_grammar_ok id new stopped (s : S) r0 r : requests s !! id = Some r -> verdict (kv s) r0 stopped r ->
  wp (Update.check_grammar accept id new stopped) (fun res s' => exists r', only id r' s s' /\ verdict (kv s) r0 res r' /\
    (res = false -> stopped = false)) s.
Proof.
  intros E Hv. unfold Update.check_grammar. rewrite wp_bind. eapply wp_the_request; [exact E|]. destruct (_ && _); wp_simpl.
  - eapply wp_mono; [by apply wp_update_only|]. intros [] s' Ho. eexists. split_and!; [exact Ho|by destruct Hv|done].
  - exists r. split_and!; try done. by apply only_refl.
Qed.

Lemma take_stats_ok id (s : S) r : requests s !! id = Some r ->
  wp (Update.take_prefill_stats id) (fun _ s' => only id r s s') s.
Proof.
  intros E. unfold Update.take_prefill_stats. rewrite wp_bind, wp_gets. destruct (bool_decide _); [|wp_simpl; by apply only_refl].
  rewrite wp_bind. eapply wp_the_request; [exact E|]. wp_simpl. pose proof (law_estimate (max_len := max_len) (kv s) r) as H. split; [lia|].
  split; try done. cbn. by rewrite insert_id.
Qed.

(** ** The loop over the scheduled requests *)

(** Stopped requests stay on the running list until the loop ends. *)
Definition trimmed (u : UpdateState) (s : S) : S := set_running (filter (fun id => id ∉ stopped_running_reqs u) (running s)) s.

Context (l0 : StepState).
Hypothesis l0_quiet : no_skips l0.
Hypothesis sampled_nonneg : 0 <= num_sampled_tokens_per_step cfg.
Abbreviation inv fl P := (inv cfg fl P obj []).

Lemma inv_agree fl fl' P s : NoDup P -> (forall x, x ∈ P -> fl' x = fl x) -> inv fl P s l0 -> inv fl' P s l0.
Proof.
  intros HP Hfl Hi. eapply (inv_objects cfg fl); [done|exact Hi|done|done|done|apply Hi|done|done|]. intros id r Hid E Ei. exists r. split_and!; try done; intros _.
  - apply running_ok_agree. rewrite Ei. auto.
  - apply waiting_ok_agree. rewrite Ei. auto.
Qed.

Lemma inv_only fl fl' P u s s' id r r' : NoDup P -> inv fl P (trimmed u s) l0 -> requests s !! id = Some r -> id ∈ running (trimmed u s) ->
  only id r' s s' -> (forall x, x <> id -> fl' x = fl x) -> request_id r' = id -> obj_id r' = obj_id r -> running_ok cfg fl' (kv s) r' ->
  inv fl' P (trimmed u s') l0.
Proof.
  intros HP Hi E Hrun [O1 [O2 O2'] O3 O4 O5] Hfl Ei Eo Hro. eapply (inv_objects cfg fl fl'); try done; cbn.
  - by rewrite O1.
  - rewrite O3. apply Hi.
  - intros x. rewrite O5. destruct (decide (x = id)) as [->|Hne]; [by intros _; eexists|]. by rewrite lookup_insert_ne.
  - by rewrite O3.
  - rewrite O5, O3. intros x r0 Hx E0 Ei0. destruct (decide (x = id)) as [->|Hne].
    + exists r'. rewrite lookup_insert_eq. rewrite app_nil_r. split_and!; [done|done|congruence|done|]. by intros [].
    + exists r0. rewrite lookup_insert_ne by done. split_and!; try done; intros _.
      * apply running_ok_agree. rewrite Ei0. auto.
      * apply waiting_ok_agree. rewrite Ei0. auto.
Qed.

(** [todo]: the entries that are left. *)
Record updating (out : SchedulerOutput) (P : list string) (todo : list (string * Z)) (s : S) (u : UpdateState) : Prop := {
  up_population : population obj P;
  up_inv : inv (flown none todo) P (trimmed u s) l0;
  up_nodup : NoDup (running s);
  up_keys : NoDup todo.*1;
  up_todo : forall id n, (id, n) ∈ todo -> 0 < n /\ (requests s !! id = None \/ id ∈ running (trimmed u s));
  up_drafts : forall id n d r, (id, n) ∈ todo -> out_spec_decode_tokens out !! id = Some d -> requests s !! id = Some r ->
    zlen d <= num_computed_tokens r;
  up_stopped : stopped_preempted_reqs u = []
}.

Lemma flown_skip id n todo x : x <> id -> flown none todo x = flown none ((id, n) :: todo) x.
Proof. intros Hne. unfold flown. rewrite filter_cons_False by (cbn; congruence). done. Qed.
Lemma flown_first id n todo : NoDup ((id, n) :: todo).*1 -> flown none ((id, n) :: todo) id = (0, n) /\ flown none todo id = (0, 0).
Proof.
  intros Hnd. split; [rewrite (flown_one none _ id n); [done|done|by left]|]. apply flown_other. cbn in Hnd. by apply NoDup_cons in Hnd as [? _].
Qed.

(** The entry of a request that is gone. *)
Lemma updating_skip out P id n todo s u : updating out P ((id, n) :: todo) s u -> requests s !! id = None -> updating out P todo s u.
Proof.
  intros [U1 U2 U3 U4 U5 U6 U7] E. split; try done.
  - eapply inv_agree; [apply U1| |exact U2]. intros x Hx. apply flown_skip. intros ->.
    destruct (inv_lookup cfg _ P obj [] _ _ id U2 Hx) as (r & E' & _). cbn in E'. congruence.
  - cbn in U4. by apply NoDup_cons in U4 as [_ ?].
  - intros x m Hx. apply U5. by right.
  - intros x m d r Hx. apply (U6 x m). by right.
Qed.

(** A request that goes on. *)
Lemma updating_goes_on out P id n todo s u r s' r' : updating out P ((id, n) :: todo) s u -> requests s !! id = Some r ->
  only id r' s s' -> same_id r r' -> current (kv s) r' -> updating out P todo s' u.
Proof.
  intros [U1 U2 U3 U4 U5 U6 U7] E Ho [Ei Eo] Hc. destruct (flown_first _ _ _ U4) as [F1 F2]. pose proof Ho as [O1 O2 O3 O4 O5].
  destruct (U5 id n) as [_ [En|Hrun]]; [by left|congruence|]. cbn in U4. apply NoDup_cons in U4 as [Hnid U4].
  assert (request_id r = id) as Eid.
  { destruct (inv_lookup cfg _ P obj [] _ _ id U2) as (r0 & E0 & ? & _); [apply (inv_member cfg _ P obj [] _ _ id U2); by rewrite app_nil_r|].
    cbn in E0. congruence. }
  split; try done.
  - eapply (inv_only (flown none ((id, n) :: todo))); try done; [apply U1|intros x Hne; by apply flown_skip|congruence|].
    apply current_running; [|done]. rewrite Ei, Eid. done.
  - by rewrite O1.
  - intros x m Hx. assert (x <> id) as Hne by (intros ->; apply Hnid, list_elem_of_fmap; by exists (id, m)).
    destruct (U5 x m) as [? Hor]; [by right|]. split; [done|]. rewrite O5, lookup_insert_ne by done. unfold trimmed in *. cbn in *. by rewrite O1.
  - intros x m d r0 Hx. assert (x <> id) as Hne by (intros ->; apply Hnid, list_elem_of_fmap; by exists (id, m)).
    rewrite O5, lookup_insert_ne by done. apply (U6 x m). by right.
Qed.

(** A request that has stopped. *)
Lemma updating_stops out P id n todo s u s' u' : updating out P ((id, n) :: todo) s u -> is_Some (requests s !! id) ->
  running s' = running s -> kept_queues s s' -> (forall x, requests s' !! x = if decide (x = id) then None else requests s !! x) ->
  kv_drops cfg {[id]} (kv s) (kv s') -> stopped_running_reqs u' = stopped_running_reqs u ∪ {[id]} -> stopped_preempted_reqs u' = [] ->
  updating out (filter (fun x => x ∉ ({[id]} : gset string)) P) todo s' u'.
Proof.
  intros [U1 U2 U3 U4 U5 U6 U7] [r E] Er [Ew Ek] Em Hd Eu Ep. destruct (U5 id n) as [_ [En|Hrun]]; [by left|congruence|].
  cbn in U4. apply NoDup_cons in U4 as [Hnid U4].
  assert (forall x m, (x, m) ∈ todo -> x <> id) as Hne by (intros x m Hx ->; apply Hnid, list_elem_of_fmap; by exists (id, m)).
  assert (running (trimmed u' s') = filter (fun x => x ∉ ({[id]} : gset string)) (running (trimmed u s))) as Etr.
  { unfold trimmed. cbn. rewrite Er, Eu, list_filter_filter. apply filter_ext_in. intros x _. set_solver. }
  assert (dropped cfg {[id]} (trimmed u s) (trimmed u' s')) as Hdrop.
  { split; [done| | |done].
    - intros lw lk Hq. destruct (queues_perm cfg _ P obj _ _ lw lk U2 Hq) as [Hp _]. unfold queued in Hp. destruct l0_quiet as [N1 N2].
      rewrite N1, N2, !app_nil_r in Hp. assert (NoDup (running (trimmed u s) ++ map request_id (lw ++ lk))) as Hnd by (rewrite Hp; apply U1).
      apply NoDup_app in Hnd as (_ & Hx & _).
      assert (forall q, q ∈ lw ++ lk -> stays {[id]} q) as Hst.
      { intros q Hin. unfold stays. rewrite elem_of_singleton. intros Eq. apply (Hx id Hrun). rewrite <- Eq. apply list_elem_of_fmap. by exists q. }
      rewrite !list_filter_id by (intros q Hin; apply Hst; set_solver). unfold queues in *. cbn in *. by rewrite Ew, Ek.
    - intros x. cbn. rewrite Em. repeat case_decide; set_solver. }
  split; try done.
  - by apply population_filter.
  - eapply inv_agree; [|intros x Hx; apply flown_skip|by apply (inv_dropped cfg obj _ P _ _ _ _ U2)].
    + by apply NoDup_filter, U1.
    + apply list_elem_of_filter in Hx as [Hx _]. set_solver.
  - by rewrite Er.
  - intros x m Hx. destruct (U5 x m) as [? Hor]; [by right|]. specialize (Hne x m Hx). split; [done|]. rewrite Em, decide_False, Etr by done.
    destruct Hor as [?|?]; [by left|right]. apply list_elem_of_filter. split; [set_solver|done].
  - intros x m d r0 Hx. rewrite Em, decide_False by (by eapply Hne). apply (U6 x m). by right.
Qed.

Lemma stop_request_ok r r' (s0 s : S) u : requests s0 !! request_id r = Some r -> only (request_id r) r' s0 s -> same_id r r' ->
  is_finished r' = true -> kv_ok (max_len := max_len) (kv s0) ->
  wp (Update.stop_request r' RUNNING) (fun _ x => running x.1 = running s0 /\ kept_queues s0 x.1 /\ sidelines x.1 = sidelines s0 /\
    (forall y, requests x.1 !! y = if decide (y = request_id r) then None else requests s0 !! y) /\ kv_drops cfg {[request_id r]} (kv s0) (kv x.1) /\
    stopped_running_reqs x.2 = stopped_running_reqs u ∪ {[request_id r]} /\ stopped_preempted_reqs x.2 = stopped_preempted_reqs u /\
    outputs x.2 = outputs u) (s, u).
Proof.
  intros E Ho [Ei Eo] Hf Hk. pose proof Ho as [O1 [O2 O2'] O3 O4 O5]. unfold Update.stop_request, Update.on_sched, Update.on_update.
  rewrite wp_bind, wp_zoom. cbn [fst snd].
  eapply wp_mono; [apply (request_freed_ok cfg); [done|rewrite Ei, (only_lookup _ _ _ _ Ho); by eexists|by rewrite O3]|].
  intros [] s' (F1 & [F2 F2'] & F3 & F4 & F5). rewrite wp_zoom, wp_modify. rewrite bool_decide_eq_true_2 by done. cbn [fst snd stopped_running_reqs stopped_preempted_reqs].
  rewrite Ei, O3 in *. split; [congruence|]. split; [split; congruence|]. split; [congruence|]. split; [|split; [exact F5|done]].
  intros y. rewrite F4, O5. case_decide as Hy; [subst y; apply lookup_delete_eq|]. by rewrite lookup_delete_ne, lookup_insert_ne by done.
Qed.

Lemma emit_ok (r : Request) new stopped pooled stats (s : S) u :
  wp (Update.emit_request r new stopped pooled stats) (fun _ (x : Us) => x.1 = set_requests (alter (set_events []) (request_id r) (requests s)) s /\
    stopped_running_reqs x.2 = stopped_running_reqs u /\ stopped_preempted_reqs x.2 = stopped_preempted_reqs u /\
    exists o, x.2 = emit_output (client_index r) o u /\ o_request_id o = request_id r /\
      o_finish_reason o = if stopped then get_finished_reason r else None) (s, u).
Proof. unfold wp. cbn. split_and!; try done. by eexists. Qed.
Lemma current_events k r : current k r -> current k (set_events [] r).
Proof. intros [H1 H2 H3 H4 H5 H6 H7 H8 H9]. split; try done; [by eapply (kv_fits_content r)|by destruct H8]. Qed.

(** The end of an iteration. *)
Lemma conclude_ok out P id n todo s u r s1 r1 new stopped pooled stats :
  updating out P ((id, n) :: todo) s u -> requests s !! id = Some r -> request_id r = id -> only id r1 s s1 -> verdict (kv s) r stopped r1 ->
  wp ((if stopped : bool then Update.stop_request r1 RUNNING else ret tt) ;; Update.emit_request r1 new stopped pooled stats) (fun _ x =>
    sidelines x.1 = sidelines s /\ running x.1 = running s /\ (reports_stopped u -> reports_stopped x.2) /\
    if stopped then updating out (filter (fun x => x ∉ ({[id]} : gset string)) P) todo x.1 x.2 /\ stopped_running_reqs x.2 = stopped_running_reqs u ∪ {[id]}
    else updating out P todo x.1 x.2 /\ stopped_running_reqs x.2 = stopped_running_reqs u) (s1, u).
Proof.
  intros Hup E Ei Ho [Hid Hv]. rewrite wp_bind. destruct stopped.
  - eapply wp_mono; [eapply (stop_request_ok r r1 s s1 u); rewrite ?Ei; try done; apply (up_inv _ _ _ _ _ Hup)|].
    intros [] [s2 u2] (F1 & [F2 F2'] & F3 & F4 & F5 & F6 & F7 & F8). cbn [fst snd] in *. rewrite Ei in *. eapply wp_mono; [apply emit_ok|].
    intros [] [s3 u3] (-> & G1 & G2 & o & G3 & G4 & G5). cbn [fst snd] in *.
    assert (alter (set_events []) (request_id r1) (requests s2) = requests s2) as ->.
    { apply alter_id. intros x Ex. destruct Hid as [Eid _]. rewrite Eid, Ei, F4, decide_True in Ex by done. done. }
    split; [exact F3|]. split; [exact F1|]. split.
    { intros Hrep id'. destruct Hid as [Eid _]. rewrite G1, F6, G3, reported_emit, F8, (Hrep id'), G4, G5, Eid, Ei.
      pose proof (finished_reason r1 Hv). set_solver. }
    split; [|by rewrite G1, F6].
    eapply (updating_stops out P id n todo s u _ u3 Hup); [by eexists|exact F1|by split|exact F4|exact F5|by rewrite G1|].
    by rewrite G2, F7, (up_stopped _ _ _ _ _ Hup).
  - wp_simpl. eapply wp_mono; [apply emit_ok|]. intros [] [s3 u3] (-> & G1 & G2 & o & G3 & _ & G5). cbn [fst snd] in *.
    assert (only id (set_events [] r1) s (set_requests (alter (set_events []) (request_id r1) (requests s1)) s1)) as Ho'.
    { eapply only_trans; [exact Ho|]. split; try done. cbn. destruct Hid as [Eid _]. rewrite Eid, Ei. by apply alter_some, (only_lookup id r1 s). }
    split; [apply Ho'|]. split; [apply Ho'|]. split.
    { intros Hrep id'. rewrite G1, G3, reported_emit, (Hrep id'), G5. split; [by intros [?|[_ []]]|by left]. }
    split; [|done].
    assert (updating out P todo (set_requests (alter (set_events []) (request_id r1) (requests s1)) s1) u) as [V1 V2 V3 V4 V5 V6 V7].
    { eapply updating_goes_on; try done. by apply current_events. }
    split; try done; unfold trimmed in *; try (by rewrite G1). by rewrite G2.
Qed.

(** The request at the head of the list, once its tokens have landed. *)
Lemma landing out P id n todo s u r : updating out P ((id, n) :: todo) s u -> requests s !! id = Some r ->
  request_id r = id /\ status r = RUNNING /\ num_stale_output_tokens r = 0 /\ current (kv s) (Update.landed n r).
Proof.
  intros Hup E. pose proof Hup as [U1 U2 U3 U4 U5 U6 U7]. destruct (U5 id n) as [_ [En|Hrun]]; [by left|congruence|].
  destruct (flown_first _ _ _ U4) as [F1 _].
  destruct (inv_lookup cfg _ P obj [] _ _ id U2) as (r0 & E0 & Ei & _); [apply (inv_member cfg _ P obj [] _ _ id U2); by rewrite app_nil_r|].
  cbn in E0. assert (r0 = r) as -> by congruence.
  assert (running_ok cfg (flown none ((id, n) :: todo)) (kv s) r) as Hro by (eapply (iv_running _ _ _ _ _ _ _ U2 id); [by rewrite app_nil_r|done]).
  destruct (landed_current (flown none ((id, n) :: todo)) n (kv s) r) as [Hc Hst]; [by rewrite Ei|done|]. split_and!; try done. apply Hro.
Qed.

Lemma rows_ok out mo id : model_ok cfg out mo -> id ∈ (out_num_scheduled_tokens out).*1 -> exists i g pooled,
  req_id_to_index mo !! id = Some i /\ g = generated_for mo id /\
  match sampled_token_ids mo with [] => Ok [] | _ => or_raise (py_get (sampled_token_ids mo) i) IndexError end = Ok g /\
  match pooler_output mo with None | Some [] => Ok None | Some rows => or_raise (py_get rows i) IndexError end = Ok pooled.
Proof.
  intros [M1 _ _] Hid. destruct (M1 id Hid) as (i & Ei & Hg & Hp). exists i.
  assert (exists pooled, match pooler_output mo with None | Some [] => Ok None | Some rows => or_raise (py_get rows i) IndexError end = Ok pooled) as [pooled Epo].
  { destruct (pooler_output mo) as [[|x rows]|]; [by eexists| |by eexists]. destruct (Hp _ eq_refl) as [y ->]; [done|]. by eexists. }
  unfold generated_for. rewrite Ei. cbn. destruct (sampled_token_ids mo) as [|x rows]; [by eexists [], pooled|].
  destruct Hg as [g Eg]; [done|]. exists g, pooled. rewrite Eg. by split_and!.
Qed.

Lemma process_output_ok out mo P id n todo s u : model_ok cfg out mo -> id ∈ (out_num_scheduled_tokens out).*1 ->
  updating out P ((id, n) :: todo) s u ->
  wp (Update.process_output cfg hasher accept out mo id n) (fun _ x => sidelines x.1 = sidelines s /\ running x.1 = running s /\
    (reports_stopped u -> reports_stopped x.2) /\ exists gone : gset string, (forall y, y ∈ gone -> y ∈ P) /\
      updating out (filter (fun x => x ∉ gone) P) todo x.1 x.2 /\ stopped_running_reqs x.2 = stopped_running_reqs u ∪ gone) (s, u).
Proof.
  intros Hmo Hid Hup.
  unfold Update.process_output. rewrite wp_bind, wp_assert. destruct (up_todo _ _ _ _ _ Hup id n) as [Hn _]; [by left|]. split; [lia|].
  rewrite wp_bind, wp_gets. cbn [fst]. destruct (requests s !! id) as [r|] eqn:E.
  2: { rewrite wp_ret. split_and!; try done. exists ∅. split; [set_solver|].
    rewrite list_filter_id, union_empty_r_L by set_solver. split; [by eapply updating_skip|done]. }
  assert (id ∈ P) as HidP by (apply (iv_domain _ _ _ _ _ _ _ (up_inv _ _ _ _ _ Hup)); by eexists).
  destruct (landing _ _ _ _ _ _ _ _ Hup E) as (Ei & Est & Es & Hc). rewrite Es. cbn [Z.gtb Z.compare].
  destruct (rows_ok out mo id Hmo Hid) as (i & g & pooled & Eidx & Eg & Esam & Epool).
  rewrite wp_bind. unfold Update.on_sched at 1. rewrite wp_zoom. eapply wp_mono; [by apply wp_update_only|].
  intros [] s1 Ho1. cbn [fst snd]. pose proof (on_kv _ _ _ _ Ho1) as Ek1. rewrite wp_bind, wp_ret.
  assert (is_finished r = false) as Hfin by (unfold is_finished; by rewrite Est). rewrite Hfin. cbn [orb andb].
  rewrite wp_bind, wp_lift. exists i. rewrite Eidx. split; [done|]. rewrite wp_bind, wp_lift. exists g. split; [exact Esam|].
  rewrite wp_bind. unfold Update.on_sched at 1. rewrite wp_zoom. cbn [fst snd].
  eapply wp_mono; [eapply (reject_drafts_ok id _ g s1 (Update.landed n r)); [by apply (only_lookup id _ s)|done|by rewrite Ek1|done|]|].
  { intros d Ed Hne. split; [exact (up_drafts _ _ _ _ _ Hup id n d r ltac:(by left) Ed E)|]. subst g. by apply (mo_accepted _ _ _ Hmo). }
  intros [] s2 (r2 & Ho2 & Hid2 & Hc2). cbn [fst snd]. pose proof (only_trans _ _ _ _ _ _ Ho1 Ho2) as Ho12.
  rewrite Ek1 in Hc2. pose proof (on_kv _ _ _ _ Ho12) as Ek2.
  rewrite wp_bind, wp_lift. exists pooled. split; [exact Epool|]. rewrite wp_bind. unfold Update.on_sched at 1. rewrite wp_zoom. cbn [fst snd].
  assert (request_id r2 = id) as Ei2 by (destruct Hid2 as [-> _]; done).
  eapply wp_mono; [apply (consume_ok id g pooled s2 r2); [by apply (only_lookup id _ s)|done|by rewrite Ek2]|].
  intros [new stopped] s3 (r3 & Ho3 & Hv3 & Hnew). cbn [fst snd] in *. rewrite Ek2 in Hv3. pose proof (only_trans _ _ _ _ _ _ Ho12 Ho3) as Ho13.
  pose proof (on_kv _ _ _ _ Ho13) as Ek3.
  rewrite wp_bind. unfold Update.on_sched at 1. rewrite wp_zoom. cbn [fst snd].
  eapply wp_mono; [apply (check_grammar_ok id new stopped s3 r2 r3); [by apply (only_lookup id _ s)|by rewrite Ek3]|].
  intros stopped' s4 (r4 & Ho4 & Hv4 & Hst). cbn [fst snd]. rewrite Ek3 in Hv4. pose proof (only_trans _ _ _ _ _ _ Ho13 Ho4) as Ho14.
  assert (verdict (kv s) r stopped' r4) as Hv by (destruct Hv4 as [[V1 V2] V3], Hid2 as [W1 W2]; split; [split; [rewrite V1; exact W1|rewrite V2; exact W2]|done]).
  destruct (_ || _ || _) eqn:Emit.
  - rewrite wp_bind. unfold Update.on_sched at 1. rewrite wp_zoom. cbn [fst snd].
    eapply wp_mono; [apply (take_stats_ok id s4 r4); by apply (only_lookup id _ s)|]. intros stats s5 Ho5. cbn [fst snd].
    pose proof (only_trans _ _ _ _ _ _ Ho14 Ho5) as Ho15. rewrite wp_bind. unfold Update.on_sched at 1. rewrite wp_zoom. cbn [fst snd].
    eapply wp_the_request; [by apply (only_lookup id _ s)|]. cbn [fst snd]. rewrite Est.
    eapply wp_mono; [by apply (conclude_ok out P id n todo s u r s5 r4)|]. intros [] x (X1 & X2 & Xr & X3). split_and!; try done.
    destruct stopped'; destruct X3 as [X3 X4]; [exists {[id]}; split; [set_solver|done]|].
    exists ∅. split; [set_solver|]. by rewrite list_filter_id, union_empty_r_L by set_solver.
  - apply orb_false_iff in Emit as [Emit ->]. apply orb_false_iff in Emit as [Enew _]. bools. rewrite (Hnew (Hst eq_refl)) in Enew.
    assert (generated_for mo id = []) as Hg0 by (rewrite <- Eg; destruct g; [done|cbn in Enew; lia]).
    assert (id ∉ prompt_logprobs_dict mo /\ id ∉ prompt_token_id_logprobs_dict mo) as [Hl1 Hl2] by (split; intros Hin; apply (mo_logprobs _ _ _ Hmo id); auto).
    rewrite wp_bind, !wp_assert. rewrite !bool_decide_eq_false_2 by done. split; [done|]. split; [done|].
    split; [apply Ho14|]. split; [apply Ho14|]. split; [done|]. exists ∅. split; [set_solver|].
    rewrite list_filter_id, union_empty_r_L by set_solver. split; [|done].
    eapply updating_goes_on; try done; apply Hv.
Qed.

(** ** The whole update *)

Lemma process_all_ok out mo P s u : model_ok cfg out mo -> updating out P (out_num_scheduled_tokens out) s u -> stopped_running_reqs u = ∅ -> reports_stopped u ->
  wp (for_ (out_num_scheduled_tokens out) (fun kv => Update.process_output cfg hasher accept out mo kv.1 kv.2)) (fun _ x =>
    sidelines x.1 = sidelines s /\ running x.1 = running s /\ reports_stopped x.2 /\ (forall y, y ∈ stopped_running_reqs x.2 -> y ∈ P) /\
    updating out (without (stopped_running_reqs x.2) P) [] x.1 x.2) (s, u).
Proof.
  intros Hmo Hup Hu Hr0. eapply (wp_for _ _ (fun done todo x => sidelines x.1 = sidelines s /\ running x.1 = running s /\ reports_stopped x.2 /\
    (forall y, y ∈ stopped_running_reqs x.2 -> y ∈ P) /\ updating out (without (stopped_running_reqs x.2) P) todo x.1 x.2)).
  - cbn [fst snd]. rewrite Hu, list_filter_id by set_solver. by split_and!.
  - intros done [id n] todo [s1 u1] Ed (E1 & E2 & Hrep1 & Hsub1 & Hup1). cbn [fst snd] in *.
    eapply wp_mono; [eapply process_output_ok; [done| |exact Hup1]|].
    { rewrite Ed, fmap_app. cbn. set_solver. }
    intros [] [s2 u2] (F1 & F2 & Hrep2 & gone & Hg & Hup2 & Eu). cbn [fst snd] in *. split_and!; try congruence; [by apply Hrep2| |].
    + intros y. rewrite Eu. intros [Hy|Hy]%elem_of_union; [by apply Hsub1|]. by apply Hg, list_elem_of_filter in Hy as [_ ?].
    + rewrite Eu, <- without_union. done.
  - done.
Qed.

Record updated (P : list string) (s s' : S) (gone : gset string) : Prop := {
  ud_inv : inv none (without gone P) s' l0;
  ud_side : sidelines s' = sidelines s;
  ud_running : running s' = without gone (running s);
  ud_population : population obj (without gone P)
}.

Lemma finish_errors_ok P s u : population obj P -> inv none P s l0 ->
  wp Update.finish_errors (fun _ x => exists gone, updated P s x.1 gone /\
    forall id, reported (outputs x.2) id <-> reported (outputs u) id \/ (id ∈ gone /\ id ∈ P)) (s, u).
Proof.
  intros HP Hi. unfold Update.finish_errors. rewrite wp_bind, wp_gets. cbn [fst]. rewrite wp_bind. unfold Update.on_sched at 1. rewrite wp_zoom, wp_modify.
  cbn [fst snd]. set (s1 := set_ids _ _ _ _ s). assert (inv none P s1 l0) as Hi1 by (destruct Hi as [A1 A2 A3 A4 A5 A6]; split; [exact A1|exact A2|exact A3|exact A4|exact A5|exact A6]).
  destruct (decide _).
  - rewrite wp_ret. exists ∅. cbn [fst snd]. split; [|set_solver]. split; [by rewrite list_filter_id by set_solver|done|by rewrite list_filter_id by set_solver|by apply population_filter].
  - rewrite wp_bind. unfold Update.on_sched. rewrite wp_zoom. cbn [fst snd].
    eapply wp_mono; [by apply (finish_requests_ok cfg obj none P s1 l0)|]. intros rs s2 (Hd & Es & Hi2 & Hrs & Hst). cbn [fst snd].
    unfold Update.on_update. rewrite wp_zoom. cbn [fst snd].
    eapply (wp_for _ _ (fun done _ u' => forall id, reported (outputs u') id <->
      reported (outputs u) id \/ exists r, r ∈ done /\ request_id r = id /\ is_finished r = true)).
    + intros id. split; [by left|]. intros [?|(r & Hr & _)]; [done|by apply not_elem_of_nil in Hr].
    + intros done r todo u' Ers H1. rewrite wp_modify. intros id. rewrite reported_emit, H1. cbn [o_request_id o_finish_reason].
      assert (is_finished r = true) as Hf by (unfold is_finished; rewrite (proj2 (Hst r ltac:(rewrite Ers; set_solver))); done).
      pose proof (finished_reason r Hf). set_solver.
    + intros u' H1. eexists. cbn [fst snd]. split; [split; [exact Hi2|exact Es|apply Hd|by apply population_filter]|].
      intros id. rewrite H1. apply or_iff_compat_l. rewrite elem_of_list_to_set. split.
      * intros (r & Hr & <- & _). by apply Hst.
      * intros [Hid HidP]. destruct (Hrs id Hid HidP) as (r & Hr & Er & Est). exists r. split_and!; try done. unfold is_finished. by rewrite Est.
Qed.

Lemma events_ok P s : inv none P s l0 -> wp (Sched.on_kv kv_take_events) (fun _ s' => inv none P s' l0 /\ sidelines s' = sidelines s /\ running s' = running s) s.
Proof.
  intros Hi. unfold Sched.on_kv. rewrite wp_zoom. eapply wp_mono; [apply (law_events (max_len := max_len)), Hi|].
  intros evs k' [Hk Hs]. split; [|done]. by eapply (inv_same_kv cfg).
Qed.

Lemma update_from_output_ok out mo P s : model_ok cfg out mo -> population obj P ->
  inv (flown none (out_num_scheduled_tokens out)) P s l0 -> NoDup (out_num_scheduled_tokens out).*1 ->
  (forall id n, (id, n) ∈ out_num_scheduled_tokens out -> 0 < n /\ (requests s !! id = None \/ id ∈ running s)) ->
  (forall id n d r, (id, n) ∈ out_num_scheduled_tokens out -> out_spec_decode_tokens out !! id = Some d -> requests s !! id = Some r ->
    zlen d <= num_computed_tokens r) ->
  wp (Update.update_from_output cfg hasher accept out mo) (fun outs s' => exists gone, updated P s s' gone /\
    forall id, reported outs id <-> id ∈ gone /\ id ∈ P) s.
Proof.
  intros Hmo HP Hi Hkeys Htodo Hdrafts.
  cut (wp (Update.update_loop cfg hasher accept out mo) (fun _ x => exists gone, updated P s x.1 gone /\
    forall id, reported (outputs x.2) id <-> id ∈ gone /\ id ∈ P) (s, mkUpdate ∅ ∅ [])).
  { unfold wp, Update.update_from_output. by destruct (Update.update_loop _ _ _ _ _ _) as [[] []]. }
  assert (trimmed (mkUpdate ∅ ∅ []) s = s) as Etr by (unfold trimmed; rewrite list_filter_id by set_solver; by destruct s).
  assert (NoDup (running s)) as Hnr by (by eapply (inv_running_nodup cfg); [apply HP|]).
  unfold Update.update_loop. rewrite wp_bind. eapply wp_mono; [apply (process_all_ok out mo P); [done| |done|]|].
  { split; try done; by rewrite ?Etr. }
  { intros id. cbn. unfold reported. cbn. split; [|set_solver]. intros (c & o & Hin & _). rewrite lookup_empty in Hin. by apply not_elem_of_nil in Hin. }
  intros [] [s1 u1] (E1 & E2 & Hrep & Hsub & Hup). cbn [fst snd] in *. pose proof Hup as [V1 V2 V3 _ _ _ V7].
  rewrite wp_bind, wp_gets. cbn [snd]. rewrite wp_bind. unfold Update.on_sched at 1. rewrite wp_zoom. cbn [fst snd].
  eapply wp_mono; [by apply leave_running_ok|]. intros [] s2 ->. cbn [fst snd]. rewrite wp_bind. unfold Update.on_sched at 1. rewrite wp_zoom, V7. cbn [fst snd].
  change (Update.leave_queues []) with (ret tt : M S unit). rewrite wp_ret. cbn [fst snd]. fold (trimmed u1 s1). rewrite wp_bind.
  eapply wp_mono; [eapply (finish_errors_ok (without (stopped_running_reqs u1) P)); [done|]|].
  { eapply inv_agree; [apply V1| |exact V2]. intros x _. symmetry. apply flown_other. set_solver. }
  intros [] [s3 u3] (gone & [W1 W2 W3 W4] & Herr). cbn [fst snd] in *. rewrite wp_bind. unfold Update.on_sched. rewrite wp_zoom. cbn [fst snd].
  eapply wp_mono; [by apply events_ok|]. intros evs s4 (X1 & X2 & X3). rewrite wp_ret. cbn [fst snd]. exists (stopped_running_reqs u1 ∪ gone).
  split.
  2: { intros id. rewrite Herr, (Hrep id), elem_of_union, list_elem_of_filter. split; [|destruct (decide (id ∈ stopped_running_reqs u1)); tauto].
    intros [Hs|(? & ? & ?)]; [|tauto]. split; [by left|]. by apply Hsub. }
  rewrite !without_union in *. split; [done|by rewrite X2, W2, <- E1|by rewrite X3, W3; cbn; rewrite without_union, E2|done].
Qed.
End result.
