(* ===== verification/SchedulerKV.v ===== *)
(** The KV cache manager keeps the promises the scheduler relies on: the calls of
    [vllm/v1/core/kv_cache_manager.py] implement the interface of the scheduling
    step. *)
From Stdlib Require Import ZArith Lia Strings.String.
From stdpp Require Import base numbers list gmap strings.
From S2P Require Import Prelude BlockQueue Request BlockHash HashMap BlockPool PoolOps PoolCache PoolSafety CacheHit RequestQueue.
From S2P Require Import SingleTypeManager TableSafety TableReach Coordinator PrivateTail HybridHit FoundBlocks Retention CacheSafety.
From S2P Require Import KVCacheManager KVManagerSafety KVManagerReach KVManagerInit KVManagerCalls KVManagerTrace Scheduler SchedulerSafety SchedulerResult.
Import Pool SingleType.
Open Scope Z_scope.
Local Arguments py_get : simpl never.
Local Arguments Z.of_nat : simpl never.

(** * The interface *)

Section interface.
Context (use_int : bool) (sha256 : bytes -> bytes) (hash_function : hash_input -> bytes) (NONE_HASH : bytes) (hash_size max_len : Z).
Hypothesis hash_size_pos : 0 < hash_size.

(** Without a connector nothing is loaded, delayed or reserved. *)
#[export] Instance manager_ops : KVOps KVCacheManager := {
  kv_get_computed_blocks := KVManager.get_computed_blocks use_int sha256;
  kv_allocate_slots nn nnc blocks nla full scheduled :=
    KVManager.allocate_slots use_int sha256 nn nnc blocks nla 0 false full 0 scheduled [];
  kv_free := KVManager.free;
  kv_record_prefix_cache_stats := KVManager.record_prefix_cache_stats;
  kv_get_blocks m id := KVBlocks.create_kv_cache_blocks (Coordinator.get_blocks id (coordinator m));
  kv_block_ids m blocks := KVBlocks.blocks_of (KVManager.num_kv_cache_groups m) blocks;
  kv_num_groups := KVManager.num_kv_cache_groups;
  kv_get_num_common_prefix_blocks := KVManager.get_num_common_prefix_blocks;
  kv_take_new_block_ids := KVManager.take_new_block_ids;
  kv_take_block_copies := KVManager.take_kv_cache_block_copies;
  kv_free_blocks ids := KVManager.on_block_pool (free_own_blocks ids);
  kv_estimate_cached_tokens := KVManager.estimate_cached_tokens;
  kv_take_events := KVManager.take_events
}.

(** Reports of reused blocks name blocks of the hashed size. *)
Definition reports_fit (m : KVCacheManager) : Prop :=
  enable_kv_cache_events (pool m) = true -> Forall (fun g => spec_block_size (kv_cache_spec g) = hash_block_size (pool m)) (managers m).
Record manager_good (m : KVCacheManager) : Prop := {
  mg_safe : safe m;
  mg_len : max_model_len m = max_len;
  mg_hash : hash_block_size (pool m) = hash_size;
  mg_reports : reports_fit m
}.
Definition covers (m : KVCacheManager) (id : string) (n : Z) : Prop :=
  forall g, g ∈ managers m -> n <= zlen (table g id) * block_size g.
Definition unknown (m : KVCacheManager) (id : string) : Prop :=
  forall g, g ∈ managers m -> table g id = [] /\ num_cached_block g !! id = None.
(** The hashes of all full blocks of the request are computed. *)
Record hashed_request (r : Request) : Prop := {
  hr_ok : hashes_ok sha256 hash_function NONE_HASH hash_size r;
  hr_prompt : 1 <= num_prompt_tokens r;
  hr_length : num_tokens r <= max_len;
  hr_hashed : length (block_hashes r) = num_full_blocks hash_size r
}.
Definition found (m : KVCacheManager) (blocks : KVCacheBlocks) (n : Z) : Prop :=
  exists bs max, blocks = KVBlocks.create_kv_cache_blocks bs /\ found_hits m max bs n /\ (kvm_enable_caching m = true \/ n = 0).

Lemma hashed_fits m r : manager_good m -> hashed_request r -> request_fits sha256 m r.
Proof.
  intros [_ El Eh _] [[F1 F2 _ _] H2 H3 H4]. split; [by split|done|by rewrite El|]. rewrite Eh, H4. unfold num_full_blocks. lia.
Qed.
Lemma block_hash_content r r' k : content r' = content r ->
  block_hash_at sha256 hash_function NONE_HASH hash_size r' k = block_hash_at sha256 hash_function NONE_HASH hash_size r k.
Proof.
  intros Hc. unfold content, profile in Hc. injection Hc as E1 E2 E3 E4 E5 E6 E7 E8 E9 E10 E11 E12 E13 E14 E15.
  assert (forall a b, block_keys sha256 r' a b = block_keys sha256 r a b) as Ek
    by (intros a b; unfold block_keys, gen_lora_extra_hash_keys, cache_salt_keys, embeds_keys; by rewrite E5, E6, E11, E12).
  induction k as [|k IH]; cbn [block_hash_at]; by rewrite ?IH, E2, Ek.
Qed.
Lemma hashed_content r r' : content r' = content r -> hashed_request r -> hashed_request r'.
Proof.
  intros Hc [[F1 F2 F3 F4] H2 H3 H4]. pose proof (fun k => block_hash_content r r' k Hc) as Hk. unfold content, profile in Hc.
  injection Hc as E1 E2 E3 E4 E5 E6 E7 E8 E9 E10 E11 E12 E13 E14 E15. unfold num_full_blocks, num_tokens in *.
  split; [split|..]; unfold num_full_blocks, num_tokens, memo_ok; rewrite ?E2, ?E3, ?E4, ?E5, ?E6, ?E7; try done.
  rewrite F3 at 1. apply map_ext. by intros k.
Qed.
Lemma hashed_memo r r' : memo_step sha256 r r' -> hashed_request r -> hashed_request r' /\ memo_only r r'.
Proof.
  intros [[mm ->] Hm] [[F1 F2 F3 F4] H2 H3 H4]. split; [|by exists mm]. split; [|done|done|done]. split; [done|done| |done].
  cbn. rewrite F3 at 1. apply map_ext. intros k. symmetry. apply block_hash_at_memo.
Qed.

(** The hasher of the requests keeps up with appended tokens. *)
Lemma append_hashed r t : hashed_request r ->
  wp (append_output_token_ids (hasher sha256 hash_function NONE_HASH hash_size) [t]) (fun _ r' => appended [t] r r' /\
    (num_tokens r' <= max_len -> hashed_request r')) r.
Proof.
  intros [F H2 H3 H4].
  assert (wp (append_output_token_ids (hasher sha256 hash_function NONE_HASH hash_size) [t]) (fun _ r' => appended [t] r r') r) as Ha.
  { unfold append_output_token_ids, update_block_hashes, hasher. wp_simpl. set (r1 := set_all_token_ids _ _).
    eapply wp_mono; [eapply (hasher_ok sha256 hash_function NONE_HASH hash_size hash_size_pos r1)|].
    - destruct F as [F1 F2 F3 F4]. split; try done.
      + cbn. rewrite F3 at 1. apply map_ext_in. intros k Hk%in_seq. symmetry. exact (block_hash_at_append sha256 hash_function NONE_HASH hash_size hash_size_pos [t] (output_token_ids r ++ [t]) r k ltac:(nia)).
      + unfold num_tokens in *. cbn. rewrite length_app. cbn. lia.
    - intros hs r2 (_ & (m & ->) & _). wp_simpl. by eexists _, _. }
  pose proof (append_ok_hashes sha256 hash_function NONE_HASH hash_size hash_size_pos r [t] F) as Hok. unfold wp in *.
  destruct (append_output_token_ids _ _ r) as [[[]|] r']; [|done]. destruct Hok as (O1 & O2 & O3 & O4). split; [done|]. intros Hlen.
  split; [done| |done|done]. by destruct Ha as (hs & m & ->).
Qed.

(** What a call on [id] leaves of the others. *)
Lemma framed_others id m m' : Forall2 (framed id) (managers m) (managers m') -> forall id', id' <> id ->
  (forall n, covers m id' n -> covers m' id' n) /\ (unknown m id' -> unknown m' id').
Proof.
  intros Hf id' Hne. split.
  - intros n Hc g' Hg'. destruct (framed_elem _ _ _ _ Hf Hg') as (g & Hg & [_ Es _ _ _ Et _ _]). rewrite Et, Es by done. by apply Hc.
  - intros Hu g' Hg'. destruct (framed_elem _ _ _ _ Hf Hg') as (g & Hg & [_ _ _ _ _ Et En _]). rewrite Et, En by done. by apply Hu.
Qed.
Lemma good_step id m c : manager_good m -> safe (set_coordinator c m) -> config (block_pool c) = config (pool m) ->
  Forall2 (framed id) (managers m) (single_type_managers c) -> manager_good (set_coordinator c m).
Proof.
  intros [_ El Eh Hr] Hs Hc Hf. assert (hash_block_size (block_pool c) = hash_block_size (pool m) /\
    enable_kv_cache_events (block_pool c) = enable_kv_cache_events (pool m)) as [E1 E2] by (unfold config in Hc; split; congruence).
  split; [done|done|cbn; by rewrite E1|]. unfold reports_fit in *. cbn. rewrite E1, E2. intros He. specialize (Hr He).
  rewrite Forall_forall in Hr |- *. intros g' Hg'. destruct (framed_elem _ _ _ _ Hf Hg') as (g & Hg & Hfr). rewrite (fr_spec _ _ _ Hfr). by apply Hr.
Qed.

(** ** Slots *)

Lemma slots_law m r nn nnc b nla full scheduled :
  manager_good m -> hashed_request r -> slots_args sha256 m r nn nnc nla 0 (default EmptyBlocks b) 0 ->
  wp (KVManager.allocate_slots use_int sha256 nn nnc b nla 0 false full 0 scheduled []) (fun res s =>
    manager_good s.1 /\ hashed_request s.2 /\ memo_only r s.2 /\ Forall2 (framed (request_id r)) (managers m) (managers s.1) /\
    match res with
    | Some _ => covers s.1 (request_id r) (Z.min (num_computed_tokens r + nnc + nn) max_len)
    | None => managers s.1 = managers m \/ Forall2 (removed (request_id r)) (managers m) (managers s.1)
    end) (m, r).
Proof.
  intros Hm Hr Ha. eapply wp_mono; [apply (slots_ok use_int sha256 (fun _ => 0)); [apply Hm|exact Ha]|].
  intros res [m' r'] Hres. pose proof Hres as [H1 (c & E & Hc) H2 H3 H4]. cbn [fst snd] in *.
  destruct (hashed_memo r r' H3 Hr) as [Hr' Hmo]. split_and!; [|done|done|done|].
  - subst m'. eapply good_step; [done| |done|done]. by eapply (safe_slots _ _ _ _ _ _ _ _ _ _ m res (set_coordinator c m, r')); [apply Hm|].
  - destruct res as [nb|].
    + intros g Hg. specialize (H4 g Hg). rewrite (mg_len _ Hm) in H4. pose proof (sa_tokens _ _ _ _ _ _ _ _ _ Ha). lia.
    + destruct H4 as [[E4 _]|[_ H4]]; [left; by rewrite E4|by right].
Qed.

(** ** The promises *)

Lemma running_law m r nn b nla full scheduled :
  manager_good m -> hashed_request r -> b = None \/ b = Some EmptyBlocks -> 0 <= num_computed_tokens r <= max_len ->
  covers m (request_id r) (num_computed_tokens r) -> 0 < nn -> 0 <= nla ->
  wp (KVManager.allocate_slots use_int sha256 nn 0 b nla 0 false full 0 scheduled []) (fun res s =>
    manager_good s.1 /\ hashed_request s.2 /\ memo_only r s.2 /\ Forall2 (framed (request_id r)) (managers m) (managers s.1) /\
    covers s.1 (request_id r) (match res with
      | Some _ => Z.min (num_computed_tokens r + nn) max_len
      | None => num_computed_tokens r
      end)) (m, r).
Proof.
  intros Hm Hr Hb Hc Hcov Hnn Hnla. eapply wp_mono; [eapply slots_law; [done|done|]|].
  - split; [by apply hashed_fits|lia|lia|rewrite (mg_len _ Hm); lia|done|]. left. split_and!; [by destruct Hb as [-> | ->]|done|done|exact Hcov].
  - intros res [m' r'] (H1 & H2 & H3 & H4 & H5). split_and!; try done. rewrite Z.add_0_r in H5. destruct res; [done|]. cbn [fst snd] in *.
    destruct H5 as [E|H5]; [unfold covers; by rewrite E|]. intros g' (k & Hk)%list_elem_of_lookup.
    destruct (Forall2_lookup_r _ _ _ _ _ H5 Hk) as (g & Hg & Hrm). destruct (Forall2_lookup_r _ _ _ _ _ H4 Hk) as (g2 & Hg2 & Hfr).
    assert (g2 = g) as -> by congruence. rewrite (rm_length _ _ _ Hrm), (fr_size _ _ _ Hfr). apply Hcov. by eapply list_elem_of_lookup_2.
Qed.

Lemma unknown_startable m r : unknown m (request_id r) -> num_computed_tokens r = 0 -> 1 <= num_tokens r -> startable m r.
Proof. by split. Qed.

Lemma computed_law m r :
  manager_good m -> hashed_request r -> num_computed_tokens r = 0 -> 1 <= num_tokens r -> unknown m (request_id r) ->
  wp (KVManager.get_computed_blocks use_int sha256) (fun res s => manager_good s.1 /\ hashed_request s.2 /\ memo_only r s.2 /\
    managers s.1 = managers m /\ 0 <= res.1.2 < num_tokens r /\ found s.1 res.1.1 res.1.2) (m, r).
Proof.
  intros Hm Hr E0 Ht Hu. pose proof (unknown_startable m r Hu E0 Ht) as Hst.
  eapply wp_mono; [apply (computed_ok use_int sha256 (fun _ => 0) m r); [apply Hm|apply Hm|by apply hashed_fits|done|]|].
  - intros [He _]%andb_true_iff. by apply (mg_reports _ Hm).
  - intros res [m' r'] (blocks & H & boundary & q & -> & E & Hmemo & Hf & Hc). cbn [fst snd] in *. subst m'.
    destruct (hashed_memo r r' Hmemo Hr) as [Hr' Hmo]. pose proof (fh_range _ _ _ _ Hf) as Hrange. split_and!; try done; [|lia|lia|].
    + destruct Hm as [Hs El Eh Hrep]. split; [by apply safe_events|done|done|exact Hrep].
    + exists blocks, (num_tokens r - 1). split_and!; [done|by apply found_hits_events|done].
Qed.

Lemma new_law m r b n nn nla full scheduled :
  manager_good m -> hashed_request r -> num_computed_tokens r = 0 -> 1 <= num_tokens r -> unknown m (request_id r) ->
  found m b n -> 0 <= n < num_tokens r -> 0 < nn -> 0 <= nla ->
  wp (KVManager.allocate_slots use_int sha256 nn n (Some b) nla 0 false full 0 scheduled []) (fun res s =>
    manager_good s.1 /\ hashed_request s.2 /\ memo_only r s.2 /\ Forall2 (framed (request_id r)) (managers m) (managers s.1) /\
    match res with
    | Some _ => covers s.1 (request_id r) (Z.min (n + nn) max_len)
    | None => unknown s.1 (request_id r)
    end) (m, r).
Proof.
  intros Hm Hr E0 Ht Hu (bs & max & -> & Hf & Hc) Hn Hnn Hnla. pose proof (unknown_startable m r Hu E0 Ht) as Hst.
  eapply wp_mono; [apply slots_law; [done|done|]|].
  - eapply (found_args sha256 (fun _ => 0) m r); [apply Hm|apply Hm|done|done|done|by apply hashed_fits|lia|by left; lia| |done].
    rewrite (mg_len _ Hm). pose proof (hr_length _ Hr). lia.
  - intros res [m' r'] (H1 & H2 & H3 & H4 & H5). split_and!; try done. rewrite E0, Z.add_0_l in H5. destruct res; [done|]. cbn [fst snd] in *.
    destruct H5 as [E|H5]; [unfold unknown; by rewrite E|]. intros g' (k & Hk)%list_elem_of_lookup.
    destruct (Forall2_lookup_r _ _ _ _ _ H5 Hk) as (g & Hg & [Hl Hca _]). destruct (Hu g) as [Et En]; [by eapply list_elem_of_lookup_2|].
    split; [apply nil_length_inv; by rewrite Hl, Et|by rewrite Hca].
Qed.

Lemma free_law m id : manager_good m ->
  wp (KVManager.free id) (fun _ m' => manager_good m' /\ Forall2 (framed id) (managers m) (managers m') /\ unknown m' id) m.
Proof.
  intros Hm. unfold KVManager.free. wp_simpl. eapply wp_mono; [apply (free_private (fun _ => 0)), Hm|].
  intros [] c (Hi & Hc & Hf & Hp). split_and!; [|done|].
  - eapply good_step; [done| |done|done]. eapply safe_coordinator; [apply Hm|eapply kvm_ok_step; [apply Hm|done|done|done]|done|done].
  - intros g' (k & Hk)%list_elem_of_lookup. destruct (Forall2_lookup_r _ _ _ _ _ Hp Hk) as (g & Hg & ->).
    rewrite table_popped, decide_True by done. by split; [|apply lookup_delete_eq].
Qed.

Lemma stats_law m r n : manager_good m ->
  wp (KVManager.record_prefix_cache_stats r n) (fun _ m' => manager_good m' /\ managers m' = managers m) m.
Proof.
  intros Hm. eapply wp_mono; [apply stats_recorded, Hm|]. intros [] m' [->|(st & -> & Hs)]; [by split|].
  split; [|done]. destruct Hm as [_ El' Eh Hr]. split; [done|done|done|exact Hr].
Qed.

Lemma same_entries_keep m m' : Forall2 same_entries (managers m) (managers m') -> forall id,
  (forall n, covers m id n -> covers m' id n) /\ (unknown m id -> unknown m' id).
Proof.
  intros Hf id. split.
  - intros n Hc g' (k & Hk)%list_elem_of_lookup. destruct (Forall2_lookup_r _ _ _ _ _ Hf Hk) as (g & Hg & (E1 & _ & _ & _ & E5 & _)).
    rewrite E1, E5. apply Hc. by eapply list_elem_of_lookup_2.
  - intros Hu g' (k & Hk)%list_elem_of_lookup. destruct (Forall2_lookup_r _ _ _ _ _ Hf Hk) as (g & Hg & (E1 & E2 & _)).
    rewrite E1, E2. apply Hu. by eapply list_elem_of_lookup_2.
Qed.

Lemma read_good m m' : manager_good m -> read_only m m' -> manager_good m' /\ forall id,
  (forall n, covers m id n -> covers m' id n) /\ (unknown m id -> unknown m' id).
Proof. intros Hm (c & -> & Hs & Hc & Hf & He). split; [by eapply good_step|by apply same_entries_keep]. Qed.

Lemma common_law m id : manager_good m ->
  wp (KVManager.get_num_common_prefix_blocks id) (fun _ m' => manager_good m' /\ forall id',
    (forall n, covers m id' n -> covers m' id' n) /\ (unknown m id' -> unknown m' id')) m.
Proof. intros Hm. eapply wp_mono; [apply common_prefix_reads, Hm|]. intros rs m' [->|Hr]; [by split|by apply read_good]. Qed.

Lemma new_ids_law m : manager_good m ->
  wp KVManager.take_new_block_ids (fun _ m' => manager_good m' /\ forall id',
    (forall n, covers m id' n -> covers m' id' n) /\ (unknown m id' -> unknown m' id')) m.
Proof. intros Hm. eapply wp_mono; [apply new_ids_read, Hm|]. intros rs m' Hr. by apply read_good. Qed.

Lemma copies_law m : manager_good m ->
  wp release_copies (fun _ m' => manager_good m' /\ forall id',
    (forall n, covers m id' n -> covers m' id' n) /\ (unknown m id' -> unknown m' id')) m.
Proof.
  intros Hm. eapply wp_mono; [apply release_ok, Hm|]. intros [] m' (p' & -> & Hs & Hc). split.
  - eapply good_step; [done|done|done|apply cleared_framed].
  - apply same_entries_keep. cbn. clear. induction (managers m) as [|g ms IH]; [constructor|]. cbn. constructor; [|done]. by split_and!.
Qed.

Lemma estimate_nonneg m r : 0 <= KVManager.estimate_cached_tokens m r.
Proof.
  unfold KVManager.estimate_cached_tokens. set (f := fun cached blocks => _). generalize (take (KVManager.num_kv_cache_groups m) (KVManager.get_blocks m (request_id r))).
  assert (forall l c, (forall n, c = Some n -> 0 <= n) -> forall n, foldl f c l = Some n -> 0 <= n) as H.
  { assert (forall blocks, 0 <= KVManager.group_cached_tokens (block_pool (coordinator m)) blocks) as Hg.
    { intros blocks. unfold KVManager.group_cached_tokens. assert (forall a, 0 <= a -> 0 <= foldl (fun acc b => Z.max acc (default 0 (block_hash_num_tokens (blk (block_pool (coordinator m)) b)))) a blocks) as Hf;
        [|by apply Hf]. induction blocks as [|b blocks IH]; intros a Ha; [done|]. apply IH. lia. }
    intros l. induction l as [|b l IH]; intros c Hc; [done|]. apply IH. unfold f. intros n [= <-]. specialize (Hg b).
    destruct c as [c|]; [specialize (Hc c eq_refl); lia|done]. }
  intros l. destruct (foldl f None l) as [n|] eqn:E; cbn; [|done]. by apply (H l None ltac:(done) n).
Qed.

Lemma events_law m : manager_good m -> wp KVManager.take_events (fun _ m' => manager_good m' /\ managers m' = managers m) m.
Proof.
  intros [Hs El Eh Hr]. unfold KVManager.take_events, KVManager.on_block_pool, Pool.take_events. wp_simpl.
  destruct (enable_kv_cache_events (pool m)) eqn:E; cbn [negb]; wp_simpl.
  - split; [|done]. split; [by apply safe_events|done|done|]. unfold reports_fit in *. cbn. exact Hr.
  - assert (set_coordinator (mkCoordinator (managers m) (pool m)) m = m) as -> by (destruct m as [? ? ? ? ? [] ? ? ? ? ? ?]; done). done.
Qed.

(** The manager implements the interface. *)
#[export] Instance manager_laws : KVLaws KVCacheManager max_len.
Proof.
  apply (Build_KVLaws KVCacheManager manager_ops max_len manager_good covers unknown hashed_request (fun m _ => found m)).
  - intros m id n n' Hc Hle g Hg. specialize (Hc g Hg). lia.
  - exact hashed_content.
  - intros r Hr. split; apply Hr.
  - intros m r nn b nla full scheduled Hm Hr Hb Hc Hcov Hnn Hnla. eapply wp_mono; [by apply running_law|].
    intros res s (H1 & H2 & H3 & H4 & H5). split_and!; try done. intros id' Hne. by apply (framed_others (request_id r) m s.1).
  - intros m r Hm Hr E0 Ht Hu. eapply wp_mono; [by apply computed_law|]. intros res s (H1 & H2 & H3 & H4 & H5 & H6). split_and!; try done; try lia.
    intros id'. unfold covers, unknown. by rewrite H4.
  - intros m r b n nn nla full scheduled Hm Hr E0 Ht Hu Hf Hn Hnn Hnla. eapply wp_mono; [by apply new_law|].
    intros res s (H1 & H2 & H3 & H4 & H5). split_and!; try done. intros id' Hne. by apply (framed_others (request_id r) m s.1).
  - intros m id Hm. eapply wp_mono; [by apply free_law|]. intros [] m' (H1 & H2 & H3). split_and!; try done.
    intros id' Hne. by apply (framed_others id m m').
  - intros m r n Hm. eapply wp_mono; [by apply stats_law|]. intros [] m' (H1 & H2). split; [done|]. intros id'. unfold covers, unknown. by rewrite H2.
  - exact common_law.
  - exact new_ids_law.
  - exact copies_law.
  - exact estimate_nonneg.
  - intros m Hm. eapply wp_mono; [by apply events_law|]. intros evs m' (H1 & H2). split; [done|]. intros id'. unfold covers, unknown. by rewrite H2.
Defined.
End interface.
