(* ===== verification/SchedulerEngine.v ===== *)
(** The engine around the scheduler ([vllm/v1/engine/core.py]): arrivals, aborts
    and steps, in any order, over any queue and any KV cache manager that keep
    their promises. *)
From Stdlib Require Import ZArith Lia Strings.String.
From stdpp Require Import base numbers list gmap strings.
From S2P Require Import Prelude Request RequestQueue StopCheck KVCacheManager Scheduler SchedulerSafety SchedulerWaiting SchedulerStep.
From S2P Require Import SchedulerUpdate SchedulerFinish SchedulerResult.
Open Scope Z_scope.
Local Arguments py_get : simpl never.
Local Arguments Z.of_nat : simpl never.

Lemma wp_returns {S A} (m : M S A) Q s : wp m Q s -> exists a s', m s = (Ok a, s') /\ Q a s'.
Proof. unfold wp. destruct (m s) as [[a|] s']; [eauto|done]. Qed.

Section engine.
Context {Q K : Type} `{!RequestQueue Q, !RequestQueueLaws Q} `{!KVOps K} (cfg : SchedulerConfig)
  `{!KVLaws K (sched_max_model_len cfg)}.
Context (hasher : block_hasher_t) (grammar : string -> option bool) (accept : Request -> list Z -> bool)
  (validate : Request -> list Z -> list Z).
Abbreviation S := (Scheduler Q K).
Abbreviation max_len := (sched_max_model_len cfg).
Abbreviation kv s := (kv_cache_manager s).
Abbreviation covers := (kv_covers (max_len := max_len)).
Abbreviation fits := (kv_fits (max_len := max_len)).
Hypothesis config_ok : sched_config_ok cfg.
Hypothesis hasher_keeps : forall r t, fits r ->
  wp (append_output_token_ids hasher [t]) (fun _ r' => appended [t] r r' /\ (num_tokens r' <= max_len -> fits r')) r.

(** The engine between two calls: some set of requests, none of them in flight. *)
Definition engine_ok (s : S) : Prop := exists P obj, population obj P /\ sched_ok cfg P obj none s.

(** A new scheduler has no requests. *)
Lemma new_scheduler_ok m : kv_ok (max_len := max_len) m -> (forall id, kv_fresh (max_len := max_len) m id) -> engine_ok (Sched.new_scheduler m).
Proof.
  intros Hm Hf. destruct law_empty as [Hq Hl]. pose proof (sco_running _ config_ok). exists [], (fun _ => 0).
  split; [split; [constructor|by intros a b Ha%not_elem_of_nil]|]. split; [|done|cbn; lia]. split; cbn; try done.
  - intros id Hid. by apply not_elem_of_nil in Hid.
  - by exists [], [].
  - intros id [r Hr]. by rewrite lookup_empty in Hr.
Qed.

(** ** Arrival *)

(** A new request of the modelled kind, of an object and an id that the
    scheduler does not know. *)
Record arrives (s : S) (r : Request) : Prop := {
  av_id : requests s !! request_id r = None;
  av_object : forall id r', requests s !! id = Some r' -> obj_id r' <> obj_id r;
  av_status : status r = WAITING \/ status r = WAITING_FOR_STRUCTURED_OUTPUT_GRAMMAR;
  av_fits : fits r;
  av_new : num_computed_tokens r = 0 /\ 0 <= num_preemptions r;
  av_prompt : 1 <= num_tokens r <= num_prompt_tokens r;
  av_ledger : ledger r = (0, 0, 0);
  av_served : served r;
  av_limit : num_output_tokens r < max_tokens r
}.

Lemma inv_objects_agree fl P obj obj' (s : S) l : (forall x, x ∈ P -> obj' x = obj x) -> NoDup P -> inv cfg fl P obj [] s l -> inv cfg fl P obj' [] s l.
Proof.
  intros Hag Hnd [A1 A2 A3 (lw & lk & Q1 & Q2 & Q3 & Q4 & Hp & Hq) A5 A6]. split; try done.
  - intros id Hid. destruct (A2 id Hid) as (r & E & Ei & Eo). exists r. rewrite Hag by done. done.
  - exists lw, lk. split_and!; try done. rewrite Forall_forall in Hq |- *. intros q Hin. destruct (Hq q Hin) as [Ho Hw]. split; [|done].
    destruct (inv_queued_in P Hnd [] s l lw lk q Hp Hin) as [Hid _]. by rewrite Hag.
Qed.

Definition idle_step : StepState := mkStep [] [] [] [] ∅ [] 0 0 ∅ false [] [].
Lemma idle_no_skips : no_skips idle_step.
Proof. done. Qed.
Lemma sched_ok_inv P obj fl (s : S) : sched_ok cfg P obj fl s <->
  inv cfg fl P obj [] s idle_step /\ 0 <= num_waiting_for_streaming_input s /\ zlen (running s) <= max_num_running_reqs cfg.
Proof.
  split.
  - intros [[A1 A2 A3 A4 A5 A6] B C]. split; [|done]. split; [exact A1|exact A2|exact A3|exact A4|exact A5|exact A6].
  - intros ([A1 A2 A3 A4 A5 A6] & B & C). split; [|done|done]. split; [exact A1|exact A2|exact A3|exact A4|exact A5|exact A6].
Qed.

Lemma arrival_waiting s r ts k : arrives s r -> kv_fresh (max_len := max_len) k (request_id r) ->
  waiting_ok cfg none k (logged cfg QUEUED ts r).
Proof.
  intros [V1 V2 V3 V4 [V5 V5'] V6 V7 V8 V9] Hf. unfold ledger in V7. injection V7 as L1 L2 L3.
  assert (waiting_ok cfg none k r) as Hw.
  { split; try done; [rewrite !elem_of_cons; destruct V3 as [-> | ->]; auto|lia|left; split_and!; try done; lia|]. split; cbn; try done; lia. }
  unfold logged. destruct (sched_log_stats cfg); [|exact Hw]. eapply (waiting_ok_content cfg none k r); [done|done|done|done|exact (wt_status _ _ _ _ Hw)|exact Hw].
Qed.

(** The queue and the requests after an arrival. *)
Lemma inv_arrival P obj s s' r r' lw lk l1 l2 : population obj P -> inv cfg none P obj [] s idle_step -> request_id r ∉ P ->
  queues s lw lk -> lw = l1 ++ l2 -> queues s' (l1 ++ r :: l2) lk -> kv s' = kv s -> running s' = running s ->
  requests s' = <[request_id r := r']> (requests s) -> request_id r' = request_id r -> obj_id r' = obj_id r -> obj (request_id r) = obj_id r ->
  waiting_ok cfg none (kv s) r' -> inv cfg none (request_id r :: P) obj [] s' idle_step.
Proof.
  intros [HP Hinj] [A1 A2 A3 (lw' & lk' & Q1 & Q2 & Q3 & Q4 & Hp & Hq) A5 A6] Hn (P1 & P2 & P3 & P4) -> (R1 & R2 & R3 & R4) Ek Er Em Ei Eo Eobj Hw.
  assert (lw' = l1 ++ l2 /\ lk' = lk) as [-> ->] by (split; congruence). unfold queued in *. cbn in Hp, Hq. rewrite !app_nil_r in *.
  assert (forall x, x ∈ P -> x <> request_id r) as Hne by (by intros x Hx ->).
  split; rewrite ?Ek, ?Er, ?Em.
  - done.
  - intros id [->|Hid]%elem_of_cons; [exists r'; rewrite lookup_insert_eq; split_and!; congruence|]. rewrite lookup_insert_ne by (specialize (Hne id Hid); congruence). by apply A2.
  - rewrite app_nil_r. intros id r0 Hid. assert (id ∈ P) as HidP by (rewrite <- Hp; set_solver).
    rewrite lookup_insert_ne by (specialize (Hne id HidP); congruence). by apply A3.
  - exists (l1 ++ r :: l2), lk. unfold queued. cbn. rewrite !app_nil_r. split_and!; try done.
    + rewrite <- Hp. rewrite !map_app. cbn [map]. solve_Permutation.
    + rewrite Forall_forall in Hq |- *. intros q Hin. unfold queued_ok. rewrite Ek, Em.
      assert (q = r \/ q ∈ (l1 ++ l2) ++ lk) as [->|Hin'] by set_solver; [split; [done|]; rewrite lookup_insert_eq; by intros r0 [= <-]|].
      destruct (Hq q Hin') as [Ho Hwq]. split; [done|].
      assert (request_id q ∈ P) as HqP by (rewrite <- Hp; apply elem_of_app; right; apply list_elem_of_fmap; by exists q).
      rewrite lookup_insert_ne by (specialize (Hne _ HqP); congruence). exact Hwq.
  - intros id Hid. apply A5. set_solver.
  - intros id. destruct (decide (id = request_id r)) as [->|Hd]; [set_solver|]. rewrite lookup_insert_ne by done. intros Hs. right. by apply A6.
Qed.

(** Objects are told apart by identity; a new request brings its own. *)
Lemma arrival_objects P obj s r : population obj P -> inv cfg none P obj [] s idle_step -> arrives s r ->
  exists obj', population obj' (request_id r :: P) /\ inv cfg none P obj' [] s idle_step /\ obj' (request_id r) = obj_id r /\
    request_id r ∉ P /\ forall x, x ∈ P -> obj' x <> obj_id r.
Proof.
  intros [HP Hinj] Hi [V1 V2 _ _ _ _ _ _ _].
  assert (request_id r ∉ P) as Hn by (intros Hin; destruct (inv_lookup cfg _ P obj [] s _ _ Hi Hin) as (r0 & E0 & _); congruence).
  set (obj' := fun x => if decide (x = request_id r) then obj_id r else obj x).
  assert (forall x, x ∈ P -> obj' x = obj x) as Hag by (intros x Hx; unfold obj'; rewrite decide_False; [done|by intros ->]).
  assert (forall x, x ∈ P -> obj' x <> obj_id r) as Hfresh.
  { intros x Hx. rewrite Hag by done. destruct (inv_lookup cfg _ P obj [] s _ x Hi Hx) as (r0 & E0 & _ & <-). by apply (V2 x). }
  assert (obj' (request_id r) = obj_id r) as Hr by (unfold obj'; by rewrite decide_True by done).
  exists obj'. split_and!; try done; [|by eapply inv_objects_agree]. split; [by constructor|].
  intros a b [->|Ha]%elem_of_cons [->|Hb]%elem_of_cons; [done| | |].
  - rewrite Hr. intros E. by destruct (Hfresh b Hb).
  - rewrite Hr. intros E. by destruct (Hfresh a Ha).
  - rewrite !Hag by done. auto.
Qed.

Lemma arrival_ok P obj s r ts : population obj P -> sched_ok cfg P obj none s -> arrives s r ->
  wp (Sched.add_new_request cfg r ts) (fun _ s' => (exists obj', population obj' (request_id r :: P) /\ sched_ok cfg (request_id r :: P) obj' none s') /\
    running s' = running s /\ kv s' = kv s) s.
Proof.
  intros HP (Hi & Hstr & Hrun)%sched_ok_inv Hv. destruct (arrival_objects P obj s r HP Hi Hv) as (obj' & HP' & Hi' & Eobj & Hn & Hfresh).
  clear obj HP Hi. destruct (inv_queues_of cfg none P obj' s idle_step Hi') as (lw & lk & Hq). pose proof Hq as (Q1 & Q2 & Q3 & Q4).
  assert (fresh r lw) as Hfr.
  { intros (q & Eq & Hin)%list_elem_of_fmap. destruct (queues_perm cfg none P obj' s _ lw lk Hi' Hq) as [Hp Hf]. unfold queued in Hp, Hf. cbn in Hp, Hf.
    rewrite !app_nil_r in *. rewrite Forall_forall in Hf. destruct (Hf q) as [Ho _]; [set_solver|].
    apply (Hfresh (request_id q)); [rewrite <- Hp; apply elem_of_app; right; apply list_elem_of_fmap; exists q; set_solver|congruence]. }
  destruct (law_add _ _ r Q1 Q2 Hfr) as (q' & l1 & l2 & Eq & Hq' & El & Hit).
  unfold Sched.add_new_request, Sched.enqueue_waiting_request. rewrite !wp_bind, wp_modify.
  assert (Sched.holds_kv_blocks r = false) as ->.
  { unfold Sched.holds_kv_blocks. destruct (av_new _ _ Hv) as [-> _]. destruct (av_status _ _ Hv) as [-> | ->]; done. }
  set (s1 := if Sched.is_blocked_waiting_status _ then _ else _).
  assert (waiting s1 = waiting s /\ kv_holding_waiting s1 = kv_holding_waiting s /\ running s1 = running s /\ kv s1 = kv s /\ requests s1 = requests s /\
    num_waiting_for_streaming_input s1 = num_waiting_for_streaming_input s) as (E1 & E2 & E3 & E4 & E5 & E6) by (unfold s1; by destruct (Sched.is_blocked_waiting_status _)).
  clearbody s1. unfold Sched.on_waiting. rewrite wp_zoom, E1. eapply wp_of_run; [exact Eq|]. cbn beta. rewrite ?wp_bind, wp_modify.
  eapply (wp_log_event cfg); [cbn; apply lookup_insert_eq|]. cbn. rewrite insert_insert_eq, E3, E4. split; [|done]. exists obj'. split; [done|].
  apply sched_ok_inv. cbn. rewrite E3, E6. split; [|done].
  eapply (inv_arrival P obj' s _ r (logged cfg QUEUED ts r) lw lk l1 l2); try done.
  - destruct HP' as [HPn HPi]. split; [by apply NoDup_cons in HPn as [_ ?]|]. intros a b Ha Hb. apply HPi; by right.
  - unfold queues. cbn. rewrite E2. done.
  - cbn. by rewrite E5.
  - unfold logged. by destruct (sched_log_stats cfg).
  - unfold logged. by destruct (sched_log_stats cfg).
  - apply (arrival_waiting s); [done|]. by apply (iv_others _ _ _ _ _ _ _ Hi').
Qed.

(** ** Aborts *)

Lemma abort_ok P obj fl (s : S) ids : population obj P -> sched_ok cfg P obj fl s ->
  wp (Engine.abort_requests ids) (fun _ s' => dropped cfg (list_to_set ids) s s' /\
    population obj (without (list_to_set ids) P) /\ sched_ok cfg (without (list_to_set ids) P) obj fl s') s.
Proof.
  intros HP (Hi & Hstr & Hrun)%sched_ok_inv. unfold Engine.abort_requests.
  eapply wp_mono; [by eapply (finish_requests_ok cfg obj fl P s idle_step)|]. intros rs s' (Hd & Es & Hi' & _). split_and!; [done|by apply population_filter|].
  apply sched_ok_inv. split_and!; [done| |].
  - unfold sidelines in Es. injection Es as -> _. done.
  - rewrite (dr_running _ _ _ _ Hd). pose proof (length_filter (fun id => id ∉ (list_to_set ids : gset string)) (running s)). lia.
Qed.

(** ** Drafts *)

Lemma drafts_ok P obj (s : S) ds : population obj P -> sched_ok cfg P obj none s ->
  wp (Update.update_draft_token_ids validate ds) (fun _ s' => sched_ok cfg P obj none s') s.
Proof.
  intros [HP Hinj] Hok. eapply (wp_for _ _ (fun _ _ s' => sched_ok cfg P obj none s')); [done| |done]. clear s Hok.
  intros _ [id ids] _ s _ Hok. cbn [fst snd]. rewrite wp_bind, wp_gets. destruct (requests s !! id) as [r|] eqn:E; [|by wp_simpl].
  assert (forall v, wp (Sched.update_request id (set_spec_token_ids v)) (fun _ s' => sched_ok cfg P obj none s') s) as Hset.
  { intros v. unfold Sched.update_request. rewrite wp_modify, (alter_some _ id _ r E). apply sched_ok_inv in Hok as (Hi & Hstr & Hrun).
    apply sched_ok_inv. split; [|done]. destruct (request_place cfg obj none P s idle_step id r Hi idle_no_skips E) as (Ei & Eo & HidP & _ & _ & Hst).
    assert (inv cfg none P obj [] (touch id (kv s) (set_spec_token_ids v r) s) idle_step) as [A1 A2 A3 A4 A5 A6];
      [|split; [exact A1|exact A2|exact A3|exact A4|exact A5|exact A6]].
    eapply (inv_touch cfg none P obj HP); try done; [apply Hi| |]; rewrite app_nil_r.
    - intros Hin. eapply (running_ok_content cfg none (kv s) r); try done. eapply (iv_running _ _ _ _ _ _ _ Hi id); [by rewrite app_nil_r|done].
    - intros Hin. destruct (inv_queues_of cfg none P obj s idle_step Hi) as (lw & lk & Hq).
      destruct (queues_perm cfg none P obj s _ lw lk Hi Hq) as [Hp Hf]. rewrite <- Hp in HidP. apply elem_of_app in HidP as [?|HidP]; [done|].
      apply list_elem_of_fmap in HidP as (q & Eq & Hq'). rewrite Forall_forall in Hf. destruct (Hf q Hq') as [_ Hw]. rewrite <- Eq in Hw.
      eapply (waiting_ok_content cfg none (kv s) r); [done|done|done|done|apply (Hw r E)|by apply Hw]. }
  destruct (is_finished r); [by wp_simpl|]. destruct (is_prefill_chunk r); [|apply Hset]. destruct (spec_token_ids r); [by wp_simpl|apply Hset].
Qed.

(** ** Steps *)

Lemma none_settled id : 0 <= (none id).2 <= (none id).1.
Proof. done. Qed.

(** The results of a step reach the scheduler after some of its requests were
    aborted. *)
Lemma late_update_ok P obj out (s1 s2 : S) aborts mo : model_ok cfg out mo -> step_result cfg none P obj out s1 ->
  dropped cfg (list_to_set aborts) s1 s2 -> population obj (without (list_to_set aborts) P) ->
  sched_ok cfg (without (list_to_set aborts) P) obj (flown none (out_num_scheduled_tokens out)) s2 ->
  wp (Update.update_from_output cfg hasher accept out mo) (fun outs s' => exists gone,
    population obj (without gone (without (list_to_set aborts) P)) /\ sched_ok cfg (without gone (without (list_to_set aborts) P)) obj none s' /\
    forall id, reported outs id <-> id ∈ gone /\ id ∈ without (list_to_set aborts) P) s2.
Proof.
  intros Hmo [R1 R2 R3 R4 [R5 _]] [D1 _ D3 _] HP (Hi & Hstr & Hrun)%sched_ok_inv.
  eapply wp_mono; [eapply (update_from_output_ok cfg obj hasher accept hasher_keeps idle_step idle_no_skips); try done; [apply config_ok| |]|].
  - intros id n Hin. destruct (R3 id n Hin) as (Hn & Hin' & _). split; [done|]. rewrite D3, D1.
    case_decide; [by left|right]. by apply list_elem_of_filter.
  - intros id n d r _ Ed E. destruct (R4 id d Ed) as (n' & r' & _ & E' & Hle). rewrite D3 in E. case_decide; [done|]. by assert (r' = r) as -> by congruence.
  - intros outs s' (gone & [U1 U2 U3 U4] & Hrep). exists gone. split_and!; [done| |done]. apply sched_ok_inv. split; [done|].
    unfold sidelines in U2. injection U2 as -> _. split; [done|]. rewrite U3.
    pose proof (length_filter (fun x => x ∉ gone) (running s2)). lia.
Qed.

Lemma step_aborts_ok P obj fl (s : S) aborts : population obj P -> sched_ok cfg P obj fl s ->
  wp (match aborts with [] => ret tt | _ => Engine.abort_requests aborts ;; ret tt end) (fun _ s' => dropped cfg (list_to_set aborts) s s' /\
    population obj (without (list_to_set aborts) P) /\ sched_ok cfg (without (list_to_set aborts) P) obj fl s') s.
Proof.
  intros HP Hok. destruct aborts as [|a aborts].
  - rewrite wp_ret. cbn [list_to_set]. rewrite !list_filter_id by set_solver. split_and!; try done. split.
    + by rewrite list_filter_id by set_solver.
    + intros lw lk Hq. rewrite !list_filter_id by (intros q _; unfold stays; set_solver). done.
    + intros id. by rewrite decide_False by set_solver.
    + split_and!; [apply Hok|done|set_solver].
  - rewrite wp_bind. eapply wp_mono; [by eapply abort_ok|]. intros rs s' H. by rewrite wp_ret.
Qed.

Lemma engine_step_ok P obj (s : S) model aborts ts : population obj P -> sched_ok cfg P obj none s -> (forall out, model_ok cfg out (model out)) ->
  wp (Engine.step cfg hasher grammar accept model aborts ts) (fun res s' => exists gone : gset string, population obj (without gone P) /\
    sched_ok cfg (without gone P) obj none s' /\ (forall id, reported res.1 id <-> id ∈ gone /\ id ∈ P /\ id ∉ aborts) /\
    if Update.has_requests s then list_to_set aborts ⊆ gone else gone = ∅ /\ res.1 = ∅) s.
Proof.
  intros HP Hok Hmodel. unfold Engine.step. rewrite wp_bind, wp_gets. destruct (Update.has_requests s); cbn [negb].
  2: { rewrite wp_ret. exists ∅. rewrite list_filter_id by set_solver. split_and!; try done. intros id. split; [|set_solver].
    intros (c & o & Hin & _). cbn in Hin. rewrite lookup_empty in Hin. by apply not_elem_of_nil in Hin. }
  rewrite wp_bind. eapply wp_mono; [eapply (step_ok cfg grammar none P obj); [apply HP|apply HP|exact none_settled|exact config_ok|done]|].
  intros out s1 Hres. rewrite wp_bind. eapply wp_mono; [eapply step_aborts_ok; [done|apply Hres]|].
  intros [] s2 (Hd & HP2 & Hok2). rewrite wp_bind. eapply wp_mono; [by eapply (late_update_ok P obj out s1 s2 aborts)|].
  intros outs s3 (gone & HP3 & Hok3 & Hrep). rewrite wp_ret. cbn [fst]. exists (list_to_set aborts ∪ gone). rewrite <- without_union.
  split_and!; [done|done| |set_solver].
  intros id. rewrite Hrep, list_elem_of_filter, elem_of_union, elem_of_list_to_set. tauto.
Qed.

(** ** Calls *)

(** What reaches the engine between two iterations of its loop: a request, an
    abort, a change of the pause state; and the iteration itself. *)
Inductive engine_op :=
| EAdd (r : Request) (timestamp : Z)
| EAbort (request_ids : list string)
| EPause (p : PauseState)
| EStep (model : SchedulerOutput -> ModelRunnerOutput) (drafts : option (list (string * list Z))) (aborts : list string) (timestamp : Z).
Definition process_engine_step model drafts aborts timestamp : M S (gmap Z (list EngineCoreOutput)) :=
  let! res := Engine.step cfg hasher grammar accept model aborts timestamp in
  Engine.post_step cfg validate drafts res.2 ;;
  ret res.1.
Definition run_engine_op (o : engine_op) : M S (gmap Z (list EngineCoreOutput)) :=
  match o with
  | EAdd r timestamp => Engine.add_request cfg r timestamp ;; ret ∅
  | EAbort request_ids => Engine.abort_requests request_ids ;; ret ∅
  | EPause p => Update.set_pause_state p ;; ret ∅
  | EStep model drafts aborts timestamp => process_engine_step model drafts aborts timestamp
  end.
Definition engine_op_ok (s : S) (o : engine_op) : Prop :=
  match o with
  | EAdd r _ => arrives s r
  | EStep model _ _ _ => forall out, model_ok cfg out (model out)
  | _ => True
  end.

(** The ids an engine answers for, as a client sees them: an added request is
    among them unless it is to be aborted at once; a request leaves them when it
    is aborted or when the outputs of an iteration report its finish reason.  An
    iteration is [busy] unless the scheduler has nothing to do. *)
Inductive registry (busy : bool) (ids : gset string) : engine_op -> gmap Z (list EngineCoreOutput) -> gset string -> Prop :=
| rg_add r ts : request_id r ∉ ids -> registry busy ids (EAdd r ts) ∅ (if abort_immediately r then ids else {[request_id r]} ∪ ids)
| rg_abort l : registry busy ids (EAbort l) ∅ (ids ∖ list_to_set l)
| rg_pause p : registry busy ids (EPause p) ∅ ids
| rg_idle model drafts aborts ts : busy = false -> registry busy ids (EStep model drafts aborts ts) ∅ ids
| rg_step model drafts aborts ts outs (done : gset string) : busy = true -> (forall id, reported outs id <-> id ∈ done) ->
    done ⊆ ids ∖ list_to_set aborts -> registry busy ids (EStep model drafts aborts ts) outs (ids ∖ list_to_set aborts ∖ done).
Definition known (s : S) : gset string := dom (requests s).

Lemma sched_ok_known P obj fl (s : S) : sched_ok cfg P obj fl s -> known s = list_to_set P.
Proof.
  intros (Hi & _)%sched_ok_inv. apply set_eq. intros id. unfold known. rewrite elem_of_dom, elem_of_list_to_set.
  split; [apply (iv_domain _ _ _ _ _ _ _ Hi)|]. intros Hid. destruct (inv_lookup cfg fl P obj [] s _ id Hi Hid) as (r & E & _). by eexists.
Qed.
Lemma known_without (gone : gset string) P obj fl (s : S) : sched_ok cfg (without gone P) obj fl s -> known s = list_to_set P ∖ gone.
Proof.
  intros ->%sched_ok_known. apply set_eq. intros id. by rewrite elem_of_difference, !elem_of_list_to_set, list_elem_of_filter, (and_comm (id ∉ gone)).
Qed.

Definition answers (s : S) (o : engine_op) (outs : gmap Z (list EngineCoreOutput)) (s' : S) : Prop :=
  engine_ok s' /\ registry (Update.has_requests s) (known s) o outs (known s').

Lemma process_step_ok (s : S) model drafts aborts ts : engine_ok s -> (forall out, model_ok cfg out (model out)) ->
  wp (process_engine_step model drafts aborts ts) (answers s (EStep model drafts aborts ts)) s.
Proof.
  intros (P & obj & HP & Hok) Hmodel. unfold process_engine_step. rewrite wp_bind.
  eapply wp_mono; [by apply (engine_step_ok P obj s)|].
  intros [outs executed] s1 (gone & HP1 & Hok1 & R1 & R2). cbn [fst snd] in *. rewrite wp_bind.
  apply (wp_mono _ (fun _ s2 => sched_ok cfg (without gone P) obj none s2)).
  - unfold Engine.post_step. destruct (_ && _); [|by rewrite wp_ret]. destruct drafts; [by apply drafts_ok|by rewrite wp_ret].
  - intros [] s2 Hok2. rewrite wp_ret. split; [by exists (without gone P), obj|]. rewrite (known_without _ _ _ _ _ Hok2), (sched_ok_known _ _ _ _ Hok).
    destruct (Update.has_requests s).
    + replace (list_to_set P ∖ gone) with (list_to_set P ∖ list_to_set aborts ∖ ((gone ∩ list_to_set P) ∖ list_to_set aborts))
        by (apply set_eq; intros id; destruct (decide (id ∈ gone)), (decide (id ∈ aborts)); set_solver).
      constructor; [done| |set_solver]. intros id. rewrite R1. set_solver.
    + destruct R2 as [-> ->]. rewrite difference_empty_L. by constructor.
Qed.

Lemma add_ok (s : S) r ts : engine_ok s -> arrives s r -> wp (Engine.add_request cfg r ts) (fun _ => answers s (EAdd r ts) ∅) s.
Proof.
  intros (P & obj & HP & Hok) Hr. assert (request_id r ∉ known s) as Hn by (unfold known; apply not_elem_of_dom, Hr).
  unfold Engine.add_request. rewrite wp_bind. eapply wp_mono; [by apply (arrival_ok P obj)|]. intros [] s1 ((obj' & HP' & Hok') & _).
  pose proof (rg_add (Update.has_requests s) (known s) r ts Hn) as Hreg. destruct (abort_immediately r).
  - rewrite wp_bind. eapply wp_mono; [by apply abort_ok|]. intros rs s2 (_ & HP2 & Hok2). rewrite wp_ret. split; [by eexists _, _|].
    rewrite (known_without _ _ _ _ _ Hok2). replace (_ ∖ _) with (known s); [done|]. rewrite (sched_ok_known _ _ _ _ Hok) in *. set_solver.
  - rewrite wp_ret. split; [by eexists _, _|]. rewrite (sched_ok_known _ _ _ _ Hok'), (sched_ok_known _ _ _ _ Hok) in *. done.
Qed.

Lemma engine_op_safe (s : S) o : engine_ok s -> engine_op_ok s o -> wp (run_engine_op o) (answers s o) s.
Proof.
  intros Hs Ho. destruct o as [r ts|ids|p|model drafts aborts ts]; cbn [run_engine_op engine_op_ok] in *.
  - rewrite wp_bind. eapply wp_mono; [by apply add_ok|]. intros [] s' Ha. by rewrite wp_ret.
  - destruct Hs as (P & obj & HP & Hok). rewrite wp_bind. eapply wp_mono; [by apply (abort_ok P obj)|]. intros rs s2 (_ & HP2 & Hok2).
    rewrite wp_ret. split; [by eexists _, _|]. rewrite (known_without _ _ _ _ _ Hok2), <- (sched_ok_known _ _ _ _ Hok). constructor.
  - destruct Hs as (P & obj & HP & Hok). rewrite wp_bind. unfold Update.set_pause_state. rewrite wp_modify, wp_ret. split; [|constructor].
    exists P, obj. split; [done|]. destruct Hok as [[A1 A2 A3 A4 A5 A6] B C]. split; [|done|done]. split; [exact A1|exact A2|exact A3|exact A4|exact A5|exact A6].
  - by apply process_step_ok.
Qed.

End engine.
