(* ===== verification/SchedulerTrace.v ===== *)
(** The engine on the KV cache manager: every sequence of arrivals, aborts and
    iterations, from the construction of the scheduler and its manager, with what
    clients and workers can rely on. *)
From Stdlib Require Import ZArith Lia Strings.String.
From stdpp Require Import base numbers list gmap strings.
From S2P Require Import Prelude Request BlockHash RequestQueue StopCheck BlockPool CacheHit SingleTypeManager Coordinator KVCacheManager KVManagerSafety KVManagerReach KVManagerInit KVManagerCalls KVManagerTrace.
From S2P Require Import Scheduler SchedulerSafety SchedulerPreempt SchedulerWaiting SchedulerStep SchedulerUpdate SchedulerFinish SchedulerResult SchedulerKV.
From S2P Require Import SchedulerEngine.
Import SingleType.
Open Scope Z_scope.
Local Arguments py_get : simpl never.
Local Arguments Z.of_nat : simpl never.

Section trace.
Context {Q : Type} `{!RequestQueue Q, !RequestQueueLaws Q} (cfg : SchedulerConfig).
Context (use_int : bool) (sha256 : bytes -> bytes) (hash_function : hash_input -> bytes) (NONE_HASH : bytes) (hash_size : Z).
Context (grammar : string -> option bool) (accept : Request -> list Z -> bool) (validate : Request -> list Z -> list Z).
Hypothesis hash_size_pos : 0 < hash_size.
Hypothesis config_ok : sched_config_ok cfg.
Abbreviation max_len := (sched_max_model_len cfg).
#[local] Instance engine_kv : KVOps KVCacheManager := manager_ops use_int sha256.
#[local] Instance engine_kv_laws : KVLaws KVCacheManager max_len :=
  manager_laws use_int sha256 hash_function NONE_HASH hash_size max_len.
Abbreviation S := (Scheduler Q KVCacheManager).
Abbreviation block_hasher := (hasher sha256 hash_function NONE_HASH hash_size).
Abbreviation run := (run_engine_op cfg block_hasher grammar accept validate).

(** ** Construction *)

(** A KV cache manager for the scheduler's model length and hash granularity;
    with KV cache events, the blocks of every group have the hashed size. *)
Definition starts (m : KVCacheManager) : Prop :=
  exists kv_cache_config max_in_flight eagle caching events dcp pcp metrics lookahead log_stats watermark,
    config_fits kv_cache_config eagle caching dcp pcp hash_size lookahead watermark /\
    (events = true -> forall g, g ∈ kv_cache_groups kv_cache_config -> spec_block_size (cg_spec g) = hash_size) /\
    KVInit.init kv_cache_config max_len max_in_flight eagle caching events dcp pcp hash_size hash_size metrics lookahead log_stats watermark = Ok m.

(** ** Arrival *)

(** The arguments of a request that samples, without encoder inputs, whose
    prompt fits the model. *)
Record accepted (a : RequestArgs) : Prop := {
  ac_sampling : is_Some (a_sampling_params a) /\ a_pooling_params a = None;
  ac_limit : forall sp n, a_sampling_params a = Some sp -> sp_max_tokens sp = Some n -> 0 < n;
  ac_prompt : forall n, length_from_prompt_token_ids_or_embeds (a_prompt_token_ids a) (a_prompt_embeds a) = Ok n -> 1 <= n <= max_len;
  ac_mask : forall t mask, a_prompt_token_ids a = Some t -> a_prompt_is_token_ids a = Some mask -> length mask = length t;
  ac_plain : default [] (a_mm_features a) = [] /\ a_resumable a = false
}.
Definition op_ok (s : S) (o : engine_op) : Prop :=
  match o with
  | EAdd r _ => (exists a, accepted a /\ new_request a block_hasher = Ok r) /\ requests s !! request_id r = None /\
      forall id r', requests s !! id = Some r' -> obj_id r' <> obj_id r
  | EStep model _ _ _ => forall out, model_ok cfg out (model out)
  | _ => True
  end.

Lemma prompt_length ids embeds mask n : length_from_prompt_token_ids_or_embeds ids embeds = Ok n ->
  (forall t m, ids = Some t -> mask = Some m -> length m = length t) -> zlen (init_all_token_ids ids mask n) = n.
Proof.
  intros Hn Hm. destruct ids as [t|], embeds as [e|]; cbn in Hn; try done.
  - destruct (zlen e =? zlen t); [|done]. injection Hn as <-. destruct mask as [m|]; [|done]. cbn. rewrite length_zip_with, (Hm t m) by done. lia.
  - injection Hn as <-. destruct mask as [m|]; [|done]. cbn. rewrite length_zip_with, (Hm t m) by done. lia.
  - injection Hn as <-. cbn. rewrite length_replicate. lia.
Qed.

(** A new request: the fields the scheduler reads. *)
Lemma new_request_fields a r : accepted a -> new_request a block_hasher = Ok r -> hashed_request sha256 hash_function NONE_HASH hash_size max_len r /\
  (status r = WAITING \/ status r = WAITING_FOR_STRUCTURED_OUTPUT_GRAMMAR) /\ num_computed_tokens r = 0 /\ num_preemptions r = 0 /\
  num_tokens r = num_prompt_tokens r /\ 1 <= num_tokens r /\ ledger r = (0, 0, 0) /\ served r /\ num_output_tokens r = 0 /\ 0 < max_tokens r.
Proof.
  intros [[[sp Esp] Epp] Hlim Hprompt Hmask [Hmm Hres]] E.
  assert (features_ok (default [] (a_mm_features a))) as Hf by (rewrite Hmm; split; [by intros f Hf%not_elem_of_nil|by intros [|i] [|j]]).
  destruct (new_request_hashes sha256 hash_function NONE_HASH hash_size hash_size_pos a r Hf E) as [Hh Hl].
  unfold new_request in E. destruct (request_kind _ _ _) as [k|] eqn:Ek; [|done].
  destruct (length_from_prompt_token_ids_or_embeds _ _) as [n|] eqn:En; [|done]. specialize (Hprompt n eq_refl).
  pose proof (prompt_length _ _ (a_prompt_is_token_ids a) n En Hmask) as Hn.
  match type of E with context [update_block_hashes _ ?x] => set (r0 := x) in E end.
  assert (exists hs m, r = set_block_hashes hs (set_prompt_embeds_per_block_hashes m r0)) as (hs & m & ->).
  { assert (hashes_ok sha256 hash_function NONE_HASH hash_size r0) as H0 by (split; [done|..]; cbn; try done; unfold num_tokens; lia).
    pose proof (hasher_ok sha256 hash_function NONE_HASH hash_size hash_size_pos r0 H0) as Hw. unfold wp, update_block_hashes, hasher, bind in *.
    destruct (request_block_hasher _ _ _ _ r0) as [[h|] r1]; [|done]. destruct Hw as (_ & (m & ->) & _). injection E as <-. by eexists _, _. }
  assert ((k_status k = WAITING \/ k_status k = WAITING_FOR_STRUCTURED_OUTPUT_GRAMMAR) /\ 0 < k_max_tokens k) as [Hst Hmt].
  { unfold request_kind in Ek. rewrite Esp, Epp in Ek. destruct (sp_max_tokens sp) as [mt|] eqn:Emt; [|done]. specialize (Hlim sp mt Esp Emt).
    destruct (extra_args sp); injection Ek as <-; cbn [k_status k_max_tokens]; (split; [by repeat case_match; auto|done]). }
  unfold num_tokens in *. cbn in *. split; [split; try done; unfold num_tokens; cbn; lia|]. split_and!; try done; try lia.
Qed.
Lemma op_ok_engine (s : S) o : op_ok s o -> engine_op_ok cfg s o.
Proof.
  destruct o as [r ts| | |]; cbn; try done. intros ((a & Ha & E) & Hid & Hobj).
  destruct (new_request_fields a r Ha E) as (H1 & H2 & H3 & H4 & H5 & H6 & H7 & H8 & H9 & H10). split; try done; lia.
Qed.

(** ** Reachable states *)

(** The states of the engine: each call returns or raises. *)
Inductive reached : S -> Prop :=
| rc_init m : starts m -> reached (Sched.new_scheduler m)
| rc_op s o res s' : reached s -> op_ok s o -> run o s = (res, s') -> reached s'.

Lemma starts_ok m : starts m -> manager_good hash_size max_len m /\ forall id, unknown m id.
Proof.
  intros (kc & mif & eagle & caching & events & dcp & pcp & metrics & lookahead & stats & watermark & Hfit & Hev & E).
  destruct (manager_init_ok kc max_len mif eagle caching events dcp pcp hash_size metrics lookahead stats watermark Hfit) as (m' & E' & H1 & H2 & Hb & H3 & [S1 S2 S3 S4]).
  assert (m' = m) as -> by congruence. rewrite Forall_forall in Hb. split.
  - split; [by split|done|done|]. unfold reports_fit. rewrite S2, S3. intros Ee. specialize (Hev Ee). apply Forall_forall. intros g Hg.
    assert (kv_cache_spec g ∈ map cg_spec (kv_cache_groups kc)) as Hin by (rewrite <- S4; apply list_elem_of_fmap; by exists g).
    apply list_elem_of_fmap in Hin as (x & -> & Hx). by apply Hev.
  - intros id g Hg. specialize (Hb g Hg). split; [by apply blank_table|]. by rewrite (bl_cached _ Hb), lookup_empty.
Qed.
Lemma op_answers (s : S) o : engine_ok cfg s -> op_ok s o -> wp (run o) (answers cfg s o) s.
Proof.
  intros Hs Ho. apply (engine_op_safe (Q := Q) (K := KVCacheManager)); [done| |done|by apply op_ok_engine].
  exact (append_hashed sha256 hash_function NONE_HASH hash_size max_len hash_size_pos).
Qed.
Lemma reached_ok (s : S) : reached s -> engine_ok cfg s.
Proof.
  induction 1 as [m Hm|s o res s' _ IH Ho E].
  - destruct (starts_ok m Hm) as [Hg Hu]. by apply (new_scheduler_ok cfg config_ok).
  - pose proof (op_answers s o IH Ho) as Hw. unfold wp in Hw. rewrite E in Hw. destruct res; [apply Hw|done].
Qed.

(** ** Guarantees *)


(** C4: bounds.  From a state of the engine that is reachable as in
    [engine_refines_registry] a     scheduling step returns, never plans more tokens than the configured budget nor
    runs more requests than the limit, and each request in the plan gets a positive
    number of tokens, is running, stays within the model length, and has slots in
    the block table of every KV cache group for all tokens that will be computed
    after the step; the output describes every scheduled request exactly once. *)
Theorem schedule_within_limits (s : S) throttle ts :
  reached s ->
  exists out s', Sched.schedule cfg grammar throttle ts s = (Ok out, s') /\
    out_total_num_scheduled_tokens out = dict_sum (out_num_scheduled_tokens out) /\
    out_total_num_scheduled_tokens out <= max_num_scheduled_tokens cfg /\
    zlen (running s') <= max_num_running_reqs cfg /\
    NoDup (out_num_scheduled_tokens out).*1 /\
    (out_num_scheduled_tokens out).*1 ≡ₚ map (fun x => request_id (new_request_of x)) (out_new_reqs out) ++ req_ids (out_cached_reqs out) /\
    forall id n, (id, n) ∈ out_num_scheduled_tokens out -> 0 < n /\ id ∈ running s' /\
      exists r, requests s' !! id = Some r /\ n <= num_computed_tokens r <= max_len /\
        forall g, g ∈ managers (kv_cache_manager s') -> num_computed_tokens r <= zlen (table g id) * block_size g.
Proof.
  intros (P & obj & HP & Hok)%reached_ok.
  pose proof (step_ok cfg grammar none P obj (proj1 HP) (proj2 HP) (none_settled) config_ok throttle ts s Hok) as Hw. unfold wp in Hw.
  destruct (Sched.schedule _ _ _ _ s) as [[out|] s'] eqn:E; [|done]. destruct Hw as [R1 [R2 R2'] R3 R4 [R5 R5']]. exists out, s'.
  split; [done|]. split; [done|]. split; [done|]. split; [apply R1|]. split; [done|]. split; [done|]. exact R3.
Qed.

(** C5: invariant.  Between two calls of an engine in a state reachable as in
    [engine_refines_registry],
    every known request is in exactly one place, on the running list or in one of
    the two waiting queues, and on the list exactly if its status is RUNNING; it
    has produced fewer tokens than its limit, fits the model, has no tokens in
    flight and has slots for its computed tokens in every KV cache group; and a
    request that is not known, because it never arrived, finished or was aborted,
    holds no block in any group. *)
Theorem engine_requests_placed (s : S) :
  reached s ->
  exists lw lk, queue_iter (waiting s) = Ok lw /\ queue_iter (kv_holding_waiting s) = Ok lk /\
    running s ++ map request_id (lw ++ lk) ≡ₚ elements (known s) /\
    (forall id r, requests s !! id = Some r -> request_id r = id /\ (id ∈ running s <-> status r = RUNNING) /\
      num_output_tokens r < max_tokens r /\ num_tokens r <= max_len /\ num_in_flight_tokens r = 0 /\
      forall g, g ∈ managers (kv_cache_manager s) -> num_computed_tokens r <= zlen (table g id) * block_size g) /\
    (forall id g, id ∉ known s -> g ∈ managers (kv_cache_manager s) -> table g id = []).
Proof.
  intros (P & obj & HP & Hok)%reached_ok. pose proof (sched_ok_known cfg P obj none s Hok) as Hk. apply sched_ok_inv in Hok as (Hi & _).
  destruct (inv_queues_of cfg none P obj s idle_step Hi) as (lw & lk & Hq). pose proof Hq as (_ & Q2 & _ & Q4).
  destruct (queues_perm cfg none P obj s idle_step lw lk Hi Hq) as [Hp Hf]. unfold queued in Hp, Hf. cbn in Hp, Hf. rewrite ?app_nil_r in *.
  exists lw, lk. split; [done|]. split; [done|]. split.
  { rewrite Hk, elements_list_to_set by apply HP. exact Hp. }
  split.
  - intros id r E. destruct (request_place cfg obj none P s idle_step id r Hi idle_no_skips E) as (Ei & Eo & HidP & _ & _ & Hst).
    split; [done|]. split; [done|].
    destruct (inv_request cfg obj none P s idle_step id r Hi idle_no_skips E) as [[_ H1 _ _ _ H2 H3]|[_ H1 _ _ H2 H3]]; pose proof H3 as [O1 _ _ _ O5];
      pose proof (hr_length _ _ _ _ _ _ H1); split_and!; try done; [by rewrite <- Ei|]. intros g Hg. rewrite <- Ei.
    destruct H2 as [(-> & Hn & _)|[_ Hc]]; [destruct (Hn g Hg) as [-> _]; done|by apply Hc].
  - intros id g Hid Hg. apply (iv_others _ _ _ _ _ _ _ Hi id); [|done]. rewrite Hk in Hid. by rewrite elem_of_list_to_set in Hid.
Qed.
End trace.

(** * A configuration that fails *)

(** A new decode that is padded with draft rows keeps its padding when the
    long-prefill threshold cuts its tokens: with a threshold of at most the number
    of speculative tokens, the assertion at its admission fails, whatever the
    request. *)
Theorem threshold_breaks_padding (cfg : SchedulerConfig) (r : Request) (id : string) (num_computed threshold n : Z) (l l' : StepState) :
  0 < threshold <= num_spec_tokens cfg ->
  Sched.waiting_tokens cfg r num_computed threshold l = Ok (Some (true, n)) ->
  Sched.pad_drafts cfg id n true l' = (Raise AssertionError, l').
Proof.
  intros Ht E. enough (n <> 1 + num_spec_tokens cfg) as Hn
    by (unfold Sched.pad_drafts, bind, assert_; apply Z.eqb_neq in Hn; by rewrite Hn).
  unfold Sched.waiting_tokens in E. destruct (_ && (_ >? _)) eqn:E0 in E; [done|]. destruct (negb _ && _ && _) in E; [done|].
  destruct (negb _) in E; [done|]. destruct (_ =? 0) in E; [done|]. injection E as Hpad <-. rewrite Hpad.
  replace (0 <? threshold) with true by lia. replace (threshold <? 1 + num_spec_tokens cfg) with true by lia. cbn [andb].
  pose proof (reserve_bounds cfg r num_computed (Z.min threshold (Z.min (token_budget l) (input_budget l - draft_slots cfg)))). lia.
Qed.

(** * Examples *)

Definition demo_sched_config (threshold spec : Z) : SchedulerConfig :=
  mkSchedConfig FCFS 4 4 16 16 threshold false true false 16 1 0 spec None spec 0 true false true false false false.
Definition demo_engine_kv : KVCacheConfig := mkCacheConfig 40 [mkCacheGroup (demo_spec 2 FullAttention) false true] None false.
Abbreviation demo_engine_manager :=
  (KVInit.init demo_engine_kv (sched_max_model_len (demo_sched_config 0 0)) 16 false true true 1 1 2 2 false 0 true 0).
#[local] Instance demo_ops : KVOps KVCacheManager := manager_ops false (fun b => b).
Abbreviation demo_scheduler := (Scheduler FCFSRequestQueue KVCacheManager).
Definition no_grammar (id : string) : option bool := None.
Definition accept_all (r : Request) (l : list Z) : bool := true.
Definition keep_drafts (r : Request) (l : list Z) : list Z := l.
Definition demo_run (c : SchedulerConfig) : engine_op -> M demo_scheduler (gmap Z (list EngineCoreOutput)) :=
  run_engine_op c sample_hasher no_grammar accept_all keep_drafts.
Abbreviation demo_reached := (reached (Q := FCFSRequestQueue) (demo_sched_config 0 0) false (fun b => b) injective_hash sample_none 2 no_grammar accept_all keep_drafts).

(** A model that samples one token for every request. *)
Definition demo_model (out : SchedulerOutput) : ModelRunnerOutput :=
  let ids := (out_num_scheduled_tokens out).*1 in
  mkModelOutput (list_to_map (zip ids (map Z.of_nat (seq 0 (length ids))))) (map (fun _ => [21]) ids) None ∅ ∅.
Lemma demo_rows (ids : list string) i : zlen (default [] (py_get (map (fun _ => [21]) ids) i)) <= 1.
Proof.
  destruct (py_get _ i) as [row|] eqn:E; [|cbn; lia]. unfold py_get in E. destruct (_ <? 0); [done|].
  apply list_elem_of_lookup_2, list_elem_of_fmap in E as (x & -> & _). cbn. lia.
Qed.
Lemma demo_model_ok out : model_ok (demo_sched_config 0 0) out (demo_model out).
Proof.
  set (ids := (out_num_scheduled_tokens out).*1). split; cbn; fold ids.
  - intros id Hid. destruct (list_to_map (M := gmap string Z) (zip ids (map Z.of_nat (seq 0 (length ids)))) !! id) as [i|] eqn:E.
    + exists i. split; [done|]. split; [|done]. intros _. apply elem_of_list_to_map_2, elem_of_zip_r, list_elem_of_fmap in E as (k & -> & Hk%elem_of_seq).
      rewrite py_get_nonneg by lia. change (map ?f ?l) with (f <$> l). rewrite list_lookup_fmap, Nat2Z.id.
      destruct (lookup_lt_is_Some_2 ids k) as [x ->]; [lia|by eexists].
    + exfalso. apply not_elem_of_list_to_map_2 in E. apply E. rewrite fst_zip; [done|]. rewrite length_map, length_seq. lia.
  - intros id d _ _. unfold generated_for. cbn. fold ids. pose proof (demo_rows ids) as Hg.
    destruct (map (fun _ => [21]) ids) as [|x rows] eqn:Er; [cbn; lia|]. destruct (list_to_map _ !! id) as [i|]; cbn; [|lia]. specialize (Hg i). lia.
  - intros id [Hid|Hid]; set_solver.
Qed.

Lemma demo_config_ok : sched_config_ok (demo_sched_config 0 0).
Proof. split; cbn; try lia. done. Qed.
Lemma demo_engine_fits : config_fits demo_engine_kv false true 1 1 2 0 0.
Proof.
  split; try done; try lia.
  - intros g Hg. apply elem_of_cons in Hg as [->|Hg]; [done|by apply not_elem_of_nil in Hg].
  - intros [|k] g Hg; simplify_eq/=; done.
Qed.
Lemma demo_starts m : demo_engine_manager = Ok m -> starts (demo_sched_config 0 0) 2 m.
Proof.
  intros E. exists demo_engine_kv, 16, false, true, true, 1, 1, false, 0, true, 0. split; [exact demo_engine_fits|].
  split; [|exact E].
  clear E. intros _ g Hg. apply elem_of_cons in Hg as [->|Hg]; [done|by apply not_elem_of_nil in Hg].
Qed.
Lemma demo_accepted id mode : accepted (demo_sched_config 0 0) (demo_kv_args id mode).
Proof. split; cbn; try done; [intros sp n [= <-] [= <-]; lia|intros n [= <-]; lia]. Qed.

(** A request has arrived at a new engine. *)
Lemma demo_arrived : exists m r s, demo_engine_manager = Ok m /\ demo_kv_request "a" "incremental" = Ok r /\
  demo_run (demo_sched_config 0 0) (EAdd r 0) (Sched.new_scheduler m) = (Ok ∅, s) /\ demo_reached s.
Proof.
  assert (omap_ok (fun _ => tt) demo_engine_manager = Some tt /\ omap_ok (fun _ => tt) (demo_kv_request "a" "incremental") = Some tt) as [Fm Fr]
    by (vm_compute; done).
  destruct demo_engine_manager as [m|] eqn:Em; [|discriminate Fm]. destruct (demo_kv_request "a" "incremental") as [r|] eqn:Er; [|discriminate Fr].
  assert (demo_reached (Sched.new_scheduler m)) as H0 by (by apply rc_init, demo_starts).
  assert (op_ok (demo_sched_config 0 0) (fun b => b) injective_hash sample_none 2 (Sched.new_scheduler m : demo_scheduler) (EAdd r 0)) as Ho.
  { split; [exists (demo_kv_args "a" "incremental"); split; [apply demo_accepted|exact Er]|]. cbn. split; [done|]. intros id r' E. by rewrite lookup_empty in E. }
  pose proof (reached_ok (demo_sched_config 0 0) false (fun b => b) injective_hash sample_none 2 no_grammar accept_all keep_drafts
    ltac:(lia) demo_config_ok _ H0) as Hs.
  destruct (wp_returns _ _ _ (op_answers (demo_sched_config 0 0) false (fun b => b) injective_hash sample_none 2 no_grammar accept_all keep_drafts
    ltac:(lia) demo_config_ok _ _ Hs Ho)) as (outs & s & E & _ & Hr).
  exists m, r, s. inversion Hr; subst. split; [done|]. split; [done|]. split; [exact E|]. by eapply rc_op.
Qed.


Lemma schedule_within_limits_witness :
  exists m r s out s', demo_engine_manager = Ok m /\ demo_kv_request "a" "incremental" = Ok r /\
    demo_run (demo_sched_config 0 0) (EAdd r 0) (Sched.new_scheduler m) = (Ok ∅, s) /\
    Sched.schedule (demo_sched_config 0 0) no_grammar false 1 s = (Ok out, s') /\ out_total_num_scheduled_tokens out <= 16.
Proof.
  destruct demo_arrived as (m & r & s & Em & Er & Es & Hs).
  destruct (schedule_within_limits (demo_sched_config 0 0) false (fun b => b) injective_hash sample_none 2 no_grammar accept_all keep_drafts
    ltac:(lia) demo_config_ok s false 1 Hs) as (out & s' & E & _ & Hle & _).
  exists m, r, s, out, s'. split_and!; assumption.
Defined.

Lemma engine_requests_placed_witness :
  exists m r s, demo_engine_manager = Ok m /\ demo_kv_request "a" "incremental" = Ok r /\
    demo_run (demo_sched_config 0 0) (EAdd r 0) (Sched.new_scheduler m) = (Ok ∅, s) /\
    exists lw lk, queue_iter (waiting s) = Ok lw /\ running s ++ map request_id (lw ++ lk) ≡ₚ elements (known s).
Proof.
  destruct demo_arrived as (m & r & s & Em & Er & Es & Hs). exists m, r, s.
  destruct (engine_requests_placed (demo_sched_config 0 0) false (fun b => b) injective_hash sample_none 2 no_grammar accept_all keep_drafts
    ltac:(lia) demo_config_ok s Hs) as (lw & lk & E1 & _ & Hp & _).
  split; [assumption|]. split; [assumption|]. split; [assumption|]. exists lw, lk. split; assumption.
Defined.

(** One request decodes; a second one with the same prompt arrives, finds all
    but its last token in the cache and is padded. *)
Definition quiet_model (out : SchedulerOutput) : ModelRunnerOutput :=
  mkModelOutput (req_id_to_index (demo_model out)) [] None ∅ ∅.
Definition demo_session (c : SchedulerConfig) : outcome (list (string * Z)) :=
  let? m := demo_engine_manager in
  let? a := demo_kv_request "a" "incremental" in
  let? b := demo_kv_request "b" "incremental" in
  let step model := demo_run c (EStep model None [] 1) in
  match (demo_run c (EAdd a 0) ;; step quiet_model ;; step quiet_model ;; step demo_model ;; demo_run c (EAdd b 2) ;; step demo_model)
          (Sched.new_scheduler m : demo_scheduler) with
  | (Raise e, _) => Raise e
  | (Ok _, s) => Ok (map (fun x => (x.1, num_computed_tokens x.2)) (map_to_list (requests s)))
  end.
Definition demo_padded : outcome (option (bool * Z)) :=
  let? b := demo_kv_request "b" "incremental" in
  Sched.waiting_tokens (demo_sched_config 2 2) b 4 2 (mkStep [] [] ["a"%string] [] ∅ [("a"%string, 1)] 15 15 ∅ false [] []).
Lemma threshold_breaks_padding_witness :
  demo_session (demo_sched_config 2 2) = Raise AssertionError /\
  Sched.pad_drafts (demo_sched_config 2 2) "b" 2 true idle_step = (Raise AssertionError, idle_step).
Proof.
  split; [vm_compute; reflexivity|].
  destruct (demo_kv_request "b" "incremental") as [b|] eqn:Eb; [|by vm_compute in Eb].
  apply (threshold_breaks_padding (demo_sched_config 2 2) b "b" 4 2 2 (mkStep [] [] ["a"%string] [] ∅ [("a"%string, 1)] 15 15 ∅ false [] []) idle_step);
    [cbn; lia|].
  assert (demo_padded = Ok (Some (true, 2))) as E by (vm_compute; reflexivity). unfold demo_padded in E. rewrite Eb in E. exact E.
Defined.

(** Three running requests of different priority; the first one is scheduled. *)
Definition demo_running (m : KVCacheManager) : Scheduler PriorityRequestQueue KVCacheManager :=
  mkScheduler 0 (list_to_map (map (fun r => (request_id r, r)) demo_requests)) ["b"; "a"; "c"]%string empty_queue empty_queue ∅ ∅ ∅ ∅ ∅ ∅ ∅ 0 UNPAUSED false m.
Definition demo_scheduled : StepState := mkStep [] [] ["a"%string] [] ∅ [("a"%string, 3)] 5 5 ∅ false [] [].
Definition demo_priority_config : SchedulerConfig := mkSchedConfig PRIORITY 4 4 16 16 0 false true false 16 1 0 0 None 0 0 true false true false false false.
Lemma victim_has_lowest_priority_witness :
  exists m, demo_engine_manager = Ok m /\
    wp (Sched.pop_victim demo_priority_config 2) (fun res x => res.1 = "a"%string /\ running x.1 = ["b"; "c"]%string /\ token_budget x.2 = 8)
      (demo_running m, demo_scheduled).
Proof.
  assert (omap_ok (fun _ => tt) demo_engine_manager = Some tt) as Fm by (vm_compute; done).
  destruct demo_engine_manager as [m|]; [|discriminate Fm]. clear Fm. exists m. split; [done|].
  eapply wp_mono; [apply (victim_has_lowest_priority demo_priority_config 2 (demo_running m) demo_scheduled)|].
  - done.
  - apply (bool_decide_unpack _). by vm_compute.
  - intros id Hid. repeat (apply elem_of_cons in Hid as [->|Hid]); [by eexists|by eexists|by eexists|]. by apply not_elem_of_nil in Hid.
  - intros id Hid. done.
  - intros res x (vi & r & Hv & Hr & -> & Hmax & Hb & _).
    assert (forall id n, priority <$> requests (demo_running m) !! id = Some n -> id = res.1 -> priority r = n) as Hp
      by (intros id n E ->; rewrite Hr in E; by injection E).
    destruct (requests (demo_running m) !! "a"%string) as [ra|] eqn:Ea; [|by vm_compute in Ea].
    assert (priority ra = 5) as E5 by (vm_compute in Ea; by injection Ea as <-).
    destruct (Hmax 1%nat "a"%string ra eq_refl Ea) as [H|[[H _]|[H1 [H _]]]]; rewrite E5 in H.
    all: destruct vi as [|[|[|vi]]]; cbn in Hv; try (injection Hv as Hv; rewrite <- Hv in *); try done.
    all: try (pose proof (Hp "b"%string 1 eq_refl eq_refl); lia).
    all: pose proof (Hp "c"%string 1 eq_refl eq_refl); lia.
Defined.
