(* ===== verification/ToolParser.v ===== *)
(** The tool-call parser of RWKV models ([vllm/tool_parsers/rwkv_tool_parser.py])
    with the string search it uses ([vllm/tool_parsers/utils.py]): extraction from
    a complete output and from a stream of growing outputs. *)
From Stdlib Require Import ZArith Lia Strings.String Strings.Ascii.
From stdpp Require Import base numbers list gmap strings.
From S2P Require Import Prelude.
Open Scope Z_scope.
Local Arguments Z.of_nat : simpl never.

(** * Python strings *)

(** A [str] is its list of code points. *)
Abbreviation str := (list Z).
Definition lit (s : string) : str := map (fun c => Z.of_N (N_of_ascii c)) (list_ascii_of_string s).

(** [l.startswith(sub)] *)
Fixpoint startswith (sub l : str) : bool :=
  match sub, l with
  | [], _ => true
  | a :: sub, b :: l => (a =? b) && startswith sub l
  | _ :: _, [] => false
  end.
Definition endswith (l sub : str) : bool :=
  (zlen sub <=? zlen l) && bool_decide (drop (length l - length sub) l = sub).

(** [text.find(sub, start)] for [start >= 0]; [i] is the position of [l] in the
    text. *)
Fixpoint find_at (sub l : str) (i : Z) : Z :=
  if startswith sub l then i else
  match l with [] => -1 | _ :: l => find_at sub l (i + 1) end.
Definition find (text sub : str) (start : Z) : Z :=
  if start >? zlen text then -1 else find_at sub (drop (Z.to_nat start) text) start.

(** The characters [str.strip] removes. *)
Definition isspace (c : Z) : bool :=
  ((9 <=? c) && (c <=? 13)) || ((28 <=? c) && (c <=? 32)) || (c =? 133) || (c =? 160) || (c =? 5760) ||
  ((8192 <=? c) && (c <=? 8202)) || (c =? 8232) || (c =? 8233) || (c =? 8239) || (c =? 8287) || (c =? 12288).
Fixpoint lstrip (l : str) : str :=
  match l with c :: rest => if isspace c then lstrip rest else l | [] => [] end.
Definition strip (l : str) : str := reverse (lstrip (reverse (lstrip l))).

(** * JSON values *)

(** What [json.loads] returns; a number is represented by its literal. *)
Inductive json :=
| JNull
| JBool (b : bool)
| JNumber (literal : str)
| JString (s : str)
| JArray (l : list json)
| JObject (fields : list (str * json)).

(** [d.get(key)] *)
Fixpoint field (key : str) (fields : list (str * json)) : option json :=
  match fields with
  | [] => None
  | (k, v) :: fields => if bool_decide (k = key) then Some v else field key fields
  end.

(** * The parser *)

Definition TOOL_CALL_MARKER : str := lit "**Tool Call:**".
Definition JSON_FENCE_START : str := lit "```json".
Definition JSON_FENCE_END : str := lit "```".

(** [request.tool_choice] *)
Inductive ToolChoice :=
| ChatCompletionNamedToolChoiceParam (function_name : str)
| ToolChoiceFunction (name : str)
| OtherToolChoice.

Record payload := mkPayload { payload_name : str; payload_arguments : list (str * json) }.
Record ToolCallMatch := mkMatch { start : Z; match_payload : payload }.
Record FunctionCall := mkCall { name : str; arguments : str }.
Record ExtractedToolCallInformation := mkExtracted {
  tools_called : bool;
  tool_calls : list FunctionCall;
  extracted_content : option str
}.
Record DeltaToolCall := mkDeltaCall { index : Z; id : str; function : FunctionCall }.
Record DeltaMessage := mkDelta { content : option str; delta_tool_calls : list DeltaToolCall }.

(** The state of a parser over one stream. *)
Record RwkvToolParser := mkParser {
  sent_content_idx : Z;
  prev_tool_call_arr : list FunctionCall;
  streamed_args_for_tool : list str
}.
Definition new_parser : RwkvToolParser := mkParser 0 [] [].

(** [partial_tag_overlap] of [utils.py]: the loop over [k], downwards. *)
Fixpoint overlap_from (k : nat) (text tag : str) : Z :=
  match k with
  | O => 0
  | S k' => if endswith text (take k tag) then Z.of_nat k else overlap_from k' text tag
  end.
Definition partial_tag_overlap (text tag : str) : Z :=
  let max_check := Z.min (zlen tag - 1) (zlen text) in
  overlap_from (Z.to_nat max_check) text tag.

Module Rwkv.
Section parser.
(** [json.loads] (which raises [JSONDecodeError] on text that is not JSON, and
    other exceptions on numbers over the digit limit or on deep nesting),
    [json.dumps(_, ensure_ascii=False)] on a dict, the random ids of tool calls in
    the order they are drawn, the names of the tools given to the parser and the
    request's [tool_choice]. *)
Context (loads : str -> outcome json) (dumps : list (str * json) -> outcome str) (make_tool_call_id : nat -> str)
  (tools : list (option str)) (tool_choice : ToolChoice).

(** A tool whose name is not a string is ignored. *)
Definition allowed_tool_names : list str := omap (fun x => x) tools.
Definition named_tool : option str :=
  match tool_choice with
  | ChatCompletionNamedToolChoiceParam function_name => Some function_name
  | ToolChoiceFunction name => Some name
  | OtherToolChoice => None
  end.

(** [try: json.loads(text) except json.JSONDecodeError: return None]; any other
    exception leaves the method. *)
Definition try_loads (text : str) : outcome (option json) :=
  match loads text with
  | Ok j => Ok (Some j)
  | Raise JSONDecodeError => Ok None
  | Raise e => Raise e
  end.

Definition parse_payload (text : str) : outcome (option payload) :=
  let? parsed := try_loads text in
  match parsed with
  | Some (JObject parsed) =>
      match field (lit "name") parsed with
      | Some (JString name) =>
          let? arguments := match field (lit "arguments") parsed with
                            | Some (JString s) => try_loads s
                            | a => Ok a
                            end in
          match arguments with
          | Some (JObject arguments) =>
              if negb (bool_decide (allowed_tool_names = [])) && negb (bool_decide (name ∈ allowed_tool_names))
              then Ok None
              else match named_tool with
                   | Some named => if bool_decide (name = named) then Ok (Some (mkPayload name arguments)) else Ok None
                   | None => Ok (Some (mkPayload name arguments))
                   end
          | _ => Ok None
          end
      | _ => Ok None
      end
  | _ => Ok None
  end.

(** One round of the loop: the match that starts at the next marker and the
    cursor behind it. *)
Definition next_match (text : str) (cursor : Z) : outcome (option (ToolCallMatch * Z)) :=
  let marker_start := find text TOOL_CALL_MARKER cursor in
  if marker_start =? -1 then Ok None else
  let marker_end := marker_start + zlen TOOL_CALL_MARKER in
  let fence_start := find text JSON_FENCE_START marker_end in
  if (fence_start =? -1) || negb (bool_decide (strip (py_slice marker_end fence_start text) = [])) then Ok None else
  let payload_start := fence_start + zlen JSON_FENCE_START in
  let fence_end := find text JSON_FENCE_END payload_start in
  if fence_end =? -1 then Ok None else
  let? payload := parse_payload (strip (py_slice payload_start fence_end text)) in
  match payload with
  | None => Ok None
  | Some payload => Ok (Some (mkMatch marker_start payload, fence_end + zlen JSON_FENCE_END))
  end.
Fixpoint matches_from (fuel : nat) (text : str) (cursor : Z) (matches : list ToolCallMatch) :
    outcome (list ToolCallMatch) :=
  match fuel with
  | O => Raise OutOfFuel
  | S fuel =>
      let? next := next_match text cursor in
      match next with
      | None => Ok matches
      | Some (m, cursor) => matches_from fuel text cursor (matches ++ [m])
      end
  end.
Definition tool_call_matches (text : str) : outcome (list ToolCallMatch) :=
  matches_from (S (length text)) text 0 [].

Definition call_of (m : ToolCallMatch) : outcome FunctionCall :=
  let? arguments := dumps (payload_arguments (match_payload m)) in
  Ok (mkCall (payload_name (match_payload m)) arguments).
(** The list comprehension over the matches. *)
Fixpoint calls_of (matches : list ToolCallMatch) : outcome (list FunctionCall) :=
  match matches with
  | [] => Ok []
  | m :: matches => let? call := call_of m in let? calls := calls_of matches in Ok (call :: calls)
  end.

Definition extract_tool_calls (model_output : str) : outcome ExtractedToolCallInformation :=
  let? matches := tool_call_matches model_output in
  match matches with
  | [] => Ok (mkExtracted false [] (Some model_output))
  | first :: _ =>
      let? tool_calls := calls_of matches in
      let content := py_upto (start first) model_output in
      Ok (mkExtracted true tool_calls (if bool_decide (content = []) then None else Some content))
  end.

(** ** Streaming *)

Definition sendable_idx (current_text : str) : Z :=
  let marker_start := find current_text TOOL_CALL_MARKER 0 in
  if marker_start =? -1 then zlen current_text - partial_tag_overlap current_text TOOL_CALL_MARKER
  else marker_start.
Definition content_delta (current_text : str) : M RwkvToolParser (option str) :=
  let sendable_idx := sendable_idx current_text in
  let! sent := gets sent_content_idx in
  if sendable_idx <=? sent then ret None else
  modify (fun p => mkParser sendable_idx (prev_tool_call_arr p) (streamed_args_for_tool p)) ;;
  ret (Some (py_slice sent sendable_idx current_text)).

(** The body of the loop over the enumerated matches. *)
Definition stream_match (tool_deltas : list DeltaToolCall) (im : Z * ToolCallMatch) :
    M RwkvToolParser (list DeltaToolCall) :=
  let! p := gets (fun p => p) in
  if im.1 <? zlen (prev_tool_call_arr p) then ret tool_deltas else
  let! call := lift (call_of im.2) in
  let call_id := make_tool_call_id (length (prev_tool_call_arr p)) in
  modify (fun p => mkParser (sent_content_idx p) (prev_tool_call_arr p ++ [call])
                     (streamed_args_for_tool p ++ [arguments call])) ;;
  ret (tool_deltas ++ [mkDeltaCall im.1 call_id call]).

Definition extract_tool_calls_streaming (current_text : str) : M RwkvToolParser (option DeltaMessage) :=
  let! content := content_delta current_text in
  let! matches := lift (tool_call_matches current_text) in
  let! tool_deltas := fold_ (enumerate matches) [] stream_match in
  match content, tool_deltas with
  | None, [] => ret None
  | _, _ => ret (Some (mkDelta content tool_deltas))
  end.

(** The arguments parsed but not yet streamed ([ToolParser] of
    [abstract_tool_parser.py]); parsed arguments are strings here. *)
Definition get_remaining_unstreamed_args (p : RwkvToolParser) : str :=
  match last (prev_tool_call_arr p) with
  | None => []
  | Some call =>
      let actual := default [] (streamed_args_for_tool p !! (length (prev_tool_call_arr p) - 1)%nat) in
      if startswith actual (arguments call) then drop (length actual) (arguments call) else []
  end.
End parser.
End Rwkv.

(** * String search *)

Definition occurs (sub text : str) (i : Z) : Prop := 0 <= i /\ startswith sub (drop (Z.to_nat i) text) = true.

Lemma startswith_prefix sub l : startswith sub l = true <-> sub `prefix_of` l.
Proof.
  revert l. induction sub as [|a sub IH]; intros [|b l]; simpl.
  - split; [by exists []|done].
  - split; [by exists (b :: l)|done].
  - split; [done|]. by intros H%prefix_nil_not.
  - rewrite andb_true_iff, IH, Z.eqb_eq. split; [intros [-> H]; by apply prefix_cons|].
    intros H. split; [by apply prefix_cons_inv_1 in H|by apply prefix_cons_inv_2 in H].
Qed.

Lemma occurs_bound sub text i : sub <> [] -> occurs sub text i -> i + zlen sub <= zlen text.
Proof.
  intros Hs [Hi [k Hk]%startswith_prefix]. apply (f_equal length) in Hk. rewrite length_drop, length_app in Hk.
  destruct sub; [done|]. simpl in *. lia.
Qed.

Lemma occurs_app sub text more i : occurs sub text i -> sub <> [] -> occurs sub (text ++ more) i.
Proof.
  intros Ho Hs. pose proof (occurs_bound sub text i Hs Ho). destruct Ho as [Hi [k Hk]%startswith_prefix]. split; [done|].
  apply startswith_prefix. rewrite drop_app_le by lia. exists (k ++ more). by rewrite Hk, app_assoc.
Qed.

Lemma occurs_before sub text more i : occurs sub (text ++ more) i -> i + zlen sub <= zlen text -> occurs sub text i.
Proof.
  intros [Hi [k Hk]%startswith_prefix] Hle. split; [done|]. apply startswith_prefix. rewrite drop_app_le in Hk by lia.
  exists (take (length (drop (Z.to_nat i) text) - length sub) k).
  apply (f_equal (take (length (drop (Z.to_nat i) text)))) in Hk. rewrite take_app_length in Hk. etrans; [exact Hk|].
  by rewrite take_app_ge by (rewrite length_drop; lia).
Qed.

Lemma find_at_spec sub l i :
  sub <> [] -> 0 <= i ->
  (find_at sub l i = -1 /\ forall j, startswith sub (drop j l) = false) \/
  (i <= find_at sub l i /\ startswith sub (drop (Z.to_nat (find_at sub l i - i)) l) = true /\
   forall j, Z.of_nat j < find_at sub l i - i -> startswith sub (drop j l) = false).
Proof.
  intros Hs. revert i. induction l as [|a l IH]; intros i Hi; simpl; destruct (startswith sub _) eqn:E.
  - right. split; [lia|]. rewrite Z.sub_diag. simpl. split; [done|]. intros j Hj. lia.
  - left. split; [done|]. intros j. by rewrite drop_nil.
  - right. split; [lia|]. rewrite Z.sub_diag. simpl. split; [done|]. intros j Hj. lia.
  - destruct (IH (i + 1) ltac:(lia)) as [[-> Hn]|(Hle & Hf & Hn)].
    + left. split; [done|]. intros [|j]; [done|apply Hn].
    + right. split; [lia|]. replace (Z.to_nat _) with (S (Z.to_nat (find_at sub l (i + 1) - (i + 1)))) by lia.
      split; [done|]. intros [|j] Hj; [done|]. apply Hn. lia.
Qed.

Lemma find_spec text sub start :
  sub <> [] -> 0 <= start ->
  (find text sub start = -1 /\ forall j, start <= j -> ~ occurs sub text j) \/
  (start <= find text sub start /\ occurs sub text (find text sub start) /\
   forall j, start <= j < find text sub start -> ~ occurs sub text j).
Proof.
  intros Hs Hst. unfold find. destruct (start >? zlen text) eqn:E; bools.
  - left. split; [done|]. intros j Hj Ho. pose proof (occurs_bound sub text j Hs Ho). destruct sub; [done|]. simpl in *. lia.
  - assert (forall j, start <= j -> occurs sub text j ->
      startswith sub (drop (Z.to_nat (j - start)) (drop (Z.to_nat start) text)) = true) as Ho.
    { intros j Hj [_ H]. rewrite drop_drop. replace (_ + _)%nat with (Z.to_nat j) by lia. done. }
    destruct (find_at_spec sub (drop (Z.to_nat start) text) start Hs Hst) as [[-> Hn]|(Hle & Hf & Hn)].
    + left. split; [done|]. intros j Hj Hoc. specialize (Ho j Hj Hoc). by rewrite Hn in Ho.
    + right. split; [done|]. rewrite drop_drop in Hf. replace (_ + _)%nat with
        (Z.to_nat (find_at sub (drop (Z.to_nat start) text) start)) in Hf by lia. split; [split; [lia|done]|].
      intros j Hj Hoc. specialize (Ho j ltac:(lia) Hoc). rewrite Hn in Ho by lia. done.
Qed.

Lemma find_stable text more sub start :
  sub <> [] -> 0 <= start -> find text sub start <> -1 -> find (text ++ more) sub start = find text sub start.
Proof.
  intros Hs Hst Hf. destruct (find_spec text sub start Hs Hst) as [[? _]|(Hle & Ho & Hn)]; [done|].
  pose proof (occurs_bound _ _ _ Hs Ho) as Hb.
  destruct (find_spec (text ++ more) sub start Hs Hst) as [[_ Hn']|(Hle' & Ho' & Hn')].
  - destruct (Hn' _ Hle). by apply occurs_app.
  - destruct (Z.lt_trichotomy (find (text ++ more) sub start) (find text sub start)) as [Hlt|[?|Hlt]]; [|done|].
    + destruct (Hn _ (conj Hle' Hlt)). eapply occurs_before; [exact Ho'|lia].
    + destruct (Hn' _ (conj Hle Hlt)). by apply occurs_app.
Qed.

(** * Matches *)

Section proofs.
Context (loads : str -> outcome json) (dumps : list (str * json) -> outcome str) (make_tool_call_id : nat -> str)
  (tools : list (option str)) (tool_choice : ToolChoice).
Abbreviation next_match := (Rwkv.next_match loads tools tool_choice).
Abbreviation matches_from := (Rwkv.matches_from loads tools tool_choice).
Abbreviation tool_call_matches := (Rwkv.tool_call_matches loads tools tool_choice).
Abbreviation calls_of := (Rwkv.calls_of dumps).
Abbreviation extract_tool_calls := (Rwkv.extract_tool_calls loads dumps tools tool_choice).

(** The exceptions of the JSON library. *)
Definition json_error (e : exn) : Prop := (exists s, loads s = Raise e) \/ exists d, dumps d = Raise e.

Lemma marker_nonempty : TOOL_CALL_MARKER <> []. Proof. done. Qed.
Lemma fences_nonempty : JSON_FENCE_START <> [] /\ JSON_FENCE_END <> []. Proof. done. Qed.
#[local] Opaque TOOL_CALL_MARKER JSON_FENCE_START JSON_FENCE_END.

(** The search for a fence or marker behind a position. *)
Lemma found_at text sub start :
  sub <> [] -> 0 <= start -> find text sub start <> -1 ->
  start <= find text sub start /\ find text sub start + zlen sub <= zlen text.
Proof.
  intros Hs Hst Hf. destruct (find_spec text sub start Hs Hst) as [[? _]|(? & Ho & _)]; [done|].
  split; [done|]. by apply occurs_bound.
Qed.

Lemma payload_error text e : Rwkv.parse_payload loads tools tool_choice text = Raise e -> exists s, loads s = Raise e.
Proof.
  assert (forall t e, Rwkv.try_loads loads t = Raise e -> exists s, loads s = Raise e) as Hl.
  { intros t e' H. exists t. unfold Rwkv.try_loads in H. destruct (loads t) as [|[]]; congruence. }
  unfold Rwkv.parse_payload, obind. intros H. repeat case_match; simplify_eq; eauto.
Qed.

(** A round that found a closing fence is the same on every longer text. *)
Lemma next_match_stable text cursor more :
  0 <= cursor -> next_match text cursor <> Ok None ->
  next_match (text ++ more) cursor = next_match text cursor /\
  match next_match text cursor with
  | Ok (Some (m, cursor')) =>
      start m = find text TOOL_CALL_MARKER cursor /\ cursor <= start m /\ start m < cursor' <= zlen text
  | Ok None => True
  | Raise e => json_error e
  end.
Proof.
  intros Hc. destruct fences_nonempty as [Hfs Hfe]. unfold Rwkv.next_match.
  destruct (find text TOOL_CALL_MARKER cursor =? -1) eqn:E1; [done|]. bools.
  destruct (found_at text TOOL_CALL_MARKER cursor marker_nonempty Hc E1) as [H1 B1].
  rewrite (find_stable text more TOOL_CALL_MARKER cursor) by done. set (s := find text TOOL_CALL_MARKER cursor) in *.
  assert (0 <= s + zlen TOOL_CALL_MARKER) as P1 by lia.
  destruct (find text JSON_FENCE_START (s + zlen TOOL_CALL_MARKER) =? -1) eqn:E2; simpl; [done|]. bools.
  destruct (found_at text JSON_FENCE_START _ Hfs P1 E2) as [H2 B2].
  rewrite (find_stable text more JSON_FENCE_START) by done. set (b := find text JSON_FENCE_START _) in *.
  rewrite (py_slice_app_l _ _ text more) by lia.
  destruct (bool_decide (strip (py_slice _ b text) = [])); simpl; [|done].
  assert (0 <= b + zlen JSON_FENCE_START) as P2 by lia.
  destruct (find text JSON_FENCE_END (b + zlen JSON_FENCE_START) =? -1) eqn:E3; [done|]. bools.
  destruct (found_at text JSON_FENCE_END _ Hfe P2 E3) as [H3 B3].
  rewrite (find_stable text more JSON_FENCE_END) by done. set (e := find text JSON_FENCE_END _) in *.
  rewrite (py_slice_app_l _ _ text more) by lia.
  rewrite (proj2 (Z.eqb_neq s (-1))), (proj2 (Z.eqb_neq b (-1))), (proj2 (Z.eqb_neq e (-1))) by done. simpl.
  intros _. split; [done|]. destruct (Rwkv.parse_payload _ _ _ _) as [[pl|]|x] eqn:Ep; simpl; [|done|].
  - assert (0 < zlen JSON_FENCE_END) by (destruct JSON_FENCE_END; [done|simpl; lia]). split_and!; try done; lia.
  - left. by eapply payload_error.
Qed.

(** The loop ends: with matches, or with an exception of the JSON library. *)
Lemma matches_total text fuel cursor acc :
  0 <= cursor <= zlen text -> zlen text - cursor < Z.of_nat fuel ->
  match matches_from fuel text cursor acc with
  | Ok ms => exists new, ms = acc ++ new
  | Raise e => json_error e
  end.
Proof.
  revert cursor acc. induction fuel as [|fuel IH]; intros cursor acc Hc Hf; [lia|]. simpl.
  assert (next_match text cursor = Ok None \/ next_match text cursor <> Ok None) as [E|E]
    by (destruct (next_match text cursor) as [[]|]; auto).
  - rewrite E. simpl. exists []. by rewrite app_nil_r.
  - destruct (next_match_stable text cursor [] ltac:(lia) E) as [_ H].
    destruct (next_match text cursor) as [[[m cursor']|]|e]; simpl; [|done|done].
    specialize (IH cursor' (acc ++ [m]) ltac:(lia) ltac:(lia)). destruct (matches_from _ _ _ _) as [ms|e]; [|done].
    destruct IH as [new ->]. exists (m :: new). by rewrite <- app_assoc.
Qed.

(** A longer text raises what the text raises, and else extends its matches. *)
Lemma matches_extend text more fuel cursor acc :
  0 <= cursor <= zlen text -> zlen text - cursor < Z.of_nat fuel ->
  match matches_from fuel text cursor acc with
  | Ok ms => match matches_from (fuel + length more) (text ++ more) cursor acc with
             | Ok ms' => ms `prefix_of` ms'
             | Raise e => True
             end
  | Raise e => matches_from (fuel + length more) (text ++ more) cursor acc = Raise e
  end.
Proof.
  revert cursor acc. induction fuel as [|fuel IH]; intros cursor acc Hc Hf; [lia|].
  pose proof (matches_total (text ++ more) (S fuel + length more) cursor acc) as Ht. rewrite length_app in Ht.
  specialize (Ht ltac:(lia) ltac:(lia)). cbn [Rwkv.matches_from].
  assert (next_match text cursor = Ok None \/ next_match text cursor <> Ok None) as [E|E]
    by (destruct (next_match text cursor) as [[]|]; auto).
  - rewrite E. cbn [obind]. destruct (matches_from _ _ _ _) as [ms'|]; [|done]. destruct Ht as [new ->]. by apply prefix_app_r.
  - destruct (next_match_stable text cursor more ltac:(lia) E) as [Hs H]. cbn [plus Rwkv.matches_from]. rewrite Hs.
    destruct (next_match text cursor) as [[[m cursor']|]|e]; cbn [obind]; [|done|done]. apply IH; lia.
Qed.

Lemma tool_matches_error text e : tool_call_matches text = Raise e -> json_error e.
Proof.
  intros E. pose proof (matches_total text (S (length text)) 0 [] ltac:(lia) ltac:(lia)) as H.
  unfold Rwkv.tool_call_matches in E. by rewrite E in H.
Qed.

Lemma tool_matches_extend t t' :
  t `prefix_of` t' ->
  match tool_call_matches t with
  | Ok ms => forall ms', tool_call_matches t' = Ok ms' -> ms `prefix_of` ms'
  | Raise e => tool_call_matches t' = Raise e
  end.
Proof.
  intros [more ->]. pose proof (matches_extend t more (S (length t)) 0 [] ltac:(lia) ltac:(lia)) as H.
  unfold Rwkv.tool_call_matches. rewrite length_app. cbn [plus] in H.
  destruct (matches_from (S (length t)) t 0 []) as [ms|e]; [|done]. intros ms' E. by rewrite E in H.
Qed.

Lemma first_match_start text m ms : tool_call_matches text = Ok (m :: ms) -> start m = find text TOOL_CALL_MARKER 0 /\ 0 <= start m.
Proof.
  unfold Rwkv.tool_call_matches. simpl.
  destruct (next_match text 0) as [[[m0 c0]|]|] eqn:E; simpl; [|done|done].
  destruct (next_match_stable text 0 [] ltac:(lia) ltac:(by rewrite E)) as [_ H]. rewrite E in H. destruct H as (Hs & H0 & H1).
  pose proof (matches_total text (length text) c0 [m0] ltac:(lia) ltac:(lia)) as H. intros Em. rewrite Em in H.
  destruct H as [new [= -> ->]]. done.
Qed.

(** ** The calls of a text *)

Definition text_calls (text : str) : outcome (list FunctionCall) := let? ms := tool_call_matches text in calls_of ms.

Lemma calls_of_length ms cs : calls_of ms = Ok cs -> length cs = length ms.
Proof.
  revert cs. induction ms as [|m ms IH]; intros cs; simpl; [by intros [= <-]|].
  destruct (Rwkv.call_of dumps m); simpl; [|done]. destruct (calls_of ms) as [l|]; simpl; [|done]. intros [= <-]. simpl. by rewrite (IH l).
Qed.

Lemma calls_of_app a b : calls_of (a ++ b) = let? x := calls_of a in let? y := calls_of b in Ok (x ++ y).
Proof.
  induction a as [|m a IH]; simpl; [by destruct (calls_of b)|]. destruct (Rwkv.call_of dumps m); simpl; [|done].
  rewrite IH. destruct (calls_of a); simpl; [|done]. by destruct (calls_of b).
Qed.

Lemma calls_of_error ms e : calls_of ms = Raise e -> json_error e.
Proof.
  induction ms as [|m ms IH]; simpl; [done|]. unfold Rwkv.call_of. destruct (dumps _) eqn:E; simpl.
  - destruct (calls_of ms); simpl; [done|]. intros [= <-]. auto.
  - intros [= <-]. right. eauto.
Qed.

Lemma text_calls_error text e : text_calls text = Raise e -> json_error e.
Proof.
  unfold text_calls. destruct (tool_call_matches text) eqn:E; simpl; [apply calls_of_error|].
  intros [= <-]. by eapply tool_matches_error.
Qed.

Lemma extract_raises text e : extract_tool_calls text = Raise e <-> text_calls text = Raise e.
Proof.
  unfold Rwkv.extract_tool_calls, text_calls. destruct (tool_call_matches text) as [[|m ms]|e']; cbn [obind].
  - by split.
  - destruct (calls_of (m :: ms)) as [cs|e']; cbn [obind]; by split; intros [= ->].
  - by split; intros [= ->].
Qed.

(** When all of a text's calls can be made, so can those of its prefixes. *)
Lemma text_calls_prefix t t' cs' :
  t `prefix_of` t' -> text_calls t' = Ok cs' -> exists cs, text_calls t = Ok cs.
Proof.
  intros Hp. pose proof (tool_matches_extend t t' Hp) as H. unfold text_calls.
  destruct (tool_call_matches t') as [ms'|] eqn:E'; [|done]. cbn [obind]. destruct (tool_call_matches t) as [ms|]; [|done].
  destruct (H ms' eq_refl) as [new ->]. cbn [obind]. rewrite calls_of_app. destruct (calls_of ms); [eauto|done].
Qed.

(** * The sendable prefix *)

Lemma endswith_drop l sub : endswith l sub = true <-> (length sub <= length l)%nat /\ drop (length l - length sub) l = sub.
Proof. unfold endswith. rewrite andb_true_iff, Z.leb_le, bool_decide_eq_true. split; intros [? ?]; split; try done; lia. Qed.

Lemma overlap_spec k text tag :
  (k <= length tag)%nat -> (k <= length text)%nat ->
  exists o, overlap_from k text tag = Z.of_nat o /\ (o <= k)%nat /\ endswith text (take o tag) = true /\
    forall j, (j <= k)%nat -> endswith text (take j tag) = true -> (j <= o)%nat.
Proof.
  induction k as [|k IH]; intros Hk Ht.
  - exists 0%nat. split; [done|]. split; [lia|]. split; [|lia]. apply endswith_drop. simpl. split; [lia|]. by rewrite drop_ge by lia.
  - cbn [overlap_from]. destruct (endswith text (take (S k) tag)) eqn:E; [by exists (S k)|].
    destruct IH as (o & -> & Ho & He & Hm); [lia..|]. exists o. split_and!; [done|lia|done|].
    intros j Hj Hjt. destruct (decide (j = S k)) as [->|]; [congruence|]. apply Hm; [lia|done].
Qed.

Lemma partial_overlap_spec text tag :
  tag <> [] -> exists o, partial_tag_overlap text tag = Z.of_nat o /\ (o < length tag)%nat /\ (o <= length text)%nat /\
    endswith text (take o tag) = true /\
    forall j, (j < length tag)%nat -> (j <= length text)%nat -> endswith text (take j tag) = true -> (j <= o)%nat.
Proof.
  intros Ht. assert (0 < length tag)%nat by (destruct tag; [done|simpl; lia]). unfold partial_tag_overlap.
  destruct (overlap_spec (Z.to_nat (Z.min (zlen tag - 1) (zlen text))) text tag) as (o & -> & Ho & He & Hm); [lia..|].
  exists o. split_and!; [done|lia|lia|done|]. intros j Hj1 Hj2. apply Hm. lia.
Qed.

Lemma sendable_range text : 0 <= Rwkv.sendable_idx text <= zlen text.
Proof.
  unfold Rwkv.sendable_idx. destruct (partial_overlap_spec text TOOL_CALL_MARKER marker_nonempty) as (o & -> & ? & ? & _).
  destruct (_ =? -1) eqn:E; bools; [lia|]. destruct (found_at text TOOL_CALL_MARKER 0 marker_nonempty ltac:(lia) E). lia.
Qed.

(** A marker completed later starts inside the withheld part. *)
Lemma sendable_before_marker t more :
  find t TOOL_CALL_MARKER 0 = -1 -> find (t ++ more) TOOL_CALL_MARKER 0 <> -1 ->
  Rwkv.sendable_idx t <= find (t ++ more) TOOL_CALL_MARKER 0.
Proof.
  intros E E'. unfold Rwkv.sendable_idx. rewrite E. simpl.
  destruct (partial_overlap_spec t TOOL_CALL_MARKER marker_nonempty) as (o & -> & Ho & Hot & _ & Hm).
  destruct (find_spec (t ++ more) TOOL_CALL_MARKER 0 marker_nonempty ltac:(lia)) as [[? _]|(H0 & Hocc & _)]; [done|].
  set (i := find (t ++ more) TOOL_CALL_MARKER 0) in *. destruct (decide (zlen t <= i)); [lia|].
  destruct (decide (i + zlen TOOL_CALL_MARKER <= zlen t)) as [Hle|Hgt].
  { destruct (find_spec t TOOL_CALL_MARKER 0 marker_nonempty ltac:(lia)) as [[_ Hn]|(? & _)]; [|lia].
    destruct (Hn i H0). by eapply occurs_before. }
  assert (length t - Z.to_nat i <= o)%nat; [|lia]. apply Hm; [lia|lia|]. apply endswith_drop. rewrite length_take. split; [lia|].
  destruct Hocc as [_ [k Hk]%startswith_prefix]. rewrite drop_app_le in Hk by lia.
  apply (f_equal (take (length t - Z.to_nat i))) in Hk. rewrite take_app_length' in Hk by (rewrite length_drop; lia).
  rewrite take_app_le in Hk by lia. rewrite <- Hk. f_equal. lia.
Qed.

Lemma overlap_shrinks t more o o' :
  partial_tag_overlap t TOOL_CALL_MARKER = Z.of_nat o -> partial_tag_overlap (t ++ more) TOOL_CALL_MARKER = Z.of_nat o' ->
  (o' <= o + length more)%nat.
Proof.
  intros E E'. destruct (partial_overlap_spec t TOOL_CALL_MARKER marker_nonempty) as (x & Ex & _ & _ & _ & Hm).
  destruct (partial_overlap_spec (t ++ more) TOOL_CALL_MARKER marker_nonempty) as (y & Ey & Hy1 & Hy2 & Hy & _).
  rewrite E in Ex. rewrite E' in Ey. apply (inj Z.of_nat) in Ex, Ey. subst x y.
  destruct (decide (o' <= length more)%nat); [lia|].
  rewrite length_app in Hy2. assert (o' - length more <= o)%nat; [|lia]. apply Hm; [lia|lia|].
  apply endswith_drop in Hy as [Hl Hd]. rewrite length_take, length_app in Hd. apply endswith_drop. rewrite length_take. split; [lia|].
  replace (length t + length more - o' `min` length TOOL_CALL_MARKER)%nat with (length t - (o' - length more))%nat in Hd by lia.
  rewrite drop_app_le in Hd by lia. apply (f_equal (take (o' - length more))) in Hd.
  rewrite take_app_length' in Hd by (rewrite length_drop; lia). rewrite take_take in Hd.
  replace (_ `min` o')%nat with (o' - length more)%nat in Hd by lia. rewrite <- Hd. f_equal. lia.
Qed.

Lemma sendable_mono t t' : t `prefix_of` t' -> Rwkv.sendable_idx t <= Rwkv.sendable_idx t'.
Proof.
  intros [more ->]. destruct (decide (find t TOOL_CALL_MARKER 0 = -1)) as [E|E].
  - destruct (decide (find (t ++ more) TOOL_CALL_MARKER 0 = -1)) as [E'|E'].
    + unfold Rwkv.sendable_idx. rewrite E, E'. simpl. rewrite length_app.
      destruct (partial_overlap_spec t TOOL_CALL_MARKER marker_nonempty) as (o & Eo & _).
      destruct (partial_overlap_spec (t ++ more) TOOL_CALL_MARKER marker_nonempty) as (o' & Eo' & _).
      pose proof (overlap_shrinks t more o o' Eo Eo'). lia.
    + pose proof (sendable_before_marker t more E E'). unfold Rwkv.sendable_idx at 2. by rewrite (proj2 (Z.eqb_neq _ _) E').
  - unfold Rwkv.sendable_idx. rewrite (find_stable t more) by (done || lia). by rewrite (proj2 (Z.eqb_neq _ _) E).
Qed.

(** The sendable prefix has no marker. *)
Lemma sendable_no_marker t : find (take (Z.to_nat (Rwkv.sendable_idx t)) t) TOOL_CALL_MARKER 0 = -1.
Proof.
  pose proof (sendable_range t) as Hr. set (n := Z.to_nat (Rwkv.sendable_idx t)) in *.
  destruct (decide (find (take n t) TOOL_CALL_MARKER 0 = -1)) as [|E]; [done|].
  destruct (found_at (take n t) TOOL_CALL_MARKER 0 marker_nonempty ltac:(lia) E) as [H0 Hb].
  pose proof (find_stable (take n t) (drop n t) TOOL_CALL_MARKER 0 marker_nonempty ltac:(lia) E) as Hs.
  rewrite take_drop in Hs. rewrite length_take in Hb. assert (0 < length TOOL_CALL_MARKER)%nat by (pose proof marker_nonempty; destruct TOOL_CALL_MARKER; [done|simpl; lia]).
  assert (Rwkv.sendable_idx t = find t TOOL_CALL_MARKER 0) as Es.
  { unfold Rwkv.sendable_idx. rewrite Hs. by rewrite (proj2 (Z.eqb_neq _ _) E). }
  rewrite Hs in Es. lia.
Qed.

(** * Streams *)

Abbreviation streaming := (Rwkv.extract_tool_calls_streaming loads dumps make_tool_call_id tools tool_choice).
Abbreviation stream_match := (Rwkv.stream_match dumps make_tool_call_id).

(** The outputs a client receives for the successive texts of one stream. *)
Fixpoint stream (texts : list str) : M RwkvToolParser (list (option DeltaMessage)) :=
  match texts with
  | [] => ret []
  | t :: texts => let! out := streaming t in let! outs := stream texts in ret (out :: outs)
  end.
Fixpoint growing (t : str) (texts : list str) : Prop :=
  match texts with [] => True | t' :: texts => t `prefix_of` t' /\ growing t' texts end.
Definition out_content (out : option DeltaMessage) : str :=
  match out with Some d => default [] (content d) | None => [] end.
Definition out_calls (out : option DeltaMessage) : list DeltaToolCall :=
  match out with Some d => delta_tool_calls d | None => [] end.
(** Calls numbered from [n], with the ids in the order they are drawn. *)
Fixpoint numbered (n : nat) (calls : list FunctionCall) : list DeltaToolCall :=
  match calls with
  | [] => []
  | c :: calls => mkDeltaCall (Z.of_nat n) (make_tool_call_id n) c :: numbered (S n) calls
  end.

(** The parser has streamed everything [t] allows. *)
Record caught_up (t : str) (p : RwkvToolParser) : Prop := {
  cu_content : sent_content_idx p = Rwkv.sendable_idx t;
  cu_calls : text_calls t = Ok (prev_tool_call_arr p);
  cu_args : streamed_args_for_tool p = map arguments (prev_tool_call_arr p)
}.

Lemma numbered_app n a b : numbered n (a ++ b) = numbered n a ++ numbered (n + length a) b.
Proof.
  revert n. induction a as [|c a IH]; intros n; simpl; [by rewrite Nat.add_0_r|]. rewrite IH. simpl.
  by rewrite Nat.add_succ_r.
Qed.

Lemma stream_old l i acc p :
  i + zlen l <= zlen (prev_tool_call_arr p) ->
  wp (fold_ (zip (py_range i (i + zlen l)) l) acc stream_match) (fun acc' p' => acc' = acc /\ p' = p) p.
Proof.
  revert i. induction l as [|m l IH]; intros i Hi; [by rewrite py_range_nil by (simpl; lia)|].
  cbn [length] in *. rewrite py_range_cons by lia. cbn [zip zip_with fold_]. unfold Rwkv.stream_match at 1. wp_simpl. simpl.
  destruct (i <? zlen (prev_tool_call_arr p)) eqn:E; bools; [|lia]. wp_simpl.
  replace (i + Z.of_nat (S (length l))) with (i + 1 + zlen l) by lia. apply IH. lia.
Qed.

Lemma stream_new l cs i acc p :
  i = zlen (prev_tool_call_arr p) -> calls_of l = Ok cs ->
  wp (fold_ (zip (py_range i (i + zlen l)) l) acc stream_match) (fun acc' p' =>
    acc' = acc ++ numbered (length (prev_tool_call_arr p)) cs /\
    p' = mkParser (sent_content_idx p) (prev_tool_call_arr p ++ cs) (streamed_args_for_tool p ++ map arguments cs)) p.
Proof.
  revert cs i acc p. induction l as [|m l IH]; intros cs i acc p Hi; cbn [Rwkv.calls_of].
  - intros [= <-]. rewrite py_range_nil by (simpl; lia). cbn [zip zip_with fold_ map numbered]. wp_simpl.
    rewrite !app_nil_r. by destruct p.
  - destruct (Rwkv.call_of dumps m) as [c|] eqn:Ec; cbn [obind]; [|done].
    destruct (calls_of l) as [cs'|]; cbn [obind]; [|done]. intros [= <-].
    cbn [length] in *. rewrite py_range_cons by lia. cbn [zip zip_with fold_]. unfold Rwkv.stream_match at 1. wp_simpl. simpl.
    destruct (i <? zlen (prev_tool_call_arr p)) eqn:E; bools; [lia|]. wp_simpl. exists c. split; [done|]. wp_simpl.
    replace (i + Z.of_nat (S (length l))) with (i + 1 + zlen l) by lia.
    eapply wp_mono; [apply (IH cs'); [simpl; rewrite length_app; simpl; lia|done]|]. intros acc' p' [-> ->]. simpl.
    rewrite length_app, <- !app_assoc. simpl. rewrite Nat.add_1_r, Hi. done.
Qed.

(** The first call that cannot be made raises out of the loop. *)
Lemma stream_new_raises l e i acc p :
  i = zlen (prev_tool_call_arr p) -> calls_of l = Raise e ->
  exists p', fold_ (zip (py_range i (i + zlen l)) l) acc stream_match p = (Raise e, p').
Proof.
  revert i acc p. induction l as [|m l IH]; intros i acc p Hi; cbn [Rwkv.calls_of]; [done|].
  cbn [length]. rewrite py_range_cons by lia. cbn [zip zip_with fold_]. unfold Rwkv.stream_match at 1. unfold bind, gets, lift, modify.
  cbn [fst snd]. destruct (i <? zlen (prev_tool_call_arr p)) eqn:E; bools; [lia|].
  destruct (Rwkv.call_of dumps m) as [c|] eqn:Ec; cbn [obind].
  - destruct (calls_of l) as [cs'|] eqn:El; cbn [obind]; [done|]. intros [= <-].
    replace (i + Z.of_nat (S (length l))) with (i + 1 + zlen l) by lia. apply IH; [|done].
    simpl. rewrite length_app. simpl. lia.
  - intros [= <-]. by exists p.
Qed.

Lemma content_delta_ok t t' p :
  t `prefix_of` t' -> sent_content_idx p = Rwkv.sendable_idx t ->
  wp (Rwkv.content_delta t') (fun cnt p' =>
    p' = mkParser (Rwkv.sendable_idx t') (prev_tool_call_arr p) (streamed_args_for_tool p) /\
    take (Z.to_nat (Rwkv.sendable_idx t')) t' = take (Z.to_nat (Rwkv.sendable_idx t)) t ++ default [] cnt) p.
Proof.
  intros Hp Hc. pose proof (sendable_range t) as R. pose proof (sendable_range t') as R'. pose proof (sendable_mono t t' Hp) as Hm.
  assert (take (Z.to_nat (Rwkv.sendable_idx t)) t = take (Z.to_nat (Rwkv.sendable_idx t)) t') as ->.
  { destruct Hp as [more ->]. by rewrite take_app_le by lia. }
  unfold Rwkv.content_delta. wp_simpl. rewrite Hc.
  destruct (Rwkv.sendable_idx t' <=? Rwkv.sendable_idx t) eqn:El; bools; wp_simpl; simpl.
  - replace (Rwkv.sendable_idx t') with (Rwkv.sendable_idx t) by lia. rewrite app_nil_r. destruct p; simpl in *; by subst.
  - split; [done|]. apply take_slice; lia.
Qed.

(** The loop over the matches of the next text skips those already streamed. *)
Lemma new_matches t t' p ms' :
  t `prefix_of` t' -> caught_up t p -> tool_call_matches t' = Ok ms' ->
  exists ms new, ms' = ms ++ new /\ length ms = length (prev_tool_call_arr p) /\ calls_of ms = Ok (prev_tool_call_arr p).
Proof.
  intros Hp Hc E'. pose proof (tool_matches_extend t t' Hp) as H. pose proof (cu_calls _ _ Hc) as Hms. unfold text_calls in Hms.
  destruct (tool_call_matches t) as [ms|]; [|done]. destruct (H ms' E') as [new ->]. exists ms, new.
  split_and!; [done| |done]. symmetry. by apply calls_of_length.
Qed.

Lemma streaming_step t t' p cs' :
  t `prefix_of` t' -> caught_up t p -> text_calls t' = Ok cs' ->
  wp (streaming t') (fun out p' => caught_up t' p' /\
    take (Z.to_nat (Rwkv.sendable_idx t')) t' = take (Z.to_nat (Rwkv.sendable_idx t)) t ++ out_content out /\
    numbered 0 cs' = numbered 0 (prev_tool_call_arr p) ++ out_calls out) p.
Proof.
  intros Hp Hcu E'. destruct (tool_call_matches t') as [ms'|] eqn:Em; [|unfold text_calls in E'; by rewrite Em in E'].
  destruct (new_matches t t' p ms' Hp Hcu Em) as (ms & new & -> & Hl & Ems). destruct Hcu as [Hc Ht Hargs].
  assert (exists cs, calls_of new = Ok cs /\ cs' = prev_tool_call_arr p ++ cs) as (cs & En & ->).
  { unfold text_calls in E'. rewrite Em in E'. cbn [obind] in E'. rewrite calls_of_app, Ems in E'. cbn [obind] in E'.
    destruct (calls_of new) as [cs|]; [|done]. injection E' as <-. by exists cs. }
  unfold Rwkv.extract_tool_calls_streaming. apply wp_bind. eapply wp_mono; [by apply content_delta_ok|].
  intros cnt q [-> Hs]. wp_simpl. exists (ms ++ new). split; [done|]. wp_simpl.
  rewrite enumerate_app. apply wp_fold_app. unfold enumerate.
  eapply wp_mono; [apply (stream_old ms 0); simpl; lia|]. intros acc q [-> ->].
  eapply wp_mono; [apply (stream_new new cs); [simpl; lia|done]|]. intros acc q [-> ->]. simpl.
  assert (caught_up t' (mkParser (Rwkv.sendable_idx t') (prev_tool_call_arr p ++ cs)
    (streamed_args_for_tool p ++ map arguments cs))) as Hcu.
  { split; simpl; [done|done|]. by rewrite Hargs, map_app. }
  rewrite numbered_app. simpl.
  destruct cnt as [c|]; [|destruct (numbered (length (prev_tool_call_arr p)) cs) eqn:Enum]; wp_simpl; by split_and!.
Qed.

Lemma streaming_raises t t' p e :
  t `prefix_of` t' -> caught_up t p -> text_calls t' = Raise e -> exists p', streaming t' p = (Raise e, p').
Proof.
  intros Hp Hcu E'. pose proof (content_delta_ok t t' p Hp (cu_content _ _ Hcu)) as Hd.
  apply wp_run in Hd as (cnt & q & Ed & -> & _). unfold Rwkv.extract_tool_calls_streaming, text_calls in *.
  unfold bind at 1. rewrite Ed. unfold bind at 1, lift.
  destruct (tool_call_matches t') as [ms'|] eqn:Em; cbn [obind] in E'; [|injection E' as <-; by eexists].
  destruct (new_matches t t' p ms' Hp Hcu Em) as (ms & new & -> & Hl & Ems).
  rewrite calls_of_app, Ems in E'. cbn [obind] in E'.
  destruct (calls_of new) as [cs|x] eqn:En; [done|]. injection E' as ->.
  set (q := mkParser _ _ _). rewrite enumerate_app. unfold enumerate at 1, bind.
  pose proof (stream_old ms 0 [] q ltac:(simpl; lia)) as Ho. apply wp_run in Ho as (a & q' & Ho & -> & ->).
  rewrite Z.add_0_l in Ho. rewrite fold_app. unfold bind. rewrite Ho.
  destruct (stream_new_raises new e (zlen ms) [] q) as [q' Hq]; [simpl; lia|done|]. rewrite Hq. by eexists.
Qed.

Lemma growing_last t texts : growing t texts -> t `prefix_of` default t (last texts).
Proof.
  revert t. induction texts as [|t' texts IH]; intros t; simpl; [done|]. intros [Hp Hg]. etrans; [exact Hp|].
  specialize (IH t' Hg). rewrite last_cons. by destruct (last texts).
Qed.

Lemma stream_ok t texts p cs' :
  growing t texts -> caught_up t p -> text_calls (default t (last texts)) = Ok cs' ->
  wp (stream texts) (fun outs p' => let t' := default t (last texts) in
    caught_up t' p' /\
    take (Z.to_nat (Rwkv.sendable_idx t')) t' = take (Z.to_nat (Rwkv.sendable_idx t)) t ++ concat (map out_content outs) /\
    numbered 0 cs' = numbered 0 (prev_tool_call_arr p) ++ concat (map out_calls outs)) p.
Proof.
  revert t p. induction texts as [|t' texts IH]; intros t p Hg Hc; simpl.
  - intros E. wp_simpl. simpl. rewrite !app_nil_r. split_and!; [done|done|]. rewrite (cu_calls _ _ Hc) in E. by injection E as ->.
  - destruct Hg as [Hp Hg]. rewrite last_cons.
    replace (default t (match last texts with Some y => Some y | None => Some t' end))
      with (default t' (last texts)) by by destruct (last texts).
    intros E. wp_simpl. destruct (text_calls_prefix t' _ cs' (growing_last t' texts Hg) E) as [cs1 E1].
    eapply wp_mono; [by apply (streaming_step t t' p cs1)|]. intros out p1 (Hc1 & Ht1 & Hn1). wp_simpl.
    eapply wp_mono; [by apply (IH t' p1)|]. intros outs p2 (Hc2 & Ht2 & Hn2). wp_simpl. simpl.
    rewrite (cu_calls _ _ Hc1) in E1. injection E1 as <-.
    split_and!; [done|by rewrite Ht2, Ht1, <- app_assoc|by rewrite Hn2, Hn1, <- app_assoc].
Qed.

(** A stream whose last text raises is cut by the exception that extraction
    raises on the text at which it is cut. *)
Lemma stream_raises t texts p e :
  growing t texts -> caught_up t p -> text_calls (default t (last texts)) = Raise e ->
  exists e' t' p', stream texts p = (Raise e', p') /\ t' ∈ texts /\ text_calls t' = Raise e'.
Proof.
  revert t p. induction texts as [|t' texts IH]; intros t p Hg Hc; simpl.
  - by rewrite (cu_calls _ _ Hc).
  - destruct Hg as [Hp Hg]. rewrite last_cons.
    replace (default t (match last texts with Some y => Some y | None => Some t' end))
      with (default t' (last texts)) by by destruct (last texts).
    intros E. destruct (text_calls t') as [cs1|e1] eqn:E1.
    + pose proof (streaming_step t t' p cs1 Hp Hc E1) as Hs. apply wp_run in Hs as (out & p1 & Hs & Hc1 & _).
      destruct (IH t' p1 Hg Hc1 E) as (e' & t1 & p' & H & Hin & He). exists e', t1, p'. unfold bind. rewrite Hs, H.
      split_and!; [done|by right|done].
    + destruct (streaming_raises t t' p e1 Hp Hc E1) as [p' Hs]. exists e1, t', p'. unfold bind. rewrite Hs.
      split_and!; [done|by left|done].
Qed.

Lemma new_parser_caught_up : caught_up [] new_parser.
Proof. split; reflexivity. Qed.

Lemma nothing_unstreamed t p : caught_up t p -> Rwkv.get_remaining_unstreamed_args p = [].
Proof.
  intros [_ _ Ha]. unfold Rwkv.get_remaining_unstreamed_args. destruct (last (prev_tool_call_arr p)) as [c|] eqn:E; [|done].
  rewrite Ha, list_lookup_fmap. rewrite last_lookup in E. rewrite Nat.sub_1_r, E. simpl.
  destruct (startswith _ _); [|done]. by rewrite drop_ge by lia.
Qed.

Lemma extracted t info cs :
  extract_tool_calls t = Ok info -> text_calls t = Ok cs ->
  tool_calls info = cs /\
  (tools_called info = true -> take (Z.to_nat (Rwkv.sendable_idx t)) t = default [] (extracted_content info)).
Proof.
  unfold Rwkv.extract_tool_calls, text_calls. destruct (tool_call_matches t) as [[|m ms]|] eqn:Em; cbn [obind]; [| |done].
  - by intros [= <-] [= <-].
  - intros Ex Ec. rewrite Ec in Ex. cbn [obind] in Ex. injection Ex as <-. split; [done|]. intros _. simpl.
    destruct (first_match_start t m ms Em) as [Hs H0]. pose proof (sendable_range t) as R.
    assert (Rwkv.sendable_idx t = start m) as Es.
    { unfold Rwkv.sendable_idx. rewrite <- Hs. destruct (start m =? -1) eqn:E1; bools; [lia|done]. }
    rewrite Es in *. unfold py_upto. rewrite slice_bound_in by lia. case_bool_decide; simpl; done.
Qed.

End proofs.

(** * Examples *)

(** A decoder that knows one payload, and a number over the digit limit. *)
Definition demo_loads (s : str) : outcome json :=
  if bool_decide (s = lit "{...}") then Ok (JObject [(lit "name", JString (lit "f")); (lit "arguments", JObject [])])
  else if bool_decide (s = lit "9...9") then Raise ValueError
  else Raise JSONDecodeError.
Definition demo_dumps (fields : list (str * json)) : outcome str := Ok (lit "{}").
Definition demo_id (n : nat) : str := [Z.of_nat n].
Definition demo_output : str := lit "Hi. **Tool Call:** ```json {...} ``` bye".


(** An integer over the digit limit raises out of extraction and streaming. *)
Lemma digit_limit_raises :
  Rwkv.extract_tool_calls demo_loads demo_dumps [] OtherToolChoice (lit "**Tool Call:** ```json 9...9 ```") = Raise ValueError /\
  exists p, stream demo_loads demo_dumps demo_id [] OtherToolChoice [lit "**Tool Call:** ```json 9...9 ```"] new_parser =
    (Raise ValueError, p).
Proof. split; [vm_compute; reflexivity|]. eexists. vm_compute. reflexivity. Qed.

(** A marker that is not followed by a valid call: extraction returns the whole
    output as content, the stream ends at the marker. *)
Lemma stream_drops_text_after_invalid_marker :
  Rwkv.extract_tool_calls demo_loads demo_dumps [] OtherToolChoice (lit "See **Tool Call:** none") =
    Ok (mkExtracted false [] (Some (lit "See **Tool Call:** none"))) /\
  exists p, stream demo_loads demo_dumps demo_id [] OtherToolChoice [lit "See **Tool Call:** none"] new_parser =
    (Ok [Some (mkDelta (Some (lit "See ")) [])], p).
Proof. split; [vm_compute; reflexivity|]. eexists. vm_compute. reflexivity. Qed.
(** The beginning of a marker at the end of the output is never sent. *)
Lemma stream_withholds_final_stars :
  exists p, stream demo_loads demo_dumps demo_id [] OtherToolChoice [lit "a**"] new_parser =
    (Ok [Some (mkDelta (Some (lit "a")) [])], p).
Proof. eexists. vm_compute. reflexivity. Qed.
