(* ===== verification/RwkvState.v ===== *)
(** The recurrent state of RWKV requests on the worker: the slots of the state
    pool ([RwkvStateLayer] of [vllm/model_executor/models/rwkv.py]), the state a
    batch resumes from ([RwkvModelState] of [vllm/v1/worker/gpu/model_states/rwkv.py])
    and the slots handed to the kernels ([vllm/v1/attention/backends/rwkv_attn.py]). *)
From Stdlib Require Import ZArith Lia.
From stdpp Require Import base numbers list gmap.
From S2P Require Import Prelude.
Open Scope Z_scope.
Local Arguments Z.of_nat : simpl never.
Local Arguments py_get : simpl never.

(** * The state pool *)

(** The handle of FlashRWKV2 for the matrix states of one layer, as far as the
    code uses it: slots are reset to the zero state and copied. *)
Class StateHandle (H W : Type) := {
  read : H -> nat -> W;
  zero_state : W;
  reset_slots_ : list nat -> H -> H;
  copy_slots_ : list nat -> list nat -> H -> H
}.
Class StateHandleLaws (H W : Type) `{StateHandle H W} := {
  read_reset ids h s : read (reset_slots_ ids h) s = if decide (s ∈ ids) then zero_state else read h s;
  read_copied src dst h k a b : NoDup dst -> src ## dst -> src !! k = Some a -> dst !! k = Some b ->
    read (copy_slots_ src dst h) b = read h a;
  read_uncopied src dst h s : s ∉ dst -> read (copy_slots_ src dst h) s = read h s
}.

Section pool.
Context {H W Sh : Type} `{StateHandle H W} (zero_shift : Sh).

(** The token-shift pools, one row per slot for all layers, and the handles of
    the layers. *)
Record RwkvStateLayer := mkLayer {
  tmix_shift_pool : list Sh;
  cmix_shift_pool : list Sh;
  wkv_handles : list H
}.

(** [pool.index_fill_(1, indices, 0)] *)
Definition index_fill (ids : list nat) (v : Sh) (pool : list Sh) : outcome (list Sh) :=
  if forallb (fun s => bool_decide (s < length pool)%nat) ids
  then Ok (foldl (fun pool s => <[s := v]> pool) pool ids) else Raise IndexError.
(** [pool.index_select(1, indices)] *)
Definition index_select (ids : list nat) (pool : list Sh) : outcome (list Sh) :=
  or_raise (mapM (fun s => pool !! s) ids) IndexError.
(** [pool.index_copy_(1, indices, values)] *)
Definition index_copy (ids : list nat) (values : list Sh) (pool : list Sh) : outcome (list Sh) :=
  if forallb (fun s => bool_decide (s < length pool)%nat) ids
  then Ok (foldl (fun pool sv => <[sv.1 := sv.2]> pool) pool (zip ids values)) else Raise IndexError.

Definition reset_state_slots (slot_ids : list nat) : M RwkvStateLayer unit :=
  if zlen slot_ids =? 0 then ret tt else
  let! l := gets (fun l => l) in
  let! tmix := lift (index_fill slot_ids zero_shift (tmix_shift_pool l)) in
  modify (fun l => mkLayer tmix (cmix_shift_pool l) (wkv_handles l)) ;;
  let! cmix := lift (index_fill slot_ids zero_shift (cmix_shift_pool l)) in
  modify (fun l => mkLayer (tmix_shift_pool l) cmix (map (reset_slots_ slot_ids) (wkv_handles l))).

Definition copy_state_slots (source destination : list nat) : M RwkvStateLayer unit :=
  if negb (zlen source =? zlen destination) then raise ValueError else
  if zlen source =? 0 then ret tt else
  let! l := gets (fun l => l) in
  let! tmix_values := lift (index_select source (tmix_shift_pool l)) in
  let! cmix_values := lift (index_select source (cmix_shift_pool l)) in
  let! tmix := lift (index_copy destination tmix_values (tmix_shift_pool l)) in
  modify (fun l => mkLayer tmix (cmix_shift_pool l) (wkv_handles l)) ;;
  let! cmix := lift (index_copy destination cmix_values (cmix_shift_pool l)) in
  modify (fun l => mkLayer (tmix_shift_pool l) cmix (map (copy_slots_ source destination) (wkv_handles l))).

Definition copy_state_block_pairs (block_copies : list (nat * nat)) : M RwkvStateLayer unit :=
  match block_copies with
  | [] => ret tt
  | _ => copy_state_slots block_copies.*1 block_copies.*2
  end.

(** * The state of the requests *)

Record RwkvModelState := mkModelState {
  state_layer : RwkvStateLayer;
  align_mode : bool;
  state_block_size : Z;
  state_block_columns : list Z;
  state_num_computed_tokens : list Z
}.
Definition set_layer (l : RwkvStateLayer) (s : RwkvModelState) : RwkvModelState :=
  mkModelState l (align_mode s) (state_block_size s) (state_block_columns s) (state_num_computed_tokens s).
Definition on_layer {A} (f : M RwkvStateLayer A) : M RwkvModelState A := zoom state_layer set_layer f.
Definition set_columns (columns computed : list Z) (s : RwkvModelState) : RwkvModelState :=
  mkModelState (state_layer s) (align_mode s) (state_block_size s) columns computed.

(** [array[i] = value] for a Python int and an array of [w]-bit integers: NumPy
    checks the index, then raises on a value that does not fit. *)
Definition np_set (w : Z) (array : list Z) (i value : Z) : outcome (list Z) :=
  let? array' := or_raise (py_set array i value) IndexError in
  if (- 2 ^ (w - 1) <=? value) && (value <? 2 ^ (w - 1)) then Ok array' else Raise OverflowError.

(** The columns are an [int32] array, the counts an [int64] array; sampling is
    modelled separately. *)
Definition add_request (req_index : Z) (num_computed_tokens : Z) : M RwkvModelState unit :=
  let! s := gets (fun s => s) in
  let! columns := lift (np_set 32 (state_block_columns s) req_index ((num_computed_tokens - 1) / state_block_size s)) in
  modify (set_columns columns (state_num_computed_tokens s)) ;;
  let! computed := lift (np_set 64 (state_num_computed_tokens s) req_index num_computed_tokens) in
  modify (set_columns columns computed).
Definition reset_kv_cache_blocks (block_ids : list nat) : M RwkvModelState bool :=
  on_layer (reset_state_slots block_ids) ;; ret true.
Definition copy_kv_cache_blocks (block_copies : list (nat * nat)) : M RwkvModelState bool :=
  on_layer (copy_state_block_pairs block_copies) ;; ret true.

(** One row of a batch: the request's index, its scheduled tokens, its length
    after the step and its row of the block table of the RWKV group. *)
Record batch_row := mkRow { req_index : Z; query : list Z; seq_len : Z; block_row : list nat }.
Abbreviation query_len r := (zlen (query r)).

(** [array[req_indices]] and [array[req_indices] = values] *)
Definition np_take (array : list Z) (idxs : list Z) : outcome (list Z) :=
  or_raise (mapM (fun i => py_get array i) idxs) IndexError.
Fixpoint np_put (idxs values : list Z) (array : list Z) : outcome (list Z) :=
  match idxs, values with
  | i :: idxs, v :: values =>
      match py_set array i v with Some array => np_put idxs values array | None => Raise IndexError end
  | _, _ => Ok array
  end.

(** A row with its old and new column. *)
Record move := mkMove { mv_row : batch_row; old_column : Z; new_column : Z }.
Definition gather (f : move -> Z) (moves : list move) : outcome (list nat) :=
  or_raise (mapM (fun m => py_get (block_row (mv_row m)) (f m)) moves) IndexError.
Definition moves_of (bs : Z) (batch : list batch_row) (computed columns : list Z) : list move :=
  zip_with (fun r cc => mkMove r cc.2 ((cc.1 + query_len r - 1) / bs)) batch (zip computed columns).

Definition preprocess_state (batch : list batch_row) : M RwkvModelState unit :=
  let! s := gets (fun s => s) in
  if negb (align_mode s) || (zlen batch =? 0) then ret tt else
  let req_indices := map req_index batch in
  let! computed := lift (np_take (state_num_computed_tokens s) req_indices) in
  let! old_columns := lift (np_take (state_block_columns s) req_indices) in
  let moves := moves_of (state_block_size s) batch computed old_columns in
  let reset_rows := filter (fun m => old_column m < 0) moves in
  (if zlen reset_rows =? 0 then ret tt else
   let! reset_indices := lift (gather new_column reset_rows) in
   on_layer (reset_state_slots reset_indices)) ;;
  let row_indices := filter (fun m => 0 <= old_column m /\ old_column m <> new_column m) moves in
  (if zlen row_indices =? 0 then ret tt else
   let! source_indices := lift (gather old_column row_indices) in
   let! destination_indices := lift (gather new_column row_indices) in
   on_layer (copy_state_slots source_indices destination_indices)) ;;
  let! columns := lift (np_put req_indices (map (fun m => wrap_signed 32 (new_column m)) moves) (state_block_columns s)) in
  modify (set_columns columns (state_num_computed_tokens s)) ;;
  let! computed := lift (np_put req_indices
    (zip_with (fun c r => wrap_signed 64 (c + query_len r)) computed batch) (state_num_computed_tokens s)) in
  modify (set_columns columns computed).

(** The slot a row's kernel reads and writes ([_state_indices]), from the
    sequence length [seq_len]. *)
Definition state_index (align : bool) (bs : Z) (row : list nat) (seq_len : Z) : outcome nat :=
  or_raise (py_get row (if align then Z.max 0 ((seq_len - 1) / bs) else 0)) IndexError.

(** The forward pass: [kernel] runs on the slots of the rows. *)
Definition execute (kernel : list (nat * list Z) -> RwkvStateLayer -> RwkvStateLayer) (batch : list batch_row) :
    M RwkvModelState unit :=
  preprocess_state batch ;;
  let! s := gets (fun s => s) in
  let! slots := lift (or_raise (mapM (fun r =>
    match state_index (align_mode s) (state_block_size s) (block_row r) (seq_len r) with Ok i => Some i | Raise _ => None end)
    batch) IndexError) in
  on_layer (modify (kernel (zip slots (map query batch)))).
End pool.

Arguments RwkvStateLayer : clear implicits.
Arguments RwkvModelState : clear implicits.

(** * Slots *)

Section slots.
Context {H W Sh : Type} `{HL : StateHandleLaws H W} (zero_shift : Sh).
Abbreviation layer := (RwkvStateLayer H Sh).

(** What one slot holds: the two shifts and the matrix state of every layer. *)
Abbreviation slot_state := (option Sh * option Sh * list W)%type.
Definition slot (l : layer) (s : nat) : slot_state :=
  (tmix_shift_pool l !! s, cmix_shift_pool l !! s, map (fun h => read h s) (wkv_handles l)).
Definition fresh (k : nat) : slot_state := (Some zero_shift, Some zero_shift, replicate k zero_state).
Definition sized (n k : nat) (l : layer) : Prop :=
  length (tmix_shift_pool l) = n /\ length (cmix_shift_pool l) = n /\ length (wkv_handles l) = k.

Lemma fill_lookup ids (v : Sh) pool n :
  length pool = n -> (forall s, s ∈ ids -> (s < n)%nat) ->
  exists pool', index_fill ids v pool = Ok pool' /\ length pool' = n /\
    forall s, pool' !! s = if decide (s ∈ ids) then Some v else pool !! s.
Proof.
  intros Hl Hr. unfold index_fill. rewrite (proj2 (forallb_forall _ ids)).
  2: { intros s Hs%list_elem_of_In. apply bool_decide_eq_true_2. rewrite Hl. by apply Hr. }
  eexists. split; [done|]. revert pool Hl. induction ids as [|a ids IH]; intros pool Hl; cbn [foldl].
  - split; [done|]. intros s. by rewrite decide_False by set_solver.
  - destruct (IH (fun s Hs => Hr s (list_elem_of_further s a ids Hs)) (<[a:=v]> pool)) as [Hl' Hs'];
      [by rewrite length_insert|]. split; [done|]. intros s. rewrite Hs'. specialize (Hr a ltac:(by left)).
    destruct (decide (s ∈ ids)); [by rewrite decide_True by set_solver|].
    destruct (decide (s = a)) as [->|]; [rewrite list_lookup_insert_eq by lia; by rewrite decide_True by set_solver|].
    rewrite list_lookup_insert_ne by done. by rewrite decide_False by set_solver.
Qed.

Lemma copy_lookup ids (vs : list Sh) pool n :
  length pool = n -> (forall s, s ∈ ids -> (s < n)%nat) -> NoDup ids -> length vs = length ids ->
  exists pool', index_copy ids vs pool = Ok pool' /\ length pool' = n /\
    (forall i s v, ids !! i = Some s -> vs !! i = Some v -> pool' !! s = Some v) /\
    forall s, s ∉ ids -> pool' !! s = pool !! s.
Proof.
  intros Hl Hr Hnd Hv. unfold index_copy. rewrite (proj2 (forallb_forall _ ids)).
  2: { intros s Hs%list_elem_of_In. apply bool_decide_eq_true_2. rewrite Hl. by apply Hr. }
  eexists. split; [done|]. revert vs pool Hl Hv. induction Hnd as [|a ids Ha Hnd IH]; intros [|v vs] pool Hl Hv; try done; simpl.
  injection Hv as Hv. destruct (IH (fun s Hs => Hr s (list_elem_of_further s a ids Hs)) vs (<[a:=v]> pool)) as (Hl' & Hs' & Ho');
    [by rewrite length_insert|done|]. split_and!; [done| |].
  - intros [|i] s v' Hi Hvi; simplify_eq/=; [|by eapply Hs']. rewrite Ho' by done. apply list_lookup_insert_eq.
    apply Hr. by left.
  - intros s Hs. rewrite Ho' by set_solver. apply list_lookup_insert_ne. set_solver.
Qed.

Lemma reset_slots_ok ids l n k :
  sized n k l -> (forall s, s ∈ ids -> (s < n)%nat) ->
  wp (reset_state_slots zero_shift ids) (fun _ l' => sized n k l' /\
    forall s, slot l' s = if decide (s ∈ ids) then fresh k else slot l s) l.
Proof.
  intros (Ht & Hc & Hk) Hr. unfold reset_state_slots. destruct (zlen ids =? 0) eqn:E; bools; wp_simpl.
  - destruct ids; [|done]. split; [done|]. intros s. by rewrite decide_False by set_solver.
  - destruct (fill_lookup ids zero_shift (tmix_shift_pool l) n Ht Hr) as (t & Et & Htl & Hts).
    destruct (fill_lookup ids zero_shift (cmix_shift_pool l) n Hc Hr) as (c & Ec & Hcl & Hcs).
    exists t. split; [done|]. wp_simpl. exists c. split; [done|]. wp_simpl. split; [by repeat split; simpl; rewrite ?length_map|].
    intros s. unfold slot, fresh. simpl. rewrite Hts, Hcs, map_map. destruct (decide (s ∈ ids)) as [Hs|Hs].
    + f_equal. rewrite <- Hk. clear - HL Hs. induction (wkv_handles l) as [|h hs IH]; simpl; [done|].
      rewrite read_reset, decide_True by done. by f_equal.
    + f_equal. apply map_ext. intros h. by rewrite read_reset, decide_False.
Qed.

Lemma select_some ids (pool : list Sh) n :
  length pool = n -> (forall s, s ∈ ids -> (s < n)%nat) ->
  exists vs, index_select ids pool = Ok vs /\ length vs = length ids /\
    forall i s, ids !! i = Some s -> vs !! i = pool !! s.
Proof.
  intros Hl Hr. unfold index_select. destruct (mapM_is_Some_2 (fun s => pool !! s) ids) as [vs E].
  { apply Forall_forall. intros s Hs. apply lookup_lt_is_Some. rewrite Hl. by apply Hr. }
  exists vs. rewrite E. split; [done|]. apply mapM_Some in E. split; [by rewrite (Forall2_length _ _ _ E)|].
  intros i s Hi. destruct (Forall2_lookup_l _ _ _ _ _ E Hi) as (v & -> & Hv). done.
Qed.

Lemma copy_ok src dst l n k :
  sized n k l -> length src = length dst -> (forall s, s ∈ src ++ dst -> (s < n)%nat) -> NoDup dst -> src ## dst ->
  wp (copy_state_slots src dst) (fun _ l' => sized n k l' /\
    (forall i a b, src !! i = Some a -> dst !! i = Some b -> slot l' b = slot l a) /\
    forall s, s ∉ dst -> slot l' s = slot l s) l.
Proof.
  intros (Ht & Hc & Hk) Hlen Hr Hnd Hdis. unfold copy_state_slots. rewrite Hlen, Z.eqb_refl. simpl.
  destruct (zlen dst =? 0) eqn:E; bools; wp_simpl.
  - destruct dst; [|done]. by repeat split.
  - destruct (select_some src (tmix_shift_pool l) n Ht) as (tv & Etv & Htv & Htv'); [intros; apply Hr; set_solver|].
    destruct (select_some src (cmix_shift_pool l) n Hc) as (cv & Ecv & Hcv & Hcv'); [intros; apply Hr; set_solver|].
    destruct (copy_lookup dst tv (tmix_shift_pool l) n Ht) as (t & Et & Htl & Hti & Hto); [intros; apply Hr; set_solver|done|lia|].
    destruct (copy_lookup dst cv (cmix_shift_pool l) n Hc) as (c & Ec & Hcl & Hci & Hco); [intros; apply Hr; set_solver|done|lia|].
    exists tv. split; [done|]. wp_simpl. exists cv. split; [done|]. wp_simpl. exists t. split; [done|]. wp_simpl.
    exists c. split; [done|]. wp_simpl. split; [by repeat split; simpl; rewrite ?length_map|]. unfold slot. simpl. split.
    + intros i a b Ha Hb. rewrite map_map.
      assert (is_Some (tmix_shift_pool l !! a)) as [x Hx] by (apply lookup_lt_is_Some; rewrite Ht; apply Hr, elem_of_app; left; by eapply list_elem_of_lookup_2).
      assert (is_Some (cmix_shift_pool l !! a)) as [y Hy] by (apply lookup_lt_is_Some; rewrite Hc; apply Hr, elem_of_app; left; by eapply list_elem_of_lookup_2).
      rewrite (Hti i b x Hb), (Hci i b y Hb) by (rewrite ?(Htv' i a Ha), ?(Hcv' i a Ha); done). rewrite Hx, Hy. f_equal.
      apply map_ext. intros h. by eapply read_copied.
    + intros s Hs. rewrite Hto, Hco by done. f_equal. rewrite map_map. apply map_ext. intros h. by apply read_uncopied.
Qed.
End slots.

(** * Tracking the tokens of a request *)

Section tracking.
Context {H W Sh : Type} `{HL : StateHandleLaws H W} (zero_shift : Sh).
Abbreviation layer := (RwkvStateLayer H Sh).
Abbreviation model_state := (RwkvModelState H Sh).
Abbreviation slot_state := (option Sh * option Sh * list W)%type.
Context (n k : nat) (bs : Z).

(** The kernels advance the state of a slot over the tokens of its row and touch
    no other slot. *)
Context (advance : slot_state -> list Z -> slot_state) (kernel : list (nat * list Z) -> layer -> layer).
Record kernel_ok : Prop := {
  ko_sized : forall work l, sized n k l -> sized n k (kernel work l);
  ko_advance : forall work l s q, sized n k l -> NoDup work.*1 -> (s, q) ∈ work ->
    slot (kernel work l) s = advance (slot l s) q;
  ko_frame : forall work l s, sized n k l -> s ∉ work.*1 -> slot (kernel work l) s = slot l s
}.

(** The chunks of tokens a request has been run on, and the slot of its state. *)
Record progress := mkProgress { chunks : list (list Z); home : nat }.
Abbreviation ghost := (gmap nat progress).
Abbreviation len g := (zlen (concat (chunks g))).
Definition state_after (cs : list (list Z)) : slot_state := foldl advance (fresh (W := W) zero_shift k) cs.

Record request_tracked (s : model_state) (idx : nat) (g : progress) : Prop := {
  rt_column : state_block_columns s !! idx = Some ((len g - 1) / bs);
  rt_computed : state_num_computed_tokens s !! idx = Some (len g);
  rt_length : len g < 2 ^ 31;
  rt_start : len g = 0 -> chunks g = [];
  rt_state : 0 < len g -> (home g < n)%nat /\ slot (state_layer s) (home g) = state_after (chunks g)
}.
Record tracked (s : model_state) (G : ghost) : Prop := {
  tr_config : align_mode s = true /\ state_block_size s = bs /\ 0 < bs;
  tr_layer : sized n k (state_layer s);
  tr_requests : forall idx g, G !! idx = Some g -> request_tracked s idx g
}.

(** One row of a batch with the request it belongs to and the slot of its new
    column. *)
Record task := mkTask { t_row : batch_row; t_idx : nat; t_old : progress; t_dst : nat }.
Abbreviation old_col t := ((len (t_old t) - 1) / bs).
Abbreviation new_col t := ((len (t_old t) + zlen (query (t_row t)) - 1) / bs).
Record task_ok (G : ghost) (t : task) : Prop := {
  tk_idx : req_index (t_row t) = Z.of_nat (t_idx t);
  tk_old : G !! t_idx t = Some (t_old t);
  tk_query : 1 <= zlen (query (t_row t)) /\ len (t_old t) + zlen (query (t_row t)) < 2 ^ 31;
  tk_length : seq_len (t_row t) = len (t_old t) + zlen (query (t_row t));
  tk_home : 0 < len (t_old t) -> py_get (block_row (t_row t)) (old_col t) = Some (home (t_old t));
  tk_dst : py_get (block_row (t_row t)) (new_col t) = Some (t_dst t) /\ (t_dst t < n)%nat
}.
(** The block tables of a batch: the slot of a row's new column holds no state
    that is still needed. *)
Record batch_ok (G : ghost) (tasks : list task) : Prop := {
  bo_tasks : forall t, t ∈ tasks -> task_ok G t;
  bo_requests : NoDup (map t_idx tasks);
  bo_slots : NoDup (map t_dst tasks);
  bo_apart : forall t idx g, t ∈ tasks -> G !! idx = Some g -> 0 < len g -> home g = t_dst t ->
    idx = t_idx t /\ old_col t = new_col t
}.
Definition moved (t : task) : progress := mkProgress (chunks (t_old t) ++ [query (t_row t)]) (t_dst t).
Definition after (tasks : list task) (G : ghost) : ghost := foldr (fun t G => <[t_idx t := moved t]> G) G tasks.

Lemma column_floor l : 0 < bs -> 0 <= l -> (l - 1) / bs < 0 <-> l = 0.
Proof.
  intros Hb Hl. split; [|intros ->; apply Z.div_lt_upper_bound; lia]. intros Hn.
  destruct (decide (l = 0)); [done|]. pose proof (Z.div_pos (l - 1) bs ltac:(lia) Hb). lia.
Qed.

Lemma column_bound l : 0 < bs -> 0 <= l < 2 ^ 31 -> - 2 ^ 31 <= (l - 1) / bs < 2 ^ 31.
Proof.
  intros Hb Hl. split.
  - destruct (decide (l = 0)) as [->|]; [|pose proof (Z.div_pos (l - 1) bs ltac:(lia) Hb); lia].
    etrans; [|apply (Z.div_le_lower_bound _ _ (-1)); lia]. lia.
  - apply Z.div_lt_upper_bound; nia.
Qed.

Lemma np_take_ok (arr : list Z) (f : task -> Z) tasks :
  (forall t, t ∈ tasks -> req_index (t_row t) = Z.of_nat (t_idx t) /\ arr !! t_idx t = Some (f t)) ->
  np_take arr (map req_index (map t_row tasks)) = Ok (map f tasks).
Proof.
  intros Hf. unfold np_take. assert (mapM (fun i => py_get arr i) (map req_index (map t_row tasks)) = Some (map f tasks)) as ->; [|done].
  apply mapM_Some. rewrite map_map. apply Forall2_fmap, Forall_Forall2_diag, Forall_forall. intros t Ht.
  destruct (Hf t Ht) as [-> Ha]. by rewrite py_get_nat.
Qed.

Lemma gather_ok (f : move -> Z) (g : task -> nat) (mk : task -> move) tasks :
  (forall t, t ∈ tasks -> py_get (block_row (mv_row (mk t))) (f (mk t)) = Some (g t)) ->
  gather f (map mk tasks) = Ok (map g tasks).
Proof.
  intros Hf. unfold gather.
  assert (mapM (fun m => py_get (block_row (mv_row m)) (f m)) (map mk tasks) = Some (map g tasks)) as ->; [|done].
  apply mapM_Some, Forall2_fmap, Forall_Forall2_diag, Forall_forall. exact Hf.
Qed.

Lemma np_put_ok (f : task -> Z) tasks (arr : list Z) :
  (forall t, t ∈ tasks -> req_index (t_row t) = Z.of_nat (t_idx t) /\ (t_idx t < length arr)%nat) -> NoDup (map t_idx tasks) ->
  exists arr', np_put (map req_index (map t_row tasks)) (map f tasks) arr = Ok arr' /\ length arr' = length arr /\
    (forall t, t ∈ tasks -> arr' !! t_idx t = Some (f t)) /\
    forall i, i ∉ map t_idx tasks -> arr' !! i = arr !! i.
Proof.
  revert arr. induction tasks as [|t tasks IH]; intros arr Ht Hnd; simpl.
  - exists arr. split_and!; [done|done|set_solver|done].
  - apply NoDup_cons in Hnd as [Hni Hnd]. destruct (Ht t ltac:(by left)) as [Ei Hi]. rewrite Ei, py_set_in, Nat2Z.id by lia.
    destruct (IH (<[t_idx t := f t]> arr)) as (arr' & -> & Hl & Hs & Ho); [|done|].
    { intros u Hu. rewrite length_insert. apply Ht. by right. }
    rewrite length_insert in Hl. exists arr'. split_and!; [done|done| |].
    + intros u [->|Hu]%elem_of_cons; [|by apply Hs]. rewrite Ho by done. by apply list_lookup_insert_eq.
    + intros i Hi'. rewrite Ho by set_solver. apply list_lookup_insert_ne. set_solver.
Qed.

Lemma NoDup_map_eq {A B} (f : A -> B) (l : list A) x y : NoDup (map f l) -> x ∈ l -> y ∈ l -> f x = f y -> x = y.
Proof.
  induction l as [|a l IH]; simpl; [set_solver|]. intros [Ha Hnd]%NoDup_cons [->|Hx]%elem_of_cons [->|Hy]%elem_of_cons E; try done.
  - destruct Ha. rewrite E. by apply list_elem_of_fmap_2.
  - destruct Ha. rewrite <- E. by apply list_elem_of_fmap_2.
  - by apply IH.
Qed.

Lemma filter_of_map {A B} (f : A -> B) (P : B -> Prop) `{forall x, Decision (P x)} (l : list A) :
  filter P (map f l) = map f (filter (fun x => P (f x)) l).
Proof. induction l as [|a l IH]; simpl; [done|]. rewrite !filter_cons. destruct (decide (P (f a))); simpl; by rewrite IH. Qed.

Definition to_move (t : task) : move := mkMove (t_row t) (old_col t) (new_col t).
Lemma moves_of_tasks tasks :
  moves_of bs (map t_row tasks) (map (fun t => len (t_old t)) tasks) (map (fun t => old_col t) tasks) = map to_move tasks.
Proof. unfold moves_of. induction tasks as [|t tasks IH]; simpl; [done|]. by rewrite IH. Qed.

(** The two phases of the migration. *)
Lemma reset_phase tasks (s : model_state) :
  sized n k (state_layer s) ->
  (forall t, t ∈ tasks -> py_get (block_row (t_row t)) (new_col t) = Some (t_dst t) /\ (t_dst t < n)%nat) ->
  wp (if zlen (map to_move tasks) =? 0 then ret tt else
      let! reset_indices := lift (gather new_column (map to_move tasks)) in on_layer (reset_state_slots zero_shift reset_indices))
    (fun _ s' => exists l', s' = set_layer l' s /\ sized n k l' /\
       forall x, slot l' x = if decide (x ∈ map t_dst tasks) then fresh zero_shift k else slot (state_layer s) x) s.
Proof.
  intros Hl Ht. rewrite length_map. destruct (zlen tasks =? 0) eqn:E; bools; wp_simpl.
  - destruct tasks; [|done]. exists (state_layer s). split; [by destruct s|]. split; [done|]. intros x. by rewrite decide_False by set_solver.
  - exists (map t_dst tasks). split; [apply gather_ok; intros t Hin; by apply Ht|]. unfold on_layer. wp_simpl.
    eapply wp_mono; [apply reset_slots_ok; [done|]; intros x (t & -> & Hin)%list_elem_of_fmap; by apply Ht|].
    intros [] l' [H1 H2]. by exists l'.
Qed.

Lemma copy_phase tasks (s : model_state) :
  sized n k (state_layer s) -> NoDup (map t_dst tasks) ->
  (forall t, t ∈ tasks -> py_get (block_row (t_row t)) (old_col t) = Some (home (t_old t)) /\ (home (t_old t) < n)%nat /\
     py_get (block_row (t_row t)) (new_col t) = Some (t_dst t) /\ (t_dst t < n)%nat) ->
  (forall t u, t ∈ tasks -> u ∈ tasks -> home (t_old t) <> t_dst u) ->
  wp (if zlen (map to_move tasks) =? 0 then ret tt else
      let! source_indices := lift (gather old_column (map to_move tasks)) in
      let! destination_indices := lift (gather new_column (map to_move tasks)) in
      on_layer (copy_state_slots source_indices destination_indices))
    (fun _ s' => exists l', s' = set_layer l' s /\ sized n k l' /\
       (forall t, t ∈ tasks -> slot l' (t_dst t) = slot (state_layer s) (home (t_old t))) /\
       forall x, x ∉ map t_dst tasks -> slot l' x = slot (state_layer s) x) s.
Proof.
  intros Hl Hnd Ht Hap. rewrite length_map. destruct (zlen tasks =? 0) eqn:E; bools; wp_simpl.
  - destruct tasks; [|done]. exists (state_layer s). split_and!; [by destruct s|done|set_solver|done].
  - exists (map (fun t => home (t_old t)) tasks). split; [apply gather_ok; intros t Hin; by apply Ht|]. wp_simpl.
    exists (map t_dst tasks). split; [apply gather_ok; intros t Hin; by apply Ht|]. unfold on_layer. wp_simpl.
    eapply wp_mono; [apply (copy_ok _ _ (state_layer s) n k); [done|by rewrite !length_map| |done|]|].
    + intros x [(t & -> & Hin)%list_elem_of_fmap|(t & -> & Hin)%list_elem_of_fmap]%elem_of_app; by apply Ht.
    + intros x (t & -> & Hin)%list_elem_of_fmap (u & Eu & Hu)%list_elem_of_fmap. by apply (Hap t u).
    + intros [] l' (Hs & Hc & Hf). exists l'. split_and!; [done|done| |done]. intros t [i Hi]%list_elem_of_lookup.
      apply (Hc i); rewrite list_lookup_fmap, Hi; done.
Qed.

Lemma zip_with_map_tasks (f : task -> Z) (g : Z -> batch_row -> Z) tasks :
  zip_with g (map f tasks) (map t_row tasks) = map (fun t => g (f t) (t_row t)) tasks.
Proof. induction tasks as [|t tasks IH]; simpl; [done|]. by rewrite IH. Qed.

Section batch.
Context (s : model_state) (G : ghost) (tasks : list task).
Hypothesis Htr : tracked s G.
Hypothesis Hb : batch_ok G tasks.

Lemma task_tracked t : t ∈ tasks -> request_tracked s (t_idx t) (t_old t).
Proof. intros Ht. apply (tr_requests _ _ Htr). by apply (bo_tasks _ _ Hb). Qed.

(** A needed state is only overwritten by its own row, which then stays. *)
Lemma home_apart t u : t ∈ tasks -> u ∈ tasks -> 0 < len (t_old t) -> home (t_old t) = t_dst u -> t = u /\ old_col u = new_col u.
Proof.
  intros Ht Hu Hl E. destruct (bo_apart _ _ Hb u (t_idx t) (t_old t) Hu) as [Ei Eo]; [|done|done|].
  - by apply (bo_tasks _ _ Hb).
  - split; [|done]. by apply (NoDup_map_eq t_idx tasks); [apply Hb|..].
Qed.

Lemma same_slot t : t ∈ tasks -> 0 < len (t_old t) -> old_col t = new_col t -> home (t_old t) = t_dst t.
Proof.
  intros Ht Hl E. destruct (bo_tasks _ _ Hb t Ht) as [_ _ _ _ Hh [Hd _]]. specialize (Hh Hl). rewrite E in Hh. congruence.
Qed.

Lemma starts t : t ∈ tasks -> old_col t < 0 <-> len (t_old t) = 0.
Proof. intros Ht. apply column_floor; [apply Htr|lia]. Qed.

Abbreviation fresh_tasks := (filter (fun t => old_column (to_move t) < 0) tasks).
Abbreviation moving_tasks := (filter (fun t => 0 <= old_column (to_move t) /\ old_column (to_move t) <> new_column (to_move t)) tasks).

(** After both phases every row's slot holds the state of its request. *)
Lemma migrated l1 l2 :
  (forall x, slot l1 x = if decide (x ∈ map t_dst fresh_tasks) then fresh zero_shift k else slot (state_layer s) x) ->
  (forall t, t ∈ moving_tasks -> slot l2 (t_dst t) = slot l1 (home (t_old t))) ->
  (forall x, x ∉ map t_dst moving_tasks -> slot l2 x = slot l1 x) ->
  (forall t, t ∈ tasks -> slot l2 (t_dst t) = state_after (chunks (t_old t))) /\
  forall x, x ∉ map t_dst tasks -> slot l2 x = slot (state_layer s) x.
Proof.
  intros H1 H2 H3.
  assert (forall t (P : task -> Prop) `{forall x, Decision (P x)}, t ∈ tasks -> t_dst t ∈ map t_dst (filter P tasks) -> P t) as Hin.
  { intros t P ? Ht (u & E & [HP Hu]%list_elem_of_filter)%list_elem_of_fmap.
    by rewrite (NoDup_map_eq t_dst tasks t u (bo_slots _ _ Hb) Ht Hu E). }
  split.
  - intros t Ht. destruct (task_tracked t Ht) as [_ _ _ Hst Hs]. pose proof (starts t Ht) as Hz.
    destruct (decide (len (t_old t) = 0)) as [Hl|Hl].
    + rewrite H3 by (intros Hm%Hin; [simpl in Hm; lia|done]). rewrite H1, decide_True, (Hst Hl); [done|].
      apply list_elem_of_fmap. exists t. split; [done|]. apply list_elem_of_filter. simpl. split; [lia|done].
    + destruct Hs as [Hn Hs]; [lia|]. assert (home (t_old t) ∉ map t_dst fresh_tasks) as Hnf.
      { intros (u & E & [HP Hu]%list_elem_of_filter)%list_elem_of_fmap. simpl in HP.
        destruct (home_apart t u Ht Hu ltac:(lia) E) as [<- _]. lia. }
      destruct (decide (old_col t = new_col t)) as [E|E].
      * rewrite <- (same_slot t Ht) by (done || lia). rewrite H3, H1, decide_False by done || (rewrite (same_slot t Ht) by (done || lia); intros Hm%Hin; [simpl in Hm; lia|done]). done.
      * rewrite H2, H1, decide_False by done || (apply list_elem_of_filter; simpl; split; [lia|done]). done.
  - intros x Hx. rewrite H3, H1, decide_False; [done|..]; intros (u & E & [_ Hu]%list_elem_of_filter)%list_elem_of_fmap;
      apply Hx; subst x; by apply list_elem_of_fmap_2.
Qed.

Record preprocessed (s' : model_state) : Prop := {
  pp_config : align_mode s' = true /\ state_block_size s' = bs;
  pp_layer : sized n k (state_layer s');
  pp_slots : forall t, t ∈ tasks -> slot (state_layer s') (t_dst t) = state_after (chunks (t_old t));
  pp_frame : forall x, x ∉ map t_dst tasks -> slot (state_layer s') x = slot (state_layer s) x;
  pp_rows : forall t, t ∈ tasks -> state_block_columns s' !! t_idx t = Some (new_col t) /\
    state_num_computed_tokens s' !! t_idx t = Some (len (t_old t) + zlen (query (t_row t)));
  pp_others : forall i, i ∉ map t_idx tasks -> state_block_columns s' !! i = state_block_columns s !! i /\
    state_num_computed_tokens s' !! i = state_num_computed_tokens s !! i
}.

Lemma preprocess_ok : tasks <> [] -> wp (preprocess_state zero_shift (map t_row tasks)) (fun _ => preprocessed) s.
Proof.
  intros Hne. destruct Htr as [(Ha & Ebs & Hbs) Hl Hreq]. unfold preprocess_state. wp_simpl. rewrite Ha. simpl.
  rewrite length_map. destruct (zlen tasks =? 0) eqn:E0; bools; [by destruct tasks|]. wp_simpl.
  exists (map (fun t => len (t_old t)) tasks). split.
  { apply np_take_ok. intros t Ht. split; [by apply (bo_tasks _ _ Hb)|apply (task_tracked t Ht)]. } wp_simpl.
  exists (map (fun t => old_col t) tasks). split.
  { apply np_take_ok. intros t Ht. split; [by apply (bo_tasks _ _ Hb)|apply (task_tracked t Ht)]. } wp_simpl.
  rewrite Ebs, moves_of_tasks, !filter_of_map.
  eapply wp_mono; [apply reset_phase; [done|]|].
  { intros t [_ Ht]%list_elem_of_filter. by apply (bo_tasks _ _ Hb). }
  intros [] s1 (l1 & -> & Hl1 & H1). wp_simpl.
  eapply wp_mono; [apply copy_phase; [done| | |]|].
  { eapply sublist_NoDup; [apply (bo_slots _ _ Hb)|]. apply fmap_sublist, sublist_filter. }
  { intros t [[Ho _] Ht]%list_elem_of_filter. simpl in Ho. pose proof (starts t Ht).
    destruct (bo_tasks _ _ Hb t Ht) as [_ _ _ _ Hh Hd]. destruct (rt_state _ _ _ (task_tracked t Ht)) as [Hn _]; [lia|].
    split; [apply Hh; lia|]. by split. }
  { intros t u [[Ho _] Ht]%list_elem_of_filter [[_ Hne'] Hu]%list_elem_of_filter E. simpl in Ho, Hne'.
    pose proof (starts t Ht). destruct (home_apart t u Ht Hu ltac:(lia) E) as [_ ?]. done. }
  intros [] s2 (l2 & -> & Hl2 & H2 & H3). wp_simpl.
  destruct (migrated l1 l2 H1 H2 H3) as [Hsl Hfr]. rewrite (map_map to_move).
  destruct (np_put_ok (fun t => wrap_signed 32 (new_column (to_move t))) tasks (state_block_columns s)) as (cols & Ec & _ & Hc1 & Hc2); [|apply Hb|].
  { intros t Ht. split; [by apply (bo_tasks _ _ Hb)|]. eapply lookup_lt_Some, (rt_column _ _ _ (task_tracked t Ht)). }
  exists cols. split; [exact Ec|]. wp_simpl.
  destruct (np_put_ok (fun t => wrap_signed 64 (len (t_old t) + zlen (query (t_row t)))) tasks (state_num_computed_tokens s))
    as (comp & Ep & _ & Hp1 & Hp2); [|apply Hb|].
  { intros t Ht. split; [by apply (bo_tasks _ _ Hb)|]. eapply lookup_lt_Some, (rt_computed _ _ _ (task_tracked t Ht)). }
  exists comp. split; [by rewrite zip_with_map_tasks|]. wp_simpl. split; simpl; try done.
  - intros t Ht. rewrite (Hc1 t Ht), (Hp1 t Ht). destruct (bo_tasks _ _ Hb t Ht) as [_ _ [Hq1 Hq2] _ _ _]. simpl.
    rewrite !wrap_signed_id; [done|lia|lia|lia|]. apply column_bound; [done|lia].
  - intros i Hi. split; [by apply Hc2|by apply Hp2].
Qed.
End batch.

Lemma after_lookup tasks G idx g :
  NoDup (map t_idx tasks) -> after tasks G !! idx = Some g ->
  (exists t, t ∈ tasks /\ t_idx t = idx /\ g = moved t) \/ (idx ∉ map t_idx tasks /\ G !! idx = Some g).
Proof.
  induction tasks as [|t tasks IH]; simpl; [right; split; [set_solver|done]|]. intros [Ht Hnd]%NoDup_cons Hg.
  destruct (decide (t_idx t = idx)) as [<-|Hne].
  - rewrite lookup_insert_eq in Hg. injection Hg as <-. left. exists t. split; [by left|done].
  - rewrite lookup_insert_ne in Hg by done. destruct (IH Hnd Hg) as [(u & ? & ? & ?)|[? ?]].
    + left. exists u. split; [by right|done].
    + right. split; [set_solver|done].
Qed.

Lemma after_in tasks G t : NoDup (map t_idx tasks) -> t ∈ tasks -> after tasks G !! t_idx t = Some (moved t).
Proof.
  induction tasks as [|u tasks IH]; simpl; [set_solver|]. intros [Hu Hnd]%NoDup_cons [->|Ht]%elem_of_cons.
  - by rewrite lookup_insert_eq.
  - rewrite lookup_insert_ne; [by apply IH|]. intros E. apply Hu. rewrite E. by apply list_elem_of_fmap_2.
Qed.

Lemma moved_len t : len (moved t) = len (t_old t) + zlen (query (t_row t)).
Proof. simpl. rewrite concat_app, length_app. simpl. rewrite app_nil_r. lia. Qed.

Lemma state_index_ok G t : 0 < bs -> task_ok G t ->
  state_index true bs (block_row (t_row t)) (seq_len (t_row t)) = Ok (t_dst t).
Proof.
  intros Hb [_ _ [Hq _] El _ [Hd _]]. unfold state_index. rewrite El.
  pose proof (Z.div_pos (len (t_old t) + zlen (query (t_row t)) - 1) bs ltac:(lia) Hb). by rewrite Z.max_r, Hd by lia.
Qed.

Lemma execute_ok s G tasks :
  kernel_ok -> tracked s G -> batch_ok G tasks ->
  wp (execute zero_shift kernel (map t_row tasks)) (fun _ s' => tracked s' (after tasks G)) s.
Proof.
  intros Hk Htr Hb. unfold execute. wp_simpl.
  assert (wp (preprocess_state zero_shift (map t_row tasks)) (fun _ => preprocessed s tasks) s) as Hpre.
  { destruct (decide (tasks = [])) as [->|Hne]; [|by apply (preprocess_ok s G)]. unfold preprocess_state. wp_simpl. rewrite orb_true_r. wp_simpl.
    pose proof Htr as [(? & ? & _) ? _]. split; try done; intros t Ht; by apply not_elem_of_nil in Ht. }
  eapply wp_mono; [exact Hpre|]. intros [] s1 [[Ha Eb] Hl Hsl Hfr Hrow Hoth]. wp_simpl. rewrite Ha, Eb.
  pose proof Htr as [(_ & _ & Hbs) _ Hreq]. exists (map t_dst tasks). split.
  { assert (mapM (fun r => match state_index true bs (block_row r) (seq_len r) with Ok i => Some i | Raise _ => None end)
      (map t_row tasks) = Some (map t_dst tasks)) as ->; [|done].
    apply mapM_Some, Forall2_fmap, Forall_Forall2_diag, Forall_forall. intros t Ht.
    by rewrite (state_index_ok G t Hbs (bo_tasks _ _ Hb t Ht)). }
  unfold on_layer. wp_simpl. set (work := zip (map t_dst tasks) (map query (map t_row tasks))).
  assert (work.*1 = map t_dst tasks) as Ew by (unfold work; rewrite fst_zip; [done|rewrite !length_map; lia]).
  assert (forall t, t ∈ tasks -> (t_dst t, query (t_row t)) ∈ work) as Hw.
  { intros t [i Hi]%list_elem_of_lookup. apply list_elem_of_lookup. exists i. apply lookup_zip_with_Some.
    exists (t_dst t), (query (t_row t)). rewrite !list_lookup_fmap, Hi. done. }
  split; [done|by apply Hk|]. intros idx g Hg. destruct (after_lookup tasks G idx g (bo_requests _ _ Hb) Hg) as [(t & Ht & <- & ->)|[Hni Hgi]].
  - destruct (Hrow t Ht) as [Hc Hn]. destruct (bo_tasks _ _ Hb t Ht) as [_ _ [Hq1 Hq2] _ _ [_ Hd]].
    split; rewrite ?moved_len; simpl; [done|done|lia|lia|]. intros _. split; [done|].
    rewrite (ko_advance Hk work _ _ (query (t_row t))), (Hsl t Ht) by (done || rewrite ?Ew; by apply Hb || by apply Hw).
    unfold state_after. by rewrite foldl_app.
  - destruct (Hreq idx g Hgi) as [Hc Hn Hlen Hst Hs]. destruct (Hoth idx Hni) as [Ec En].
    split; simpl; [by rewrite Ec|by rewrite En|done|done|]. intros Hpos. destruct (Hs Hpos) as [Hh Hv]. split; [done|].
    assert (home g ∉ map t_dst tasks) as Hnd.
    { intros (t & E & Ht)%list_elem_of_fmap. destruct (bo_apart _ _ Hb t idx g Ht Hgi Hpos E) as [-> _].
      apply Hni. by apply list_elem_of_fmap_2. }
    rewrite (ko_frame Hk), Hfr by (done || by rewrite Ew). done.
Qed.

(** * Reachable states *)

Definition unused (G : ghost) (x : nat) : Prop := forall idx g, G !! idx = Some g -> 0 < len g -> home g <> x.

Inductive rwkv_reachable : model_state -> ghost -> Prop :=
| rr_init l max_num_reqs :
    0 < bs -> sized n k l ->
    rwkv_reachable (mkModelState l true bs (replicate max_num_reqs (-1)) (replicate max_num_reqs 0)) ∅
| rr_add s G idx g s' :
    rwkv_reachable s G -> len g < 2 ^ 31 -> (len g = 0 -> chunks g = []) ->
    (0 < len g -> (home g < n)%nat /\ slot (state_layer s) (home g) = state_after (chunks g)) ->
    add_request (Z.of_nat idx) (len g) s = (Ok tt, s') -> rwkv_reachable s' (<[idx := g]> G)
| rr_remove s G idx : rwkv_reachable s G -> rwkv_reachable s (delete idx G)
| rr_reset s G ids s' :
    rwkv_reachable s G -> (forall x, x ∈ ids -> (x < n)%nat /\ unused G x) ->
    reset_kv_cache_blocks zero_shift ids s = (Ok true, s') -> rwkv_reachable s' G
| rr_copy s G pairs s' :
    rwkv_reachable s G -> NoDup pairs.*2 -> pairs.*1 ## pairs.*2 -> (forall x, x ∈ pairs.*1 ++ pairs.*2 -> (x < n)%nat) ->
    (forall x, x ∈ pairs.*2 -> unused G x) ->
    copy_kv_cache_blocks pairs s = (Ok true, s') -> rwkv_reachable s' G
| rr_step s G tasks s' :
    rwkv_reachable s G -> batch_ok G tasks ->
    execute zero_shift kernel (map t_row tasks) s = (Ok tt, s') -> rwkv_reachable s' (after tasks G).

Lemma frame_tracked s G l :
  tracked s G -> sized n k l -> (forall x, ~ unused G x -> slot l x = slot (state_layer s) x) -> tracked (set_layer l s) G.
Proof.
  intros [Hc Hl Hr] Hl' Hs. split; [done|done|]. intros idx g Hg. destruct (Hr idx g Hg) as [? ? ? ? Hst]. split; try done.
  intros Hp. destruct (Hst Hp) as [Hn E]. split; [done|]. simpl. rewrite Hs; [done|]. intros Hu. by apply (Hu idx g Hg Hp).
Qed.

Lemma np_set_ok w array i value array' : np_set w array i value = Ok array' -> py_set array i value = Some array'.
Proof. unfold np_set. destruct (py_set _ _ _); simpl; [|done]. destruct (_ && _); [by intros [= ->]|done]. Qed.

Lemma add_tracked s G idx g s' :
  tracked s G -> len g < 2 ^ 31 -> (len g = 0 -> chunks g = []) ->
  (0 < len g -> (home g < n)%nat /\ slot (state_layer s) (home g) = state_after (chunks g)) ->
  add_request (Z.of_nat idx) (len g) s = (Ok tt, s') -> tracked s' (<[idx := g]> G).
Proof.
  intros [(Ha & Eb & Hb) Hl Hr] Hlen Hst Hs E. unfold add_request, bind, gets, lift, modify in E.
  destruct (np_set 32 _ _ _) as [cols|] eqn:Ec; [|done]. apply np_set_ok in Ec. simpl in E.
  destruct (np_set 64 _ _ _) as [comp|] eqn:Ep; [|done]. apply np_set_ok in Ep. rewrite Eb in Ec. injection E as <-.
  apply py_set_nat in Ec as [Hi1 ->]. apply py_set_nat in Ep as [Hi2 ->]. split; [done|done|].
  intros i h Hh. destruct (decide (i = idx)) as [->|Hne].
  - rewrite lookup_insert_eq in Hh. injection Hh as <-. split; simpl; [by apply list_lookup_insert_eq..|done|done|done].
  - rewrite lookup_insert_ne in Hh by done. destruct (Hr i h Hh) as [? ? ? ? Hsh].
    split; simpl; [by rewrite list_lookup_insert_ne by done..|done|done|done].
Qed.

Lemma rwkv_reachable_tracked s G : kernel_ok -> rwkv_reachable s G -> tracked s G.
Proof.
  intros Hk. induction 1 as [l m Hb Hl|s G idx g s' _ IH Hlen Hst Hs E|s G idx _ IH|s G ids s' _ IH Hids E|
    s G pairs s' _ IH Hnd Hdis Hr Hu E|s G tasks s' _ IH Hbt E].
  - split; [done|done|]. intros idx g Hg. by rewrite lookup_empty in Hg.
  - by eapply add_tracked.
  - destruct IH as [Hc Hl Hr]. split; [done|done|]. intros i g Hg. apply Hr. by apply lookup_delete_Some in Hg as [_ ?].
  - assert (wp (reset_kv_cache_blocks zero_shift ids) (fun _ s' => tracked s' G) s) as Hw; [|unfold wp in Hw; by rewrite E in Hw].
    unfold reset_kv_cache_blocks, on_layer. wp_simpl.
    eapply wp_mono; [apply (reset_slots_ok _ _ _ n k); [apply IH|intros x Hx; by apply Hids]|]. intros [] l' [Hl' Hs']. wp_simpl.
    apply frame_tracked; [done|done|]. intros x Hx. rewrite Hs', decide_False; [done|]. intros Hin. apply Hx. by apply Hids.
  - assert (wp (copy_kv_cache_blocks pairs) (fun _ s' => tracked s' G) s) as Hw; [|unfold wp in Hw; by rewrite E in Hw].
    unfold copy_kv_cache_blocks, on_layer, copy_state_block_pairs. wp_simpl.
    assert (wp (match pairs with [] => ret tt | _ => copy_state_slots pairs.*1 pairs.*2 end) (fun _ l' => sized n k l' /\
      forall x, x ∉ pairs.*2 -> slot l' x = slot (state_layer s) x) (state_layer s)) as Hcp.
    { destruct pairs as [|pr pairs]; [wp_simpl; split; [apply IH|done]|].
      eapply wp_mono; [apply (copy_ok _ _ _ n k); [apply IH|by rewrite !length_fmap|done|done|done]|]. naive_solver. }
    eapply wp_mono; [exact Hcp|]. intros [] l' [Hl' Hs']. wp_simpl. apply frame_tracked; [done|done|].
    intros x Hx. apply Hs'. intros Hin. apply Hx. by apply Hu.
  - pose proof (execute_ok s G tasks Hk IH Hbt) as Hw. unfold wp in Hw. by rewrite E in Hw.
Qed.

(** C15: recurrent state.  Whatever requests are added (fresh or on a cached
    prefix), removed, moved and run, in align mode every request's slot holds
    exactly the state its own token chunks produce from the zero state, and the
    worker's token count is theirs.  A batch whose block tables keep the needed
    slots apart always runs: states are migrated across block boundaries before
    the kernels read them, and afterwards each row's new slot holds the state
    after its scheduled tokens. *)
Theorem rwkv_state_tracks_tokens s G :
  kernel_ok -> rwkv_reachable s G ->
  (forall idx g, G !! idx = Some g -> state_num_computed_tokens s !! idx = Some (len g) /\
     (0 < len g -> slot (state_layer s) (home g) = state_after (chunks g))) /\
  forall tasks, batch_ok G tasks -> exists s', execute zero_shift kernel (map t_row tasks) s = (Ok tt, s') /\
    forall t, t ∈ tasks -> slot (state_layer s') (t_dst t) = state_after (chunks (t_old t) ++ [query (t_row t)]).
Proof.
  intros Hk Hr. pose proof (rwkv_reachable_tracked s G Hk Hr) as Htr. split.
  - intros idx g Hg. destruct (tr_requests _ _ Htr idx g Hg) as [_ Hc _ _ Hs]. split; [done|]. intros Hp. by apply Hs.
  - intros tasks Hb. pose proof (execute_ok s G tasks Hk Htr Hb) as ([] & s' & E & Htr')%wp_run. exists s'. split; [done|].
    intros t Ht. destruct (tr_requests _ _ Htr' (t_idx t) (moved t)) as [_ _ _ _ Hs]; [by apply after_in; [apply Hb|]|].
    destruct (bo_tasks _ _ Hb t Ht) as [_ _ [Hq _] _ _ _]. rewrite moved_len in Hs. by apply Hs; lia.
Qed.
End tracking.

(** * An instance *)

(** Handles as functions from slots, with a number for a matrix state; the
    kernel adds up the tokens. *)
#[export] Instance demo_handle : StateHandle (nat -> Z) Z := {|
  read h s := h s;
  zero_state := 0;
  reset_slots_ ids h s := if decide (s ∈ ids) then 0 else h s;
  copy_slots_ src dst h s := match list_find (fun x => x = s) dst with
                             | Some (i, _) => match src !! i with Some a => h a | None => h s end
                             | None => h s
                             end
|}.
#[export] Instance demo_handle_laws : StateHandleLaws (nat -> Z) Z.
Proof.
  split; [done| |].
  - intros src dst h k a b Hnd _ Ha Hb. simpl. destruct (list_find (fun x => x = b) dst) as [[i x]|] eqn:E.
    + apply list_find_Some in E as (Hi & -> & _). rewrite (NoDup_lookup _ _ _ _ Hnd Hi Hb), Ha. done.
    + apply list_find_None in E. rewrite Forall_forall in E. destruct (E b); [|done]. by eapply list_elem_of_lookup_2.
  - intros src dst h s Hs. simpl. destruct (list_find _ dst) as [[i x]|] eqn:E; [|done].
    apply list_find_Some in E as (Hi & -> & _). destruct Hs. by eapply list_elem_of_lookup_2.
Qed.

Abbreviation demo_layer := (RwkvStateLayer (nat -> Z) unit).
Definition total (q : list Z) : Z := foldr Z.add 0 q.
Definition demo_advance (st : option unit * option unit * list Z) (q : list Z) : option unit * option unit * list Z :=
  (st.1, map (fun w => 10 * w + total q) st.2).
Definition demo_kernel (work : list (nat * list Z)) (l : demo_layer) : demo_layer :=
  mkLayer (tmix_shift_pool l) (cmix_shift_pool l)
    (map (fun h s => match list_find (fun x => x.1 = s) work with Some (_, x) => 10 * h s + total x.2 | None => h s end)
      (wkv_handles l)).

Lemma demo_kernel_ok : kernel_ok 3 1 demo_advance demo_kernel.
Proof.
  split.
  - intros work l (Ht & Hc & Hk). repeat split; simpl; [done|done|by rewrite length_map].
  - intros work l s q _ Hnd Hin. unfold slot, demo_advance, demo_kernel. simpl. f_equal. rewrite !map_map. apply map_ext. intros h. simpl.
    destruct (list_find (fun x => x.1 = s) work) as [[i x]|] eqn:E.
    + apply list_find_Some in E as (Hi & Hx & _). apply list_elem_of_lookup in Hin as [j Hj].
      assert (i = j) as ->; [|rewrite Hi in Hj; by injection Hj as ->]. eapply NoDup_lookup; [exact Hnd| |]; rewrite list_lookup_fmap; [rewrite Hi; simpl; by rewrite Hx|by rewrite Hj].
    + apply list_find_None in E. rewrite Forall_forall in E. exfalso. by apply (E (s, q) Hin).
  - intros work l s _ Hs. unfold slot, demo_kernel. simpl. f_equal. rewrite map_map. apply map_ext. intros h. simpl.
    destruct (list_find (fun x => x.1 = s) work) as [[i x]|] eqn:E; [|done].
    apply list_find_Some in E as (Hi & <- & _). destruct Hs. apply list_elem_of_fmap. exists x. split; [done|]. by eapply list_elem_of_lookup_2.
Qed.

Definition demo_state : RwkvModelState (nat -> Z) unit :=
  mkModelState (mkLayer [tt; tt; tt] [tt; tt; tt] [fun _ => 99]) true 2 [-1; -1] [0; 0].
Definition demo_new : progress := mkProgress [] 0.
(** Three tokens end in the second block, two more in the third. *)
Definition demo_first : task := mkTask (mkRow 0 [5; 7; 9] 3 [1; 2]%nat) 0 demo_new 2.
Definition demo_second : task := mkTask (mkRow 0 [4; 6] 5 [1; 2; 0]%nat) 0 (moved demo_first) 0.

Lemma demo_added : rwkv_reachable tt 3 1 2 demo_advance demo_kernel demo_state {[ 0%nat := demo_new ]}.
Proof.
  apply (rr_add tt 3 1 2 demo_advance demo_kernel demo_state ∅ 0 demo_new demo_state); [|vm_compute; done|done|done|vm_compute; reflexivity].
  apply (rr_init tt 3 1 2 demo_advance demo_kernel _ 2); [lia|done].
Qed.

Lemma demo_batch G t :
  task_ok 3 2 G t -> G = {[ t_idx t := t_old t ]} -> (0 < zlen (concat (chunks (t_old t))) -> home (t_old t) <> t_dst t) ->
  batch_ok 3 2 G [t].
Proof.
  intros Ht -> Hh. split; [by intros u ->%list_elem_of_singleton|apply NoDup_singleton|apply NoDup_singleton|].
  intros u idx g ->%list_elem_of_singleton Hg Hp E. apply lookup_singleton_Some in Hg as [<- <-]. by destruct Hh.
Qed.

Lemma rwkv_state_tracks_tokens_witness :
  exists s1 s2, execute tt demo_kernel [t_row demo_first] demo_state = (Ok tt, s1) /\
    execute tt demo_kernel [t_row demo_second] s1 = (Ok tt, s2) /\
    slot (state_layer s2) 0 = (Some tt, Some tt, [220]).
Proof.
  destruct (rwkv_state_tracks_tokens tt 3 1 2 demo_advance demo_kernel demo_state {[ 0%nat := demo_new ]}
    demo_kernel_ok demo_added) as [_ H1].
  assert (batch_ok 3 2 {[ 0%nat := demo_new ]} [demo_first]) as B1.
  { apply demo_batch; [|reflexivity|vm_compute; discriminate].
    split; [reflexivity|reflexivity|split; [vm_compute; discriminate|vm_compute; reflexivity]|reflexivity|vm_compute; discriminate|split; [reflexivity|simpl; lia]]. }
  destruct (H1 [demo_first] B1) as (s1 & E1 & _).
  destruct (rwkv_state_tracks_tokens tt 3 1 2 demo_advance demo_kernel s1 {[ 0%nat := moved demo_first ]}) as [_ H2];
    [exact demo_kernel_ok|exact (rr_step tt 3 1 2 demo_advance demo_kernel demo_state _ [demo_first] s1 demo_added B1 E1)|].
  assert (batch_ok 3 2 {[ 0%nat := moved demo_first ]} [demo_second]) as B2.
  { apply demo_batch; [|reflexivity|intros _; vm_compute; discriminate].
    split; [reflexivity|reflexivity|split; [vm_compute; discriminate|vm_compute; reflexivity]|reflexivity|intros _; reflexivity|split; [reflexivity|simpl; lia]]. }
  destruct (H2 [demo_second] B2) as (s2 & E2 & Hs). exists s1, s2. split; [exact E1|]. split; [exact E2|].
  exact (Hs demo_second (list_elem_of_here _ _)).
Defined.
